(* ===== verification/_CoqProject ===== *)
-Q . S2P
Prelude.v
Tasks.v
Data.v
Text.v
Errors.v
Options.v
Node.v
ClusterConfig.v
NodeConfig.v
Mapper.v
Backend.v
MemBackend.v
Network.v
Operations.v
Quorum.v
ClusterLaws.v
QuorumPut.v
QuorumGet.v
QuorumDelete.v
QuorumExist.v
SimpleQuorum.v
Access.v
Server.v
ClusterWorld.v
PearlUtils.v
PearlWorld.v
PearlHolder.v
PearlGroup.v
PearlLaws.v
PearlReads.v
PearlWrites.v
PearlHistory.v
PearlSettings.v
PearlDisk.v
PearlBackend.v
PearlStates.v
PearlRefine.v
PearlStop.v
PearlExample.v
RestKey.v
Rest.v
RestAdmin.v
RestPartition.v
Cleaner.v
CleanerTurns.v
LinkManager.v
ConfigGen.v
GenPlacement.v
GenConfig.v
GenBalance.v
Float.v
Metrics.v
MetricsExport.v
GraphiteSocket.v
HwMetrics.v
RecoveryTool.v
GrpcTools.v
Bobc.v
Bobp.v
Bobt.v
Bobd.v
Ccg.v
InterNode.v
EventLog.v
