(* ===== verification/Prelude.v ===== *)
(** * Bob: a verification library

    Bob is a distributed storage of binary objects: a cluster of nodes keeps every key on
    the nodes that hold the replicas of its virtual disk.  This library models its code
    under src/ and proves what makes it correct.

    ** The program and the files that model it

    A client sends put, get, exist and delete over gRPC to any node ([Server.v]:
    bob/src/server.rs, grinder.rs, cluster/mod.rs), which authenticates it ([Access.v]:
    bob-access/src) and serves the request from its own disks or through the cluster policy
    ([Quorum.v] with [Operations.v]: bob/src/cluster/quorum.rs, operations.rs,
    support_types.rs; [SimpleQuorum.v]: cluster/simple.rs).  The policy asks the mapper
    where a key lives ([Mapper.v]: bob-common/src/mapper.rs), calls the other nodes
    ([Network.v]: bob-common/src/bob_client.rs, bob/src/link_manager.rs) and its own backend
    ([Backend.v]: bob-backend/src/core.rs).  The backend runs over a storage, an
    implementation of the record [BackendStorage]: in memory ([MemBackend.v]:
    mem_backend.rs, stub_backend.rs), or on disks through the crate [pearl]
    (bob-backend/src/pearl).  The latter is a [Pearl] ([PearlBackend.v]: core.rs) of disk
    controllers ([PearlDisk.v]: disk_controller.rs, [PearlSettings.v]: settings.rs, [EventLog.v]: logger.rs), each
    with a [Group] per virtual disk ([PearlGroup.v]: group.rs, hooks.rs), each with a
    [Holder] per period of time ([PearlHolder.v]: holder.rs); [PearlUtils.v] has the names
    and times of partitions (utils.rs) and [PearlWorld.v] the data and the store they
    share.  Data, errors, options, nodes and configurations are [Data.v] (bob-common/src/data.rs,
    bob-backend/src/pearl/data.rs), [Errors.v] (error.rs), [Options.v]
    (operation_options.rs, bob-grpc/src/lib.rs), [Node.v] (node.rs, core_types.rs),
    [ClusterConfig.v] and [NodeConfig.v] (configs/), over the strings of [Text.v].

    Beside the requests a node has its REST server ([Rest.v] for data and S3, [RestKey.v] for
    keys in paths, [RestAdmin.v] for administration, [RestPartition.v] for partitions: bob/src/api), the periodic tasks
    ([Cleaner.v] with [CleanerTurns.v]: cleaner.rs, counter.rs; [LinkManager.v]: link_manager.rs), its metrics
    ([Metrics.v]: bob-common/src/metrics, recorders, accumulator and rates; [MetricsExport.v]: names,
    the text sent to Graphite and the model of /metrics; [GraphiteSocket.v]: the socket that
    reconnects; [Float.v]: the binary64 numbers they use) and those of the hardware
    ([HwMetrics.v]: bob/src/hw_metrics_collector.rs).

    The programs of bob-apps/bin are the daemon ([Bobd.v]: bobd.rs), the generator of cluster
    configurations ([ConfigGen.v], with the proofs in [GenPlacement.v], [GenConfig.v] and [GenBalance.v], and
    its command line [Ccg.v]: config_cluster_generator/, ccg.rs), the tool that repairs blobs
    ([RecoveryTool.v]: blob_recovery_tool/), the command-line client ([Bobc.v]: bobc.rs), the
    benchmark ([Bobp.v]: bobp.rs) and the tester ([Bobt.v]: bobt.rs, bob-common/src/stopwatch.rs);
    [GrpcTools.v] is what bobc and bobp share.  [InterNode.v] puts the two ends of a request between
    nodes together.

    ** How the code is modelled

    Pure functions are functions; machine integers are [Z] with their wrap-around written
    out ([wrap64] and the like); a [Result] is [result].  Stateful code runs in [M W A], a
    state monad over a world [W] whose [None] is a panic, since every profile is built with
    [panic = "abort"].  Objects shared through [Arc] are handles into a store in the world,
    so that clones see one state.  Loops are [for_each], a [Fixpoint] on the list they
    empty, or a [Fixpoint] with the fuel that is proved enough: [get_support_nodes] runs on the oracle of
    the connections with a bound on its turns, [start_loop] with [start_fuel], the loops of the cleaner
    with the bytes over the limit or the holders with something to free.  Tasks that interleave
    between any two of their accesses to shared state are programs of atomic steps ([Tasks.v]).

    The cluster policies are generic in the classes [BackendStorage] (the own storage) and
    [Network] (calls of other nodes and the scheduler of tasks), and their theorems in
    [ClusterLaws] ([ClusterLaws.v]), what these calls do to the data on the nodes as
    [ClusterState] sees them.  [ClusterWorld.v] builds a cluster of in-memory nodes that may
    be down, proves the laws of it, and applies the theorems to three nodes.  The theorems of the
    backend are generic in [StorageLaws], which [MemBackend.v] proves of the storage in
    memory.  A Pearl storage answers by the newest record of a key, so it is not an instance
    of [StorageLaws], where the last write wins.  Its theorems are over [PearlLaws]
    ([PearlLaws.v]), what the code relies on of the crate: what each call does to the newest
    record of every key of every directory, and that filters exclude only holders without
    the key.  [PearlExample.v] is a disk in memory that obeys them, with the witnesses.

    ** What is proved

    - Cluster ([QuorumPut.v], [QuorumGet.v], [QuorumDelete.v], [QuorumExist.v]): a put that
      answers Ok is durable on a quorum and settles on every replica or an alien copy; get
      and exist are correct for the nodes they can reach; data put are read back at once; deleted keys
      are gone; keys are split over the nodes without loss.
    - Storage ([Backend.v], [MemBackend.v]): every operation of the backend, with its
      fallback to alien copies, for any lawful storage.
    - Pearl: [PearlReads.v], the scans of get and exist over the holders find the newest record, agree,
      and report failures; [PearlWrites.v], put and delete over existing and new
      partitions; [PearlHistory.v], a group refines the map of keys to their newest
      operations, and keeps its invariant; [PearlStates.v], interleavings of tasks on one
      holder and on one disk; [PearlRefine.v], the disk controller refines the state machine of
      its disk; [PearlStop.v], what a lost disk leaves behind; [EventLog.v], the log of its changes is read
      back as they were.
    - Placement and configuration ([Mapper.v], [ClusterConfig.v], [NodeConfig.v]): a valid configuration
      builds a mapper that reflects it, and accessors that parse it again do not abort;
      support nodes are found for any behaviour of the connections, and evenly.
    - Entry ([Server.v], [Access.v], [Rest.v], [RestAdmin.v]): requests without permission have no effect and get
      exactly the error of their refusal, over gRPC and over REST; a client's request arrives as it was built; a REST request makes the
      call its gRPC counterpart makes; resolution of host names under interleaving.
    - Nodes among each other ([InterNode.v]): the headers of one node against the authenticator another was
      started with.
    - Administration ([RestPartition.v]): deleting partitions takes exactly those asked for, never the
      one in use, and leaves everything else as it was.
    - Periodic tasks ([CleanerTurns.v], [LinkManager.v]): the turns of the cleaner over a Pearl storage end and do
      what their loops say; the flags of the nodes agree with their connections under any interleaving,
      and the queue of pings stays within its capacity.
    - Metrics: whole turns of the accumulator collect what was handed over, but for what came when the
      channel was full, and publish its sums, last values and means ([Metrics.v]); reports to Graphite can be read back ([MetricsExport.v]); the socket has one task
      to reconnect ([GraphiteSocket.v]); differences of the counters of disks ([HwMetrics.v]).
    - Generator: valid configurations from valid hardware, balance of the disks, expansion ([GenConfig.v],
      [GenBalance.v]), and the same of the files it writes ([Ccg.v]).
    - Tools: test mode always configures a valid cluster, a node starts with exactly the credentials of
      its cluster, its folders are there ([Bobd.v]); the index tool removes exactly the invalid files
      ([RecoveryTool.v]); keys on the command line are parsed to what they denote ([Bobc.v]);
      the tasks of a benchmark partition its keys and its counters add up however the workers
      interleave ([Bobp.v]); the tester judges by the data it keeps and raises no false alarm ([Bobt.v]).
    - Encodings and bounds ([Data.v], [Errors.v], [Options.v], [PearlUtils.v]).

    ** What is not modelled, and simplifications

    Logs, the calls of the log of disk events and the metrics inside the requests and the backend have
    no effect on the answers and are left out there; the log of events ([EventLog.v]) and the machinery of the
    metrics are modelled on their own.
    YAML, TLS, the generated gRPC code, HTTP clients and servers, durations, socket
    addresses, the calendar of [chrono], SHA-256, SHA-512, base64, regular expressions, random numbers,
    the file system, the network, the system calls, the clock and the crates [pearl] and of Prometheus are parameters.
    Futures awaited together run one after the other in the order of
    the code; requests of one node are atomic except in the step relations of [Node.v], [Access.v],
    [PearlStates.v], [LinkManager.v], [Metrics.v] and [GraphiteSocket.v] and in the pool of workers of [Bobp.v].
    Background tasks of the quorum put run after the answer.  The storages a run prepares
    always run the hooks that bound the memory of filters; the REST call that
    starts a disk passes hooks that do nothing.
    Of the daemon, reading of the configuration files, signals, the set-up of logs and of TLS and
    the start of the gRPC and HTTP servers are not modelled, nor the summaries that blob-info and
    index-info print, the texts around printed figures, the build scripts and build_info, and
    postprocessor.rs, which no crate includes. *)

From Corelib Require Import ssreflect.
From Stdlib Require Import Sorting.Sorted.
From stdpp Require Import base gmap sets list strings numbers.
From Stdlib Require Import Strings.Byte ZArith Lia.

#[global] Open Scope Z_scope.
#[global] Open Scope general_if_scope.
#[global] Set Default Proof Using "Type".
#[global] Arguments Nat.div : simpl never.
#[global] Arguments Nat.modulo : simpl never.
#[global] Arguments Nat.mul : simpl never.
#[global] Arguments Z.pow : simpl never.
#[global] Arguments Z.mul : simpl never.
#[global] Arguments Z.add : simpl never.
#[global] Arguments Z.of_nat : simpl never.

(** ** Rust's [Result] *)

Inductive result (A E : Type) : Type :=
| Ok (a : A)
| Err (e : E).
Arguments Ok {A E} a.
Arguments Err {A E} e.

Definition is_ok {A E} (r : result A E) : bool :=
  match r with Ok _ => true | Err _ => false end.

Definition is_err {A E} (r : result A E) : bool := negb (is_ok r).

Definition result_map {A B E} (f : A → B) (r : result A E) : result B E :=
  match r with Ok a => Ok (f a) | Err e => Err e end.

Definition result_map_err {A E F} (f : E → F) (r : result A E) : result A F :=
  match r with Ok a => Ok a | Err e => Err (f e) end.

(** The [?] operator: the error is returned at once. *)
Definition result_bind {A B E} (r : result A E) (f : A → result B E) : result B E :=
  match r with Ok a => f a | Err e => Err e end.

(** [Option::ok_or] *)
Definition ok_or {A E} (o : option A) (e : E) : result A E :=
  match o with Some a => Ok a | None => Err e end.

Declare Scope bob_scope.
Delimit Scope bob_scope with bob.
Notation "x <-? r ; k" := (result_bind r (λ x, k))
  (at level 20, r at level 100, k at level 200, only parsing) : bob_scope.
Notation "r ;? k" := (result_bind r (λ _, k))
  (at level 100, k at level 200, right associativity, only parsing) : bob_scope.
#[global] Open Scope bob_scope.

(** ** Stateful code that can abort

    [M W A] is a computation over the world [W].  [None] is a panic: every
    profile the services are built with sets [panic = "abort"], so a panic ends
    the process.  *)

Definition M (W A : Type) : Type := W → option (A * W).

#[global] Instance M_ret W : MRet (M W) := λ A a w, Some (a, w).
#[global] Instance M_bind W : MBind (M W) := λ A B f m w,
  match m w with Some (a, w') => f a w' | None => None end.

Definition panic {W A} : M W A := λ _, None.

(** [expect]/[unwrap] of a pure value: [None] aborts. *)
Definition expect {W A} (o : option A) : M W A := λ w,
  match o with Some a => Some (a, w) | None => None end.

Definition gets {W A} (f : W → A) : M W A := λ w, Some (f w, w).
Definition modify {W} (f : W → W) : M W unit := λ w, Some (tt, f w).

(** A [for] loop with an accumulator. *)
Fixpoint for_each {W A B} (f : A → B → M W A) (a : A) (l : list B) : M W A :=
  match l with
  | [] => mret a
  | b :: l' => a' ← f a b; for_each f a' l'
  end.

(** The same loop for pure code that can abort. *)
Fixpoint ofold {A B} (f : A → B → option A) (a : A) (l : list B) : option A :=
  match l with
  | [] => Some a
  | b :: l' => a' ← f a b; ofold f a' l'
  end.

(** ** Machine integers: [u64] and [usize] (64-bit targets) as [Z] *)

Definition u64_max : Z := 2 ^ 64 - 1.
Definition u64 (z : Z) : Prop := 0 ≤ z < 2 ^ 64.
Definition u32 (z : Z) : Prop := 0 ≤ z < 2 ^ 32.
(** Release arithmetic wraps. *)
Definition wrap64 (z : Z) : Z := z mod 2 ^ 64.
Definition saturating_sub (a b : Z) : Z := Z.max 0 (a - b).

Lemma wrap64_small z : 0 ≤ z < 2 ^ 64 → wrap64 z = z.
Proof. intros. by rw /wrap64 Z.mod_small. Qed.

(** ** Weakest preconditions for [M]

    [wpx P m Q w]: running [m] in [w] either returns with [Q], or aborts and [P]
    holds.  [wp] (no abort) and [wlp] (partial correctness) are the two uses.  *)

Definition wpx {W A} (P : Prop) (m : M W A) (Q : A → W → Prop) (w : W) : Prop :=
  match m w with Some (a, w') => Q a w' | None => P end.

Abbreviation wp := (wpx False).
Abbreviation wlp := (wpx True).

Create HintDb bob.
Create Rewrite HintDb bob_simpl.

Section wp.
Context {W : Type} (P : Prop).

Lemma wpx_ret {A} (a : A) (Q : A → W → Prop) w : Q a w → wpx P (mret a) Q w.
Proof. done. Qed.

Lemma wpx_bind {A B} (m : M W A) (f : A → M W B) (Q : B → W → Prop) w :
  wpx P m (λ a, wpx P (f a) Q) w → wpx P (m ≫= f) Q w.
Proof. rw /wpx /mbind /M_bind. by destruct (m w) as [[a w']|]. Qed.

Lemma wpx_mono {A} (m : M W A) (Q R : A → W → Prop) w :
  wpx P m Q w → (∀ a w', Q a w' → R a w') → wpx P m R w.
Proof. rw /wpx. destruct (m w) as [[a w']|]; eauto. Qed.

Lemma wpx_and {A} (m : M W A) (Q R : A → W → Prop) w :
  wpx P m Q w → wpx P m R w → wpx P m (λ a w', Q a w' ∧ R a w') w.
Proof. rw /wpx. destruct (m w) as [[a w']|]; eauto. Qed.

Lemma wpx_expect {A} (o : option A) a (Q : A → W → Prop) w :
  o = Some a → Q a w → wpx P (expect o) Q w.
Proof. by intros ->. Qed.

Lemma wpx_gets {A} (f : W → A) (Q : A → W → Prop) w : Q (f w) w → wpx P (gets f) Q w.
Proof. done. Qed.

Lemma wpx_modify (f : W → W) (Q : unit → W → Prop) w : Q tt (f w) → wpx P (modify f) Q w.
Proof. done. Qed.

(** The loop rule: an invariant on the elements done and the accumulator. *)
Lemma wpx_for_each {A B} (f : A → B → M W A) (l : list B) (I : list B → A → W → Prop) a w :
  I [] a w →
  (∀ done b rest a w, l = done ++ b :: rest → I done a w →
     wpx P (f a b) (λ a' w', I (done ++ [b]) a' w') w) →
  wpx P (for_each f a l) (λ a' w', I l a' w') w.
Proof.
  intros HI Hstep.
  enough (∀ rest pre a w, l = pre ++ rest → I pre a w →
            wpx P (for_each f a rest) (λ a' w', I l a' w') w) as Hgen by (by apply (Hgen l [])).
  clear a w HI. intros rest. induction rest as [|b rest IH]; intros pre a w Hl HI; simpl.
  - rw app_nil_r in Hl. subst. by apply wpx_ret.
  - apply wpx_bind. eapply wpx_mono; [by apply (Hstep pre b rest)|].
    intros a' w' HI'. apply (IH (pre ++ [b])); [|done]. by rw -app_assoc.
Qed.
End wp.

Lemma ofold_ind {A B} (f : A → B → option A) (l : list B) (I : list B → A → Prop) a :
  I [] a →
  (∀ pre b rest a, l = pre ++ b :: rest → I pre a → ∃ a', f a b = Some a' ∧ I (pre ++ [b]) a') →
  ∃ a', ofold f a l = Some a' ∧ I l a'.
Proof.
  intros HI Hstep.
  enough (∀ rest pre a, l = pre ++ rest → I pre a →
            ∃ a', ofold f a rest = Some a' ∧ I l a') as Hgen by (by apply (Hgen l [])).
  clear a HI. intros rest. induction rest as [|b rest IH]; intros pre a Hl HI; simpl.
  - rw app_nil_r in Hl. subst. eauto.
  - destruct (Hstep pre b rest a Hl HI) as (a' & -> & HI'). simpl.
    apply (IH (pre ++ [b])); [|done]. by rw -app_assoc.
Qed.

Lemma wpx_elim {W A} (P : Prop) (m : M W A) (Q : A → W → Prop) w a w' :
  wpx P m Q w → m w = Some (a, w') → Q a w'.
Proof. rw /wpx => H Hm. by rw Hm in H. Qed.

(** A fact about the runs that return, next to a triple. *)
Lemma wpx_wlp {W A} (P : Prop) (m : M W A) (Q R : A → W → Prop) w :
  wpx P m Q w → wlp m R w → wpx P m (λ a w', Q a w' ∧ R a w') w.
Proof. rw /wpx. destruct (m w) as [[a w']|]; eauto. Qed.

Lemma wp_total {W A} (m : M W A) (Q : A → W → Prop) w :
  wp m Q w → ∃ a w', m w = Some (a, w') ∧ Q a w'.
Proof. rw /wpx. destruct (m w) as [[a w']|]; [eauto|done]. Qed.

Lemma bind_Some_inv {W A B} (m : M W A) (f : A → M W B) w b w'' :
  (m ≫= f) w = Some (b, w'') → ∃ a w', m w = Some (a, w') ∧ f a w' = Some (b, w'').
Proof. rw /mbind /M_bind. destruct (m w) as [[a w']|]; [eauto|done]. Qed.

(** Run the first step of a computation. *)
Lemma bind_run {W A B} (m : M W A) (f : A → M W B) w a w' :
  m w = Some (a, w') → (m ≫= f) w = f a w'.
Proof. rw /mbind /M_bind. by intros ->. Qed.

(** Two computations that agree on a run agree on it within a third. *)
Lemma bind_ext {W A B} (m : M W A) (f g : A → M W B) w :
  (∀ a w', m w = Some (a, w') → f a w' = g a w') → (m ≫= f) w = (m ≫= g) w.
Proof. intros Hfg. rw /mbind /M_bind. destruct (m w) as [[a w']|]; [by apply Hfg|done]. Qed.

Lemma bind_cong {W A B} (m m' : M W A) (f : A → M W B) w w' :
  m w = m' w' → (m ≫= f) w = (m' ≫= f) w'.
Proof. by rw /mbind /M_bind => ->. Qed.

Lemma bind_assoc_run {W A B C} (m : M W A) (f : A → M W B) (g : B → M W C) w :
  ((m ≫= f) ≫= g) w = (m ≫= λ a, f a ≫= g) w.
Proof. rw /mbind /M_bind. by destruct (m w) as [[a w']|]. Qed.

Lemma expect_inv {W A} (o : option A) (w w' : W) a : expect o w = Some (a, w') → o = Some a ∧ w' = w.
Proof. rw /expect. by destruct o; intros; simplify_eq. Qed.

#[export] Hint Resolve wpx_ret wpx_gets wpx_modify : bob.

(** Step through a weakest precondition. *)
Ltac wp_step :=
  lazymatch goal with
  | |- wpx _ (_ ≫= _) _ _ => apply wpx_bind
  | |- wpx _ (mret _) _ _ => apply wpx_ret
  | |- wpx _ (gets _) _ _ => apply wpx_gets
  | |- wpx _ (modify _) _ _ => apply wpx_modify
  | |- wpx _ (match ?x with _ => _ end) _ _ => destruct x eqn:?
  end.
Ltac wp_steps := repeat (wp_step; simpl).

(** ** Sorting: the stable sort of the standard library *)

Fixpoint insert_by {A} (le : A → A → bool) (x : A) (l : list A) : list A :=
  match l with
  | [] => [x]
  | y :: l' => if le x y then x :: l else y :: insert_by le x l'
  end.

Fixpoint sort_by {A} (le : A → A → bool) (l : list A) : list A :=
  match l with [] => [] | x :: l' => insert_by le x (sort_by le l') end.

Lemma insert_by_perm {A} (le : A → A → bool) x l : insert_by le x l ≡ₚ x :: l.
Proof. induction l as [|y l IH]; simpl; [done|]. case_match; [done|]. rw IH. constructor. Qed.

Lemma sort_by_perm {A} (le : A → A → bool) l : sort_by le l ≡ₚ l.
Proof. induction l as [|x l IH]; simpl; [done|]. by rw insert_by_perm IH. Qed.

Lemma insert_by_sorted {A} (le : A → A → bool) x l :
  (∀ a b, le a b = true ∨ le b a = true) →
  Sorted (λ a b, le a b = true) l → Sorted (λ a b, le a b = true) (insert_by le x l).
Proof.
  intros Htot. induction 1 as [|y l Hl IH Hd]; simpl; [by repeat constructor|].
  destruct (le x y) eqn:Hxy; [by repeat constructor|].
  assert (le y x = true) as Hyx by (destruct (Htot x y); congruence).
  constructor; [done|]. destruct l as [|z l]; simpl; [by constructor|].
  case_match; constructor; [done|]. by apply HdRel_inv in Hd.
Qed.

Lemma sort_by_sorted {A} (le : A → A → bool) l :
  (∀ a b, le a b = true ∨ le b a = true) → Sorted (λ a b, le a b = true) (sort_by le l).
Proof. intros Htot. induction l as [|x l IH]; simpl; [constructor|]. by apply insert_by_sorted. Qed.

(** ** Hash maps *)

(** The iteration order of a hash map: some permutation. *)
Class HashOrder := {
  hash_order : ∀ {A : Type}, list A → list A;
  hash_order_perm : ∀ {A : Type} (l : list A), hash_order l ≡ₚ l;
}.

(** ** Bytes *)

#[global] Instance byte_eq_dec : EqDecision byte := Byte.byte_eq_dec.
#[global] Program Instance byte_countable : Countable byte :=
  inj_countable Byte.to_N Byte.of_N _.
Next Obligation. intros b. apply Byte.of_to_N. Qed.

Definition byte_val (b : byte) : Z := Z.of_N (Byte.to_N b).
(** [v as u8] *)
Definition byte_of_Z (z : Z) : byte := default x00 (Byte.of_N (Z.to_N (z mod 256))).

Lemma byte_val_bounds b : 0 ≤ byte_val b < 256.
Proof. rw /byte_val. pose proof (Byte.to_N_bounded b). lia. Qed.

Lemma byte_of_Z_val b : byte_of_Z (byte_val b) = b.
Proof.
  rw /byte_of_Z Z.mod_small; first apply byte_val_bounds.
  by rw /byte_val N2Z.id Byte.of_to_N.
Qed.

Lemma byte_val_of_Z z : byte_val (byte_of_Z z) = z mod 256.
Proof.
  rw /byte_of_Z /byte_val. pose proof (Z.mod_pos_bound z 256 ltac:(lia)) as Hb.
  destruct (Byte.of_N (Z.to_N (z mod 256))) as [b|] eqn:Hof; simpl.
  - apply Byte.to_of_N in Hof. rw Hof. lia.
  - apply Byte.of_N_None_iff in Hof. lia.
Qed.

Lemma byte_val_inj b c : byte_val b = byte_val c → b = c.
Proof. intros H. by rw -(byte_of_Z_val b) H byte_of_Z_val. Qed.
