(* ===== verification/Tasks.v ===== *)
(** * Tasks: programs of atomic steps

    What a task does between two [await]s or two accesses to shared state is one step on the
    world; a program is a tree of such steps, so that tasks can be interleaved at any of them.
    A pool of programs over one world is what [tokio::spawn] makes of them: any that is not
    at its end may do its next step.  As programs are trees, every pool comes to an end. *)

From Corelib Require Import ssreflect.
From stdpp Require Import base option list relations numbers.
From Stdlib Require Import ZArith Lia.
From S2P Require Import Prelude.

(** ** Programs *)

Inductive Prog (W A : Type) : Type :=
| Done (a : A)
| Step (m : W → option (Prog W A * W)).
Arguments Done {W A}. Arguments Step {W A}.

(** The step of a program in the world [w]: [None], the step aborts. *)
Definition prog_case {W A} (P : Prog W A → Prop) (m : W → option (Prog W A * W)) : Prop :=
  ∀ w, match m w with Some (p, _) => P p | None => True end.

Definition Prog_steps_ind {W A} (P : Prog W A → Prop) (HDone : ∀ a, P (Done a)) (HStep : ∀ m, prog_case P m → P (Step m)) :
    ∀ p, P p :=
  fix go p := match p with
    | Done a => HDone a
    | Step m => HStep m (λ w, match m w as o return match o with Some (p', _) => P p' | None => True end with
                              | Some (p', _) => go p'
                              | None => I
                              end)
    end.

#[global] Instance Prog_ret W : MRet (Prog W) := λ A a, Done a.
#[global] Instance Prog_bind W : MBind (Prog W) := λ A B f,
  fix bind p := match p with
    | Done a => f a
    | Step m => Step (λ w, match m w with Some (p', w') => Some (bind p', w') | None => None end)
    end.

(** A whole computation as one step. *)
Definition atomic {W A} (m : M W A) : Prog W A := Step (λ w, '(a, w') ← m w; Some (Done a, w')).

(** A [for] loop. *)
Fixpoint prog_each {W A} (f : A → Prog W unit) (l : list A) : Prog W unit :=
  match l with
  | [] => mret tt
  | a :: l => _ ← f a; prog_each f l
  end.

Definition is_done {W A} (p : Prog W A) : bool := match p with Done _ => true | Step _ => false end.

Lemma all_done {W A} (pool : list (Prog W A)) : forallb is_done pool = true → Forall (λ p, is_done p = true) pool.
Proof. induction pool as [|p pool IH]; simpl; [done|]. intros [Hp Hpool]%andb_true_iff. constructor; [done|by apply IH]. Qed.

(** ** Pools *)

(** One step of the program at [i] *)
Definition step_at {W A} (i : nat) (s : list (Prog W A) * W) : option (list (Prog W A) * W) :=
  match s.1 !! i with
  | Some (Step m) => '(p, w) ← m s.2; Some (<[i := p]> s.1, w)
  | _ => None
  end.
Definition pool_step {W A} (s s' : list (Prog W A) * W) : Prop := ∃ i, step_at i s = Some s'.

(** The programs by a schedule, for examples; a number that cannot step is passed over. *)
Fixpoint run_schedule {W A} (schedule : list nat) (s : list (Prog W A) * W) : list (Prog W A) * W :=
  match schedule with
  | [] => s
  | i :: schedule => run_schedule schedule (default s (step_at i s))
  end.

Lemma run_schedule_steps {W A} schedule (s : list (Prog W A) * W) : rtc pool_step s (run_schedule schedule s).
Proof.
  revert s. induction schedule as [|i schedule IH]; intros s; simpl; [done|].
  destruct (step_at i s) as [s'|] eqn:Hs; simpl; [|apply IH]. eapply rtc_l; [by exists i|apply IH].
Qed.

(** *** Every pool comes to an end *)

(** One of the programs becomes what a step of it leaves, in whatever world. *)
Definition pool_after {W A} (pool' pool : list (Prog W A)) : Prop :=
  ∃ i m w p w', pool !! i = Some (Step m) ∧ m w = Some (p, w') ∧ pool' = <[i := p]> pool.

Lemma pool_after_wf {W A} : well_founded (pool_after (W:=W) (A:=A)).
Proof.
  intros pool. induction pool as [|p pool IH]; [constructor; intros pool' (i & m & w & p & w' & Hi & _); by destruct i|].
  revert p. induction IH as [pool _ IHpool]. intros p. induction p as [a|m IHm] using Prog_steps_ind.
  - constructor. intros pool' ([|i] & m & w & p & w' & Hi & Hm & ->); [done|]. apply IHpool. by exists i, m, w, p, w'.
  - constructor. intros pool' ([|i] & m' & w & p & w' & Hi & Hm & ->); simpl in Hi |- *.
    + injection Hi as <-. specialize (IHm w). by rw Hm in IHm.
    + apply IHpool. by exists i, m', w, p, w'.
Qed.

(** No run goes on for ever. *)
Lemma pool_step_ends {W A} (s : list (Prog W A) * W) : Acc (flip pool_step) s.
Proof.
  destruct s as [pool w]. revert w. induction (pool_after_wf pool) as [pool _ IH]. intros w. constructor.
  intros [pool' w'] [i Hi]. rw /step_at /= in Hi. destruct (pool !! i) as [[a|m]|] eqn:Hp; [done| |done].
  destruct (m w) as [[p w1]|] eqn:Hm; [|done]. simpl in Hi. injection Hi as <- <-. apply IH. by exists i, m, w, p, w1.
Qed.
