(* ===== verification/Data.v ===== *)
(** * Data: keys, records and their encodings

    [bob-common/src/data.rs] ([BobKey], [BobData], [BobMeta]) and the key type of the
    Pearl backend, [bob-backend/src/pearl/data.rs].  [BOB_KEY_SIZE] is a constant
    the build script generates, so it is a parameter. *)

From Corelib Require Import ssreflect.
From stdpp Require Import base list strings numbers.
From Stdlib Require Import Strings.Ascii Strings.Byte ZArith Lia.
From S2P Require Import Prelude.

(** The generated constant. *)
Class KeySize := BOB_KEY_SIZE : nat.

(** ** Little- and big-endian words ([to_le_bytes], [from_be_bytes], ...) *)

Fixpoint to_le_bytes (n : nat) (z : Z) : list byte :=
  match n with
  | O => []
  | S n' => byte_of_Z z :: to_le_bytes n' (z / 256)
  end.

Fixpoint from_le_bytes (l : list byte) : Z :=
  match l with
  | [] => 0
  | b :: l' => byte_val b + 256 * from_le_bytes l'
  end.

Definition to_be_bytes (n : nat) (z : Z) : list byte := reverse (to_le_bytes n z).
Definition from_be_bytes (l : list byte) : Z := from_le_bytes (reverse l).

(** ** Rust strings: [&s[i..j]], [u8::from_str_radix], [{:02X}] *)

Definition byte_of_char (c : Ascii.ascii) : Z := Z.of_N (Ascii.N_of_ascii c).

(** [str::is_char_boundary]: not inside a UTF-8 sequence. *)
Definition is_char_boundary (s : string) (i : nat) : bool :=
  (i =? 0)%nat || (i =? String.length s)%nat ||
  match String.get i s with
  | Some c => negb ((128 <=? byte_of_char c) && (byte_of_char c <? 192))
  | None => false
  end.

(** [&s[i..j]]: aborts out of range or inside a character. *)
Definition str_slice (s : string) (i j : nat) : option string :=
  if ((i <=? j) && (j <=? String.length s))%nat && is_char_boundary s i && is_char_boundary s j
  then Some (String.substring i (j - i) s) else None.

(** [char::to_digit(16)] *)
Definition to_digit16 (c : Ascii.ascii) : option Z :=
  let v := byte_of_char c in
  if (48 <=? v) && (v <=? 57) then Some (v - 48)
  else if (65 <=? v) && (v <=? 70) then Some (v - 55)
  else if (97 <=? v) && (v <=? 102) then Some (v - 87)
  else None.

Fixpoint radix16_digits (acc : Z) (s : string) : option Z :=
  match s with
  | EmptyString => Some acc
  | String c s' =>
      d ← to_digit16 c;
      if acc * 16 + d <? 256 then radix16_digits (acc * 16 + d) s' else None
  end.

(** [u8::from_str_radix(s, 16)]: a leading [+] is accepted; a lone sign, the
    empty string, another character and overflow are errors. *)
Definition u8_from_str_radix16 (s : string) : option Z :=
  match s with
  | EmptyString => None
  | String c EmptyString =>
      if decide (c = "+"%char ∨ c = "-"%char) then None else radix16_digits 0 s
  | String c s' => if decide (c = "+"%char) then radix16_digits 0 s' else radix16_digits 0 s
  end.

Definition hex_digit (v : Z) : Ascii.ascii :=
  Ascii.ascii_of_N (Z.to_N (if v <? 10 then 48 + v else 55 + v)).

Definition fmt_02X (b : byte) : string :=
  String (hex_digit (byte_val b / 16)) (String (hex_digit (byte_val b mod 16)) EmptyString).

#[global] Arguments u8_from_str_radix16 : simpl never.
#[global] Arguments fmt_02X : simpl never.

(** ** [BobKey] *)

Section key.
Context {key_size : KeySize}.

(** The array [[u8; BOB_KEY_SIZE]]. *)
Definition BobKey : Type := list byte.
Definition key_wf (k : BobKey) : Prop := length k = BOB_KEY_SIZE.

(** [iter_mut().zip(src)]: overwrites a prefix. *)
Fixpoint zip_write (dst src : list byte) : list byte :=
  match dst, src with
  | _ :: dst', s :: src' => s :: zip_write dst' src'
  | _, _ => dst
  end.

Definition BobKey_from_u64 (n : Z) : BobKey :=
  zip_write (replicate BOB_KEY_SIZE x00) (to_le_bytes 8 n).

Definition BobKey_from_slice (a : list byte) : option BobKey :=
  if decide (length a = BOB_KEY_SIZE) then Some a else None.

Definition BobKey_from_vec (v : list byte) : option BobKey :=
  if decide (length v = BOB_KEY_SIZE) then Some v else None.

Definition BobKey_into_vec (k : BobKey) : list byte := k.

Definition BobKey_default : BobKey := replicate BOB_KEY_SIZE x00.

Fixpoint BobKey_to_string (k : BobKey) : string :=
  match k with
  | [] => EmptyString
  | b :: k' => String.append (fmt_02X b) (BobKey_to_string k')
  end.

(** [(0..n).step_by(2)] *)
Definition step_by2 (n : nat) : list nat := (λ i, 2 * i)%nat <$> seq 0 ((n + 1) / 2).

(** The loop body of [from_str]. *)
Definition from_str_step (s : string) (data : list byte) (i : nat) : option (list byte) :=
  sl ← str_slice s i (i + 2);
  match u8_from_str_radix16 sl with
  | Some n =>
      if decide (i / 2 < length data)%nat
      then Some (<[(i / 2)%nat := byte_of_Z n]> data) else None
  | None => Some data
  end.

(** [None] is an abort. *)
Definition BobKey_from_str (s : string) : option (result BobKey unit) :=
  data ← ofold (from_str_step s) (replicate BOB_KEY_SIZE x00) (step_by2 (String.length s));
  Some (Ok data).

(** ** The Pearl key *)

(** [Vec::resize] *)
Definition vec_resize (n : nat) (x : byte) (v : list byte) : list byte :=
  take n v ++ replicate (n - length v) x.

Definition Key_from (t : list byte) : list byte := vec_resize BOB_KEY_SIZE x00 t.

Definition usize_size : nat := 8.

(** [usize::from_le_bytes(x[i..j].try_into().unwrap())] *)
Definition usize_part (x : list byte) (i j : nat) : option Z :=
  if decide (i ≤ j ∧ j ≤ length x ∧ j - i = usize_size)%nat
  then Some (from_le_bytes (take (j - i) (drop i x))) else None.

(** [for i in ixs { if parts differ { return ord } } Equal] *)
Fixpoint cmp_loop (part : nat → option (Z * Z)) (ixs : list nat) : option comparison :=
  match ixs with
  | [] => Some Eq
  | i :: ixs' =>
      xy ← part i;
      match Z.compare xy.1 xy.2 with
      | Eq => cmp_loop part ixs'
      | ord => Some ord
      end
  end.

Definition le_cmp_keys (x y : list byte) : option comparison :=
  if (BOB_KEY_SIZE =? usize_size)%nat then
    x_part ← usize_part x 0 (length x);
    y_part ← usize_part y 0 (length y);
    Some (Z.compare x_part y_part)
  else if (BOB_KEY_SIZE mod usize_size =? 0)%nat then
    let len := (BOB_KEY_SIZE / usize_size)%nat in
    cmp_loop (λ i,
      x_part ← usize_part x (i * usize_size) ((i + 1) * usize_size);
      y_part ← usize_part y (i * usize_size) ((i + 1) * usize_size);
      Some (x_part, y_part)) (reverse (seq 0 len))
  else
    cmp_loop (λ i,
      xb ← x !! i; yb ← y !! i; Some (byte_val xb, byte_val yb))
      (reverse (seq 0 BOB_KEY_SIZE)).
End key.

(** ** [BobData] and [BobMeta] *)

Record BobMeta : Type := { timestamp : Z }.
Record BobData : Type := { inner : list byte; meta : BobMeta }.

Definition BobMeta_stub : BobMeta := {| timestamp := 1 |}.
Definition TIMESTAMP_LEN : nat := 8.

#[global] Instance BobMeta_eq_dec : EqDecision BobMeta.
Proof. solve_decision. Defined.
#[global] Instance BobData_eq_dec : EqDecision BobData.
Proof. solve_decision. Defined.

Definition data_wf (d : BobData) : Prop := u64 (timestamp (meta d)).

Definition to_serialized_bytes (d : BobData) : list byte :=
  to_be_bytes TIMESTAMP_LEN (timestamp (meta d)) ++ inner d.

(** [Bytes::split_to] aborts past the end; the conversion of the eight bytes it
    returns to an array cannot fail. *)
Definition from_serialized_bytes {E} (bob_data : list byte) : option (result BobData E) :=
  if decide (TIMESTAMP_LEN ≤ length bob_data)%nat then
    let ts_bytes := take TIMESTAMP_LEN bob_data in
    let bob_data := drop TIMESTAMP_LEN bob_data in
    Some (Ok {| inner := bob_data; meta := {| timestamp := from_be_bytes ts_bytes |} |})
  else None.

(** ** Lemmas: words *)

Lemma length_to_le_bytes n z : length (to_le_bytes n z) = n.
Proof. revert z. induction n as [|n IH]; intros z; simpl; auto. Qed.

Lemma from_to_le_bytes n z : from_le_bytes (to_le_bytes n z) = z mod 256 ^ Z.of_nat n.
Proof.
  revert z. induction n as [|n IH]; intros z; simpl to_le_bytes; simpl from_le_bytes.
  - by rw Z.mod_1_r.
  - rw IH byte_val_of_Z Nat2Z.inj_succ Z.pow_succ_r; first lia.
    rw Z.rem_mul_r; lia.
Qed.

Lemma to_from_le_bytes l : to_le_bytes (length l) (from_le_bytes l) = l.
Proof.
  induction l as [|b l IH]; simpl; [done|].
  pose proof (byte_val_bounds b) as Hb. f_equal.
  - apply byte_val_inj. rw byte_val_of_Z Z.mul_comm Z.mod_add; first lia.
    by apply Z.mod_small.
  - replace ((byte_val b + 256 * from_le_bytes l) / 256) with (from_le_bytes l); [done|].
    rw Z.mul_comm Z.div_add; first lia. rw Z.div_small; lia.
Qed.

Lemma from_le_bytes_bounds l : 0 ≤ from_le_bytes l < 256 ^ Z.of_nat (length l).
Proof.
  induction l as [|b l IH]; simpl from_le_bytes; simpl length; [lia|].
  pose proof (byte_val_bounds b). rw Nat2Z.inj_succ Z.pow_succ_r; lia.
Qed.

Lemma from_le_bytes_app l k :
  from_le_bytes (l ++ k) = from_le_bytes l + 256 ^ Z.of_nat (length l) * from_le_bytes k.
Proof.
  induction l as [|b l IH]; simpl from_le_bytes; simpl length; simpl app; [lia|].
  simpl from_le_bytes. rw IH Nat2Z.inj_succ Z.pow_succ_r; lia.
Qed.

Lemma from_le_bytes_zeros n : from_le_bytes (replicate n x00) = 0.
Proof. induction n as [|n IH]; simpl; [done|]. by rw IH. Qed.

Lemma to_le_bytes_zero n : to_le_bytes n 0 = replicate n x00.
Proof. induction n as [|n IH]; simpl; [done|]. by rw IH. Qed.

Lemma length_to_be_bytes n z : length (to_be_bytes n z) = n.
Proof. by rw /to_be_bytes length_reverse length_to_le_bytes. Qed.

Lemma from_to_be_bytes n z : 0 ≤ z < 256 ^ Z.of_nat n → from_be_bytes (to_be_bytes n z) = z.
Proof.
  intros Hz. rw /from_be_bytes /to_be_bytes reverse_involutive from_to_le_bytes.
  by apply Z.mod_small.
Qed.

#[export] Hint Rewrite length_to_le_bytes length_to_be_bytes : bob_simpl.

(** ** Lemmas: hexadecimal *)

(** Every fact about one byte is checked on the 256 bytes. *)
Ltac by_bytes b := destruct b; vm_compute; done.

Lemma fmt_02X_parse b : u8_from_str_radix16 (fmt_02X b) = Some (byte_val b).
Proof. by_bytes b. Qed.

Lemma fmt_02X_length b : String.length (fmt_02X b) = 2%nat.
Proof. done. Qed.

Definition ascii_string (s : string) : Prop :=
  ∀ i c, String.get i s = Some c → byte_of_char c < 128.

Lemma ascii_string_cons c s : byte_of_char c < 128 → ascii_string s → ascii_string (String c s).
Proof. intros Hc Hs [|i] c'; simpl; [by intros [= <-]|apply Hs]. Qed.

Lemma ascii_string_nil : ascii_string EmptyString.
Proof. by intros i c. Qed.

Lemma hex_digit_ascii b :
  byte_of_char (hex_digit (byte_val b / 16)) < 128 ∧ byte_of_char (hex_digit (byte_val b mod 16)) < 128.
Proof. by_bytes b. Qed.

Lemma ascii_char_boundary s i :
  ascii_string s → (i ≤ String.length s)%nat → is_char_boundary s i = true.
Proof.
  intros Hs Hi. rw /is_char_boundary.
  destruct (String.get i s) as [c|] eqn:Hget.
  - specialize (Hs i c Hget). replace (128 <=? byte_of_char c) with false by lia.
    by rw orb_true_r.
  - rw orb_false_r. apply orb_true_iff.
    destruct (decide (i = String.length s)) as [->|Hne]; [right; apply Nat.eqb_refl|].
    exfalso. clear Hs. revert s Hget Hi Hne.
    induction i as [|i IH]; intros [|c s]; simpl; try done; try lia.
    intros Hget Hi Hne. apply (IH s); auto; lia.
Qed.

Lemma substring_prefix s t : String.substring 0 (String.length s) (String.append s t) = s.
Proof.
  induction s as [|c s IH]; simpl; [by destruct t|]. by rw IH.
Qed.

Lemma BobKey_to_string_length k : String.length (BobKey_to_string k) = (2 * length k)%nat.
Proof. induction k as [|b k IH]; simpl; [done|]. rw IH. lia. Qed.

Lemma BobKey_to_string_ascii k : ascii_string (BobKey_to_string k).
Proof.
  induction k as [|b k IH]; simpl; [apply ascii_string_nil|].
  destruct (hex_digit_ascii b) as [H1 H2].
  apply ascii_string_cons; [done|]. by apply ascii_string_cons.
Qed.

Lemma BobKey_to_string_substring k i b :
  k !! i = Some b → String.substring (2 * i) 2 (BobKey_to_string k) = fmt_02X b.
Proof.
  revert i. induction k as [|b' k IH]; intros [|i]; try done.
  - intros [= <-]. apply (substring_prefix (fmt_02X b') (BobKey_to_string k)).
  - intros Hi. simpl in Hi. specialize (IH i Hi).
    replace (2 * S i)%nat with (S (S (2 * i))) by lia. apply IH.
Qed.

Lemma to_string_slice k i b :
  k !! i = Some b → str_slice (BobKey_to_string k) (2 * i) (2 * i + 2) = Some (fmt_02X b).
Proof.
  intros Hi. pose proof (lookup_lt_Some _ _ _ Hi) as Hlt. rw /str_slice.
  pose proof (BobKey_to_string_ascii k) as Hasc.
  pose proof (BobKey_to_string_length k) as Hlen.
  rw !ascii_char_boundary; try done; try lia.
  rw !andb_true_r. rw (proj2 (andb_true_iff _ _)); first (split; apply Nat.leb_le; lia).
  by replace (2 * i + 2 - 2 * i)%nat with 2%nat by lia; rw (BobKey_to_string_substring _ _ b).
Qed.

Lemma step_by2_even n : step_by2 (2 * n) = (λ i, 2 * i)%nat <$> seq 0 n.
Proof.
  rw /step_by2. do 2 f_equal. rw Nat.mul_comm Nat.add_comm Nat.div_add; first lia. done.
Qed.

(** ** Lemmas: key comparison *)

(** The number whose base-[B] digits are [v 0], ..., [v (n - 1)]. *)
Fixpoint digits (B : Z) (v : nat → Z) (n : nat) : Z :=
  match n with
  | O => 0
  | S n' => digits B v n' + B ^ Z.of_nat n' * v n'
  end.

Lemma digits_bounds B v n :
  0 < B → (∀ i, (i < n)%nat → 0 ≤ v i < B) → 0 ≤ digits B v n < B ^ Z.of_nat n.
Proof.
  intros HB Hv. induction n as [|n IH]; simpl digits; [lia|].
  assert (0 ≤ digits B v n < B ^ Z.of_nat n) as IH' by (apply IH; intros i Hi; apply Hv; lia).
  specialize (Hv n ltac:(lia)). rw Nat2Z.inj_succ Z.pow_succ_r; first lia.
  assert (0 < B ^ Z.of_nat n) by (apply Z.pow_pos_nonneg; lia). nia.
Qed.

(** Comparing from the most significant digit compares the numbers. *)
Lemma cmp_loop_digits B v w n part :
  0 < B →
  (∀ i, (i < n)%nat → 0 ≤ v i < B ∧ 0 ≤ w i < B ∧ part i = Some (v i, w i)) →
  cmp_loop part (reverse (seq 0 n)) = Some (Z.compare (digits B v n) (digits B w n)).
Proof.
  intros HB Hp. induction n as [|n IH]; simpl digits; [done|].
  rw seq_S reverse_app reverse_singleton Nat.add_0_l. simpl cmp_loop.
  destruct (Hp n ltac:(lia)) as (Hv & Hw & ->). simpl.
  pose proof (digits_bounds B v n HB ltac:(intros i Hi; apply Hp; lia)) as Hdv.
  pose proof (digits_bounds B w n HB ltac:(intros i Hi; apply Hp; lia)) as Hdw.
  assert (0 < B ^ Z.of_nat n) by (apply Z.pow_pos_nonneg; lia).
  destruct (Z.compare_spec (v n) (w n)) as [Heq|Hlt|Hgt].
  - rw IH; first (intros i Hi; apply Hp; lia). rw Heq. f_equal.
    by rw !(Z.add_comm (digits _ _ _)) Z.add_compare_mono_l.
  - f_equal. symmetry. apply Z.compare_lt_iff. nia.
  - f_equal. symmetry. apply Z.compare_gt_iff. nia.
Qed.

Lemma digits_ext B v w n : (∀ i, (i < n)%nat → v i = w i) → digits B v n = digits B w n.
Proof.
  intros H. induction n as [|n IH]; simpl; [done|].
  by rw IH; [intros i Hi; apply H; lia|]; rw H; first lia.
Qed.

(** Chunks of [c] bytes are base-[256^c] digits. *)
Lemma digits_chunks c x n :
  length x = (n * c)%nat →
  digits (256 ^ Z.of_nat c) (λ i, from_le_bytes (take c (drop (i * c) x))) n = from_le_bytes x.
Proof.
  revert x. induction n as [|n IH]; intros x Hx; simpl digits.
  - by destruct x.
  - rw -{3}(take_drop (n * c) x) from_le_bytes_app.
    rw (take_ge (drop _ _)); first (rw length_drop; lia).
    rw length_take Nat.min_l; first lia.
    assert ((256 ^ Z.of_nat c) ^ Z.of_nat n = 256 ^ Z.of_nat (n * c)) as ->.
    { rw -Z.pow_mul_r; try lia. f_equal. lia. }
    f_equal.
    rw -(IH (take (n * c) x)); first (rw length_take; lia).
    apply digits_ext. intros i Hi. f_equal. rw skipn_firstn_comm take_take.
    f_equal. nia.
Qed.

Lemma usize_part_chunk x i n :
  length x = (n * usize_size)%nat → (i < n)%nat →
  usize_part x (i * usize_size) ((i + 1) * usize_size) =
  Some (from_le_bytes (take usize_size (drop (i * usize_size) x))).
Proof.
  intros Hx Hi. rw /usize_part decide_True; first (rw Hx /usize_size; nia).
  by replace ((i + 1) * usize_size - i * usize_size)%nat with usize_size by lia.
Qed.

Lemma usize_part_all x :
  length x = usize_size → usize_part x 0 (length x) = Some (from_le_bytes x).
Proof.
  intros Hx. rw /usize_part decide_True; first lia.
  by rw Nat.sub_0_r drop_0 take_ge; first lia.
Qed.

(** The three comparison routines agree with the little-endian value. *)
Lemma le_cmp_keys_words `{KeySize} x y n :
  BOB_KEY_SIZE = (n * usize_size)%nat → length x = BOB_KEY_SIZE → length y = BOB_KEY_SIZE →
  cmp_loop (λ i,
    x_part ← usize_part x (i * usize_size) ((i + 1) * usize_size);
    y_part ← usize_part y (i * usize_size) ((i + 1) * usize_size);
    Some (x_part, y_part)) (reverse (seq 0 n)) =
  Some (Z.compare (from_le_bytes x) (from_le_bytes y)).
Proof.
  intros Hsz Hx Hy. rw Hsz in Hx. rw Hsz in Hy.
  rw -(digits_chunks usize_size x n Hx) -(digits_chunks usize_size y n Hy).
  assert (∀ z i, length z = (n * usize_size)%nat → (i < n)%nat →
    0 ≤ from_le_bytes (take usize_size (drop (i * usize_size) z)) < 256 ^ Z.of_nat usize_size) as Hb.
  { intros z i Hz Hi.
    pose proof (from_le_bytes_bounds (take usize_size (drop (i * usize_size) z))) as Hb.
    rw length_take Nat.min_l in Hb; [rw length_drop Hz /usize_size; nia|done]. }
  apply cmp_loop_digits; [lia|]. intros i Hi.
  rw (usize_part_chunk x i n) // (usize_part_chunk y i n) //. auto.
Qed.

Lemma digits_bytes x :
  digits 256 (λ i, from_option byte_val 0 (x !! i)) (length x) = from_le_bytes x.
Proof.
  induction x as [|b x IH] using rev_ind; [done|].
  rw length_app Nat.add_comm /= from_le_bytes_app /= -IH.
  rw lookup_app_r // Nat.sub_diag /= Z.add_0_r. apply (f_equal2 Z.add); [|done].
  apply digits_ext. intros i Hi. by rw lookup_app_l.
Qed.

Lemma le_cmp_keys_bytes `{KeySize} x y :
  length x = BOB_KEY_SIZE → length y = BOB_KEY_SIZE →
  cmp_loop (λ i, xb ← x !! i; yb ← y !! i; Some (byte_val xb, byte_val yb))
    (reverse (seq 0 BOB_KEY_SIZE)) =
  Some (Z.compare (from_le_bytes x) (from_le_bytes y)).
Proof.
  intros Hx Hy. rw -(digits_bytes x) -(digits_bytes y) Hx Hy.
  apply cmp_loop_digits; [lia|]. intros i Hi.
  destruct (lookup_lt_is_Some_2 x i ltac:(lia)) as [b Hb].
  destruct (lookup_lt_is_Some_2 y i ltac:(lia)) as [c Hc].
  rw Hb Hc /=. auto using byte_val_bounds.
Qed.

(** ** Lemmas: parsing keys *)

Lemma from_str_step_hex (k : list byte) data i b :
  k !! i = Some b → length data = length k →
  from_str_step (BobKey_to_string k) data (2 * i) = Some (<[i := b]> data).
Proof.
  intros Hi Hlen. rw /from_str_step (to_string_slice _ _ b) //= fmt_02X_parse.
  pose proof (lookup_lt_Some _ _ _ Hi) as Hlt.
  rw (Nat.mul_comm 2 i) Nat.div_mul // decide_True ?byte_of_Z_val //. lia.
Qed.

Lemma insert_take_replicate (k : list byte) i b x :
  k !! i = Some b →
  <[i := b]> (take i k ++ replicate (length k - i) x) =
  take (S i) k ++ replicate (length k - S i) x.
Proof.
  intros Hi. pose proof (lookup_lt_Some _ _ _ Hi) as Hlt.
  rw insert_app_r_alt; first (rw length_take; lia).
  rw length_take Nat.min_l; first lia. rw Nat.sub_diag (take_S_r _ _ b) // -app_assoc.
  by replace (length k - i)%nat with (S (length k - S i))%nat by lia.
Qed.

Lemma BobKey_from_to_string `{KeySize} (k : BobKey) :
  key_wf k → BobKey_from_str (BobKey_to_string k) = Some (Ok k).
Proof.
  intros Hk. rw /BobKey_from_str BobKey_to_string_length step_by2_even -Hk.
  destruct (ofold_ind (from_str_step (BobKey_to_string k))
    ((λ i, 2 * i)%nat <$> seq 0 (length k))
    (λ pre data, data = take (length pre) k ++ replicate (length k - length pre) x00)
    (replicate (length k) x00)) as (data & -> & ->).
  - by rw /= Nat.sub_0_r.
  - intros pre i rest data Hl ->.
    assert (length pre < length k)%nat as Hlt.
    { apply (f_equal length) in Hl. rw length_fmap length_seq length_app /= in Hl. lia. }
    assert (i = 2 * length pre)%nat as ->.
    { apply (f_equal (λ l, l !! length pre)) in Hl.
      rw list_lookup_fmap lookup_seq_lt // lookup_app_r // Nat.sub_diag in Hl. by simplify_eq/=. }
    destruct (lookup_lt_is_Some_2 k _ Hlt) as [b Hb].
    eexists. rw (from_str_step_hex k _ _ b) //.
    { rw length_app length_take length_replicate. lia. }
    split; [done|]. rw length_app /= Nat.add_1_r. by apply insert_take_replicate.
  - rw length_fmap length_seq Nat.sub_diag take_ge //= app_nil_r //.
Qed.

(** ** Theorems *)

(** [Display] and [FromStr] of [BobKey] are inverse: the hexadecimal text of
    every key parses back to the key, without an abort. *)
Theorem key_hex_roundtrip `{KeySize} (k : BobKey) :
  key_wf k → BobKey_from_str (BobKey_to_string k) = Some (Ok k).
Proof. apply BobKey_from_to_string. Qed.

Lemma key_hex_roundtrip_witness :
  let sz : KeySize := 2%nat in
  key_wf (key_size := sz) [x0a; xff] ∧
  BobKey_from_str (key_size := sz) (BobKey_to_string [x0a; xff]) = Some (Ok [x0a; xff]).
Proof.
  intros sz. split; [reflexivity|]. by apply (@key_hex_roundtrip sz [x0a; xff]).
Defined.

Lemma serialized_parse {E} (d : BobData) :
  data_wf d → from_serialized_bytes (E := E) (to_serialized_bytes d) = Some (Ok d).
Proof.
  intros Hd. destruct d as [data [ts]]. rw /from_serialized_bytes /to_serialized_bytes.
  case_decide as Hlen; last by (rw length_app length_to_be_bytes in Hlen; lia).
  rw take_app_length' ?length_to_be_bytes // drop_app_length' ?length_to_be_bytes //.
  rw from_to_be_bytes //.
Qed.

(** The stored form of a record (an 8-byte big-endian timestamp, then the
    data) reads back as the record. *)
Theorem data_serialized_roundtrip {E} (d : BobData) :
  data_wf d → from_serialized_bytes (E := E) (to_serialized_bytes d) = Some (Ok d).
Proof. apply serialized_parse. Qed.

Lemma data_serialized_roundtrip_witness :
  let d := {| inner := [x01]; meta := {| timestamp := 1700000000 |} |} in
  data_wf d ∧ from_serialized_bytes (E := unit) (to_serialized_bytes d) = Some (Ok d).
Proof.
  intros d. assert (data_wf d) by (rw /data_wf /u64 /=; lia).
  split; [done|]. by apply data_serialized_roundtrip.
Defined.

(** [le_cmp_keys], whichever of its three routines the key size selects,
    compares the keys as little-endian numbers and never aborts. *)
Theorem le_cmp_keys_spec `{KeySize} (x y : list byte) :
  length x = BOB_KEY_SIZE → length y = BOB_KEY_SIZE →
  le_cmp_keys x y = Some (Z.compare (from_le_bytes x) (from_le_bytes y)).
Proof.
  intros Hx Hy. rw /le_cmp_keys.
  destruct (Nat.eqb_spec BOB_KEY_SIZE usize_size) as [H8|H8].
  - by rw !usize_part_all; try congruence.
  - destruct (Nat.eqb_spec (BOB_KEY_SIZE mod usize_size) 0) as [Hm|Hm].
    + apply le_cmp_keys_words; [|done..].
      pose proof (Nat.div_mod_eq BOB_KEY_SIZE usize_size). lia.
    + by apply le_cmp_keys_bytes.
Qed.

Lemma le_cmp_keys_spec_witness :
  let sz : KeySize := 9%nat in
  let x := replicate 9 x01 in let y := replicate 8 xff ++ [x00] in
  length x = 9%nat ∧ length y = 9%nat ∧ le_cmp_keys (key_size := sz) x y = Some Gt.
Proof.
  intros sz x y. split; [reflexivity|]. split; [reflexivity|].
  rw (@le_cmp_keys_spec sz x y); reflexivity.
Defined.
