(* ===== verification/Text.v ===== *)
(** * Text: the string operations of the Rust standard library the code uses

    Decimal [Display] and [FromStr] of unsigned integers, [split_whitespace],
    [split(c)] and [{:?}] of a string.  Strings are their UTF-8 bytes. *)

From Corelib Require Import ssreflect.
From stdpp Require Import base list strings.
From Stdlib Require Import Strings.Ascii Strings.Byte ZArith Lia.
From S2P Require Import Prelude Data.

(** [as_bytes] *)
Definition bytes_of_string (s : string) : list byte :=
  (λ c, default x00 (Byte.of_N (N_of_ascii c))) <$> String.list_ascii_of_string s.

(** ** Decimal numbers *)

Definition dec_digit (d : Z) : ascii := ascii_of_N (Z.to_N (48 + d)).

Fixpoint dec_go (fuel : nat) (n : Z) (acc : string) : string :=
  match fuel with
  | O => acc
  | S fuel' =>
      if n <? 10 then String (dec_digit n) acc
      else dec_go fuel' (n / 10) (String (dec_digit (n mod 10)) acc)
  end.

(** [Display] of an integer below 10^20, which covers [u64]. *)
Definition fmt_dec (n : Z) : string := dec_go 20 n EmptyString.

Definition to_digit10 (c : ascii) : option Z :=
  let v := byte_of_char c in if (48 <=? v) && (v <=? 57) then Some (v - 48) else None.

Fixpoint radix10_digits (bound acc : Z) (s : string) : option Z :=
  match s with
  | EmptyString => Some acc
  | String c s' =>
      d ← to_digit10 c;
      if acc * 10 + d <? bound then radix10_digits bound (acc * 10 + d) s' else None
  end.

(** [str::parse] of an unsigned type with the given (exclusive) bound. *)
Definition parse_uint (bound : Z) (s : string) : option Z :=
  match s with
  | EmptyString => None
  | String c EmptyString =>
      if decide (c = "+"%char ∨ c = "-"%char) then None else radix10_digits bound 0 s
  | String c s' =>
      if decide (c = "+"%char) then radix10_digits bound 0 s' else radix10_digits bound 0 s
  end.

Definition parse_u32 : string → option Z := parse_uint (2 ^ 32).
Definition parse_u64 : string → option Z := parse_uint (2 ^ 64).

(** [ParseIntError] in [Display]: why [parse_uint] refuses a string. *)
Fixpoint radix10_error (bound acc : Z) (s : string) : string :=
  match s with
  | EmptyString => EmptyString
  | String c s' =>
      match to_digit10 c with
      | None => "invalid digit found in string"
      | Some d =>
          if acc * 10 + d <? bound then radix10_error bound (acc * 10 + d) s'
          else "number too large to fit in target type"
      end
  end.

Definition parse_error (bound : Z) (s : string) : string :=
  match s with
  | EmptyString => "cannot parse integer from empty string"
  | String c EmptyString =>
      if decide (c = "+"%char ∨ c = "-"%char) then "invalid digit found in string" else radix10_error bound 0 s
  | String c s' => if decide (c = "+"%char) then radix10_error bound 0 s' else radix10_error bound 0 s
  end.

(** [str::parse] with its error. *)
Definition parse_int (bound : Z) (s : string) : result Z string := ok_or (parse_uint bound s) (parse_error bound s).

(** ** [split_whitespace] *)

Definition nth_byte (s : string) (i : nat) : Z := from_option byte_of_char (-1) (String.get i s).

(** The number of bytes of the white-space character at the head (Unicode
    [White_Space]), 0 when there is none. *)
Definition ws_prefix (s : string) : nat :=
  let a := nth_byte s 0 in let b := nth_byte s 1 in let c := nth_byte s 2 in
  if ((9 <=? a) && (a <=? 13)) || (a =? 32) then 1%nat
  else if (a =? 194) && ((b =? 133) || (b =? 160)) then 2%nat
  else if (a =? 225) && (b =? 154) && (c =? 128) then 3%nat
  else if (a =? 226) && (b =? 128) &&
    (((128 <=? c) && (c <=? 138)) || (c =? 168) || (c =? 169) || (c =? 175)) then 3%nat
  else if (a =? 226) && (b =? 129) && (c =? 159) then 3%nat
  else if (a =? 227) && (b =? 128) && (c =? 128) then 3%nat
  else 0%nat.

Definition flush (cur : string) : list string :=
  match cur with EmptyString => [] | _ => [cur] end.

(** [skip] bytes of a white-space character remain; [cur] is the current word. *)
Fixpoint words_go (s : string) (skip : nat) (cur : string) : list string :=
  match s with
  | EmptyString => flush cur
  | String c s' =>
      match skip with
      | S k => words_go s' k cur
      | O =>
          match ws_prefix s with
          | O => words_go s' 0 (cur +:+ String c EmptyString)
          | S k => flush cur ++ words_go s' k EmptyString
          end
      end
  end.

Definition split_whitespace (s : string) : list string := words_go s 0 EmptyString.

(** ** [split(c)] for an ASCII character: always at least one piece *)

Fixpoint split_go (sep : ascii) (s : string) (cur : string) : list string :=
  match s with
  | EmptyString => [cur]
  | String c s' =>
      if decide (c = sep) then cur :: split_go sep s' EmptyString
      else split_go sep s' (cur +:+ String c EmptyString)
  end.

Definition split_char (sep : ascii) (s : string) : list string := split_go sep s EmptyString.

(** ** [{:?}] of a string: quotes, backslashes and ASCII control characters
    are escaped; the bytes of other characters are kept. *)

Definition hex_lower (v : Z) : ascii := ascii_of_N (Z.to_N (if v <? 10 then 48 + v else 87 + v)).

Definition escape_char (c : ascii) : string :=
  let v := byte_of_char c in
  if v =? 34 then String "\"%char (String c EmptyString)
  else if v =? 92 then String "\"%char (String c EmptyString)
  else if v =? 9 then "\t"
  else if v =? 10 then "\n"
  else if v =? 13 then "\r"
  else if v =? 0 then "\0"
  else if v <? 16 then "\u{" +:+ String (hex_lower v) "}"
  else if (v <? 32) || (v =? 127)
  then "\u{" +:+ String (hex_lower (v / 16)) (String (hex_lower (v mod 16)) "}")
  else String c EmptyString.

Fixpoint escape_str (s : string) : string :=
  match s with
  | EmptyString => EmptyString
  | String c s' => escape_char c +:+ escape_str s'
  end.

Definition quote : string := String (ascii_of_N 34) EmptyString.
Definition fmt_debug_str (s : string) : string := quote +:+ escape_str s +:+ quote.

Fixpoint join (sep : string) (l : list string) : string :=
  match l with
  | [] => EmptyString
  | [s] => s
  | s :: l' => s +:+ sep +:+ join sep l'
  end.

(** ** Lemmas *)

Lemma append_cons c s t : String c s +:+ t = String c (s +:+ t).
Proof. done. Qed.

Lemma append_nil_r s : s +:+ EmptyString = s.
Proof. induction s as [|c s IH]; [done|]. by rw ?append_cons IH. Qed.

Lemma append_assoc s t u : (s +:+ t) +:+ u = s +:+ t +:+ u.
Proof. induction s as [|c s IH]; [done|]. by rw ?append_cons IH. Qed.

Lemma append_inj_l s t u : s +:+ t = s +:+ u → t = u.
Proof. induction s as [|c s IH]; [done|]. rw !append_cons. intros [= H]. auto. Qed.

Lemma dec_digit_value d : 0 ≤ d < 10 → to_digit10 (dec_digit d) = Some d.
Proof.
  intros Hd. assert (d = 0 ∨ d = 1 ∨ d = 2 ∨ d = 3 ∨ d = 4 ∨ d = 5 ∨ d = 6 ∨ d = 7 ∨ d = 8 ∨ d = 9)
    as Hcases by lia.
  by destruct_or! Hcases; subst.
Qed.

Lemma dec_digit_not_sign d : 0 ≤ d < 10 → dec_digit d ≠ "+"%char ∧ dec_digit d ≠ "-"%char.
Proof.
  intros Hd. pose proof (dec_digit_value d Hd) as Hv.
  split; intros Heq; rw Heq in Hv; by vm_compute in Hv.
Qed.

(** Parsing what the printer put in front of [s] leaves the number as accumulator. *)
Lemma radix10_dec_go bound fuel n s :
  0 ≤ n < 10 ^ Z.of_nat fuel → n < bound → (1 ≤ fuel)%nat →
  radix10_digits bound 0 (dec_go fuel n s) = radix10_digits bound n s.
Proof.
  revert n s. induction fuel as [|fuel IH]; intros n s Hn Hb Hf; [lia|]; simpl dec_go.
  destruct (Z.ltb_spec n 10) as [Hlt|Hge].
  - simpl. rw dec_digit_value; first lia. simpl.
    replace (0 * 10 + n) with n by lia. by rw (proj2 (Z.ltb_lt n bound)).
  - assert (1 ≤ fuel)%nat as Hf'.
    { destruct fuel; [|lia]. change (10 ^ Z.of_nat 1) with 10 in Hn. lia. }
    rw Nat2Z.inj_succ Z.pow_succ_r in Hn; first lia.
    pose proof (Z.div_mod n 10 ltac:(lia)) as Hdm.
    pose proof (Z.mod_pos_bound n 10 ltac:(lia)) as Hm.
    rw IH; [| |done|].
    + split; [apply Z.div_pos; lia|]. apply Z.div_lt_upper_bound; lia.
    + lia.
    + simpl. rw dec_digit_value //=.
      replace (n / 10 * 10 + n mod 10) with n by lia. by rw (proj2 (Z.ltb_lt n bound)).
Qed.

Lemma dec_go_head fuel n s :
  0 ≤ n → (1 ≤ fuel)%nat → ∃ d t, 0 ≤ d < 10 ∧ dec_go fuel n s = String (dec_digit d) t.
Proof.
  revert n s. induction fuel as [|fuel IH]; intros n s Hn Hf; [lia|]. simpl.
  destruct (Z.ltb_spec n 10); [by exists n, s|].
  destruct fuel as [|fuel].
  - simpl. exists (n mod 10), s. split; [apply Z.mod_pos_bound; lia|done].
  - apply IH; [apply Z.div_pos; lia|lia].
Qed.

(** Printing then parsing an unsigned integer. *)
Lemma parse_fmt_dec_lt bound n : 0 ≤ n < 10 ^ 20 → n < bound → parse_uint bound (fmt_dec n) = Some n.
Proof.
  intros Hn Hb.
  assert (radix10_digits bound 0 (fmt_dec n) = Some n) as Hr.
  { rw /fmt_dec radix10_dec_go //; lia. }
  destruct (dec_go_head 20 n EmptyString) as (d & t & Hd & Heq); [lia|lia|].
  change (dec_go 20 n EmptyString) with (fmt_dec n) in Heq.
  destruct (dec_digit_not_sign d Hd) as [Hp Hm].
  rw Heq in Hr. rw Heq. rw /parse_uint.
  destruct t; [rw decide_False; first by intros [?|?]|rw decide_False //]; done.
Qed.

Lemma parse_fmt_dec bound n :
  0 ≤ n < bound → bound ≤ 10 ^ 20 → parse_uint bound (fmt_dec n) = Some n.
Proof. intros. apply parse_fmt_dec_lt; lia. Qed.

Definition plain_char (c : ascii) : bool := (33 <=? byte_of_char c) && (byte_of_char c <? 128).

Fixpoint plain (s : string) : bool :=
  match s with EmptyString => true | String c s' => plain_char c && plain s' end.

Lemma ws_prefix_plain c s : plain_char c = true → ws_prefix (String c s) = 0%nat.
Proof.
  rw /plain_char /ws_prefix /= /nth_byte /=. intros [H1 H2]%andb_true_iff.
  repeat case_match; try done; exfalso; lia.
Qed.

Lemma words_go_plain p s cur :
  plain p = true → words_go (p +:+ s) 0 cur = words_go s 0 (cur +:+ p).
Proof.
  revert cur. induction p as [|c p IH]; intros cur Hp; rw ?append_cons.
  - by rw append_nil_r.
  - simpl in Hp. apply andb_true_iff in Hp as [Hc Hp].
    change (words_go (String c (p +:+ s)) 0 cur) with
      (match ws_prefix (String c (p +:+ s)) with
       | O => words_go (p +:+ s) 0 (cur +:+ String c EmptyString)
       | S k => flush cur ++ words_go (p +:+ s) k EmptyString
       end).
    rw ws_prefix_plain // IH // append_assoc //.
Qed.

(** A plain word is the first one. *)
Lemma split_whitespace_word p s :
  plain p = true → p ≠ EmptyString →
  split_whitespace (p +:+ " " +:+ s) = p :: split_whitespace s.
Proof.
  intros Hp Hne. rw /split_whitespace words_go_plain //. by destruct p.
Qed.

Lemma split_whitespace_one p :
  plain p = true → p ≠ EmptyString → split_whitespace p = [p].
Proof.
  intros Hp Hne. rw /split_whitespace -{1}(append_nil_r p) words_go_plain //. by destruct p.
Qed.

Definition no_sep (sep : ascii) (s : string) : Prop := ∀ i c, String.get i s = Some c → c ≠ sep.

Lemma split_go_app sep p s cur :
  no_sep sep p → split_go sep (p +:+ s) cur = split_go sep s (cur +:+ p).
Proof.
  revert cur. induction p as [|c p IH]; intros cur Hp; rw ?append_cons /=.
  - by rw append_nil_r.
  - rw decide_False; first by apply (Hp 0%nat).
    rw IH; first (intros i; apply (Hp (S i))). by rw append_assoc.
Qed.

Lemma split_char_join sep l : l ≠ [] → Forall (no_sep sep) l → split_char sep (join (String sep EmptyString) l) = l.
Proof.
  intros Hne Hl. induction Hl as [|s l Hs Hl IH]; [done|]. destruct l as [|s' l].
  - simpl. rw /split_char -{1}(append_nil_r s) split_go_app //.
  - change (join (String sep EmptyString) (s :: s' :: l)) with
      (s +:+ String sep (join (String sep EmptyString) (s' :: l))).
    rw /split_char split_go_app //. cbn [split_go]. rw decide_True //.
    change (EmptyString +:+ s) with s. f_equal. by apply IH.
Qed.

Lemma no_sep_join c sep l : c ≠ sep → Forall (no_sep c) l → no_sep c (join (String sep EmptyString) l).
Proof.
  intros Hne Hl. induction Hl as [|s l Hs Hl IH]; [by intros [|i] d|]. destruct l as [|s' l]; [done|].
  change (no_sep c (s +:+ String sep (join (String sep EmptyString) (s' :: l)))). revert IH Hs.
  generalize (join (String sep EmptyString) (s' :: l)). clear -Hne. intros t Ht Hs.
  induction s as [|d s IHs]; rw ?append_cons; intros [|i] e; simpl.
  - intros [= <-]. by apply not_eq_sym.
  - apply Ht.
  - apply (Hs 0%nat).
  - apply IHs. intros j. apply (Hs (S j)).
Qed.

Lemma dec_go_no_sep sep fuel n s :
  0 ≤ n → to_digit10 sep = None → no_sep sep s → no_sep sep (dec_go fuel n s).
Proof.
  intros Hn Hsep. revert n s Hn.
  assert (∀ d s, 0 ≤ d < 10 → no_sep sep s → no_sep sep (String (dec_digit d) s)) as Hcons.
  { intros d s Hd Hs [|i] c; simpl; [|apply Hs]. intros [= <-] Heq.
    pose proof (dec_digit_value d Hd) as Hv. by rw Heq Hsep in Hv. }
  induction fuel as [|fuel IH]; intros n s Hn Hs; simpl; [done|].
  destruct (Z.ltb_spec n 10); [by apply Hcons|].
  apply IH; [apply Z.div_pos; lia|]. apply Hcons; [apply Z.mod_pos_bound; lia|done].
Qed.
