(* ===== verification/Errors.v ===== *)
(** * Errors: the error type and its form on the wire

    [bob-common/src/error.rs].  A remote error travels as a [tonic::Status] (a code
    and a message); [Status_from_Error] and [Error_from_Status] are the two
    conversions. *)

From Corelib Require Import ssreflect.
From stdpp Require Import base option list strings sets.
From Stdlib Require Import Strings.Byte ZArith Lia.
From S2P Require Import Prelude Data Text.

Inductive Kind : Type :=
| Timeout
| VDiskNotFound (id : Z)
| Storage (msg : string)
| DuplicateKey
| KeyNotFound (key : BobKey)
| DCIsNotAvailable
| PossibleDiskDisconnection
| VDiskIsNotReady
| Failed (msg : string)
| Internal
| PearlChangeState (msg : string)
| RequestFailedCompletely (msg : string)
| DisksEventsLogger (msg : string)
| Unauthorized
| HolderTemporaryUnavailable.

#[global] Instance Kind_eq_dec : EqDecision Kind.
Proof. solve_decision. Defined.

(** The struct [Error] has the one field [ctx]. *)
Record Error : Type := mkError { ctx : Kind }.

#[global] Instance Error_eq_dec : EqDecision Error.
Proof. solve_decision. Defined.

Definition is_not_ready (e : Error) : bool := bool_decide (ctx e = VDiskIsNotReady).
Definition is_duplicate (e : Error) : bool := bool_decide (ctx e = DuplicateKey).
Definition is_key_not_found (e : Error) : bool :=
  match ctx e with KeyNotFound _ => true | _ => false end.
Definition is_internal (e : Error) : bool := bool_decide (ctx e = Internal).
Definition is_possible_disk_disconnection (e : Error) : bool :=
  bool_decide (ctx e = PossibleDiskDisconnection).

Definition internal : Error := mkError Internal.
Definition unauthorized : Error := mkError Unauthorized.
Definition timeout : Error := mkError Timeout.
Definition key_not_found (key : BobKey) : Error := mkError (KeyNotFound key).
Definition pearl_change_state (msg : string) : Error := mkError (PearlChangeState msg).
Definition failed (cause : string) : Error := mkError (Failed cause).
Definition duplicate_key : Error := mkError DuplicateKey.
Definition vdisk_not_found (id : Z) : Error := mkError (VDiskNotFound id).
Definition dc_is_not_available : Error := mkError DCIsNotAvailable.
Definition possible_disk_disconnection : Error := mkError PossibleDiskDisconnection.
Definition vdisk_is_not_ready : Error := mkError VDiskIsNotReady.
Definition storage (msg : string) : Error := mkError (Storage msg).
Definition holder_temporary_unavailable : Error := mkError HolderTemporaryUnavailable.

(** The derived [{:?}] of [Kind]. *)
Definition Kind_debug (k : Kind) : string :=
  match k with
  | Timeout => "Timeout"
  | VDiskNotFound id => "VDiskNotFound(" +:+ fmt_dec id +:+ ")"
  | Storage msg => "Storage(" +:+ fmt_debug_str msg +:+ ")"
  | DuplicateKey => "DuplicateKey"
  | KeyNotFound key =>
      "KeyNotFound(BobKey([" +:+ join ", " ((λ b, fmt_dec (byte_val b)) <$> key) +:+ "]))"
  | DCIsNotAvailable => "DCIsNotAvailable"
  | PossibleDiskDisconnection => "PossibleDiskDisconnection"
  | VDiskIsNotReady => "VDiskIsNotReady"
  | Failed msg => "Failed(" +:+ fmt_debug_str msg +:+ ")"
  | Internal => "Internal"
  | PearlChangeState msg => "PearlChangeState(" +:+ fmt_debug_str msg +:+ ")"
  | RequestFailedCompletely msg => "RequestFailedCompletely(" +:+ fmt_debug_str msg +:+ ")"
  | DisksEventsLogger msg => "DisksEventsLogger(" +:+ fmt_debug_str msg +:+ ")"
  | Unauthorized => "Unauthorized"
  | HolderTemporaryUnavailable => "HolderTemporaryUnavailable"
  end.

Definition Kind_display (k : Kind) : string :=
  match k with
  | VDiskNotFound id => "vdisk: " +:+ fmt_dec id +:+ " not found"
  | Storage description => "backend storage error: " +:+ description
  | PearlChangeState description => "backend pearl change state error: " +:+ description
  | err => Kind_debug err
  end.

Definition Error_display (e : Error) : string := Kind_display (ctx e).

Definition newline : string := String (Ascii.ascii_of_N 10) EmptyString.

Definition request_failed_completely (local alien : Error) : Error :=
  mkError (RequestFailedCompletely
    ("local error: " +:+ Error_display local +:+ newline +:+ "alien error: " +:+ Error_display alien)).

Definition disk_events_logger (msg error : string) : Error :=
  mkError (DisksEventsLogger (msg +:+ ": " +:+ error)).

(** ** The wire form *)

Inductive Code : Type :=
| CodeInvalidArgument | CodeDeadlineExceeded | CodeNotFound | CodeAlreadyExists
| CodePermissionDenied | CodeUnauthenticated | CodeInternal | CodeUnavailable | CodeUnknown.

Record Status : Type := { code : Code; message : string }.

Definition Code_debug (c : Code) : string :=
  match c with
  | CodeInvalidArgument => "InvalidArgument"
  | CodeDeadlineExceeded => "DeadlineExceeded"
  | CodeNotFound => "NotFound"
  | CodeAlreadyExists => "AlreadyExists"
  | CodePermissionDenied => "PermissionDenied"
  | CodeUnauthenticated => "Unauthenticated"
  | CodeInternal => "Internal"
  | CodeUnavailable => "Unavailable"
  | CodeUnknown => "Unknown"
  end.

Definition Status_from_Error (err : Error) : Status :=
  match ctx err with
  | KeyNotFound key => {| code := CodeNotFound; message := "KeyNotFound " +:+ BobKey_to_string key |}
  | DuplicateKey => {| code := CodeAlreadyExists; message := "DuplicateKey" |}
  | Timeout => {| code := CodeDeadlineExceeded; message := "Timeout" |}
  | VDiskNotFound id => {| code := CodeNotFound; message := "VDiskNotFound " +:+ fmt_dec id |}
  | Storage msg => {| code := CodeInternal; message := "Storage " +:+ msg |}
  | VDiskIsNotReady => {| code := CodeInternal; message := "VDiskIsNotReady" |}
  | DCIsNotAvailable => {| code := CodeInternal; message := "Disk Controller is not available" |}
  | PossibleDiskDisconnection =>
      {| code := CodeInternal; message := "Possibly disk was disconnected" |}
  | Failed msg => {| code := CodeInternal; message := "Failed " +:+ msg |}
  | Internal => {| code := CodeInternal; message := "Internal" |}
  | PearlChangeState msg => {| code := CodeInternal; message := "PearlChangeState " +:+ msg |}
  | RequestFailedCompletely msg =>
      {| code := CodeInternal;
         message := "Request failed on both stages local and alien: " +:+ msg |}
  | DisksEventsLogger msg =>
      {| code := CodeInternal; message := "disk events logger error: " +:+ msg |}
  | Unauthorized => {| code := CodeUnauthenticated; message := "Unauthorized" |}
  | HolderTemporaryUnavailable =>
      {| code := CodeUnavailable; message := "HolderTemporaryUnavailable" |}
  end.

Definition rest_words (words : list string) : string :=
  foldl (λ s n, s +:+ n) EmptyString words.

(** [words.next().and_then(parse).map(f)]; the parser may abort. *)
Definition parse_next {T Y} (parse : string → option (option T)) (words : list string)
    (f : T → Y) : option (option Y) :=
  match words with
  | [] => Some None
  | w :: _ => match parse w with Some r => Some (option_map f r) | None => None end
  end.

Section status.
Context {key_size : KeySize}.

Definition parse_key (w : string) : option (option BobKey) :=
  r ← BobKey_from_str w;
  Some (match r with Ok k => Some k | Err _ => None end).

(** [None] is an abort (of the key parser). *)
Definition Error_from_Status (status : Status) : option Error :=
  match split_whitespace (message status) with
  | [] => Some (failed ("Can't parse status from " +:+ Code_debug (code status) +:+ ", " +:+ message status))
  | name :: words =>
      if decide (name = "KeyNotFound") then
        r ← parse_next parse_key words key_not_found;
        Some (default (failed ("Failed to parse key from " +:+ message status)) r)
      else if decide (name = "DuplicateKey") then Some duplicate_key
      else if decide (name = "Timeout") then Some timeout
      else if decide (name = "VDiskNotFound") then
        r ← parse_next (λ w, Some (parse_u32 w)) words vdisk_not_found;
        Some (default (failed ("Failed to parse vdisk_id from " +:+ message status)) r)
      else if decide (name = "Storage") then Some (storage (rest_words words))
      else if decide (name = "VDiskIsNotReady") then Some vdisk_is_not_ready
      else if decide (name = "Failed") then Some (failed (rest_words words))
      else if decide (name = "Internal") then Some internal
      else if decide (name = "PearlChangeState") then Some (pearl_change_state (rest_words words))
      else if decide (name = "Unauthorized") then Some unauthorized
      else if decide (name = "HolderTemporaryUnavailable") then Some holder_temporary_unavailable
      else Some (failed ("Can't parse status " +:+ fmt_debug_str name +:+ " from "
                         +:+ Code_debug (code status) +:+ ", " +:+ message status))
  end.

(** What a remote node makes of an error: the kinds with a name of their own keep
    their kind; the texts lose their white space. *)
Definition wire_kind (k : Kind) (k' : Kind) : Prop :=
  match k with
  | Storage msg => k' = Storage (rest_words (split_whitespace msg))
  | Failed msg => k' = Failed (rest_words (split_whitespace msg))
  | PearlChangeState msg => k' = PearlChangeState (rest_words (split_whitespace msg))
  | DCIsNotAvailable | PossibleDiskDisconnection
  | RequestFailedCompletely _ | DisksEventsLogger _ => ∃ msg, k' = Failed msg
  | _ => k' = k
  end.

Definition kind_wf (k : Kind) : Prop :=
  match k with
  | KeyNotFound key => key_wf key
  | VDiskNotFound id => u32 id
  | _ => True
  end.

(** ** Lemmas *)

Lemma hex_digit_plain b :
  plain_char (hex_digit (byte_val b / 16)) = true ∧ plain_char (hex_digit (byte_val b mod 16)) = true.
Proof. by_bytes b. Qed.

Lemma BobKey_to_string_plain k : plain (BobKey_to_string k) = true.
Proof.
  induction k as [|b k IH]; [done|]. destruct (hex_digit_plain b) as [H1 H2].
  change (plain_char (hex_digit (byte_val b / 16)) &&
    (plain_char (hex_digit (byte_val b mod 16)) && plain (BobKey_to_string k)) = true).
  by rw H1 H2 IH.
Qed.

Lemma dec_digit_plain d : 0 ≤ d < 10 → plain_char (dec_digit d) = true.
Proof.
  intros Hd. assert (d = 0 ∨ d = 1 ∨ d = 2 ∨ d = 3 ∨ d = 4 ∨ d = 5 ∨ d = 6 ∨ d = 7 ∨ d = 8 ∨ d = 9)
    as Hcases by lia.
  by destruct_or! Hcases; subst.
Qed.

Lemma dec_go_plain fuel n s : 0 ≤ n → plain s = true → plain (dec_go fuel n s) = true.
Proof.
  revert n s. induction fuel as [|fuel IH]; intros n s Hn Hs; simpl; [done|].
  destruct (Z.ltb_spec n 10); simpl.
  - rw dec_digit_plain //; lia.
  - apply IH; [apply Z.div_pos; lia|]. simpl.
    rw dec_digit_plain //. apply Z.mod_pos_bound; lia.
Qed.

Lemma fmt_dec_plain n : 0 ≤ n → plain (fmt_dec n) = true ∧ fmt_dec n ≠ EmptyString.
Proof.
  intros Hn. split; [by apply dec_go_plain|].
  destruct (dec_go_head 20 n EmptyString) as (d & t & _ & Heq); [done|lia|].
  by rw /fmt_dec Heq.
Qed.

(** The first word of a status message is the name of its kind. *)
Lemma Error_from_Status_word name msg c (p : string) :
  plain p = true → p ≠ EmptyString → msg = p +:+ " " +:+ name →
  split_whitespace (message {| code := c; message := msg |}) = p :: split_whitespace name.
Proof. intros Hp Hne ->. by apply split_whitespace_word. Qed.

Lemma KeyNotFound_wire key c :
  key_wf key → BOB_KEY_SIZE ≠ 0%nat →
  Error_from_Status {| code := c; message := "KeyNotFound " +:+ BobKey_to_string key |} =
  Some (key_not_found key).
Proof.
  intros Hk Hsz. rw /Error_from_Status.
  rw (Error_from_Status_word (BobKey_to_string key) _ _ "KeyNotFound") //.
  rw split_whitespace_one //; [apply BobKey_to_string_plain| |].
  - intros Hnil. apply (f_equal String.length) in Hnil.
    rw BobKey_to_string_length /= in Hnil. rw /key_wf in Hk. lia.
  - simpl. by rw /parse_key BobKey_from_to_string.
Qed.

Lemma VDiskNotFound_wire id c :
  u32 id →
  Error_from_Status {| code := c; message := "VDiskNotFound " +:+ fmt_dec id |} =
  Some (vdisk_not_found id).
Proof.
  intros Hid. rw /u32 in Hid. rw /Error_from_Status.
  rw (Error_from_Status_word (fmt_dec id) _ _ "VDiskNotFound") //.
  destruct (fmt_dec_plain id) as [Hp Hne]; [lia|].
  rw split_whitespace_one //=. by rw /parse_u32 parse_fmt_dec.
Qed.

(** ** Theorems *)

(** C40: Reading back the status a node builds from an error never aborts; every kind
    with a name of its own arrives as the same kind (keys and ids included), the three
    kinds that carry a text keep it without its white space, and the four disk kinds
    degrade to [Failed]. *)
Theorem error_status_roundtrip (e : Error) :
  kind_wf (ctx e) → BOB_KEY_SIZE ≠ 0%nat →
  ∃ k', Error_from_Status (Status_from_Error e) = Some (mkError k') ∧ wire_kind (ctx e) k'.
Proof.
  intros Hwf Hsz.
  destruct e as [[]]; simpl ctx in *; rw /Status_from_Error /=;
    try (by repeat eexists).
  - eexists. by rw VDiskNotFound_wire.
  - eexists. by rw KeyNotFound_wire.
Qed.

End status.

Lemma error_status_roundtrip_witness :
  let sz : KeySize := 2%nat in
  kind_wf (KeyNotFound [Byte.x01; Byte.x02]) ∧
  ∃ k', Error_from_Status (Status_from_Error (key_not_found [Byte.x01; Byte.x02])) = Some (mkError k')
        ∧ wire_kind (KeyNotFound [Byte.x01; Byte.x02]) k'.
Proof.
  intros sz. split; [reflexivity|].
  by apply (@error_status_roundtrip sz (key_not_found [Byte.x01; Byte.x02])).
Defined.

(** The text of a storage error loses its spaces on the way. *)
Example storage_text_loses_spaces :
  Error_from_Status (key_size := 8%nat) (Status_from_Error (storage "no space left")) =
  Some (storage "nospaceleft").
Proof. reflexivity. Qed.

(** A status whose key has an odd number of digits aborts the process that reads it. *)
Example short_key_status_aborts :
  Error_from_Status (key_size := 8%nat) {| code := CodeNotFound; message := "KeyNotFound 0A1" |} = None.
Proof. reflexivity. Qed.
