(* ===== verification/Options.v ===== *)
(** * Options: request options, internal and on the wire

    [bob-common/src/operation_options.rs] and the hand-written part of
    [bob-grpc/src/lib.rs].  The wire records are the messages of
    [bob-grpc/proto/bob.proto].  Names of nodes and disks ([Name<T>]) are strings. *)

From Corelib Require Import ssreflect.
From stdpp Require Import base list strings.
From Stdlib Require Import ZArith Lia.
From S2P Require Import Prelude.

Abbreviation NodeName := string.
Abbreviation DiskName := string.

(** ** Wire messages *)

Record PutOptions : Type := {
  po_remote_nodes : list string;
  po_force_node : bool;
  po_overwrite : bool;
}.

Inductive GetSource : Type := SourceAll | SourceNormal | SourceAlien.

#[global] Instance GetSource_eq_dec : EqDecision GetSource.
Proof. solve_decision. Defined.

Record GetOptions : Type := {
  go_force_node : bool;
  go_source : Z;  (* i32 *)
}.

Record DeleteOptions : Type := {
  do_force_alien_nodes : list string;
  do_force_node : bool;
  do_is_alien : bool;
}.

Definition PutOptions_new_local : PutOptions :=
  {| po_remote_nodes := []; po_force_node := true; po_overwrite := false |}.

Definition PutOptions_new_alien (remote_nodes : list string) : PutOptions :=
  {| po_remote_nodes := remote_nodes; po_force_node := true; po_overwrite := false |}.

(** [GetSource as i32] *)
Definition GetSource_as_i32 (s : GetSource) : Z :=
  match s with SourceAll => 0 | SourceNormal => 1 | SourceAlien => 2 end.

(** [From<i32>]: any other number is a "fatal core error" abort. *)
Definition GetSource_from (value : Z) : option GetSource :=
  if value =? 0 then Some SourceAll
  else if value =? 1 then Some SourceNormal
  else if value =? 2 then Some SourceAlien
  else None.

Definition GetOptions_new_local : GetOptions :=
  {| go_force_node := true; go_source := GetSource_as_i32 SourceNormal |}.

Definition GetOptions_new_alien : GetOptions :=
  {| go_force_node := true; go_source := GetSource_as_i32 SourceAlien |}.

Definition GetOptions_new_all : GetOptions :=
  {| go_force_node := true; go_source := GetSource_as_i32 SourceAll |}.

Definition DeleteOptions_new_local : DeleteOptions :=
  {| do_force_alien_nodes := []; do_force_node := true; do_is_alien := false |}.

Definition DeleteOptions_new_alien (force_alien_nodes : list string) : DeleteOptions :=
  {| do_force_alien_nodes := force_alien_nodes; do_force_node := true; do_is_alien := true |}.

(** ** Internal options *)

Record BobPutOptions : Type := {
  bpo_force_node : bool;
  bpo_overwrite : bool;
  bpo_remote_nodes : list NodeName;
}.

Record BobGetOptions : Type := {
  bgo_force_node : bool;
  bgo_get_source : GetSource;
}.

Record BobDeleteOptions : Type := {
  bdo_force_node : bool;
  bdo_is_alien : bool;
  bdo_force_alien_nodes : list NodeName;
}.

Definition BobPutOptions_new_local : BobPutOptions :=
  {| bpo_remote_nodes := []; bpo_force_node := true; bpo_overwrite := false |}.

Definition BobPutOptions_new_alien (remote_nodes : list NodeName) : BobPutOptions :=
  {| bpo_remote_nodes := remote_nodes; bpo_force_node := true; bpo_overwrite := false |}.

Definition BobPutOptions_from_grpc (options : option PutOptions) : BobPutOptions :=
  match options with
  | Some vopts =>
      {| bpo_force_node := po_force_node vopts;
         bpo_overwrite := po_overwrite vopts;
         bpo_remote_nodes := po_remote_nodes vopts |}
  | None => {| bpo_force_node := false; bpo_overwrite := false; bpo_remote_nodes := [] |}
  end.

Definition BobPutOptions_to_grpc (o : BobPutOptions) : PutOptions :=
  {| po_remote_nodes := bpo_remote_nodes o;
     po_force_node := bpo_force_node o;
     po_overwrite := bpo_overwrite o |}.

Definition put_to_alien (o : BobPutOptions) : bool :=
  match bpo_remote_nodes o with [] => false | _ => true end.

Definition BobGetOptions_new_local : BobGetOptions :=
  {| bgo_force_node := true; bgo_get_source := SourceNormal |}.

Definition BobGetOptions_new_alien : BobGetOptions :=
  {| bgo_force_node := true; bgo_get_source := SourceAlien |}.

Definition BobGetOptions_new_all : BobGetOptions :=
  {| bgo_force_node := true; bgo_get_source := SourceAll |}.

(** [None]: the conversion of the source aborts. *)
Definition BobGetOptions_from_grpc (options : option GetOptions) : option BobGetOptions :=
  match options with
  | Some vopts =>
      src ← GetSource_from (go_source vopts);
      Some {| bgo_force_node := go_force_node vopts; bgo_get_source := src |}
  | None => Some {| bgo_force_node := false; bgo_get_source := SourceAll |}
  end.

Definition BobGetOptions_to_grpc (o : BobGetOptions) : GetOptions :=
  {| go_force_node := bgo_force_node o; go_source := GetSource_as_i32 (bgo_get_source o) |}.

Definition get_all (o : BobGetOptions) : bool := bool_decide (bgo_get_source o = SourceAll).

Definition get_normal (o : BobGetOptions) : bool :=
  bool_decide (bgo_get_source o = SourceNormal) || bool_decide (bgo_get_source o = SourceAll).

Definition get_alien (o : BobGetOptions) : bool :=
  bool_decide (bgo_get_source o = SourceAlien) || bool_decide (bgo_get_source o = SourceAll).

Definition BobDeleteOptions_new_local : BobDeleteOptions :=
  {| bdo_force_node := true; bdo_is_alien := false; bdo_force_alien_nodes := [] |}.

Definition BobDeleteOptions_new_alien (force_alien_nodes : list NodeName) : BobDeleteOptions :=
  {| bdo_force_node := true; bdo_is_alien := true; bdo_force_alien_nodes := force_alien_nodes |}.

Definition BobDeleteOptions_from_grpc (options : option DeleteOptions) : BobDeleteOptions :=
  match options with
  | Some vopts =>
      {| bdo_force_node := do_force_node vopts;
         bdo_is_alien := do_is_alien vopts;
         bdo_force_alien_nodes := do_force_alien_nodes vopts |}
  | None => {| bdo_force_node := false; bdo_is_alien := false; bdo_force_alien_nodes := [] |}
  end.

Definition BobDeleteOptions_to_grpc (o : BobDeleteOptions) : DeleteOptions :=
  {| do_force_alien_nodes := bdo_force_alien_nodes o;
     do_force_node := bdo_force_node o;
     do_is_alien := bdo_is_alien o |}.

Definition is_force_delete (o : BobDeleteOptions) (node_name : NodeName) : bool :=
  existsb (λ x, bool_decide (x = node_name)) (bdo_force_alien_nodes o).

(** ** Lemmas *)

Lemma GetSource_from_as_i32 s : GetSource_from (GetSource_as_i32 s) = Some s.
Proof. by destruct s. Qed.

Lemma BobPutOptions_wire o : BobPutOptions_from_grpc (Some (BobPutOptions_to_grpc o)) = o.
Proof. by destruct o. Qed.

Lemma BobGetOptions_wire o : BobGetOptions_from_grpc (Some (BobGetOptions_to_grpc o)) = Some o.
Proof. destruct o as [f s]. by rw /BobGetOptions_from_grpc /= GetSource_from_as_i32. Qed.

Lemma BobDeleteOptions_wire o :
  BobDeleteOptions_from_grpc (Some (BobDeleteOptions_to_grpc o)) = o.
Proof. by destruct o. Qed.

Lemma is_force_delete_spec o n : is_force_delete o n = true ↔ n ∈ bdo_force_alien_nodes o.
Proof.
  rw /is_force_delete existsb_exists list_elem_of_In. split.
  - intros (x & Hx & ->%bool_decide_eq_true). done.
  - intros Hx. exists n. by rw bool_decide_eq_true.
Qed.

#[export] Hint Rewrite GetSource_from_as_i32 BobPutOptions_wire BobGetOptions_wire
  BobDeleteOptions_wire : bob_simpl.

(** ** Theorems *)

(** Options survive the wire: what one node encodes for another is what the
    other decodes, for the three kinds of request; the only value on the wire
    that aborts the decoding is a get source outside [0..=2]. *)
Theorem options_wire_roundtrip :
  (∀ o, BobPutOptions_from_grpc (Some (BobPutOptions_to_grpc o)) = o) ∧
  (∀ o, BobGetOptions_from_grpc (Some (BobGetOptions_to_grpc o)) = Some o) ∧
  (∀ o, BobDeleteOptions_from_grpc (Some (BobDeleteOptions_to_grpc o)) = o) ∧
  (∀ vopts, BobGetOptions_from_grpc (Some vopts) = None ↔ ¬ (0 ≤ go_source vopts ≤ 2)).
Proof.
  repeat split; intros; autorewrite with bob_simpl; try done.
  - intros Hs. rw /BobGetOptions_from_grpc /GetSource_from in H.
    by repeat case_match; try done; lia.
  - rw /BobGetOptions_from_grpc /GetSource_from. by repeat case_match; try done; lia.
Qed.
