(* ===== verification/Node.v ===== *)
(** * Node: nodes, disks, virtual disks and the connection of a node

    [bob-common/src/core_types.rs], [bob-common/src/node.rs].  A [Node] is shared
    ([Arc<NodeInner>]): its index, name and address never change and are the record
    [Node]; its connection ([conn], [conn_available]) is the mutable part, [NodeConn],
    kept by the world that uses the node. *)

From Corelib Require Import ssreflect.
From stdpp Require Import base list strings sets gmap relations.
From Stdlib Require Import Strings.Ascii ZArith Lia.
From S2P Require Import Prelude Data Errors Options.

(** ** Core types *)

Abbreviation VDiskId := Z.

Record DiskPath : Type := { dp_name : DiskName; dp_path : string }.

#[global] Instance DiskPath_eq_dec : EqDecision DiskPath.
Proof. solve_decision. Defined.

Record NodeDisk : Type := {
  nd_node_name : NodeName;
  nd_disk_name : DiskName;
  nd_disk_path : string;
}.

(** [PartialEq for NodeDisk]: the path is not compared. *)
Definition NodeDisk_eq (a b : NodeDisk) : bool :=
  bool_decide (nd_node_name a = nd_node_name b) && bool_decide (nd_disk_name a = nd_disk_name b).

Definition DiskPath_from (node : NodeDisk) : DiskPath :=
  {| dp_name := nd_disk_name node; dp_path := nd_disk_path node |}.

Record Node : Type := {
  node_index : Z;  (* u16 *)
  node_name : NodeName;
  node_address : string;
}.

#[global] Instance Node_eq_dec : EqDecision Node.
Proof. solve_decision. Defined.

(** [PartialEq for Node] compares names. *)
Definition Node_eq (a b : Node) : bool := bool_decide (node_name a = node_name b).

Record VDisk : Type := {
  vd_id : VDiskId;
  vd_replicas : list NodeDisk;
  vd_nodes : list Node;
}.

(** The duplicate checks are debug assertions, absent from release builds. *)
Definition VDisk_new (id : VDiskId) (replicas : list NodeDisk) (nodes : list Node) : VDisk :=
  {| vd_id := id; vd_replicas := replicas; vd_nodes := nodes |}.

(** [Output<T>] *)
Record Output (T : Type) : Type := mkOutput { out_node_name : NodeName; out_inner : T }.
Arguments mkOutput {T} _ _.
Arguments out_node_name {T} _.
Arguments out_inner {T} _.

Definition Output_map {T U} (map_fn : T → U) (o : Output T) : Output U :=
  mkOutput (out_node_name o) (map_fn (out_inner o)).

Definition Output_timestamp (o : Output BobData) : Z := timestamp (meta (out_inner o)).

(** [counter_display]: dots become underscores. *)
Fixpoint counter_display (address : string) : string :=
  match address with
  | EmptyString => EmptyString
  | String c s => String (if decide (c = "."%char) then "_"%char else c) (counter_display s)
  end.

(** ** The connection *)

Section conn.
Context {Client : Type}.

Record NodeConn : Type := mkConn { nc_conn : option Client; nc_available : bool }.

Definition conn_init : NodeConn := mkConn None false.

(** [set_connection]/[clear_connection] hold the write lock from the first
    assignment to the end of the call. *)
Definition set_connection (client : Client) (c : NodeConn) : NodeConn := mkConn (Some client) true.
Definition clear_connection (c : NodeConn) : NodeConn := mkConn None false.
Definition get_connection (c : NodeConn) : option Client := nc_conn c.
Definition connection_available (c : NodeConn) : bool := nc_available c.

Context (client_ping : Client → result unit Error) (debug_err : Error → string).

Definition node_ping (conn : Client) (c : NodeConn) : result unit string * NodeConn :=
  match client_ping conn with
  | Err e => (Err (debug_err e), clear_connection c)
  | Ok _ => (Ok tt, c)
  end.

(** [produced] is what the client factory answers. *)
Definition node_check (produced : result Client string) (c : NodeConn) : result unit string * NodeConn :=
  match get_connection c with
  | Some conn => node_ping conn c
  | None =>
      match produced with
      | Err e => (Err e, c)
      | Ok client =>
          match node_ping client c with
          | (Err e, c') => (Err e, c')
          | (Ok _, c') => (Ok tt, set_connection client c')
          end
      end
  end.

(** *** The two fields under concurrency

    Any number of tasks set and clear the connection; each takes the write lock,
    assigns [conn], stores the flag, and releases the lock.  Readers of the flag
    take no lock, so they can see the state between the two stores. *)

Inductive conn_op : Type := OpSet (client : Client) | OpClear.
Inductive lock_state : Type := Free | Locked (op : conn_op) | Assigned (op : conn_op).
Record conn_sys : Type := mkSys { cs_conn : NodeConn; cs_lock : lock_state }.

Definition op_conn (op : conn_op) : option Client :=
  match op with OpSet c => Some c | OpClear => None end.
Definition op_flag (op : conn_op) : bool :=
  match op with OpSet _ => true | OpClear => false end.

Inductive conn_step : conn_sys → conn_sys → Prop :=
| step_lock op c : conn_step (mkSys c Free) (mkSys c (Locked op))
| step_assign op c :
    conn_step (mkSys c (Locked op)) (mkSys (mkConn (op_conn op) (nc_available c)) (Assigned op))
| step_store op c :
    conn_step (mkSys c (Assigned op)) (mkSys (mkConn (nc_conn c) (op_flag op)) Free).

Definition conn_start : conn_sys := mkSys conn_init Free.

Definition conn_ok (c : NodeConn) : Prop := nc_available c = true ↔ is_Some (nc_conn c).

Definition sys_inv (s : conn_sys) : Prop :=
  match cs_lock s with
  | Free | Locked _ => conn_ok (cs_conn s)
  | Assigned op => nc_conn (cs_conn s) = op_conn op
  end.

(** ** Lemmas *)

Lemma conn_ok_init : conn_ok conn_init.
Proof. split; [done|by intros []]. Qed.

Lemma conn_ok_set client c : conn_ok (set_connection client c).
Proof. by split; eauto. Qed.

Lemma conn_ok_clear c : conn_ok (clear_connection c).
Proof. split; [done|by intros []]. Qed.

Lemma sys_inv_step s s' : conn_step s s' → sys_inv s → sys_inv s'.
Proof.
  intros []; rw /sys_inv /conn_ok //=. intros ->. destruct op; simpl; split; eauto.
  - done.
  - by intros [].
Qed.

Lemma sys_inv_reachable s : rtc conn_step conn_start s → sys_inv s.
Proof.
  intros Hr. cut (sys_inv conn_start); [|apply conn_ok_init].
  induction Hr; eauto using sys_inv_step.
Qed.

Lemma node_check_cases produced c r c' :
  conn_ok c → node_check produced c = (r, c') →
  conn_ok c' ∧ (is_ok r = true → nc_available c' = true) ∧
  (is_err r = true → nc_available c' = false).
Proof.
  rw /node_check /node_ping /get_connection. intros Hc.
  destruct (nc_conn c) as [conn|] eqn:Hconn.
  - assert (nc_available c = true) as Hav by (apply Hc; eauto).
    destruct (client_ping conn); intros [= <- <-]; (split; [auto using conn_ok_clear|by split]).
  - assert (nc_available c = false) as Hav.
    { destruct (nc_available c) eqn:E; [|done]. apply Hc in E as [? ?]. congruence. }
    destruct produced as [client|]; [|intros [= <- <-]; split; [done|by split]].
    destruct (client_ping client); intros [= <- <-];
      (split; [auto using conn_ok_clear, conn_ok_set|by split]).
Qed.

(** ** Theorems *)

(** However set and clear calls interleave, whenever no call is in progress the
    lock-free flag [conn_available] says exactly whether a connection is stored. *)
Theorem conn_flag_consistent s :
  rtc conn_step conn_start s → cs_lock s = Free → conn_ok (cs_conn s).
Proof.
  intros Hr%sys_inv_reachable Hl. by rw /sys_inv Hl in Hr.
Qed.

(** A connection check leaves the two fields consistent, leaves the node available
    when it succeeds and unavailable when it fails. *)
Theorem node_check_result produced c r c' :
  conn_ok c → node_check produced c = (r, c') →
  conn_ok c' ∧ nc_available c' = is_ok r.
Proof.
  intros Hc Hch. destruct (node_check_cases _ _ _ _ Hc Hch) as (Hc' & Hok & Herr).
  split; [done|]. rw /is_err in Herr. destruct (is_ok r); auto.
Qed.
End conn.

Arguments NodeConn : clear implicits.

Lemma conn_flag_consistent_witness :
  let s := mkSys (mkConn (Some 7) true) Free in
  rtc conn_step conn_start s ∧ conn_ok (Client := Z) (cs_conn s).
Proof.
  intros s. assert (rtc (conn_step (Client := Z)) conn_start s) as Hr.
  { eapply rtc_l; [apply (step_lock (OpSet 7))|]. eapply rtc_l; [apply step_assign|].
    eapply rtc_l; [apply step_store|]. apply rtc_refl. }
  split; [done|]. by apply conn_flag_consistent.
Defined.

Lemma node_check_result_witness :
  let ping := λ _ : Z, Err (A := unit) timeout in
  let c := mkConn (Some 7) true in
  conn_ok c ∧ nc_available (node_check ping Error_display (Ok 8) c).2 = false.
Proof.
  intros ping c. assert (conn_ok c) as Hc by (apply (conn_ok_set 7 conn_init)).
  split; [done|].
  by destruct (node_check_result ping Error_display (Ok 8) c
    (node_check ping Error_display (Ok 8) c).1 (node_check ping Error_display (Ok 8) c).2 Hc eq_refl).
Defined.
