(* ===== verification/ClusterConfig.v ===== *)
(** * ClusterConfig: the cluster configuration and its validation

    [bob-common/src/configs/validation.rs] and [bob-common/src/configs/cluster.rs].
    The parser of node addresses ([http::Uri]) is a parameter; reading and parsing the
    YAML file is not modelled. *)

From Corelib Require Import ssreflect.
From stdpp Require Import base option list strings gmap sets sorting numbers.
From Stdlib Require Import Strings.Ascii ZArith Lia.
From S2P Require Import Prelude Data Text Errors Options Node.

(** ** [Validator] *)

Class Validatable (A : Type) := validate : A → result unit string.

Definition aggregate {A} `{!Validatable A} (elements : list A) : result unit string :=
  let options :=
    omap (λ r : result unit string, match r with Err e => Some e | Ok _ => None end)
      (validate <$> elements) in
  match options with [] => Ok tt | _ => Err (join newline options) end.

(** The loop keeps the set of the items seen. *)
Fixpoint no_duplicates_go {A} `{Countable A} (uniq : gset A) (l : list A) : result unit A :=
  match l with
  | [] => Ok tt
  | item :: l' => if decide (item ∈ uniq) then Err item else no_duplicates_go ({[item]} ∪ uniq) l'
  end.

Definition validate_no_duplicates {A} `{Countable A} (l : list A) : result unit A :=
  no_duplicates_go ∅ l.

(** ** The configuration *)

#[global] Instance DiskPath_validate : Validatable DiskPath := λ d,
  if decide (dp_name d = EmptyString ∨ dp_path d = EmptyString ∨ dp_name d = "~" ∨ dp_path d = "~")
  then Err "NodeDisk validation failed: node disks must contain not empty fields 'name' and 'path'"
  else Ok tt.

Record Rack : Type := { rack_name : string; rack_nodes : list string }.
Record ClusterNode : Type := { cn_name : string; cn_address : string; cn_disks : list DiskPath }.
Record Replica : Type := { rep_node : string; rep_disk : string }.
Record ConfigVDisk : Type := { cv_id : Z; cv_replicas : list Replica }.
Inductive DistributionFunc : Type := Mod.
Record Cluster : Type := {
  cl_nodes : list ClusterNode;
  cl_vdisks : list ConfigVDisk;
  cl_racks : list Rack;
  cl_distribution_func : DistributionFunc;
}.

#[global] Instance Replica_eq_dec : EqDecision Replica.
Proof. solve_decision. Defined.
#[global] Program Instance Replica_countable : Countable Replica :=
  inj_countable (λ r, (rep_node r, rep_disk r)) (λ p, Some {| rep_node := p.1; rep_disk := p.2 |}) _.
Next Obligation. by intros []. Qed.

#[global] Instance Rack_validate : Validatable Rack := λ r,
  if decide (rack_name r = EmptyString ∨ rack_name r = "~")
  then Err "rack must contain not empty field 'name'"
  else
    result_map_err (λ dup_item,
      "rack '" +:+ rack_name r +:+ "' can't contain identical node names: " +:+ dup_item)
      (validate_no_duplicates (rack_nodes r)).

#[global] Instance Replica_validate : Validatable Replica := λ r,
  if decide (rep_node r = EmptyString ∨ rep_disk r = EmptyString)
  then Err "replica must contain not empty fields 'node' and 'disk'" else Ok tt.

#[global] Instance ConfigVDisk_validate : Validatable ConfigVDisk := λ v,
  match cv_replicas v with
  | [] => Err ("vdisk must have replicas: " +:+ fmt_dec (cv_id v))
  | _ =>
      result_map_err (λ e, "vdisk " +:+ fmt_dec (cv_id v) +:+ " is invalid: " +:+ e)
        (aggregate (cv_replicas v)) ;?
      result_map_err (λ dup_item,
        "vdisk: " +:+ fmt_dec (cv_id v) +:+ " contains duplicate replicas: (" +:+
        rep_node dup_item +:+ ", " +:+ rep_disk dup_item +:+ ")")
        (validate_no_duplicates (cv_replicas v))
  end.

Definition ConfigVDisk_new (id : Z) : ConfigVDisk := {| cv_id := id; cv_replicas := [] |}.
Definition push_replica (replica : Replica) (v : ConfigVDisk) : ConfigVDisk :=
  {| cv_id := cv_id v; cv_replicas := cv_replicas v ++ [replica] |}.

(** What [http::Uri] says of an address: its text and its port, or a parse error. *)
Class UriParser := parse_uri : string → result (string * option Z) string.

Section config.
Context `{UriParser}.

#[global] Instance ClusterNode_validate : Validatable ClusterNode := λ n,
  if decide (cn_name n = EmptyString ∨ cn_name n = "~")
  then Err "node must contain not empty field 'name'"
  else
    match parse_uri (cn_address n) with
    | Ok (_, Some _) =>
        aggregate (cn_disks n) ;?
        result_map_err (λ dup_item,
          "node '" +:+ cn_name n +:+ "' can't use identical names for disks: " +:+ dup_item)
          (validate_no_duplicates (dp_name <$> cn_disks n))
    | Ok (uri, None) => Err (uri +:+ ": node uri missing port")
    | Err e => Err (cn_address n +:+ ": node uri parse failed: " +:+ e)
    end.

(** The loop over the sorted ids; [index as u32] wraps. *)
Fixpoint check_vdisk_ids (index : Z) (vdisk_ids : list Z) : result unit string :=
  match vdisk_ids with
  | [] => Ok tt
  | id :: rest =>
      if id <? index mod 2 ^ 32
      then Err ("config contains duplicates vdisks ids: " +:+ fmt_dec id)
      else if index mod 2 ^ 32 <? id
      then Err ("config contains gap in vdisks ids before vdisk id = " +:+ fmt_dec id)
      else check_vdisk_ids (index + 1) rest
  end.

Fixpoint check_rack_nodes (node_names : gset string) (l : list string) : result unit string :=
  match l with
  | [] => Ok tt
  | name :: rest =>
      if decide (name ∈ node_names) then check_rack_nodes node_names rest
      else Err ("config contains unknown node names in racks: " +:+ name)
  end.

Definition find_node (nodes : list ClusterNode) (name : string) : option ClusterNode :=
  List.find (λ x, bool_decide (cn_name x = name)) nodes.

Fixpoint check_replicas (nodes : list ClusterNode) (id : Z) (l : list Replica) : result unit string :=
  match l with
  | [] => Ok tt
  | replica :: rest =>
      match find_node nodes (rep_node replica) with
      | Some node =>
          if forallb (λ x, negb (bool_decide (dp_name x = rep_disk replica))) (cn_disks node)
          then Err ("cannot find in node: " +:+ fmt_debug_str (rep_node replica) +:+
                    ", disk with name: " +:+ fmt_debug_str (rep_disk replica) +:+
                    " for vdisk: " +:+ fmt_dec id)
          else check_replicas nodes id rest
      | None =>
          Err ("cannot find node: " +:+ fmt_debug_str (rep_node replica) +:+
               " for vdisk: " +:+ fmt_dec id)
      end
  end.

Fixpoint check_vdisks (nodes : list ClusterNode) (l : list ConfigVDisk) : result unit string :=
  match l with
  | [] => Ok tt
  | vdisk :: rest =>
      check_replicas nodes (cv_id vdisk) (cv_replicas vdisk) ;? check_vdisks nodes rest
  end.

#[global] Instance Cluster_validate : Validatable Cluster := λ c,
  if decide (cl_nodes c = []) then Err "bob requires at least one node to start"
  else if decide (cl_vdisks c = []) then Err "bob requires at least one virtual disk to start"
  else
    result_map_err (λ e, "some racks in config are invalid: " +:+ e) (aggregate (cl_racks c)) ;?
    result_map_err (λ e, "some nodes in config are invalid: " +:+ e) (aggregate (cl_nodes c)) ;?
    result_map_err (λ e, "some vdisks in config are invalid: " +:+ e) (aggregate (cl_vdisks c)) ;?
    check_vdisk_ids 0 (merge_sort Z.le (cv_id <$> cl_vdisks c)) ;?
    result_map_err (λ d, "config contains duplicates nodes names: " +:+ d)
      (validate_no_duplicates (cn_name <$> cl_nodes c)) ;?
    result_map_err (λ d, "config contains duplicates nodes addresses: " +:+ d)
      (validate_no_duplicates (cn_address <$> cl_nodes c)) ;?
    result_map_err (λ d, "config contains duplicates racks names: " +:+ d)
      (validate_no_duplicates (rack_name <$> cl_racks c)) ;?
    result_map_err (λ d, "config contains duplicate node names in racks: " +:+ d)
      (validate_no_duplicates (cl_racks c ≫= rack_nodes)) ;?
    check_rack_nodes (list_to_set (cn_name <$> cl_nodes c)) (cl_racks c ≫= rack_nodes) ;?
    check_vdisks (cl_nodes c) (cl_vdisks c).

(** ** [collect_vdisk_replicas] *)

(** One replica resolved against the nodes. *)
Definition collect_replica (nodes : list ClusterNode) (id : Z) (replica : Replica)
    : result NodeDisk string :=
  let disk_name := rep_disk replica in
  node <-? ok_or (List.find (λ n, bool_decide (cn_name n = rep_node replica)) nodes)
             "unknown node name in replica" ;
  disk <-? ok_or (List.find (λ d, bool_decide (dp_name d = disk_name)) (cn_disks node))
             ("can't find disk with name [" +:+ disk_name +:+
              "], check replica section of vdisk [" +:+ fmt_dec id +:+ "]") ;
  Ok {| nd_node_name := cn_name node; nd_disk_name := disk_name; nd_disk_path := dp_path disk |}.

Fixpoint collect_replicas (nodes : list ClusterNode) (id : Z) (l : list Replica)
    (physical_disks : list NodeDisk) : result (list NodeDisk) string :=
  match l with
  | [] => Ok physical_disks
  | replica :: rest =>
      node_disk <-? collect_replica nodes id replica ;
      collect_replicas nodes id rest (physical_disks ++ [node_disk])
  end.

Fixpoint collect_vdisks (nodes : list ClusterNode) (l : list ConfigVDisk)
    (vdisks : gmap Z (list NodeDisk)) : result (gmap Z (list NodeDisk)) string :=
  match l with
  | [] => Ok vdisks
  | vdisk :: rest =>
      physical_disks <-? collect_replicas nodes (cv_id vdisk) (cv_replicas vdisk) [] ;
      collect_vdisks nodes rest (<[cv_id vdisk := physical_disks]> vdisks)
  end.

Definition collect_vdisk_replicas (c : Cluster) : result (gmap Z (list NodeDisk)) string :=
  collect_vdisks (cl_nodes c) (cl_vdisks c) ∅.

(** ** The configuration of test mode *)

Definition testmode_node (path : string) (i : nat) (address : string) : ClusterNode :=
  {| cn_name := "node_" +:+ fmt_dec (Z.of_nat i); cn_address := address;
     cn_disks := [{| dp_name := "disk_0"; dp_path := path |}] |}.

Definition testmode_vdisk (i : nat) : ConfigVDisk :=
  push_replica {| rep_node := "node_" +:+ fmt_dec (Z.of_nat i); rep_disk := "disk_0" |}
    (ConfigVDisk_new (Z.of_nat i mod 2 ^ 32)).

Definition Cluster_get_testmode (path : string) (addresses : list string) : result Cluster string :=
  let config := {|
    cl_nodes := imap (testmode_node path) addresses;
    cl_vdisks := imap (λ i _, testmode_vdisk i) addresses;
    cl_racks := [];
    cl_distribution_func := Mod;
  |} in
  match validate config with
  | Err e => Err ("config is not valid: " +:+ e)
  | Ok _ => Ok config
  end.

(** ** What a valid configuration is *)

Definition name_ok (s : string) : Prop := s ≠ EmptyString ∧ s ≠ "~".
Definition disk_ok (d : DiskPath) : Prop := name_ok (dp_name d) ∧ name_ok (dp_path d).
Definition rack_ok (r : Rack) : Prop := name_ok (rack_name r) ∧ NoDup (rack_nodes r).
Definition replica_ok (r : Replica) : Prop := rep_node r ≠ EmptyString ∧ rep_disk r ≠ EmptyString.
Definition node_ok (n : ClusterNode) : Prop :=
  name_ok (cn_name n) ∧ (∃ uri port, parse_uri (cn_address n) = Ok (uri, Some port)) ∧
  Forall disk_ok (cn_disks n) ∧ NoDup (dp_name <$> cn_disks n).
Definition vdisk_ok (v : ConfigVDisk) : Prop :=
  cv_replicas v ≠ [] ∧ Forall replica_ok (cv_replicas v) ∧ NoDup (cv_replicas v).

(** The replica is a disk of a node. *)
Definition resolves (nodes : list ClusterNode) (r : Replica) : Prop :=
  ∃ node disk, node ∈ nodes ∧ cn_name node = rep_node r ∧
    disk ∈ cn_disks node ∧ dp_name disk = rep_disk r.

Record cluster_ok (c : Cluster) : Prop := {
  ok_nodes : cl_nodes c ≠ [];
  ok_vdisks : cl_vdisks c ≠ [];
  ok_rack_each : Forall rack_ok (cl_racks c);
  ok_node_each : Forall node_ok (cl_nodes c);
  ok_vdisk_each : Forall vdisk_ok (cl_vdisks c);
  ok_ids : cv_id <$> cl_vdisks c ≡ₚ seqZ 0 (Z.of_nat (length (cl_vdisks c)));
  ok_node_names : NoDup (cn_name <$> cl_nodes c);
  ok_addresses : NoDup (cn_address <$> cl_nodes c);
  ok_rack_names : NoDup (rack_name <$> cl_racks c);
  ok_rack_nodes : NoDup (cl_racks c ≫= rack_nodes);
  ok_racked : ∀ name, name ∈ cl_racks c ≫= rack_nodes → name ∈ cn_name <$> cl_nodes c;
  ok_replicas : ∀ v r, v ∈ cl_vdisks c → r ∈ cv_replicas v → resolves (cl_nodes c) r;
}.

(** The type of ids. *)
Definition cluster_typed (c : Cluster) : Prop := Forall u32 (cv_id <$> cl_vdisks c).

(** ** Lemmas: validation *)

Lemma seq_Ok {E} (r k : result unit E) : (r ;? k) = Ok tt ↔ r = Ok tt ∧ k = Ok tt.
Proof. destruct r as [[]|]; simpl; naive_solver. Qed.

Lemma map_err_Ok {A E F} (f : E → F) (r : result A E) a : result_map_err f r = Ok a ↔ r = Ok a.
Proof. destruct r; simpl; naive_solver. Qed.

Lemma aggregate_Ok {A} `{!Validatable A} (l : list A) :
  aggregate l = Ok tt ↔ Forall (λ x, validate x = Ok tt) l.
Proof.
  rw /aggregate. induction l as [|x l IH]; simpl; [done|]. rw list.Forall_cons -IH.
  destruct (validate x) as [[]|e] eqn:Hx; simpl; [naive_solver|]. split; naive_solver.
Qed.

Lemma no_duplicates_go_Ok {A} `{Countable A} (l : list A) (uniq : gset A) :
  no_duplicates_go uniq l = Ok tt ↔ NoDup l ∧ ∀ x, x ∈ l → x ∉ uniq.
Proof.
  revert uniq. induction l as [|x l IH]; intros uniq; simpl.
  - split; [|done]. intros _. split; [constructor|]. by intros x ?%elem_of_nil.
  - rw list.NoDup_cons. destruct (decide (x ∈ uniq)) as [Hin|Hin].
    + split; [done|]. intros [_ Hx]. by destruct (Hx x); [left|].
    + rw IH. setoid_rewrite elem_of_cons. set_solver.
Qed.

Lemma validate_no_duplicates_Ok {A} `{Countable A} (l : list A) :
  validate_no_duplicates l = Ok tt ↔ NoDup l.
Proof. rw /validate_no_duplicates no_duplicates_go_Ok. set_solver. Qed.

Lemma Forall_validate {A} `{!Validatable A} (P : A → Prop) (l : list A) :
  (∀ x, validate x = Ok tt ↔ P x) → aggregate l = Ok tt ↔ Forall P l.
Proof. intros HP. rw aggregate_Ok. by apply Forall_iff. Qed.

#[local] Hint Rewrite @seq_Ok @map_err_Ok @validate_no_duplicates_Ok : validate_db.

Lemma DiskPath_validate_Ok (d : DiskPath) : validate d = Ok tt ↔ disk_ok d.
Proof. rw /validate /DiskPath_validate /disk_ok /name_ok. case_decide; naive_solver. Qed.

Lemma Replica_validate_Ok (r : Replica) : validate r = Ok tt ↔ replica_ok r.
Proof. rw /validate /Replica_validate /replica_ok. case_decide; naive_solver. Qed.

Lemma Rack_validate_Ok (r : Rack) : validate r = Ok tt ↔ rack_ok r.
Proof.
  rw /validate /Rack_validate /rack_ok /name_ok.
  case_decide; [naive_solver|]. autorewrite with validate_db. naive_solver.
Qed.

Lemma ConfigVDisk_validate_Ok (v : ConfigVDisk) : validate v = Ok tt ↔ vdisk_ok v.
Proof.
  rw /validate /ConfigVDisk_validate /vdisk_ok.
  destruct (cv_replicas v) as [|r l] eqn:Hr; [naive_solver|].
  autorewrite with validate_db. rw (Forall_validate replica_ok); [apply Replica_validate_Ok|].
  naive_solver.
Qed.

Lemma ClusterNode_validate_Ok (n : ClusterNode) : validate n = Ok tt ↔ node_ok n.
Proof.
  rw /validate /ClusterNode_validate /node_ok /name_ok.
  case_decide; [naive_solver|].
  destruct (parse_uri (cn_address n)) as [[uri [port|]]|e] eqn:Hu; [|naive_solver..].
  autorewrite with validate_db. rw (Forall_validate disk_ok); [apply DiskPath_validate_Ok|].
  naive_solver.
Qed.

Lemma check_vdisk_ids_Ok index ids :
  check_vdisk_ids index ids = Ok tt ↔
  ∀ k id, ids !! k = Some id → id = (index + Z.of_nat k) mod 2 ^ 32.
Proof.
  revert index. induction ids as [|id ids IH]; intros index; simpl; [done|].
  destruct (Z.ltb_spec id (index mod 2 ^ 32)); [|destruct (Z.ltb_spec (index mod 2 ^ 32) id)].
  - split; [done|]. intros Hk. specialize (Hk 0%nat id eq_refl). rw Z.add_0_r in Hk. lia.
  - split; [done|]. intros Hk. specialize (Hk 0%nat id eq_refl). rw Z.add_0_r in Hk. lia.
  - rw IH. split.
    + intros Hk [|k] id' Hid; simpl in Hid.
      * rw Z.add_0_r. simplify_eq. lia.
      * rw (Hk k id' Hid). f_equal. lia.
    + intros Hk k id' Hid. rw (Hk (S k) id' Hid). f_equal. lia.
Qed.

Lemma sorted_lookup_le (l : list Z) i j a b :
  StronglySorted Z.le l → l !! i = Some a → l !! j = Some b → (i < j)%nat → a ≤ b.
Proof.
  intros Hs. revert i j. induction Hs as [|x l Hl IH Hx]; intros [|i] [|j]; simpl; try done; try lia.
  - intros Ha Hb _. simplify_eq. eapply (proj1 (list.Forall_forall _ _) Hx), list_elem_of_lookup. eauto.
  - intros Ha Hb Hij. eapply (IH i j); eauto; lia.
Qed.

Lemma seqZ_sorted m n : StronglySorted Z.le (seqZ m n).
Proof.
  destruct (Z.le_gt_cases n 0) as [?|Hn]; [rw seqZ_nil; [lia|constructor]|].
  revert m. pattern n. apply Zlt_lower_bound_ind with (z := 0); [|lia].
  clear n Hn. intros n IH Hn m.
  destruct (decide (n = 0)) as [->|?]; [constructor|].
  rw seqZ_cons; first lia. constructor; [apply IH; lia|].
  apply list.Forall_forall. intros x Hx%elem_of_seqZ. lia.
Qed.

(** Sorted ids pass the loop exactly when they are [0], ..., [n - 1]. *)
Lemma check_sorted_ids_Ok ids :
  Forall u32 ids →
  check_vdisk_ids 0 (merge_sort Z.le ids) = Ok tt ↔ ids ≡ₚ seqZ 0 (Z.of_nat (length ids)).
Proof.
  intros Hty. pose proof (merge_sort_Permutation Z.le ids) as Hperm.
  pose proof (StronglySorted_merge_sort Z.le ids) as Hsort. rw check_vdisk_ids_Ok. split.
  - intros Hk. rw -{1}Hperm. rw -(Permutation_length Hperm).
    remember (merge_sort Z.le ids) as l. clear Hperm Heql ids Hty.
    assert (Z.of_nat (length l) ≤ 2 ^ 32) as Hlen.
    { destruct (Z.le_gt_cases (Z.of_nat (length l)) (2 ^ 32)); [done|exfalso].
      assert (∃ n, Z.of_nat n = 2 ^ 32 - 1) as [n Hn] by (eexists; apply Z2Nat.id; lia).
      assert (is_Some (l !! S n)) as [b Hb] by (apply lookup_lt_is_Some; lia).
      assert (is_Some (l !! n)) as [a Ha] by (apply lookup_lt_is_Some; lia).
      pose proof (sorted_lookup_le l _ _ a b Hsort Ha Hb ltac:(lia)) as Hle.
      apply Hk in Ha. apply Hk in Hb. rw Nat2Z.inj_succ Hn in Hb. rw Hn in Ha.
      vm_compute in Ha. vm_compute in Hb. by subst. }
    apply reflexive_eq. apply list_eq. intros i.
    destruct (decide (i < length l)%nat) as [Hi|Hi].
    + apply lookup_lt_is_Some in Hi as [a Ha]. rw Ha.
      pose proof (lookup_lt_Some _ _ _ Ha) as Hi.
      rw lookup_seqZ_lt; first lia. apply Hk in Ha. f_equal. rw Ha Z.mod_small; lia.
    + rw lookup_ge_None_2; first lia. rw lookup_ge_None_2; [rw length_seqZ; lia|done].
  - intros Hp k id Hid.
    assert (merge_sort Z.le ids = seqZ 0 (Z.of_nat (length ids))) as Heq.
    { apply (StronglySorted_unique Z.le); [done|apply seqZ_sorted|by rw Hperm]. }
    rw Heq in Hid. apply lookup_seqZ in Hid as [-> Hlt].
    assert (u32 (0 + Z.of_nat k)) as Hu.
    { eapply (proj1 (list.Forall_forall _ _) Hty). rw Hp. apply elem_of_seqZ. lia. }
    rw /u32 in Hu. by rw Z.mod_small.
Qed.

Lemma check_rack_nodes_Ok names l :
  check_rack_nodes names l = Ok tt ↔ ∀ name, name ∈ l → name ∈ names.
Proof.
  induction l as [|name l IH]; simpl; [set_solver|].
  case_decide; [rw IH; set_solver|]. split; [done|]. set_solver.
Qed.

Lemma find_node_Some nodes name n :
  find_node nodes name = Some n → n ∈ nodes ∧ cn_name n = name.
Proof.
  intros [Hin Hn]%find_some. apply bool_decide_eq_true in Hn. by rw list_elem_of_In.
Qed.

Lemma find_node_None nodes name :
  find_node nodes name = None → ∀ n, n ∈ nodes → cn_name n ≠ name.
Proof.
  intros Hf n Hn. apply list_elem_of_In in Hn. pose proof (find_none _ _ Hf n Hn) as Hb.
  by apply bool_decide_eq_false in Hb.
Qed.

(** With distinct names, the node found is the node. *)
Lemma find_node_unique nodes n :
  NoDup (cn_name <$> nodes) → n ∈ nodes → find_node nodes (cn_name n) = Some n.
Proof.
  intros Hnd Hn. destruct (find_node nodes (cn_name n)) as [m|] eqn:Hf.
  - apply find_node_Some in Hf as [Hm Hname]. f_equal.
    apply list_elem_of_lookup in Hn as [i Hi]. apply list_elem_of_lookup in Hm as [j Hj].
    assert (i = j) as ->; [|congruence].
    eapply NoDup_lookup; [exact Hnd| |]; rw list_lookup_fmap; [by rw Hi|by rw Hj /= Hname].
  - by destruct (find_node_None _ _ Hf n Hn).
Qed.

Lemma check_replicas_Ok nodes id l :
  NoDup (cn_name <$> nodes) →
  check_replicas nodes id l = Ok tt ↔ ∀ r, r ∈ l → resolves nodes r.
Proof.
  intros Hnd. induction l as [|r l IH]; simpl; [set_solver|].
  setoid_rewrite elem_of_cons.
  assert ((∀ r', r' = r ∨ r' ∈ l → resolves nodes r') ↔
          resolves nodes r ∧ ∀ r', r' ∈ l → resolves nodes r') as -> by naive_solver.
  rw -IH. destruct (find_node nodes (rep_node r)) as [n|] eqn:Hf.
  - apply find_node_Some in Hf as [Hn Hname].
    destruct (forallb _ (cn_disks n)) eqn:Hall.
    + split; [done|]. intros [(n' & d & Hn' & Hname' & Hd & Hdn) _]. exfalso.
      assert (n' = n) as ->.
      { apply (inj Some). rw -(find_node_unique nodes n Hnd Hn) -(find_node_unique nodes n' Hnd Hn').
        congruence. }
      rw forallb_forall in Hall. specialize (Hall d ltac:(by apply list_elem_of_In)).
      by rw Hdn bool_decide_true in Hall.
    + split; [|naive_solver]. intros Hok. split; [|done]. exists n.
      assert (∃ d, d ∈ cn_disks n ∧ dp_name d = rep_disk r) as (d & Hd & Hdn); [|eauto 10].
      apply not_true_iff_false in Hall. clear -Hall.
      induction (cn_disks n) as [|d ds IH]; simpl in Hall; [done|].
      destruct (decide (dp_name d = rep_disk r)) as [Heq|Hne]; [exists d; by split; [left|]|].
      rw bool_decide_false //= in Hall. destruct IH as (d' & ? & ?); [done|].
      exists d'. by split; [right|].
  - split; [done|]. intros [(n' & d & Hn' & Hname' & Hd & Hdn) _].
    by destruct (find_node_None _ _ Hf n').
Qed.

Lemma check_vdisks_Ok nodes l :
  NoDup (cn_name <$> nodes) →
  check_vdisks nodes l = Ok tt ↔ ∀ v r, v ∈ l → r ∈ cv_replicas v → resolves nodes r.
Proof.
  intros Hnd. induction l as [|v l IH]; simpl; [set_solver|].
  rw seq_Ok check_replicas_Ok // IH. setoid_rewrite elem_of_cons. naive_solver.
Qed.

Lemma Cluster_validate_Ok c : cluster_typed c → validate c = Ok tt ↔ cluster_ok c.
Proof.
  intros Hty. rw /validate /Cluster_validate.
  destruct (decide (cl_nodes c = [])); [split; [done|by intros []]|].
  destruct (decide (cl_vdisks c = [])); [split; [done|by intros []]|].
  autorewrite with validate_db.
  rw (Forall_validate rack_ok); [apply Rack_validate_Ok|].
  rw (Forall_validate node_ok); [apply ClusterNode_validate_Ok|].
  rw (Forall_validate vdisk_ok); [apply ConfigVDisk_validate_Ok|].
  rw check_sorted_ids_Ok // length_fmap check_rack_nodes_Ok.
  setoid_rewrite elem_of_list_to_set.
  destruct (decide (NoDup (cn_name <$> cl_nodes c))) as [Hnd|Hnd].
  - rw check_vdisks_Ok //. split; [intros; destruct_and!; by split|]. by intros [].
  - split; [tauto|by intros []].
Qed.

(** ** Lemmas: [collect_vdisk_replicas] *)

(** The physical disk of a replica. *)
Definition resolved (nodes : list ClusterNode) (r : Replica) (nd : NodeDisk) : Prop :=
  nd_node_name nd = rep_node r ∧ nd_disk_name nd = rep_disk r ∧
  ∃ node disk, node ∈ nodes ∧ cn_name node = rep_node r ∧
    disk ∈ cn_disks node ∧ disk = DiskPath_from nd.

Lemma find_disk_Some disks name d :
  List.find (λ d, bool_decide (dp_name d = name)) disks = Some d → d ∈ disks ∧ dp_name d = name.
Proof.
  intros [Hin Hn]%find_some. apply bool_decide_eq_true in Hn. by rw list_elem_of_In.
Qed.

Lemma find_disk_ex disks (d : DiskPath) :
  d ∈ disks → is_Some (List.find (λ d', bool_decide (dp_name d' = dp_name d)) disks).
Proof.
  intros Hd. destruct (List.find _ disks) eqn:Hf; [eauto|].
  apply list_elem_of_In in Hd. pose proof (find_none _ _ Hf d Hd) as Hb. simpl in Hb.
  by rw bool_decide_true in Hb.
Qed.

Lemma collect_replica_Ok nodes id r :
  NoDup (cn_name <$> nodes) → resolves nodes r →
  ∃ nd, collect_replica nodes id r = Ok nd ∧ resolved nodes r nd.
Proof.
  intros Hnd (n & d & Hn & Hname & Hd & Hdn). rw /collect_replica.
  change (List.find (λ n, bool_decide (cn_name n = rep_node r)) nodes) with (find_node nodes (rep_node r)).
  rw -Hname find_node_unique //=. rw -Hdn.
  destruct (find_disk_ex _ _ Hd) as [d' Hf]. rw Hf /=. eexists. split; [done|].
  apply find_disk_Some in Hf as [Hd' Hdn']. rw /resolved /DiskPath_from /=.
  split; [done|]. split; [done|]. exists n, d'. repeat split; auto.
  destruct d'; simpl in *; congruence.
Qed.

Lemma collect_replicas_Ok nodes id l acc :
  NoDup (cn_name <$> nodes) → (∀ r, r ∈ l → resolves nodes r) →
  ∃ nds, collect_replicas nodes id l acc = Ok (acc ++ nds) ∧ Forall2 (resolved nodes) l nds.
Proof.
  intros Hnd. revert acc. induction l as [|r l IH]; intros acc Hr; simpl.
  - exists []. by rw app_nil_r.
  - destruct (collect_replica_Ok nodes id r Hnd) as (nd & -> & Hres); [by apply Hr; left|].
    simpl. destruct (IH (acc ++ [nd])) as (nds & -> & Hall); [intros; apply Hr; by right|].
    exists (nd :: nds). rw -app_assoc. auto.
Qed.

Definition collected (nodes : list ClusterNode) (l : list ConfigVDisk) (m : gmap Z (list NodeDisk)) : Prop :=
  ∀ v, v ∈ l → ∃ nds, m !! cv_id v = Some nds ∧ Forall2 (resolved nodes) (cv_replicas v) nds.

Lemma collect_vdisks_Ok nodes l m :
  NoDup (cn_name <$> nodes) → NoDup (cv_id <$> l) →
  (∀ v r, v ∈ l → r ∈ cv_replicas v → resolves nodes r) →
  (∀ v, v ∈ l → m !! cv_id v = None) →
  ∃ m', collect_vdisks nodes l m = Ok m' ∧ collected nodes l m' ∧
    dom m' = dom m ∪ list_to_set (cv_id <$> l) ∧
    ∀ i, i ∉ cv_id <$> l → m' !! i = m !! i.
Proof.
  intros Hnd. revert m. induction l as [|v l IH]; intros m Hids Hr Hm; simpl.
  - exists m. split; [done|]. split; [by intros v ?%elem_of_nil|]. split; [set_solver|done].
  - rw fmap_cons in Hids. apply list.NoDup_cons in Hids as [Hv Hids].
    destruct (collect_replicas_Ok nodes (cv_id v) (cv_replicas v) []) as (nds & -> & Hall);
      [done|intros r; apply Hr; by left|]. simpl.
    destruct (IH (<[cv_id v := nds]> m)) as (m' & -> & Hcol & Hdom & Hout); [done| | |].
    + intros v' r Hv'. apply Hr. by right.
    + intros v' Hv'. rw lookup_insert_ne; [|apply Hm; by right].
      intros Heq. apply Hv. rw Heq. by apply list_elem_of_fmap_2.
    + exists m'. split; [done|]. split; [|split].
      * intros v' [->|Hv']%elem_of_cons; [|by apply Hcol].
        exists nds. rw Hout // lookup_insert_eq //.
      * rw Hdom dom_insert_L. set_solver.
      * intros i Hi. rw Hout; [set_solver|]. rw lookup_insert_ne //. set_solver.
Qed.

Lemma collect_valid c :
  cluster_ok c →
  ∃ m, collect_vdisk_replicas c = Ok m ∧ collected (cl_nodes c) (cl_vdisks c) m ∧
    dom m = list_to_set (seqZ 0 (Z.of_nat (length (cl_vdisks c)))).
Proof.
  intros Hok. destruct (collect_vdisks_Ok (cl_nodes c) (cl_vdisks c) ∅) as (m & Hm & Hcol & Hdom & _).
  - apply (ok_node_names c Hok).
  - rw (ok_ids c Hok). apply NoDup_seqZ.
  - intros v r. apply (ok_replicas c Hok).
  - intros v _. apply lookup_empty.
  - exists m. split; [done|]. split; [done|]. rw Hdom dom_empty_L (left_id_L ∅ _).
    apply set_eq. intros i. by rw !elem_of_list_to_set (ok_ids c Hok).
Qed.

(** ** Theorems *)

(** The validation of the cluster configuration accepts exactly the valid
    configurations: among others, the virtual disks are numbered [0], ..., [n - 1] and
    every replica is a disk of a node. *)
Theorem cluster_validate_spec c : cluster_typed c → validate c = Ok tt ↔ cluster_ok c.
Proof. apply Cluster_validate_Ok. Qed.

(** A configuration that passes validation yields, for every virtual disk and no
    other id, its replicas in order, each with the path its disk has in the
    configuration: the errors of [collect_vdisk_replicas] cannot occur. *)
Theorem collect_vdisk_replicas_valid c :
  cluster_typed c → validate c = Ok tt →
  ∃ m, collect_vdisk_replicas c = Ok m ∧ collected (cl_nodes c) (cl_vdisks c) m ∧
    dom m = list_to_set (seqZ 0 (Z.of_nat (length (cl_vdisks c)))).
Proof. intros Hty Hv%Cluster_validate_Ok; [by apply collect_valid|done]. Qed.
End config.

Definition uri_example : UriParser := λ s, Ok (s, Some 20000).
Definition cluster_example : Cluster := {|
  cl_nodes := imap (testmode_node "/tmp/d1") ["a:20000"; "b:20000"; "c:20000"; "d:20000"];
  cl_vdisks :=
    [ push_replica {| rep_node := "node_2"; rep_disk := "disk_0" |} (testmode_vdisk 1);
      push_replica {| rep_node := "node_1"; rep_disk := "disk_0" |} (testmode_vdisk 0) ];
  cl_racks := [ {| rack_name := "r"; rack_nodes := ["node_1"] |} ];
  cl_distribution_func := Mod;
|}.

Lemma cluster_validate_spec_witness :
  let _ := uri_example in
  cluster_typed cluster_example ∧ cluster_ok cluster_example.
Proof.
  intros u. assert (cluster_typed cluster_example) as Hty.
  { rw /cluster_typed /u32 /=. rw !list.Forall_cons. rw Forall_nil_iff. by vm_compute. }
  split; [done|]. apply (@cluster_validate_spec u cluster_example Hty). by vm_compute.
Defined.

Lemma collect_vdisk_replicas_valid_witness :
  let _ := uri_example in
  cluster_typed cluster_example ∧ validate cluster_example = Ok tt ∧
  ∃ m, collect_vdisk_replicas cluster_example = Ok m.
Proof.
  intros u. assert (cluster_typed cluster_example) as Hty.
  { rw /cluster_typed /u32 /=. rw !list.Forall_cons. rw Forall_nil_iff. by vm_compute. }
  split; [done|]. split; [by vm_compute|].
  destruct (@collect_vdisk_replicas_valid u cluster_example Hty) as (m & Hm & _); [by vm_compute|].
  by exists m.
Defined.

(** A gap in the ids is refused. *)
Example gap_refused :
  @check_vdisk_ids 0 (merge_sort Z.le [2; 0]) =
  Err "config contains gap in vdisks ids before vdisk id = 2".
Proof. reflexivity. Qed.
