(* ===== verification/NodeConfig.v ===== *)
(** * NodeConfig: the configuration of a node

    [bob-common/src/configs/node.rs] and [Cluster::check] of
    [bob-common/src/configs/cluster.rs].  A [NodeConfig] shares two cells with its
    clones ([bind_ref], [disks_ref]); the functions that write them run in
    [M NodeConfig].  The parsers of durations ([humantime]), of socket addresses and the
    conversion to [chrono::Duration] are parameters. *)

From Corelib Require Import ssreflect.
From stdpp Require Import base option list strings gmap sets numbers.
From Stdlib Require Import Strings.Ascii ZArith Lia.
From S2P Require Import Prelude Data Text Errors Options Node ClusterConfig.

(** A duration is a number of nanoseconds. *)
Class ConfigParsers := {
  parse_duration : string → result Z string;
  parse_socket_addr : string → result unit string;
  (** [chrono::Duration::from_std]; [None] is out of range. *)
  chrono_from_std : Z → option Z;
  chrono_display : Z → string;
}.

Definition PLACEHOLDER : string := "~".
Definition LOCAL_ADDRESS : string := "{local_address}".
Definition NODE_NAME : string := "{node_name}".
Definition METRICS_NAME : string := "{metrics_name}".
Definition FIELD_PLACEHOLDER : string := "_".

(** ** String functions *)

Fixpoint is_prefix (p s : string) : bool :=
  match p, s with
  | EmptyString, _ => true
  | String a p', String b s' => bool_decide (a = b) && is_prefix p' s'
  | _, _ => false
  end.

(** [str::replace] of a non-empty pattern; [skip] characters of a match remain. *)
Fixpoint replace_go (from to s : string) (skip : nat) : string :=
  match s with
  | EmptyString => EmptyString
  | String c s' =>
      match skip with
      | S k => replace_go from to s' k
      | O => if is_prefix from s then to +:+ replace_go from to s' (String.length from - 1)
             else String c (replace_go from to s' 0)
      end
  end.
Definition str_replace (from to s : string) : string := replace_go from to s 0.

Fixpoint str_contains (p s : string) : bool :=
  is_prefix p s || match s with EmptyString => false | String _ s' => str_contains p s' end.

Fixpoint ends_with (p s : string) : bool :=
  bool_decide (p = s) || match s with EmptyString => false | String _ s' => ends_with p s' end.

Fixpoint any_char (f : ascii → bool) (s : string) : bool :=
  match s with EmptyString => false | String c s' => f c || any_char f s' end.

Definition nanos_per_sec : Z := 1000000000.
(** [chrono::Duration::days(366)] *)
Definition max_period : Z := 366 * 86400 * nanos_per_sec.

(** ** [BackendSettings] *)

Record BackendSettings : Type := {
  bs_root_dir_name : string;
  bs_alien_root_dir_name : string;
  bs_timestamp_period : string;
  bs_create_pearl_wait_delay : string;
}.

Section config.
Context `{ConfigParsers}.

(** [s.parse::<HumanDuration>().expect(..)] *)
Definition expect_duration (s : string) : option Z :=
  match parse_duration s with Ok d => Some d | Err _ => None end.

Definition bs_period (b : BackendSettings) : option Z := expect_duration (bs_timestamp_period b).
Definition bs_wait_delay (b : BackendSettings) : option Z :=
  expect_duration (bs_create_pearl_wait_delay b).

Definition bs_check_unset (b : BackendSettings) : result unit string :=
  if decide (bs_alien_root_dir_name b = PLACEHOLDER ∨ bs_create_pearl_wait_delay b = PLACEHOLDER
             ∨ bs_root_dir_name b = PLACEHOLDER ∨ bs_timestamp_period b = PLACEHOLDER)
  then Err "some of the fields present, but empty" else Ok tt.

(** [None]: the period does not fit a [chrono::Duration]. *)
Definition BackendSettings_validate (b : BackendSettings) : option (result unit string) :=
  match bs_check_unset b with
  | Err e => Some (Err e)
  | Ok _ =>
      if decide (bs_root_dir_name b = EmptyString)
      then Some (Err "field 'root_dir_name' for backend.settings config is empty")
      else if decide (bs_alien_root_dir_name b = EmptyString)
      then Some (Err "field 'alien_root_dir_name' for 'backend.settings config' is empty")
      else
        match parse_duration (bs_timestamp_period b) with
        | Err e => Some (Err
            ("field 'timestamp_period' for 'backend settings config' is not valid: " +:+ e))
        | Ok _ =>
            std ← bs_period b;
            period ← chrono_from_std std;
            if max_period <? period
            then Some (Err ("field 'timestamp_period' for 'backend.settings config' is greater than 1 year ("
                            +:+ chrono_display period +:+ ")"))
            else
              match parse_duration (bs_create_pearl_wait_delay b) with
              | Err _ => Some (Err ("field 'create_pearl_wait_delay' for backend.settings config is not valid ("
                                    +:+ bs_create_pearl_wait_delay b +:+ ")"))
              | Ok _ => Some (Ok tt)
              end
        end
  end.

(** ** [MetricsConfig] *)

Record MetricsConfig : Type := {
  mc_name : option string;
  mc_prometheus_addr : string;
  mc_graphite_enabled : bool;
  mc_graphite : option string;
  mc_prometheus_enabled : bool;
  mc_prefix : option string;
}.

Definition mc_default_prometheus_addr : string := "0.0.0.0:9000".

Definition MetricsConfig_default : MetricsConfig := {|
  mc_name := Some "bob"; mc_prometheus_addr := EmptyString; mc_graphite_enabled := false;
  mc_graphite := None; mc_prometheus_enabled := false; mc_prefix := None;
|}.

Definition mc_check_unset (m : MetricsConfig) : result unit string :=
  if mc_graphite_enabled m && bool_decide (mc_graphite m = None)
  then Err "graphite is enabled but no graphite address has been provided" else Ok tt.

Definition mc_check_optional_fields (m : MetricsConfig) : result unit string :=
  if existsb (λ field, from_option (λ s, bool_decide (s = EmptyString)) false field)
       [mc_name m; mc_prefix m]
  then Err "'name' or 'prefix' field for 'metrics config' is empty" else Ok tt.

(** [None]: the [unwrap]. *)
Definition mc_check_graphite_addr (m : MetricsConfig) : option (result unit string) :=
  if negb (mc_graphite_enabled m) then Some (Ok tt)
  else
    addr ← mc_graphite m;
    match parse_socket_addr addr with
    | Err e => Some (Err ("field 'graphite': " +:+ e +:+ " for 'metrics config' is invalid"))
    | Ok _ => Some (Ok tt)
    end.

Definition valid_prefix_char (c : ascii) : bool :=
  let v := byte_of_char c in
  ((97 <=? v) && (v <=? 122)) || ((65 <=? v) && (v <=? 90)) || (v =? 46) || (v =? 95).

Definition check_graphite_prefix (prefix : string) : result unit string :=
  if is_prefix "." prefix || ends_with "." prefix || str_contains ".." prefix
     || any_char (λ c, negb (valid_prefix_char c)) prefix
  then Err "Graphite 'prefix' is invalid" else Ok tt.

Definition mc_check_prefix (m : MetricsConfig) : result unit string :=
  match mc_prefix m with
  | None => Ok tt
  | Some pref =>
      let prefix := foldl (λ acc field, str_replace field FIELD_PLACEHOLDER acc)
                      pref [LOCAL_ADDRESS; NODE_NAME] in
      let prefix := if bool_decide (is_Some (mc_name m))
                    then str_replace METRICS_NAME FIELD_PLACEHOLDER prefix else prefix in
      check_graphite_prefix prefix
  end.

Definition MetricsConfig_validate (m : MetricsConfig) : option (result unit string) :=
  match mc_check_unset m with
  | Err e => Some (Err e)
  | Ok _ =>
      match mc_check_optional_fields m with
      | Err e => Some (Err e)
      | Ok _ =>
          r ← mc_check_graphite_addr m;
          Some (r ;? mc_check_prefix m)
      end
  end.

(** ** [Pearl] *)

Record PearlConfig : Type := {
  pl_max_blob_size : Z;
  pl_max_data_in_blob : Z;
  pl_blob_file_name_prefix : string;
  pl_fail_retry_timeout : string;
  pl_fail_retry_count : Z;
  pl_alien_disk : option string;
  pl_allow_duplicates : bool;
  pl_settings : BackendSettings;
  pl_hash_chars_count : Z;
  pl_enable_aio : bool;
  pl_disks_events_logfile : string;
  pl_bloom_filter_max_buf_bits_count : option Z;
  pl_validate_data_checksum : bool;
  pl_skip_holders : option string;
  pl_max_dirty_bytes_before_sync : Z;
}.

Definition default_fail_retry_timeout : string := "100ms".
Definition default_fail_retry_count : Z := 3.
Definition default_allow_duplicates : bool := true.
Definition default_max_dirty_bytes_before_sync : Z := 10 * 2 ^ 20.
Definition default_blob_file_name_prefix : string := "bob".
Definition default_max_data_in_blob : Z := 1000000.
Definition default_max_blob_size : Z := 1000000000.
Definition default_hash_chars_count : Z := 10.
Definition default_enable_aio : bool := false.
Definition default_validate_data_checksum : bool := false.

Definition fail_retry_timeout (p : PearlConfig) : option Z := expect_duration (pl_fail_retry_timeout p).

(** [skip_holders_by_timestamp_step_when_reading_sec]; the outer [None] aborts. *)
Definition skip_holders_sec (p : PearlConfig) : option (option Z) :=
  match pl_skip_holders p with
  | None => Some None
  | Some dur => d ← expect_duration dur; Some (Some (d / nanos_per_sec))
  end.

Definition pl_check_unset (p : PearlConfig) : result unit string :=
  if decide (pl_blob_file_name_prefix p = PLACEHOLDER)
  then Err "'blob_file_name_prefix' present, but empty"
  else if decide (pl_fail_retry_timeout p = PLACEHOLDER)
  then Err "'fail_retry_timeout' present, but empty"
  else Ok tt.

Definition Pearl_validate (p : PearlConfig) : option (result unit string) :=
  match pl_check_unset p with
  | Err e => Some (Err e)
  | Ok _ =>
      let bad_skip :=
        match pl_skip_holders p with
        | Some field => if is_err (parse_duration field) then Some field else None
        | None => None
        end in
      match bad_skip with
      | Some field => Some (Err ("field 'skip_holders_by_timestamp_step_when_reading' for 'config' is not valid ("
                                 +:+ field +:+ ")"))
      | None =>
          if is_err (parse_duration (pl_fail_retry_timeout p))
          then Some (Err ("field 'fail_retry_timeout' for 'config' is not a valid duration ('"
                          +:+ pl_fail_retry_timeout p +:+ "')"))
          else BackendSettings_validate (pl_settings p)
      end
  end.

(** [try_multiple_times(_async)]: [left] attempts remain.  The delay between the
    attempts is not observed. *)
Fixpoint try_loop {W T E} (f : M W (result T E)) (left : nat) : M W (result T E) :=
  match left with
  | O => panic
  | S left' =>
      r ← f;
      match r with
      | Ok value => mret (Ok value)
      | Err e => if decide (left' = 0%nat) then mret (Err e) else try_loop f left'
      end
  end.

Definition try_multiple_times {W T E} (p : PearlConfig) (f : M W (result T E)) : M W (result T E) :=
  try_loop f (Z.to_nat (pl_fail_retry_count p)).

Definition Pearl_get_testmode (disks_events_logfile : string) (alien_disk : DiskName) : PearlConfig := {|
  pl_max_blob_size := 1000000000;
  pl_max_data_in_blob := 100000;
  pl_blob_file_name_prefix := default_blob_file_name_prefix;
  pl_fail_retry_timeout := default_fail_retry_timeout;
  pl_fail_retry_count := default_fail_retry_count;
  pl_alien_disk := Some alien_disk;
  pl_allow_duplicates := default_allow_duplicates;
  pl_settings := {|
    bs_root_dir_name := "bob";
    bs_alien_root_dir_name := "alien";
    bs_timestamp_period := "1d";
    bs_create_pearl_wait_delay := "100ms";
  |};
  pl_hash_chars_count := default_hash_chars_count;
  pl_enable_aio := default_enable_aio;
  pl_disks_events_logfile := disks_events_logfile;
  pl_bloom_filter_max_buf_bits_count := Some 1000000;
  pl_validate_data_checksum := default_validate_data_checksum;
  pl_skip_holders := None;
  pl_max_dirty_bytes_before_sync := default_max_dirty_bytes_before_sync;
|}.

(** ** [TLSConfig] *)

Record TLSConfig : Type := {
  tls_ca_cert_path : string;
  tls_domain_name : string;
  tls_rest : option bool;
  tls_grpc : option bool;
  tls_cert_path : option string;
  tls_pkey_path : option string;
}.

Definition grpc_config (t : TLSConfig) : option TLSConfig :=
  grpc ← tls_grpc t; if (grpc : bool) then Some t else None.
Definition rest_config (t : TLSConfig) : option TLSConfig :=
  rest ← tls_rest t; if (rest : bool) then Some t else None.

(** ** [Node] *)

Inductive BackendType : Type := BackendInMemory | BackendStub | BackendPearl.
Inductive AuthenticationType : Type := AuthNone | AuthBasic | AuthToken.
Inductive IpAddr : Type := IpV4 (bits : Z) | IpV6 (bits : Z).

#[global] Instance BackendType_eq_dec : EqDecision BackendType.
Proof. solve_decision. Defined.

Record NodeConfig : Type := mkNodeConfig {
  cfg_log_config : string;
  cfg_users_config : string;
  cfg_name : string;
  cfg_quorum : Z;
  cfg_operation_timeout : string;
  cfg_check_interval : string;
  cfg_count_interval : string;
  cfg_cluster_policy : string;
  cfg_backend_type : string;
  cfg_pearl : option PearlConfig;
  cfg_metrics : option MetricsConfig;
  cfg_tls : option TLSConfig;
  cfg_bind_ref : string;
  cfg_disks_ref : list DiskPath;
  cfg_cleanup_interval : string;
  cfg_open_blobs_soft_limit : option Z;
  cfg_open_blobs_hard_limit : option Z;
  cfg_bloom_filter_memory_limit : option Z;
  cfg_index_memory_limit : option Z;
  cfg_index_memory_limit_soft : option Z;
  cfg_init_par_degree : Z;
  cfg_disk_access_par_degree : Z;
  cfg_http_api_port : Z;
  cfg_http_api_address : IpAddr;
  cfg_bind_to_ip_address : option (IpAddr * Z);
  cfg_holder_group_size : Z;
  cfg_authentication_type : AuthenticationType;
  cfg_hostname_resolve_period_ms : Z;
}.

(** The two writes through the shared cells. *)
Definition set_refs (bind : string) (disks : list DiskPath) (c : NodeConfig) : NodeConfig :=
  mkNodeConfig (cfg_log_config c) (cfg_users_config c) (cfg_name c) (cfg_quorum c)
    (cfg_operation_timeout c) (cfg_check_interval c) (cfg_count_interval c) (cfg_cluster_policy c)
    (cfg_backend_type c) (cfg_pearl c) (cfg_metrics c) (cfg_tls c) bind disks
    (cfg_cleanup_interval c) (cfg_open_blobs_soft_limit c) (cfg_open_blobs_hard_limit c)
    (cfg_bloom_filter_memory_limit c) (cfg_index_memory_limit c) (cfg_index_memory_limit_soft c)
    (cfg_init_par_degree c) (cfg_disk_access_par_degree c) (cfg_http_api_port c)
    (cfg_http_api_address c) (cfg_bind_to_ip_address c) (cfg_holder_group_size c)
    (cfg_authentication_type c) (cfg_hostname_resolve_period_ms c).

Definition cfg_get_pearl (c : NodeConfig) : option PearlConfig := cfg_pearl c.
Definition operation_timeout (c : NodeConfig) : option Z := expect_duration (cfg_operation_timeout c).
Definition check_interval (c : NodeConfig) : option Z := expect_duration (cfg_check_interval c).
Definition count_interval (c : NodeConfig) : option Z := expect_duration (cfg_count_interval c).
Definition cleanup_interval (c : NodeConfig) : option Z := expect_duration (cfg_cleanup_interval c).

Definition default_count_interval : string := "10000ms".
Definition default_authentication_type : AuthenticationType := AuthNone.
Definition default_hostname_resolve_period_ms : Z := 5000.
Definition default_init_par_degree : Z := 1.
Definition default_disk_access_par_degree : Z := 1.
Definition default_http_api_port : Z := 8000.
Definition default_http_api_address : IpAddr := IpV4 0.
Definition default_holder_group_size : Z := 8.

Definition backend_result (c : NodeConfig) : result BackendType string :=
  if decide (cfg_backend_type c = "in_memory") then Ok BackendInMemory
  else if decide (cfg_backend_type c = "stub") then Ok BackendStub
  else if decide (cfg_backend_type c = "pearl") then Ok BackendPearl
  else Err ("unknown backend type: " +:+ cfg_backend_type c).

(** [backend_result().expect(..)] *)
Definition backend_type (c : NodeConfig) : option BackendType :=
  match backend_result c with Ok t => Some t | Err _ => None end.

Definition open_blobs_soft (c : NodeConfig) : option Z :=
  i ← cfg_open_blobs_soft_limit c; if i =? 0 then None else Some i.
Definition hard_open_blobs (c : NodeConfig) : option Z :=
  i ← cfg_open_blobs_hard_limit c; if i =? 0 then None else Some i.

Definition check_unset_single (val field_name : string) : result unit string :=
  if decide (val = PLACEHOLDER)
  then Err ("'" +:+ field_name +:+ "' present in node config, but empty") else Ok tt.

Definition cfg_check_unset (c : NodeConfig) : result unit string :=
  check_unset_single (cfg_backend_type c) "backend_type" ;?
  check_unset_single (cfg_check_interval c) "check_interval" ;?
  check_unset_single (cfg_cluster_policy c) "cluster_policy" ;?
  check_unset_single (cfg_log_config c) "log_config" ;?
  check_unset_single (cfg_users_config c) "users_config" ;?
  check_unset_single (cfg_name c) "name" ;?
  check_unset_single (cfg_operation_timeout c) "operation_timeout" ;?
  check_unset_single (cfg_backend_type c) "backend_type" ;?
  Ok tt.

Definition cfg_check_pearl (c : NodeConfig) : option (result unit string) :=
  if is_ok (backend_result c) then
    t ← backend_type c;
    if decide (t = BackendPearl) then
      match cfg_pearl c with
      | Some pearl => Pearl_validate pearl
      | None => Some (Err "selected pearl backend, but pearl config not set")
      end
    else Some (Ok tt)
  else Some (Ok tt).

Definition cfg_check_fields (c : NodeConfig) : option (result unit string) :=
  if decide (cfg_name c = EmptyString) then Some (Err "field 'name' for 'config' is empty")
  else if decide (cfg_cluster_policy c = EmptyString)
  then Some (Err "field 'cluster_policy' for 'config' is empty")
  else if decide (cfg_users_config c = EmptyString)
  then Some (Err "field 'users_config' for 'config' is empty")
  else if decide (cfg_log_config c = EmptyString)
  then Some (Err "field 'log_config' for 'config' is empty")
  else if cfg_quorum c =? 0 then Some (Err "field 'quorum' for 'config' must be greater than 0")
  else match cfg_metrics c with Some metrics => MetricsConfig_validate metrics | None => Some (Ok tt) end.

(** [None] is an abort. *)
Definition NodeConfig_validate (c : NodeConfig) : option (result unit string) :=
  match cfg_check_unset c with
  | Err e => Some (Err e)
  | Ok _ =>
      r ← cfg_check_pearl c;
      match r with
      | Err e => Some (Err e)
      | Ok _ =>
          match parse_duration (cfg_operation_timeout c) with
          | Err e => Some (Err ("field 'timeout' for 'config' is not valid: " +:+ e))
          | Ok _ =>
              match parse_duration (cfg_check_interval c) with
              | Err e => Some (Err ("field 'check_interval' for 'config' is not valid: " +:+ e))
              | Ok _ => cfg_check_fields c
              end
          end
      end
  end.

Definition NodeConfig_prepare (node : ClusterNode) : M NodeConfig (result unit string) :=
  _ ← modify (λ c, set_refs (cn_address node) (cfg_disks_ref c) c);
  _ ← modify (λ c, set_refs (cfg_bind_ref c) (cn_disks node) c);
  c ← gets id;
  match backend_result c with
  | Err e => mret (Err e)
  | Ok _ =>
      t ← expect (backend_type c);
      if decide (t = BackendPearl) then
        match cfg_pearl c with
        | Some pearl => _ ← expect (fail_retry_timeout pearl); mret (Ok tt)
        | None => mret (Ok tt)
        end
      else mret (Ok tt)
  end.

(** The alien disk of a Pearl backend must be a disk of the node. *)
Definition check_alien_disk (c : NodeConfig) (finded : ClusterNode) : option (result unit string) :=
  if is_ok (backend_result c) then
    t ← backend_type c;
    if decide (t = BackendPearl) then
      pearl ← cfg_get_pearl c;
      match pl_alien_disk pearl with
      | None => Some (Ok tt)
      | Some alien_disk =>
          match List.find (λ d, bool_decide (alien_disk = dp_name d)) (cn_disks finded) with
          | Some _ => Some (Ok tt)
          | None => Some (Err ("cannot find disk " +:+ fmt_debug_str alien_disk +:+ " for node "
                               +:+ fmt_debug_str (cfg_name c) +:+ " in cluster config"))
          end
      end
    else Some (Ok tt)
  else Some (Ok tt).

Definition Cluster_check (cluster : Cluster) : M NodeConfig (result unit string) :=
  c ← gets id;
  match List.find (λ n, bool_decide (cn_name n = cfg_name c)) (cl_nodes cluster) with
  | None => mret (Err ("cannot find node: " +:+ cfg_name c +:+ " in cluster config"))
  | Some finded =>
      match List.find (λ v, Z.of_nat (length (cv_replicas v)) <? cfg_quorum c) (cl_vdisks cluster) with
      | Some bad_vdisk =>
          mret (Err ("Quorum is more than amount of replicas for VDisk with id "
                     +:+ fmt_dec (cv_id bad_vdisk)))
      | None =>
          r ← expect (check_alien_disk c finded);
          match r with
          | Err e => mret (Err e)
          | Ok _ => NodeConfig_prepare finded
          end
      end
  end.

Definition NodeConfig_get_testmode (disks_events_logfile node_name : string) (disk_name : DiskName)
    (rest_port : option Z) : NodeConfig := {|
  cfg_log_config := "dummy";
  cfg_users_config := "dummy";
  cfg_name := node_name;
  cfg_quorum := 1;
  cfg_operation_timeout := "60sec";
  cfg_check_interval := "5000ms";
  cfg_count_interval := default_count_interval;
  cfg_cluster_policy := "quorum";
  cfg_backend_type := "pearl";
  cfg_pearl := Some (Pearl_get_testmode disks_events_logfile disk_name);
  cfg_metrics := Some MetricsConfig_default;
  cfg_tls := None;
  cfg_bind_ref := EmptyString;
  cfg_disks_ref := [];
  cfg_cleanup_interval := "1h";
  cfg_open_blobs_soft_limit := None;
  cfg_open_blobs_hard_limit := None;
  cfg_bloom_filter_memory_limit := Some (8 * 2 ^ 30);
  cfg_index_memory_limit := Some (8 * 2 ^ 30);
  cfg_index_memory_limit_soft := None;
  cfg_init_par_degree := default_init_par_degree;
  cfg_disk_access_par_degree := default_disk_access_par_degree;
  cfg_http_api_port := default default_http_api_port rest_port;
  cfg_http_api_address := default_http_api_address;
  cfg_bind_to_ip_address := None;
  cfg_holder_group_size := default_holder_group_size;
  cfg_authentication_type := default_authentication_type;
  cfg_hostname_resolve_period_ms := default_hostname_resolve_period_ms;
|}.

(** ** Lemmas *)

(** [k] runs of [f], with their results. *)
Fixpoint runs {W T E} (f : M W (result T E)) (k : nat) : M W (list (result T E)) :=
  match k with
  | O => mret []
  | S k' => r ← f; rs ← runs f k'; mret (r :: rs)
  end.

Lemma runs_S {W T E} (f : M W (result T E)) k w r w1 rs w2 :
  f w = Some (r, w1) → runs f k w1 = Some (rs, w2) → runs f (S k) w = Some (r :: rs, w2).
Proof. intros Hf Hr. simpl. by rw /mbind /M_bind Hf Hr. Qed.

Lemma try_loop_runs {W T E} (f : M W (result T E)) left w :
  (∀ w, is_Some (f w)) → left ≠ 0%nat →
  ∃ k errs r w', (1 ≤ k ≤ left)%nat ∧ runs f k w = Some (errs ++ [r], w') ∧
    try_loop f left w = Some (r, w') ∧ Forall (λ e, is_err e = true) errs ∧
    (is_err r = true → k = left).
Proof.
  intros Htot. revert w. induction left as [|left IH]; intros w Hl; [done|].
  destruct (Htot w) as [[[v|e] w1] Hf].
  - exists 1%nat, [], (Ok v), w1. rw /= /mbind /M_bind Hf. split_and!; auto with lia; done.
  - destruct (decide (left = 0%nat)) as [->|Hne].
    + exists 1%nat, [], (Err e), w1. rw /= /mbind /M_bind Hf. split_and!; auto with lia.
    + destruct (IH w1 Hne) as (k & errs & r & w' & Hk & Hruns & Hloop & Herrs & Hlast).
      exists (S k), (Err e :: errs), r, w'. split; [lia|].
      split; [by apply (runs_S f k w (Err e) w1)|]. split.
      * rw /= /mbind /M_bind Hf decide_False //.
      * split; [by constructor|]. intros Hr. by rw Hlast.
Qed.

Lemma expect_duration_ok s : is_ok (parse_duration s) = true → is_Some (expect_duration s).
Proof. rw /expect_duration. destruct (parse_duration s); eauto. done. Qed.

Definition settings_usable (b : BackendSettings) : Prop :=
  (∃ t p, bs_period b = Some t ∧ chrono_from_std t = Some p ∧ p ≤ max_period) ∧
  is_Some (bs_wait_delay b) ∧ bs_root_dir_name b ≠ EmptyString ∧ bs_alien_root_dir_name b ≠ EmptyString.

Definition pearl_usable (p : PearlConfig) : Prop :=
  is_Some (fail_retry_timeout p) ∧ is_Some (skip_holders_sec p) ∧ settings_usable (pl_settings p).

Lemma BackendSettings_validate_usable b :
  BackendSettings_validate b = Some (Ok tt) → settings_usable b.
Proof.
  rw /BackendSettings_validate. destruct (bs_check_unset b); [|done].
  case_decide; [done|]. case_decide; [done|].
  destruct (parse_duration (bs_timestamp_period b)) as [d|e] eqn:Hd; [|done].
  rw /settings_usable /bs_wait_delay. destruct (bs_period b) as [t|] eqn:Ht; [|done]. simpl.
  destruct (chrono_from_std t) as [p|] eqn:Hp; [|done]. simpl.
  destruct (Z.ltb_spec max_period p); [done|].
  destruct (parse_duration (bs_create_pearl_wait_delay b)) eqn:Hw; [|done]. intros _.
  split; [exists t, p; auto|]. split; [|done]. apply expect_duration_ok. by rw Hw.
Qed.

Lemma Pearl_validate_usable p : Pearl_validate p = Some (Ok tt) → pearl_usable p.
Proof.
  rw /Pearl_validate /pearl_usable /fail_retry_timeout /skip_holders_sec.
  destruct (pl_check_unset p); [|done]. rw /is_err.
  destruct (pl_skip_holders p) as [field|].
  - destruct (is_ok (parse_duration field)) eqn:Hs; simpl; [|done].
    destruct (is_ok (parse_duration (pl_fail_retry_timeout p))) eqn:Ht; simpl; [|done].
    intros Hb%BackendSettings_validate_usable.
    destruct (expect_duration_ok _ Hs) as [d ->]. eauto using expect_duration_ok.
  - destruct (is_ok (parse_duration (pl_fail_retry_timeout p))) eqn:Ht; simpl; [|done].
    intros Hb%BackendSettings_validate_usable. eauto using expect_duration_ok.
Qed.

(** What the accessors of a validated configuration rely on. *)
Definition config_usable (c : NodeConfig) : Prop :=
  cfg_quorum c ≠ 0 ∧ is_Some (operation_timeout c) ∧ is_Some (check_interval c) ∧
  (backend_type c = Some BackendPearl → ∃ p, cfg_get_pearl c = Some p ∧ pearl_usable p).

Lemma cfg_check_pearl_usable c :
  cfg_check_pearl c = Some (Ok tt) → backend_type c = Some BackendPearl →
  ∃ p, cfg_get_pearl c = Some p ∧ pearl_usable p.
Proof.
  rw /cfg_check_pearl /backend_type /cfg_get_pearl.
  destruct (backend_result c) as [t|]; [|done]. simpl. intros Hp [= ->]. simpl in Hp.
  destruct (cfg_pearl c); [|done]. eauto using Pearl_validate_usable.
Qed.

Lemma NodeConfig_validate_usable c : NodeConfig_validate c = Some (Ok tt) → config_usable c.
Proof.
  rw /NodeConfig_validate /config_usable. destruct (cfg_check_unset c); [|done].
  destruct (cfg_check_pearl c) as [[[]|]|] eqn:Hp; [|done..]. simpl.
  destruct (is_ok (parse_duration (cfg_operation_timeout c))) eqn:Ho;
    destruct (parse_duration (cfg_operation_timeout c)) eqn:Ho'; try done.
  destruct (is_ok (parse_duration (cfg_check_interval c))) eqn:Hc;
    destruct (parse_duration (cfg_check_interval c)) eqn:Hc'; try done.
  rw /cfg_check_fields. repeat (case_decide; [done|]).
  destruct (Z.eqb_spec (cfg_quorum c) 0); [done|]. intros _. split_and!; [done| | |].
  - apply expect_duration_ok. by rw Ho'.
  - apply expect_duration_ok. by rw Hc'.
  - by apply cfg_check_pearl_usable.
Qed.

(** What a successful check establishes. *)
Definition checked (cluster : Cluster) (c c' : NodeConfig) : Prop :=
  ∃ node, node ∈ cl_nodes cluster ∧ cn_name node = cfg_name c ∧
    c' = set_refs (cn_address node) (cn_disks node) c ∧ is_Some (backend_type c) ∧
    (∀ v, v ∈ cl_vdisks cluster → cfg_quorum c ≤ Z.of_nat (length (cv_replicas v))) ∧
    (∀ p alien, backend_type c = Some BackendPearl → cfg_get_pearl c = Some p →
       pl_alien_disk p = Some alien → alien ∈ dp_name <$> cn_disks node).

Lemma check_alien_disk_total c node :
  config_usable c →
  ∃ r, check_alien_disk c node = Some r ∧
    (r = Ok tt → ∀ p alien, backend_type c = Some BackendPearl → cfg_get_pearl c = Some p →
       pl_alien_disk p = Some alien → alien ∈ dp_name <$> cn_disks node).
Proof.
  intros (_ & _ & _ & Hp). rw /check_alien_disk.
  destruct (backend_type c) as [t|] eqn:Ht; rw /backend_type in Ht;
    destruct (backend_result c) eqn:Hb; simplify_eq; simpl; [|eexists; by split].
  case_decide as Hd; [subst|eexists; split; [done|naive_solver]].
  destruct Hp as (p & Hpl & _); [done|]. rw Hpl /=.
  destruct (pl_alien_disk p) as [alien|] eqn:Ha; [|eexists; split; [done|naive_solver]].
  destruct (List.find _ (cn_disks node)) as [d|] eqn:Hf; eexists; (split; [done|]); [|done].
  intros _ p' alien' _ [= <-] Ha'. simplify_eq. apply find_some in Hf as [Hin Hn].
  apply bool_decide_eq_true in Hn as ->. apply list_elem_of_fmap_2. by apply list_elem_of_In.
Qed.

Lemma NodeConfig_prepare_total c node :
  config_usable c →
  ∃ r, NodeConfig_prepare node c = Some (r, set_refs (cn_address node) (cn_disks node) c) ∧
    (r = Ok tt → is_Some (backend_type c)).
Proof.
  intros (_ & _ & _ & Hp).
  rw /NodeConfig_prepare /mbind /M_bind /modify /gets /= /backend_type.
  change (backend_result (set_refs _ _ _)) with (backend_result c).
  rw /backend_type in Hp.
  destruct (backend_result c) as [t|e] eqn:Hb; [|eexists; by split]. simpl.
  case_decide as Hd; [subst|eexists; split; [done|eauto]].
  destruct Hp as (p & Hpl & [d Hft] & _); [done|]. rw /cfg_get_pearl in Hpl. rw Hpl Hft. eauto.
Qed.

Lemma Cluster_check_total cluster c :
  config_usable c →
  ∃ r c', Cluster_check cluster c = Some (r, c') ∧ (r = Ok tt → checked cluster c c').
Proof.
  intros Hus. rw /Cluster_check /mbind /M_bind /gets /=.
  destruct (List.find _ (cl_nodes cluster)) as [node|] eqn:Hf; [|by do 2 eexists].
  destruct (List.find _ (cl_vdisks cluster)) as [v|] eqn:Hv; [by do 2 eexists|].
  destruct (check_alien_disk_total c node Hus) as (ra & -> & Ha). simpl.
  destruct ra as [[]|e]; [|by do 2 eexists].
  destruct (NodeConfig_prepare_total c node Hus) as (r & -> & Hr).
  do 2 eexists. split; [done|]. intros ->. apply find_some in Hf as [Hin Hn].
  apply bool_decide_eq_true in Hn. exists node. rw list_elem_of_In. split_and!; auto; [|by apply Ha].
  intros v Hvin. apply list_elem_of_In in Hvin. pose proof (find_none _ _ Hv v Hvin) as Hlt.
  simpl in Hlt. lia.
Qed.

(** ** Theorems *)

(** The accessors of a validated node configuration that parse their field again
    ([operation_timeout], [check_interval] and those of a Pearl backend) never abort, and
    the quorum is not zero. *)
Theorem node_config_valid_usable c : NodeConfig_validate c = Some (Ok tt) → config_usable c.
Proof. apply NodeConfig_validate_usable. Qed.

(** Checking a validated node configuration against a cluster never aborts; when it
    succeeds the node is in the cluster, its address and disks are stored, every virtual
    disk has at least [quorum] replicas, and the alien disk is a disk of the node. *)
Theorem cluster_check_spec cluster c :
  NodeConfig_validate c = Some (Ok tt) →
  ∃ r c', Cluster_check cluster c = Some (r, c') ∧ (r = Ok tt → checked cluster c c').
Proof. intros Hv. by apply Cluster_check_total, NodeConfig_validate_usable. Qed.

(** With a positive retry count, [try_multiple_times] never aborts: it runs the
    function until its first success, at most [count] times, and returns the last result. *)
Theorem try_multiple_times_spec {W T E} (p : PearlConfig) (f : M W (result T E)) w :
  (∀ w, is_Some (f w)) → 0 < pl_fail_retry_count p →
  ∃ k errs r w', (1 ≤ k)%nat ∧ Z.of_nat k ≤ pl_fail_retry_count p ∧
    runs f k w = Some (errs ++ [r], w') ∧ try_multiple_times p f w = Some (r, w') ∧
    Forall (λ e, is_err e = true) errs ∧
    (is_err r = true → Z.of_nat k = pl_fail_retry_count p).
Proof.
  intros Htot Hc.
  destruct (try_loop_runs f (Z.to_nat (pl_fail_retry_count p)) w Htot ltac:(lia))
    as (k & errs & r & w' & Hk & Hruns & Hloop & Herrs & Hlast).
  exists k, errs, r, w'. split_and!; auto; try lia. intros Hr. rw Hlast //. lia.
Qed.
End config.

#[local] Instance parsers_example : ConfigParsers := {|
  parse_duration := λ s, if decide (s = EmptyString) then Err "value was empty" else Ok (3600 * nanos_per_sec);
  parse_socket_addr := λ _, Ok tt;
  chrono_from_std := Some;
  chrono_display := fmt_dec;
|}.

Definition config_example : NodeConfig := NodeConfig_get_testmode "/tmp/bob_events.csv" "node_1" "disk_0" None.

Lemma node_config_valid_usable_witness :
  NodeConfig_validate config_example = Some (Ok tt) ∧ config_usable config_example.
Proof.
  assert (NodeConfig_validate config_example = Some (Ok tt)) as Hv by by vm_compute.
  split; [done|]. by apply node_config_valid_usable.
Defined.

Lemma cluster_check_spec_witness :
  NodeConfig_validate config_example = Some (Ok tt) ∧
  ∃ c', Cluster_check cluster_example config_example = Some (Ok tt, c') ∧
        checked cluster_example config_example c'.
Proof.
  assert (NodeConfig_validate config_example = Some (Ok tt)) as Hv by by vm_compute.
  split; [done|].
  destruct (cluster_check_spec cluster_example config_example Hv) as (r & c' & Hch & Hok).
  assert (r = Ok tt) as ->.
  { assert (fst <$> Cluster_check cluster_example config_example = Some (Ok tt)) as Hr by by vm_compute.
    rw Hch in Hr. by simplify_eq/=. }
  eauto.
Defined.

(** Two failures, then a success: the counter is the world. *)
Lemma try_multiple_times_spec_witness :
  let p := Pearl_get_testmode EmptyString "d" in
  let f : M Z (result Z string) := λ w, Some (if w <? 2 then Err "busy" else Ok w, w + 1) in
  (∀ w, is_Some (f w)) ∧ 0 < pl_fail_retry_count p ∧
  try_multiple_times p f 0 = Some (Ok 2, 3) ∧
  ∃ k errs r w', runs f k 0 = Some (errs ++ [r], w') ∧ try_multiple_times p f 0 = Some (r, w').
Proof.
  intros p f. assert (∀ w, is_Some (f w)) as Htot by (intros w; rw /f; eauto).
  split; [done|]. split; [done|]. split; [reflexivity|].
  destruct (try_multiple_times_spec p f 0 Htot ltac:(done))
    as (k & errs & r & w' & _ & _ & Hr & Ht & _). eauto 8.
Defined.

(** A retry count of zero passes validation, and aborts. *)
Example retry_count_zero_aborts {W T E} (f : M W (result T E)) w : try_loop f 0 w = None.
Proof. reflexivity. Qed.
