(* ===== verification/Mapper.v ===== *)
(** * Mapper: from keys to virtual disks, nodes and disks

    [bob-common/src/mapper.rs].  The struct [Virtual] is built once from the two
    configurations; only [support_nodes_offset] changes afterwards.  Whether a node is
    connected is read again on every pass over the nodes, while other tasks connect and
    disconnect them: each pass is given its own answers, a function from the position of
    the node to a bool. *)

From Corelib Require Import ssreflect.
From stdpp Require Import base option list strings gmap sets numbers.
From Stdlib Require Import Strings.Byte ZArith Lia.
From S2P Require Import Prelude Data Text Errors Options Node ClusterConfig NodeConfig.

Record Virtual : Type := {
  vm_local_node_name : NodeName;
  vm_local_node_address : string;
  vm_disks : list DiskPath;
  vm_vdisks : gmap Z VDisk;
  vm_nodes : list Node;
  vm_distribution_func : DistributionFunc;
  vm_support_nodes_offset : Z;  (* usize *)
}.

(** ** Construction *)

(** The index is the position; it must fit a [u16]. *)
Fixpoint prepare_nodes_go (i : Z) (l : list ClusterNode) : option (list Node) :=
  match l with
  | [] => Some []
  | conf :: l' =>
      if i <? 2 ^ 16 then
        nodes ← prepare_nodes_go (i + 1) l';
        Some ({| node_index := i; node_name := cn_name conf; node_address := cn_address conf |} :: nodes)
      else None
  end.

Definition prepare_nodes (cluster : Cluster) : option (list Node) := prepare_nodes_go 0 (cl_nodes cluster).

(** The nodes that hold a replica, in the order of the cluster. *)
Definition vdisk_nodes (replicas : list NodeDisk) (nodes : list Node) : list Node :=
  filter (λ node, Is_true (existsb (λ r, bool_decide (nd_node_name r = node_name node)) replicas)) nodes.

Definition prepare_vdisks_map (cluster : Cluster) (nodes : list Node) : option (gmap Z VDisk) :=
  match collect_vdisk_replicas cluster with
  | Ok vdisks_replicas =>
      Some (map_imap (λ vdisk_id cur_vdisk_replicas,
        Some (VDisk_new vdisk_id cur_vdisk_replicas (vdisk_nodes cur_vdisk_replicas nodes)))
        vdisks_replicas)
  | Err _ => None
  end.

Definition Virtual_new (config : NodeConfig) (cluster : Cluster) : option Virtual :=
  nodes ← prepare_nodes cluster;
  vdisks ← prepare_vdisks_map cluster nodes;
  local ← List.find (λ node, bool_decide (node_name node = cfg_name config)) nodes;
  Some {|
    vm_local_node_name := cfg_name config;
    vm_local_node_address := node_address local;
    vm_disks := cfg_disks_ref config;
    vm_vdisks := vdisks;
    vm_nodes := nodes;
    vm_distribution_func := cl_distribution_func cluster;
    vm_support_nodes_offset := 0;
  |}.

(** ** Accessors *)

Definition vdisks_count (v : Virtual) : option Z :=
  let n := Z.of_nat (size (vm_vdisks v)) in if n <? 2 ^ 32 then Some n else None.

Definition get_vdisks_ids (v : Virtual) : list VDiskId := elements (dom (vm_vdisks v)).

Definition get_disk (v : Virtual) (name : DiskName) : option DiskPath :=
  List.find (λ d, bool_decide (dp_name d = name)) (vm_disks v).

(** ** Keys to virtual disks *)

Definition mod_step (len : Z) (acc : Z * Z) (b : byte) : Z * Z :=
  (wrap64 (acc.1 + wrap64 (acc.2 * byte_val b)) mod len, wrap64 (Z.shiftl acc.2 8) mod len).

(** [None]: the remainder by zero. *)
Definition get_vdisk_id_by_mod (key : BobKey) (len : Z) : option Z :=
  match key with
  | [] => Some 0
  | _ => if len =? 0 then None else Some (foldl (mod_step len) (0, 1) key).1
  end.

Definition vdisk_id_from_key (v : Virtual) (key : BobKey) : option VDiskId :=
  match vm_distribution_func v with
  | Mod =>
      id ← get_vdisk_id_by_mod key (Z.of_nat (size (vm_vdisks v)));
      if id <? 2 ^ 32 then Some id else None
  end.

Definition get_vdisk (v : Virtual) (vdisk_id : VDiskId) : option VDisk := vm_vdisks v !! vdisk_id.

Definition get_target_nodes_for_key (v : Virtual) (key : BobKey) : option (list Node) :=
  id ← vdisk_id_from_key v key;
  vdisk ← get_vdisk v id;
  Some (vd_nodes vdisk).

(** The outer [None] aborts. *)
Definition get_vdisk_for_key (v : Virtual) (key : BobKey) : option (option VDisk) :=
  vdisk_id ← vdisk_id_from_key v key; Some (get_vdisk v vdisk_id).

Definition get_vdisks_by_disk (v : Virtual) (disk : DiskName) : list VDiskId :=
  omap (λ p : Z * VDisk,
    if existsb (λ replica, bool_decide (nd_disk_name replica = disk))
         (filter (λ r, nd_node_name r = vm_local_node_name v) (vd_replicas p.2))
    then Some p.1 else None) (map_to_list (vm_vdisks v)).

(** The loop of [get_operation] over the replicas. *)
Fixpoint collect_local_disks (local : NodeName) (replicas : list NodeDisk)
    (disks : option (list DiskPath)) : option (list DiskPath) :=
  match replicas with
  | [] => disks
  | replica :: rest =>
      collect_local_disks local rest
        (if decide (nd_node_name replica = local)
         then Some (default [] disks ++ [DiskPath_from replica]) else disks)
  end.

Definition get_operation (v : Virtual) (key : BobKey) : option (VDiskId * option (list DiskPath)) :=
  vd ← get_vdisk_for_key v key;
  virt_disk ← vd;
  Some (vd_id virt_disk, collect_local_disks (vm_local_node_name v) (vd_replicas virt_disk) None).

Definition is_vdisk_on_node (v : Virtual) (name : NodeName) (id : VDiskId) : option bool :=
  vdisk ← get_vdisk v id;
  Some (existsb (λ node, bool_decide (node_name node = name)) (vd_nodes vdisk)).

Definition count_replica (result : gmap NodeName nat) (replica : NodeDisk) : gmap NodeName nat :=
  match result !! nd_node_name replica with
  | Some c => <[nd_node_name replica := (c + 1)%nat]> result
  | None => <[nd_node_name replica := 1%nat]> result
  end.

Definition get_replicas_count_by_node (v : Virtual) (key : BobKey) : option (gmap NodeName nat) :=
  id ← vdisk_id_from_key v key;
  Some (match vm_vdisks v !! id with
        | Some vdisk => foldl count_replica ∅ (vd_replicas vdisk)
        | None => ∅
        end).

(** ** Support nodes *)

Record SupportIndexResult : Type := { si_index : option nat; si_avail : nat }.

Definition not_target (target_nodes : list Node) (node : Node) : bool :=
  forallb (λ n, negb (node_index n =? node_index node)) target_nodes.

Fixpoint one_pass_go (conn : nat → bool) (target_nodes : list Node) (offset : nat)
    (i : nat) (nodes : list Node) (avail : nat) : SupportIndexResult :=
  match nodes with
  | [] => {| si_index := None; si_avail := avail |}
  | node :: rest =>
      if conn i && not_target target_nodes node then
        if (avail =? offset)%nat then {| si_index := Some i; si_avail := avail + 1 |}
        else one_pass_go conn target_nodes offset (S i) rest (avail + 1)
      else one_pass_go conn target_nodes offset (S i) rest avail
  end.

Definition try_find_support_node_offset_at_one_pass (conn : nat → bool)
    (nodes target_nodes : list Node) (offset : nat) : SupportIndexResult :=
  one_pass_go conn target_nodes offset 0 nodes 0.

(** The [while] loop; [conn pass] are the answers of pass number [pass].  [None]: out of
    fuel. *)
Fixpoint find_offset_loop (fuel : nat) (conn : nat → nat → bool) (nodes target_nodes : list Node)
    (pass : nat) (res : SupportIndexResult) (curr_offset : nat) : option SupportIndexResult :=
  if bool_decide (si_index res = None) && (0 <? si_avail res)%nat then
    match fuel with
    | O => None
    | S fuel' =>
        let res := try_find_support_node_offset_at_one_pass (conn pass) nodes target_nodes curr_offset in
        let curr_offset := if (si_avail res <? curr_offset)%nat then (curr_offset - si_avail res)%nat else 0%nat in
        find_offset_loop fuel' conn nodes target_nodes (S pass) res curr_offset
    end
  else Some res.

Definition find_support_node_offset (conn : nat → nat → bool) (nodes target_nodes : list Node)
    (offset : Z) : option nat :=
  if (length nodes <=? length target_nodes)%nat then Some (Z.to_nat (offset mod Z.of_nat (length nodes)))
  else
    let res := try_find_support_node_offset_at_one_pass (conn 0%nat) nodes target_nodes
                 (Z.to_nat (offset mod Z.of_nat (length nodes - length target_nodes))) in
    res ← (if bool_decide (si_index res = None) && (0 <? si_avail res)%nat then
             let curr_offset := Z.to_nat (offset mod Z.of_nat (si_avail res)) in
             find_offset_loop (curr_offset + 2) conn nodes target_nodes 1 res curr_offset
           else Some res);
    Some (match si_index res with
          | Some index => index
          | None => Z.to_nat (offset mod Z.of_nat (length nodes))
          end).

(** Both filling passes: take the nodes that [pick] accepts until there are [count]. *)
Fixpoint fill_support (pick : nat → Node → list Node → bool) (nodes : list Node) (starting_index count : nat)
    (iters : list nat) (support_nodes : list Node) : list Node :=
  match iters with
  | [] => support_nodes
  | i :: iters' =>
      let pos := ((i + starting_index) mod length nodes)%nat in
      match nodes !! pos with
      | Some node =>
          if pick pos node support_nodes then
            let support_nodes := support_nodes ++ [node] in
            if (count <=? length support_nodes)%nat then support_nodes
            else fill_support pick nodes starting_index count iters' support_nodes
          else fill_support pick nodes starting_index count iters' support_nodes
      | None => support_nodes  (* a position below the length *)
      end
  end.

Definition pick_connected (conn : nat → bool) (target_nodes : list Node) (pos : nat) (node : Node)
    (_ : list Node) : bool := conn pos && not_target target_nodes node.

Definition pick_any (target_nodes : list Node) (_ : nat) (node : Node) (support_nodes : list Node) : bool :=
  not_target support_nodes node && not_target target_nodes node.

(** [search] are the answers of the passes of the offset search, [first] those of the
    first filling pass. *)
Definition get_support_nodes (search : nat → nat → bool) (first : nat → bool) (key : BobKey) (count : nat)
    : M Virtual (list Node) :=
  if (count =? 0)%nat then mret []
  else
    v ← gets id;
    target_nodes ← expect (get_target_nodes_for_key v key);
    if (length (vm_nodes v) <=? length target_nodes)%nat then mret []
    else
      _ ← modify (λ v, {|
        vm_local_node_name := vm_local_node_name v;
        vm_local_node_address := vm_local_node_address v;
        vm_disks := vm_disks v; vm_vdisks := vm_vdisks v; vm_nodes := vm_nodes v;
        vm_distribution_func := vm_distribution_func v;
        vm_support_nodes_offset := wrap64 (vm_support_nodes_offset v + 1) |});
      starting_index ← expect (find_support_node_offset search (vm_nodes v) target_nodes (vm_support_nodes_offset v));
      let len := length (vm_nodes v) in
      let support_nodes :=
        fill_support (pick_connected first target_nodes) (vm_nodes v) starting_index count (seq 0 len) [] in
      if (length support_nodes <? count)%nat
         && (length support_nodes + length target_nodes <? length (vm_nodes v))%nat
      then mret (fill_support (pick_any target_nodes) (vm_nodes v) starting_index count (seq 0 len) support_nodes)
      else mret support_nodes.

(** ** Lemmas: the virtual disk of a key *)

Lemma from_le_bytes_snoc l b :
  from_le_bytes (l ++ [b]) = from_le_bytes l + 256 ^ Z.of_nat (length l) * byte_val b.
Proof. rw from_le_bytes_app /=. f_equal. lia. Qed.

Lemma mod_step_foldl len key :
  0 < len ≤ 2 ^ 32 → key ≠ [] →
  foldl (mod_step len) (0, 1) key =
  (from_le_bytes key mod len, 256 ^ Z.of_nat (length key) mod len).
Proof.
  intros Hlen. induction key as [|b key IH] using rev_ind; [done|]. intros _.
  rw foldl_app /=. pose proof (byte_val_bounds b) as Hb.
  rw from_le_bytes_snoc length_app Nat2Z.inj_add Z.pow_add_r /=; try lia.
  assert (∃ r m, foldl (mod_step len) (0, 1) key = (r, m) ∧ 0 ≤ r < len ∧ 0 ≤ m < 2 ^ 32 + 1 ∧
    r = from_le_bytes key mod len ∧ m mod len = 256 ^ Z.of_nat (length key) mod len)
    as (r & m & -> & Hr & Hm & Hr' & Hm').
  { destruct key as [|c key]; [exists 0, 1; split_and!; try done; lia|].
    rw IH //. do 2 eexists. split; [done|].
    split; [apply Z.mod_pos_bound; lia|]. split; [|split; [done|by apply Z.mod_mod; lia]].
    pose proof (Z.mod_pos_bound (256 ^ Z.of_nat (length (c :: key))) len). lia. }
  rw /mod_step /=. assert (0 ≤ m * byte_val b < (2 ^ 32 + 1) * 256) by nia.
  rw Z.shiftl_mul_pow2; first lia. change (2 ^ 8) with 256.
  rw !wrap64_small; try lia.
  f_equal.
  - rw Hr' Z.add_mod_idemp_l; first lia.
    by rw -(Z.add_mod_idemp_r _ (m * _)) -?(Z.mul_mod_idemp_l m) ?Hm' ?Z.mul_mod_idemp_l
      ?Z.add_mod_idemp_r; try lia.
  - rw -(Z.mul_mod_idemp_l m) ?Hm' ?Z.mul_mod_idemp_l; try lia. done.
Qed.

Lemma get_vdisk_id_by_mod_eq key len :
  0 < len ≤ 2 ^ 32 → get_vdisk_id_by_mod key len = Some (from_le_bytes key mod len).
Proof.
  intros Hlen. destruct key as [|b key]; [by rw /= Z.mod_0_l; [lia|]|].
  rw /get_vdisk_id_by_mod. destruct (Z.eqb_spec len 0); [lia|]. by rw mod_step_foldl.
Qed.

(** ** Lemmas: the offset search *)

(** The positions of the available nodes. *)
Fixpoint avail_positions (conn : nat → bool) (target_nodes : list Node) (i : nat) (nodes : list Node) : list nat :=
  match nodes with
  | [] => []
  | node :: rest =>
      if conn i && not_target target_nodes node
      then i :: avail_positions conn target_nodes (S i) rest
      else avail_positions conn target_nodes (S i) rest
  end.

Lemma one_pass_go_eq conn targets offset i nodes k :
  (k ≤ offset)%nat →
  one_pass_go conn targets offset i nodes k =
  match avail_positions conn targets i nodes !! (offset - k)%nat with
  | Some p => {| si_index := Some p; si_avail := offset + 1 |}
  | None => {| si_index := None; si_avail := k + length (avail_positions conn targets i nodes) |}
  end.
Proof.
  revert i k. induction nodes as [|node nodes IH]; intros i k Hk; simpl; [by rw Nat.add_0_r|].
  destruct (conn i && not_target targets node); [|by apply IH].
  destruct (Nat.eqb_spec k offset) as [->|Hne]; [by rw Nat.sub_diag|].
  rw IH; [lia|]. replace (offset - k)%nat with (S (offset - (k + 1))) by lia. simpl.
  destruct (_ !! _); [done|]. f_equal. lia.
Qed.

Lemma avail_positions_bounds conn targets i nodes p :
  p ∈ avail_positions conn targets i nodes → (i ≤ p < i + length nodes)%nat.
Proof.
  revert i. induction nodes as [|node nodes IH]; intros i; simpl; [by intros ?%elem_of_nil|].
  destruct (_ && _); [intros [->|Hp]%elem_of_cons; [lia|]|intros Hp];
    specialize (IH _ Hp); lia.
Qed.

Lemma one_pass_eq conn nodes targets offset :
  try_find_support_node_offset_at_one_pass conn nodes targets offset =
  match avail_positions conn targets 0 nodes !! offset with
  | Some p => {| si_index := Some p; si_avail := offset + 1 |}
  | None => {| si_index := None; si_avail := length (avail_positions conn targets 0 nodes) |}
  end.
Proof. rw /try_find_support_node_offset_at_one_pass one_pass_go_eq; [lia|]. by rw Nat.sub_0_r. Qed.

(** A pass finds a position of the list, or has counted no more than the offset. *)
Lemma one_pass_cases conn nodes targets offset res :
  try_find_support_node_offset_at_one_pass conn nodes targets offset = res →
  (∃ p, si_index res = Some p ∧ (p < length nodes)%nat) ∨
  (si_index res = None ∧ (si_avail res ≤ offset)%nat).
Proof.
  rw one_pass_eq. destruct (_ !! offset) as [p|] eqn:Hp; intros <-; simpl.
  - left. exists p. split; [done|]. apply list_elem_of_lookup_2, avail_positions_bounds in Hp. lia.
  - right. split; [done|]. by apply lookup_ge_None in Hp.
Qed.

Definition valid_result (nodes : list Node) (res : SupportIndexResult) : Prop :=
  ∀ p, si_index res = Some p → (p < length nodes)%nat.

(** The loop ends whatever the passes see: every pass without a result that continues
    makes the offset smaller. *)
Lemma find_offset_loop_total fuel conn nodes targets pass res curr_offset :
  (curr_offset < fuel)%nat → valid_result nodes res →
  ∃ res', find_offset_loop fuel conn nodes targets pass res curr_offset = Some res' ∧
    valid_result nodes res'.
Proof.
  revert pass res curr_offset. induction fuel as [|fuel IH]; intros pass res curr Hf Hv; [lia|].
  simpl. destruct (bool_decide _ && _)%bool; [|by exists res].
  destruct (try_find_support_node_offset_at_one_pass (conn pass) nodes targets curr) as [idx a] eqn:Hres.
  destruct (one_pass_cases _ _ _ _ _ Hres) as [(p & Hidx & Hp)|[Hidx Ha]]; simpl in *; subst idx.
  - destruct fuel; simpl; eexists; (split; [done|]); by intros p' [= <-].
  - destruct (decide (a = 0%nat)) as [->|Hne].
    + destruct fuel; simpl; eexists; (split; [done|]); by intros p'.
    + apply IH; [|by intros p']. destruct (Nat.ltb_spec a curr); lia.
Qed.

Lemma find_support_node_offset_total conn nodes targets offset :
  nodes ≠ [] → ∃ s, find_support_node_offset conn nodes targets offset = Some s ∧ (s < length nodes)%nat.
Proof.
  intros Hne. assert (0 < length nodes)%nat as Hlen by (destruct nodes; [done|simpl; lia]).
  assert (Z.to_nat (offset mod Z.of_nat (length nodes)) < length nodes)%nat as Hmod.
  { pose proof (Z.mod_pos_bound offset (Z.of_nat (length nodes))). lia. }
  rw /find_support_node_offset. destruct (Nat.leb_spec (length nodes) (length targets)); [eauto|].
  remember (Z.to_nat (offset mod Z.of_nat (length nodes - length targets))) as off0.
  destruct (try_find_support_node_offset_at_one_pass (conn 0%nat) nodes targets off0)
    as [idx a] eqn:Hres.
  assert (valid_result nodes {| si_index := idx; si_avail := a |}) as Hv.
  { intros p Hp. destruct (one_pass_cases _ _ _ _ _ Hres) as [(p' & Hidx & Hlt)|[Hidx _]];
      simpl in *; congruence. }
  assert (∃ res, (if bool_decide (si_index {| si_index := idx; si_avail := a |} = None)
    && (0 <? si_avail {| si_index := idx; si_avail := a |})%nat
    then find_offset_loop (Z.to_nat (offset mod Z.of_nat a) + 2) conn nodes targets 1
           {| si_index := idx; si_avail := a |} (Z.to_nat (offset mod Z.of_nat a))
    else Some {| si_index := idx; si_avail := a |}) = Some res ∧ valid_result nodes res)
    as (res & Heq & Hvr).
  { destruct (_ && _)%bool; [apply find_offset_loop_total; [lia|done]|eauto]. }
  simpl in *. rw Heq /=. eexists. split; [done|]. destruct (si_index res) eqn:Hi; [by apply Hvr|done].
Qed.

(** With stable connections and an available node, the search picks the position
    numbered by the offset: modulo the non-target nodes when that names an available
    node, else modulo the available nodes. *)
Definition pick_number (offset m a : Z) : Z :=
  if offset mod m <? a then offset mod m else offset mod a.

Lemma find_support_node_offset_stable conn nodes targets offset :
  let A := avail_positions conn targets 0 nodes in
  (length targets < length nodes)%nat → A ≠ [] →
  find_support_node_offset (λ _, conn) nodes targets offset =
  A !! Z.to_nat (pick_number offset (Z.of_nat (length nodes - length targets)) (Z.of_nat (length A))).
Proof.
  intros A Ht HA. assert (0 < length A)%nat as Ha by (destruct A; [done|simpl; lia]).
  rw /find_support_node_offset /pick_number. destruct (Nat.leb_spec (length nodes) (length targets)); [lia|].
  set (m := Z.of_nat (length nodes - length targets)).
  pose proof (Z.mod_pos_bound offset m) as Hm. pose proof (Z.mod_pos_bound offset (Z.of_nat (length A))) as Hma.
  rw one_pass_eq -/A. destruct (Z.ltb_spec (offset mod m) (Z.of_nat (length A))) as [Hlt|Hge].
  - destruct (lookup_lt_is_Some_2 A (Z.to_nat (offset mod m))) as [p Hp]; [lia|].
    by rw Hp.
  - rw (proj2 (lookup_ge_None A _)); [lia|]. simpl.
    rw (proj2 (Nat.ltb_lt 0 (length A))) //=.
    replace (Z.to_nat (offset mod Z.of_nat (length A)) + 2)%nat
      with (S (S (Z.to_nat (offset mod Z.of_nat (length A))))) by lia.
    cbn [find_offset_loop si_index si_avail]. rw one_pass_eq -/A.
    destruct (lookup_lt_is_Some_2 A (Z.to_nat (offset mod Z.of_nat (length A)))) as [p Hp]; [lia|].
    rw (proj2 (Nat.ltb_lt 0 (length A))) //= Hp //=.
Qed.

(** ** Lemmas: filling *)

(** The positions and nodes in the order the passes visit them. *)
Definition rotation (nodes : list Node) (s : nat) : list (nat * Node) :=
  omap (λ i, pair ((i + s) mod length nodes)%nat <$> nodes !! ((i + s) mod length nodes)%nat)
    (seq 0 (length nodes)).

Fixpoint fill_list (pick : nat → Node → list Node → bool) (count : nat) (l : list (nat * Node))
    (acc : list Node) : list Node :=
  match l with
  | [] => acc
  | (pos, node) :: l' =>
      if pick pos node acc then
        if (count <=? length (acc ++ [node]))%nat then acc ++ [node]
        else fill_list pick count l' (acc ++ [node])
      else fill_list pick count l' acc
  end.

Lemma fill_support_eq pick nodes s count acc :
  fill_support pick nodes s count (seq 0 (length nodes)) acc = fill_list pick count (rotation nodes s) acc.
Proof.
  rw /rotation. generalize (seq 0 (length nodes)) as iters.
  destruct nodes as [|n nodes].
  { intros iters. transitivity acc; [by destruct iters|].
    induction iters as [|i iters IH]; [done|]. exact IH. }
  intros iters. revert acc. induction iters as [|i iters IH]; intros acc; [done|].
  cbn [fill_support omap list_omap].
  destruct (lookup_lt_is_Some_2 (n :: nodes) ((i + s) mod length (n :: nodes))) as [x Hx];
    [apply Nat.mod_upper_bound; done|].
  rw Hx. cbn [fmap option_fmap option_map fill_list].
  destruct (pick _ _ _); [|apply IH]. destruct (_ <=? _)%nat; [done|apply IH].
Qed.

Lemma rotation_elem nodes s i n :
  (i, n) ∈ rotation nodes s → nodes !! i = Some n.
Proof.
  rw /rotation list_elem_of_omap. intros (k & _ & Hk).
  destruct (nodes !! _) eqn:Hl; simplify_eq/=. done.
Qed.

Lemma rotation_perm nodes s : (rotation nodes s).*2 ≡ₚ nodes.
Proof.
  rw /rotation. set (len := length nodes).
  assert ((λ i, (i + s) mod len)%nat <$> seq 0 len ≡ₚ seq 0 len) as Hperm.
  { symmetry. apply submseteq_length_Permutation; [|by rw length_fmap].
    apply NoDup_submseteq; [apply NoDup_seq|]. intros p Hp%elem_of_seq.
    apply list_elem_of_fmap. exists ((p + (len - s mod len)) mod len)%nat. split.
    - rw Nat.Div0.add_mod_idemp_l. rw -Nat.add_assoc -(Nat.Div0.add_mod_idemp_r _ (_ + s)).
      replace ((len - s mod len + s) mod len)%nat with 0%nat.
      + rw Nat.add_0_r Nat.mod_small; lia.
      + rw -Nat.Div0.add_mod_idemp_r. pose proof (Nat.mod_upper_bound s len ltac:(lia)).
        replace (len - s mod len + s mod len)%nat with len by lia. by rw Nat.Div0.mod_same.
    - apply elem_of_seq. pose proof (Nat.mod_upper_bound (p + (len - s mod len)) len). lia. }
  assert (∀ l, (omap (λ i, pair ((i + s) mod len)%nat <$> nodes !! ((i + s) mod len)%nat) l).*2 =
    omap (nodes !!.) ((λ i, (i + s) mod len)%nat <$> l)) as Heq.
  { intros l. induction l as [|i l IH]; [done|].
    rw fmap_cons. cbn [omap list_omap].
    destruct (nodes !! ((i + s) mod len)%nat); [|exact IH].
    apply (f_equal (cons _) IH). }
  rw Heq Hperm /len. clear. apply reflexive_eq.
  induction nodes as [|n nodes IH] using rev_ind; [done|].
  rw length_app seq_app omap_app /= lookup_app_r; [lia|]. rw Nat.sub_diag /=.
  f_equal. transitivity (omap (nodes !!.) (seq 0 (length nodes))); [|exact IH].
  apply list_omap_ext, Forall2_same_length_lookup_2; [done|].
  intros i x y Hx Hy. simplify_eq. rw lookup_app_l //. apply lookup_seq in Hx. lia.
Qed.

(** A pass whose choice does not depend on what it has taken. *)
Lemma fill_list_take (ok : nat * Node → bool) pick count l acc :
  (∀ pre p n post, l = pre ++ (p, n) :: post → ∀ taken, taken ⊆ pre.*2 → pick p n (acc ++ taken) = ok (p, n)) →
  (length acc < count)%nat →
  fill_list pick count l acc = acc ++ take (count - length acc) (filter (λ x, ok x = true) l).*2.
Proof.
  intros Hpick Hc.
  enough (∀ post pre taken, l = pre ++ post → taken ⊆ pre.*2 → (length (acc ++ taken) < count)%nat →
    fill_list pick count post (acc ++ taken) =
    (acc ++ taken) ++ take (count - length (acc ++ taken)) (filter (λ x, ok x = true) post).*2) as Hgen.
  { specialize (Hgen l [] [] eq_refl). rw app_nil_r in Hgen. apply Hgen; [by intros x ?%elem_of_nil|done]. }
  intros post. induction post as [|[p n] post IH]; intros pre taken Hl Hsub Hlen; simpl.
  - by rw take_nil app_nil_r.
  - rw (Hpick pre p n post Hl taken Hsub) filter_cons /=.
    assert (∀ x, x = taken ∨ x = taken ++ [n] → x ⊆ (pre ++ [(p, n)]).*2) as Hsub'.
    { intros x Hx y Hy. rw fmap_app. apply elem_of_app.
      destruct Hx as [->| ->]; [left; by apply Hsub|].
      apply elem_of_app in Hy as [Hy|Hy]; [left; by apply Hsub|by right]. }
    destruct (ok (p, n)) eqn:Hok.
    + case_decide; [|done]. rw -!app_assoc.
      destruct (Nat.leb_spec count (length (acc ++ taken ++ [n]))) as [Hle|Hlt].
      * rw !length_app /= in Hle Hlen |- *.
        replace (count - (length acc + length taken))%nat with 1%nat by lia. by rw /= take_0.
      * rw (IH (pre ++ [(p, n)]) (taken ++ [n])); [by rw -app_assoc|auto|done|].
        rw !length_app /= in Hlt |- *. rw -!app_assoc /=.
        replace (count - (length acc + length taken))%nat
          with (S (count - (length acc + (length taken + 1)))) by lia. done.
    + case_decide; [done|]. apply (IH (pre ++ [(p, n)])); [by rw -app_assoc|auto|done].
Qed.

Lemma not_target_spec targets n :
  not_target targets n = true ↔ node_index n ∉ node_index <$> targets.
Proof.
  rw /not_target forallb_forall list_elem_of_fmap. split.
  - intros Hall (t & Heq & Ht%list_elem_of_In). specialize (Hall t Ht). lia.
  - intros Hne t Ht%list_elem_of_In. destruct (Z.eqb_spec (node_index t) (node_index n)); [|done].
    exfalso. eauto.
Qed.

(** ** The mapper of a valid configuration *)

Record mapper_ok (v : Virtual) : Prop := {
  mok_index : NoDup (node_index <$> vm_nodes v);
  mok_names : NoDup (node_name <$> vm_nodes v);
  mok_local : vm_local_node_name v ∈ node_name <$> vm_nodes v;
  mok_size : 0 < Z.of_nat (size (vm_vdisks v)) ≤ 2 ^ 32;
  mok_vdisk : ∀ id, 0 ≤ id < Z.of_nat (size (vm_vdisks v)) →
    ∃ replicas, vm_vdisks v !! id = Some (VDisk_new id replicas (vdisk_nodes replicas (vm_nodes v))) ∧
      replicas ≠ [] ∧ ∀ r, r ∈ replicas → nd_node_name r ∈ node_name <$> vm_nodes v;
}.

Lemma vdisk_nodes_elem replicas nodes n :
  n ∈ vdisk_nodes replicas nodes ↔ n ∈ nodes ∧ ∃ r, r ∈ replicas ∧ nd_node_name r = node_name n.
Proof.
  rw /vdisk_nodes list_elem_of_filter Is_true_true existsb_exists. split.
  - intros [(r & Hr & Hn) Hin]. split; [done|]. exists r. apply bool_decide_eq_true in Hn. by rw list_elem_of_In.
  - intros [Hin (r & Hr & Hn)]. split; [|done]. exists r. by rw -list_elem_of_In bool_decide_eq_true.
Qed.

Lemma vdisk_id_from_key_ok v key :
  mapper_ok v →
  vdisk_id_from_key v key = Some (from_le_bytes key mod Z.of_nat (size (vm_vdisks v))).
Proof.
  intros Hok. pose proof (mok_size v Hok) as Hs. rw /vdisk_id_from_key.
  destruct (vm_distribution_func v). rw get_vdisk_id_by_mod_eq // /=.
  pose proof (Z.mod_pos_bound (from_le_bytes key) (Z.of_nat (size (vm_vdisks v)))).
  by rw (proj2 (Z.ltb_lt _ _)); first lia.
Qed.

(** The replicas of a key. *)
Definition replicas_of (v : Virtual) (key : BobKey) (replicas : list NodeDisk) : Prop :=
  get_vdisk v (from_le_bytes key mod Z.of_nat (size (vm_vdisks v))) =
    Some (VDisk_new (from_le_bytes key mod Z.of_nat (size (vm_vdisks v))) replicas
            (vdisk_nodes replicas (vm_nodes v))) ∧
  replicas ≠ [] ∧ ∀ r, r ∈ replicas → nd_node_name r ∈ node_name <$> vm_nodes v.

Lemma replicas_of_key v key : mapper_ok v → ∃ replicas, replicas_of v key replicas.
Proof.
  intros Hok. pose proof (mok_size v Hok). apply (mok_vdisk v Hok), Z.mod_pos_bound. lia.
Qed.

Lemma target_nodes_eq v key replicas :
  mapper_ok v → replicas_of v key replicas →
  get_target_nodes_for_key v key = Some (vdisk_nodes replicas (vm_nodes v)).
Proof.
  intros Hok (Hget & _). by rw /get_target_nodes_for_key vdisk_id_from_key_ok //= Hget.
Qed.

(** ** Lemmas: support nodes *)

Lemma NoDup_fmap_elem {A B} (f : A → B) (l : list A) x y :
  NoDup (f <$> l) → x ∈ l → y ∈ l → f x = f y → x = y.
Proof.
  intros Hnd [i Hi]%list_elem_of_lookup [j Hj]%list_elem_of_lookup Heq.
  assert (i = j) as ->; [|congruence].
  eapply NoDup_lookup; [exact Hnd| |]; rw list_lookup_fmap; [by rw Hi|by rw Hj /= Heq].
Qed.

Lemma not_target_filter (ok : nat * Node → bool) (L : list (nat * Node)) x :
  NoDup ((λ y, node_index y.2) <$> L) → x ∈ L →
  not_target (filter (λ y, ok y = true) L).*2 x.2 = negb (ok x).
Proof.
  intros Hnd Hx. destruct (ok x) eqn:Hok; simpl.
  - apply not_true_iff_false. rw not_target_spec. intros Hne. apply Hne.
    apply list_elem_of_fmap_2, list_elem_of_fmap_2. by apply list_elem_of_filter.
  - apply not_target_spec. intros (n & Heq & Hn)%list_elem_of_fmap.
    apply list_elem_of_fmap in Hn as (y & -> & [Hy Hin]%list_elem_of_filter).
    assert (x = y) as ->; [|congruence]. by eapply (NoDup_fmap_elem (λ y, node_index y.2)).
Qed.

Lemma length_filter_split {A} (p q : A → bool) (l : list A) :
  (length (filter (λ x, p x && q x = true) l) + length (filter (λ x, negb (p x) && q x = true) l) =
   length (filter (λ x, q x = true) l))%nat.
Proof.
  induction l as [|x l IH]; [done|]. rw !filter_cons. simpl.
  destruct (p x), (q x); simpl; rw -?IH; simpl; lia.
Qed.

Lemma filter_ext_elem {A} (P Q : A → Prop) `{!∀ x, Decision (P x), !∀ x, Decision (Q x)} (l : list A) :
  (∀ x, x ∈ l → P x ↔ Q x) → filter P l = filter Q l.
Proof.
  induction l as [|x l IH]; intros HPQ; [done|]. rw !filter_cons.
  rw IH; [intros y Hy; apply HPQ; by right|].
  destruct (HPQ x) as [H1 H2]; [by left|]. repeat case_decide; tauto.
Qed.

Section support.
Context (nodes targets : list Node) (first : nat → bool) (s : nat).
Context (Hnd : NoDup (node_index <$> nodes)).
Context (P : Node → Prop) `{!∀ n, Decision (P n)} (Htargets : targets = filter P nodes).

#[local] Abbreviation rot := (rotation nodes s).

Lemma rot_nodup : NoDup ((λ y : nat * Node, node_index y.2) <$> rot).
Proof using Hnd.
  change ((λ y : nat * Node, node_index y.2) <$> rot) with ((node_index ∘ snd) <$> rot).
  by rw list_fmap_compose /rot rotation_perm.
Qed.

Lemma targets_in n : n ∈ nodes → not_target targets n = true ↔ ¬ P n.
Proof using Hnd Htargets.
  intros Hn. rw not_target_spec Htargets. split.
  - intros Hne HP. apply Hne. apply list_elem_of_fmap_2. by apply list_elem_of_filter.
  - intros HP (m & Heq & [HPm Hm]%list_elem_of_filter)%list_elem_of_fmap.
    by rw (NoDup_fmap_elem node_index nodes n m Hnd Hn Hm Heq) in HP.
Qed.

Lemma free_length : length (filter (λ x, not_target targets x.2 = true) rot) = (length nodes - length targets)%nat.
Proof using Hnd Htargets.
  assert (length (filter (λ x, not_target targets x.2 = true) rot) =
          length (filter (λ n, not_target targets n = true) rot.*2)) as ->.
  { generalize rot as l. induction l as [|x l IH]; [done|]. rw fmap_cons !filter_cons /=.
    case_decide; simpl; by rw IH. }
  rw /rot rotation_perm.
  assert (filter (λ n, not_target targets n = true) nodes = filter (λ n, ¬ P n) nodes) as ->.
  { apply filter_ext_elem. apply targets_in. }
  pose proof (Permutation_length (filter_app_complement P nodes)) as Hl.
  rw length_app in Hl. rw Htargets. lia.
Qed.

Definition connected_ok (x : nat * Node) : bool := first x.1 && not_target targets x.2.

Lemma first_pass count :
  (0 < count)%nat →
  fill_support (pick_connected first targets) nodes s count (seq 0 (length nodes)) [] =
  take count (filter (λ x, connected_ok x = true) rot).*2.
Proof using Type.
  intros Hc. rw fill_support_eq (fill_list_take connected_ok) //.
  simpl. by rw Nat.sub_0_r.
Qed.

Lemma second_pass count acc :
  (length acc < count)%nat →
  fill_support (pick_any targets) nodes s count (seq 0 (length nodes)) acc =
  acc ++ take (count - length acc)
    (filter (λ x, not_target acc x.2 && not_target targets x.2 = true) rot).*2.
Proof using Hnd.
  intros Hc. rw fill_support_eq (fill_list_take (λ x, not_target acc x.2 && not_target targets x.2)) //.
  intros pre p n post Hl taken Hsub. rw /pick_any /=. f_equal.
  apply eq_bool_prop_intro. rw !Is_true_true !not_target_spec fmap_app not_elem_of_app.
  split; [by intros [??]|]. intros Hacc. split; [done|].
  intros (m & Heq & Hm)%list_elem_of_fmap.
  pose proof rot_nodup as Hr. rw Hl fmap_app /= in Hr.
  apply list.NoDup_app in Hr as (_ & Hdis & _). apply (Hdis (node_index n)); [|by left].
  apply Hsub, list_elem_of_fmap in Hm as (x & -> & Hx). apply list_elem_of_fmap. eauto.
Qed.

Lemma rot_elem x : x ∈ rot → nodes !! x.1 = Some x.2.
Proof using Type. destruct x. apply rotation_elem. Qed.

(** The nodes the two passes give. *)
Definition support_result (count : nat) (r : list Node) : Prop :=
  NoDup (node_index <$> r) ∧
  (∀ n, n ∈ r → n ∈ nodes ∧ n ∉ targets) ∧
  length r = Nat.min count (length nodes - length targets) ∧
  (∀ i n, nodes !! i = Some n → first i = true → n ∉ targets → n ∉ r →
     ∀ m, m ∈ r → ∃ j, nodes !! j = Some m ∧ first j = true).

Lemma filter_rot_in (ok : nat * Node → bool) n :
  n ∈ (filter (λ x, ok x = true) rot).*2 → ∃ i, nodes !! i = Some n ∧ ok (i, n) = true.
Proof using Type.
  intros (x & -> & [Hok Hx]%list_elem_of_filter)%list_elem_of_fmap.
  exists x.1. rw -surjective_pairing. auto using rot_elem.
Qed.

Lemma not_target_not_in n : not_target targets n = true → n ∉ targets.
Proof using Type. rw not_target_spec. intros Hn Hin. by apply Hn, list_elem_of_fmap_2. Qed.

Lemma filter_rot_nodup (ok : nat * Node → bool) :
  NoDup (node_index <$> (filter (λ x, ok x = true) rot).*2).
Proof using Hnd.
  rw -list_fmap_compose. eapply sublist_NoDup; [exact rot_nodup|].
  apply fmap_sublist, sublist_filter.
Qed.

Lemma connected_in_rot i n :
  nodes !! i = Some n → first i = true → n ∉ targets →
  n ∈ (filter (λ x, connected_ok x = true) rot).*2.
Proof using Hnd Htargets.
  intros Hi Hf Hn. pose proof (list_elem_of_lookup_2 _ _ _ Hi) as Hin.
  assert (n ∈ rot.*2) as ([j m] & Heq & Hjm)%list_elem_of_fmap by by rw rotation_perm.
  simpl in Heq. subst m. pose proof (rot_elem _ Hjm) as Hj. simpl in Hj.
  assert (j = i) as ->.
  { eapply NoDup_lookup; [exact Hnd| |]; rw list_lookup_fmap; [by rw Hj|by rw Hi]. }
  apply list_elem_of_fmap. exists (i, n). split; [done|]. apply list_elem_of_filter.
  split; [|done]. rw /connected_ok /= Hf /=. apply (targets_in n Hin).
  intros HP. apply Hn. rw Htargets. by apply list_elem_of_filter.
Qed.

#[local] Abbreviation F1 := (snd <$> filter (λ x, connected_ok x = true) rot).
#[local] Abbreviation F2 :=
  (snd <$> filter (λ x, (not_target F1 x.2 && not_target targets x.2)%bool = true) rot).

Lemma F1_F2_length : (length F1 + length F2 = length nodes - length targets)%nat.
Proof using Hnd Htargets.
  rw !length_fmap -free_length -(length_filter_split (λ x, first x.1) (λ x, not_target targets x.2) rot).
  f_equal. apply f_equal. apply filter_ext_elem. intros x Hx.
  rw (not_target_filter connected_ok) //; [apply rot_nodup|]. rw /connected_ok.
  by destruct (first x.1), (not_target targets x.2).
Qed.

Lemma F1_in n : n ∈ F1 → n ∈ nodes ∧ n ∉ targets ∧ ∃ j, nodes !! j = Some n ∧ first j = true.
Proof using Type.
  intros (i & Hi & Hok)%filter_rot_in. rw /connected_ok /= in Hok.
  apply andb_true_iff in Hok as [Hf Ht].
  split; [by eapply list_elem_of_lookup_2|]. split; [by apply not_target_not_in|eauto].
Qed.

Lemma F2_in n : n ∈ F2 → n ∈ nodes ∧ n ∉ targets ∧ node_index n ∉ node_index <$> F1.
Proof using Type.
  intros (i & Hi & Hok)%(filter_rot_in (λ x, not_target F1 x.2 && not_target targets x.2)).
  simpl in Hok. apply andb_true_iff in Hok as [Hf%not_target_spec Ht].
  split; [by eapply list_elem_of_lookup_2|]. split; [by apply not_target_not_in|done].
Qed.

Lemma take_in {A} k (l : list A) x : x ∈ take k l → x ∈ l.
Proof using Type. apply subseteq_take. Qed.

Lemma NoDup_fmap_take {A B} (f : A → B) k (l : list A) : NoDup (f <$> l) → NoDup (f <$> take k l).
Proof using Type. intros Hl. rw fmap_take. eapply sublist_NoDup; [exact Hl|apply sublist_take]. Qed.

(** The first pass was enough. *)
Lemma support_one_pass count :
  (length (take count F1) = Nat.min count (length nodes - length targets))%nat →
  support_result count (take count F1).
Proof using Hnd Htargets.
  intros Hlen. split; [|split; [|split; [done|]]].
  - apply NoDup_fmap_take, (filter_rot_nodup connected_ok).
  - intros n Hn%take_in%F1_in. tauto.
  - intros _ _ _ _ _ _ m Hm%take_in%F1_in. tauto.
Qed.

Lemma support_two_passes count :
  (length F1 < count)%nat → support_result count (F1 ++ take (count - length F1) F2).
Proof using Hnd Htargets.
  intros Hlen. pose proof F1_F2_length as Hl. split; [|split; [|split]].
  - rw fmap_app. apply list.NoDup_app. split; [apply (filter_rot_nodup connected_ok)|]. split.
    + intros x Hx (n & -> & Hn%take_in%F2_in)%list_elem_of_fmap. tauto.
    + apply NoDup_fmap_take,
        (filter_rot_nodup (λ x, not_target F1 x.2 && not_target targets x.2)).
  - intros n [Hn%F1_in|Hn%take_in%F2_in]%elem_of_app; tauto.
  - rw length_app length_take. lia.
  - intros i n Hi Hf Ht Hn. exfalso. apply Hn, elem_of_app. left. by eapply connected_in_rot.
Qed.

Lemma fill_spec count :
  (0 < count)%nat →
  let support_nodes :=
    fill_support (pick_connected first targets) nodes s count (seq 0 (length nodes)) [] in
  support_result count
    (if (length support_nodes <? count)%nat && (length support_nodes + length targets <? length nodes)%nat
     then fill_support (pick_any targets) nodes s count (seq 0 (length nodes)) support_nodes
     else support_nodes).
Proof using Hnd Htargets.
  intros Hc. cbv zeta. rw first_pass //. pose proof F1_F2_length as Hl.
  destruct (Nat.ltb_spec (length (take count F1)) count) as [Hlt|Hge]; simpl.
  - rw length_take in Hlt. rw take_ge; [lia|].
    destruct (Nat.ltb_spec (length F1 + length targets) (length nodes)) as [Hlt'|Hge'].
    + rw second_pass; [lia|]. apply support_two_passes. lia.
    + rw -(take_ge F1 count); [lia|]. apply support_one_pass. rw length_take. lia.
  - apply support_one_pass. rw length_take in Hge |- *. lia.
Qed.
End support.

Lemma vdisk_nodes_length replicas nodes : (length (vdisk_nodes replicas nodes) ≤ length nodes)%nat.
Proof. apply length_filter. Qed.

Lemma get_support_nodes_run v search first key count replicas :
  mapper_ok v → replicas_of v key replicas →
  ∃ r v', get_support_nodes search first key count v = Some (r, v') ∧
    support_result (vm_nodes v) (vdisk_nodes replicas (vm_nodes v)) first count r.
Proof.
  intros Hok Hrep. set (targets := vdisk_nodes replicas (vm_nodes v)).
  assert (∀ c, (c = 0 ∨ length (vm_nodes v) ≤ length targets)%nat →
    support_result (vm_nodes v) targets first c []) as Hempty.
  { intros c Hc. split; [constructor|]. split; [by intros n ?%elem_of_nil|]. split; [simpl; lia|].
    by intros _ _ _ _ _ _ m ?%elem_of_nil. }
  rw /get_support_nodes. destruct (Nat.eqb_spec count 0) as [->|Hc].
  { exists [], v. split; [done|]. apply Hempty. lia. }
  cbv iota. rw (bind_run _ _ _ v v) // (bind_run _ _ _ targets v);
    [by rw /expect (target_nodes_eq v key replicas Hok Hrep)|].
  destruct (Nat.leb_spec (length (vm_nodes v)) (length targets)) as [Hle|Hlt].
  { exists [], v. split; [done|]. apply Hempty. lia. }
  cbv iota. destruct (find_support_node_offset_total search (vm_nodes v) targets (vm_support_nodes_offset v))
    as (s & Hs & _); [destruct (vm_nodes v); [simpl in Hlt; lia|done]|].
  erewrite bind_run; [|reflexivity]. erewrite bind_run; [|by rw /expect Hs].
  set (v' := {| vm_local_node_name := _ |}).
  exists (if (length (fill_support (pick_connected first targets) (vm_nodes v) s count
                (seq 0 (length (vm_nodes v))) []) <? count)%nat && (length (fill_support
                (pick_connected first targets) (vm_nodes v) s count (seq 0 (length (vm_nodes v))) []) +
                length targets <? length (vm_nodes v))%nat
          then fill_support (pick_any targets) (vm_nodes v) s count (seq 0 (length (vm_nodes v)))
                 (fill_support (pick_connected first targets) (vm_nodes v) s count
                   (seq 0 (length (vm_nodes v))) [])
          else fill_support (pick_connected first targets) (vm_nodes v) s count
                 (seq 0 (length (vm_nodes v))) []), v'.
  split; [by destruct (_ && _)%bool|].
  eapply fill_spec; [apply (mok_index v Hok)|reflexivity|lia].
Qed.

(** ** Lemmas: uniform choice *)

Lemma length_filter_cases {A} (P Q : A → Prop) `{!∀ x, Decision (P x), !∀ x, Decision (Q x)} (l : list A) :
  length (filter P l) = (length (filter (λ x, P x ∧ Q x) l) + length (filter (λ x, P x ∧ ¬ Q x) l))%nat.
Proof.
  induction l as [|x l IH]; [done|]. rw !filter_cons.
  repeat case_decide; simpl; rw ?IH; first [lia|tauto].
Qed.

Section uniform.
Context (m a : Z) (Ha : 0 < a) (Ham : a ≤ m).

(** The offsets of one period that choose [j]. *)
Definition chosen (j : Z) : list Z := filter (λ o, pick_number o m a = j) (seqZ 0 (a * m)).

(** The involution that exchanges the two residues of an offset. *)
Definition swap (j r o : Z) : Z := (j + r - o) mod (a * m).

Lemma swap_bounds j r o : 0 ≤ swap j r o < a * m.
Proof using Ha Ham. apply Z.mod_pos_bound. nia. Qed.

Lemma mod_mul_r x n k : 0 < n → 0 < k → (x mod (n * k)) mod n = x mod n.
Proof using Type.
  intros Hn Hk. rw (Z.mod_eq x (n * k)); first nia.
  replace (x - n * k * (x / (n * k))) with (x + (- (k * (x / (n * k)))) * n) by lia.
  by rw Z.mod_add; first lia.
Qed.

Lemma swap_mod_a j r o : o mod a = j → 0 ≤ r < a → swap j r o mod a = r.
Proof using Ha Ham.
  intros Hj Hr. rw /swap mod_mul_r; try lia.
  replace (j + r - o) with (r + (- (o / a)) * a); [|pose proof (Z.div_mod o a ltac:(lia)); lia].
  rw Z.mod_add; first lia. by apply Z.mod_small.
Qed.

Lemma swap_mod_m j r o : o mod m = r → 0 ≤ j < m → swap j r o mod m = j.
Proof using Ha Ham.
  intros Hr Hj. rw /swap (Z.mul_comm a m) mod_mul_r; try lia.
  replace (j + r - o) with (j + (- (o / m)) * m); [|pose proof (Z.div_mod o m ltac:(lia)); lia].
  rw Z.mod_add; first lia. by apply Z.mod_small.
Qed.

Lemma swap_swap j r o : 0 ≤ o < a * m → swap j r (swap r j o) = o.
Proof using Ha Ham.
  intros Ho. rw /swap Zminus_mod_idemp_r.
  replace (j + r - (r + j - o)) with o by lia. by apply Z.mod_small.
Qed.

Lemma period_elem (P : Z → Prop) `{!∀ o, Decision (P o)} o :
  o ∈ filter P (seqZ 0 (a * m)) ↔ P o ∧ 0 ≤ o < a * m.
Proof using Type. rw list_elem_of_filter elem_of_seqZ. split; intros [? ?]; (split; [done|lia]). Qed.

Lemma period_nodup (P : Z → Prop) `{!∀ o, Decision (P o)} : NoDup (filter P (seqZ 0 (a * m))).
Proof using Type. apply list.NoDup_filter, NoDup_seqZ. Qed.

(** As many offsets are [j] modulo [m] as are [j] modulo [a] and below [a] modulo [m]. *)
Lemma exchange j :
  0 ≤ j < a →
  length (filter (λ o, o mod m = j) (seqZ 0 (a * m))) =
  length (filter (λ o, o mod a = j ∧ o mod m < a) (seqZ 0 (a * m))).
Proof using Ha Ham.
  intros Hj.
  rw -(length_fmap (λ o, swap j (o mod m) o) (filter (λ o, o mod a = j ∧ o mod m < a) _)).
  apply Permutation_length, NoDup_Permutation; [apply period_nodup| |].
  - apply NoDup_fmap_2_strong; [|apply period_nodup].
    intros o o' [[Ho Hom] Hb]%period_elem [[Ho' Hom'] Hb']%period_elem Heq.
    pose proof (Z.mod_pos_bound o m ltac:(lia)). pose proof (Z.mod_pos_bound o' m ltac:(lia)).
    assert (o mod m = o' mod m) as Hr.
    { rw -(swap_mod_a j (o mod m) o); try lia. rw -(swap_mod_a j (o' mod m) o'); try lia. by rw Heq. }
    rw -(swap_swap (o mod m) j o) // -(swap_swap (o mod m) j o') // Heq. by rw Hr.
  - intros x. rw period_elem list_elem_of_fmap. split.
    + intros [Hx Hb]. exists (swap (x mod a) j x).
      pose proof (Z.mod_pos_bound x a ltac:(lia)).
      assert (swap (x mod a) j x mod m = x mod a) as Hm by (apply swap_mod_m; lia).
      split; [by rw Hm swap_swap|]. rw period_elem Hm.
      split; [|apply swap_bounds]. split; [apply swap_mod_a; lia|lia].
    + intros (o & -> & [[Ho Hom] Hb]%period_elem). split; [|apply swap_bounds].
      apply swap_mod_m; [done|lia].
Qed.

Lemma residue_count j : 0 ≤ j < a → length (filter (λ o, o mod a = j) (seqZ 0 (a * m))) = Z.to_nat m.
Proof using Ha Ham.
  intros Hj. transitivity (length ((λ i, j + a * i) <$> seqZ 0 m)); [|by rw length_fmap length_seqZ].
  apply Permutation_length, NoDup_Permutation; [apply period_nodup| |].
  - apply NoDup_fmap_2_strong; [|apply NoDup_seqZ]. intros x y _ _. nia.
  - intros o. rw period_elem list_elem_of_fmap. setoid_rewrite elem_of_seqZ. split.
    + intros [Ho Hb]. exists (o / a). pose proof (Z.div_mod o a ltac:(lia)). split; [lia|].
      split; [apply Z.div_pos; lia|]. apply Z.div_lt_upper_bound; lia.
    + intros (i & -> & Hi). rw (Z.mul_comm a) Z.mod_add; first lia. rw Z.mod_small; [lia|nia].
Qed.

Lemma chosen_count j : 0 ≤ j < a → length (chosen j) = Z.to_nat m.
Proof using Ha Ham.
  intros Hj. rw -(residue_count j Hj) /chosen.
  rw (length_filter_cases (λ o, pick_number o m a = j) (λ o, o mod m < a)).
  rw (length_filter_cases (λ o, o mod a = j) (λ o, o mod m < a)) -exchange //. f_equal; f_equal.
  - apply list_filter_iff. intros o. rw /pick_number.
    generalize (o mod m) as x, (o mod a) as y. intros x y.
    destruct (Z.ltb_spec x a); intuition lia.
  - apply list_filter_iff. intros o. rw /pick_number.
    generalize (o mod m) as x, (o mod a) as y. intros x y.
    destruct (Z.ltb_spec x a); intuition lia.
Qed.
End uniform.

(** ** Lemmas: construction *)

Section construction.
Context `{UriParser}.

Lemma prepare_nodes_go_ok i l :
  0 ≤ i → i + Z.of_nat (length l) ≤ 2 ^ 16 →
  ∃ nodes, prepare_nodes_go i l = Some nodes ∧
    node_index <$> nodes = seqZ i (Z.of_nat (length l)) ∧ node_name <$> nodes = cn_name <$> l ∧
    node_address <$> nodes = cn_address <$> l.
Proof.
  revert i. induction l as [|conf l IH]; intros i Hi Hl; [by exists []|].
  cbn [length] in Hl |- *. rw Nat2Z.inj_succ in Hl.
  destruct (IH (i + 1)) as (nodes & Heq & Hidx & Hname & Haddr); [lia..|].
  simpl. rw (proj2 (Z.ltb_lt _ _)); first lia. rw Heq /=. eexists. split; [done|].
  rw !fmap_cons /= Hidx Hname Haddr. split; [|done].
  rw Nat2Z.inj_succ (seqZ_cons i); first lia. by rw Z.pred_succ.
Qed.

Lemma cluster_size_bound c :
  cluster_typed c → cluster_ok c → 0 < Z.of_nat (length (cl_vdisks c)) ≤ 2 ^ 32.
Proof.
  intros Hty Hok. set (n := Z.of_nat (length (cl_vdisks c))).
  assert (0 < n) by (pose proof (ok_vdisks c Hok); destruct (cl_vdisks c) eqn:E; [done|subst n; simpl; lia]).
  assert (u32 (n - 1)) as Hu; [|rw /u32 in Hu; lia].
  eapply (proj1 (list.Forall_forall _ _) Hty). rw (ok_ids c Hok). apply elem_of_seqZ. lia.
Qed.

Lemma resolved_Forall2 nodes (l : list Replica) (nds : list NodeDisk) nd :
  Forall2 (resolved nodes) l nds → nd ∈ nds → ∃ r, r ∈ l ∧ resolved nodes r nd.
Proof.
  intros Hall [i Hi]%list_elem_of_lookup.
  destruct (Forall2_lookup_r _ _ _ _ _ Hall Hi) as (r & Hr & Hres).
  exists r. by split; [eapply list_elem_of_lookup_2|].
Qed.

Lemma Virtual_new_ok config c :
  cluster_typed c → cluster_ok c → Z.of_nat (length (cl_nodes c)) ≤ 2 ^ 16 →
  cfg_name config ∈ cn_name <$> cl_nodes c →
  ∃ v, Virtual_new config c = Some v ∧ mapper_ok v ∧
    node_name <$> vm_nodes v = cn_name <$> cl_nodes c ∧
    node_address <$> vm_nodes v = cn_address <$> cl_nodes c ∧
    vm_local_node_name v = cfg_name config ∧
    (∀ cv, cv ∈ cl_vdisks c → ∃ nds, vm_vdisks v !! cv_id cv =
        Some (VDisk_new (cv_id cv) nds (vdisk_nodes nds (vm_nodes v))) ∧
      Forall2 (resolved (cl_nodes c)) (cv_replicas cv) nds).
Proof.
  intros Hty Hok Hn Hlocal.
  destruct (prepare_nodes_go_ok 0 (cl_nodes c)) as (nodes & Hnodes & Hidx & Hname & Haddr); [lia..|].
  destruct (collect_valid c Hok) as (m & Hm & Hcol & Hdom).
  rw /Virtual_new /prepare_nodes Hnodes /= /prepare_vdisks_map Hm /=.
  destruct (List.find _ nodes) as [local|] eqn:Hf.
  2: { exfalso. rw -Hname in Hlocal. apply list_elem_of_fmap in Hlocal as (n & Heq & Hin%list_elem_of_In).
       pose proof (find_none _ _ Hf n Hin) as Hb. simpl in Hb. by rw bool_decide_true in Hb. }
  assert (∀ id nds, m !! id = Some nds → map_imap (λ vdisk_id reps,
      Some (VDisk_new vdisk_id reps (vdisk_nodes reps nodes))) m !! id =
    Some (VDisk_new id nds (vdisk_nodes nds nodes))) as Hlook.
  { intros id nds Hid. by rw map_lookup_imap Hid. }
  assert (Z.of_nat (size (map_imap (λ vdisk_id reps,
      Some (VDisk_new vdisk_id reps (vdisk_nodes reps nodes))) m)) = Z.of_nat (length (cl_vdisks c))) as Hsize.
  { rw -size_dom (dom_imap_L _ _ (dom m)).
    - intros i. rw elem_of_dom. split; [intros [x Hx]; by exists x|by intros (x & Hx & _)].
    - rw Hdom size_list_to_set; [apply NoDup_seqZ|]. rw length_seqZ. lia. }
  eexists. split; [done|]. split; [|split_and!; try done].
  - constructor; simpl.
    + rw Hidx. apply NoDup_seqZ.
    + rw Hname. apply (ok_node_names c Hok).
    + by rw Hname.
    + rw Hsize. by apply cluster_size_bound.
    + intros id Hid. rw Hsize in Hid.
      assert (id ∈ cv_id <$> cl_vdisks c) as (cv & -> & Hcv)%list_elem_of_fmap.
      { rw (ok_ids c Hok). apply elem_of_seqZ. lia. }
      destruct (Hcol cv Hcv) as (nds & Hnds & Hall). exists nds. split; [by apply Hlook|]. split.
      * intros ->. apply Forall2_length in Hall.
        pose proof (proj1 (list.Forall_forall _ _) (ok_vdisk_each c Hok) cv Hcv) as [Hne _].
        by destruct (cv_replicas cv).
      * intros nd Hnd. destruct (resolved_Forall2 _ _ _ _ Hall Hnd) as (r & _ & Hnn & _ & n & _ & Hin & Hnr & _).
        rw Hname Hnn -Hnr. by apply list_elem_of_fmap_2.
  - intros cv Hcv. simpl. destruct (Hcol cv Hcv) as (nds & Hnds & Hall). eauto.
Qed.

End construction.

(** ** Lemmas: operations on a key *)

Lemma collect_local_disks_eq local replicas disks :
  collect_local_disks local replicas disks =
  match filter (λ r, nd_node_name r = local) replicas with
  | [] => disks
  | l => Some (default [] disks ++ (DiskPath_from <$> l))
  end.
Proof.
  revert disks. induction replicas as [|r replicas IH]; intros disks; [done|].
  simpl. rw IH filter_cons. case_decide; [|done]. simpl.
  destruct (filter _ replicas); [done|]. by rw -app_assoc.
Qed.

Lemma count_replica_foldl l acc name :
  default 0%nat (foldl count_replica acc l !! name) =
  (default 0%nat (acc !! name) + length (filter (λ r, nd_node_name r = name) l))%nat.
Proof.
  revert acc. induction l as [|r l IH]; intros acc; [simpl; lia|]. rw /= IH filter_cons.
  rw /count_replica. destruct (decide (nd_node_name r = name)) as [->|Hne].
  - destruct (acc !! name) as [c|]; rw lookup_insert_eq /=; lia.
  - destruct (acc !! nd_node_name r) as [c|]; rw lookup_insert_ne //.
Qed.

Lemma count_replica_pos l acc name n :
  (∀ name n, acc !! name = Some n → (0 < n)%nat) → foldl count_replica acc l !! name = Some n → (0 < n)%nat.
Proof.
  revert acc. induction l as [|r l IH]; intros acc Hacc; [by apply Hacc|]. apply IH.
  intros name' n'. rw /count_replica.
  destruct (acc !! nd_node_name r); intros [[_ <-]|[_ ?]]%lookup_insert_Some; eauto; lia.
Qed.

Lemma get_replicas_count_lookup v key replicas :
  mapper_ok v → replicas_of v key replicas →
  ∃ counts, get_replicas_count_by_node v key = Some counts ∧
    ∀ name, counts !! name =
      match length (filter (λ r, nd_node_name r = name) replicas) with O => None | n => Some n end.
Proof.
  intros Hok (Hget & _). rw /get_replicas_count_by_node vdisk_id_from_key_ok //=.
  rw /get_vdisk in Hget. rw Hget /=. eexists. split; [done|]. intros name.
  pose proof (count_replica_foldl replicas ∅ name) as Hc. rw lookup_empty /= in Hc.
  destruct (foldl count_replica ∅ replicas !! name) as [n|] eqn:Hl; simpl in Hc.
  - apply count_replica_pos in Hl; [|by intros ?? ?%lookup_empty_Some]. rw -Hc. by destruct n; [lia|].
  - by rw -Hc.
Qed.

Lemma get_operation_eq v key replicas :
  mapper_ok v → replicas_of v key replicas →
  get_operation v key = Some (from_le_bytes key mod Z.of_nat (size (vm_vdisks v)),
    match filter (λ r, nd_node_name r = vm_local_node_name v) replicas with
    | [] => None | l => Some (DiskPath_from <$> l) end).
Proof.
  intros Hok (Hget & _). rw /get_operation /get_vdisk_for_key vdisk_id_from_key_ok //= Hget /=.
  rw collect_local_disks_eq. by destruct (filter _ replicas).
Qed.

Lemma avail_positions_length conn targets i nodes :
  (length (avail_positions conn targets i nodes) ≤ length (filter (λ n, not_target targets n = true) nodes))%nat.
Proof.
  revert i. induction nodes as [|n nodes IH]; intros i; [done|]. rw filter_cons /=.
  specialize (IH (S i)). destruct (conn i), (not_target targets n); simpl; lia.
Qed.

Lemma avail_positions_nodup conn targets i nodes : NoDup (avail_positions conn targets i nodes).
Proof.
  revert i. induction nodes as [|n nodes IH]; intros i; simpl; [constructor|].
  destruct (_ && _); [|apply IH]. apply list.NoDup_cons. split; [|apply IH].
  intros Hin%avail_positions_bounds. lia.
Qed.

Lemma free_nodes_length nodes targets (P : Node → Prop) `{!∀ n, Decision (P n)} :
  NoDup (node_index <$> nodes) → targets = filter P nodes →
  length (filter (λ n, not_target targets n = true) nodes) = (length nodes - length targets)%nat.
Proof.
  intros Hnd Ht. rw (filter_ext_elem _ (λ n, ¬ P n)).
  - intros n Hn. by eapply (targets_in nodes).
  - pose proof (Permutation_length (filter_app_complement P nodes)) as Hl.
    rw length_app in Hl. rw Ht. lia.
Qed.

(** ** Theorems *)

(** The virtual disk of a key is the key, read as a little-endian number, modulo the
    number of virtual disks: the machine arithmetic never wraps. *)
Theorem get_vdisk_id_by_mod_spec key len :
  0 < len ≤ 2 ^ 32 → get_vdisk_id_by_mod key len = Some (from_le_bytes key mod len).
Proof. apply get_vdisk_id_by_mod_eq. Qed.

(** From a valid cluster configuration of at most 2^16 nodes that contains the local
    node, the mapper is built without aborting; it has the nodes of the configuration
    with distinct indices, and every virtual disk with its replicas, each on a node. *)
Theorem virtual_new_valid `{UriParser} config c :
  cluster_typed c → validate c = Ok tt → Z.of_nat (length (cl_nodes c)) ≤ 2 ^ 16 →
  cfg_name config ∈ cn_name <$> cl_nodes c →
  ∃ v, Virtual_new config c = Some v ∧ mapper_ok v ∧
    node_name <$> vm_nodes v = cn_name <$> cl_nodes c ∧
    node_address <$> vm_nodes v = cn_address <$> cl_nodes c ∧
    vm_local_node_name v = cfg_name config ∧
    (∀ cv, cv ∈ cl_vdisks c → ∃ nds, vm_vdisks v !! cv_id cv =
        Some (VDisk_new (cv_id cv) nds (vdisk_nodes nds (vm_nodes v))) ∧
      Forall2 (resolved (cl_nodes c)) (cv_replicas cv) nds).
Proof. intros Hty Hv%Cluster_validate_Ok; [by apply Virtual_new_ok|done]. Qed.

(** C26: For every key: the target nodes are exactly the nodes that hold a replica of its
    virtual disk; the local operation names that virtual disk, with one disk path per
    local replica, and none exactly when the local node is not a target. *)
Theorem key_placement v key :
  mapper_ok v →
  ∃ replicas targets id disks,
    replicas_of v key replicas ∧ vdisk_id_from_key v key = Some id ∧
    get_target_nodes_for_key v key = Some targets ∧ get_operation v key = Some (id, disks) ∧
    (∀ n, n ∈ targets ↔ n ∈ vm_nodes v ∧ ∃ r, r ∈ replicas ∧ nd_node_name r = node_name n) ∧
    targets ≠ [] ∧
    default [] disks = DiskPath_from <$> filter (λ r, nd_node_name r = vm_local_node_name v) replicas ∧
    (disks = None ↔ vm_local_node_name v ∉ node_name <$> targets).
Proof.
  intros Hok. destruct (replicas_of_key v key Hok) as [replicas Hrep].
  pose proof Hrep as (_ & Hne & Hon).
  do 4 eexists. split; [exact Hrep|]. split; [by apply vdisk_id_from_key_ok|].
  split; [by apply target_nodes_eq|]. split; [by apply get_operation_eq|].
  split; [intros n; apply vdisk_nodes_elem|].
  assert (∀ r, r ∈ replicas → ∃ n, n ∈ vdisk_nodes replicas (vm_nodes v) ∧ node_name n = nd_node_name r) as Hall.
  { intros r Hr. pose proof (Hon r Hr) as (n & Heq & Hn)%list_elem_of_fmap.
    exists n. rw vdisk_nodes_elem. eauto. }
  split; [|split].
  - destruct replicas as [|r replicas]; [done|]. destruct (Hall r) as (n & Hn & _); [by left|].
    intros Hnil. rw Hnil in Hn. by apply elem_of_nil in Hn.
  - by destruct (filter _ replicas).
  - destruct (filter (λ r, nd_node_name r = vm_local_node_name v) replicas) as [|r l] eqn:Hf.
    + split; [|done]. intros _ (n & Heq & [Hn (r & Hr & Hnr)]%vdisk_nodes_elem)%list_elem_of_fmap.
      assert (r ∈ []) as ?%elem_of_nil; [|done]. rw -Hf. apply list_elem_of_filter. split; [congruence|done].
    + split; [done|]. intros Hout. exfalso. apply Hout.
      assert (r ∈ filter (λ r, nd_node_name r = vm_local_node_name v) replicas) as
        [Hl Hr]%list_elem_of_filter by (rw Hf; left).
      destruct (Hall r Hr) as (n & Hn & Heq). rw -Hl -Heq. by apply list_elem_of_fmap_2.
Qed.

(** C25: Whatever the connections do while it runs, [get_support_nodes] returns: distinct
    nodes, none of them a target of the key, as many as asked for or as there are; and a
    disconnected node only when every connected candidate is taken. *)
Theorem get_support_nodes_spec v search first key count :
  mapper_ok v →
  ∃ targets r v', get_target_nodes_for_key v key = Some targets ∧
    get_support_nodes search first key count v = Some (r, v') ∧
    NoDup (node_index <$> r) ∧ (∀ n, n ∈ r → n ∈ vm_nodes v ∧ n ∉ targets) ∧
    length r = Nat.min count (length (vm_nodes v) - length targets) ∧
    (∀ i n, vm_nodes v !! i = Some n → first i = true → n ∉ targets → n ∉ r →
       ∀ m, m ∈ r → ∃ j, vm_nodes v !! j = Some m ∧ first j = true).
Proof.
  intros Hok. destruct (replicas_of_key v key Hok) as [replicas Hrep].
  destruct (get_support_nodes_run v search first key count replicas Hok Hrep) as (r & v' & Hrun & Hres).
  exists (vdisk_nodes replicas (vm_nodes v)), r, v'. split; [by apply target_nodes_eq|]. by split.
Qed.

(** While the connections are stable, aliens are spread evenly: with [a] available
    nodes among the [m] that are not targets, over [a * m] consecutive calls every
    available node is the starting node exactly [m] times. *)
Theorem support_choice_uniform v key targets conn p :
  mapper_ok v → get_target_nodes_for_key v key = Some targets →
  let A := avail_positions conn targets 0 (vm_nodes v) in
  let m := (length (vm_nodes v) - length targets)%nat in
  p ∈ A →
  length (filter (λ o, find_support_node_offset (λ _, conn) (vm_nodes v) targets o = Some p)
            (seqZ 0 (Z.of_nat (length A) * Z.of_nat m))) = m.
Proof.
  intros Hok Ht A m Hp. destruct (replicas_of_key v key Hok) as [replicas Hrep].
  rw (target_nodes_eq v key replicas Hok Hrep) in Ht. injection Ht as Ht.
  assert (A ≠ []) as HA by (intros Hnil; rw Hnil in Hp; by apply elem_of_nil in Hp).
  assert (0 < length A)%nat as Ha by (destruct A; [done|simpl; lia]).
  assert (length A ≤ m)%nat as Ham.
  { rw /m -(free_nodes_length (vm_nodes v) targets _ (mok_index v Hok) (eq_sym Ht)).
    apply avail_positions_length. }
  apply list_elem_of_lookup in Hp as [j Hj]. pose proof (lookup_lt_Some _ _ _ Hj) as Hjlt.
  pose proof (chosen_count (Z.of_nat m) (Z.of_nat (length A)) ltac:(lia) ltac:(lia)
    (Z.of_nat j) ltac:(lia)) as Hc.
  rw Nat2Z.id in Hc. rw -{2}Hc /chosen. f_equal. apply list_filter_iff. intros o.
  rw find_support_node_offset_stable //; [lia|]. rw -/A -/m.
  assert (0 ≤ pick_number o (Z.of_nat m) (Z.of_nat (length A)) < Z.of_nat (length A)) as Hb.
  { rw /pick_number. pose proof (Z.mod_pos_bound o (Z.of_nat m)).
    pose proof (Z.mod_pos_bound o (Z.of_nat (length A))).
    destruct (Z.ltb_spec (o mod Z.of_nat m) (Z.of_nat (length A))); lia. }
  split.
  - intros Hl. assert (Z.to_nat (pick_number o (Z.of_nat m) (Z.of_nat (length A))) = j) as <-; [|lia].
    eapply NoDup_lookup; [apply avail_positions_nodup|exact Hl|exact Hj].
  - intros ->. by rw Nat2Z.id.
Qed.

(** *** Witnesses *)

Lemma get_vdisk_id_by_mod_spec_witness :
  0 < 3 ≤ 2 ^ 32 ∧ get_vdisk_id_by_mod [x01; x01] 3 = Some (257 mod 3).
Proof. split; [lia|]. by apply (get_vdisk_id_by_mod_spec [x01; x01] 3). Defined.

Definition mapper_example : option Virtual := Virtual_new config_example cluster_example.

Lemma cluster_example_typed : cluster_typed cluster_example.
Proof. rw /cluster_typed /u32 /=. rw !list.Forall_cons Forall_nil_iff. by vm_compute. Qed.

Lemma mapper_example_ok : ∃ v, mapper_example = Some v ∧ mapper_ok v.
Proof.
  destruct (@Virtual_new_ok uri_example config_example cluster_example) as (v & Hv & Hok & _);
    [apply cluster_example_typed| |by vm_compute|by apply list_elem_of_In; vm_compute; tauto|by exists v].
  apply (@Cluster_validate_Ok uri_example); [apply cluster_example_typed|by vm_compute].
Qed.

Lemma virtual_new_valid_witness :
  cluster_typed cluster_example ∧ @validate _ (@Cluster_validate uri_example) cluster_example = Ok tt ∧
  ∃ v, Virtual_new config_example cluster_example = Some v ∧ mapper_ok v.
Proof.
  split; [apply cluster_example_typed|]. split; [by vm_compute|].
  destruct (@virtual_new_valid uri_example config_example cluster_example) as (v & Hv & Hok & _);
    [apply cluster_example_typed|by vm_compute|by vm_compute|by apply list_elem_of_In; vm_compute; tauto|by exists v].
Defined.

Lemma key_placement_witness :
  ∃ v, mapper_ok v ∧ ∃ id disks, get_operation v [x03] = Some (id, disks).
Proof.
  destruct mapper_example_ok as (v & _ & Hok). exists v. split; [done|].
  destruct (key_placement v [x03] Hok) as (_ & _ & id & disks & _ & _ & _ & Hop & _). eauto.
Defined.

Lemma get_support_nodes_spec_witness :
  ∃ v, mapper_ok v ∧ ∃ r v', get_support_nodes (λ _ _, true) (λ i, (i <? 2)%nat) [x03] 2 v = Some (r, v').
Proof.
  destruct mapper_example_ok as (v & _ & Hok). exists v. split; [done|].
  destruct (get_support_nodes_spec v (λ _ _, true) (λ i, (i <? 2)%nat) [x03] 2 Hok)
    as (_ & r & v' & _ & Hrun & _). eauto.
Defined.

Lemma support_choice_uniform_witness :
  ∃ v targets, mapper_ok v ∧ get_target_nodes_for_key v [x03] = Some targets ∧
    let A := avail_positions (λ _, true) targets 0 (vm_nodes v) in
    0%nat ∈ A ∧
    length (filter (λ o, find_support_node_offset (λ _ _, true) (vm_nodes v) targets o = Some 0%nat)
      (seqZ 0 (Z.of_nat (length A) * 2))) = 2%nat.
Proof.
  destruct mapper_example_ok as (v & Hv & Hok).
  assert (∃ targets, get_target_nodes_for_key v [x03] = Some targets ∧
    0%nat ∈ avail_positions (λ _, true) targets 0 (vm_nodes v) ∧
    (length (vm_nodes v) - length targets = 2)%nat) as (targets & Ht & Hin & Hm).
  { vm_compute in Hv. injection Hv as <-. eexists. split; [by vm_compute|].
    split; [by apply list_elem_of_In; vm_compute; tauto|by vm_compute]. }
  exists v, targets. split; [done|]. split; [done|]. split; [done|].
  pose proof (support_choice_uniform v [x03] targets (λ _, true) 0%nat Hok Ht Hin) as Hu.
  cbv zeta in Hu. by rw Hm in Hu.
Defined.
