(* ===== verification/Backend.v ===== *)
(** * Backend: local and alien storage of a node

    [bob-backend/src/core.rs].  The trait [BackendStorage] is the class of that name; the
    laws a storage owes the backend are the class [StorageLaws], against which the
    backend's theorems are proved.  Metrics, logging and the maintenance calls (filters,
    active blobs, shutdown) are not modelled. *)

From Corelib Require Import ssreflect.
From stdpp Require Import base option list strings gmap sets numbers.
From Stdlib Require Import Strings.Byte ZArith Lia.
From S2P Require Import Prelude Data Text Errors Options Node ClusterConfig NodeConfig Mapper.

(** ** Operations *)

Record Operation : Type := {
  op_vdisk_id : VDiskId;
  op_disk_path : option DiskPath;
  op_remote_node_name : option NodeName;
}.

#[global] Instance Operation_eq_dec : EqDecision Operation.
Proof. solve_decision. Defined.

Definition Operation_new_alien (vdisk_id : VDiskId) : Operation :=
  {| op_vdisk_id := vdisk_id; op_disk_path := None; op_remote_node_name := None |}.
Definition Operation_new_local (vdisk_id : VDiskId) (path : DiskPath) : Operation :=
  {| op_vdisk_id := vdisk_id; op_disk_path := Some path; op_remote_node_name := None |}.
Definition set_remote_node_name (name : NodeName) (op : Operation) : Operation :=
  {| op_vdisk_id := op_vdisk_id op; op_disk_path := op_disk_path op; op_remote_node_name := Some name |}.
Definition is_data_alien (op : Operation) : bool := bool_decide (op_disk_path op = None).
(** [None]: the [expect]. *)
Definition disk_name_local (op : Operation) : option DiskName := dp_name <$> op_disk_path op.

(** ** The trait [BackendStorage] *)

Class BackendStorage (W : Type) := {
  st_put : Operation → BobKey → BobData → M W (result unit Error);
  st_put_alien : Operation → BobKey → BobData → M W (result unit Error);
  st_get : Operation → BobKey → M W (result BobData Error);
  st_get_alien : Operation → BobKey → M W (result BobData Error);
  st_exist : Operation → list BobKey → M W (result (list bool) Error);
  st_exist_alien : Operation → list BobKey → M W (result (list bool) Error);
  st_delete : Operation → BobKey → BobMeta → M W (result Z Error);
  st_delete_alien : Operation → BobKey → BobMeta → bool → M W (result Z Error);
}.

(** ** [Backend] *)

Section backend.
Context {W : Type} `{BackendStorage W} (mapper : Virtual).

Definition put_single (key : BobKey) (data : BobData) (operation : Operation) : M W (result unit Error) :=
  if is_data_alien operation then st_put_alien operation key data
  else
    res ← st_put operation key data;
    match res with
    | Err local_err =>
        if negb (is_duplicate local_err) then
          _ ← expect (disk_name_local operation);
          let op := set_remote_node_name (vm_local_node_name mapper) operation in
          alien ← st_put_alien op key data;
          mret (result_map_err (λ alien_err, request_failed_completely local_err alien_err) alien)
        else mret res
    | Ok _ => mret res
    end.

(** The loop over the remote nodes stops at the first error. *)
Fixpoint put_remote_nodes (key : BobKey) (data : BobData) (vdisk_id : VDiskId) (nodes : list NodeName)
    : M W (result unit Error) :=
  match nodes with
  | [] => mret (Ok tt)
  | node_name :: rest =>
      let op := set_remote_node_name node_name (Operation_new_alien vdisk_id) in
      res ← put_single key data op;
      match res with
      | Err e => mret (Err e)
      | Ok _ => put_remote_nodes key data vdisk_id rest
      end
  end.

(** The loop over the local paths goes on, and keeps the last error. *)
Definition put_path (key : BobKey) (data : BobData) (vdisk_id : VDiskId) (res : result unit Error)
    (path : DiskPath) : M W (result unit Error) :=
  single ← put_single key data (Operation_new_local vdisk_id path);
  mret (match single with Err e => Err e | Ok _ => res end).

Definition Backend_put (key : BobKey) (data : BobData) (options : BobPutOptions) : M W (result unit Error) :=
  op ← expect (get_operation mapper key);
  let '(vdisk_id, disk_paths) := op in
  if put_to_alien options then put_remote_nodes key data vdisk_id (bpo_remote_nodes options)
  else
    match disk_paths with
    | Some paths => for_each (put_path key data vdisk_id) (Ok tt) paths
    | None => mret (Err internal)
    end.

Definition put_local (key : BobKey) (data : BobData) (operation : Operation) : M W (result unit Error) :=
  put_single key data operation.

Definition get_single (key : BobKey) (operation : Operation) : M W (result BobData Error) :=
  if is_data_alien operation then st_get_alien operation key
  else
    _ ← expect (disk_name_local operation);
    st_get operation key.

Definition get_local (key : BobKey) (op : Operation) : M W (result BobData Error) := get_single key op.

(** The first path that answers, or the last error. *)
Fixpoint get_paths (key : BobKey) (vdisk_id : VDiskId) (paths : list DiskPath) (error : option Error)
    : M W (BobData + option Error) :=
  match paths with
  | [] => mret (inr error)
  | path :: rest =>
      res ← get_local key (Operation_new_local vdisk_id path);
      match res with
      | Ok data => mret (inl data)
      | Err e => get_paths key vdisk_id rest (Some e)
      end
  end.

Definition Backend_get (key : BobKey) (options : BobGetOptions) : M W (result BobData Error) :=
  op ← expect (get_operation mapper key);
  let '(vdisk_id, disk_paths) := op in
  if get_all options then
    found ← match disk_paths with
            | Some paths => get_paths key vdisk_id paths None
            | None => mret (inr None)
            end;
    match found with
    | inl data => mret (Ok data)
    | inr _ => get_single key (Operation_new_alien vdisk_id)
    end
  else if get_normal options then
    match disk_paths with
    | Some paths =>
        found ← get_paths key vdisk_id paths None;
        match found with
        | inl data => mret (Ok data)
        | inr error => mret (Err (default (key_not_found key) error))
        end
    | None => mret (Err internal)
    end
  else if get_alien options then get_single key (Operation_new_alien vdisk_id)
  else mret (Err internal).

Definition find_operations (key : BobKey) (options : BobGetOptions) : option (list Operation) :=
  op ← get_operation mapper key;
  let '(vdisk_id, paths) := op : VDiskId * option (list DiskPath) in
  Some ((if get_normal options then
           match paths with
           | Some paths => Operation_new_local vdisk_id <$> paths
           | None => []
           end
         else []) ++
        (if get_alien options then [Operation_new_alien vdisk_id] else [])).

(** [entry(operation).and_modify(..).or_insert_with(..)] *)
Fixpoint add_key (op : Operation) (key : BobKey) (ind : nat)
    (l : list (Operation * (list BobKey * list nat))) : list (Operation * (list BobKey * list nat)) :=
  match l with
  | [] => [(op, ([key], [ind]))]
  | (op', (keys, indexes)) :: rest =>
      if decide (op' = op) then (op', (keys ++ [key], indexes ++ [ind])) :: rest
      else (op', (keys, indexes)) :: add_key op key ind rest
  end.

Fixpoint group_keys_go (options : BobGetOptions) (ind : nat) (keys : list BobKey)
    (acc : list (Operation * (list BobKey * list nat)))
    : option (list (Operation * (list BobKey * list nat))) :=
  match keys with
  | [] => Some acc
  | key :: rest =>
      operations ← find_operations key options;
      group_keys_go options (S ind) rest (foldl (λ acc op, add_key op key ind acc) acc operations)
  end.

Definition group_keys_by_operations (keys : list BobKey) (options : BobGetOptions)
    : option (list (Operation * (list BobKey * list nat))) := group_keys_go options 0 keys [].

(** [exist[ind] |= res] for the zip of the answers and the indexes. *)
Definition or_answers (exist : list bool) (res : list bool) (indexes : list nat) : list bool :=
  foldl (λ exist p, alter (orb p.1) p.2 exist) exist (zip res indexes).

Definition exist_group (exist : list bool) (group : Operation * (list BobKey * list nat)) : M W (list bool) :=
  let '(operation, (keys, indexes)) := group in
  res ← (if is_data_alien operation then st_exist_alien operation keys else st_exist operation keys);
  mret (match res with Ok res => or_answers exist res indexes | Err _ => exist end).

Definition Backend_exist `{!HashOrder} (keys : list BobKey) (options : BobGetOptions)
    : M W (result (list bool) Error) :=
  keys_by_id_and_path ← expect (group_keys_by_operations keys options);
  exist ← for_each exist_group (replicate (length keys) false) (hash_order keys_by_id_and_path);
  mret (Ok exist).

Definition delete_single (key : BobKey) (meta : BobMeta) (operation : Operation) (force_delete : bool)
    : M W (result Z Error) :=
  if is_data_alien operation then st_delete_alien operation key meta force_delete
  else
    _ ← expect (disk_name_local operation);
    st_delete operation key meta.

Definition delete_node (key : BobKey) (meta : BobMeta) (options : BobDeleteOptions) (vdisk_id : VDiskId)
    (errors : list Error) (node : Node) : M W (list Error) :=
  let force_delete := is_force_delete options (node_name node) in
  let op := set_remote_node_name (node_name node) (Operation_new_alien vdisk_id) in
  delete_res ← delete_single key meta op force_delete;
  mret (match delete_res with Err err => errors ++ [err] | Ok _ => errors end).

Definition delete_path (key : BobKey) (meta : BobMeta) (vdisk_id : VDiskId) (res : result unit Error)
    (path : DiskPath) : M W (result unit Error) :=
  single ← delete_single key meta (Operation_new_local vdisk_id path) true;
  mret (match single with Err e => Err e | Ok _ => res end).

Definition Backend_delete (key : BobKey) (meta : BobMeta) (options : BobDeleteOptions)
    : M W (result unit Error) :=
  op ← expect (get_operation mapper key);
  let '(vdisk_id, disk_paths) := op in
  if bdo_is_alien options then
    targets ← expect (get_target_nodes_for_key mapper key);
    errors ← for_each (delete_node key meta options vdisk_id) [] targets;
    mret (match errors with
          | [] => Ok tt
          | [err] => Err err
          | _ => Err (failed "Multiple errors detected")
          end)
  else
    match disk_paths with
    | Some paths => for_each (delete_path key meta vdisk_id) (Ok tt) paths
    | None => mret (Err internal)
    end.

Definition delete_local (key : BobKey) (meta : BobMeta) (operation : Operation) (force_delete : bool)
    : M W (result Z Error) := delete_single key meta operation force_delete.
End backend.

(** ** What the backend expects of a storage *)

Inductive Loc : Type :=
| LocLocal (vdisk : VDiskId) (disk : DiskName)
| LocAlien (vdisk : VDiskId) (node : NodeName).

(** The place an operation names; an alien operation needs the name of the node. *)
Definition op_loc (op : Operation) : option Loc :=
  match op_disk_path op with
  | Some p => Some (LocLocal (op_vdisk_id op) (dp_name p))
  | None => LocAlien (op_vdisk_id op) <$> op_remote_node_name op
  end.

(** [put_alien] and [delete_alien] always use the node's name. *)
Definition alien_loc (op : Operation) : option Loc :=
  LocAlien (op_vdisk_id op) <$> op_remote_node_name op.

(** [stored w loc k d]: a read of [k] at [loc] can return [d]. *)
Class StorageLaws (W : Type) `{BackendStorage W} := {
  stored : W → Loc → BobKey → BobData → Prop;
  law_put : ∀ op k d w w' loc,
    st_put op k d w = Some (Ok tt, w') → is_data_alien op = false → op_loc op = Some loc → stored w' loc k d;
  law_put_keeps : ∀ op k d w r w' loc k' d',
    st_put op k d w = Some (r, w') → k' ≠ k ∨ d' = d → stored w loc k' d' → stored w' loc k' d';
  law_put_alien : ∀ op k d w w' loc,
    st_put_alien op k d w = Some (Ok tt, w') → alien_loc op = Some loc → stored w' loc k d;
  law_put_alien_keeps : ∀ op k d w r w' loc k' d',
    st_put_alien op k d w = Some (r, w') → k' ≠ k ∨ d' = d → stored w loc k' d' → stored w' loc k' d';
  law_get : ∀ op k w d w' loc,
    st_get op k w = Some (Ok d, w') → is_data_alien op = false → op_loc op = Some loc → stored w loc k d;
  law_get_alien : ∀ op k w d w',
    st_get_alien op k w = Some (Ok d, w') → ∃ node, stored w (LocAlien (op_vdisk_id op) node) k d;
  law_get_keeps : ∀ op k w r w' loc k' d',
    st_get op k w = Some (r, w') → stored w' loc k' d' ↔ stored w loc k' d';
  law_get_alien_keeps : ∀ op k w r w' loc k' d',
    st_get_alien op k w = Some (r, w') → stored w' loc k' d' ↔ stored w loc k' d';
  law_exist : ∀ op ks w bs w' loc,
    st_exist op ks w = Some (Ok bs, w') → is_data_alien op = false → op_loc op = Some loc →
    ∀ j k, ks !! j = Some k → bs !! j = Some true ↔ ∃ d, stored w loc k d;
  law_exist_alien : ∀ op ks w bs w',
    st_exist_alien op ks w = Some (Ok bs, w') →
    ∀ j k, ks !! j = Some k → bs !! j = Some true ↔ ∃ node d, stored w (LocAlien (op_vdisk_id op) node) k d;
  law_exist_keeps : ∀ op ks w r w' loc k' d',
    st_exist op ks w = Some (r, w') → stored w' loc k' d' ↔ stored w loc k' d';
  law_exist_alien_keeps : ∀ op ks w r w' loc k' d',
    st_exist_alien op ks w = Some (r, w') → stored w' loc k' d' ↔ stored w loc k' d';
  law_delete : ∀ op k m w n w' loc,
    st_delete op k m w = Some (Ok n, w') → is_data_alien op = false → op_loc op = Some loc →
    ∀ d, ¬ stored w' loc k d;
  law_delete_keeps : ∀ op k m w r w' loc k' d',
    st_delete op k m w = Some (r, w') →
    (stored w' loc k' d' → stored w loc k' d') ∧ (k' ≠ k → stored w loc k' d' → stored w' loc k' d');
  law_delete_alien : ∀ op k m f w n w' loc,
    st_delete_alien op k m f w = Some (Ok n, w') → alien_loc op = Some loc → ∀ d, ¬ stored w' loc k d;
  law_delete_alien_keeps : ∀ op k m f w r w' loc k' d',
    st_delete_alien op k m f w = Some (r, w') →
    (stored w' loc k' d' → stored w loc k' d') ∧ (k' ≠ k → stored w loc k' d' → stored w' loc k' d');
}.

(** A storage whose reads neither abort nor fail when there is something to find. *)
Class ReliableReads (W : Type) `{StorageLaws W} := {
  rel_get : ∀ op k w, is_data_alien op = false → ∃ r w', st_get op k w = Some (r, w') ∧
    ((∃ loc d, op_loc op = Some loc ∧ stored w loc k d) → is_ok r = true);
  rel_get_alien : ∀ op k w, ∃ r w', st_get_alien op k w = Some (r, w') ∧
    ((∃ node d, stored w (LocAlien (op_vdisk_id op) node) k d) → is_ok r = true);
  (** The answers of an [exist] that fails are all no. *)
  rel_exist : ∀ op ks w, is_data_alien op = false → ∃ r w', st_exist op ks w = Some (r, w') ∧
    (is_err r = true → ∀ loc k d, op_loc op = Some loc → k ∈ ks → ¬ stored w loc k d);
  rel_exist_alien : ∀ op ks w, ∃ r w', st_exist_alien op ks w = Some (r, w') ∧
    (is_err r = true → ∀ node k d, k ∈ ks → ¬ stored w (LocAlien (op_vdisk_id op) node) k d);
}.

(** ** Lemmas *)

Section laws.
Context {W : Type} `{StorageLaws W} (mapper : Virtual).

Lemma op_loc_new_local id path :
  op_loc (Operation_new_local id path) = Some (LocLocal id (dp_name path)).
Proof. done. Qed.

Lemma alien_loc_remote id node :
  alien_loc (set_remote_node_name node (Operation_new_alien id)) = Some (LocAlien id node).
Proof. done. Qed.

(** *** put *)

(** What one put leaves untouched. *)
Definition keeps (k : BobKey) (d : BobData) (w w' : W) : Prop :=
  ∀ loc k' d', k' ≠ k ∨ d' = d → stored w loc k' d' → stored w' loc k' d'.

Lemma keeps_refl k d w : keeps k d w w.
Proof. by intros loc k' d' _. Qed.

Lemma keeps_trans k d w1 w2 w3 : keeps k d w1 w2 → keeps k d w2 w3 → keeps k d w1 w3.
Proof. intros H12 H23 loc k' d' Hk Hs. eauto. Qed.

Lemma put_single_local k d id path w :
  wlp (put_single mapper k d (Operation_new_local id path))
    (λ r w', keeps k d w w' ∧ (r = Ok tt → stored w' (LocLocal id (dp_name path)) k d ∨
                               stored w' (LocAlien id (vm_local_node_name mapper)) k d)) w.
Proof.
  rw /put_single. change (is_data_alien (Operation_new_local id path)) with false. cbv iota.
  apply wpx_bind. rw /wpx. destruct (st_put _ _ _ w) as [[[[]|e] w1]|] eqn:Hput; [| |done].
  - split; [intros loc k' d'; by eapply law_put_keeps|]. intros _. left.
    by eapply law_put.
  - assert (keeps k d w w1) as Hk1 by (intros loc k' d'; by eapply law_put_keeps).
    destruct (negb (is_duplicate e)); [|split; [done|by intros]].
    rw /mbind /M_bind /expect /=.
    destruct (st_put_alien _ _ _ w1) as [[[[]|e'] w2]|] eqn:Hal; [| |done]; simpl.
    + split; [eapply keeps_trans; [done|intros loc k' d'; by eapply law_put_alien_keeps]|].
      intros _. right. by eapply law_put_alien.
    + split; [eapply keeps_trans; [done|intros loc k' d'; by eapply law_put_alien_keeps]|done].
Qed.

Lemma put_single_remote k d id node w :
  wlp (put_single mapper k d (set_remote_node_name node (Operation_new_alien id)))
    (λ r w', keeps k d w w' ∧ (r = Ok tt → stored w' (LocAlien id node) k d)) w.
Proof.
  rw /put_single. change (is_data_alien _) with true. cbv iota. rw /wpx.
  destruct (st_put_alien _ _ _ w) as [[r w1]|] eqn:Hal; [|done].
  split; [intros loc k' d'; by eapply law_put_alien_keeps|]. intros ->. by eapply law_put_alien.
Qed.

Lemma put_remote_nodes_stored k d id nodes w :
  wlp (put_remote_nodes mapper k d id nodes)
    (λ r w', keeps k d w w' ∧ (r = Ok tt → ∀ node, node ∈ nodes → stored w' (LocAlien id node) k d)) w.
Proof.
  revert w. induction nodes as [|node nodes IH]; intros w; simpl.
  - split; [apply keeps_refl|]. by intros _ node ?%elem_of_nil.
  - apply wpx_bind. eapply wpx_mono; [apply put_single_remote|].
    intros [[]|e] w1 [Hk1 Hs1]; [|by split].
    eapply wpx_mono; [apply IH|]. intros r w2 [Hk2 Hs2].
    split; [by eapply keeps_trans|]. intros Hr node' [->|Hin]%elem_of_cons; [|by apply Hs2].
    apply Hk2; [by right|]. by apply Hs1.
Qed.

Lemma put_paths_stored k d id paths w :
  wlp (for_each (put_path mapper k d id) (Ok tt) paths)
    (λ r w', keeps k d w w' ∧ (r = Ok tt → ∀ path, path ∈ paths →
       stored w' (LocLocal id (dp_name path)) k d ∨
       stored w' (LocAlien id (vm_local_node_name mapper)) k d)) w.
Proof.
  apply (wpx_for_each _ _ _ (λ done r w', keeps k d w w' ∧ (r = Ok tt → ∀ path, path ∈ done →
       stored w' (LocLocal id (dp_name path)) k d ∨
       stored w' (LocAlien id (vm_local_node_name mapper)) k d))).
  - split; [apply keeps_refl|]. by intros _ path ?%elem_of_nil.
  - intros pre path rest r w1 _ [Hk Hs]. rw /put_path. apply wpx_bind.
    eapply wpx_mono; [apply put_single_local|]. intros [[]|e] w2 [Hk2 Hs2]; simpl;
      (split; [by eapply keeps_trans|]); [|done].
    intros Hr path' [Hin| ->%list_elem_of_singleton]%elem_of_app; [|by apply Hs2].
    destruct (Hs Hr path' Hin) as [Hl|Hl]; [left|right]; apply Hk2; auto.
Qed.

(** *** get *)

(** Reading changes nothing that can be read. *)
Definition same_store (w w' : W) : Prop := ∀ loc k d, stored w' loc k d ↔ stored w loc k d.

Lemma get_paths_sound k id paths err w :
  wlp (get_paths k id paths err)
    (λ r w', same_store w w' ∧
       ∀ d, r = inl d → ∃ path, path ∈ paths ∧ stored w (LocLocal id (dp_name path)) k d) w.
Proof.
  revert err w. induction paths as [|path paths IH]; intros err w; simpl.
  - split; [by intros loc k' d|done].
  - apply wpx_bind. rw /get_local /get_single /=. change (bool_decide _) with false. cbv iota.
    apply wpx_bind. eapply wpx_expect; [done|]. rw /wpx.
    destruct (st_get _ _ w) as [[[d|e] w1]|] eqn:Hg; [| |done]; simpl.
    + split; [intros loc k' d'; by eapply law_get_keeps|].
      intros d' [= <-]. exists path. split; [by left|]. by eapply law_get.
    + specialize (IH (Some e) w1). rw /wpx in IH.
      destruct (get_paths k id paths (Some e) w1) as [[r w2]|]; [|done].
      destruct IH as [Hs Hd].
      assert (same_store w w1) as Hs1 by (intros loc k' d'; by eapply law_get_keeps).
      split; [intros loc k' d'; by rw (Hs loc k' d')|].
      intros d Hr. destruct (Hd d Hr) as (p & Hp & Hst). exists p. split; [by right|by apply Hs1].
Qed.

Lemma get_alien_sound k id w :
  wlp (get_single k (Operation_new_alien id))
    (λ r w', same_store w w' ∧ ∀ d, r = Ok d → ∃ node, stored w (LocAlien id node) k d) w.
Proof.
  rw /get_single /=. change (bool_decide _) with true. cbv iota. rw /wpx.
  destruct (st_get_alien _ _ w) as [[r w1]|] eqn:Hg; [|done].
  split; [intros loc k' d'; by eapply law_get_alien_keeps|]. intros d ->.
  by apply (law_get_alien (Operation_new_alien id) k w d w1).
Qed.

(** The places a read looks at. *)
Definition searched (key : BobKey) (options : BobGetOptions) (loc : Loc) : Prop :=
  ∃ id paths, get_operation mapper key = Some (id, paths) ∧
    ((get_normal options = true ∧ ∃ path, path ∈ default [] paths ∧ loc = LocLocal id (dp_name path)) ∨
     (get_alien options = true ∧ ∃ node, loc = LocAlien id node)).

Lemma get_options_cases options :
  get_all options = true ∧ get_normal options = true ∧ get_alien options = true ∨
  get_all options = false ∧ get_normal options = true ∧ get_alien options = false ∨
  get_all options = false ∧ get_normal options = false ∧ get_alien options = true.
Proof. rw /get_all /get_normal /get_alien. destruct (bgo_get_source options); vm_compute; tauto. Qed.

Lemma Backend_get_sound key options w :
  wlp (Backend_get mapper key options)
    (λ r w', same_store w w' ∧ ∀ d, r = Ok d → ∃ loc, searched key options loc ∧ stored w loc key d) w.
Proof.
  rw /Backend_get. apply wpx_bind. rw {1}/wpx /expect.
  destruct (get_operation mapper key) as [[id paths]|] eqn:Hop; [|done].
  assert (∀ d, (∃ node, stored w (LocAlien id node) key d) → get_alien options = true →
    ∃ loc, searched key options loc ∧ stored w loc key d) as Hal.
  { intros d (node & Hs) Ha. exists (LocAlien id node). split; [|done].
    exists id, paths. split; [done|]. right. eauto. }
  assert (∀ d, (∃ path, path ∈ default [] paths ∧ stored w (LocLocal id (dp_name path)) key d) →
    get_normal options = true → ∃ loc, searched key options loc ∧ stored w loc key d) as Hloc.
  { intros d (path & Hp & Hs) Hn. exists (LocLocal id (dp_name path)). split; [|done].
    exists id, paths. split; [done|]. left. eauto. }
  destruct (get_options_cases options) as [(-> & Hn & Ha)|[(-> & Hn & Ha)|(-> & Hn & Ha)]].
  - apply wpx_bind.
    assert (wlp (match paths with Some ps => get_paths key id ps None | None => mret (inr None) end)
      (λ r w', same_store w w' ∧ ∀ d, r = inl d →
         ∃ path, path ∈ default [] paths ∧ stored w (LocLocal id (dp_name path)) key d) w) as Hf.
    { destruct paths as [ps|]; [apply get_paths_sound|]. by split; [intros loc k d|]. }
    eapply wpx_mono; [exact Hf|]. intros [d|e] w1 [Hs Hd].
    + split; [done|]. intros d' [= <-]. auto.
    + eapply wpx_mono; [apply get_alien_sound|]. intros r w2 [Hs2 Hd2].
      split; [intros loc k d; by rw (Hs2 loc k d)|]. intros d Hr.
      destruct (Hd2 d Hr) as (node & Hst). apply Hal; [|done]. exists node. by apply Hs.
  - rw Hn. destruct paths as [ps|].
    + apply wpx_bind. eapply wpx_mono; [apply get_paths_sound|]. intros [d|e] w1 [Hs Hd].
      * split; [done|]. intros d' [= <-]. auto.
      * by split.
    + by split; [intros loc k d|].
  - rw Hn Ha. eapply wpx_mono; [apply get_alien_sound|]. intros r w1 [Hs Hd]. split; [done|]. eauto.
Qed.

(** *** exist *)

Definition groups := list (Operation * (list BobKey * list nat)).

(** The entry of a key in the groups. *)
Definition entry_in (groups : groups) (op : Operation) (i : nat) (k : BobKey) : Prop :=
  ∃ ks ids j, (op, (ks, ids)) ∈ groups ∧ ids !! j = Some i ∧ ks !! j = Some k.

Definition group_lengths (l : groups) : Prop := ∀ op ks ids, (op, (ks, ids)) ∈ l → length ks = length ids.

Lemma add_key_lengths op k i l : group_lengths l → group_lengths (add_key op k i l).
Proof.
  intros Hl. induction l as [|[op' [ks ids]] l IH]; intros o ks' ids'; simpl.
  - intros Hin%list_elem_of_singleton. by simplify_eq.
  - case_decide.
    + intros [Heq|Hin]%elem_of_cons; [simplify_eq|apply (Hl o); by right].
      rw !length_app. f_equal. apply (Hl op). by left.
    + intros [Heq|Hin]%elem_of_cons; [simplify_eq; apply (Hl op'); by left|].
      apply (IH ltac:(intros ????; eapply Hl; by right) o ks' ids' Hin).
Qed.

Lemma entry_in_cons g l o i k : entry_in (g :: l) o i k ↔ entry_in [g] o i k ∨ entry_in l o i k.
Proof.
  rw /entry_in. setoid_rewrite elem_of_cons. split.
  - intros (ks & ids & j & [Hg|Hg] & Hi & Hk); [left|right]; do 3 eexists; (split; [|done]); auto.
  - intros [(ks & ids & j & [Hg|Hg] & Hi & Hk)|(ks & ids & j & Hg & Hi & Hk)];
      [|by apply elem_of_nil in Hg|]; do 3 eexists; (split; [|done]); auto.
Qed.

Lemma entry_in_one op ks ids o i k :
  entry_in [(op, (ks, ids))] o i k ↔ o = op ∧ ∃ j, ids !! j = Some i ∧ ks !! j = Some k.
Proof.
  rw /entry_in. setoid_rewrite list_elem_of_singleton. split.
  - intros (ks' & ids' & j & ? & ? & ?). simplify_eq. eauto.
  - intros [-> (j & ? & ?)]. eauto 10.
Qed.

Lemma lookup_snoc_both {A B} (l : list A) (l' : list B) a b x y :
  length l = length l' →
  (∃ j, (l ++ [a]) !! j = Some x ∧ (l' ++ [b]) !! j = Some y) ↔
  (∃ j, l !! j = Some x ∧ l' !! j = Some y) ∨ (x = a ∧ y = b).
Proof.
  intros Hlen. setoid_rewrite lookup_snoc_Some. split.
  - intros (j & [[? ?]|[? ?]] & [[? ?]|[? ?]]); [left; eauto|lia|lia|right; auto].
  - intros [(j & Hx & Hy)|[-> ->]].
    + exists j. apply lookup_lt_Some in Hx as Hlx. apply lookup_lt_Some in Hy as Hly. auto.
    + exists (length l). auto.
Qed.

Lemma add_key_entry op k i l o i' k' :
  group_lengths l →
  entry_in (add_key op k i l) o i' k' ↔ entry_in l o i' k' ∨ (o = op ∧ i' = i ∧ k' = k).
Proof.
  intros Hl. induction l as [|[op' [ks ids]] l IH]; simpl.
  - rw entry_in_one /entry_in. split.
    + intros [-> (j & Hi & Hk)]. right. destruct j; simplify_eq/=; done.
    + intros [(? & ? & ? & ?%elem_of_nil & _)|(-> & -> & ->)]; [done|]. split; [done|]. by exists 0%nat.
  - assert (length ks = length ids) as Hlen by (eapply (Hl op'); by left).
    case_decide as Heq; [subst op'|].
    + rw (entry_in_cons (op, (ks ++ [k], ids ++ [i]))) (entry_in_cons (op, (ks, ids))) !entry_in_one.
      rw lookup_snoc_both; [done|]. naive_solver.
    + rw (entry_in_cons _ (add_key _ _ _ _)) (entry_in_cons _ l) IH; [|naive_solver].
      intros ????. eapply Hl. by right.
Qed.

Lemma foldl_add_key ops k i l :
  group_lengths l →
  let l' := foldl (λ acc op, add_key op k i acc) l ops in
  group_lengths l' ∧ ∀ o i' k', entry_in l' o i' k' ↔ entry_in l o i' k' ∨ (o ∈ ops ∧ i' = i ∧ k' = k).
Proof.
  revert l. induction ops as [|op ops IH]; intros l Hl; simpl.
  - split; [done|]. intros. rw elem_of_nil. naive_solver.
  - destruct (IH (add_key op k i l) (add_key_lengths op k i l Hl)) as [Hl' He].
    split; [done|]. intros o i' k'. rw He add_key_entry // elem_of_cons. naive_solver.
Qed.

Lemma group_keys_go_spec options ind keys acc groups :
  group_keys_go mapper options ind keys acc = Some groups → group_lengths acc →
  group_lengths groups ∧ ∀ o i k, entry_in groups o i k ↔ entry_in acc o i k ∨
    ∃ ops j, keys !! j = Some k ∧ i = (ind + j)%nat ∧ find_operations mapper k options = Some ops ∧ o ∈ ops.
Proof.
  revert ind acc. induction keys as [|key keys IH]; intros ind acc; simpl.
  - intros [= <-] Hl. split; [done|]. naive_solver.
  - destruct (find_operations mapper key options) as [ops|] eqn:Hops; [|done]. simpl.
    intros Hgo Hl. destruct (foldl_add_key ops key ind acc Hl) as [Hl' He].
    destruct (IH _ _ Hgo Hl') as [Hg Hall]. split; [done|]. intros o i k. rw Hall He.
    split.
    + intros [[Hin|(Ho & -> & ->)]|(ops' & j & Hj & -> & Hf & Ho)]; [by left| |].
      * right. exists ops, 0%nat. split; [done|]. split; [lia|done].
      * right. exists ops', (S j). split; [done|]. split; [lia|done].
    + intros [Hin|(ops' & [|j] & Hj & -> & Hf & Ho)]; [by left; left| |].
      * simplify_eq/=. left. right. rw Nat.add_0_r. done.
      * right. exists ops', j. split; [done|]. split; [lia|done].
Qed.

Lemma or_answers_length ex res ids : length (or_answers ex res ids) = length ex.
Proof.
  rw /or_answers. revert ex. generalize (zip res ids) as l. intros l.
  induction l as [|p l IH]; intros ex; simpl; [done|]. by rw IH length_alter.
Qed.

Lemma or_answers_lookup ex res ids i :
  or_answers ex res ids !! i = Some true ↔
  ex !! i = Some true ∨ ((i < length ex)%nat ∧ ∃ j, ids !! j = Some i ∧ res !! j = Some true).
Proof.
  rw /or_answers. revert ex ids. induction res as [|r res IH]; intros ex ids; simpl.
  - split; [by left|]. intros [?|(_ & j & _ & ?)]; done.
  - destruct ids as [|n ids]; simpl.
    + split; [by left|]. intros [?|(_ & j & ? & _)]; done.
    + rw IH length_alter /=. destruct (decide (n = i)) as [->|Hne].
      * rw list_lookup_alter_eq. split.
        -- intros [Hx|(Hlt & j & Hj & Hr)]; [|right; split; [done|]; by exists (S j)].
           destruct (ex !! i) as [b|] eqn:Hb; simplify_eq/=.
           destruct b; [by left|]. right. split; [by eapply lookup_lt_Some|]. exists 0%nat.
           simpl. by destruct r.
        -- intros [Hx|(Hlt & [|j] & Hj & Hr)]; simplify_eq/=.
           ++ left. rw Hx /=. by rw orb_true_r.
           ++ left. destruct (lookup_lt_is_Some_2 _ _ Hlt) as [b ->]. done.
           ++ right. split; [done|]. by exists j.
      * rw list_lookup_alter_ne //. split.
        -- intros [Hx|(Hlt & j & Hj & Hr)]; [by left|right; split; [done|]; by exists (S j)].
        -- intros [Hx|(Hlt & [|j] & Hj & Hr)]; [by left|simplify_eq/=|right; split; [done|]; by exists j].
Qed.

(** What the answers of one operation say. *)
Definition op_stored (w : W) (op : Operation) (k : BobKey) : Prop :=
  if is_data_alien op then ∃ node d, stored w (LocAlien (op_vdisk_id op) node) k d
  else ∃ loc d, op_loc op = Some loc ∧ stored w loc k d.

Lemma is_data_alien_loc op : is_data_alien op = false → ∃ loc, op_loc op = Some loc.
Proof.
  rw /is_data_alien bool_decide_eq_false /op_loc. destruct (op_disk_path op); [eauto|done].
Qed.

Lemma exist_group_sound w0 ex op ks ids w :
  same_store w0 w → length ks = length ids →
  wlp (exist_group ex (op, (ks, ids)))
    (λ ex' w', same_store w0 w' ∧ length ex' = length ex ∧
       (∀ i, ex !! i = Some true → ex' !! i = Some true) ∧
       ∀ i, ex' !! i = Some true → ex !! i = Some true ∨ ∃ j k, ids !! j = Some i ∧ ks !! j = Some k ∧
         op_stored w0 op k) w.
Proof.
  intros Hs Hlen. rw /exist_group. apply wpx_bind.
  assert (wlp (if is_data_alien op then st_exist_alien op ks else st_exist op ks)
    (λ r w', same_store w0 w' ∧ ∀ bs, r = Ok bs → ∀ j k, ks !! j = Some k →
       bs !! j = Some true → op_stored w0 op k) w) as Hex.
  { rw /op_stored /wpx. destruct (is_data_alien op) eqn:Ha.
    - destruct (st_exist_alien op ks w) as [[r w1]|] eqn:Hst; [|done]. split.
      + intros loc k d. rw (law_exist_alien_keeps _ _ _ _ _ loc k d Hst). apply Hs.
      + intros bs -> j k Hk Hb. apply (law_exist_alien _ _ _ _ _ Hst j k Hk) in Hb as (n & d & Hd).
        exists n, d. by apply Hs.
    - destruct (st_exist op ks w) as [[r w1]|] eqn:Hst; [|done]. split.
      + intros loc k d. rw (law_exist_keeps _ _ _ _ _ loc k d Hst). apply Hs.
      + intros bs -> j k Hk Hb. destruct (is_data_alien_loc op Ha) as [loc Hloc].
        pose proof (proj1 (law_exist _ _ _ _ _ _ Hst Ha Hloc j k Hk) Hb) as (d0 & Hd).
        exists loc, d0. split; [done|]. by apply Hs. }
  eapply wpx_mono; [exact Hex|]. intros [bs|e] w1 [Hs1 Hb]; apply wpx_ret.
  - split; [done|]. rw or_answers_length. split; [done|]. setoid_rewrite or_answers_lookup.
    split; [by left|]. intros i [Hi|(_ & j & Hj & Hbs)]; [by left|right].
    destruct (lookup_lt_is_Some_2 ks j) as [k Hk]; [rw Hlen; by eapply lookup_lt_Some|].
    exists j, k. eauto.
  - split; [done|]. split; [done|]. split; [done|]. by left.
Qed.

(** Every answer yes of [exist] is backed by a stored record. *)
Lemma Backend_exist_sound `{!HashOrder} keys options w :
  wlp (Backend_exist mapper keys options)
    (λ r w', same_store w w' ∧ ∃ bs, r = Ok bs ∧ length bs = length keys ∧
       ∀ i, bs !! i = Some true → ∃ k loc d, keys !! i = Some k ∧ searched k options loc ∧ stored w loc k d) w.
Proof.
  rw /Backend_exist. apply wpx_bind. rw {1}/wpx /expect.
  destruct (group_keys_by_operations mapper keys options) as [groups|] eqn:Hg; [|done].
  destruct (group_keys_go_spec _ _ _ _ _ Hg) as [Hlen Hent]; [by intros ??? ?%elem_of_nil|].
  apply wpx_bind. eapply wpx_mono; [apply (wpx_for_each _ _ _ (λ done ex w', same_store w w' ∧
    length ex = length keys ∧ ∀ i, ex !! i = Some true → ∃ op k, entry_in groups op i k ∧ op_stored w op k))| ].
  - split; [by intros loc k d|]. rw length_replicate. split; [done|].
    intros i [? _]%lookup_replicate. done.
  - intros pre [op [ks ids]] rest ex w1 Hl (Hs & Hle & Hi).
    assert ((op, (ks, ids)) ∈ groups) as Hin.
    { rw -(hash_order_perm groups) Hl. set_solver. }
    eapply wpx_mono; [by apply (exist_group_sound w); [|eapply Hlen]|].
    intros ex' w2 (Hs2 & Hle2 & _ & Hi2). split; [done|]. split; [congruence|].
    intros i [Hx|(j & k & Hj & Hk & Hst)]%Hi2; [by apply Hi|].
    exists op, k. split; [|done]. by exists ks, ids, j.
  - intros bs w1 (Hs & Hle & Hi). apply wpx_ret. split; [done|]. exists bs. split; [done|].
    split; [done|]. intros i Hb. destruct (Hi i Hb) as (op & k & Hin & Hst).
    apply Hent in Hin as [(? & ? & ? & ?%elem_of_nil & _)|(ops & j & Hk & -> & Hf & Ho)]; [done|].
    assert (∃ loc d, searched k options loc ∧ stored w loc k d) as (loc & d & Hse & Hd);
      [|by exists k, loc, d].
    rw /find_operations in Hf. rw /searched.
    destruct (get_operation mapper k) as [[id paths]|]; [|done]. simplify_eq/=.
    apply elem_of_app in Ho as [Ho|Ho].
    + destruct (get_normal options) eqn:Hn; [|by apply elem_of_nil in Ho].
      destruct paths as [paths|]; [|by apply elem_of_nil in Ho].
      apply list_elem_of_fmap in Ho as (path & -> & Hp). destruct Hst as (loc & d & Hloc & Hd).
      rw op_loc_new_local in Hloc. simplify_eq.
      exists (LocLocal id (dp_name path)), d. split; [|done]. exists id, (Some paths).
      split; [done|]. left. eauto.
    + destruct (get_alien options) eqn:Ha; [|by apply elem_of_nil in Ho].
      apply list_elem_of_singleton in Ho as ->. destruct Hst as (node & d & Hd).
      exists (LocAlien id node), d. split; [|done]. exists id, paths. split; [done|]. right. eauto.
Qed.
End laws.

Section delete.
Context {W : Type} `{StorageLaws W} (mapper : Virtual).

(** What a delete can do to the store: remove records of the key. *)
Definition only_removes (k : BobKey) (w w' : W) : Prop :=
  ∀ loc k' d', (stored w' loc k' d' → stored w loc k' d') ∧
    (k' ≠ k → stored w loc k' d' → stored w' loc k' d').

Lemma only_removes_refl k w : only_removes k w w.
Proof. by intros loc k' d'. Qed.

Lemma only_removes_trans k w1 w2 w3 : only_removes k w1 w2 → only_removes k w2 w3 → only_removes k w1 w3.
Proof. intros H12 H23 loc k' d'. destruct (H12 loc k' d') as [A B], (H23 loc k' d') as [C D].
  split; auto. Qed.

Lemma delete_single_local k m id path f w :
  wlp (delete_single k m (Operation_new_local id path) f)
    (λ r w', only_removes k w w' ∧ (is_ok r = true → ∀ d, ¬ stored w' (LocLocal id (dp_name path)) k d)) w.
Proof.
  rw /delete_single. change (is_data_alien _) with false. cbv iota. apply wpx_bind.
  eapply wpx_expect; [done|]. rw /wpx. destruct (st_delete _ _ _ w) as [[r w1]|] eqn:Hd; [|done].
  split; [intros loc k' d'; by eapply law_delete_keeps|]. destruct r as [n|]; [|done].
  intros _. by eapply law_delete.
Qed.

Lemma delete_single_remote k m id node f w :
  wlp (delete_single k m (set_remote_node_name node (Operation_new_alien id)) f)
    (λ r w', only_removes k w w' ∧ (is_ok r = true → ∀ d, ¬ stored w' (LocAlien id node) k d)) w.
Proof.
  rw /delete_single. change (is_data_alien _) with true. cbv iota. rw /wpx.
  destruct (st_delete_alien _ _ _ _ w) as [[r w1]|] eqn:Hd; [|done].
  split; [intros loc k' d'; by eapply law_delete_alien_keeps|]. destruct r as [n|]; [|done].
  intros _. by eapply law_delete_alien.
Qed.

Lemma delete_paths_gone k m id paths w :
  wlp (for_each (delete_path k m id) (Ok tt) paths)
    (λ r w', only_removes k w w' ∧ (r = Ok tt → ∀ path, path ∈ paths →
       ∀ d, ¬ stored w' (LocLocal id (dp_name path)) k d)) w.
Proof.
  apply (wpx_for_each _ _ _ (λ done r w', only_removes k w w' ∧ (r = Ok tt → ∀ path, path ∈ done →
       ∀ d, ¬ stored w' (LocLocal id (dp_name path)) k d))).
  - split; [apply only_removes_refl|]. by intros _ path ?%elem_of_nil.
  - intros pre path rest r w1 _ [Hk Hs]. rw /delete_path. apply wpx_bind.
    eapply wpx_mono; [apply delete_single_local|]. intros [n|e] w2 [Hk2 Hs2]; simpl;
      (split; [by eapply only_removes_trans|]); [|done].
    intros Hr path' [Hin| ->%list_elem_of_singleton]%elem_of_app d Hst; [|by eapply Hs2].
    by apply (Hs Hr path' Hin d), Hk2.
Qed.

Lemma delete_nodes_gone k m options id nodes w :
  wlp (for_each (delete_node k m options id) [] nodes)
    (λ errors w', only_removes k w w' ∧ (errors = [] → ∀ node, node ∈ nodes →
       ∀ d, ¬ stored w' (LocAlien id (node_name node)) k d)) w.
Proof.
  apply (wpx_for_each _ _ _ (λ done errors w', only_removes k w w' ∧ (errors = [] → ∀ node, node ∈ done →
       ∀ d, ¬ stored w' (LocAlien id (node_name node)) k d))).
  - split; [apply only_removes_refl|]. by intros _ node ?%elem_of_nil.
  - intros pre node rest errors w1 _ [Hk Hs]. rw /delete_node. apply wpx_bind.
    eapply wpx_mono; [apply delete_single_remote|]. intros [n|e] w2 [Hk2 Hs2]; simpl;
      (split; [by eapply only_removes_trans|]); [|by intros [_ ?]%app_nil].
    intros Hr node' [Hin| ->%list_elem_of_singleton]%elem_of_app d Hst; [|by eapply Hs2].
    by apply (Hs Hr node' Hin d), Hk2.
Qed.
End delete.

Section reliable.
#[local] Set Default Proof Using "Type*".
Context {W : Type} `{ReliableReads W} (mapper : Virtual).

Lemma rel_get_paths k id paths err w :
  wp (get_paths k id paths err)
    (λ r w', (∃ path d, path ∈ paths ∧ stored w (LocLocal id (dp_name path)) k d) → ∃ d, r = inl d) w.
Proof.
  revert err w. induction paths as [|path paths IH]; intros err w; simpl.
  - by intros (path & d & ?%elem_of_nil & _).
  - apply wpx_bind. rw /get_local /get_single /=. change (bool_decide _) with false. cbv iota.
    apply wpx_bind. eapply wpx_expect; [done|].
    destruct (rel_get (Operation_new_local id path) k w eq_refl) as (r & w1 & Hg & Hr).
    rw /wpx Hg. destruct r as [d|e]; [simpl; eauto|].
    specialize (IH (Some e) w1). rw /wpx in IH.
    destruct (get_paths k id paths (Some e) w1) as [[r' w2]|]; [|done].
    intros (p & d & [->|Hp]%elem_of_cons & Hs).
    + exfalso. assert (is_ok (A := BobData) (Err e) = true); [|done].
      apply Hr. exists (LocLocal id (dp_name path)), d. done.
    + apply IH. exists p, d. split; [done|]. by apply (law_get_keeps _ _ _ _ _ _ _ _ Hg).
Qed.

Lemma Backend_get_finds key options w :
  get_operation mapper key ≠ None →
  wp (Backend_get mapper key options)
    (λ r w', (∃ loc d, searched mapper key options loc ∧ stored w loc key d) → ∃ d, r = Ok d) w.
Proof.
  intros Hne. rw /Backend_get /searched.
  destruct (get_operation mapper key) as [[id paths]|] eqn:Hop; [|done].
  apply wpx_bind. eapply wpx_expect; [done|].
  assert (∀ w, wp (get_single key (Operation_new_alien id))
    (λ r w', (∃ node d, stored w (LocAlien id node) key d) → ∃ d, r = Ok d) w) as Hal.
  { intros w'. rw /get_single. change (is_data_alien _) with true. cbv iota. rw /wpx.
    destruct (rel_get_alien (Operation_new_alien id) key w') as (r & w1 & -> & Hr).
    intros Hst%Hr. destruct r; [eauto|done]. }
  destruct (get_options_cases options) as [(-> & Hn & Ha)|[(-> & Hn & Ha)|(-> & Hn & Ha)]]; rw ?Hn ?Ha.
  - apply wpx_bind.
    assert (wp (match paths with Some ps => get_paths key id ps None | None => mret (inr None) end)
      (λ r w', same_store w w' ∧
        ((∃ path d, path ∈ default [] paths ∧ stored w (LocLocal id (dp_name path)) key d) → ∃ d, r = inl d)) w) as Hf.
    { destruct paths as [ps|].
      - pose proof (rel_get_paths key id ps None w) as Hw.
        pose proof (get_paths_sound key id ps None w) as Hw'. rw /wpx in Hw Hw' |- *.
        destruct (get_paths key id ps None w) as [[r w1]|]; [|done]. simpl. split; [apply Hw'|done].
      - split; [by intros loc k d|]. by intros (path & d & ?%elem_of_nil & _). }
    eapply wpx_mono; [exact Hf|]. intros [d|e] w1 [Hs Hd]; [apply wpx_ret; eauto|].
    eapply wpx_mono; [apply Hal|]. simpl. intros r w2 Hr (loc & d & (id' & ps & [= <- <-] & Hcase) & Hst).
    destruct Hcase as [(_ & path & Hp & ->)|(_ & node & ->)].
    + destruct Hd as [? ?]; [by exists path, d|done].
    + apply Hr. exists node, d. by apply Hs.
  - destruct paths as [ps|]; [apply wpx_bind; eapply wpx_mono; [apply rel_get_paths|]|apply wpx_ret].
    + intros r w1 Hr. destruct r as [d|e]; apply wpx_ret; [eauto|].
      intros (loc & d & (id' & ps' & [= <- <-] & Hcase) & Hst).
      destruct Hcase as [(_ & path & Hp & ->)|(? & _)]; [|done].
      destruct Hr as [? ?]; [by exists path, d|done].
    + intros (loc & d & (id' & ps' & [= <- <-] & Hcase) & Hst).
      destruct Hcase as [(_ & path & ?%elem_of_nil & _)|(? & _)]; done.
  - eapply wpx_mono; [apply Hal|]. intros r w1 Hr (loc & d & (id' & ps' & [= <- <-] & Hcase) & Hst).
    destruct Hcase as [(? & _)|(_ & node & ->)]; [done|]. apply Hr. eauto.
Qed.

Lemma exist_group_complete w0 ex op ks ids w :
  same_store w0 w → length ks = length ids →
  wp (exist_group ex (op, (ks, ids)))
    (λ ex' w', ∀ i j k, ids !! j = Some i → ks !! j = Some k → (i < length ex)%nat →
       op_stored w0 op k → ex' !! i = Some true) w.
Proof.
  intros Hs Hlen. rw /exist_group /op_stored. apply wpx_bind.
  destruct (is_data_alien op) eqn:Ha.
  - destruct (rel_exist_alien op ks w) as (r & w1 & Hex & Hr). rw {1}/wpx Hex. apply wpx_ret.
    intros i j k Hj Hk Hi (node & d & Hst). apply Hs in Hst.
    destruct r as [bs|e]; [|exfalso; eapply Hr; eauto using list_elem_of_lookup_2].
    apply or_answers_lookup. right. split; [done|]. exists j. split; [done|].
    apply (law_exist_alien _ _ _ _ _ Hex j k Hk). eauto.
  - destruct (rel_exist op ks w Ha) as (r & w1 & Hex & Hr). rw {1}/wpx Hex. apply wpx_ret.
    intros i j k Hj Hk Hi (loc & d & Hloc & Hst). apply Hs in Hst.
    destruct r as [bs|e]; [|exfalso; eapply Hr; eauto using list_elem_of_lookup_2].
    apply or_answers_lookup. right. split; [done|]. exists j. split; [done|].
    apply (law_exist _ _ _ _ _ _ Hex Ha Hloc j k Hk). eauto.
Qed.

(** With reliable reads, every stored key is answered yes. *)
Lemma Backend_exist_complete `{!HashOrder} keys options w :
  (∀ k, k ∈ keys → get_operation mapper k ≠ None) →
  wp (Backend_exist mapper keys options)
    (λ r w', ∃ bs, r = Ok bs ∧ ∀ i k, keys !! i = Some k →
       (∃ loc d, searched mapper k options loc ∧ stored w loc k d) → bs !! i = Some true) w.
Proof.
  intros Hops. rw /Backend_exist.
  assert (∃ groups, group_keys_by_operations mapper keys options = Some groups) as [groups Hg].
  { rw /group_keys_by_operations. generalize 0%nat ([] : groups). revert Hops.
    induction keys as [|k keys IH]; intros Hops ind acc; simpl; [eauto|].
    assert (∃ ops, find_operations mapper k options = Some ops) as [ops ->].
    { rw /find_operations. specialize (Hops k ltac:(by left)).
      destruct (get_operation mapper k) as [[id paths]|]; [simpl; eauto|done]. }
    simpl. apply IH. intros k' Hk'. apply Hops. by right. }
  apply wpx_bind. eapply wpx_expect; [done|].
  destruct (group_keys_go_spec _ _ _ _ _ _ Hg) as [Hlen Hent]; [by intros ??? ?%elem_of_nil|].
  apply wpx_bind. eapply wpx_mono; [apply (wpx_for_each _ _ _ (λ done ex w', same_store w w' ∧
    length ex = length keys ∧ ∀ op ks ids i j k, (op, (ks, ids)) ∈ done → ids !! j = Some i → ks !! j = Some k →
      (i < length keys)%nat → op_stored w op k → ex !! i = Some true))| ].
  - split; [by intros loc k d|]. rw length_replicate. split; [done|].
    intros ?????? ?%elem_of_nil. done.
  - intros pre [op [ks ids]] rest ex w1 Hl (Hs & Hle & Hi).
    assert ((op, (ks, ids)) ∈ groups) as Hin.
    { rw -(hash_order_perm groups) Hl. set_solver. }
    pose proof (exist_group_complete w ex op ks ids w1 Hs (Hlen _ _ _ Hin)) as Hc.
    pose proof (exist_group_sound w ex op ks ids w1 Hs (Hlen _ _ _ Hin)) as Hso.
    rw /wpx in Hc Hso |- *. destruct (exist_group ex (op, (ks, ids)) w1) as [[ex' w2]|]; [|done].
    destruct Hso as (Hs2 & Hle2 & Hmono & _). split; [done|]. split; [congruence|].
    intros op' ks' ids' i j k [Hd|Hd%list_elem_of_singleton]%elem_of_app Hj Hk Hilt Hst.
    + apply Hmono. by eapply (Hi op').
    + simplify_eq. eapply Hc; eauto. by rw Hle.
  - intros bs w1 (Hs & Hle & Hi). apply wpx_ret. exists bs. split; [done|].
    intros i k Hk (loc & d & (id & paths & Hop & Hcase) & Hst).
    assert (∃ ops o, find_operations mapper k options = Some ops ∧ o ∈ ops ∧ op_stored w o k)
      as (ops & o & Hf & Ho & Host).
    { rw /find_operations Hop /=. eexists. destruct Hcase as [(Hn & path & Hp & ->)|(Ha & node & ->)].
      - exists (Operation_new_local id path). split; [done|]. rw Hn. split.
        + apply elem_of_app. left. destruct paths; [by apply list_elem_of_fmap_2|by apply elem_of_nil in Hp].
        + rw /op_stored. change (is_data_alien _) with false. exists (LocLocal id (dp_name path)), d. done.
      - exists (Operation_new_alien id). split; [done|]. rw Ha. split.
        + apply elem_of_app. right. by left.
        + rw /op_stored. change (is_data_alien _) with true. by exists node, d. }
    destruct (proj2 (Hent o i k)) as (ks & ids & j & Hin & Hj & Hkj); [right; exists ops, i; auto|].
    eapply (Hi o ks ids i j k); eauto; [|by eapply lookup_lt_Some].
    by rw (hash_order_perm groups).
Qed.
End reliable.

(** ** Theorems *)

Section theorems.
Context {W : Type} `{StorageLaws W} (mapper : Virtual).

Lemma get_operation_total key : mapper_ok mapper → get_operation mapper key ≠ None.
Proof.
  intros Hok. destruct (replicas_of_key mapper key Hok) as [replicas Hrep].
  by rw (get_operation_eq mapper key replicas Hok Hrep).
Qed.

(** [put]: what is kept, and where a success has stored the data. *)
Lemma Backend_put_stored key data options w :
  wlp (Backend_put mapper key data options)
    (λ r w', keeps key data w w' ∧
      (r = Ok tt → ∃ id paths, get_operation mapper key = Some (id, paths) ∧
         if put_to_alien options
         then ∀ node, node ∈ bpo_remote_nodes options → stored w' (LocAlien id node) key data
         else ∃ ps, paths = Some ps ∧ ∀ path, path ∈ ps →
                stored w' (LocLocal id (dp_name path)) key data ∨
                stored w' (LocAlien id (vm_local_node_name mapper)) key data)) w.
Proof.
  rw /Backend_put. apply wpx_bind. rw {1}/wpx /expect.
  destruct (get_operation mapper key) as [[id paths]|]; [|done].
  destruct (put_to_alien options).
  - eapply wpx_mono; [apply put_remote_nodes_stored|]. intros r1 w1 [Hk Hs].
    split; [done|]. intros Hr. exists id, paths. auto.
  - destruct paths as [ps|]; [|apply wpx_ret; split; [apply keeps_refl|done]].
    eapply wpx_mono; [apply put_paths_stored|]. intros r1 w1 [Hk Hs].
    split; [done|]. intros Hr. exists id, (Some ps). split; [done|]. eauto.
Qed.

(** C22: When [put] reports success the data is stored everywhere it was meant to go: with
    remote nodes, in the alien storage of each of them; otherwise, for every local path
    of the key, on that disk or, when the disk refused it, in the alien storage under the
    local node's name.  Whatever [put] reports, the other keys keep their data. *)
Theorem backend_put_durable key data options w r w' :
  Backend_put mapper key data options w = Some (r, w') →
  (∀ loc k d, k ≠ key → stored w loc k d → stored w' loc k d) ∧
  (r = Ok tt → ∃ id paths, get_operation mapper key = Some (id, paths) ∧
     if put_to_alien options
     then ∀ node, node ∈ bpo_remote_nodes options → stored w' (LocAlien id node) key data
     else ∃ ps, paths = Some ps ∧ ∀ path, path ∈ ps →
            stored w' (LocLocal id (dp_name path)) key data ∨
            stored w' (LocAlien id (vm_local_node_name mapper)) key data).
Proof.
  intros Hrun. destruct (wpx_elim _ _ _ _ _ _ (Backend_put_stored key data options w) Hrun) as [Hk Hs].
  split; [|done]. intros loc k d Hne. apply Hk. by left.
Qed.

(** C24: A successful [delete] removes the key from every place it was meant to go from:
    the alien storage of every target node, or every local path.  It never adds a record
    and never touches another key. *)
Theorem backend_delete_gone key m options w r w' :
  Backend_delete mapper key m options w = Some (r, w') →
  only_removes key w w' ∧
  (r = Ok tt → ∃ id paths, get_operation mapper key = Some (id, paths) ∧
     if bdo_is_alien options
     then ∃ targets, get_target_nodes_for_key mapper key = Some targets ∧
            ∀ node, node ∈ targets → ∀ d, ¬ stored w' (LocAlien id (node_name node)) key d
     else ∃ ps, paths = Some ps ∧
            ∀ path, path ∈ ps → ∀ d, ¬ stored w' (LocLocal id (dp_name path)) key d).
Proof.
  intros Hrun. pattern r, w'. eapply (wpx_elim True); [|exact Hrun].
  rw /Backend_delete. apply wpx_bind. rw {1}/wpx /expect.
  destruct (get_operation mapper key) as [[id paths]|]; [|done].
  destruct (bdo_is_alien options).
  - apply wpx_bind. rw {1}/wpx. destruct (get_target_nodes_for_key mapper key) as [targets|]; [|done].
    apply wpx_bind. eapply wpx_mono; [apply delete_nodes_gone|].
    intros errors w1 [Hk Hs]. apply wpx_ret. split; [done|].
    destruct errors as [|? [|? ?]]; [|done..]. intros _. exists id, paths. split; [done|]. eauto.
  - destruct paths as [ps|]; [|apply wpx_ret; split; [apply only_removes_refl|done]].
    eapply wpx_mono; [apply delete_paths_gone|]. intros r1 w1 [Hk Hs].
    split; [done|]. intros Hr. exists id, (Some ps). split; [done|]. eauto.
Qed.
End theorems.

Section theorems_reliable.
#[local] Set Default Proof Using "Type*".
Context {W : Type} `{ReliableReads W} (mapper : Virtual).

(** C23: [get] never aborts, changes nothing, returns only data stored where the options
    say to look, and over a storage with reliable reads finds the key whenever one of
    those places has it. *)
Theorem backend_get_correct key options w :
  mapper_ok mapper →
  ∃ r w', Backend_get mapper key options w = Some (r, w') ∧ same_store w w' ∧
    (∀ d, r = Ok d → ∃ loc, searched mapper key options loc ∧ stored w loc key d) ∧
    ((∃ loc d, searched mapper key options loc ∧ stored w loc key d) → ∃ d, r = Ok d).
Proof.
  intros Hok. destruct (wp_total _ _ _ (Backend_get_finds mapper key options w
    (get_operation_total mapper key Hok))) as (r & w' & Hrun & Hf).
  destruct (wpx_elim _ _ _ _ _ _ (Backend_get_sound mapper key options w) Hrun) as [Hs Hd].
  exists r, w'. auto.
Qed.

(** [exist] never aborts and answers every key, in order: yes exactly when one of the
    places the options name stores it. *)
Theorem backend_exist_correct `{!HashOrder} keys options w :
  mapper_ok mapper →
  ∃ bs w', Backend_exist mapper keys options w = Some (Ok bs, w') ∧ same_store w w' ∧
    length bs = length keys ∧
    ∀ i k, keys !! i = Some k →
      bs !! i = Some true ↔ ∃ loc d, searched mapper k options loc ∧ stored w loc k d.
Proof.
  intros Hok. destruct (wp_total _ _ _ (Backend_exist_complete mapper keys options w
    (λ k _, get_operation_total mapper k Hok))) as (r & w' & Hrun & bs & -> & Hc).
  destruct (wpx_elim _ _ _ _ _ _ (Backend_exist_sound mapper keys options w) Hrun)
    as (Hs & bs' & [= <-] & Hl & Hso).
  exists bs, w'. split; [done|]. split; [done|]. split; [done|]. intros i k Hk. split; [|by apply Hc].
  intros Hb. destruct (Hso i Hb) as (k' & loc & d & Hk' & Hse & Hst). simplify_eq. eauto.
Qed.
End theorems_reliable.
