(* ===== verification/MemBackend.v ===== *)
(** * MemBackend: the in-memory and the stub storage

    [bob-backend/src/mem_backend.rs] and [bob-backend/src/stub_backend.rs], as instances
    of [BackendStorage].  [MemBackend] satisfies the laws of a storage.  The witnesses of
    the backend's theorems are at the end. *)

From Corelib Require Import ssreflect.
From stdpp Require Import base option list strings gmap sets numbers.
From Stdlib Require Import Strings.Byte ZArith Lia.
From S2P Require Import Prelude Data Text Errors Options Node ClusterConfig NodeConfig Mapper Backend.

(** ** The in-memory storage *)

(** [VDisk] of the file: a map from keys to data. *)
Definition MemVDisk : Type := gmap BobKey BobData.

Record MemDisk : Type := { md_name : DiskName; md_vdisks : gmap VDiskId MemVDisk }.
Record MemBackend : Type := { mb_disks : gmap DiskName MemDisk; mb_foreign_data : MemDisk }.

Definition MemVDisk_put (key : BobKey) (data : BobData) (v : MemVDisk) : result unit Error * MemVDisk :=
  (Ok tt, <[key := data]> v).

Definition MemVDisk_get (key : BobKey) (v : MemVDisk) : result BobData Error :=
  match v !! key with Some data => Ok data | None => Err (key_not_found key) end.

Definition MemVDisk_exist (keys : list BobKey) (v : MemVDisk) : result (list bool) Error :=
  Ok ((λ k, bool_decide (is_Some (v !! k))) <$> keys).

Definition MemVDisk_delete (key : BobKey) (v : MemVDisk) : result Z Error * MemVDisk :=
  match v !! key with
  | Some _ => (Ok 1, delete key v)
  | None => (Err (key_not_found key), v)
  end.

Definition MemDisk_new_direct (name : DiskName) (vdisks_count : Z) : MemDisk :=
  {| md_name := name; md_vdisks := list_to_map ((λ i, (i, ∅)) <$> seqZ 0 vdisks_count) |}.

Definition MemDisk_new (name : DiskName) (mapper : Virtual) : MemDisk :=
  {| md_name := name; md_vdisks := list_to_map ((λ id, (id, ∅)) <$> get_vdisks_by_disk mapper name) |}.

(** An operation on one virtual disk of the disk; the disk is updated in place. *)
Definition with_vdisk {A} (f : MemVDisk → result A Error * MemVDisk) (vdisk_id : VDiskId) (d : MemDisk)
    : result A Error * MemDisk :=
  match md_vdisks d !! vdisk_id with
  | Some vdisk =>
      let '(r, vdisk') := f vdisk in
      (r, {| md_name := md_name d; md_vdisks := <[vdisk_id := vdisk']> (md_vdisks d) |})
  | None => (Err internal, d)
  end.

Definition MemDisk_get (vdisk_id : VDiskId) (key : BobKey) : MemDisk → result BobData Error * MemDisk :=
  with_vdisk (λ v, (MemVDisk_get key v, v)) vdisk_id.
Definition MemDisk_put (vdisk_id : VDiskId) (key : BobKey) (data : BobData)
    : MemDisk → result unit Error * MemDisk := with_vdisk (MemVDisk_put key data) vdisk_id.
Definition MemDisk_exist (vdisk_id : VDiskId) (keys : list BobKey)
    : MemDisk → result (list bool) Error * MemDisk := with_vdisk (λ v, (MemVDisk_exist keys v, v)) vdisk_id.
Definition MemDisk_delete (vdisk_id : VDiskId) (key : BobKey) : MemDisk → result Z Error * MemDisk :=
  with_vdisk (MemVDisk_delete key) vdisk_id.

(** [None]: [vdisks_count] does not fit. *)
Definition MemBackend_new (mapper : Virtual) : option MemBackend :=
  count ← vdisks_count mapper;
  Some {|
    mb_disks := list_to_map ((λ name, (name, MemDisk_new name mapper)) <$> (dp_name <$> vm_disks mapper));
    mb_foreign_data := MemDisk_new_direct "foreign" count;
  |}.

(** The handlers: find the disk of the operation, or use the foreign one. *)
Definition on_disk {A} (op : Operation) (f : MemDisk → result A Error * MemDisk) : M MemBackend (result A Error) :=
  disk_name ← expect (disk_name_local op);
  b ← gets id;
  match mb_disks b !! disk_name with
  | Some mem_disk =>
      let '(r, mem_disk') := f mem_disk in
      _ ← modify (λ b, {| mb_disks := <[disk_name := mem_disk']> (mb_disks b);
                          mb_foreign_data := mb_foreign_data b |});
      mret r
  | None => mret (Err internal)
  end.

Definition on_foreign {A} (f : MemDisk → result A Error * MemDisk) : M MemBackend (result A Error) := λ b,
  let '(r, d) := f (mb_foreign_data b) in
  Some (r, {| mb_disks := mb_disks b; mb_foreign_data := d |}).

#[global] Instance MemBackend_storage : BackendStorage MemBackend := {|
  st_put op key data := on_disk op (MemDisk_put (op_vdisk_id op) key data);
  st_put_alien op key data := on_foreign (MemDisk_put (op_vdisk_id op) key data);
  st_get op key := on_disk op (MemDisk_get (op_vdisk_id op) key);
  st_get_alien op key := on_foreign (MemDisk_get (op_vdisk_id op) key);
  st_exist op keys := on_disk op (MemDisk_exist (op_vdisk_id op) keys);
  st_exist_alien op keys := on_foreign (MemDisk_exist (op_vdisk_id op) keys);
  st_delete op key _ := on_disk op (MemDisk_delete (op_vdisk_id op) key);
  st_delete_alien op key _ _ := on_foreign (MemDisk_delete (op_vdisk_id op) key);
|}.

(** ** The stub storage *)

Definition StubBackend : Type := unit.

#[global] Instance StubBackend_storage : BackendStorage StubBackend := {|
  st_put _ _ _ := mret (Ok tt);
  st_put_alien _ _ _ := mret (Ok tt);
  st_get _ _ := mret (Ok {| inner := [x00]; meta := BobMeta_stub |});
  st_get_alien _ _ := mret (Ok {| inner := [x00]; meta := BobMeta_stub |});
  st_exist _ _ := mret (Ok []);
  st_exist_alien _ _ := mret (Ok []);
  st_delete _ _ _ := mret (Ok 0);
  st_delete_alien _ _ _ _ := mret (Ok 0);
|}.

(** ** Lemmas: the memory is a map from places and keys to data *)

Definition disk_lookup (d : MemDisk) (id : VDiskId) (k : BobKey) : option BobData :=
  v ← md_vdisks d !! id; v !! k.

(** The disk of a place. *)
Definition loc_disk (b : MemBackend) (loc : Loc) : option MemDisk :=
  match loc with
  | LocLocal _ name => mb_disks b !! name
  | LocAlien _ _ => Some (mb_foreign_data b)
  end.
Definition loc_vdisk (loc : Loc) : VDiskId :=
  match loc with LocLocal id _ | LocAlien id _ => id end.

Definition mem_lookup (b : MemBackend) (loc : Loc) (k : BobKey) : option BobData :=
  d ← loc_disk b loc; disk_lookup d (loc_vdisk loc) k.

(** A change of one disk: what a handler does to it at the other ids and keys. *)
Definition changes_only (id : VDiskId) (k : BobKey) (d d' : MemDisk) : Prop :=
  ∀ id' k', (id', k') ≠ (id, k) → disk_lookup d' id' k' = disk_lookup d id' k'.

Lemma MemDisk_put_spec id k data d r d' :
  MemDisk_put id k data d = (r, d') →
  changes_only id k d d' ∧ (r = Ok tt ∧ disk_lookup d' id k = Some data ∨ is_err r = true ∧ d' = d).
Proof.
  rw /MemDisk_put /with_vdisk /MemVDisk_put. destruct (md_vdisks d !! id) as [v|] eqn:Hv.
  - intros [= <- <-]. split.
    + intros id' k' Hne. rw /disk_lookup /=. destruct (decide (id' = id)) as [->|Hid].
      * rw lookup_insert_eq Hv /=. by rw lookup_insert_ne; [congruence|].
      * by rw lookup_insert_ne.
    + left. by rw /disk_lookup /= lookup_insert_eq /= lookup_insert_eq.
  - intros [= <- <-]. split; [done|]. by right.
Qed.

Lemma MemDisk_delete_spec id k d r d' :
  MemDisk_delete id k d = (r, d') →
  changes_only id k d d' ∧ (r = Ok 1 ∧ disk_lookup d' id k = None ∨ is_err r = true ∧
    ∀ id' k', disk_lookup d' id' k' = disk_lookup d id' k').
Proof.
  rw /MemDisk_delete /with_vdisk /MemVDisk_delete. destruct (md_vdisks d !! id) as [v|] eqn:Hv.
  - destruct (v !! k) eqn:Hk; intros [= <- <-].
    + split.
      * intros id' k' Hne. rw /disk_lookup /=. destruct (decide (id' = id)) as [->|Hid].
        -- rw lookup_insert_eq Hv /=. by rw lookup_delete_ne; [congruence|].
        -- by rw lookup_insert_ne.
      * left. by rw /disk_lookup /= lookup_insert_eq /= lookup_delete_eq.
    + assert (∀ id' k', disk_lookup {| md_name := md_name d; md_vdisks := <[id:=v]> (md_vdisks d) |} id' k' =
        disk_lookup d id' k') as Heq.
      { intros id' k'. by rw /disk_lookup /= insert_id. }
      split; [by intros id' k' _|]. by right.
  - intros [= <- <-]. split; [done|]. by right.
Qed.

Lemma with_vdisk_read {A} (f : MemVDisk → result A Error) id d :
  ∃ d', with_vdisk (λ v, (f v, v)) id d =
    (match md_vdisks d !! id with Some v => f v | None => Err internal end, d') ∧
    ∀ id' k', disk_lookup d' id' k' = disk_lookup d id' k'.
Proof.
  rw /with_vdisk. destruct (md_vdisks d !! id) as [v|] eqn:Hv; [|by exists d].
  eexists. split; [done|]. intros id' k'. by rw /disk_lookup /= insert_id.
Qed.

(** The two kinds of handlers as one: a function on the disk of a place. *)
Definition set_disk (b : MemBackend) (loc : Loc) (d : MemDisk) : MemBackend :=
  match loc with
  | LocLocal _ name => {| mb_disks := <[name := d]> (mb_disks b); mb_foreign_data := mb_foreign_data b |}
  | LocAlien _ _ => {| mb_disks := mb_disks b; mb_foreign_data := d |}
  end.

Definition on_loc {A} (loc : Loc) (f : MemDisk → result A Error * MemDisk) (b : MemBackend)
    : result A Error * MemBackend :=
  match loc_disk b loc with
  | Some d => let '(r, d') := f d in (r, set_disk b loc d')
  | None => (Err internal, b)
  end.

Lemma on_disk_loc {A} op (f : MemDisk → result A Error * MemDisk) b loc :
  is_data_alien op = false → op_loc op = Some loc →
  on_disk op f b = Some (on_loc loc f b) ∧ loc_vdisk loc = op_vdisk_id op.
Proof.
  rw /op_loc /is_data_alien bool_decide_eq_false. destruct (op_disk_path op) as [p|] eqn:Hp; [|done].
  intros _ [= <-]. split; [|done]. rw /on_disk /on_loc /disk_name_local Hp /=.
  rw /mbind /M_bind /expect /gets /=. destruct (mb_disks b !! dp_name p); [|done].
  by destruct (f _).
Qed.

Lemma on_foreign_loc {A} (f : MemDisk → result A Error * MemDisk) b id node :
  on_foreign f b = Some (on_loc (LocAlien id node) f b).
Proof. rw /on_foreign /on_loc /=. by destruct (f _). Qed.

(** Whether two places share a disk, and so a record. *)
Definition same_cell (loc loc' : Loc) : Prop :=
  loc_vdisk loc = loc_vdisk loc' ∧
  match loc, loc' with
  | LocLocal _ n, LocLocal _ n' => n = n'
  | LocAlien _ _, LocAlien _ _ => True
  | _, _ => False
  end.

Lemma mem_lookup_same_cell b loc loc' k : same_cell loc loc' → mem_lookup b loc k = mem_lookup b loc' k.
Proof. destruct loc, loc'; rw /same_cell /mem_lookup /=; [|tauto..|]; by intros [-> ?]; subst. Qed.

#[global] Instance same_cell_dec loc loc' : Decision (same_cell loc loc').
Proof. rw /same_cell. destruct loc, loc'; apply _. Defined.

(** What a function on the disk of a place does to the whole memory. *)
Lemma on_loc_frame {A} (loc : Loc) (f : MemDisk → result A Error * MemDisk) k b r b' :
  (∀ d r d', f d = (r, d') → changes_only (loc_vdisk loc) k d d') →
  on_loc loc f b = (r, b') →
  ∀ loc' k', ¬ (same_cell loc loc' ∧ k' = k) → mem_lookup b' loc' k' = mem_lookup b loc' k'.
Proof.
  intros Hf. rw /on_loc. destruct (loc_disk b loc) as [d|] eqn:Hd; [|by intros [= <- <-]].
  destruct (f d) as [r1 d'] eqn:Hfd. intros [= -> <-] loc' k' Hne. specialize (Hf d r d' Hfd).
  rw /mem_lookup. destruct loc as [id n|id n], loc' as [id' n'|id' n']; simpl in *; try done.
  - destruct (decide (n = n')) as [<-|Hn]; [|by rw lookup_insert_ne].
    rw lookup_insert_eq Hd /=. apply Hf. intros [= <- <-]. by apply Hne.
  - simplify_eq. apply Hf. intros [= <- <-]. by apply Hne.
Qed.

Lemma on_loc_result {A} (loc : Loc) (f : MemDisk → result A Error * MemDisk) b r b' :
  on_loc loc f b = (r, b') →
  (r = Err internal ∧ b' = b ∧ loc_disk b loc = None) ∨
  ∃ d d', loc_disk b loc = Some d ∧ f d = (r, d') ∧ loc_disk b' loc = Some d'.
Proof.
  rw /on_loc. destruct (loc_disk b loc) as [d|] eqn:Hd; [|intros [= <- <-]; auto].
  destruct (f d) as [r1 d'] eqn:Hfd. intros [= -> <-]. right. exists d, d'.
  split; [done|]. split; [done|]. destruct loc; simpl; [by rw lookup_insert_eq|done].
Qed.

Definition mem_unchanged (b b' : MemBackend) : Prop := ∀ loc k, mem_lookup b' loc k = mem_lookup b loc k.

(** A failed or reading function leaves the memory as it was. *)
Lemma on_loc_unchanged {A} (loc : Loc) (f : MemDisk → result A Error * MemDisk) b r b' :
  (∀ d r d', f d = (r, d') → ∀ id k, disk_lookup d' id k = disk_lookup d id k) →
  on_loc loc f b = (r, b') → mem_unchanged b b'.
Proof.
  intros Hf Hon loc' k'.
  assert (∀ k, ∀ d r d', f d = (r, d') → changes_only (loc_vdisk loc) k d d') as Hc.
  { intros k d r1 d' Hfd id'' k'' _. by eapply Hf. }
  destruct (decide (same_cell loc loc')) as [Hs|Hs].
  - rw -!(mem_lookup_same_cell _ loc loc') //.
    destruct (on_loc_result _ _ _ _ _ Hon) as [(_ & -> & _)|(d & d' & Hd & Hfd & Hd')]; [done|].
    by rw /mem_lookup Hd Hd' /= (Hf _ _ _ Hfd).
  - eapply (on_loc_frame loc f k'); [apply Hc|exact Hon|]. tauto.
Qed.

Lemma mem_put_spec loc k data b r b' :
  on_loc loc (MemDisk_put (loc_vdisk loc) k data) b = (r, b') →
  (∀ loc' k', ¬ (same_cell loc loc' ∧ k' = k) → mem_lookup b' loc' k' = mem_lookup b loc' k') ∧
  (r = Ok tt ∧ mem_lookup b' loc k = Some data ∨ is_err r = true ∧ mem_unchanged b b').
Proof.
  intros Hon. split.
  { eapply on_loc_frame; [|exact Hon]. intros d r1 d' Hp. by apply (MemDisk_put_spec _ _ _ _ _ _ Hp). }
  destruct (on_loc_result _ _ _ _ _ Hon) as [(-> & -> & _)|(d & d' & Hd & Hp & Hd')]; [by right|].
  destruct (MemDisk_put_spec _ _ _ _ _ _ Hp) as [_ [[-> Hl]|[He ->]]].
  - left. split; [done|]. by rw /mem_lookup Hd' /=.
  - right. split; [done|]. intros loc' k'. rw /on_loc Hd Hp in Hon. injection Hon as <-.
    rw /mem_lookup. destruct loc as [id n|id n], loc' as [id' n'|id' n']; simpl in *; try done.
    + by rw insert_id.
    + by simplify_eq.
Qed.

Lemma mem_delete_spec loc k b r b' :
  on_loc loc (MemDisk_delete (loc_vdisk loc) k) b = (r, b') →
  (∀ loc' k', ¬ (same_cell loc loc' ∧ k' = k) → mem_lookup b' loc' k' = mem_lookup b loc' k') ∧
  (r = Ok 1 ∧ mem_lookup b' loc k = None ∨ is_err r = true ∧ mem_lookup b' loc k = mem_lookup b loc k).
Proof.
  intros Hon. split.
  { eapply on_loc_frame; [|exact Hon]. intros d r1 d' Hp. by apply (MemDisk_delete_spec _ _ _ _ _ Hp). }
  destruct (on_loc_result _ _ _ _ _ Hon) as [(-> & -> & _)|(d & d' & Hd & Hp & Hd')]; [by right|].
  rw /mem_lookup Hd Hd' /=.
  destruct (MemDisk_delete_spec _ _ _ _ _ Hp) as [_ [[-> Hl]|[He Hl]]]; auto.
Qed.

Lemma mem_get_spec loc k b :
  ∃ b', on_loc loc (MemDisk_get (loc_vdisk loc) k) b =
      (match mem_lookup b loc k with
       | Some d => Ok d
       | None => match loc_disk b loc ≫= (λ d, md_vdisks d !! loc_vdisk loc) with
                 | Some _ => Err (key_not_found k) | None => Err internal end
       end, b') ∧ mem_unchanged b b'.
Proof.
  destruct (on_loc loc (MemDisk_get (loc_vdisk loc) k) b) as [r b'] eqn:Hon. exists b'. split.
  - f_equal. destruct (on_loc_result _ _ _ _ _ Hon) as [(-> & _ & Hd)|(d & d' & Hd & Hf & _)].
    + by rw /mem_lookup Hd.
    + rw /mem_lookup Hd /=. rw /MemDisk_get in Hf.
      destruct (with_vdisk_read (MemVDisk_get k) (loc_vdisk loc) d) as (d2 & Heq & _).
      rw Heq in Hf. injection Hf as <- _. rw /disk_lookup /MemVDisk_get.
      destruct (md_vdisks d !! loc_vdisk loc) as [v|]; [simpl; by destruct (v !! k)|done].
  - eapply on_loc_unchanged; [|exact Hon]. intros d r1 d'. rw /MemDisk_get.
    destruct (with_vdisk_read (MemVDisk_get k) (loc_vdisk loc) d) as (d2 & -> & Hsame). by intros [= _ <-].
Qed.

Lemma mem_exist_spec loc ks b :
  ∃ r b', on_loc loc (MemDisk_exist (loc_vdisk loc) ks) b = (r, b') ∧ mem_unchanged b b' ∧
    match r with
    | Ok bs => bs = (λ k, bool_decide (is_Some (mem_lookup b loc k))) <$> ks
    | Err _ => ∀ k, mem_lookup b loc k = None
    end.
Proof.
  destruct (on_loc loc (MemDisk_exist (loc_vdisk loc) ks) b) as [r b'] eqn:Hon. exists r, b'.
  split; [done|]. split.
  - eapply on_loc_unchanged; [|exact Hon]. intros d r1 d'. rw /MemDisk_exist.
    destruct (with_vdisk_read (MemVDisk_exist ks) (loc_vdisk loc) d) as (d2 & -> & Hsame). by intros [= _ <-].
  - destruct (on_loc_result _ _ _ _ _ Hon) as [(-> & _ & Hd)|(d & d' & Hd & Hf & _)].
    + intros k. by rw /mem_lookup Hd.
    + rw /MemDisk_exist in Hf.
      destruct (with_vdisk_read (MemVDisk_exist ks) (loc_vdisk loc) d) as (d2 & Heq & _).
      rw Heq in Hf. injection Hf as <- _. rw /MemVDisk_exist.
      destruct (md_vdisks d !! loc_vdisk loc) as [v|] eqn:Hv.
      * apply list_fmap_ext. intros i k _. by rw /mem_lookup Hd /= /disk_lookup Hv.
      * intros k. by rw /mem_lookup Hd /= /disk_lookup Hv.
Qed.

(** ** The laws *)

Lemma on_disk_alien {A} op (f : MemDisk → result A Error * MemDisk) b :
  is_data_alien op = true → on_disk op f b = None.
Proof. rw /is_data_alien bool_decide_eq_true /on_disk /disk_name_local. by intros ->. Qed.

(** Every handler that returns is a function on the disk of a place. *)
Lemma on_disk_inv {A} op (f : MemDisk → result A Error * MemDisk) b r b' :
  on_disk op f b = Some (r, b') →
  ∃ loc, op_loc op = Some loc ∧ loc_vdisk loc = op_vdisk_id op ∧ on_loc loc f b = (r, b').
Proof.
  intros Hon. destruct (is_data_alien op) eqn:Ha; [by rw on_disk_alien in Hon|].
  destruct (is_data_alien_loc op Ha) as [loc Hloc]. exists loc.
  destruct (on_disk_loc op f b loc Ha Hloc) as [Heq Hid]. rw Heq in Hon. by injection Hon.
Qed.

Lemma on_foreign_inv {A} id node (f : MemDisk → result A Error * MemDisk) b r b' :
  on_foreign f b = Some (r, b') → on_loc (LocAlien id node) f b = (r, b').
Proof. rw (on_foreign_loc f b id node). by intros [= ->]. Qed.

Lemma mem_put_keeps loc k d b r b' loc' k' d' :
  on_loc loc (MemDisk_put (loc_vdisk loc) k d) b = (r, b') → k' ≠ k ∨ d' = d →
  mem_lookup b loc' k' = Some d' → mem_lookup b' loc' k' = Some d'.
Proof.
  intros Hon Hkd Hst. destruct (mem_put_spec _ _ _ _ _ _ Hon) as [Hframe [[-> Hl]|[He Hu]]].
  - destruct (decide (same_cell loc loc' ∧ k' = k)) as [[Hs ->]|Hn]; [|by rw Hframe].
    rw -(mem_lookup_same_cell _ loc loc') // Hl. naive_solver.
  - by rw Hu.
Qed.

Lemma mem_delete_keeps loc k b r b' loc' k' d' :
  on_loc loc (MemDisk_delete (loc_vdisk loc) k) b = (r, b') →
  (mem_lookup b' loc' k' = Some d' → mem_lookup b loc' k' = Some d') ∧
  (k' ≠ k → mem_lookup b loc' k' = Some d' → mem_lookup b' loc' k' = Some d').
Proof.
  intros Hon. destruct (mem_delete_spec _ _ _ _ _ Hon) as [Hframe Hres].
  destruct (decide (same_cell loc loc' ∧ k' = k)) as [[Hs ->]|Hn].
  - split; [|done]. rw -!(mem_lookup_same_cell _ loc loc') //.
    destruct Hres as [[-> ->]|[_ ->]]; done.
  - by rw Hframe.
Qed.

Definition mem_stored (b : MemBackend) (loc : Loc) (k : BobKey) (d : BobData) : Prop :=
  mem_lookup b loc k = Some d.

#[local] Obligation Tactic := idtac.

#[global] Program Instance MemBackend_laws : StorageLaws MemBackend := {| stored := mem_stored |}.
Next Obligation.
  intros op k d w w' loc (l & Hl & Hid & Hon)%on_disk_inv Ha Hloc. simplify_eq. rw -Hid in Hon.
  by destruct (mem_put_spec _ _ _ _ _ _ Hon) as [_ [[_ ?]|[? _]]].
Qed.
Next Obligation.
  intros op k d w r w' loc k' d' (l & Hl & Hid & Hon)%on_disk_inv. rw -Hid in Hon. by eapply mem_put_keeps.
Qed.
Next Obligation.
  intros op k d w w' loc Hon Hloc. rw /alien_loc in Hloc.
  destruct (op_remote_node_name op) as [node|]; [|done]. injection Hloc as <-.
  apply (on_foreign_inv (op_vdisk_id op) node) in Hon.
  by destruct (mem_put_spec (LocAlien (op_vdisk_id op) node) _ _ _ _ _ Hon) as [_ [[_ ?]|[? _]]].
Qed.
Next Obligation.
  intros op k d w r w' loc k' d' Hon%(on_foreign_inv (op_vdisk_id op) EmptyString).
  by eapply (mem_put_keeps (LocAlien (op_vdisk_id op) EmptyString)).
Qed.
Next Obligation.
  intros op k w d w' loc (l & Hl & Hid & Hon)%on_disk_inv Ha Hloc. simplify_eq. rw -Hid in Hon.
  destruct (mem_get_spec l k w) as (b' & Heq & _). rw Heq in Hon. rw /mem_stored.
  destruct (mem_lookup w l k); [by simplify_eq|]. by destruct (_ ≫= _).
Qed.
Next Obligation.
  intros op k w d w' Hon%(on_foreign_inv (op_vdisk_id op) EmptyString). exists EmptyString.
  destruct (mem_get_spec (LocAlien (op_vdisk_id op) EmptyString) k w) as (b' & Heq & _).
  rw Heq in Hon. rw /mem_stored.
  destruct (mem_lookup w _ k); [by simplify_eq|]. by destruct (_ ≫= _).
Qed.
Next Obligation.
  intros op k w r w' loc k' d' (l & Hl & Hid & Hon)%on_disk_inv. rw -Hid in Hon.
  destruct (mem_get_spec l k w) as (b' & Heq & Hu). rw Heq in Hon. simplify_eq. by rw /mem_stored Hu.
Qed.
Next Obligation.
  intros op k w r w' loc k' d' Hon%(on_foreign_inv (op_vdisk_id op) EmptyString).
  destruct (mem_get_spec (LocAlien (op_vdisk_id op) EmptyString) k w) as (b' & Heq & Hu).
  rw Heq in Hon. simplify_eq. by rw /mem_stored Hu.
Qed.
Next Obligation.
  intros op ks w bs w' loc (l & Hl & Hid & Hon)%on_disk_inv Ha Hloc j k Hk. simplify_eq. rw -Hid in Hon.
  destruct (mem_exist_spec l ks w) as (r & b' & Heq & _ & Hr). rw Heq in Hon. simplify_eq.
  rw list_lookup_fmap Hk /=. rw /mem_stored. split.
  - intros [= [d Hd]%bool_decide_eq_true]. eauto.
  - intros [d Hd]. by rw Hd.
Qed.
Next Obligation.
  intros op ks w bs w' Hon%(on_foreign_inv (op_vdisk_id op) EmptyString) j k Hk.
  destruct (mem_exist_spec (LocAlien (op_vdisk_id op) EmptyString) ks w) as (r & b' & Heq & _ & Hr).
  rw Heq in Hon. simplify_eq. rw list_lookup_fmap Hk /=. rw /mem_stored. split.
  - intros [= [d Hd]%bool_decide_eq_true]. eauto.
  - intros (node & d & Hd). rw (mem_lookup_same_cell _ _ (LocAlien (op_vdisk_id op) node)) // Hd //.
Qed.
Next Obligation.
  intros op ks w r w' loc k' d' (l & Hl & Hid & Hon)%on_disk_inv. rw -Hid in Hon.
  destruct (mem_exist_spec l ks w) as (r0 & b' & Heq & Hu & _). rw Heq in Hon. simplify_eq. by rw /mem_stored Hu.
Qed.
Next Obligation.
  intros op ks w r w' loc k' d' Hon%(on_foreign_inv (op_vdisk_id op) EmptyString).
  destruct (mem_exist_spec (LocAlien (op_vdisk_id op) EmptyString) ks w) as (r0 & b' & Heq & Hu & _).
  rw Heq in Hon. simplify_eq. by rw /mem_stored Hu.
Qed.
Next Obligation.
  intros op k m w n w' loc (l & Hl & Hid & Hon)%on_disk_inv Ha Hloc d. simplify_eq. rw -Hid in Hon.
  destruct (mem_delete_spec _ _ _ _ _ Hon) as [_ [[_ Hn]|[? _]]]; [|done]. by rw /mem_stored Hn.
Qed.
Next Obligation.
  intros op k m w r w' loc k' d' (l & Hl & Hid & Hon)%on_disk_inv. rw -Hid in Hon. by eapply mem_delete_keeps.
Qed.
Next Obligation.
  intros op k m f w n w' loc Hon Hloc d. rw /alien_loc in Hloc.
  destruct (op_remote_node_name op) as [node|]; [|done]. injection Hloc as <-.
  apply (on_foreign_inv (op_vdisk_id op) node) in Hon.
  destruct (mem_delete_spec (LocAlien (op_vdisk_id op) node) _ _ _ _ Hon) as [_ [[_ Hn]|[? _]]]; [|done].
  by rw /mem_stored Hn.
Qed.
Next Obligation.
  intros op k m f w r w' loc k' d' Hon%(on_foreign_inv (op_vdisk_id op) EmptyString).
  by eapply (mem_delete_keeps (LocAlien (op_vdisk_id op) EmptyString)).
Qed.

#[global] Program Instance MemBackend_reliable : ReliableReads MemBackend.
Next Obligation.
  intros op k w Ha. destruct (is_data_alien_loc op Ha) as [loc Hloc].
  destruct (on_disk_loc op (MemDisk_get (op_vdisk_id op) k) w loc Ha Hloc) as [Heq Hid]. rw -Hid in Heq.
  destruct (mem_get_spec loc k w) as (b' & Hon & _). simpl. rw -Hid Heq Hon. do 2 eexists. split; [done|].
  intros (loc' & d & Hl & Hst). simplify_eq. by rw /stored /= /mem_stored in Hst |- *; rw Hst.
Qed.
Next Obligation.
  intros op k w. simpl. rw (on_foreign_loc _ w (op_vdisk_id op) EmptyString).
  destruct (mem_get_spec (LocAlien (op_vdisk_id op) EmptyString) k w) as (b' & Hon & _).
  simpl in Hon. rw Hon. do 2 eexists. split; [done|]. intros (node & d & Hst).
  assert (mem_lookup w (LocAlien (op_vdisk_id op) EmptyString) k = Some d) as Hl.
  { by rw (mem_lookup_same_cell _ _ (LocAlien (op_vdisk_id op) node)). }
  by rw Hl.
Qed.
Next Obligation.
  intros op ks w Ha. destruct (is_data_alien_loc op Ha) as [loc Hloc].
  destruct (on_disk_loc op (MemDisk_exist (op_vdisk_id op) ks) w loc Ha Hloc) as [Heq Hid]. rw -Hid in Heq.
  destruct (mem_exist_spec loc ks w) as (r & b' & Hon & _ & Hr). simpl. rw -Hid Heq Hon.
  do 2 eexists. split; [done|]. destruct r as [bs|e]; [done|]. intros _ loc' k d Hl _. simplify_eq.
  by rw /mem_stored Hr.
Qed.
Next Obligation.
  intros op ks w. simpl. rw (on_foreign_loc _ w (op_vdisk_id op) EmptyString).
  destruct (mem_exist_spec (LocAlien (op_vdisk_id op) EmptyString) ks w) as (r & b' & Hon & _ & Hr).
  simpl in Hon. rw Hon. do 2 eexists. split; [done|]. destruct r as [bs|e]; [done|]. intros _ node k d _.
  rw /mem_stored (mem_lookup_same_cell _ _ (LocAlien (op_vdisk_id op) EmptyString)) // Hr //.
Qed.

(** ** End to end *)

(** Every local path of the key has its virtual disk in memory. *)
Definition mem_ready (b : MemBackend) (id : VDiskId) (paths : list DiskPath) : Prop :=
  ∀ path, path ∈ paths → ∃ d, mb_disks b !! dp_name path = Some d ∧ is_Some (md_vdisks d !! id).

Lemma mem_put_ready b id path key data :
  mem_ready b id [path] →
  ∃ b', st_put (Operation_new_local id path) key data b = Some (Ok tt, b') ∧
    mem_lookup b' (LocLocal id (dp_name path)) key = Some data ∧
    (∀ paths, mem_ready b id paths → mem_ready b' id paths).
Proof.
  intros Hr. destruct (Hr path) as (d & Hd & v & Hv); [by left|].
  simpl. rw /on_disk /disk_name_local /= /mbind /M_bind /expect /gets /= Hd /MemDisk_put /with_vdisk Hv /=.
  eexists. split; [done|]. split.
  - rw /mem_lookup /= lookup_insert_eq /= /disk_lookup /= lookup_insert_eq /= lookup_insert_eq //.
  - intros paths Hp p Hin. simpl. destruct (decide (dp_name p = dp_name path)) as [Heq|Hne].
    + rw Heq lookup_insert_eq. eexists. split; [done|]. simpl. rw lookup_insert_eq. eauto.
    + rw lookup_insert_ne //. by apply Hp.
Qed.

Lemma mem_put_paths mapper b id paths key data :
  mem_ready b id paths →
  ∃ b', for_each (put_path mapper key data id) (Ok tt) paths b = Some (Ok tt, b') ∧
    (∀ path, path ∈ paths → mem_lookup b' (LocLocal id (dp_name path)) key = Some data) ∧
    ∀ loc, mem_lookup b loc key = Some data → mem_lookup b' loc key = Some data.
Proof.
  revert b. induction paths as [|path paths IH]; intros b Hr; simpl.
  - exists b. split; [done|]. split; [by intros p ?%elem_of_nil|done].
  - destruct (mem_put_ready b id path key data) as (b1 & Hput & Hl & Hready).
    { intros p ->%list_elem_of_singleton. apply Hr. by left. }
    assert (put_path mapper key data id (Ok tt) path b = Some (Ok tt, b1)) as Hpath.
    { rw /put_path /put_single. change (is_data_alien _) with false. cbv iota.
      rw (bind_run _ _ _ (Ok tt) b1) //. by rw (bind_run _ _ _ (Ok tt) b1). }
    rw (bind_run _ _ _ _ _ Hpath). destruct (IH b1) as (b' & -> & Hall & Hkeep).
    { apply Hready. intros p Hp. apply Hr. by right. }
    exists b'. split; [done|]. split.
    + intros p [->|Hp]%elem_of_cons; auto.
    + intros loc Hloc. apply Hkeep.
      by apply (law_put_keeps _ _ _ _ _ _ loc key data Hput ltac:(by right) Hloc).
Qed.

(** Over the in-memory storage, a local [put] into ready disks succeeds, and a [get]
    from the node's own disks then returns exactly the data put. *)
Theorem mem_put_get mapper b key data id path paths options goptions :
  get_operation mapper key = Some (id, Some (path :: paths)) → mem_ready b id (path :: paths) →
  put_to_alien options = false → get_normal goptions = true →
  ∃ b' b'', Backend_put mapper key data options b = Some (Ok tt, b') ∧
    Backend_get mapper key goptions b' = Some (Ok data, b'').
Proof.
  intros Hop Hr Hal Hn. destruct (mem_put_paths mapper b id (path :: paths) key data Hr) as (b' & Hput & Hall & _).
  destruct (mem_get_spec (LocLocal id (dp_name path)) key b') as (b'' & Hget & _).
  rw (Hall path ltac:(by left)) in Hget.
  assert (get_paths key id (path :: paths) None b' = Some (inl data, b'')) as Hgp.
  { cbn [get_paths]. rw (bind_run _ _ _ (Ok data) b'') //.
    rw /get_local /get_single. change (is_data_alien _) with false. cbv iota.
    rw (bind_run _ _ _ (dp_name path) b') //. simpl.
    destruct (on_disk_loc (Operation_new_local id path) (MemDisk_get id key) b' (LocLocal id (dp_name path))
      eq_refl eq_refl) as [-> _]. by rw Hget. }
  exists b', b''. split.
  - rw /Backend_put (bind_run _ _ _ (id, Some (path :: paths)) b); [by rw /expect Hop|]. by rw Hal.
  - rw /Backend_get (bind_run _ _ _ (id, Some (path :: paths)) b'); [by rw /expect Hop|].
    destruct (get_all goptions).
    + by rw (bind_run _ _ _ _ _ Hgp).
    + by rw Hn (bind_run _ _ _ _ _ Hgp).
Qed.

(** ** Witnesses *)

Definition mem_mapper : option Virtual :=
  Virtual_new (set_refs "b:20000" [{| dp_name := "disk_0"; dp_path := "/tmp/d1" |}] config_example) cluster_example.

Lemma mem_mapper_ok : ∃ v b, mem_mapper = Some v ∧ mapper_ok v ∧ MemBackend_new v = Some b.
Proof.
  destruct (@Virtual_new_ok uri_example
    (set_refs "b:20000" [{| dp_name := "disk_0"; dp_path := "/tmp/d1" |}] config_example) cluster_example)
    as (v & Hv & Hok & _);
    [apply cluster_example_typed| |by vm_compute|by apply list_elem_of_In; vm_compute; tauto|].
  - apply (@Cluster_validate_Ok uri_example); [apply cluster_example_typed|by vm_compute].
  - assert (is_Some (MemBackend_new v)) as [b Hb]; [|by exists v, b].
    vm_compute in Hv. injection Hv as <-. vm_compute. eauto.
Qed.

Definition data_example : BobData := {| inner := [x01; x02]; meta := {| timestamp := 7 |} |}.

Lemma mem_put_get_witness :
  ∃ v (b : MemBackend) id path, get_operation v [x03] = Some (id, Some [path]) ∧ mem_ready b id [path] ∧
    ∃ b' b'', Backend_put v [x03] data_example BobPutOptions_new_local b = Some (Ok tt, b') ∧
      Backend_get v [x03] BobGetOptions_new_local b' = Some (Ok data_example, b'').
Proof.
  destruct mem_mapper_ok as (v & b & Hv & _ & Hb).
  assert (∃ id path, get_operation v [x03] = Some (id, Some [path]) ∧ mem_ready b id [path])
    as (id & path & Hop & Hr).
  { vm_compute in Hv. injection Hv as <-. vm_compute in Hb. injection Hb as <-.
    do 2 eexists. split; [by vm_compute|]. intros p ->%list_elem_of_singleton.
    eexists. split; [by vm_compute|]. vm_compute. eauto. }
  exists v, b, id, path. split; [done|]. split; [done|].
  by apply (mem_put_get v b [x03] data_example id path []).
Defined.

Lemma backend_put_durable_witness :
  ∃ v (b b' : MemBackend), Backend_put v [x03] data_example BobPutOptions_new_local b = Some (Ok tt, b') ∧
    ∃ id paths, get_operation v [x03] = Some (id, paths).
Proof.
  destruct mem_mapper_ok as (v & b & Hv & _ & Hb).
  assert (∃ b', Backend_put v [x03] data_example BobPutOptions_new_local b = Some (Ok tt, b')) as [b' Hput].
  { vm_compute in Hv. injection Hv as <-. vm_compute in Hb. injection Hb as <-. vm_compute. eauto. }
  exists v, b, b'. split; [done|].
  destruct (proj2 (backend_put_durable v [x03] data_example BobPutOptions_new_local b (Ok tt) b' Hput) eq_refl)
    as (id & paths & Hop & _). eauto.
Defined.

Lemma backend_delete_gone_witness :
  ∃ v (b : MemBackend) r b', Backend_delete v [x03] BobMeta_stub BobDeleteOptions_new_local b = Some (r, b') ∧
    only_removes [x03] b b'.
Proof.
  destruct mem_mapper_ok as (v & b & Hv & _ & Hb).
  assert (∃ r b', Backend_delete v [x03] BobMeta_stub BobDeleteOptions_new_local b = Some (r, b'))
    as (r & b' & Hdel).
  { vm_compute in Hv. injection Hv as <-. vm_compute in Hb. injection Hb as <-. vm_compute. eauto. }
  exists v, b, r, b'. split; [done|].
  apply (backend_delete_gone v [x03] BobMeta_stub BobDeleteOptions_new_local b r b' Hdel).
Defined.

Lemma backend_get_correct_witness :
  ∃ v (b : MemBackend), mapper_ok v ∧ ∃ r b', Backend_get v [x03] BobGetOptions_new_all b = Some (r, b') ∧ same_store b b'.
Proof.
  destruct mem_mapper_ok as (v & b & Hv & Hok & Hb). exists v, b. split; [done|].
  destruct (backend_get_correct v [x03] BobGetOptions_new_all b Hok) as (r & b' & Hrun & Hs & _). eauto.
Defined.

#[local] Instance hash_order_example : HashOrder :=
  {| hash_order := λ A l, reverse l; hash_order_perm := λ A l, reverse_Permutation l |}.

Lemma backend_exist_correct_witness :
  ∃ v (b : MemBackend), mapper_ok v ∧
    ∃ bs b', Backend_exist v [[x03]; [x01]] BobGetOptions_new_all b = Some (Ok bs, b') ∧ length bs = 2%nat.
Proof.
  destruct mem_mapper_ok as (v & b & Hv & Hok & Hb). exists v, b. split; [done|].
  destruct (backend_exist_correct v [[x03]; [x01]] BobGetOptions_new_all b Hok)
    as (bs & b' & Hrun & _ & Hl & _). eauto.
Defined.

(** The stub answers [exist] with an empty list: no key is answered yes. *)
Example stub_exist_no :
  ∀ v, mem_mapper = Some v →
    Backend_exist v [[x03]; [x01]] BobGetOptions_new_all (tt : StubBackend) = Some (Ok [false; false], tt).
Proof. intros v Hv. vm_compute in Hv. injection Hv as <-. by vm_compute. Qed.
