(* ===== verification/Network.v ===== *)
(** * Network: the client of another node and sets of concurrent calls

    [bob-common/src/bob_client.rs] ([BobClient]), the calls of
    [bob/src/link_manager.rs] ([call_node], [call_nodes], [exist_on_nodes]) and the
    helpers of [bob/src/cluster/operations.rs] that wait for sets of tasks.

    The generated gRPC client, the connections and the scheduler are the class [Network].
    A task is atomic; a set of concurrent tasks is run one task at a time, each time the
    one the scheduler chooses, when its result is waited for. *)

From Corelib Require Import ssreflect.
From stdpp Require Import base option list strings gmap sets numbers.
From Stdlib Require Import Strings.Byte ZArith Lia.
From S2P Require Import Prelude Data Text Errors Options Node.

(** ** The messages of [bob.proto] *)

Record Blob : Type := { blob_data : list byte; blob_meta : option Z }.
Record PutRequest : Type := {
  prq_key : option (list byte); prq_data : option Blob; prq_options : option PutOptions;
}.
Record GetRequest : Type := { grq_key : option (list byte); grq_options : option GetOptions }.
Record ExistRequest : Type := { erq_keys : list (list byte); erq_options : option GetOptions }.
Record DeleteRequest : Type := {
  drq_key : option (list byte); drq_meta : option Z; drq_options : option DeleteOptions;
}.

Class Network (W : Type) := {
  (** Whether [get_connection] of the node gives a client. *)
  node_connected : NodeName → M W bool;
  grpc_put : NodeName → PutRequest → M W (result unit Status);
  grpc_get : NodeName → GetRequest → M W (result Blob Status);
  grpc_exist : NodeName → ExistRequest → M W (result (list bool) Status);
  grpc_delete : NodeName → DeleteRequest → M W (result unit Status);
  (** The scheduler: a choice among [n], and whether a spawned task was cancelled. *)
  sched_choose : nat → M W nat;
  sched_cancelled : M W bool;
}.

Section network.
Context {key_size : KeySize} {W : Type} `{Network W}.

(** ** [BobClient] *)

(** The conversion of a status aborts on some messages. *)
Definition client_result {A B} (node_name : NodeName) (f : A → B) (r : result A Status)
    : M W (result (Output B) (Output Error)) :=
  match r with
  | Ok a => mret (Ok (mkOutput node_name (f a)))
  | Err status => e ← expect (Error_from_Status status); mret (Err (mkOutput node_name e))
  end.

Definition client_put (target : NodeName) (key : BobKey) (d : BobData) (options : PutOptions)
    : M W (result (Output unit) (Output Error)) :=
  let blob := {| blob_meta := Some (timestamp (meta d)); blob_data := inner d |} in
  let message := {| prq_key := Some (BobKey_into_vec key); prq_data := Some blob; prq_options := Some options |} in
  r ← grpc_put target message;
  client_result target (λ _, tt) r.

Definition client_get (target : NodeName) (key : BobKey) (options : GetOptions)
    : M W (result (Output BobData) (Output Error)) :=
  let message := {| grq_key := Some (BobKey_into_vec key); grq_options := Some options |} in
  r ← grpc_get target message;
  match r with
  | Ok ans =>
      ts ← expect (blob_meta ans);
      mret (Ok (mkOutput target {| inner := blob_data ans; meta := {| timestamp := ts |} |}))
  | Err status => e ← expect (Error_from_Status status); mret (Err (mkOutput target e))
  end.

Definition client_exist (target : NodeName) (keys : list BobKey) (options : GetOptions)
    : M W (result (Output (list bool)) (Output Error)) :=
  let message := {| erq_keys := BobKey_into_vec <$> keys; erq_options := Some options |} in
  r ← grpc_exist target message;
  client_result target id r.

Definition client_delete (target : NodeName) (key : BobKey) (m : BobMeta) (options : DeleteOptions)
    : M W (result (Output unit) (Output Error)) :=
  let message := {| drq_key := Some (BobKey_into_vec key); drq_meta := Some (timestamp m);
                    drq_options := Some options |} in
  r ← grpc_delete target message;
  client_result target (λ _, tt) r.

(** ** [LinkManager] *)

Definition Node_debug (node : Node) : string := node_name node +:+ "=" +:+ node_address node.

Definition call_node {T} (node : Node) (f : NodeName → M W (result (Output T) (Output Error)))
    : M W (result (Output T) (Output Error)) :=
  conn ← node_connected (node_name node);
  if (conn : bool) then f (node_name node)
  else mret (Err (mkOutput (node_name node) (failed ("No active connection " +:+ Node_debug node)))).

(** ** Sets of tasks *)

Section tasks.
Context {TOp TRes TErr : Type} (f : TOp → M W (result (Output TRes) (Output TErr))).

(** The scheduler's next task and the others. *)
Definition choose_task (handles : list TOp) : M W (option (TOp * list TOp)) :=
  match handles with
  | [] => mret None
  | _ =>
      i ← sched_choose (length handles);
      let i := (i mod length handles)%nat in
      mret (op ← handles !! i; Some (op, delete i handles))
  end.

(** [FuturesUnordered<JoinHandle<..>>::next]: a cancelled task may have run before it was
    cancelled. *)
Inductive join_result : Type := JoinOk (r : result (Output TRes) (Output TErr)) | JoinError.

Definition run_spawned (op : TOp) : M W join_result :=
  cancelled ← sched_cancelled;
  if (cancelled : bool) then
    ran ← sched_choose 2;
    if (ran =? 0)%nat then mret JoinError else _ ← f op; mret JoinError
  else r ← f op; mret (JoinOk r).

Definition process_result (affected : TRes → nat) (join_res : join_result)
    (oks : list (Output TRes)) (errors : list (Output TErr))
    : nat * list (Output TRes) * list (Output TErr) :=
  match join_res with
  | JoinOk (Ok r) => (affected (out_inner r), oks ++ [r], errors)
  | JoinOk (Err e) => (0%nat, oks, errors ++ [e])
  | JoinError => (0%nat, oks, errors)
  end.

(** The loop of [finish_at_least_handles]; the tasks left come back first. *)
Fixpoint finish_at_least_go (fuel : nat) (affected : TRes → nat) (at_least ok_count : nat)
    (handles : list TOp) (oks : list (Output TRes)) (errors : list (Output TErr))
    : M W (list TOp * list (Output TRes) * list (Output TErr)) :=
  if (ok_count <? at_least)%nat then
    match fuel with
    | O => panic
    | S fuel' =>
        chosen ← choose_task handles;
        match chosen with
        | None => mret (handles, oks, errors)
        | Some (op, rest) =>
            join_res ← run_spawned op;
            let '(n, oks, errors) := process_result affected join_res oks errors in
            finish_at_least_go fuel' affected at_least (ok_count + n) rest oks errors
        end
    end
  else mret (handles, oks, errors).

(** [finish_at_least_handles] and [call_at_least]: one task per operation.  Every turn of
    the loop but the last takes a task, so this fuel is enough. *)
Definition call_at_least (target_nodes : list TOp) (at_least : nat) (affected : TRes → nat)
    : M W (list TOp * list (Output TRes) * list (Output TErr)) :=
  finish_at_least_go (S (length target_nodes)) affected at_least 0 target_nodes [] [].

Fixpoint finish_all_go (fuel : nat) (handles : list TOp) (errors : list (Output TErr))
    : M W (list (Output TErr)) :=
  match fuel with
  | O => panic
  | S fuel' =>
      chosen ← choose_task handles;
      match chosen with
      | None => mret errors
      | Some (op, rest) =>
          join_res ← run_spawned op;
          let '(_, _, errors) := process_result (λ _, 1%nat) join_res [] errors in
          finish_all_go fuel' rest errors
      end
  end.

(** [call_all] with [finish_all_handles]. *)
Definition call_all (operations : list TOp) : M W (nat * list (Output TErr)) :=
  match operations with
  | [] => mret (0%nat, [])
  | _ =>
      errors ← finish_all_go (S (length operations)) operations [];
      mret (length operations, errors)
  end.

(** Futures that are not spawned, collected in the order they finish. *)
Fixpoint collect_go (fuel : nat) (futures : list TOp) (acc : list (result (Output TRes) (Output TErr)))
    : M W (list (result (Output TRes) (Output TErr))) :=
  match fuel with
  | O => panic
  | S fuel' =>
      chosen ← choose_task futures;
      match chosen with
      | None => mret acc
      | Some (op, rest) => r ← f op; collect_go fuel' rest (acc ++ [r])
      end
  end.

Definition collect_all (futures : list TOp) : M W (list (result (Output TRes) (Output TErr))) :=
  collect_go (S (length futures)) futures [].

(** [filter_map(ok).next()]: the first success; the other futures are dropped. *)
Fixpoint first_ok_go (fuel : nat) (futures : list TOp) : M W (option (Output TRes)) :=
  match fuel with
  | O => panic
  | S fuel' =>
      chosen ← choose_task futures;
      match chosen with
      | None => mret None
      | Some (op, rest) =>
          r ← f op;
          match r with Ok o => mret (Some o) | Err _ => first_ok_go fuel' rest end
      end
  end.

Definition first_ok (futures : list TOp) : M W (option (Output TRes)) :=
  first_ok_go (S (length futures)) futures.
End tasks.

Definition call_nodes {T} (nodes : list Node) (f : NodeName → M W (result (Output T) (Output Error)))
    : M W (list (result (Output T) (Output Error))) :=
  collect_all (λ node, call_node node f) nodes.

Definition exist_on_nodes (nodes : list Node) (keys : list BobKey)
    : M W (list (result (Output (list bool)) (Output Error))) :=
  call_nodes nodes (λ client, client_exist client keys GetOptions_new_all).

(** ** Lemmas: the rules of the loops

    An invariant relates the tasks left, the results so far and the world.  It must
    survive the scheduler's decisions. *)

(** The scheduler decides and changes nothing that [I] says; [C] tells whether it may
    cancel a task. *)
Definition sched_stable (P C : Prop) (I : W → Prop) : Prop :=
  (∀ n w, I w → wpx P (sched_choose n) (λ _ w', I w') w) ∧
  (∀ w, I w → wpx P sched_cancelled (λ b w', (b = true → C) ∧ I w') w).

Section rules.
Context {TOp TRes TErr : Type} (f : TOp → M W (result (Output TRes) (Output TErr))) (P C : Prop).

Lemma wpx_choose_task (I : W → Prop) (handles : list TOp) (Q : option (TOp * list TOp) → W → Prop) w :
  sched_stable P C I → I w →
  (handles = [] → Q None w) →
  (∀ op rest w', handles ≡ₚ op :: rest → I w' → Q (Some (op, rest)) w') →
  wpx P (choose_task handles) Q w.
Proof.
  intros [Hs _] HI Hnil Hcons. rw /choose_task. destruct handles as [|h handles]; [by apply wpx_ret, Hnil|].
  apply wpx_bind. eapply wpx_mono; [by apply Hs|]. intros i w' HI'. apply wpx_ret.
  destruct (lookup_lt_is_Some_2 (h :: handles) (i mod length (h :: handles))%nat) as [op Hop];
    [apply Nat.mod_upper_bound; simpl; lia|].
  rw Hop /=. apply Hcons; [|done]. by apply delete_Permutation.
Qed.

(** A spawned task: its result, or its cancellation with or without its effect. *)
Lemma wpx_run_spawned (I : W → Prop) (op : TOp) (Q : join_result → W → Prop) w :
  sched_stable P C I → I w →
  (∀ w, I w → wpx P (f op) (λ r w', Q (JoinOk r) w' ∧ (C → Q JoinError w')) w) →
  (C → ∀ w, I w → Q JoinError w) →
  wpx P (run_spawned f op) Q w.
Proof.
  intros [Hc Hs] HI Hrun Hcancel. rw /run_spawned. apply wpx_bind.
  eapply wpx_mono; [by apply Hs|]. intros [] w1 [HC HI1].
  - specialize (HC eq_refl). apply wpx_bind. eapply wpx_mono; [by apply Hc|]. intros n w2 HI2.
    destruct (n =? 0)%nat; [by apply wpx_ret, Hcancel|]. apply wpx_bind.
    eapply wpx_mono; [by apply Hrun|]. intros r w3 [_ Hq]. by apply wpx_ret, Hq.
  - apply wpx_bind. eapply wpx_mono; [by apply Hrun|]. intros r w3 [Hq _]. by apply wpx_ret.
Qed.

(** [finish_at_least_handles]: it stops when enough is acknowledged or no task is left. *)
Lemma wpx_call_at_least (I : list TOp → list (Output TRes) → list (Output TErr) → W → Prop)
    (targets : list TOp) (at_least : nat) (affected : TRes → nat) w :
  (∀ h o e, sched_stable P C (I h o e)) →
  I targets [] [] w →
  (∀ handles op rest oks errors w, handles ≡ₚ op :: rest → I handles oks errors w →
     wpx P (f op) (λ r w', (C → I rest oks errors w') ∧
       match r with Ok o => I rest (oks ++ [o]) errors w' | Err e => I rest oks (errors ++ [e]) w' end) w) →
  (C → ∀ handles op rest oks errors w, handles ≡ₚ op :: rest → I handles oks errors w → I rest oks errors w) →
  wpx P (call_at_least f targets at_least affected)
    (λ res w', let '(rest, oks, errors) := res in I rest oks errors w' ∧
       (at_least ≤ sum_list_with (λ o, affected (out_inner o)) oks ∨ rest = [])%nat) w.
Proof.
  intros Hst HI Hstep Hcancel. rw /call_at_least.
  assert (∀ fuel ok_count handles oks errors w, (length handles < fuel)%nat →
    ok_count = sum_list_with (λ o, affected (out_inner o)) oks → I handles oks errors w →
    wpx P (finish_at_least_go f fuel affected at_least ok_count handles oks errors)
      (λ res w', let '(rest, oks, errors) := res in I rest oks errors w' ∧
         (at_least ≤ sum_list_with (λ o, affected (out_inner o)) oks ∨ rest = [])%nat) w) as Hgo;
    [|apply Hgo; [lia|done|done]].
  intros fuel. induction fuel as [|fuel IH]; intros ok_count handles oks errors w1 Hf Hok HI1; [lia|].
  simpl. destruct (Nat.ltb_spec ok_count at_least) as [Hlt|Hge].
  2: { apply wpx_ret. split; [done|]. left. lia. }
  apply wpx_bind. eapply wpx_choose_task; [apply Hst|exact HI1| |].
  - intros ->. apply wpx_ret. split; [done|]. by right.
  - intros op rest w2 Hperm HI2. pose proof (Permutation_length Hperm) as Hlen. simpl in Hlen.
    apply wpx_bind. eapply (wpx_run_spawned (I handles oks errors)); [apply Hst|done| |].
    + intros w3 HI3. eapply wpx_mono; [by apply (Hstep handles op rest)|].
      intros r w4 [Hc Hr]. destruct r as [o|e]; simpl; (split; [|intros HC]); apply IH; try done; try lia;
        try by apply Hc.
      rw Hok sum_list_with_app /=. lia.
    + intros HC w3 HI3. simpl. apply IH; [lia|lia|by eapply Hcancel].
Qed.

(** [call_all]: every task is waited for. *)
Lemma wpx_call_all (I : list TOp → list (Output TErr) → W → Prop) (operations : list TOp) w :
  (∀ h e, sched_stable P C (I h e)) →
  I operations [] w →
  (∀ handles op rest errors w, handles ≡ₚ op :: rest → I handles errors w →
     wpx P (f op) (λ r w', (C → I rest errors w') ∧
       match r with Ok _ => I rest errors w' | Err e => I rest (errors ++ [e]) w' end) w) →
  (C → ∀ handles op rest errors w, handles ≡ₚ op :: rest → I handles errors w → I rest errors w) →
  wpx P (call_all f operations) (λ res w', res.1 = length operations ∧ I [] res.2 w') w.
Proof.
  intros Hst HI Hstep Hcancel. rw /call_all.
  assert (∀ fuel handles errors w, (length handles < fuel)%nat → I handles errors w →
    wpx P (finish_all_go f fuel handles errors) (λ errors w', I [] errors w') w) as Hgo.
  { intros fuel. induction fuel as [|fuel IH]; intros handles errors w1 Hf HI1; [lia|]. simpl.
    apply wpx_bind. eapply wpx_choose_task; [apply Hst|exact HI1| |].
    - intros ->. by apply wpx_ret.
    - intros op rest w2 Hperm HI2. pose proof (Permutation_length Hperm) as Hlen. simpl in Hlen.
      apply wpx_bind. eapply (wpx_run_spawned (I handles errors)); [apply Hst|done| |].
      + intros w3 HI3. eapply wpx_mono; [by apply (Hstep handles op rest)|].
        intros [o|e] w4 [Hc Hr]; simpl; (split; [|intros HC]); apply IH; auto with lia.
      + intros HC w3 HI3. simpl. apply IH; [lia|by eapply Hcancel]. }
  destruct operations as [|op ops]; [by apply wpx_ret|].
  apply wpx_bind. eapply wpx_mono; [apply Hgo; [lia|done]|]. intros errors w1 HI1. by apply wpx_ret.
Qed.

(** [collect]: every future's result. *)
Lemma wpx_collect_all (I : list TOp → list (result (Output TRes) (Output TErr)) → W → Prop)
    (futures : list TOp) w :
  (∀ h a, sched_stable P C (I h a)) →
  I futures [] w →
  (∀ handles op rest acc w, handles ≡ₚ op :: rest → I handles acc w →
     wpx P (f op) (λ r w', I rest (acc ++ [r]) w') w) →
  wpx P (collect_all f futures) (λ acc w', I [] acc w') w.
Proof.
  intros Hst HI Hstep. rw /collect_all.
  assert (∀ fuel handles acc w, (length handles < fuel)%nat → I handles acc w →
    wpx P (collect_go f fuel handles acc) (λ acc w', I [] acc w') w) as Hgo; [|apply Hgo; [lia|done]].
  intros fuel. induction fuel as [|fuel IH]; intros handles acc w1 Hf HI1; [lia|]. simpl.
  apply wpx_bind. eapply wpx_choose_task; [apply Hst|exact HI1| |].
  - intros ->. by apply wpx_ret.
  - intros op rest w2 Hperm HI2. pose proof (Permutation_length Hperm) as Hlen. simpl in Hlen.
    apply wpx_bind. eapply wpx_mono; [by apply (Hstep handles op rest)|].
    intros r w3 HI3. apply IH; [lia|done].
Qed.

(** [filter_map(ok).next()]: a success, or no future succeeded. *)
Lemma wpx_first_ok (I : list TOp → W → Prop) (Q : option (Output TRes) → W → Prop) (futures : list TOp) w :
  (∀ h, sched_stable P C (I h)) →
  I futures w →
  (∀ handles op rest w, handles ≡ₚ op :: rest → I handles w →
     wpx P (f op) (λ r w', match r with Ok o => Q (Some o) w' | Err _ => I rest w' end) w) →
  (∀ w, I [] w → Q None w) →
  wpx P (first_ok f futures) Q w.
Proof.
  intros Hst HI Hstep Hnone. rw /first_ok.
  assert (∀ fuel handles w, (length handles < fuel)%nat → I handles w →
    wpx P (first_ok_go f fuel handles) Q w) as Hgo; [|apply Hgo; [lia|done]].
  intros fuel. induction fuel as [|fuel IH]; intros handles w1 Hf HI1; [lia|]. simpl.
  apply wpx_bind. eapply wpx_choose_task; [apply Hst|exact HI1| |].
  - intros ->. by apply wpx_ret, Hnone.
  - intros op rest w2 Hperm HI2. pose proof (Permutation_length Hperm) as Hlen. simpl in Hlen.
    apply wpx_bind. eapply wpx_mono; [by apply (Hstep handles op rest)|].
    intros [o|e] w3 Hr; [by apply wpx_ret|]. apply IH; [lia|done].
Qed.
End rules.
End network.
