(* ===== verification/Operations.v ===== *)
(** * Operations: the cluster operations on sets of nodes

    [bob/src/cluster/support_types.rs] and [bob/src/cluster/operations.rs]. *)

From Corelib Require Import ssreflect.
From stdpp Require Import base option list strings gmap sets numbers.
From Stdlib Require Import Strings.Byte ZArith Lia.
From S2P Require Import Prelude Data Text Errors Options Node ClusterConfig NodeConfig Mapper Backend Network.

(** ** Support types *)

(** [HashSetExt::drain_collect]: the elements taken and the set left. *)
Definition drain_collect `{Countable T, !HashOrder} (count : nat) (s : gset T) : list T * gset T :=
  if (size s <=? count)%nat then (hash_order (elements s), ∅)
  else if (count =? 0)%nat then ([], s)
  else
    let drained := hash_order (elements s) in
    (take count drained, list_to_set (drop (Nat.min count (length drained)) drained)).

Record RemotePutResponse : Type := { rpr_affected_replicas : nat }.
Record RemotePutError : Type := { rpe_affected_replicas : nat; rpe_error : Error }.
Record RemoteDeleteError : Type := { rde_force_alien_nodes : list NodeName; rde_error : Error }.

Definition Error_from_RemoteDeleteError (w : RemoteDeleteError) : Error := rde_error w.

Definition IndexMap : Type := list nat.

Definition IndexMap_new : IndexMap := [].

Definition where_not_exists (data : list bool) : IndexMap :=
  omap (λ p : nat * bool, if p.2 then None else Some p.1) (imap pair data).

Definition im_push (item : nat) (m : IndexMap) : IndexMap := m ++ [item].

(** [None]: an index out of range. *)
Definition im_collect {T} (data : list T) (m : IndexMap) : option (list T) :=
  mapM (λ i, data !! i) m.

(** [original[ind] |= mapped[i]] *)
Definition or_at (original : list bool) (p : nat * bool) : option (list bool) :=
  old ← original !! p.1; Some (<[p.1 := old || p.2]> original).

(** [None]: the [assert!] on the lengths, or an index out of range. *)
Definition update_existence (m : IndexMap) (original mapped : list bool) : option (list bool) :=
  if (length m =? length mapped)%nat then ofold or_at original (zip m mapped) else None.

(** [original[i] == false] for the indexes that stay; [None] out of range. *)
Fixpoint retain_not_existed (original : list bool) (m : IndexMap) : option IndexMap :=
  match m with
  | [] => Some []
  | i :: m' =>
      b ← original !! i;
      rest ← retain_not_existed original m';
      Some (if (b : bool) then rest else i :: rest)
  end.

Section operations.
Context {key_size : KeySize} {W : Type} `{BackendStorage W, Network W} (mapper : Virtual).

(** ** GET *)

Definition get_any (key : BobKey) (target_nodes : list Node) (options : GetOptions)
    : M W (option (Output BobData)) :=
  first_ok (λ node, call_node node (λ conn, client_get conn key options)) target_nodes.

Definition lookup_local_alien (key : BobKey) (vdisk_id : VDiskId) : M W (option BobData) :=
  let op := Operation_new_alien vdisk_id in
  r ← get_local key op;
  mret (match r with Ok data => Some data | Err _ => None end).

Definition lookup_local_node (key : BobKey) (vdisk_id : VDiskId) (disk_path : DiskPath) : M W (option BobData) :=
  let op := Operation_new_local vdisk_id disk_path in
  r ← get_local key op;
  mret (match r with Ok data => Some data | Err _ => None end).

(** The nodes of a list other than the local one. *)
Definition remote_of (nodes : list Node) : list Node :=
  filter (λ node, node_name node ≠ vm_local_node_name mapper) nodes.

Definition lookup_remote_aliens (key : BobKey) : M W (option BobData) :=
  res ← get_any key (remote_of (vm_nodes mapper)) GetOptions_new_alien;
  mret (out_inner <$> res).

Definition lookup_remote_nodes (key : BobKey) : M W (option BobData) :=
  targets ← expect (get_target_nodes_for_key mapper key);
  res ← get_any key (remote_of targets) GetOptions_new_local;
  mret (out_inner <$> res).

(** ** PUT *)

(** The body of the task that [call_node_put] spawns. *)
Definition call_node_put (key : BobKey) (data : BobData) (options : BobPutOptions)
    (affected_replicas_by_node : gmap NodeName nat) (node : Node)
    : M W (result (Output RemotePutResponse) (Output RemotePutError)) :=
  let affected_replicas := default 1%nat (affected_replicas_by_node !! node_name node) in
  let grpc_options := BobPutOptions_to_grpc options in
  call_result ← call_node node (λ conn, client_put conn key data grpc_options);
  mret (match call_result with
        | Ok o => Ok (Output_map (λ _, {| rpr_affected_replicas := affected_replicas |}) o)
        | Err o => Err (Output_map (λ e, {| rpe_affected_replicas := affected_replicas; rpe_error := e |}) o)
        end).

(** The tasks still running come back as the list of their nodes. *)
Definition put_at_least (key : BobKey) (data : BobData) (target_nodes : list Node) (at_least : nat)
    (options : BobPutOptions) (affected_replicas_by_node : gmap NodeName nat)
    : M W (list Node * list (Output RemotePutResponse) * list (Output RemotePutError)) :=
  call_at_least (call_node_put key data options affected_replicas_by_node) target_nodes at_least
    rpr_affected_replicas.

Definition put_local_one (key : BobKey) (data : BobData) (operation : Operation) (add_nodes : list NodeName)
    (node_name : NodeName) : M W (list NodeName) :=
  let op := set_remote_node_name node_name operation in
  r ← put_local mapper key data op;
  mret (match r with Err _ => add_nodes ++ [node_name] | Ok _ => add_nodes end).

Definition put_local_all (node_names : list NodeName) (key : BobKey) (data : BobData) (operation : Operation)
    : M W (result unit BobPutOptions) :=
  add_nodes ← for_each (put_local_one key data operation) [] node_names;
  mret (match add_nodes with [] => Ok tt | _ => Err (BobPutOptions_new_alien add_nodes) end).

(** [options.remote_nodes()[0]] aborts when there is none. *)
Definition put_sup_node (key : BobKey) (data : BobData) (ret : list (Output Error))
    (request : Node * BobPutOptions) : M W (list (Output Error)) :=
  let '(node, options) := request in
  res ← call_node node (λ client, client_put client key data (BobPutOptions_to_grpc options));
  match res with
  | Err e =>
      target_node ← expect (head (bpo_remote_nodes options));
      mret (ret ++ [mkOutput target_node (out_inner e)])
  | Ok _ => mret ret
  end.

Definition put_sup_nodes (key : BobKey) (data : BobData) (requests : list (Node * BobPutOptions))
    : M W (result unit (list (Output Error))) :=
  ret ← for_each (put_sup_node key data) [] requests;
  mret (match ret with [] => Ok tt | _ => Err ret end).

Definition put_local_node (key : BobKey) (data : BobData) (vdisk_id : VDiskId) (disk_path : DiskPath)
    : M W (result unit Error) :=
  let op := Operation_new_local vdisk_id disk_path in
  put_local mapper key data op.

Definition put_local_node_all (key : BobKey) (data : BobData) (vdisk_id : VDiskId) (disk_paths : list DiskPath)
    : M W nat :=
  for_each (λ successes path,
    res ← put_local_node key data vdisk_id path;
    mret (match res with Err _ => successes | Ok _ => (successes + 1)%nat end)) 0%nat disk_paths.

(** ** EXIST *)

Definition exist_on_local_node `{!HashOrder} (keys : list BobKey) : M W (result (list bool) Error) :=
  Backend_exist mapper keys BobGetOptions_new_local.

Definition exist_on_local_alien `{!HashOrder} (keys : list BobKey) : M W (result (list bool) Error) :=
  Backend_exist mapper keys BobGetOptions_new_alien.

(** The map from node names as an association list with distinct names; each request
    carries the keys of the node it goes to. *)
Definition exist_on_remote_nodes (keys_by_node : list (NodeName * (Node * list BobKey)))
    : M W (list (result (Output (list bool)) (Output Error))) :=
  call_nodes ((λ p, p.2.1) <$> keys_by_node) (λ client,
    entry ← expect (List.find (λ p, bool_decide (p.1 = client)) keys_by_node);
    client_exist client entry.2.2 GetOptions_new_local).

Definition exist_on_remote_aliens (nodes : list Node) (keys : list BobKey)
    : M W (list (result (Output (list bool)) (Output Error))) :=
  call_nodes nodes (λ client, client_exist client keys GetOptions_new_alien).

(** ** DELETE *)

Definition delete_on_local_node (key : BobKey) (m : BobMeta) (vdisk_id : VDiskId) (disk_path : DiskPath)
    : M W (result unit Error) :=
  let op := Operation_new_local vdisk_id disk_path in
  r ← delete_local key m op true;
  mret (result_map (λ _, tt) r).

Definition delete_on_local_alien (key : BobKey) (m : BobMeta) (force_nodes : gset NodeName) (vdisk_id : VDiskId)
    (fully_failed_nodes : list NodeName) (node : Node) : M W (list NodeName) :=
  let op := Operation_new_alien vdisk_id in
  let name := node_name node in
  let force_delete := bool_decide (name ∈ force_nodes) in
  let op := set_remote_node_name name op in
  r ← delete_local key m op force_delete;
  mret (match r with
        | Err _ => if force_delete then fully_failed_nodes ++ [name] else fully_failed_nodes
        | Ok _ => fully_failed_nodes
        end).

Definition delete_on_local_aliens (key : BobKey) (m : BobMeta) (all_nodes_for_key : list Node)
    (force_nodes : gset NodeName) (vdisk_id : VDiskId) : M W (result unit (list NodeName)) :=
  failed_nodes ← for_each (delete_on_local_alien key m force_nodes vdisk_id) [] all_nodes_for_key;
  mret (match failed_nodes with [] => Ok tt | _ => Err failed_nodes end).

Definition call_node_delete (key : BobKey) (m : BobMeta) (request : Node * BobDeleteOptions)
    : M W (result (Output unit) (Output RemoteDeleteError)) :=
  let '(node, options) := request in
  let grpc_options := BobDeleteOptions_to_grpc options in
  call_result ← call_node node (λ conn, client_delete conn key m grpc_options);
  mret (result_map_err (Output_map (λ e,
    {| rde_force_alien_nodes := bdo_force_alien_nodes options; rde_error := e |})) call_result).

Definition delete_on_remote_nodes (key : BobKey) (m : BobMeta) (requests : list (Node * BobDeleteOptions))
    : M W (result unit (list (Output RemoteDeleteError))) :=
  res ← call_all (call_node_delete key m) requests;
  mret (match res.2 with [] => Ok tt | errors => Err errors end).

Definition delete_on_remote_nodes_with_options (key : BobKey) (m : BobMeta) (target_nodes : list Node)
    (options : BobDeleteOptions) : M W (list (Output RemoteDeleteError)) :=
  match target_nodes with
  | [] => mret []
  | _ =>
      r ← delete_on_remote_nodes key m ((λ n, (n, options)) <$> target_nodes);
      mret (match r with Err errors => errors | Ok _ => [] end)
  end.
End operations.
