(* ===== verification/Quorum.v ===== *)
(** * Quorum: the cluster under the quorum policy

    [bob/src/cluster/quorum.rs].  [put] returns its result together with the background
    task it spawned, if any; [background_put] is that task.  [tokio::join!] of the remote
    and the local puts runs one after the other, in the order the scheduler chooses. *)

From Corelib Require Import ssreflect.
From stdpp Require Import base option list strings gmap sets numbers.
From Stdlib Require Import Strings.Byte ZArith Lia.
From S2P Require Import Prelude Data Text Errors Options Node ClusterConfig NodeConfig Mapper Backend Network Operations.

(** The mutable part of the mapper, [support_nodes_offset], and what a search for support
    nodes sees of the connections. *)
Class SupportState (W : Type) := {
  support_offset : W → Z;
  set_support_offset : Z → W → W;
  observe_connections : M W ((nat → nat → bool) * (nat → bool));
}.

Definition with_offset (v : Virtual) (offset : Z) : Virtual := {|
  vm_local_node_name := vm_local_node_name v; vm_local_node_address := vm_local_node_address v;
  vm_disks := vm_disks v; vm_vdisks := vm_vdisks v; vm_nodes := vm_nodes v;
  vm_distribution_func := vm_distribution_func v; vm_support_nodes_offset := offset |}.

Section quorum.
Context {key_size : KeySize} {W : Type} `{BackendStorage W, Network W, SupportState W}.
Context (mapper : Virtual) (quorum : nat).

(** [self.mapper.get_support_nodes] on the shared mapper. *)
Definition mapper_support_nodes (key : BobKey) (count : nat) : M W (list Node) :=
  obs ← observe_connections;
  offset ← gets support_offset;
  res ← expect (get_support_nodes obs.1 obs.2 key count (with_offset mapper offset));
  _ ← modify (set_support_offset (vm_support_nodes_offset res.2));
  mret res.1.

(** ** PUT *)

Definition put_remote_nodes_quorum (key : BobKey) (data : BobData) (at_least : nat)
    (affected_replicas_by_node : gmap NodeName nat)
    : M W (list Node * list (Output RemotePutResponse) * list (Output RemotePutError)) :=
  targets ← expect (get_target_nodes_for_key mapper key);
  put_at_least key data (remote_of mapper targets) at_least BobPutOptions_new_local affected_replicas_by_node.

Definition alien_put_queries (sup_nodes : list Node) (nodes_need_remote_backup : list NodeName)
    : list (Node * BobPutOptions) :=
  (λ p : Node * NodeName, (p.1, BobPutOptions_new_alien [p.2])) <$> zip sup_nodes nodes_need_remote_backup.

(** [failed_nodes.drain(..sup_nodes.len())] aborts past the end. *)
Definition put_aliens (failed_nodes : list NodeName) (key : BobKey) (data : BobData) : M W (result unit Error) :=
  match failed_nodes with
  | [] => mret (Err internal)
  | _ =>
      sup_nodes ← mapper_support_nodes key (length failed_nodes);
      if (length sup_nodes <=? length failed_nodes)%nat then
        let nodes_need_remote_backup := take (length sup_nodes) failed_nodes in
        let failed_nodes := drop (length sup_nodes) failed_nodes in
        let queries := alien_put_queries sup_nodes nodes_need_remote_backup in
        sup ← put_sup_nodes key data queries;
        let failed_nodes :=
          match sup with
          | Err sup_nodes_errors => failed_nodes ++ (out_node_name <$> sup_nodes_errors)
          | Ok _ => failed_nodes
          end in
        vdisk_id ← expect (vdisk_id_from_key mapper key);
        let operation := Operation_new_alien vdisk_id in
        local_put ← put_local_all mapper failed_nodes key data operation;
        mret (match local_put with Err _ => Err internal | Ok _ => Ok tt end)
      else panic
  end.

(** What [tokio::spawn] got: the nodes whose tasks still run, and the failed nodes. *)
Record BackgroundPut : Type := {
  bg_rest_tasks : list Node;
  bg_failed_nodes : list NodeName;
}.

(** The loop of [background_put]. *)
Fixpoint background_go (fuel : nat) (task : Node → M W (result (Output RemotePutResponse) (Output RemotePutError)))
    (rest_tasks : list Node) (failed_nodes : list NodeName) : M W (list NodeName) :=
  match fuel with
  | O => panic
  | S fuel' =>
      chosen ← choose_task rest_tasks;
      match chosen with
      | None => mret failed_nodes
      | Some (node, rest) =>
          join_res ← run_spawned task node;
          background_go fuel' task rest
            (match join_res with
             | JoinOk (Err e) => failed_nodes ++ [out_node_name e]
             | _ => failed_nodes
             end)
      end
  end.

Definition background_put (bg : BackgroundPut) (key : BobKey) (data : BobData)
    (affected_replicas_by_node : gmap NodeName nat) : M W unit :=
  failed_nodes ← background_go (S (length (bg_rest_tasks bg)))
    (call_node_put key data BobPutOptions_new_local affected_replicas_by_node)
    (bg_rest_tasks bg) (bg_failed_nodes bg);
  match failed_nodes with
  | [] => mret tt
  | _ => _ ← put_aliens failed_nodes key data; mret tt
  end.

Definition put_at_least_quorum (key : BobKey) (data : BobData) : M W (result unit Error * option BackgroundPut) :=
  let at_least := quorum in
  op ← expect (get_operation mapper key);
  let '(vdisk_id, disk_paths) := op in
  affected_replicas_by_node ← expect (get_replicas_count_by_node mapper key);
  remote_local ←
    match disk_paths with
    | Some paths =>
        first ← sched_choose 2;
        if (first =? 0)%nat then
          remote ← put_remote_nodes_quorum key data at_least affected_replicas_by_node;
          local_puts ← put_local_node_all mapper key data vdisk_id paths;
          mret (remote, local_puts)
        else
          local_puts ← put_local_node_all mapper key data vdisk_id paths;
          remote ← put_remote_nodes_quorum key data at_least affected_replicas_by_node;
          mret (remote, local_puts)
    | None =>
        remote ← put_remote_nodes_quorum key data at_least affected_replicas_by_node;
        mret (remote, 0%nat)
    end;
  let '((tasks, oks, errors), local_put_ok) := remote_local in
  let failed_nodes :=
    match disk_paths with
    | Some paths => if (local_put_ok =? length paths)%nat then [] else [vm_local_node_name mapper]
    | None => []
    end in
  let remote_ok_count := sum_list_with (λ f, rpr_affected_replicas (out_inner f)) oks in
  let failed_nodes := failed_nodes ++ (out_node_name <$> errors) in
  if (quorum <=? remote_ok_count + local_put_ok)%nat then
    if bool_decide (tasks = []) && bool_decide (failed_nodes = []) then mret (Ok tt, None)
    else mret (Ok tt, Some {| bg_rest_tasks := tasks; bg_failed_nodes := failed_nodes |})
  else if bool_decide (tasks = []) then
    r ← put_aliens failed_nodes key data;
    mret (match r with Err err => Err err | Ok _ => Ok tt end, None)
  else panic.

Definition Quorum_put := put_at_least_quorum.

(** ** GET *)

Fixpoint lookup_local_paths (key : BobKey) (vdisk_id : VDiskId) (paths : list DiskPath) : M W (option BobData) :=
  match paths with
  | [] => mret None
  | path :: rest =>
      found ← lookup_local_node key vdisk_id path;
      match found with Some data => mret (Some data) | None => lookup_local_paths key vdisk_id rest end
  end.

Definition Quorum_get (key : BobKey) : M W (result BobData Error) :=
  op ← expect (get_operation mapper key);
  let '(vdisk_id, disk_paths) := op in
  found ← lookup_local_paths key vdisk_id (default [] disk_paths);
  match found with
  | Some data => mret (Ok data)
  | None =>
      found ← lookup_remote_nodes mapper key;
      match found with
      | Some data => mret (Ok data)
      | None =>
          found ← lookup_local_alien key vdisk_id;
          match found with
          | Some data => mret (Ok data)
          | None =>
              found ← lookup_remote_aliens mapper key;
              match found with
              | Some data => mret (Ok data)
              | None => mret (Err (key_not_found key))
              end
          end
      end
  end.

(** ** DELETE *)

Definition delete_at_remote_nodes (key : BobKey) (m : BobMeta) : M W (list (Output RemoteDeleteError) * nat) :=
  targets ← expect (get_target_nodes_for_key mapper key);
  let target_nodes := remote_of mapper targets in
  errors ← delete_on_remote_nodes_with_options key m target_nodes BobDeleteOptions_new_local;
  mret (errors, length target_nodes).

Definition alien_delete_queries (sup_nodes : list Node) (nodes_need_remote_backup : list NodeName)
    : list (Node * BobDeleteOptions) :=
  (λ p : Node * NodeName, (p.1, BobDeleteOptions_new_alien [p.2])) <$> zip sup_nodes nodes_need_remote_backup.

Definition errors_force_nodes (errors : list (Output RemoteDeleteError)) : list NodeName :=
  err ← errors; rde_force_alien_nodes (out_inner err).

(** The part of [delete_aliens] for the nodes that failed: the names of the support nodes
    and the nodes that still failed. *)
Definition delete_sup_aliens `{!HashOrder} (failed_nodes : gset NodeName) (key : BobKey) (m : BobMeta)
    : M W (gset NodeName * gset NodeName) :=
  if (0 <? size failed_nodes)%nat then
    sup_nodes ← mapper_support_nodes key (size failed_nodes);
    let sup_nodes_set := list_to_set (node_name <$> sup_nodes) in
    let '(nodes_need_remote_backup, failed_nodes) := drain_collect (length sup_nodes) failed_nodes in
    r ← delete_on_remote_nodes key m (alien_delete_queries sup_nodes nodes_need_remote_backup);
    mret (sup_nodes_set,
          match r with
          | Err sup_nodes_errors => failed_nodes ∪ list_to_set (errors_force_nodes sup_nodes_errors)
          | Ok _ => failed_nodes
          end)
  else mret (∅, failed_nodes).

(** The nodes of the cluster except the support nodes and the local node. *)
Definition all_other_nodes_queries (sup_nodes_set : gset NodeName) : list (Node * BobDeleteOptions) :=
  (λ n, (n, BobDeleteOptions_new_alien [])) <$>
    filter (λ n, node_name n ∉ sup_nodes_set ∧ node_name n ≠ vm_local_node_name mapper) (vm_nodes mapper).

Definition delete_aliens `{!HashOrder} (failed_nodes : gset NodeName) (key : BobKey) (m : BobMeta)
    : M W (result unit Error) :=
  st ← delete_sup_aliens failed_nodes key m;
  let '(sup_nodes_set, failed_nodes) := st in
  _ ← delete_on_remote_nodes key m (all_other_nodes_queries sup_nodes_set);
  targets ← expect (get_target_nodes_for_key mapper key);
  vdisk_id ← expect (vdisk_id_from_key mapper key);
  local_delete ← delete_on_local_aliens key m targets failed_nodes vdisk_id;
  mret (match local_delete with Err _ => Err internal | Ok _ => Ok tt end).

Definition delete_on_nodes `{!HashOrder} (key : BobKey) (m : BobMeta) : M W (result unit Error) :=
  op ← expect (get_operation mapper key);
  let '(vdisk_id, disk_paths) := op in
  failed_nodes ←
    for_each (λ (failed_nodes : gset NodeName) disk_path,
      res ← delete_on_local_node key m vdisk_id disk_path;
      mret (match res with
            | Err _ => {[vm_local_node_name mapper]} ∪ failed_nodes
            | Ok _ => failed_nodes
            end)) ∅ (default [] disk_paths);
  remote ← delete_at_remote_nodes key m;
  let failed_nodes := failed_nodes ∪ list_to_set (out_node_name <$> remote.1) in
  r ← delete_aliens failed_nodes key m;
  mret (match r with Err err => Err err | Ok _ => Ok tt end).

Definition Quorum_delete `{!HashOrder} := delete_on_nodes.

(** ** EXIST *)

(** A map from nodes (compared by name) to index maps: an association list in insertion
    order; [hash_order] gives the order of an iteration. *)
Definition node_map : Type := list (Node * IndexMap).

Definition nm_lookup (n : Node) (m : node_map) : option IndexMap :=
  snd <$> List.find (λ p, Node_eq p.1 n) m.

Fixpoint nm_update (n : Node) (f : IndexMap → IndexMap) (m : node_map) : node_map :=
  match m with
  | [] => []
  | (n', im) :: m' => if Node_eq n' n then (n', f im) :: m' else (n', im) :: nm_update n f m'
  end.

(** [entry(n).or_insert(new()).push(index)] *)
Definition nm_entry_push (n : Node) (index : nat) (m : node_map) : node_map :=
  match nm_lookup n m with
  | Some _ => nm_update n (im_push index) m
  | None => m ++ [(n, im_push index IndexMap_new)]
  end.

Record grouping : Type := { g_local : IndexMap; g_primary : node_map; g_secondary : node_map }.

(** One target node of the key at [index]. *)
Definition group_node (index : nat) (g : grouping) (node : Node) : grouping :=
  if bool_decide (node_name node = vm_local_node_name mapper) then
    {| g_local := im_push index (g_local g); g_primary := g_primary g; g_secondary := g_secondary g |}
  else
    match nm_lookup node (g_primary g) with
    | Some _ => {| g_local := g_local g; g_primary := nm_update node (im_push index) (g_primary g);
                   g_secondary := g_secondary g |}
    | None => {| g_local := g_local g; g_primary := g_primary g;
                 g_secondary := nm_entry_push node index (g_secondary g) |}
    end.

(** A primary node is chosen for the key when none of its targets is local or primary. *)
Definition group_primary (target_nodes : list Node) (g : grouping) : grouping :=
  if existsb (λ n, bool_decide (node_name n = vm_local_node_name mapper)
                   || bool_decide (is_Some (nm_lookup n (g_primary g)))) target_nodes
  then g
  else
    match List.find (λ n, bool_decide (nm_lookup n (g_secondary g) = None)) target_nodes with
    | Some node => {| g_local := g_local g; g_primary := g_primary g ++ [(node, IndexMap_new)];
                      g_secondary := g_secondary g |}
    | None => g
    end.

Definition group_key (index : nat) (g : grouping) (target_nodes : list Node) : grouping :=
  foldl (group_node index) (group_primary target_nodes g) target_nodes.

Fixpoint group_by_nodes_go (index : nat) (keys : list BobKey) (g : grouping) : option grouping :=
  match keys with
  | [] => Some g
  | key :: rest =>
      target_nodes ← get_target_nodes_for_key mapper key;
      group_by_nodes_go (S index) rest (group_key index g target_nodes)
  end.

Definition group_by_nodes (keys : list BobKey) : option (option IndexMap * node_map * node_map) :=
  g ← group_by_nodes_go 0 keys {| g_local := []; g_primary := []; g_secondary := [] |};
  Some (match g_local g with [] => None | local => Some local end, g_primary g, g_secondary g).

(** The first loop of [collect_remote_exists]: shrink every index map, and list the nodes
    that still have keys. *)
Fixpoint prepare_requests (original : list bool) (keys : list BobKey) (m : node_map)
    : option (node_map * list (NodeName * (Node * list BobKey))) :=
  match m with
  | [] => Some ([], [])
  | (node, im) :: m' =>
      im ← retain_not_existed original im;
      rest ← prepare_requests original keys m';
      match im with
      | [] => Some ((node, im) :: rest.1, rest.2)
      | _ =>
          node_keys ← im_collect keys im;
          Some ((node, im) :: rest.1, (node_name node, (node, node_keys)) :: rest.2)
      end
  end.

(** One answer: the node it came from must be one of those asked. *)
Definition apply_answer (m : node_map) (requests : list (NodeName * (Node * list BobKey))) (original : list bool)
    (remote_result : result (Output (list bool)) (Output Error)) : option (list bool) :=
  match remote_result with
  | Err _ => Some original
  | Ok answer =>
      request ← List.find (λ p, bool_decide (p.1 = out_node_name answer)) requests;
      im ← nm_lookup request.2.1 m;
      update_existence im original (out_inner answer)
  end.

Definition collect_remote_exists `{!HashOrder} (original : list bool) (keys : list BobKey) (indexes_by_node : node_map)
    : M W (list bool) :=
  match indexes_by_node with
  | [] => mret original
  | _ =>
      prepared ← expect (prepare_requests original keys (hash_order indexes_by_node));
      let '(m, requests) := prepared in
      match requests with
      | [] => mret original
      | _ =>
          remote_results ← exist_on_remote_nodes requests;
          expect (ofold (apply_answer m requests) original remote_results)
      end
  end.

Definition Quorum_exist `{!HashOrder} (keys : list BobKey) : M W (result (list bool) Error) :=
  let found := replicate (length keys) false in
  groups ← expect (group_by_nodes keys);
  let '(local, primary, secondary) := groups in
  found ←
    match local with
    | Some local =>
        local_keys ← expect (im_collect keys local);
        r ← exist_on_local_node mapper local_keys;
        match r with
        | Ok local_exist => expect (update_existence local found local_exist)
        | Err _ => mret found
        end
    | None => mret found
    end;
  found ← collect_remote_exists found keys primary;
  found ← collect_remote_exists found keys secondary;
  let alien_index_map := where_not_exists found in
  st ←
    match alien_index_map with
    | [] => mret (found, alien_index_map)
    | _ =>
        alien_keys ← expect (im_collect keys alien_index_map);
        r ← exist_on_local_alien mapper alien_keys;
        match r with
        | Ok local_alien_result =>
            found ← expect (update_existence alien_index_map found local_alien_result);
            alien_index_map ← expect (retain_not_existed found alien_index_map);
            mret (found, alien_index_map)
        | Err _ => mret (found, alien_index_map)
        end
    end;
  let '(found, alien_index_map) := st in
  match alien_index_map with
  | [] => mret (Ok found)
  | _ =>
      alien_keys ← expect (im_collect keys alien_index_map);
      results ← exist_on_remote_aliens (remote_of mapper (vm_nodes mapper)) alien_keys;
      found ← expect (ofold (λ found (r : result (Output (list bool)) (Output Error)),
        match r with
        | Ok o => update_existence alien_index_map found (out_inner o)
        | Err _ => Some found
        end) found results);
      mret (Ok found)
  end.
End quorum.
