(* ===== verification/ClusterLaws.v ===== *)
(** * ClusterLaws: what a node expects of the cluster around it

    The contract between the cluster policies ([Quorum], [SimpleQuorum]) and everything
    they call: the local storage, the clients of the other nodes, the scheduler.
    [ClusterState] is what a world says of the data on the nodes; [ClusterLaws] are the
    effects of the calls on it.  [ClusterWorld] is an implementation. *)

From Corelib Require Import ssreflect.
From stdpp Require Import base option list strings gmap sets numbers.
From Stdlib Require Import Strings.Byte ZArith Lia.
From S2P Require Import Prelude Data Text Errors Options Node ClusterConfig NodeConfig Mapper Backend Network Operations Quorum.

#[local] Set Default Proof Using "Type*".

(** ** The replicas of a key *)

Definition key_id (v : Virtual) (key : BobKey) : VDiskId :=
  from_le_bytes key mod Z.of_nat (size (vm_vdisks v)).

Definition key_replicas (v : Virtual) (key : BobKey) : list NodeDisk :=
  match get_vdisk v (key_id v key) with Some vdisk => vd_replicas vdisk | None => [] end.

(** The place of a replica, and that of an alien copy for a node. *)
Definition replica_loc (v : Virtual) (key : BobKey) (r : NodeDisk) : Loc := LocLocal (key_id v key) (nd_disk_name r).
Definition alien_for (v : Virtual) (key : BobKey) (name : NodeName) : Loc := LocAlien (key_id v key) name.

Definition node_names (v : Virtual) : list NodeName := node_name <$> vm_nodes v.

Section replicas.
Context (v : Virtual) (key : BobKey) (Hok : mapper_ok v).

Lemma key_replicas_of : replicas_of v key (key_replicas v key).
Proof.
  destruct (replicas_of_key v key Hok) as [replicas Hrep]. pose proof Hrep as (Hget & _).
  rw /key_replicas /key_id Hget /=. exact Hrep.
Qed.

Lemma key_replicas_on r : r ∈ key_replicas v key → nd_node_name r ∈ node_names v.
Proof. destruct key_replicas_of as (_ & _ & Hon). apply Hon. Qed.

Definition targets : list Node := vdisk_nodes (key_replicas v key) (vm_nodes v).

Lemma get_targets : get_target_nodes_for_key v key = Some targets.
Proof. apply target_nodes_eq; [done|apply key_replicas_of]. Qed.

Lemma get_id : vdisk_id_from_key v key = Some (key_id v key).
Proof. by apply vdisk_id_from_key_ok. Qed.

Definition local_replicas : list NodeDisk :=
  filter (λ r, nd_node_name r = vm_local_node_name v) (key_replicas v key).

Lemma get_op : get_operation v key = Some (key_id v key,
  match local_replicas with [] => None | l => Some (DiskPath_from <$> l) end).
Proof. apply get_operation_eq; [done|apply key_replicas_of]. Qed.

Lemma in_targets n : n ∈ targets ↔ n ∈ vm_nodes v ∧ ∃ r, r ∈ key_replicas v key ∧ nd_node_name r = node_name n.
Proof using Type. apply vdisk_nodes_elem. Qed.

Lemma targets_names_nodup : NoDup (node_name <$> targets).
Proof.
  rw /targets /vdisk_nodes. eapply sublist_NoDup; [apply (mok_names v Hok)|].
  apply fmap_sublist, sublist_filter.
Qed.

Lemma target_name r : r ∈ key_replicas v key → nd_node_name r ∈ node_name <$> targets.
Proof.
  intros Hr. pose proof (key_replicas_on r Hr) as (n & Hn & Hin)%list_elem_of_fmap.
  rw Hn. apply list_elem_of_fmap_2, in_targets. split; [done|]. by exists r.
Qed.
End replicas.

(** ** The data on the nodes *)

Class ClusterState (W : Type) := {
  (** A read of the key at the place of the node can return the data. *)
  nstored : W → NodeName → Loc → BobKey → BobData → Prop;
  (** The local alien storage accepts puts. *)
  alien_ready : W → Prop;
  (** From now on the node answers every request it is sent. *)
  reachable : W → NodeName → Prop;
}.

Section state.
Context {W : Type} `{ClusterState W}.

Definition stays (w w' : W) : Prop :=
  (alien_ready w → alien_ready w') ∧ ∀ n, reachable w n → reachable w' n.

(** Nothing that can be read has changed. *)
Definition nsame (w w' : W) : Prop :=
  (∀ n loc k d, nstored w' n loc k d ↔ nstored w n loc k d) ∧ stays w w'.

(** At most copies of the data under the key are new; only other data under the key is
    lost. *)
Definition nkeeps (key : BobKey) (data : BobData) (w w' : W) : Prop :=
  (∀ n loc k d, k ≠ key ∨ d = data → nstored w n loc k d → nstored w' n loc k d) ∧
  (∀ n loc k d, nstored w' n loc k d → nstored w n loc k d ∨ k = key ∧ d = data) ∧
  stays w w'.

(** Nothing is new; only data under the key is lost. *)
Definition ndrops (key : BobKey) (w w' : W) : Prop :=
  (∀ n loc k d, nstored w' n loc k d → nstored w n loc k d) ∧
  (∀ n loc k d, k ≠ key → nstored w n loc k d → nstored w' n loc k d) ∧
  stays w w'.

Lemma nsame_refl w : nsame w w.
Proof. by split_and!. Qed.
Lemma nsame_trans w1 w2 w3 : nsame w1 w2 → nsame w2 w3 → nsame w1 w3.
Proof.
  intros (H1 & A1 & R1) (H2 & A2 & R2). split; [intros n loc k d; by rw H2|]. split; auto.
Qed.
Lemma nsame_keeps key data w w' : nsame w w' → nkeeps key data w w'.
Proof. intros (Hs & Hst). split_and!; [intros n loc k d _; by rw Hs|intros n loc k d; rw Hs; tauto|done]. Qed.
Lemma nkeeps_refl key data w : nkeeps key data w w.
Proof. apply nsame_keeps, nsame_refl. Qed.
Lemma nkeeps_trans key data w1 w2 w3 : nkeeps key data w1 w2 → nkeeps key data w2 w3 → nkeeps key data w1 w3.
Proof.
  intros (H1 & N1 & A1 & R1) (H2 & N2 & A2 & R2). split; [|split; [|split; auto]].
  - intros n loc k d Hk Hs. auto.
  - intros n loc k d [Hs|?]%N2; [|by right]. by apply N1.
Qed.
Lemma nsame_drops key w w' : nsame w w' → ndrops key w w'.
Proof. intros (Hs & Hst). split_and!; [intros n loc k d; by rw Hs|intros n loc k d _; by rw Hs|done]. Qed.
Lemma ndrops_refl key w : ndrops key w w.
Proof. apply nsame_drops, nsame_refl. Qed.
Lemma ndrops_trans key w1 w2 w3 : ndrops key w1 w2 → ndrops key w2 w3 → ndrops key w1 w3.
Proof.
  intros (H1 & N1 & A1 & R1) (H2 & N2 & A2 & R2). split; [|split; [|split; auto]].
  - intros n loc k d Hs. auto.
  - intros n loc k d Hk Hs. auto.
Qed.
End state.

#[export] Hint Resolve nsame_refl nkeeps_refl ndrops_refl nsame_keeps nsame_drops : bob.

(** ** The contract *)

(** [P] holds when a call may abort the process: [False] for calls that never do. *)
Class ClusterLaws (P : Prop) (W : Type) (v : Virtual)
    `{key_size : KeySize, StorageLaws W, !Network W, !SupportState W, !ClusterState W} := {
  cl_local : ∀ w loc k d, nstored w (vm_local_node_name v) loc k d ↔ stored w loc k d;
  (** The local storage. *)
  cl_st_put : ∀ op k d w, is_data_alien op = false → wpx P (st_put op k d) (λ _ w', nkeeps k d w w') w;
  cl_st_put_alien : ∀ op k d w, is_Some (op_remote_node_name op) →
    wpx P (st_put_alien op k d) (λ r w', nkeeps k d w w' ∧
      (alien_ready w → op_vdisk_id op = key_id v k → r = Ok tt)) w;
  cl_st_get : ∀ op k w, is_data_alien op = false →
    wpx P (st_get op k) (λ r w', nsame w w' ∧
      (reachable w (vm_local_node_name v) → ∀ loc d, op_loc op = Some loc → stored w loc k d → is_ok r = true)) w;
  cl_st_get_alien : ∀ op k w,
    wpx P (st_get_alien op k) (λ r w', nsame w w' ∧
      (reachable w (vm_local_node_name v) → ∀ node d, stored w (LocAlien (op_vdisk_id op) node) k d → is_ok r = true)) w;
  cl_backend_exist : ∀ (ho : HashOrder) ks options w,
    wpx P (Backend_exist v ks options) (λ r w', nsame w w' ∧
      (reachable w (vm_local_node_name v) → ∃ bs, r = Ok bs ∧ ∀ i k loc d,
         ks !! i = Some k → searched v k options loc → stored w loc k d → bs !! i = Some true)) w;
  cl_st_delete : ∀ op k m w, is_data_alien op = false →
    wpx P (st_delete op k m) (λ _ w', ndrops k w w' ∧
      (reachable w (vm_local_node_name v) → ∀ loc d, op_loc op = Some loc → ¬ stored w' loc k d)) w;
  cl_st_delete_alien : ∀ op k m f w, is_Some (op_remote_node_name op) →
    wpx P (st_delete_alien op k m f) (λ _ w', ndrops k w w' ∧
      (reachable w (vm_local_node_name v) → ∀ loc d, alien_loc op = Some loc → ¬ stored w' loc k d)) w;
  (** The scheduler cancels no task, and the bookkeeping touches no data. *)
  cl_choose : ∀ n w, wpx P (sched_choose n) (λ _ w', nsame w w') w;
  cl_cancelled : ∀ w, wpx P sched_cancelled (λ b w', b = false ∧ nsame w w') w;
  cl_observe : ∀ w, wpx P observe_connections (λ _ w', nsame w w') w;
  cl_offset : ∀ o w, nsame w (set_support_offset o w);
  cl_connected : ∀ n w, wpx P (node_connected n) (λ b w', nsame w w' ∧ (reachable w n → b = true)) w;
  (** The requests. *)
  cl_put : ∀ n k d (options : BobPutOptions) w,
    n ∈ node_names v → key_wf k → bpo_force_node options = true →
    wpx P (client_put n k d (BobPutOptions_to_grpc options)) (λ r w', nkeeps k d w w' ∧
      (is_ok r = true →
         match bpo_remote_nodes options with
         | [] => ∀ rp, rp ∈ key_replicas v k → nd_node_name rp = n →
             nstored w' n (replica_loc v k rp) k d ∨ nstored w' n (alien_for v k n) k d
         | names => ∀ x, x ∈ names → nstored w' n (alien_for v k x) k d
         end)) w;
  cl_get : ∀ n k w, n ∈ node_names v → key_wf k →
    wpx P (client_get n k GetOptions_new_local) (λ r w', nsame w w' ∧
      (∀ o, r = Ok o → ∃ rp, rp ∈ key_replicas v k ∧ nd_node_name rp = n ∧
         nstored w n (replica_loc v k rp) k (out_inner o)) ∧
      (reachable w n → ∀ rp d, rp ∈ key_replicas v k → nd_node_name rp = n →
         nstored w n (replica_loc v k rp) k d → is_ok r = true)) w;
  cl_get_alien : ∀ n k w, n ∈ node_names v → key_wf k →
    wpx P (client_get n k GetOptions_new_alien) (λ r w', nsame w w' ∧
      (∀ o, r = Ok o → ∃ x, nstored w n (alien_for v k x) k (out_inner o)) ∧
      (reachable w n → ∀ x d, nstored w n (alien_for v k x) k d → is_ok r = true)) w;
  cl_exist : ∀ n ks w, n ∈ node_names v → Forall key_wf ks →
    wpx P (client_exist n ks GetOptions_new_local) (λ r w', nsame w w' ∧
      (∀ o, r = Ok o → length (out_inner o) = length ks ∧
         ∀ j k, ks !! j = Some k → out_inner o !! j = Some true →
           ∃ rp d, rp ∈ key_replicas v k ∧ nd_node_name rp = n ∧ nstored w n (replica_loc v k rp) k d) ∧
      (reachable w n → ∃ o, r = Ok o ∧ ∀ j k rp d, ks !! j = Some k → rp ∈ key_replicas v k →
         nd_node_name rp = n → nstored w n (replica_loc v k rp) k d → out_inner o !! j = Some true)) w;
  cl_exist_alien : ∀ n ks w, n ∈ node_names v → Forall key_wf ks →
    wpx P (client_exist n ks GetOptions_new_alien) (λ r w', nsame w w' ∧
      (∀ o, r = Ok o → length (out_inner o) = length ks ∧
         ∀ j k, ks !! j = Some k → out_inner o !! j = Some true →
           ∃ x d, nstored w n (alien_for v k x) k d) ∧
      (reachable w n → ∃ o, r = Ok o ∧ ∀ j k x d, ks !! j = Some k →
         nstored w n (alien_for v k x) k d → out_inner o !! j = Some true)) w;
  cl_delete : ∀ n k m (options : BobDeleteOptions) w,
    n ∈ node_names v → key_wf k → bdo_force_node options = true →
    wpx P (client_delete n k m (BobDeleteOptions_to_grpc options)) (λ r w', ndrops k w w' ∧
      (is_ok r = true ∨ reachable w n →
         if bdo_is_alien options
         then ∀ x d, x ∈ node_name <$> targets v k → ¬ nstored w' n (alien_for v k x) k d
         else ∀ rp d, rp ∈ key_replicas v k → nd_node_name rp = n → ¬ nstored w' n (replica_loc v k rp) k d)) w;
}.
