(* ===== verification/QuorumPut.v ===== *)
(** * QuorumPut: puts under the quorum policy

    The theorems on [Quorum_put] and its background task, against [ClusterLaws]. *)

From Corelib Require Import ssreflect.
From stdpp Require Import base option list strings gmap sets numbers.
From Stdlib Require Import Strings.Byte ZArith Lia.
From S2P Require Import Prelude Data Text Errors Options Node ClusterConfig NodeConfig Mapper Backend Network Operations Quorum ClusterLaws.

#[local] Set Default Proof Using "Type*".

(** ** Calls of a node *)

Definition result_node {A E} (r : result (Output A) (Output E)) : NodeName :=
  match r with Ok o => out_node_name o | Err e => out_node_name e end.

Section calls.
Context {key_size : KeySize} {W : Type} `{Network W}.

Lemma client_result_node {A B} n (f : A → B) r (w : W) :
  wlp (client_result n f r) (λ r _, result_node r = n) w.
Proof using Type.
  destruct r as [a|s]; [done|]. apply wpx_bind. rw /wpx /expect. by destruct (Error_from_Status s).
Qed.

Lemma client_put_node n k d o (w : W) : wlp (client_put n k d o) (λ r _, result_node r = n) w.
Proof. apply wpx_bind. rw {1}/wpx. destruct (grpc_put _ _ _) as [[r w']|]; [apply client_result_node|done]. Qed.

Lemma client_exist_node n ks o (w : W) : wlp (client_exist n ks o) (λ r _, result_node r = n) w.
Proof. apply wpx_bind. rw {1}/wpx. destruct (grpc_exist _ _ _) as [[r w']|]; [apply client_result_node|done]. Qed.

Lemma client_delete_node n k m o (w : W) : wlp (client_delete n k m o) (λ r _, result_node r = n) w.
Proof. apply wpx_bind. rw {1}/wpx. destruct (grpc_delete _ _ _) as [[r w']|]; [apply client_result_node|done]. Qed.
End calls.

Section laws.
Context {P : Prop} {W : Type} {v : Virtual}
  `{key_size : KeySize, StorageLaws W, !Network W, !SupportState W, !ClusterState W, !ClusterLaws P W v}.

(** A call that a node without a connection does not get. *)
Lemma wpx_call_node {T} (node : Node) (f : NodeName → M W (result (Output T) (Output Error)))
    (Q : result (Output T) (Output Error) → W → Prop) w :
  (∀ w1, nsame w w1 → wpx P (f (node_name node)) Q w1) →
  (∀ w1 e, nsame w w1 → ¬ reachable w (node_name node) → Q (Err (mkOutput (node_name node) e)) w1) →
  wpx P (call_node node f) Q w.
Proof.
  intros Hf Hno. apply wpx_bind. eapply wpx_mono; [apply cl_connected|].
  intros [] w1 [Hs Hc]; [by apply Hf|]. apply wpx_ret, Hno; [done|]. intros Hr. by specialize (Hc Hr).
Qed.

(** The scheduler satisfies every condition that holds of worlds with the same data. *)
Lemma sched_stable_same (I : W → Prop) :
  (∀ w w', nsame w w' → I w → I w') → sched_stable P False I.
Proof.
  intros HI. split.
  - intros n w Hw. eapply wpx_mono; [apply cl_choose|]. intros m w' Hs. exact (HI _ _ Hs Hw).
  - intros w Hw. eapply wpx_mono; [apply cl_cancelled|]. intros b w' [-> Hs]. split; [done|exact (HI _ _ Hs Hw)].
Qed.
End laws.

(** ** Counting replicas *)

Lemma length_filter_or {A} (P Q : A → Prop) `{!∀ x, Decision (P x), !∀ x, Decision (Q x)} (l : list A) :
  (∀ x, P x → ¬ Q x) →
  length (filter (λ x, P x ∨ Q x) l) = (length (filter P l) + length (filter Q l))%nat.
Proof.
  intros Hdis. induction l as [|x l IH]; [done|]. rw !filter_cons.
  destruct (decide (P x)) as [Hp|Hp], (decide (Q x)) as [Hq|Hq]; repeat case_decide;
    simpl; try (rw IH; lia); first [by destruct (Hdis x Hp)|tauto].
Qed.

Lemma length_filter_names (l : list NodeDisk) (names : list NodeName) :
  NoDup names →
  length (filter (λ r, nd_node_name r ∈ names) l) =
  sum_list_with (λ n, length (filter (λ r, nd_node_name r = n) l)) names.
Proof.
  induction names as [|n names IH]; intros Hnd; simpl.
  - rw (list_filter_iff _ (λ _, False)); [intros r; by rw elem_of_nil|]. by induction l.
  - apply list.NoDup_cons in Hnd as [Hn Hnd]. rw -IH // -length_filter_or.
    + by intros r ->.
    + f_equal. apply list_filter_iff. intros r. by rw elem_of_cons.
Qed.

Lemma filter_submseteq {A} (P Q : A → Prop) `{!∀ x, Decision (P x), !∀ x, Decision (Q x)} (l : list A) :
  (∀ x, P x → Q x) → filter P l ⊆+ filter Q l.
Proof.
  intros Hpq. induction l as [|x l IH]; [done|]. rw !filter_cons.
  destruct (decide (P x)) as [Hp|Hp], (decide (Q x)) as [Hq|Hq]; try done.
  - by apply submseteq_skip.
  - by destruct Hq; apply Hpq.
  - by apply submseteq_cons.
Qed.

Section put.
Context {P : Prop} {W : Type} {v : Virtual}
  `{key_size : KeySize, StorageLaws W, !Network W, !SupportState W, !ClusterState W, !ClusterLaws P W v}.
Context (Hok : mapper_ok v) (key : BobKey) (data : BobData) (Hkey : key_wf key).

(** ** What it means that a replica is written *)

(** On its node: on the replica's disk, or in the node's own alien storage. *)
Definition held (w : W) (r : NodeDisk) : Prop :=
  nstored w (nd_node_name r) (replica_loc v key r) key data ∨
  nstored w (nd_node_name r) (alien_for v key (nd_node_name r)) key data.

(** In the alien storage of some node, for the node. *)
Definition covered (w : W) (name : NodeName) : Prop :=
  ∃ holder, holder ∈ node_names v ∧ nstored w holder (alien_for v key name) key data.

Definition owns (w : W) (name : NodeName) : Prop :=
  ∀ r, r ∈ key_replicas v key → nd_node_name r = name → held w r.

Lemma held_keeps w w' r : nkeeps key data w w' → held w r → held w' r.
Proof using Type. intros (Hk & _) [Hr|Hr]; [left|right]; apply Hk; auto. Qed.

Lemma covered_keeps w w' x : nkeeps key data w w' → covered w x → covered w' x.
Proof using Type. intros (Hk & _) (h & Hh & Hs). exists h. split; [done|]. apply Hk; auto. Qed.

Lemma owns_keeps w w' x : nkeeps key data w w' → owns w x → owns w' x.
Proof using Type. intros Hk Ho r Hr Hx. eapply held_keeps; eauto. Qed.

(** ** The local puts *)

Lemma put_single_nkeeps op w :
  is_Some (op_disk_path op) ∨ is_Some (op_remote_node_name op) →
  wpx P (put_single v key data op) (λ _ w', nkeeps key data w w') w.
Proof.
  intros Hop. rw /put_single /is_data_alien. case_bool_decide as Hd.
  - destruct Hop as [[? Hp]|Hr]; [by rw Hp in Hd|].
    eapply wpx_mono; [by apply cl_st_put_alien|]. by intros r w' [Hk _].
  - apply wpx_bind. eapply wpx_mono; [apply cl_st_put; by apply bool_decide_eq_false|].
    intros [[]|e] w1 Hk; [done|]. destruct (negb (is_duplicate e)); [|done].
    apply wpx_bind. destruct (op_disk_path op) as [p|] eqn:Hp; [|done].
    eapply wpx_expect; [by rw /disk_name_local Hp|]. apply wpx_bind.
    eapply wpx_mono; [by apply cl_st_put_alien|]. intros r w2 [Hk2 _]. apply wpx_ret.
    by eapply nkeeps_trans.
Qed.

Lemma put_replica_local r w :
  nd_node_name r = vm_local_node_name v →
  wpx P (put_local_node v key data (key_id v key) (DiskPath_from r))
    (λ res w', nkeeps key data w w' ∧ (is_ok res = true → held w' r)) w.
Proof.
  intros Hr. eapply wpx_mono; [eapply wpx_wlp; [apply put_single_nkeeps; left; eauto|apply put_single_local]|].
  intros res w' [Hk [_ Hs]]. split; [done|]. destruct res as [[]|]; [intros _|done].
  rw /held Hr !(cl_local (P:=P) (v:=v)). destruct (Hs eq_refl); [by left|by right].
Qed.

Lemma put_local_node_all_held w :
  wpx P (put_local_node_all v key data (key_id v key) (DiskPath_from <$> local_replicas v key))
    (λ n w', nkeeps key data w w' ∧
       ∃ sub, sub ⊆+ local_replicas v key ∧ length sub = n ∧ ∀ r, r ∈ sub → held w' r) w.
Proof.
  set (L := local_replicas v key).
  eapply wpx_mono; [apply (wpx_for_each _ _ _ (λ done n w', nkeeps key data w w' ∧
    ∃ sub, sub ⊆+ take (length done) L ∧ length sub = n ∧ ∀ r, r ∈ sub → held w' r))|].
  - split; [apply nkeeps_refl|]. exists []. split_and!; [done..|]. by intros r ?%elem_of_nil.
  - intros pre path rest n w1 Heq [Hk (sub & Hsub & Hlen & Hheld)].
    assert (∃ r, L !! length pre = Some r ∧ path = DiskPath_from r) as (r & Hr & ->).
    { assert ((DiskPath_from <$> L) !! length pre = Some path) as Hl by (by rw Heq list_lookup_middle).
      rw list_lookup_fmap in Hl. destruct (L !! length pre) as [r|]; [|done]. exists r. split; [done|].
      by injection Hl. }
    assert (nd_node_name r = vm_local_node_name v) as Hloc.
    { apply list_elem_of_lookup_2 in Hr. by apply list_elem_of_filter in Hr as [? _]. }
    apply wpx_bind. eapply wpx_mono; [by apply put_replica_local|]. intros res w2 [Hk2 Hres].
    apply wpx_ret. split; [by eapply nkeeps_trans|]. rw length_app /= (Nat.add_1_r (length pre)) (take_S_r _ _ r) //.
    destruct res as [u|e].
    + exists (sub ++ [r]). split_and!; [by apply submseteq_app|rw length_app /=; lia|].
      intros r' [Hin| ->%list_elem_of_singleton]%elem_of_app; [|by apply Hres].
      eapply held_keeps; [done|by apply Hheld].
    + exists sub. split_and!; [by apply submseteq_inserts_r|done|].
      intros r' Hin. eapply held_keeps; [done|by apply Hheld].
  - simpl. intros n w' [Hk (sub & Hsub & Hlen & Hheld)]. split; [done|]. exists sub.
    split_and!; [|done..]. by rw length_fmap firstn_all in Hsub.
Qed.

(** ** The remote puts *)

Definition counts_ok (counts : gmap NodeName nat) : Prop :=
  ∀ name, name ∈ node_name <$> targets v key →
    default 1%nat (counts !! name) = length (filter (λ r, nd_node_name r = name) (key_replicas v key)).

Lemma counts_exist : ∃ counts, get_replicas_count_by_node v key = Some counts ∧ counts_ok counts.
Proof using Hok.
  destruct (get_replicas_count_lookup v key _ Hok (key_replicas_of v key Hok)) as (counts & Hc & Hl).
  exists counts. split; [done|]. intros name (n & -> & Hn)%list_elem_of_fmap. rw Hl.
  apply in_targets in Hn as [_ (r & Hr & Hname)].
  assert (r ∈ filter (λ r, nd_node_name r = node_name n) (key_replicas v key)) as Hin
    by (by apply list_elem_of_filter).
  destruct (filter _ _) as [|r' l]; [by apply elem_of_nil in Hin|done].
Qed.

Lemma client_put_own node w :
  node ∈ vm_nodes v →
  wpx P (call_node node (λ conn, client_put conn key data (BobPutOptions_to_grpc BobPutOptions_new_local)))
    (λ r w', nkeeps key data w w' ∧ result_node r = node_name node ∧
       (is_ok r = true → owns w' (node_name node))) w.
Proof.
  intros Hn. apply wpx_call_node; [|intros w1 e Hs _; split; [by apply nsame_keeps|done]].
  intros w1 Hs. eapply wpx_mono; [eapply wpx_wlp; [|apply client_put_node]|].
  - apply cl_put; [by apply list_elem_of_fmap_2|done..].
  - intros r w2 [[Hk Hown] Hname]. split; [eapply nkeeps_trans; [by apply nsame_keeps|done]|].
    split; [done|]. intros Hr rp Hrp Heq. rw /held Heq. by apply Hown.
Qed.

Definition ok_names {A} (l : list (Output A)) : list NodeName := out_node_name <$> l.

(** The nodes asked: their tasks still run, they acknowledged, or they failed. *)
Definition put_state (counts : gmap NodeName nat) (asked : list Node) (w0 : W) (tasks : list Node)
    (oks : list (Output RemotePutResponse)) (errors : list (Output RemotePutError)) (w : W) : Prop :=
  nkeeps key data w0 w ∧
  (node_name <$> tasks) ++ ok_names oks ++ ok_names errors ≡ₚ node_name <$> asked ∧
  tasks ⊆+ asked ∧
  ∀ o, o ∈ oks → owns w (out_node_name o) ∧
    rpr_affected_replicas (out_inner o) = default 1%nat (counts !! out_node_name o).

Lemma put_state_keeps counts asked w0 tasks oks errors w w' :
  nkeeps key data w w' → put_state counts asked w0 tasks oks errors w →
  put_state counts asked w0 tasks oks errors w'.
Proof using Type.
  intros Hk (Hk0 & Hp & Ht & Ho). split; [by eapply nkeeps_trans|]. split; [done|]. split; [done|].
  intros o [Hown Hc]%Ho. split; [by eapply owns_keeps|done].
Qed.

Lemma call_node_put_step counts node w :
  node ∈ vm_nodes v →
  wpx P (call_node_put key data BobPutOptions_new_local counts node)
    (λ r w', nkeeps key data w w' ∧ result_node r = node_name node ∧
       ∀ o, r = Ok o → owns w' (node_name node) ∧
         rpr_affected_replicas (out_inner o) = default 1%nat (counts !! node_name node)) w.
Proof.
  intros Hn. apply wpx_bind. eapply wpx_mono; [by apply client_put_own|].
  intros [o|e] w' (Hk & Hname & Hown); apply wpx_ret; (split; [done|]); (split; [done|]); [|done].
  intros o' [= <-]. split; [by apply Hown|done].
Qed.

Lemma put_at_least_state counts asked at_least w :
  (∀ n, n ∈ asked → n ∈ vm_nodes v) →
  wpx P (put_at_least key data asked at_least BobPutOptions_new_local counts)
    (λ res w', let '(tasks, oks, errors) := res in
       put_state counts asked w tasks oks errors w' ∧
       (at_least ≤ sum_list_with (λ o, rpr_affected_replicas (out_inner o)) oks ∨ tasks = [])%nat) w.
Proof.
  intros Hasked. apply (wpx_call_at_least _ P False (put_state counts asked w)); [| | |by intros []].
  - intros h o e. apply sched_stable_same. intros w1 w2 Hs. by apply put_state_keeps, nsame_keeps.
  - split; [apply nkeeps_refl|]. split; [by rw /ok_names /= !app_nil_r|]. split; [done|].
    by intros o ?%elem_of_nil.
  - intros handles op rest oks errors w1 Hperm (Hk & Hp & Ht & Ho).
    assert (op :: rest ⊆+ asked) as Ht' by (by rw -Hperm).
    assert (op ∈ asked) as Hin by (eapply elem_of_submseteq; [|exact Ht']; by left).
    eapply wpx_mono; [by apply (call_node_put_step counts op), Hasked|].
    intros r w2 (Hk2 & Hname & Hr). split; [by intros []|]. rw Hperm /= in Hp.
    assert (rest ⊆+ asked) as Ht2 by (eapply submseteq_trans; [|exact Ht']; by apply submseteq_cons).
    assert (∀ o, o ∈ oks → owns w2 (out_node_name o) ∧
      rpr_affected_replicas (out_inner o) = default 1%nat (counts !! out_node_name o)) as Ho2.
    { intros o [Hown Hc]%Ho. split; [by eapply owns_keeps|done]. }
    destruct r as [o|e]; simpl in Hname; (split; [by eapply nkeeps_trans|]).
    + split; [rw -Hp /ok_names fmap_app /= Hname; solve_Permutation|]. split; [done|].
      intros o' [Hin'| ->%list_elem_of_singleton]%elem_of_app; [by apply Ho2|].
      rw Hname. by apply Hr.
    + split; [rw -Hp /ok_names fmap_app /= Hname; solve_Permutation|]. by split.
Qed.

(** ** Support nodes and aliens *)

Lemma with_offset_ok o : mapper_ok (with_offset v o).
Proof using Hok. destruct Hok as [H1 H2 H3 H4 H5]. by split. Qed.

Lemma mapper_support_nodes_spec count w :
  wpx P (mapper_support_nodes v key count)
    (λ r w', nsame w w' ∧ (length r ≤ count)%nat ∧ ∀ n, n ∈ r → n ∈ vm_nodes v ∧ n ∉ targets v key) w.
Proof.
  apply wpx_bind. eapply wpx_mono; [apply (cl_observe (v:=v))|]. intros [search first] w1 Hs.
  apply wpx_bind, wpx_gets, wpx_bind.
  destruct (get_support_nodes_run _ search first key count _ (with_offset_ok (support_offset w1))
    (key_replicas_of _ key (with_offset_ok (support_offset w1)))) as (r & v' & Hrun & (_ & Hin & Hlen & _)).
  eapply wpx_expect; [exact Hrun|]. apply wpx_bind, wpx_modify, wpx_ret. simpl.
  split; [eapply nsame_trans; [done|apply cl_offset]|]. split; [lia|]. exact Hin.
Qed.

Lemma put_sup_node_spec ret node x w :
  node ∈ vm_nodes v →
  wpx P (put_sup_node key data ret (node, BobPutOptions_new_alien [x]))
    (λ ret' w', nkeeps key data w w' ∧ (ret' = ret ∧ covered w' x ∨ ∃ e, ret' = ret ++ [mkOutput x e])) w.
Proof.
  intros Hn. apply wpx_bind, wpx_call_node; simpl.
  - intros w1 Hs. eapply wpx_mono; [apply cl_put; [by apply list_elem_of_fmap_2|done..]|].
    intros [o|e] w2 [Hk Ha]; apply wpx_ret;
      (split; [eapply nkeeps_trans; [by apply nsame_keeps|done]|]); [left|right; eauto].
    split; [done|]. exists (node_name node). split; [by apply list_elem_of_fmap_2|].
    apply (Ha eq_refl). by left.
  - intros w1 e Hs _. apply wpx_ret. split; [by apply nsame_keeps|]. right. eauto.
Qed.

Lemma put_sup_nodes_spec sup names w :
  (∀ n, n ∈ sup → n ∈ vm_nodes v) → length sup = length names →
  wpx P (put_sup_nodes key data (alien_put_queries sup names))
    (λ r w', nkeeps key data w w' ∧ ∀ x, x ∈ names → covered w' x ∨
       match r with Ok _ => False | Err errors => x ∈ out_node_name <$> errors end) w.
Proof.
  intros Hsup Hlen. apply wpx_bind.
  eapply wpx_mono; [apply (wpx_for_each _ _ _ (λ done ret w', nkeeps key data w w' ∧
    ∀ n x, (n, BobPutOptions_new_alien [x]) ∈ done → covered w' x ∨ x ∈ out_node_name <$> ret))|].
  - split; [apply nkeeps_refl|]. by intros n x ?%elem_of_nil.
  - intros pre [n o] rest ret w1 Heq [Hk Hin].
    assert ((n, o) ∈ alien_put_queries sup names) as Hq by (rw Heq; apply elem_of_app; right; by left).
    apply list_elem_of_fmap in Hq as ([n' x] & [= -> ->] & Hzip).
    assert (n' ∈ vm_nodes v) as Hn' by (by eapply Hsup, elem_of_zip_l).
    eapply wpx_mono; [by apply put_sup_node_spec|]. intros ret' w2 [Hk2 Hret].
    split; [by eapply nkeeps_trans|].
    intros m y [Hin'|[= -> ->]%list_elem_of_singleton]%elem_of_app.
    + destruct (Hin m y Hin') as [Hc|He]; [left; by eapply covered_keeps|right].
      destruct Hret as [[-> _]|[e ->]]; [done|]. rw fmap_app. apply elem_of_app. by left.
    + destruct Hret as [[-> Hc]|[e ->]]; [by left|right]. rw fmap_app. apply elem_of_app. right. by left.
  - intros ret w' [Hk Hin]. apply wpx_ret. split; [destruct ret; done|]. intros x Hx.
    apply list_elem_of_lookup in Hx as [i Hi].
    destruct (lookup_lt_is_Some_2 sup i) as [n Hn]; [rw Hlen; by eapply lookup_lt_Some|].
    destruct (Hin n x) as [Hc|He]; [|by left|right].
    + apply list_elem_of_fmap. exists (n, x). split; [done|]. apply list_elem_of_lookup. exists i.
      apply lookup_zip_with_Some. eauto.
    + destruct ret; [by apply elem_of_nil in He|done].
Qed.

Lemma put_local_all_spec names w :
  wpx P (put_local_all v names key data (Operation_new_alien (key_id v key)))
    (λ r w', nkeeps key data w w' ∧ (is_ok r = true → ∀ x, x ∈ names → covered w' x) ∧
       (alien_ready w → is_ok r = true)) w.
Proof.
  apply wpx_bind.
  eapply wpx_mono; [apply (wpx_for_each _ _ _ (λ done add w', nkeeps key data w w' ∧
    (∀ x, x ∈ done → covered w' x ∨ x ∈ add) ∧ (alien_ready w → add = [])))|].
  - split; [apply nkeeps_refl|]. split; [|done]. by intros x ?%elem_of_nil.
  - intros pre x rest add w1 _ (Hk & Hin & Hr). apply wpx_bind.
    set (op := set_remote_node_name x (Operation_new_alien (key_id v key))).
    change (put_local v key data op) with (st_put_alien op key data).
    eapply wpx_mono; [eapply wpx_wlp; [apply (cl_st_put_alien (v:=v)); by eexists|]|].
    { apply (put_single_remote v key data (key_id v key) x). }
    intros res w2 ([Hk2 Hready] & _ & Hst). apply wpx_ret. split; [by eapply nkeeps_trans|].
    assert (∀ y, y ∈ pre → covered w2 y ∨ y ∈ add) as Hpre.
    { intros y [Hc|Ha]%Hin; [left; by eapply covered_keeps|by right]. }
    split.
    + destruct res as [[]|e]; intros y [Hy| ->%list_elem_of_singleton]%elem_of_app.
      * by apply Hpre.
      * left. exists (vm_local_node_name v). split; [apply (mok_local v Hok)|].
        apply (cl_local (P:=P) (v:=v)). by apply Hst.
      * destruct (Hpre y Hy) as [Hc|Ha]; [by left|right]. apply elem_of_app. by left.
      * right. apply elem_of_app. right. by left.
    + intros Har. specialize (Hr Har). subst add. destruct Hk as (_ & _ & Hk3 & _).
      by rw (Hready (Hk3 Har) eq_refl).
  - intros add w' (Hk & Hin & Hr). apply wpx_ret. split; [done|]. split.
    + intros Ho x Hx. destruct add; [|done]. destruct (Hin x Hx) as [?|Ha]; [done|by apply elem_of_nil in Ha].
    + intros Har. by rw Hr.
Qed.

(** The aliens: every failed node gets its copy on a support node or on the local node. *)
Lemma put_aliens_spec failed w :
  wpx P (put_aliens v failed key data)
    (λ r w', nkeeps key data w w' ∧ (r = Ok tt → ∀ x, x ∈ failed → covered w' x) ∧
       (alien_ready w → failed ≠ [] → r = Ok tt)) w.
Proof.
  destruct failed as [|f0 failed']; [by apply wpx_ret; split_and!; [apply nkeeps_refl|..]|].
  set (failed := f0 :: failed'). rw /put_aliens -/failed. cbv iota beta.
  apply wpx_bind. eapply wpx_mono; [apply mapper_support_nodes_spec|].
  intros sup w1 (Hs1 & Hlen & Hsup). destruct (Nat.leb_spec (length sup) (length failed)) as [_|]; [|lia].
  cbv zeta. apply wpx_bind. eapply wpx_mono; [apply put_sup_nodes_spec|].
  { intros n Hn. by apply Hsup. }
  { rw length_take. lia. }
  intros r w2 [Hk2 Hcov]. apply wpx_bind. eapply wpx_expect; [by apply get_id|].
  apply wpx_bind. eapply wpx_mono; [apply put_local_all_spec|]. intros r3 w3 (Hk3 & Hc3 & Hr3). apply wpx_ret.
  assert (nkeeps key data w w2) as Hk by (eapply nkeeps_trans; [by apply nsame_keeps|done]).
  split; [by eapply nkeeps_trans|]. split.
  - intros Hr x Hx. assert (is_ok r3 = true) as Ho by (by destruct r3).
    rw -(take_drop (length sup) failed) in Hx. apply elem_of_app in Hx as [Hx|Hx].
    + destruct (Hcov x Hx) as [Hc|He]; [by eapply covered_keeps|]. apply (Hc3 Ho).
      destruct r as [|errors]; [done|]. apply elem_of_app. by right.
    + apply (Hc3 Ho). destruct r; [done|]. apply elem_of_app. by left.
  - intros Har _. destruct Hk as (_ & _ & Hkr & _). specialize (Hr3 (Hkr Har)). by destruct r3.
Qed.

(** ** The first phase: local and remote puts *)

Definition asked : list Node := remote_of v (targets v key).

Lemma asked_in n : n ∈ asked ↔ n ∈ targets v key ∧ node_name n ≠ vm_local_node_name v.
Proof using Type. rw /asked /remote_of list_elem_of_filter. tauto. Qed.

Lemma asked_nodes n : n ∈ asked → n ∈ vm_nodes v.
Proof using Type. intros [Ht _]%asked_in. by apply in_targets in Ht as [? _]. Qed.

Lemma asked_nodup : NoDup (node_name <$> asked).
Proof using Hok.
  eapply sublist_NoDup; [apply (targets_names_nodup v key Hok)|]. apply fmap_sublist, sublist_filter.
Qed.

Lemma asked_name r :
  r ∈ key_replicas v key → nd_node_name r ≠ vm_local_node_name v → nd_node_name r ∈ node_name <$> asked.
Proof using Hok.
  intros Hr Hne. pose proof (target_name v key Hok r Hr) as (n & Hn & Ht)%list_elem_of_fmap.
  rw Hn. apply list_elem_of_fmap_2, asked_in. split; [done|]. by rw -Hn.
Qed.

(** The state of a put before the quorum is counted; [n] local replicas are written. *)
Definition first_phase (counts : gmap NodeName nat) (w0 : W) (tasks : list Node)
    (oks : list (Output RemotePutResponse)) (errors : list (Output RemotePutError)) (n : nat) (w : W) : Prop :=
  put_state counts asked w0 tasks oks errors w ∧
  ∃ sub, sub ⊆+ local_replicas v key ∧ length sub = n ∧ ∀ r, r ∈ sub → held w r.

Section first_phase.
Context (counts : gmap NodeName nat) (w0 w : W) (tasks : list Node) (n : nat).
Context (oks : list (Output RemotePutResponse)) (errors : list (Output RemotePutError)).
Context (Hcounts : counts_ok counts) (Hph : first_phase counts w0 tasks oks errors n w).

Lemma ok_names_nodup : NoDup (ok_names oks).
Proof using Hok Hph.
  destruct Hph as [(_ & Hp & _) _]. pose proof asked_nodup as Hnd. rw -Hp in Hnd.
  apply list.NoDup_app in Hnd as (_ & _ & Hnd). by apply list.NoDup_app in Hnd as (Hnd & _).
Qed.

Lemma ok_names_asked x : x ∈ ok_names oks → x ∈ node_name <$> asked.
Proof using Hph.
  destruct Hph as [(_ & Hp & _) _]. intros Hx. rw -Hp. apply elem_of_app. right. apply elem_of_app. by left.
Qed.

Lemma remote_ok_count :
  sum_list_with (λ o, rpr_affected_replicas (out_inner o)) oks =
  length (filter (λ r, nd_node_name r ∈ ok_names oks) (key_replicas v key)).
Proof using Hok Hph Hcounts.
  rw length_filter_names; [apply ok_names_nodup|].
  pose proof ok_names_asked as Hin. destruct Hph as [(_ & _ & _ & Ho) _].
  clear Hph. induction oks as [|o l IH]; [done|]. simpl.
  assert (∀ (a b a' b' : nat), a = a' → b = b' → (a + b = a' + b')%nat) as Hadd by lia. apply Hadd.
  - destruct (Ho o) as [_ ->]; [by left|]. apply Hcounts.
    pose proof (Hin (out_node_name o) ltac:(by left)) as (a & Ha & Has)%list_elem_of_fmap.
    rw Ha. apply list_elem_of_fmap_2. by apply asked_in in Has as [? _].
  - apply IH; intros; [apply Hin|apply Ho]; by right.
Qed.

(** The replicas written, as many as were counted. *)
Lemma first_phase_written :
  ∃ acked, acked ⊆+ key_replicas v key ∧
    length acked = (sum_list_with (λ o, rpr_affected_replicas (out_inner o)) oks + n)%nat ∧
    ∀ r, r ∈ acked → held w r.
Proof using Hok Hph Hcounts.
  pose proof remote_ok_count as Hc. pose proof ok_names_asked as Hin.
  destruct Hph as [(_ & _ & _ & Ho) (sub & Hsub & Hlen & Hheld)].
  exists (sub ++ filter (λ r, nd_node_name r ∈ ok_names oks) (key_replicas v key)). split_and!.
  - rw -{2}(filter_app_complement (λ r, nd_node_name r = vm_local_node_name v) (key_replicas v key)).
    apply submseteq_app; [done|]. apply filter_submseteq.
    intros r (a & Ha & Has)%Hin%list_elem_of_fmap. rw Ha. by apply asked_in in Has as [_ ?].
  - rw length_app Hc. lia.
  - intros r [Hr|[Hr Hrep]%list_elem_of_filter]%elem_of_app; [by apply Hheld|].
    apply list_elem_of_fmap in Hr as (o & Hname & Hino). destruct (Ho o Hino) as [Hown _]. by apply Hown.
Qed.

(** A replica that is not written belongs to a task or to a failed node. *)
Lemma first_phase_missing r :
  r ∈ key_replicas v key →
  held w r ∨ nd_node_name r ∈ node_name <$> tasks ∨
  nd_node_name r ∈ ok_names errors ∨
  (nd_node_name r = vm_local_node_name v ∧ n ≠ length (local_replicas v key)).
Proof using Hok Hph.
  intros Hr. destruct Hph as [(_ & Hp & _ & Ho) (sub & Hsub & Hlen & Hheld)].
  destruct (decide (nd_node_name r = vm_local_node_name v)) as [Hl|Hne].
  - destruct (decide (n = length (local_replicas v key))) as [Hn|Hn]; [left|by right; right; right].
    apply Hheld. rw (submseteq_length_Permutation _ _ Hsub); [lia|]. by apply list_elem_of_filter.
  - pose proof (asked_name r Hr Hne) as Ha. rw -Hp in Ha.
    apply elem_of_app in Ha as [Ha|[Ha|Ha]%elem_of_app]; [by right; left| |by right; right; left].
    left. apply list_elem_of_fmap in Ha as (o & Hname & Hino). destruct (Ho o Hino) as [Hown _].
    by apply Hown.
Qed.

(** Without failures every replica is counted. *)
Lemma first_phase_all :
  tasks = [] → errors = [] → n = length (local_replicas v key) →
  (sum_list_with (λ o, rpr_affected_replicas (out_inner o)) oks + n)%nat = length (key_replicas v key).
Proof using Hok Hph Hcounts.
  intros Ht He Hn. rw remote_ok_count Hn /local_replicas. destruct Hph as [(_ & Hp & _) _].
  rw Ht He /= app_nil_r in Hp.
  rw -{3}(filter_app_complement (λ r, nd_node_name r = vm_local_node_name v) (key_replicas v key)) length_app.
  rw Nat.add_comm. f_equal. f_equal. apply filter_ext_elem. intros r Hr. rw Hp. split.
  - intros (a & -> & [_ ?]%asked_in)%list_elem_of_fmap. done.
  - by apply asked_name.
Qed.
End first_phase.

(** The two sets of puts, in either order. *)
Lemma first_phase_run counts quorum w :
  counts_ok counts →
  let remote := put_remote_nodes_quorum v key data quorum counts in
  let local_all := put_local_node_all v key data (key_id v key) (DiskPath_from <$> local_replicas v key) in
  let Q := λ tasks (oks : list (Output RemotePutResponse)) errors n w', first_phase counts w tasks oks errors n w' ∧
    (quorum ≤ sum_list_with (λ o, rpr_affected_replicas (out_inner o)) oks ∨ tasks = [])%nat in
  wpx P (r ← remote; n ← local_all; mret (r, n)) (λ x w', Q x.1.1.1 x.1.1.2 x.1.2 x.2 w') w ∧
  wpx P (n ← local_all; r ← remote; mret (r, n)) (λ x w', Q x.1.1.1 x.1.1.2 x.1.2 x.2 w') w ∧
  wpx P remote (λ x w', local_replicas v key = [] → Q x.1.1 x.1.2 x.2 0%nat w') w.
Proof.
  intros Hcounts remote local_all Q.
  assert (∀ w, wpx P remote (λ x w', put_state counts asked w x.1.1 x.1.2 x.2 w' ∧
    (quorum ≤ sum_list_with (λ o, rpr_affected_replicas (out_inner o)) x.1.2 ∨ x.1.1 = [])%nat) w) as Hremote.
  { intros w1. apply wpx_bind. eapply wpx_expect; [by apply get_targets|].
    eapply wpx_mono; [by apply (put_at_least_state counts asked quorum), asked_nodes|].
    by intros [[tasks oks] errors] w2 Hs. }
  split_and!.
  - apply wpx_bind. eapply wpx_mono; [apply Hremote|]. intros r w1 [Hs Hq].
    apply wpx_bind. eapply wpx_mono; [apply put_local_node_all_held|]. intros n w2 [Hk Hsub]. apply wpx_ret.
    split; [|done]. split; [by eapply put_state_keeps|done].
  - apply wpx_bind. eapply wpx_mono; [apply put_local_node_all_held|].
    intros n w1 [Hk (sub & Hsub & Hlen & Hheld)]. apply wpx_bind.
    eapply wpx_mono; [apply Hremote|]. intros r w2 [(Hk2 & Hs) Hq]. apply wpx_ret. split; [|done].
    split; [split; [by eapply nkeeps_trans|done]|]. exists sub. split; [done|]. split; [done|].
    intros rp Hrp. eapply held_keeps; [done|by apply Hheld].
  - eapply wpx_mono; [apply Hremote|]. intros r w1 [Hs Hq] Hnone. split; [|done]. split; [done|].
    exists []. split_and!; [by rw Hnone|done|]. by intros rp ?%elem_of_nil.
Qed.

(** What a put that returned has done. *)
Definition put_done (quorum : nat) (w0 : W) (res : result unit Error * option BackgroundPut) (w : W) : Prop :=
  nkeeps key data w0 w ∧
  (res.1 = Ok tt →
     match res.2 with
     | None => ∀ r, r ∈ key_replicas v key → held w r ∨ covered w (nd_node_name r)
     | Some bg =>
         (∃ acked, acked ⊆+ key_replicas v key ∧ (quorum ≤ length acked)%nat ∧ ∀ r, r ∈ acked → held w r) ∧
         (∀ n, n ∈ bg_rest_tasks bg → n ∈ vm_nodes v) ∧
         ∀ r, r ∈ key_replicas v key → held w r ∨
           nd_node_name r ∈ bg_failed_nodes bg ++ (node_name <$> bg_rest_tasks bg)
     end) ∧
  (is_err res.1 = true → res.2 = None) ∧
  (alien_ready w0 → (quorum ≤ length (key_replicas v key))%nat → res.1 = Ok tt).

(** The second phase: counting, and aliens when the quorum is not reached. *)
Lemma second_phase counts quorum w0 w tasks oks errors n failed :
  counts_ok counts → first_phase counts w0 tasks oks errors n w →
  (quorum ≤ sum_list_with (λ o, rpr_affected_replicas (out_inner o)) oks ∨ tasks = [])%nat →
  (∀ x, x ∈ failed ↔ x ∈ ok_names errors ∨ x = vm_local_node_name v ∧ n ≠ length (local_replicas v key)) →
  wpx P
    (if (quorum <=? sum_list_with (λ f, rpr_affected_replicas (out_inner f)) oks + n)%nat then
       if bool_decide (tasks = []) && bool_decide (failed = []) then mret (Ok tt, None)
       else mret (Ok tt, Some {| bg_rest_tasks := tasks; bg_failed_nodes := failed |})
     else if bool_decide (tasks = []) then
       r ← put_aliens v failed key data;
       mret (match r with Err err => Err err | Ok _ => Ok tt end, None)
     else panic) (put_done quorum w0) w.
Proof.
  intros Hcounts Hph Hq Hfailed.
  pose proof (first_phase_missing counts w0 w tasks n oks errors Hph) as Hmiss.
  pose proof (first_phase_written counts w0 w tasks n oks errors Hcounts Hph) as Hwritten.
  pose proof (first_phase_all counts w0 w tasks n oks errors Hcounts Hph) as Hall.
  pose proof Hph as [(Hk & _ & Ht & _) _].
  assert (∀ r, r ∈ key_replicas v key →
    held w r ∨ nd_node_name r ∈ failed ∨ nd_node_name r ∈ node_name <$> tasks) as Hmiss'.
  { intros r Hr. rw Hfailed. destruct (Hmiss r Hr) as [?|[?|[?|[? ?]]]]; auto. }
  destruct (Nat.leb_spec quorum (sum_list_with (λ o, rpr_affected_replicas (out_inner o)) oks + n)%nat)
    as [Hle|Hlt].
  - destruct (bool_decide (tasks = []) && bool_decide (failed = [])) eqn:Hb; apply wpx_ret.
    + apply andb_true_iff in Hb as [Hbt%bool_decide_eq_true Hbf%bool_decide_eq_true].
      split; [done|]. split; [|done]. intros _ r Hr. left.
      destruct (Hmiss' r Hr) as [?|[Hf|Hf]]; [done| |].
      * rw Hbf in Hf. by apply elem_of_nil in Hf.
      * rw Hbt in Hf. by apply elem_of_nil in Hf.
    + split; [done|]. split; [|done]. intros _. destruct Hwritten as (acked & Hsub & Hlen & Hheld). split_and!.
      * exists acked. split_and!; [done|lia|done].
      * intros m Hm. apply asked_nodes. by eapply elem_of_submseteq.
      * intros r Hr. rw elem_of_app. by apply Hmiss'.
  - destruct Hq as [Hq|Hq]; [lia|]. rw bool_decide_true //.
    apply wpx_bind. eapply wpx_mono; [apply put_aliens_spec|]. intros r w2 (Hk2 & Hcov & Hready).
    apply wpx_ret. split; [by eapply nkeeps_trans|]. split_and!; [|done|].
    + simpl. intros Hr. assert (r = Ok tt) as Hr' by (by destruct r as [[]|]). intros rp Hrp.
      destruct (Hmiss' rp Hrp) as [Hh|[Hf|Hf]]; [left; by eapply held_keeps|right; by apply Hcov|].
      rw Hq in Hf. by apply elem_of_nil in Hf.
    + intros Har Hlen. simpl. rw Hready //.
      * by apply Hk.
      * intros Hf. assert (∀ x, ¬ (x ∈ ok_names errors ∨ x = vm_local_node_name v ∧ n ≠ length (local_replicas v key)))
          as Hno. { intros x Hx%Hfailed. rw Hf in Hx. by apply elem_of_nil in Hx. }
        rw Hall in Hlt; [done| | |lia].
        -- destruct errors as [|e l]; [done|]. destruct (Hno (out_node_name e)). left. by left.
        -- destruct (decide (n = length (local_replicas v key))) as [?|Hn]; [done|].
           destruct (Hno (vm_local_node_name v)). by right.
Qed.

Lemma put_done_nsame quorum w0 w1 res w :
  nsame w0 w1 → put_done quorum w1 res w → put_done quorum w0 res w.
Proof using Type.
  intros Hs (Hk & Ho & He & Ha). split; [eapply nkeeps_trans; [by apply nsame_keeps|done]|].
  split_and!; [done..|]. intros Hr. apply Ha, Hs, Hr.
Qed.

Lemma Quorum_put_done quorum w : wpx P (Quorum_put v quorum key data) (put_done quorum w) w.
Proof.
  destruct counts_exist as (counts & Hc & Hcounts).
  apply wpx_bind. eapply wpx_expect; [by apply get_op|]. cbv beta iota. apply wpx_bind.
  eapply wpx_expect; [exact Hc|]. apply wpx_bind.
  destruct (local_replicas v key) as [|r0 L] eqn:HL.
  - destruct (first_phase_run counts quorum w Hcounts) as (_ & _ & Hr).
    apply wpx_bind. eapply wpx_mono; [exact Hr|]. intros [[tasks oks] errors] w1 Hph. apply wpx_ret.
    destruct (Hph HL) as [Hph' Hq]. apply (second_phase counts quorum w w1 tasks oks errors 0); [done..|].
    intros x. rw HL /=. split; [by left|]. by intros [?|[_ []]].
  - apply wpx_bind. eapply wpx_mono; [apply (cl_choose (v:=v))|]. intros first w1 Hs.
    destruct (first_phase_run counts quorum w1 Hcounts) as (Hrl & Hlr & _). rw HL in Hrl, Hlr.
    assert (∀ x w2, first_phase counts w1 x.1.1.1 x.1.1.2 x.1.2 x.2 w2 ∧
      (quorum ≤ sum_list_with (λ o, rpr_affected_replicas (out_inner o)) x.1.1.2 ∨ x.1.1.1 = [])%nat →
      wpx P (let '((tasks, oks, errors), local_put_ok) := x in
        let failed_nodes := (if (local_put_ok =? length (DiskPath_from <$> r0 :: L))%nat then []
          else [vm_local_node_name v]) ++ (out_node_name <$> errors) in
        if (quorum <=? sum_list_with (λ f, rpr_affected_replicas (out_inner f)) oks + local_put_ok)%nat then
          if bool_decide (tasks = []) && bool_decide (failed_nodes = []) then mret (Ok tt, None)
          else mret (Ok tt, Some {| bg_rest_tasks := tasks; bg_failed_nodes := failed_nodes |})
        else if bool_decide (tasks = []) then
          r ← put_aliens v failed_nodes key data;
          mret (match r with Err err => Err err | Ok _ => Ok tt end, None)
        else panic) (put_done quorum w) w2) as Hsecond.
    { intros [[[tasks oks] errors] n] w2 [Hph Hq].
      eapply wpx_mono; [apply (second_phase counts quorum w1 w2 tasks oks errors n); [done..|]|].
      - intros x. rw elem_of_app -HL length_fmap. destruct (Nat.eqb_spec n (length (local_replicas v key))) as [Hn|Hn].
        + split; [intros [Hx|Hx]; [by apply elem_of_nil in Hx|by left]|intros [Hx|[_ Hx]]; [by right|done]].
        + rw list_elem_of_singleton. split; [intros [->|Hx]; [by right|by left]|intros [Hx|[-> _]]; [by right|by left]].
      - intros res w3. by apply put_done_nsame. }
    destruct (first =? 0)%nat; (eapply wpx_mono; [first [exact Hrl|exact Hlr]|]); exact Hsecond.
Qed.

(** ** The background task *)

Lemma background_go_spec counts fuel tasks failed w :
  (length tasks < fuel)%nat → (∀ n, n ∈ tasks → n ∈ vm_nodes v) →
  wpx P (background_go fuel (call_node_put key data BobPutOptions_new_local counts) tasks failed)
    (λ failed' w', nkeeps key data w w' ∧ (∀ x, x ∈ failed → x ∈ failed') ∧
       ∀ n, n ∈ tasks → owns w' (node_name n) ∨ node_name n ∈ failed') w.
Proof.
  revert tasks failed w. induction fuel as [|fuel IH]; intros tasks failed w Hf Hin; [lia|]. simpl.
  assert (∀ w1, sched_stable P False (λ w', nsame w1 w')) as Hst.
  { intros w1. apply sched_stable_same. intros w2 w3 H23 H12. by eapply nsame_trans. }
  apply wpx_bind. apply (wpx_choose_task P False (λ w', nsame w w')); [apply Hst|apply nsame_refl| |].
  - intros ->. apply wpx_ret. split; [apply nkeeps_refl|]. split; [done|]. by intros n ?%elem_of_nil.
  - intros op rest w1 Hperm Hs1. apply wpx_bind.
    assert (∀ n, n ∈ op :: rest → n ∈ vm_nodes v) as Hin' by (intros n; rw -Hperm; apply Hin).
    apply (wpx_run_spawned _ P False (λ w', nsame w1 w')); [apply Hst|apply nsame_refl| |by intros []].
    intros w2 Hs2. eapply wpx_mono; [apply (call_node_put_step counts op), Hin'; by left|].
    intros r w3 (Hk & Hname & Hown). split; [|by intros []].
    assert (nkeeps key data w w3) as Hk3.
    { eapply nkeeps_trans; [apply nsame_keeps; by eapply nsame_trans|done]. }
    eapply wpx_mono; [apply IH; [apply Permutation_length in Hperm; simpl in Hperm; lia|]|].
    { intros n Hn. apply Hin'. by right. }
    intros failed' w4 (Hk4 & Hsub & Hrest). split; [by eapply nkeeps_trans|]. split.
    + intros x Hx. apply Hsub. destruct r; [done|]. apply elem_of_app. by left.
    + intros n. rw Hperm. intros [->|Hn]%elem_of_cons; [|by apply Hrest].
      destruct r as [o|e]; [left|right].
      * destruct (Hown o eq_refl) as [Ho _]. by eapply owns_keeps.
      * apply Hsub, elem_of_app. right. simpl in Hname. rw Hname. by left.
Qed.

Lemma background_put_spec counts bg w :
  (∀ n, n ∈ bg_rest_tasks bg → n ∈ vm_nodes v) →
  wpx P (background_put v bg key data counts)
    (λ _ w', nkeeps key data w w' ∧
       (alien_ready w → ∀ x, x ∈ bg_failed_nodes bg ++ (node_name <$> bg_rest_tasks bg) →
          owns w' x ∨ covered w' x)) w.
Proof.
  intros Hin. apply wpx_bind. eapply wpx_mono; [apply background_go_spec; [lia|done]|].
  intros failed w1 (Hk & Hsub & Hrest).
  assert (∀ x, x ∈ bg_failed_nodes bg ++ (node_name <$> bg_rest_tasks bg) → owns w1 x ∨ x ∈ failed) as Hall.
  { intros x [Hx|(n & -> & Hn)%list_elem_of_fmap]%elem_of_app; [right; by apply Hsub|by apply Hrest]. }
  destruct failed as [|f0 failed]; [apply wpx_ret|apply wpx_bind].
  - split; [done|]. intros _ x Hx. destruct (Hall x Hx) as [?|Hf]; [by left|by apply elem_of_nil in Hf].
  - eapply wpx_mono; [apply put_aliens_spec|]. intros r w2 (Hk2 & Hcov & Hr). apply wpx_ret.
    split; [by eapply nkeeps_trans|]. intros Har x Hx. destruct (Hall x Hx) as [Ho|Hf].
    + left. by eapply owns_keeps.
    + right. apply Hcov; [|done]. apply Hr; [|done]. by apply Hk.
Qed.

(** A put and, after it, the task it left behind. *)
Definition put_then_background (quorum : nat) : M W (result unit Error) :=
  res ← Quorum_put v quorum key data;
  _ ← match res.2 with
      | Some bg =>
          counts ← expect (get_replicas_count_by_node v key);
          background_put v bg key data counts
      | None => mret tt
      end;
  mret res.1.

Lemma put_then_background_spec quorum w :
  wpx P (put_then_background quorum)
    (λ r w', nkeeps key data w w' ∧
       (alien_ready w → (quorum ≤ length (key_replicas v key))%nat →
          r = Ok tt ∧ ∀ rp, rp ∈ key_replicas v key → held w' rp ∨ covered w' (nd_node_name rp))) w.
Proof.
  apply wpx_bind. eapply wpx_mono; [apply Quorum_put_done|].
  intros [r [bg|]] w1 (Hk & Hdone & Herr & Hready); simpl in *; apply wpx_bind; [|apply wpx_ret, wpx_ret].
  - destruct counts_exist as (counts & Hc & _). apply wpx_bind. eapply wpx_expect; [exact Hc|].
    destruct r as [[]|e]; [|by discriminate (Herr eq_refl)].
    destruct (Hdone eq_refl) as (_ & Hin & Hmiss).
    eapply wpx_mono; [by apply background_put_spec|]. intros _ w2 [Hk2 Hcov]. apply wpx_ret.
    split; [by eapply nkeeps_trans|]. intros Har _. split; [done|]. intros rp Hrp.
    destruct (Hmiss rp Hrp) as [Hh|Hin']; [left; by eapply held_keeps|].
    destruct (Hcov (proj1 (proj2 (proj2 Hk)) Har) _ Hin') as [Ho|?]; [left; by apply Ho|by right].
  - split; [done|]. intros Har Hlen. specialize (Hready Har Hlen). split; [done|]. by apply Hdone.
Qed.

(** ** Theorems *)

(** C1: A put under the quorum policy never fails its assertion, and when it answers [Ok]:
    either it is finished and every replica of the key is written on its node or has an
    alien copy on some node; or at least [quorum] replicas are written on their nodes and
    the rest is handed to the background task, which knows every node that still misses
    its replica.  A put that fails leaves no background task, and as long as the local
    node can write aliens and the quorum does not exceed the number of replicas, it does
    not fail. *)
Theorem quorum_put_durable quorum w : wpx P (Quorum_put v quorum key data) (put_done quorum w) w.
Proof. apply Quorum_put_done. Qed.

(** C3: A put never makes a node lose other data: only copies of the data under the key
    are new.  When its background task is finished, every replica of the key is on its
    node or has an alien copy, whatever the other nodes answered, if the local node can
    write aliens. *)
Theorem quorum_put_settles quorum w :
  wpx P (put_then_background quorum)
    (λ r w', nkeeps key data w w' ∧
       (alien_ready w → (quorum ≤ length (key_replicas v key))%nat →
          r = Ok tt ∧ ∀ rp, rp ∈ key_replicas v key → held w' rp ∨ covered w' (nd_node_name rp))) w.
Proof. apply put_then_background_spec. Qed.

(** [put_aliens] gives every failed node an alien copy on a support node, or on the
    local node when the support nodes are too few or fail; it fails only when the local
    alien storage does, or when it is called without a failed node. *)
Theorem put_aliens_covers failed w :
  wpx P (put_aliens v failed key data)
    (λ r w', nkeeps key data w w' ∧ (r = Ok tt → ∀ x, x ∈ failed → covered w' x) ∧
       (alien_ready w → failed ≠ [] → r = Ok tt)) w.
Proof. apply put_aliens_spec. Qed.
End put.
