(* ===== verification/QuorumGet.v ===== *)
(** * QuorumGet: reads under the quorum policy

    The theorems on [Quorum_get] and on reading one's own write. *)

From Corelib Require Import ssreflect.
From stdpp Require Import base option list strings gmap sets numbers.
From Stdlib Require Import Strings.Byte ZArith Lia.
From S2P Require Import Prelude Data Text Errors Options Node ClusterConfig NodeConfig Mapper Backend Network Operations Quorum ClusterLaws QuorumPut.

#[local] Set Default Proof Using "Type*".

Section get.
Context {P : Prop} {W : Type} {v : Virtual}
  `{key_size : KeySize, StorageLaws W, !Network W, !SupportState W, !ClusterState W, !ClusterLaws P W v}.
Context (Hok : mapper_ok v) (key : BobKey) (Hkey : key_wf key).

(** The data of the key at a place a read of the node looks at. *)
Definition own_data (w : W) (n : NodeName) (d : BobData) : Prop :=
  ∃ r, r ∈ key_replicas v key ∧ nd_node_name r = n ∧ nstored w n (replica_loc v key r) key d.
Definition alien_data (w : W) (n : NodeName) (d : BobData) : Prop :=
  ∃ x, nstored w n (alien_for v key x) key d.

Lemma own_data_same w w' n d : nsame w w' → own_data w' n d ↔ own_data w n d.
Proof using Type. intros (Hs & _). rw /own_data. by setoid_rewrite Hs. Qed.
Lemma alien_data_same w w' n d : nsame w w' → alien_data w' n d ↔ alien_data w n d.
Proof using Type. intros (Hs & _). rw /alien_data. by setoid_rewrite Hs. Qed.

(** A search: what it finds is there, and it finds something if there is something. *)
Definition search_post (w : W) (S : BobData → Prop) (up : Prop) (r : option BobData) (w' : W) : Prop :=
  nsame w w' ∧ (∀ d, r = Some d → S d) ∧ (up → (∃ d, S d) → is_Some r).

Lemma lookup_local_node_spec r w :
  r ∈ local_replicas v key →
  wpx P (lookup_local_node key (key_id v key) (DiskPath_from r))
    (search_post w (λ d, nstored w (vm_local_node_name v) (replica_loc v key r) key d)
       (reachable w (vm_local_node_name v))) w.
Proof.
  intros Hr. apply wpx_bind.
  change (get_local key (Operation_new_local (key_id v key) (DiskPath_from r)))
    with (st_get (Operation_new_local (key_id v key) (DiskPath_from r)) key).
  eapply wpx_mono.
  { eapply wpx_wlp; [by apply (cl_st_get (v:=v))|].
    instantiate (1 := λ res _, ∀ d, res = Ok d → stored w (replica_loc v key r) key d).
    rw /wpx. destruct (st_get _ _ w) as [[res w']|] eqn:Hg; [|done]. intros d ->. by eapply law_get. }
  intros res w' [[Hs Hrel] Hst]. apply wpx_ret. split; [done|]. split.
  - intros d Hd. destruct res as [d'|e]; simplify_eq. apply (cl_local (P:=P)). by apply Hst.
  - intros Hup [d Hd]. apply (cl_local (P:=P) (v:=v)) in Hd. specialize (Hrel Hup _ d eq_refl Hd). by destruct res.
Qed.

Lemma lookup_local_paths_spec L w :
  (∀ r, r ∈ L → r ∈ local_replicas v key) →
  wpx P (lookup_local_paths key (key_id v key) (DiskPath_from <$> L))
    (search_post w (λ d, ∃ r, r ∈ L ∧ nstored w (vm_local_node_name v) (replica_loc v key r) key d)
       (reachable w (vm_local_node_name v))) w.
Proof.
  revert w. induction L as [|r L IH]; intros w Hin; simpl.
  - apply wpx_ret. split; [apply nsame_refl|]. split; [done|]. by intros _ (d & r & ?%elem_of_nil & _).
  - apply wpx_bind. eapply wpx_mono; [apply lookup_local_node_spec, Hin; by left|].
    intros [d|] w1 (Hs1 & Hd & Hup).
    + apply wpx_ret. split; [done|]. split; [|done]. intros d' [= <-]. exists r. split; [by left|by apply Hd].
    + eapply wpx_mono; [apply IH; intros; apply Hin; by right|]. intros res w2 (Hs2 & Hd2 & Hup2).
      split; [by eapply nsame_trans|]. split.
      * intros d Hr. destruct (Hd2 d Hr) as (r' & Hr' & Hst). exists r'. split; [by right|by apply Hs1].
      * intros Hreach (d & r' & Hr' & Hst). apply elem_of_cons in Hr' as [->|Hr'].
        -- destruct (Hup Hreach) as [? ?]; [by exists d|done].
        -- apply Hup2; [by apply Hs1|]. exists d, r'. split; [done|by apply Hs1].
Qed.

Lemma lookup_local_alien_spec w :
  wpx P (lookup_local_alien key (key_id v key))
    (search_post w (alien_data w (vm_local_node_name v)) (reachable w (vm_local_node_name v))) w.
Proof.
  apply wpx_bind.
  change (get_local key (Operation_new_alien (key_id v key)))
    with (st_get_alien (Operation_new_alien (key_id v key)) key).
  eapply wpx_mono.
  { eapply wpx_wlp; [apply (cl_st_get_alien (v:=v))|].
    instantiate (1 := λ res _, ∀ d, res = Ok d → ∃ x, stored w (alien_for v key x) key d).
    rw /wpx. destruct (st_get_alien _ _ w) as [[res w']|] eqn:Hg; [|done]. intros d ->.
    by apply (law_get_alien _ _ _ _ _ Hg). }
  intros res w' [[Hs Hrel] Hst]. apply wpx_ret. split; [done|]. split.
  - intros d Hd. destruct res as [d'|e]; simplify_eq. destruct (Hst d eq_refl) as [x Hx].
    exists x. by apply (cl_local (P:=P)).
  - intros Hup (d & x & Hx). apply (cl_local (P:=P) (v:=v)) in Hx. specialize (Hrel Hup x d Hx). by destruct res.
Qed.

(** A race of requests: [found n] is the data a request to [n] can answer with. *)
Lemma get_any_spec (found : NodeName → BobData → Prop) nodes options w :
  (∀ n w1, n ∈ nodes → nsame w w1 →
     wpx P (client_get (node_name n) key options) (λ r w2, nsame w1 w2 ∧
       (∀ o, r = Ok o → found (node_name n) (out_inner o)) ∧
       (reachable w1 (node_name n) → (∃ d, found (node_name n) d) → is_ok r = true)) w1) →
  wpx P (get_any key nodes options) (λ r w', nsame w w' ∧
    (∀ o, r = Some o → ∃ n, n ∈ nodes ∧ found (node_name n) (out_inner o)) ∧
    (∀ n d, n ∈ nodes → reachable w (node_name n) → found (node_name n) d → is_Some r)) w.
Proof.
  intros Hcall.
  apply (wpx_first_ok _ P False (λ handles w', nsame w w' ∧ (∀ n, n ∈ handles → n ∈ nodes) ∧
    ∀ n d, n ∈ nodes → reachable w (node_name n) → found (node_name n) d → n ∈ handles)).
  - intros h. apply sched_stable_same. intros w1 w2 Hs (Hs1 & Hr). split; [by eapply nsame_trans|done].
  - by split; [apply nsame_refl|].
  - intros handles op rest w1 Hperm (Hs1 & Hsub & Hmiss).
    assert (op ∈ nodes) as Hop by (apply Hsub; rw Hperm; by left).
    apply wpx_call_node.
    + intros w2 Hs2. eapply wpx_mono; [apply Hcall; [done|by eapply nsame_trans]|].
      intros r w3 (Hs3 & Hfound & Hup).
      assert (nsame w w3) as Hs by (eapply nsame_trans; [done|]; by eapply nsame_trans).
      destruct r as [o|e].
      * split; [done|]. split; [|by intros; eexists]. intros o' [= <-]. exists op. split; [done|by apply Hfound].
      * split; [done|]. split; [intros n Hn; apply Hsub; rw Hperm; by right|].
        intros n d Hn Hreach Hd. specialize (Hmiss n d Hn Hreach Hd). rw Hperm in Hmiss.
        apply elem_of_cons in Hmiss as [->|?]; [|done]. exfalso.
        assert (reachable w2 (node_name op)) as Hr2 by (by apply Hs2, Hs1).
        by discriminate (Hup Hr2 (ex_intro _ d Hd)).
    + intros w2 e Hs2 Hno. split; [by eapply nsame_trans|].
      split; [intros n Hn; apply Hsub; rw Hperm; by right|].
      intros n d Hn Hreach Hd. specialize (Hmiss n d Hn Hreach Hd). rw Hperm in Hmiss.
      apply elem_of_cons in Hmiss as [->|?]; [|done]. destruct Hno. by apply Hs1.
  - intros w1 (Hs1 & _ & Hmiss). split; [done|]. split; [done|].
    intros n d Hn Hreach Hd. by apply (Hmiss n d Hn Hreach), elem_of_nil in Hd.
Qed.

(** What a search on remote nodes gives. *)
Lemma lookup_remote_nodes_spec w :
  wpx P (lookup_remote_nodes v key) (λ r w', nsame w w' ∧
    (∀ d, r = Some d → ∃ n, n ∈ node_names v ∧ own_data w n d) ∧
    (∀ n d, n ≠ vm_local_node_name v → reachable w n → own_data w n d → is_Some r)) w.
Proof.
  apply wpx_bind. eapply wpx_expect; [by apply get_targets|]. apply wpx_bind.
  eapply wpx_mono; [apply (get_any_spec (own_data w) (asked (v:=v) key))|].
  - intros n w1 Hn Hs. eapply wpx_mono; [apply cl_get; [by apply list_elem_of_fmap_2, (asked_nodes (v:=v) key)|done]|].
    intros r w2 (Hs2 & Hok2 & Hup). split; [done|]. split.
    + intros o Ho. destruct (Hok2 o Ho) as (rp & Hrp & Hn' & Hst). exists rp. split_and!; [done..|by apply Hs].
    + intros Hr (d & rp & Hrp & Hn' & Hst). eapply Hup; [done..|]. by apply Hs.
  - intros r w1 (Hs & Hfound & Hup). apply wpx_ret. split; [done|]. split.
    + intros d Hd. destruct r as [o|]; simplify_eq/=. destruct (Hfound o eq_refl) as (n & Hn & Hd).
      exists (node_name n). split; [|done]. by apply list_elem_of_fmap_2, (asked_nodes (v:=v) key).
    + intros n d Hne Hr Hd. pose proof Hd as (rp & Hrp & Hn & _). subst n.
      pose proof (asked_name (v:=v) Hok key rp Hrp Hne) as (m & Hm & Hin)%list_elem_of_fmap.
      rw fmap_is_Some. rw Hm in Hr, Hd. by apply (Hup m d).
Qed.

Lemma remote_in n : n ∈ remote_of v (vm_nodes v) ↔ n ∈ vm_nodes v ∧ node_name n ≠ vm_local_node_name v.
Proof using Type. rw /remote_of list_elem_of_filter. tauto. Qed.

Lemma lookup_remote_aliens_spec w :
  wpx P (lookup_remote_aliens v key) (λ r w', nsame w w' ∧
    (∀ d, r = Some d → ∃ n, n ∈ node_names v ∧ alien_data w n d) ∧
    (∀ n d, n ∈ node_names v → n ≠ vm_local_node_name v → reachable w n → alien_data w n d → is_Some r)) w.
Proof.
  apply wpx_bind. eapply wpx_mono; [apply (get_any_spec (alien_data w) (remote_of v (vm_nodes v)))|].
  - intros n w1 [Hn _]%remote_in Hs. eapply wpx_mono; [apply cl_get_alien; [by apply list_elem_of_fmap_2|done]|].
    intros r w2 (Hs2 & Hok2 & Hup). split; [done|]. split.
    + intros o Ho. by apply (alien_data_same w w1 _ _ Hs), Hok2.
    + intros Hr (d & x & Hst). eapply Hup; [done..|]. by apply Hs.
  - intros r w1 (Hs & Hfound & Hup). apply wpx_ret. split; [done|]. split.
    + intros d Hd. destruct r as [o|]; simplify_eq/=. destruct (Hfound o eq_refl) as (n & [Hn _]%remote_in & Hd).
      exists (node_name n). split; [by apply list_elem_of_fmap_2|done].
    + intros n d (m & -> & Hm)%list_elem_of_fmap Hne Hr Hd. rw fmap_is_Some.
      apply (Hup m d); [by apply remote_in|done..].
Qed.

(** Where the cluster can still find the key. *)
Definition findable (w : W) (n : NodeName) (d : BobData) : Prop := own_data w n d ∨ alien_data w n d.

Lemma own_data_node w n d : own_data w n d → n ∈ node_names v.
Proof using Hok. intros (r & Hr & <- & _). by apply key_replicas_on with (key := key). Qed.

Lemma findable_same w w' n d : nsame w w' → findable w' n d ↔ findable w n d.
Proof using Type. intros Hs. by rw /findable (own_data_same w w') // (alien_data_same w w'). Qed.

Lemma local_own w d :
  (∃ r, r ∈ local_replicas v key ∧ nstored w (vm_local_node_name v) (replica_loc v key r) key d) ↔
  own_data w (vm_local_node_name v) d.
Proof using Type.
  rw /own_data /local_replicas. setoid_rewrite list_elem_of_filter. naive_solver.
Qed.

Lemma Quorum_get_spec w :
  wpx P (Quorum_get v key) (λ r w', nsame w w' ∧
    (∀ d, r = Ok d → ∃ n, n ∈ node_names v ∧ findable w n d) ∧
    (∀ e, r = Err e → e = key_not_found key ∧
       ∀ n d, n ∈ node_names v → reachable w n → ¬ findable w n d)) w.
Proof.
  apply wpx_bind. eapply wpx_expect; [by apply get_op|]. cbv beta iota. apply wpx_bind.
  set (local := vm_local_node_name v). pose proof (mok_local v Hok) as Hloc.
  assert (default [] match local_replicas v key with [] => None | l => Some (DiskPath_from <$> l) end =
    DiskPath_from <$> local_replicas v key) as -> by (by destruct (local_replicas v key)).
  eapply wpx_mono; [by apply lookup_local_paths_spec|]. intros [d|] w1 (Hs1 & Hd1 & Hup1).
  { apply wpx_ret. split; [done|]. split; [|done]. intros d' [= <-]. exists local. split; [done|].
    left. apply local_own. by apply Hd1. }
  apply wpx_bind. eapply wpx_mono; [apply lookup_remote_nodes_spec|]. intros [d|] w2 (Hs2 & Hd2 & Hup2);
    assert (nsame w w2) as Hs02 by (by eapply nsame_trans).
  { apply wpx_ret. split; [done|]. split; [|done]. intros d' [= <-].
    destruct (Hd2 d eq_refl) as (n & Hn & Hown). exists n. split; [done|]. left.
    by apply (own_data_same w w1 n d Hs1). }
  apply wpx_bind. eapply wpx_mono; [apply lookup_local_alien_spec|]. intros [d|] w3 (Hs3 & Hd3 & Hup3);
    assert (nsame w w3) as Hs03 by (by eapply nsame_trans).
  { apply wpx_ret. split; [done|]. split; [|done]. intros d' [= <-]. exists local. split; [done|].
    right. apply (alien_data_same w w2 local d Hs02). by apply Hd3. }
  apply wpx_bind. eapply wpx_mono; [apply lookup_remote_aliens_spec|]. intros [d|] w4 (Hs4 & Hd4 & Hup4);
    assert (nsame w w4) as Hs04 by (by eapply nsame_trans); apply wpx_ret; (split; [done|]).
  { split; [|done]. intros d' [= <-]. destruct (Hd4 d eq_refl) as (n & Hn & Hal). exists n. split; [done|].
    right. by apply (alien_data_same w w3 n d Hs03). }
  split; [done|]. intros e [= <-]. split; [done|]. intros n d Hn Hr Hd.
  pose proof (proj2 (proj2 Hs1)) as R1. pose proof (proj2 (proj2 Hs02)) as R2.
  pose proof (proj2 (proj2 Hs03)) as R3.
  destruct (decide (n = local)) as [->|Hne], Hd as [Hd|Hd].
  - apply local_own in Hd. by destruct (Hup1 Hr (ex_intro _ d Hd)).
  - apply (alien_data_same w w2 local d Hs02) in Hd. by destruct (Hup3 (R2 _ Hr) (ex_intro _ d Hd)).
  - apply (own_data_same w w1 n d Hs1) in Hd. by destruct (Hup2 n d Hne (R1 _ Hr) Hd).
  - apply (alien_data_same w w3 n d Hs03) in Hd. by destruct (Hup4 n d Hn Hne (R3 _ Hr) Hd).
Qed.

(** ** Theorems *)

Lemma held_findable data w r : r ∈ key_replicas v key → held (v:=v) key data w r → findable w (nd_node_name r) data.
Proof using Type. intros Hr [Hh|Hh]; [left; by exists r|right; by eexists]. Qed.

Lemma put_done_findable data quorum w0 bg w :
  (0 < quorum)%nat → put_done (v:=v) key data quorum w0 (Ok tt, bg) w →
  ∃ n, n ∈ node_names v ∧ findable w n data.
Proof using Hok.
  intros Hq (_ & Hdone & _). specialize (Hdone eq_refl).
  destruct (key_replicas_of v key Hok) as (_ & Hne & _). simpl in Hdone. destruct bg as [bg|].
  - destruct Hdone as ((acked & Hsub & Hlen & Hheld) & _).
    destruct acked as [|r acked]; [simpl in Hlen; lia|].
    assert (r ∈ key_replicas v key) as Hr by (eapply elem_of_submseteq; [|exact Hsub]; by left).
    exists (nd_node_name r). split; [by eapply key_replicas_on|]. apply held_findable; [done|].
    apply Hheld. by left.
  - destruct (key_replicas v key) as [|r l] eqn:Hl; [done|].
    assert (r ∈ key_replicas v key) as Hr by (rw Hl; by left). rw -Hl in Hdone.
    destruct (Hdone r Hr) as [Hh|(h & Hh & Hst)].
    + exists (nd_node_name r). split; [by eapply key_replicas_on|]. by apply held_findable.
    + exists h. split; [done|]. right. by eexists.
Qed.

(** C2: A get under the quorum policy changes nothing and never aborts.  What it returns
    is stored for the key on a node of the cluster; when it reports [KeyNotFound], no node
    that answers has the key, neither on a replica's disk nor in its alien storage; and
    [KeyNotFound] of the key is its only error. *)
Theorem quorum_get_correct w :
  wpx P (Quorum_get v key) (λ r w', nsame w w' ∧
    (∀ d, r = Ok d → ∃ n, n ∈ node_names v ∧ findable w n d) ∧
    (∀ e, r = Err e → e = key_not_found key ∧
       ∀ n d, n ∈ node_names v → reachable w n → ¬ findable w n d)) w.
Proof. apply Quorum_get_spec. Qed.

(** C5: Reading one's write: after a successful put of a new key, and before its
    background task has run, a get returns the data, if the nodes of the cluster answer. *)
Theorem quorum_read_your_write quorum data w :
  (0 < quorum)%nat → (∀ n d, ¬ findable w n d) → (∀ n, n ∈ node_names v → reachable w n) →
  wpx P (put ← Quorum_put v quorum key data; get ← Quorum_get v key; mret (put.1, get))
    (λ r _, r.1 = Ok tt → r.2 = Ok data) w.
Proof.
  intros Hq Hnew Hreach. apply wpx_bind. eapply wpx_mono; [by apply Quorum_put_done|].
  intros [r bg] w1 Hdone. apply wpx_bind. eapply wpx_mono; [apply Quorum_get_spec|].
  intros g w2 (_ & Hfound & Herr). apply wpx_ret. simpl. intros ->.
  pose proof Hdone as ((_ & Honly & _ & Hstay) & _).
  assert (∀ n d, findable w1 n d → d = data) as Hdata.
  { intros n d [(r & Hr & Hn & Hs)|(x & Hs)]; (destruct (Honly _ _ _ _ Hs) as [Hold|[_ ?]]; [|done]);
      destruct (Hnew n d); [left; by exists r|right; by exists x]. }
  destruct g as [d|e].
  - destruct (Hfound d eq_refl) as (n & _ & Hd). by rw (Hdata n d Hd).
  - destruct (put_done_findable data quorum w bg w1 Hq Hdone) as (n & Hn & Hd).
    destruct (Herr e eq_refl) as [_ Hno]. destruct (Hno n data Hn); [|done]. by apply Hstay, Hreach.
Qed.
End get.
