(* ===== verification/QuorumDelete.v ===== *)
(** * QuorumDelete: deletes under the quorum policy *)

From Corelib Require Import ssreflect.
From stdpp Require Import base option list strings gmap sets numbers.
From Stdlib Require Import Strings.Byte ZArith Lia.
From S2P Require Import Prelude Data Text Errors Options Node ClusterConfig NodeConfig Mapper Backend Network Operations Quorum ClusterLaws QuorumPut QuorumGet.

#[local] Set Default Proof Using "Type*".

(** [drain_collect] takes [count] elements and leaves the others. *)
Lemma drain_collect_spec `{Countable T, !HashOrder} (count : nat) (s : gset T) :
  (count ≤ size s)%nat →
  length (drain_collect count s).1 = count ∧
  s ≡ list_to_set (drain_collect count s).1 ∪ (drain_collect count s).2.
Proof.
  intros Hle. rw /drain_collect.
  assert (s ≡ list_to_set (hash_order (elements s))) as Hs.
  { intros x. by rw elem_of_list_to_set hash_order_perm elem_of_elements. }
  destruct (Nat.leb_spec (size s) count) as [Hsz|Hsz]; simpl.
  - split; [rw hash_order_perm; unfold size, set_size in *; simpl in *; lia|]. rw -Hs. set_solver.
  - destruct (Nat.eqb_spec count 0) as [->|Hc]; simpl; [split; [done|set_solver]|].
    assert (length (hash_order (elements s)) = size s) as Hlen by (by rw hash_order_perm).
    split; [rw length_take; lia|]. rw Nat.min_l; [lia|]. rw -list_to_set_app take_drop. exact Hs.
Qed.

Section delete.
Context {P : Prop} {W : Type} {v : Virtual} `{!HashOrder}
  `{key_size : KeySize, StorageLaws W, !Network W, !SupportState W, !ClusterState W, !ClusterLaws P W v}.
Context (Hok : mapper_ok v) (key : BobKey) (Hkey : key_wf key) (m : BobMeta).

(** The node has no copy of its own, and no alien copy for a target of the key. *)
Definition own_gone (w : W) (n : NodeName) : Prop := ∀ d, ¬ own_data (v:=v) key w n d.
Definition aliens_gone (w : W) (n : NodeName) : Prop :=
  ∀ x d, x ∈ node_name <$> targets v key → ¬ nstored w n (alien_for v key x) key d.

Lemma own_gone_drops w w' n : ndrops key w w' → own_gone w n → own_gone w' n.
Proof using Type. intros (Hd & _) Hg d (r & Hr & Hn & Hs). apply (Hg d). exists r. auto. Qed.
Lemma aliens_gone_drops w w' n : ndrops key w w' → aliens_gone w n → aliens_gone w' n.
Proof using Type. intros (Hd & _) Hg x d Hx Hs. by apply (Hg x d Hx), Hd. Qed.
Lemma drops_reachable w w' n : ndrops key w w' → reachable w n → reachable w' n.
Proof using Type. intros (_ & _ & _ & Hr). apply Hr. Qed.

(** ** The remote deletes *)

Definition request_done (w0 : W) (request : Node * BobDeleteOptions) (w : W) : Prop :=
  reachable w0 (node_name request.1) →
  if bdo_is_alien request.2 then aliens_gone w (node_name request.1) else own_gone w (node_name request.1).

Lemma request_done_drops w0 q w w' : ndrops key w w' → request_done w0 q w → request_done w0 q w'.
Proof using Type.
  intros Hd Hq Hr. specialize (Hq Hr).
  destruct (bdo_is_alien q.2); [by eapply aliens_gone_drops|by eapply own_gone_drops].
Qed.

Lemma call_node_delete_spec q w :
  q.1 ∈ vm_nodes v → bdo_force_node q.2 = true →
  wpx P (call_node_delete key m q) (λ r w', ndrops key w w' ∧ request_done w q w') w.
Proof.
  destruct q as [node options]. simpl. intros Hn Hf. apply wpx_bind, wpx_call_node.
  - intros w1 Hs. eapply wpx_mono; [apply cl_delete; [by apply list_elem_of_fmap_2|done..]|].
    intros r w2 [Hd Hgone]. apply wpx_ret. split; [eapply ndrops_trans; [by apply nsame_drops|done]|].
    intros Hr. assert (reachable w1 (node_name node)) as Hr1 by (by apply Hs).
    specialize (Hgone (or_intror Hr1)). simpl. destruct (bdo_is_alien options); [exact Hgone|].
    intros d (r' & Hr' & Hn' & Hst). by apply (Hgone r' d).
  - intros w1 e Hs Hno. apply wpx_ret. split; [by apply nsame_drops|]. by intros Hr.
Qed.

Lemma delete_on_remote_nodes_spec requests w :
  (∀ q, q ∈ requests → q.1 ∈ vm_nodes v ∧ bdo_force_node q.2 = true) →
  wpx P (delete_on_remote_nodes key m requests)
    (λ _ w', ndrops key w w' ∧ ∀ q, q ∈ requests → request_done w q w') w.
Proof.
  intros Hreq. apply wpx_bind.
  eapply wpx_mono; [apply (wpx_call_all _ P False (λ handles _ w', ndrops key w w' ∧
    (∀ q, q ∈ handles → q ∈ requests) ∧ ∀ q, q ∈ requests → q ∈ handles ∨ request_done w q w'))|].
  - intros h e. apply sched_stable_same. intros w1 w2 Hs%(nsame_drops key) (Hd & Hin & Hdone).
    split; [by eapply ndrops_trans|]. split; [done|].
    intros q [?|Hq]%Hdone; [by left|right]. by eapply request_done_drops.
  - split; [apply ndrops_refl|]. split; [done|]. intros q Hq. by left.
  - intros handles op rest errors w1 Hperm (Hd & Hin & Hdone).
    destruct (Hreq op) as [Hnode Hforce]; [apply Hin; rw Hperm; by left|].
    eapply wpx_mono; [by apply call_node_delete_spec|]. intros r w2 [Hd2 Hq2]. split; [by intros []|].
    assert (ndrops key w w2 ∧ (∀ q, q ∈ rest → q ∈ requests) ∧
      ∀ q, q ∈ requests → q ∈ rest ∨ request_done w q w2) as Hgoal; [|by destruct r].
    split; [by eapply ndrops_trans|]. split; [intros q Hq; apply Hin; rw Hperm; by right|].
    intros q Hq. destruct (Hdone q Hq) as [Hh|Hq1]; [|right; by eapply request_done_drops].
    rw Hperm in Hh. apply elem_of_cons in Hh as [->|?]; [right|by left].
    intros Hr. apply Hq2. by eapply drops_reachable.
  - by intros [].
  - intros res w1 [_ (Hd & _ & Hdone)]. apply wpx_ret. split; [done|].
    intros q [Hnil|?]%Hdone; [by apply elem_of_nil in Hnil|done].
Qed.

Lemma delete_at_remote_nodes_spec w :
  wpx P (delete_at_remote_nodes v key m) (λ _ w', ndrops key w w' ∧
    ∀ n, n ≠ vm_local_node_name v → reachable w n → own_gone w' n) w.
Proof.
  apply wpx_bind. eapply wpx_expect; [by apply get_targets|].
  assert (∀ w', (∀ q, q ∈ (λ n, (n, BobDeleteOptions_new_local)) <$> asked (v:=v) key → request_done w q w') →
    ∀ n, n ≠ vm_local_node_name v → reachable w n → own_gone w' n) as Hfin.
  { intros w' Hq n Hne Hr d Hd. pose proof Hd as (r & Hrep & Hn & _). subst n.
    pose proof (asked_name (v:=v) Hok key r Hrep Hne) as (t & Ht & Hin)%list_elem_of_fmap.
    rw Ht in Hr, Hd. apply (Hq (t, BobDeleteOptions_new_local)) in Hd; [done| |done].
    apply list_elem_of_fmap. by exists t. }
  change (remote_of v (targets v key)) with (asked (v:=v) key).
  apply wpx_bind. rw /delete_on_remote_nodes_with_options.
  destruct (asked (v:=v) key) as [|n0 l] eqn:Hask.
  - apply wpx_ret, wpx_ret. split; [apply ndrops_refl|]. apply Hfin. by intros q ?%elem_of_nil.
  - apply wpx_bind. eapply wpx_mono; [apply delete_on_remote_nodes_spec|].
    + intros q (n & -> & Hn)%list_elem_of_fmap. split; [|done]. simpl.
      apply (asked_nodes (v:=v) key). by rw Hask.
    + intros r w1 [Hd Hdone]. apply wpx_ret, wpx_ret. split; [done|]. by apply Hfin.
Qed.

(** ** The local deletes *)

Lemma delete_local_paths_spec w :
  wpx P (for_each (λ (failed_nodes : gset NodeName) disk_path,
      res ← delete_on_local_node key m (key_id v key) disk_path;
      mret (match res with
            | Err _ => {[vm_local_node_name v]} ∪ failed_nodes
            | Ok _ => failed_nodes
            end)) ∅ (DiskPath_from <$> local_replicas v key))
    (λ _ w', ndrops key w w' ∧ (reachable w (vm_local_node_name v) → own_gone w' (vm_local_node_name v))) w.
Proof.
  eapply wpx_mono; [apply (wpx_for_each _ _ _ (λ done _ w', ndrops key w w' ∧
    (reachable w (vm_local_node_name v) → ∀ r d, DiskPath_from r ∈ done →
       ¬ nstored w' (vm_local_node_name v) (replica_loc v key r) key d)))|].
  - split; [apply ndrops_refl|]. by intros _ r d ?%elem_of_nil.
  - intros pre path rest failed w1 Heq [Hd Hgone].
    assert (∃ r0, path = DiskPath_from r0) as [r0 ->].
    { assert (path ∈ DiskPath_from <$> local_replicas v key) as (r0 & -> & _)%list_elem_of_fmap; [|by exists r0].
      rw Heq. apply elem_of_app. right. by left. }
    apply wpx_bind, wpx_bind.
    change (delete_local key m (Operation_new_local (key_id v key) (DiskPath_from r0)) true)
      with (_ ← expect (Some (nd_disk_name r0)); st_delete (Operation_new_local (key_id v key) (DiskPath_from r0)) key m).
    apply wpx_bind. eapply wpx_expect; [done|]. eapply wpx_mono; [by apply (cl_st_delete (v:=v))|].
    intros res w2 [Hd2 Hgone2]. apply wpx_ret, wpx_ret. split; [by eapply ndrops_trans|].
    intros Hr r d [Hin|Hin%list_elem_of_singleton]%elem_of_app Hs.
    + by apply (Hgone Hr r d Hin), Hd2.
    + apply (cl_local (P:=P)) in Hs.
      apply (Hgone2 ltac:(by eapply drops_reachable) (replica_loc v key r0) d eq_refl).
      rw /replica_loc. rw /replica_loc in Hs. injection Hin as Hname _. by rw -Hname.
  - intros failed w1 [Hd Hgone]. split; [done|]. intros Hr d (r & Hrep & Hn & Hs).
    apply (Hgone Hr r d); [|done]. apply list_elem_of_fmap_2, list_elem_of_filter. done.
Qed.

Lemma delete_on_local_aliens_spec force w :
  wpx P (delete_on_local_aliens key m (targets v key) force (key_id v key))
    (λ _ w', ndrops key w w' ∧ (reachable w (vm_local_node_name v) → aliens_gone w' (vm_local_node_name v))) w.
Proof.
  apply wpx_bind. eapply wpx_mono; [apply (wpx_for_each _ _ _ (λ done _ w', ndrops key w w' ∧
    (reachable w (vm_local_node_name v) → ∀ x d, x ∈ node_name <$> done →
       ¬ nstored w' (vm_local_node_name v) (alien_for v key x) key d)))|].
  - split; [apply ndrops_refl|]. by intros _ x d ?%elem_of_nil.
  - intros pre node rest failed w1 _ [Hd Hgone]. apply wpx_bind.
    eapply wpx_mono; [apply (cl_st_delete_alien (v:=v)); by eexists|].
    intros res w2 [Hd2 Hgone2]. apply wpx_ret. split; [by eapply ndrops_trans|].
    intros Hr x d. rw fmap_app elem_of_app /= list_elem_of_singleton. intros [Hin| ->] Hs.
    + by apply (Hgone Hr x d Hin), Hd2.
    + apply (cl_local (P:=P)) in Hs.
      apply (Hgone2 ltac:(by eapply drops_reachable) (alien_for v key (node_name node)) d eq_refl Hs).
  - intros failed w1 [Hd Hgone]. apply wpx_ret. split; [done|]. intros Hr x d Hx. by apply Hgone.
Qed.

(** ** The aliens *)

Lemma delete_sup_aliens_spec failed w :
  wpx P (delete_sup_aliens v failed key m)
    (λ res w', ndrops key w w' ∧ ∀ n, n ∈ vm_nodes v → node_name n ∈ res.1 →
       reachable w (node_name n) → aliens_gone w' (node_name n)) w.
Proof.
  rw /delete_sup_aliens. destruct (Nat.ltb_spec 0 (size failed)) as [_|_].
  2: { apply wpx_ret. split; [apply ndrops_refl|]. intros n _ Hn. set_solver. }
  apply wpx_bind. eapply wpx_mono; [apply mapper_support_nodes_spec; done|].
  intros sup w1 (Hs & Hlen & Hsup). destruct (drain_collect_spec (length sup) failed Hlen) as [Hdl _].
  destruct (drain_collect (length sup) failed) as [drained failed'] eqn:Hdr. simpl in Hdl.
  apply wpx_bind. eapply wpx_mono; [apply delete_on_remote_nodes_spec|].
  { intros q ([n x] & -> & Hz)%list_elem_of_fmap. split; [|done]. simpl.
    eapply Hsup, elem_of_zip_l, Hz. }
  intros r w2 [Hd Hdone]. apply wpx_ret. split; [eapply ndrops_trans; [by apply nsame_drops|done]|]. simpl.
  intros n Hn (n' & Hname & [i Hi]%list_elem_of_lookup)%elem_of_list_to_set%list_elem_of_fmap Hr.
  destruct (lookup_lt_is_Some_2 drained i) as [x Hx]; [rw Hdl; by eapply lookup_lt_Some|].
  rw Hname. apply (Hdone (n', BobDeleteOptions_new_alien [x])).
  - apply list_elem_of_fmap. exists (n', x). split; [done|]. apply list_elem_of_lookup. exists i.
    apply lookup_zip_with_Some. eauto.
  - simpl. rw -Hname. by apply Hs.
Qed.

Lemma delete_aliens_spec failed w :
  wpx P (delete_aliens v failed key m)
    (λ r w', ndrops key w w' ∧ (r = Ok tt ∨ r = Err internal) ∧
       ∀ n, n ∈ node_names v → reachable w n → aliens_gone w' n) w.
Proof.
  apply wpx_bind. eapply wpx_mono; [apply delete_sup_aliens_spec|].
  intros [sup_set failed'] w1 [Hd1 Hsup]. simpl in Hsup. apply wpx_bind.
  eapply wpx_mono; [apply delete_on_remote_nodes_spec|].
  { intros q (n & -> & [_ Hn]%list_elem_of_filter)%list_elem_of_fmap. by split. }
  intros r w2 [Hd2 Hother].
  apply wpx_bind. eapply wpx_expect; [by apply get_targets|]. apply wpx_bind. eapply wpx_expect; [by apply get_id|].
  apply wpx_bind. eapply wpx_mono; [apply delete_on_local_aliens_spec|].
  intros res w3 [Hd3 Hlocal]. apply wpx_ret.
  assert (ndrops key w w2) as Hd by (by eapply ndrops_trans).
  split; [by eapply ndrops_trans|]. split; [destruct res; auto|].
  intros n (t & -> & Ht)%list_elem_of_fmap Hr.
  destruct (decide (node_name t = vm_local_node_name v)) as [Hl|Hl].
  { rw Hl. apply Hlocal. rw -Hl. by eapply drops_reachable. }
  destruct (decide (node_name t ∈ sup_set)) as [Hin|Hin].
  - apply (aliens_gone_drops w2 w3 _ Hd3), (aliens_gone_drops w1 w2 _ Hd2). exact (Hsup t Ht Hin Hr).
  - apply (aliens_gone_drops w2 w3 _ Hd3), (Hother (t, BobDeleteOptions_new_alien [])).
    + apply list_elem_of_fmap. exists t. split; [done|]. by apply list_elem_of_filter.
    + simpl. by eapply drops_reachable.
Qed.

Lemma Quorum_delete_spec w :
  wpx P (Quorum_delete v key m)
    (λ r w', ndrops key w w' ∧ (r = Ok tt ∨ r = Err internal) ∧
       ∀ n, n ∈ node_names v → reachable w n → own_gone w' n ∧ aliens_gone w' n) w.
Proof.
  apply wpx_bind. eapply wpx_expect; [by apply get_op|]. cbv beta iota. apply wpx_bind.
  assert (default [] match local_replicas v key with [] => None | l => Some (DiskPath_from <$> l) end =
    DiskPath_from <$> local_replicas v key) as -> by (by destruct (local_replicas v key)).
  eapply wpx_mono; [apply delete_local_paths_spec|]. intros failed w1 [Hd1 Hloc]. apply wpx_bind.
  eapply wpx_mono; [apply delete_at_remote_nodes_spec|]. intros remote w2 [Hd2 Hrem]. apply wpx_bind.
  assert (ndrops key w w2) as Hd12 by (by eapply ndrops_trans).
  eapply wpx_mono; [apply delete_aliens_spec|]. intros r w3 (Hd3 & Hr & Hal). apply wpx_ret.
  split; [by eapply ndrops_trans|]. split; [destruct Hr; subst; auto|]. intros n Hn Hreach. split.
  - apply (own_gone_drops w2 w3 _ Hd3). destruct (decide (n = vm_local_node_name v)) as [->|Hne].
    + apply (own_gone_drops w1 w2 _ Hd2). by apply Hloc.
    + apply Hrem; [done|]. by eapply drops_reachable.
  - apply Hal; [done|]. by eapply drops_reachable.
Qed.

(** C6: A delete under the quorum policy never aborts and never touches another key.  Every
    node that answers ends without the key: its own replicas are deleted, and so are its
    alien copies for the targets of the key, whether it was asked as a target, as a support
    node, as one of the other nodes, or is the local node. *)
Theorem quorum_delete_gone w :
  wpx P (Quorum_delete v key m)
    (λ r w', ndrops key w w' ∧ (r = Ok tt ∨ r = Err internal) ∧
       ∀ n, n ∈ node_names v → reachable w n → own_gone w' n ∧ aliens_gone w' n) w.
Proof. apply Quorum_delete_spec. Qed.
End delete.
