(* ===== verification/QuorumExist.v ===== *)
(** * QuorumExist: existence checks under the quorum policy *)

From Corelib Require Import ssreflect.
From stdpp Require Import base option list strings gmap sets numbers.
From Stdlib Require Import Strings.Byte ZArith Lia.
From S2P Require Import Prelude Data Text Errors Options Node ClusterConfig NodeConfig Mapper Backend Network Operations Quorum ClusterLaws QuorumPut QuorumGet.

#[local] Set Default Proof Using "Type*".

(** ** Index maps *)

Lemma im_collect_spec {T} (data : list T) (m : IndexMap) :
  (∀ i, i ∈ m → (i < length data)%nat) →
  ∃ ks, im_collect data m = Some ks ∧ length ks = length m ∧
    ∀ j i, m !! j = Some i → ks !! j = data !! i.
Proof.
  rw /im_collect. induction m as [|i m IH]; intros Hin; simpl; [by exists []|].
  destruct (lookup_lt_is_Some_2 data i) as [x Hx]; [apply Hin; by left|].
  destruct IH as (ks & -> & Hlen & Hks); [intros i' Hi'; apply Hin; by right|].
  rw Hx /=. exists (x :: ks). split; [done|]. split; [simpl; by rw Hlen|].
  intros [|j] i' Hj; simpl in *; [by simplify_eq|by apply Hks].
Qed.

Lemma im_collect_Some {T} (data : list T) (m : IndexMap) ks :
  im_collect data m = Some ks →
  length ks = length m ∧ (∀ j i, m !! j = Some i → ks !! j = data !! i) ∧ ∀ k, k ∈ ks → k ∈ data.
Proof.
  intros Hm%mapM_Some. split; [symmetry; by eapply Forall2_length|]. split.
  - intros j i Hj. destruct (Forall2_lookup_l _ _ _ _ _ Hm Hj) as (x & -> & Hx). done.
  - intros k [j Hj]%list_elem_of_lookup. destruct (Forall2_lookup_r _ _ _ _ _ Hm Hj) as (i & _ & Hi).
    by eapply list_elem_of_lookup_2.
Qed.

(** [or_at] over a list of answers. *)
Lemma ofold_or_at (l : list (nat * bool)) (original : list bool) :
  (∀ p, p ∈ l → (p.1 < length original)%nat) →
  ∃ r, ofold or_at original l = Some r ∧ length r = length original ∧
    ∀ i, r !! i = Some true ↔ original !! i = Some true ∨ (i, true) ∈ l.
Proof.
  intros Hin. destruct (ofold_ind or_at l (λ done r, length r = length original ∧
    ∀ i, r !! i = Some true ↔ original !! i = Some true ∨ (i, true) ∈ done) original)
    as (r & Hr & Hlen & Hl); [| |by exists r].
  - split; [done|]. intros i. rw elem_of_nil. tauto.
  - intros pre [i b] rest acc -> [Hlen Hacc].
    destruct (lookup_lt_is_Some_2 acc i) as [old Hold].
    { rw Hlen. apply (Hin (i, b)). apply elem_of_app. right. by left. }
    exists (<[i := old || b]> acc). rw /or_at /= Hold /=. split; [done|]. rw length_insert. split; [done|].
    intros i'. rw elem_of_app list_elem_of_singleton. destruct (decide (i' = i)) as [->|Hne].
    + rw list_lookup_insert_eq; [by eapply lookup_lt_Some|]. specialize (Hacc i). rw Hold in Hacc.
      destruct old, b; naive_solver.
    + rw list_lookup_insert_ne // Hacc. naive_solver.
Qed.

Lemma update_existence_spec (m : IndexMap) (original mapped : list bool) :
  length m = length mapped → (∀ i, i ∈ m → (i < length original)%nat) →
  ∃ r, update_existence m original mapped = Some r ∧ length r = length original ∧
    ∀ i, r !! i = Some true ↔
      original !! i = Some true ∨ ∃ j, m !! j = Some i ∧ mapped !! j = Some true.
Proof.
  intros Hlen Hin. rw /update_existence Hlen Nat.eqb_refl.
  destruct (ofold_or_at (zip m mapped) original) as (r & Hr & Hl & Hi).
  { intros [i b] Hp%elem_of_zip_l. by apply Hin. }
  exists r. split; [done|]. split; [done|]. intros i. rw Hi.
  assert ((i, true) ∈ zip m mapped ↔ ∃ j, m !! j = Some i ∧ mapped !! j = Some true) as ->; [|done].
  rw list_elem_of_lookup. setoid_rewrite lookup_zip_with_Some. naive_solver.
Qed.

Lemma retain_not_existed_spec (original : list bool) (m : IndexMap) :
  (∀ i, i ∈ m → (i < length original)%nat) →
  ∃ m', retain_not_existed original m = Some m' ∧ ∀ i, i ∈ m' ↔ i ∈ m ∧ original !! i ≠ Some true.
Proof.
  induction m as [|i m IH]; intros Hin; simpl.
  - exists []. split; [done|]. intros i. rw elem_of_nil. tauto.
  - destruct (lookup_lt_is_Some_2 original i) as [b Hb]; [apply Hin; by left|].
    destruct IH as (m' & -> & Hm'); [intros i' Hi'; apply Hin; by right|]. rw Hb /=.
    eexists. split; [done|]. intros i'. destruct b.
    + rw Hm' elem_of_cons. split; [tauto|]. intros [[->|?] Hne]; [done|by split].
    + rw !elem_of_cons Hm'. split; [|tauto]. intros [->|?]; [|tauto]. split; [by left|]. by rw Hb.
Qed.

Lemma where_not_exists_spec (data : list bool) i :
  i ∈ where_not_exists data ↔ data !! i = Some false.
Proof.
  rw /where_not_exists list_elem_of_omap. split.
  - intros ([j b] & Hj & Hb). apply list_elem_of_lookup in Hj as [n Hn].
    rw list_lookup_imap in Hn. destruct (data !! n) as [c|] eqn:Hc; simplify_eq/=. by destruct b; simplify_eq.
  - intros Hi. exists (i, false). split; [|done]. apply list_elem_of_lookup. exists i.
    by rw list_lookup_imap Hi.
Qed.

(** ** Grouping the keys by nodes *)

Definition nm_names (m : node_map) : list NodeName := node_name <$> m.*1.

(** The node of this name is to be asked for the key at this index. *)
Definition nm_has (m : node_map) (name : NodeName) (i : nat) : Prop :=
  ∃ n im, (n, im) ∈ m ∧ node_name n = name ∧ i ∈ im.

Lemma nm_lookup_Some n m im : nm_lookup n m = Some im → ∃ n', (n', im) ∈ m ∧ node_name n' = node_name n.
Proof.
  rw /nm_lookup. induction m as [|[n' im'] m IH]; simpl; [done|].
  rw {1}/Node_eq. case_bool_decide as Hn.
  - intros [= <-]. exists n'. split; [by left|done].
  - intros (n2 & Hin & Hn2)%IH. exists n2. split; [by right|done].
Qed.

Lemma nm_lookup_None n m : nm_lookup n m = None ↔ node_name n ∉ nm_names m.
Proof.
  rw /nm_lookup /nm_names. induction m as [|[n' im'] m IH]; simpl; [by split; [intros _ ?%elem_of_nil|]|].
  rw {1}/Node_eq. case_bool_decide as Hn; rw elem_of_cons; [|rw IH]; naive_solver.
Qed.

Lemma nm_update_nodes n f m : (nm_update n f m).*1 = m.*1.
Proof.
  induction m as [|[n' im'] m IH]; simpl; [done|]. destruct (Node_eq n' n); simpl; [done|]. f_equal. exact IH.
Qed.

Lemma nm_update_names n f m : nm_names (nm_update n f m) = nm_names m.
Proof. by rw /nm_names nm_update_nodes. Qed.

Lemma nm_has_cons n im m name i :
  nm_has ((n, im) :: m) name i ↔ (node_name n = name ∧ i ∈ im) ∨ nm_has m name i.
Proof. rw /nm_has. setoid_rewrite elem_of_cons. naive_solver. Qed.

Lemma nm_update_has n i m name j :
  node_name n ∈ nm_names m →
  nm_has (nm_update n (im_push i) m) name j ↔ nm_has m name j ∨ (name = node_name n ∧ j = i).
Proof.
  rw /nm_names. induction m as [|[n' im'] m IH]; simpl; [by intros ?%elem_of_nil|].
  rw /Node_eq. case_bool_decide as Hn.
  - intros _. rw !nm_has_cons /im_push elem_of_app list_elem_of_singleton. naive_solver.
  - rw elem_of_cons. intros [?|Hin]; [congruence|]. rw !nm_has_cons IH //. tauto.
Qed.

Lemma nm_snoc_has m n im name j : nm_has (m ++ [(n, im)]) name j ↔ nm_has m name j ∨ (name = node_name n ∧ j ∈ im).
Proof. rw /nm_has. setoid_rewrite elem_of_app. setoid_rewrite list_elem_of_singleton. naive_solver. Qed.

Lemma nm_entry_push_has n i m name j :
  nm_has (nm_entry_push n i m) name j ↔ nm_has m name j ∨ (name = node_name n ∧ j = i).
Proof.
  rw /nm_entry_push. destruct (nm_lookup n m) as [im|] eqn:Hl.
  - apply nm_update_has. apply nm_lookup_Some in Hl as (n' & Hin & <-).
    apply list_elem_of_fmap_2. by apply (list_elem_of_fmap_2 fst _ (n', im)).
  - rw nm_snoc_has /im_push /IndexMap_new /= list_elem_of_singleton. done.
Qed.

Lemma nm_lookup_in n im m : NoDup (nm_names m) → (n, im) ∈ m → nm_lookup n m = Some im.
Proof.
  rw /nm_lookup /nm_names. induction m as [|[n' im'] m IH]; simpl; [by intros _ ?%elem_of_nil|].
  intros [Hn Hnd]%list.NoDup_cons [[= -> ->]|Hin]%elem_of_cons.
  - by rw /Node_eq bool_decide_true.
  - rw {1}/Node_eq bool_decide_false; [|by apply IH]. intros Heq. apply Hn. rw Heq.
    apply list_elem_of_fmap_2. by apply (list_elem_of_fmap_2 fst _ (n, im)).
Qed.

Lemma find_entry {A} (name : NodeName) (x : A) (l : list (NodeName * A)) :
  NoDup l.*1 → (name, x) ∈ l → List.find (λ p, bool_decide (p.1 = name)) l = Some (name, x).
Proof.
  induction l as [|[name' x'] l IH]; simpl; [by intros _ ?%elem_of_nil|].
  intros [Hn Hnd]%list.NoDup_cons [[= -> ->]|Hin]%elem_of_cons; [by rw bool_decide_true|].
  rw bool_decide_false; [|by apply IH]. intros ->. apply Hn. by apply (list_elem_of_fmap_2 fst _ (name, x)).
Qed.

Section grouping.
Context {key_size : KeySize} (v : Virtual) (Hok : mapper_ok v).
#[local] Abbreviation local := (vm_local_node_name v).

(** The keys given so far, as pairs of a node and an index, are in their groups. *)
Record grouped (g : grouping) (R : NodeName → nat → Prop) : Prop := {
  gr_nodup : NoDup (nm_names (g_primary g) ++ nm_names (g_secondary g));
  gr_nodes : ∀ n, n ∈ (g_primary g).*1 ++ (g_secondary g).*1 → n ∈ vm_nodes v ∧ node_name n ≠ local;
  gr_local : ∀ i, i ∈ g_local g ↔ R local i;
  gr_remote : ∀ name i, name ≠ local →
    nm_has (g_primary g) name i ∨ nm_has (g_secondary g) name i ↔ R name i;
}.

Lemma grouped_ext g R R' : (∀ n i, R n i ↔ R' n i) → grouped g R → grouped g R'.
Proof using Type. intros HR [H1 H2 H3 H4]. split; [done|done| |]; intros; rw -HR; auto. Qed.

Lemma group_node_grouped i g node R :
  node ∈ vm_nodes v → grouped g R →
  grouped (group_node v i g node) (λ n j, R n j ∨ n = node_name node ∧ j = i).
Proof using Type.
  intros Hn [Hnd Hin Hl Hr]. rw /group_node. case_bool_decide as Hloc.
  { split; simpl; [done|done| |].
    - intros j. rw /im_push elem_of_app list_elem_of_singleton Hl Hloc. naive_solver.
    - intros name j Hne. rw Hr //. naive_solver congruence. }
  assert (∀ name j, name ≠ local → ∀ A B : Prop, (A ∨ B ↔ R name j) →
    (A ∨ (name = node_name node ∧ j = i) ∨ B ↔ R name j ∨ name = node_name node ∧ j = i)) as Hadd by tauto.
  assert (∀ j, R local j ↔ R local j ∨ local = node_name node ∧ j = i) as Hlocal.
  { intros j. split; [by left|]. by intros [?|[? _]]. }
  destruct (nm_lookup node (g_primary g)) as [im|] eqn:Hp.
  - assert (node_name node ∈ nm_names (g_primary g)) as Hname.
    { destruct (decide (node_name node ∈ nm_names (g_primary g))) as [?|Hc]; [done|].
      apply nm_lookup_None in Hc. congruence. }
    split; simpl.
    + by rw nm_update_names.
    + intros n. rw nm_update_nodes. apply Hin.
    + intros j. by rw Hl.
    + intros name j Hne. rw nm_update_has // -Hr //. tauto.
  - split; simpl.
    + rw /nm_entry_push. destruct (nm_lookup node (g_secondary g)) as [im|] eqn:Hs; [by rw nm_update_names|].
      rw /nm_names !fmap_app /= app_assoc. apply list.NoDup_app. split; [exact Hnd|].
      split; [|apply NoDup_singleton]. intros x Hx ->%list_elem_of_singleton.
      apply nm_lookup_None in Hp, Hs. apply elem_of_app in Hx. tauto.
    + intros n. rw elem_of_app /nm_entry_push. intros [Hx|Hx]; [apply Hin, elem_of_app; by left|].
      destruct (nm_lookup node (g_secondary g)) as [im|].
      * rw nm_update_nodes in Hx. apply Hin, elem_of_app. by right.
      * rw fmap_app in Hx. apply elem_of_app in Hx as [Hx| ->%list_elem_of_singleton]; [|done].
        apply Hin, elem_of_app. by right.
    + intros j. by rw Hl.
    + intros name j Hne. rw nm_entry_push_has -Hr //. tauto.
Qed.

Lemma group_primary_grouped nodes g R :
  (∀ n, n ∈ nodes → n ∈ vm_nodes v) → grouped g R → grouped (group_primary v nodes g) R.
Proof using Type.
  intros Hns Hg. rw /group_primary. destruct (existsb _ nodes) eqn:Hex; [done|].
  destruct (List.find _ nodes) as [node|] eqn:Hfind; [|done].
  apply List.find_some in Hfind as [Hin%list_elem_of_In Hsec%bool_decide_eq_true].
  assert (node_name node ≠ local ∧ nm_lookup node (g_primary g) = None) as [Hloc Hpri].
  { apply not_true_iff_false in Hex. rw existsb_exists in Hex. split.
    - intros Hl. apply Hex. exists node. split; [by apply list_elem_of_In|]. by rw bool_decide_true.
    - destruct (nm_lookup node (g_primary g)) eqn:Hl; [|done]. destruct Hex. exists node.
      split; [by apply list_elem_of_In|]. rw (bool_decide_true (is_Some _)); [by rw Hl; eexists|].
      apply orb_true_r. }
  apply nm_lookup_None in Hsec, Hpri. destruct Hg as [Hnd Hnodes Hl Hr]. split; simpl.
  - rw /nm_names !fmap_app /= -app_assoc. apply list.NoDup_app in Hnd as (Hnd1 & Hdis & Hnd2).
    apply list.NoDup_app. split; [done|]. split.
    + intros x Hx [->|Hx2]%elem_of_cons; [done|by eapply Hdis].
    + by apply list.NoDup_cons.
  - intros n. rw fmap_app -app_assoc elem_of_app /= elem_of_cons. intros [Hx|[->|Hx]].
    + apply Hnodes, elem_of_app. by left.
    + split; [by apply Hns|done].
    + apply Hnodes, elem_of_app. by right.
  - done.
  - intros name i Hne. rw nm_snoc_has /IndexMap_new elem_of_nil -Hr //. tauto.
Qed.

Lemma group_nodes_grouped i nodes g R :
  (∀ n, n ∈ nodes → n ∈ vm_nodes v) → grouped g R →
  grouped (foldl (group_node v i) g nodes) (λ n j, R n j ∨ n ∈ node_name <$> nodes ∧ j = i).
Proof using Type.
  revert g R. induction nodes as [|node nodes IH]; intros g R Hns Hg; simpl.
  - eapply grouped_ext; [|exact Hg]. intros n j. rw elem_of_nil. tauto.
  - eapply grouped_ext; [|apply IH; [intros; apply Hns; by right|apply group_node_grouped; [|exact Hg]]].
    + intros n j. simpl. rw elem_of_cons. tauto.
    + apply Hns. by left.
Qed.

(** The pairs of a target and an index among the first [k] keys. *)
Definition assigned (keys : list BobKey) (k : nat) (n : NodeName) (i : nat) : Prop :=
  (i < k)%nat ∧ ∃ key, keys !! i = Some key ∧ n ∈ node_name <$> targets v key.

Lemma group_by_nodes_go_spec keys pre rest g :
  keys = pre ++ rest → grouped g (assigned keys (length pre)) →
  ∃ g', group_by_nodes_go v (length pre) rest g = Some g' ∧ grouped g' (assigned keys (length keys)).
Proof.
  revert pre g. induction rest as [|key rest IH]; intros pre g Heq Hg; simpl.
  - exists g. split; [done|]. by rw {2}Heq app_nil_r.
  - rw get_targets //=.
    assert (∀ n, n ∈ targets v key → n ∈ vm_nodes v) as Hns by (intros n Hn; by apply in_targets in Hn as [? _]).
    destruct (IH (pre ++ [key]) (group_key v (length pre) g (targets v key))) as (g' & Hrun & Hg').
    + by rw -app_assoc.
    + eapply grouped_ext; [|apply group_nodes_grouped; [done|by apply group_primary_grouped]].
      intros n i. rw /assigned length_app /=.
      assert (keys !! length pre = Some key) as Hk by (rw Heq; by apply list_lookup_middle).
      split.
      * intros [[? ?]|[? ->]]; [split; [lia|done]|]. split; [lia|eauto].
      * intros [Hi (k' & Hk' & Hn)]. destruct (decide (i = length pre)) as [->|Hne]; [right|left; split; [lia|eauto]].
        by simplify_eq.
    + exists g'. split; [|done]. by rw length_app Nat.add_1_r in Hrun.
Qed.

Lemma group_by_nodes_grouped keys :
  ∃ g, group_by_nodes v keys = Some (match g_local g with [] => None | l => Some l end, g_primary g, g_secondary g) ∧
    grouped g (assigned keys (length keys)).
Proof.
  destruct (group_by_nodes_go_spec keys [] keys {| g_local := []; g_primary := []; g_secondary := [] |})
    as (g & Hrun & Hg); [done| |].
  - split; simpl.
    + constructor.
    + by intros n ?%elem_of_nil.
    + intros i. rw elem_of_nil /assigned. lia.
    + intros name i _. rw /nm_has /assigned. setoid_rewrite elem_of_nil. naive_solver lia.
  - exists g. split; [|done]. rw /group_by_nodes Hrun /=. by destruct (g_local g).
Qed.

(** [group_by_nodes] never aborts and gives every target of every key exactly one
    place: the local index map for the local node, and for another node either its entry
    of the primary map or its entry of the secondary map, never both; no node is asked
    for a key it is no target of. *)
Theorem group_by_nodes_partition keys :
  ∃ loc primary secondary,
    group_by_nodes v keys = Some (loc, primary, secondary) ∧
    NoDup (nm_names primary ++ nm_names secondary) ∧
    (∀ i, i ∈ default [] loc ↔ ∃ key, keys !! i = Some key ∧ local ∈ node_name <$> targets v key) ∧
    ∀ name i, name ≠ local →
      (nm_has primary name i ∨ nm_has secondary name i ↔
         ∃ key, keys !! i = Some key ∧ name ∈ node_name <$> targets v key) ∧
      ¬ (nm_has primary name i ∧ nm_has secondary name i).
Proof.
  destruct (group_by_nodes_grouped keys) as (g & Hrun & [Hnd Hnodes Hl Hr]).
  assert (∀ n i, assigned keys (length keys) n i ↔ ∃ key, keys !! i = Some key ∧ n ∈ node_name <$> targets v key) as Ha.
  { intros n i. rw /assigned. split; [tauto|]. intros (key & Hk & Hn). split; [by eapply lookup_lt_Some|eauto]. }
  do 3 eexists. split; [exact Hrun|]. split; [done|]. split.
  - intros i. rw -Ha -Hl. by destruct (g_local g).
  - intros name i Hne. rw -Ha Hr //. split; [done|].
    assert (∀ m, nm_has m name i → name ∈ nm_names m) as Hin.
    { intros m (n & im & Hin & <- & _). apply list_elem_of_fmap_2. by apply (list_elem_of_fmap_2 fst _ (n, im)). }
    intros [Hp%Hin Hs%Hin]. apply list.NoDup_app in Hnd as (_ & Hdis & _). by eapply Hdis.
Qed.
End grouping.

(** ** The answers *)

Section exist.
Context {P : Prop} {W : Type} {v : Virtual} `{!HashOrder}
  `{key_size : KeySize, StorageLaws W, !Network W, !SupportState W, !ClusterState W, !ClusterLaws P W v}.
Context (Hok : mapper_ok v) (keys : list BobKey) (Hkeys : Forall key_wf keys) (w0 : W).

(** The key at the index can be found on some node. *)
Definition present (i : nat) : Prop :=
  ∃ key n d, keys !! i = Some key ∧ n ∈ node_names v ∧ findable (v:=v) key w0 n d.

Definition sound (found : list bool) : Prop :=
  length found = length keys ∧ ∀ i, found !! i = Some true → present i.

Definition grows (found found' : list bool) : Prop := ∀ i, found !! i = Some true → found' !! i = Some true.

Definition in_range (m : IndexMap) : Prop := ∀ i, i ∈ m → (i < length keys)%nat.

Lemma update_sound m found mapped :
  sound found → in_range m → length m = length mapped →
  (∀ j i, m !! j = Some i → mapped !! j = Some true → present i) →
  ∃ found', update_existence m found mapped = Some found' ∧ sound found' ∧ grows found found' ∧
    ∀ j i, m !! j = Some i → mapped !! j = Some true → found' !! i = Some true.
Proof using Type.
  intros [Hlen Hs] Hm Hl Hp.
  destruct (update_existence_spec m found mapped Hl) as (r & Hr & Hlr & Hi); [intros i; rw Hlen; apply Hm|].
  exists r. split; [done|]. split; [|split].
  - split; [by rw Hlr|]. intros i [?|(j & Hj & Hb)]%Hi; eauto.
  - intros i Hf. apply Hi. by left.
  - intros j i Hj Hb. apply Hi. right. eauto.
Qed.

Lemma fold_answers {E} (step : list bool → result (Output (list bool)) E → option (list bool))
    (mof : Output (list bool) → IndexMap) acc found :
  (∀ f e, step f (Err e) = Some f) →
  (∀ o, Ok o ∈ acc → (∀ f, step f (Ok o) = update_existence (mof o) f (out_inner o)) ∧
     length (mof o) = length (out_inner o) ∧ in_range (mof o) ∧
     ∀ j i, mof o !! j = Some i → out_inner o !! j = Some true → present i) →
  sound found →
  ∃ found', ofold step found acc = Some found' ∧ sound found' ∧ grows found found' ∧
    ∀ o j i, Ok o ∈ acc → mof o !! j = Some i → out_inner o !! j = Some true → found' !! i = Some true.
Proof using Type.
  intros Herr Hstep Hs.
  destruct (ofold_ind step acc (λ done found', sound found' ∧ grows found found' ∧
    ∀ o j i, Ok o ∈ done → mof o !! j = Some i → out_inner o !! j = Some true → found' !! i = Some true) found)
    as (f' & Hf & Hres); [| |by exists f'].
  - split; [done|]. split; [by intros i|]. by intros o j i ?%elem_of_nil.
  - intros pre r rest f Heq (Hsf & Hg & Hd). destruct r as [o|e].
    + destruct (Hstep o) as (Hst & Hl & Hr & Hp); [rw Heq; apply elem_of_app; right; by left|].
      destruct (update_sound (mof o) f (out_inner o) Hsf Hr Hl Hp) as (f2 & Hf2 & Hs2 & Hg2 & Hd2).
      exists f2. rw Hst. split; [done|]. split; [done|]. split; [intros i Hi; by apply Hg2, Hg|].
      intros o' j i [Hin|[= ->]%list_elem_of_singleton]%elem_of_app Hj Hb; [|eauto].
      apply Hg2. eauto.
    + exists f. split; [by rw Herr|]. split; [done|]. split; [done|].
      intros o' j i [Hin|Hin%list_elem_of_singleton]%elem_of_app; [eauto|done].
Qed.

(** The [exist] requests to a set of nodes. *)
Lemma call_exist_spec nodes (f : NodeName → M W (result (Output (list bool)) (Output Error)))
    (ks_of : Node → list BobKey) (S : Node → BobKey → Prop) w :
  (∀ n w1, n ∈ nodes → nsame w w1 → wpx P (f (node_name n)) (λ r w2, nsame w1 w2 ∧
     result_node r = node_name n ∧
     (∀ o, r = Ok o → length (out_inner o) = length (ks_of n) ∧
        ∀ j k, ks_of n !! j = Some k → out_inner o !! j = Some true → S n k) ∧
     (reachable w1 (node_name n) → ∃ o, r = Ok o ∧
        ∀ j k, ks_of n !! j = Some k → S n k → out_inner o !! j = Some true)) w1) →
  wpx P (call_nodes nodes f) (λ acc w', nsame w w' ∧
    (∀ o, Ok o ∈ acc → ∃ n, n ∈ nodes ∧ out_node_name o = node_name n ∧
       length (out_inner o) = length (ks_of n) ∧
       ∀ j k, ks_of n !! j = Some k → out_inner o !! j = Some true → S n k) ∧
    (∀ n, n ∈ nodes → reachable w (node_name n) → ∃ o, Ok o ∈ acc ∧ out_node_name o = node_name n ∧
       ∀ j k, ks_of n !! j = Some k → S n k → out_inner o !! j = Some true)) w.
Proof.
  intros Hcall. set (good := λ (acc : list (result (Output (list bool)) (Output Error))) (o : Output (list bool)),
    Ok o ∈ acc → ∃ n, n ∈ nodes ∧ out_node_name o = node_name n ∧
       length (out_inner o) = length (ks_of n) ∧
       ∀ j k, ks_of n !! j = Some k → out_inner o !! j = Some true → S n k).
  set (answered := λ (acc : list (result (Output (list bool)) (Output Error))) n,
    ∃ o, Ok o ∈ acc ∧ out_node_name o = node_name n ∧
       ∀ j k, ks_of n !! j = Some k → S n k → out_inner o !! j = Some true).
  assert (∀ acc r n, answered acc n → answered (acc ++ [r]) n) as Hmono.
  { intros acc r n (o & Ho & Hrest). exists o. split; [apply elem_of_app; by left|done]. }
  eapply wpx_mono; [apply (wpx_collect_all _ P False (λ handles acc w', nsame w w' ∧
    (∀ n, n ∈ handles → n ∈ nodes) ∧ (∀ o, good acc o) ∧
    ∀ n, n ∈ nodes → reachable w (node_name n) → n ∈ handles ∨ answered acc n))|].
  - intros h a. apply sched_stable_same. intros w1 w2 Hs (Hs1 & Hr). split; [by eapply nsame_trans|done].
  - split; [apply nsame_refl|]. split; [done|]. split; [by intros o ?%elem_of_nil|]. by left.
  - intros handles op rest acc w1 Hperm (Hs1 & Hsub & Hgood & Hans).
    assert (op ∈ nodes) as Hop by (apply Hsub; rw Hperm; by left).
    assert (∀ n, n ∈ rest → n ∈ nodes) as Hrest by (intros n Hn; apply Hsub; rw Hperm; by right).
    apply wpx_call_node.
    + intros w2 Hs2. assert (nsame w w2) as Hs12 by (by eapply nsame_trans).
      eapply wpx_mono; [by apply Hcall|]. intros r w3 (Hs3 & Hname & Hso & Hup).
      split; [by eapply nsame_trans|]. split; [done|]. split.
      * intros o [Hin|Hin%list_elem_of_singleton]%elem_of_app; [by apply Hgood|].
        exists op. split; [done|]. rw -Hin in Hname. split; [done|]. by apply Hso.
      * intros n Hn Hr. destruct (Hans n Hn Hr) as [Hin|Ha]; [|right; by apply Hmono].
        rw Hperm in Hin. apply elem_of_cons in Hin as [->|Hin]; [right|by left].
        destruct Hup as (o & -> & Hc); [by apply Hs12|]. exists o.
        split; [apply elem_of_app; right; by left|done].
    + intros w2 e Hs2 Hno. split; [by eapply nsame_trans|]. split; [done|]. split.
      * intros o [Hin|Hin%list_elem_of_singleton]%elem_of_app; [by apply Hgood|done].
      * intros n Hn Hr. destruct (Hans n Hn Hr) as [Hin|Ha]; [|right; by apply Hmono].
        rw Hperm in Hin. apply elem_of_cons in Hin as [->|Hin]; [|by left]. destruct Hno. by apply Hs1.
  - intros acc w' (Hs & _ & Hgood & Hans). split; [done|]. split; [exact Hgood|].
    intros n Hn Hr. destruct (Hans n Hn Hr) as [Hin|Ha]; [by apply elem_of_nil in Hin|exact Ha].
Qed.

(** *** The local node *)

Lemma searched_local key loc :
  searched v key BobGetOptions_new_local loc ↔ ∃ r, r ∈ local_replicas v key ∧ loc = replica_loc v key r.
Proof using Hok.
  rw /searched (get_op v key Hok). split.
  - intros (id & paths & [= <- <-] & [(_ & path & Hp & ->)|(? & _)]); [|done].
    assert (path ∈ DiskPath_from <$> local_replicas v key) as (r & -> & Hr)%list_elem_of_fmap; [|by exists r].
    by destruct (local_replicas v key).
  - intros (r & Hr & ->). do 2 eexists. split; [done|]. left. split; [done|]. exists (DiskPath_from r).
    split; [|done]. apply (list_elem_of_fmap_2 DiskPath_from) in Hr. by destruct (local_replicas v key).
Qed.

Lemma searched_alien key loc :
  searched v key BobGetOptions_new_alien loc ↔ ∃ x, loc = alien_for v key x.
Proof using Hok.
  rw /searched (get_op v key Hok). split.
  - intros (id & paths & [= <- <-] & [(? & _)|(_ & x & ->)]); [done|by exists x].
  - intros (x & ->). do 2 eexists. split; [done|]. right. split; [done|]. by exists x.
Qed.

(** [S]: what the local node has for the key under the options. *)
Definition local_has (options : BobGetOptions) (key : BobKey) : Prop :=
  ∃ loc d, searched v key options loc ∧ nstored w0 (vm_local_node_name v) loc key d.

Lemma local_has_local key : local_has BobGetOptions_new_local key ↔ ∃ d, own_data (v:=v) key w0 (vm_local_node_name v) d.
Proof using Hok.
  rw /local_has. setoid_rewrite searched_local. setoid_rewrite <- local_own. naive_solver.
Qed.

Lemma local_has_alien key : local_has BobGetOptions_new_alien key ↔ ∃ d, alien_data (v:=v) key w0 (vm_local_node_name v) d.
Proof using Hok. rw /local_has /alien_data. setoid_rewrite searched_alien. naive_solver. Qed.

Lemma local_exist_spec options ks w :
  nsame w0 w →
  wpx P (Backend_exist v ks options) (λ r w', nsame w0 w' ∧ ∃ bs, r = Ok bs ∧ length bs = length ks ∧
    (∀ j k, ks !! j = Some k → bs !! j = Some true → local_has options k) ∧
    (reachable w0 (vm_local_node_name v) → ∀ j k, ks !! j = Some k → local_has options k → bs !! j = Some true)) w.
Proof.
  intros Hs. eapply wpx_mono; [eapply wpx_wlp; [apply (cl_backend_exist (v:=v))|apply Backend_exist_sound]|].
  intros r w' ([Hs' Hc] & _ & bs & -> & Hlen & Hso). split; [by eapply nsame_trans|].
  exists bs. split; [done|]. split; [done|]. split.
  - intros j k Hk Hb. destruct (Hso j Hb) as (k' & loc & d & Hk' & Hse & Hst). simplify_eq.
    exists loc, d. split; [done|]. apply Hs. by apply (cl_local (P:=P)).
  - intros Hr j k Hk (loc & d & Hse & Hst). destruct (Hc ltac:(by apply Hs)) as (bs' & [= <-] & Hb).
    apply (Hb j k loc d); [done..|]. apply (cl_local (P:=P) (v:=v)). by apply Hs.
Qed.

Lemma local_has_present options i key :
  options = BobGetOptions_new_local ∨ options = BobGetOptions_new_alien →
  keys !! i = Some key → local_has options key → present i.
Proof using Hok.
  intros Hopt Hk Hh. exists key, (vm_local_node_name v). destruct Hopt as [->| ->].
  - apply local_has_local in Hh as [d Hd]. exists d. split; [done|]. split; [apply (mok_local v Hok)|by left].
  - apply local_has_alien in Hh as [d Hd]. exists d. split; [done|]. split; [apply (mok_local v Hok)|by right].
Qed.

(** *** The remote nodes *)

Definition shrunk (original : list bool) (p p' : Node * IndexMap) : Prop :=
  p'.1 = p.1 ∧ ∀ i, i ∈ p'.2 ↔ i ∈ p.2 ∧ original !! i ≠ Some true.

Lemma prepare_requests_spec original m :
  length original = length keys → (∀ n im, (n, im) ∈ m → in_range im) →
  ∃ m' reqs, prepare_requests original keys m = Some (m', reqs) ∧ Forall2 (shrunk original) m m' ∧
    (∀ name n ks, (name, (n, ks)) ∈ reqs → name = node_name n ∧
       ∃ im, (n, im) ∈ m' ∧ im_collect keys im = Some ks) ∧
    (∀ n im, (n, im) ∈ m' → im ≠ [] → ∃ ks, (node_name n, (n, ks)) ∈ reqs) ∧
    reqs.*1 `sublist_of` nm_names m.
Proof using Type.
  intros Hlen. induction m as [|[n im] m IH]; intros Hr; simpl.
  - exists [], []. split_and!; [done|done| | |done]; [intros ??? ?%elem_of_nil|intros ?? ?%elem_of_nil]; done.
  - destruct IH as (m' & reqs & -> & Hf & Hin1 & Hin2 & Hsub); [intros; eapply Hr; by right|].
    assert (in_range im) as Him by (eapply Hr; by left).
    destruct (retain_not_existed_spec original im) as (im' & -> & Him'); [intros i; rw Hlen; apply Him|].
    assert (shrunk original (n, im) (n, im')) as Hsh by (by split). simpl.
    destruct im' as [|i0 im2] eqn:Himeq; [|rw -Himeq in Him', Hsh |- *].
    + do 2 eexists. split; [done|]. simpl. split; [by constructor|]. split; [|split].
      * intros name n' ks Hin. destruct (Hin1 name n' ks Hin) as (? & im2 & ? & ?). split; [done|].
        exists im2. split; [by right|done].
      * intros n' im2 [[= -> ->]|Hin]%elem_of_cons Hne; [done|]. by eapply Hin2.
      * by apply sublist_cons.
    + destruct (im_collect_spec keys im') as (ks & Hks & _); [intros i [Hi _]%Him'; by apply Him|].
      rw Hks /=. do 2 eexists. split; [done|]. split; [by constructor|]. split; [|split].
      * intros name n' ks' [[= -> -> ->]|Hin]%elem_of_cons.
        -- split; [done|]. exists im'. split; [by left|done].
        -- destruct (Hin1 name n' ks' Hin) as (? & im3 & ? & ?). split; [done|]. exists im3. split; [by right|done].
      * intros n' im3 [[= -> ->]|Hin]%elem_of_cons Hne; [exists ks; by left|].
        destruct (Hin2 n' im3 Hin Hne) as [ks' Hk]. exists ks'. by right.
      * by apply sublist_skip.
Qed.

(** The requests of one round: an entry of the index maps is asked, or is known already. *)
Lemma requests_ok found m :
  length found = length keys → NoDup (nm_names m) → (∀ n, n ∈ m.*1 → n ∈ vm_nodes v) →
  (∀ name i, nm_has m name i → (i < length keys)%nat) →
  ∃ m' reqs, prepare_requests found keys m = Some (m', reqs) ∧ NoDup reqs.*1 ∧
    (∀ name n ks, (name, (n, ks)) ∈ reqs → ∃ im, name = node_name n ∧ n ∈ vm_nodes v ∧
       nm_lookup n m' = Some im ∧ im_collect keys im = Some ks ∧ in_range im ∧
       ∀ i, i ∈ im → nm_has m name i) ∧
    (∀ name i, nm_has m name i → found !! i ≠ Some true →
       ∃ n ks im, (name, (n, ks)) ∈ reqs ∧ nm_lookup n m' = Some im ∧ i ∈ im).
Proof using Type.
  intros Hlen Hnd Hnodes Hhas.
  destruct (prepare_requests_spec found m Hlen) as (m' & reqs & Hprep & Hsh & Hreq1 & Hreq2 & Hsub).
  { intros n im Hin i Hi. apply (Hhas (node_name n)). exists n, im. done. }
  assert (nm_names m' = nm_names m) as Hnames.
  { rw /nm_names. clear -Hsh. induction Hsh as [|[n im] [n' im'] l l' [Hn _] _ IH]; [done|]. simpl in *. subst. f_equal. exact IH. }
  assert (NoDup (nm_names m')) as Hnd' by (by rw Hnames).
  exists m', reqs. split; [done|]. split; [eapply sublist_NoDup; [exact Hnd|exact Hsub]|]. split.
  - intros name n ks Hin. destruct (Hreq1 name n ks Hin) as (-> & im' & Hin' & Hks).
    pose proof Hin' as [j Hj]%list_elem_of_lookup.
    destruct (Forall2_lookup_r _ _ _ _ _ Hsh Hj) as ([n2 im] & Hj2%list_elem_of_lookup_2 & Hn & Hi). simpl in *. subst n2.
    assert (∀ i, i ∈ im' → nm_has m (node_name n) i) as Hh by (intros i [Hi' _]%Hi; exists n, im; done).
    exists im'. split; [done|]. split; [by apply Hnodes, (list_elem_of_fmap_2 fst _ (n, im))|].
    split; [by apply nm_lookup_in|]. split; [done|]. split; [|done]. intros i Hi'. by eapply Hhas, Hh.
  - intros name i (n & im & Hin & <- & Him) Hf. apply list_elem_of_lookup in Hin as [j Hj].
    destruct (Forall2_lookup_l _ _ _ _ _ Hsh Hj) as ([n2 im'] & Hj2%list_elem_of_lookup_2 & Hn & Hi). simpl in *. subst n2.
    assert (i ∈ im') as Hi' by (by apply Hi).
    destruct (Hreq2 n im' Hj2) as [ks Hks]; [by intros ->; apply elem_of_nil in Hi'|].
    exists n, ks, im'. split; [done|]. split; [by apply nm_lookup_in|done].
Qed.

Lemma nm_has_perm m m2 name i : m ≡ₚ m2 → nm_has m name i ↔ nm_has m2 name i.
Proof using Type. intros Hp. rw /nm_has. by setoid_rewrite Hp. Qed.

(** What a remote node answers about one of its keys. *)
Definition own_has (n : Node) (key : BobKey) : Prop := ∃ d, own_data (v:=v) key w0 (node_name n) d.

Lemma exist_on_remote_nodes_spec reqs w :
  nsame w0 w → NoDup reqs.*1 →
  (∀ name n ks, (name, (n, ks)) ∈ reqs → name = node_name n ∧ n ∈ vm_nodes v ∧ Forall key_wf ks) →
  wpx P (exist_on_remote_nodes reqs) (λ acc w', nsame w0 w' ∧
    (∀ o, Ok o ∈ acc → ∃ n ks, (out_node_name o, (n, ks)) ∈ reqs ∧ length (out_inner o) = length ks ∧
       ∀ j k, ks !! j = Some k → out_inner o !! j = Some true → own_has n k) ∧
    (∀ n ks, (node_name n, (n, ks)) ∈ reqs → reachable w0 (node_name n) →
       ∃ o, Ok o ∈ acc ∧ out_node_name o = node_name n ∧
         ∀ j k, ks !! j = Some k → own_has n k → out_inner o !! j = Some true)) w.
Proof.
  intros Hs0 Hnd Hreq. set (find n := List.find (λ p : NodeName * (Node * list BobKey), bool_decide (p.1 = node_name n)) reqs).
  set (ks_of n := default [] (snd <$> (snd <$> find n))).
  assert (∀ n ks, (node_name n, (n, ks)) ∈ reqs → ks_of n = ks) as Hks.
  { intros n ks Hin. rw /ks_of /find. by rw (find_entry (node_name n) (n, ks)). }
  eapply wpx_mono; [apply (call_exist_spec ((λ p : NodeName * (Node * list BobKey), p.2.1) <$> reqs) _ ks_of own_has)|].
  - intros n w1 ([name [n' ks]] & -> & Hin)%list_elem_of_fmap Hs. simpl.
    destruct (Hreq _ _ _ Hin) as (-> & Hn & Hwf). apply wpx_bind. eapply wpx_expect; [by apply find_entry|].
    rw (Hks n' ks Hin). assert (nsame w0 w1) as Hs01 by (by eapply nsame_trans). simpl.
    eapply wpx_mono; [eapply wpx_wlp; [apply cl_exist; [by apply list_elem_of_fmap_2|done]|apply client_exist_node]|].
    intros r w2 ((Hs2 & Hso & Hup) & Hname). split; [done|]. split; [done|]. split.
    + intros o Ho. destruct (Hso o Ho) as [Hl Hb]. split; [done|]. intros j k Hk Hbk.
      destruct (Hb j k Hk Hbk) as (rp & d & Hrp & Hnm & Hst). exists d, rp. split_and!; [done..|]. by apply Hs01.
    + intros Hr. destruct (Hup Hr) as (o & -> & Hb). exists o. split; [done|]. intros j k Hk (d & rp & Hrp & Hnm & Hst).
      apply (Hb j k rp d); [done..|]. by apply Hs01.
  - intros acc w' (Hs & Hso & Hco). split; [by eapply nsame_trans|]. split.
    + intros o Ho. destruct (Hso o Ho) as (n & ([name [n' ks]] & -> & Hin)%list_elem_of_fmap & Hname & Hl & Hb). simpl in *.
      pose proof (Hreq _ _ _ Hin) as (-> & _). rw (Hks n' ks Hin) in Hl, Hb. exists n', ks. by rw Hname.
    + intros n ks Hin Hr. destruct (Hco n) as (o & Ho & Hname & Hb).
      { apply list_elem_of_fmap. by exists (node_name n, (n, ks)). }
      { by apply Hs0. }
      exists o. split; [done|]. split; [done|]. by rw (Hks n ks Hin) in Hb.
Qed.

(** What is known after a round of questions to the nodes of [m]. *)
Definition round_done (m : node_map) (found found' : list bool) (w' : W) : Prop :=
  nsame w0 w' ∧ sound found' ∧ grows found found' ∧
  ∀ name i key, nm_has m name i → keys !! i = Some key → reachable w0 name →
    (∃ d, own_data (v:=v) key w0 name d) → found' !! i = Some true.

Lemma collect_remote_exists_spec found m w :
  nsame w0 w → sound found → NoDup (nm_names m) → (∀ n, n ∈ m.*1 → n ∈ vm_nodes v) →
  (∀ name i, nm_has m name i → (i < length keys)%nat) →
  wpx P (collect_remote_exists found keys m) (round_done m found) w.
Proof.
  intros Hs0 Hsound Hnd Hnodes Hhas. rw /collect_remote_exists.
  assert (∀ m, (∀ name i key, nm_has m name i → keys !! i = Some key → reachable w0 name →
    (∃ d, own_data (v:=v) key w0 name d) → found !! i = Some true) →
    wpx P (mret found) (round_done m found) w) as Hnone.
  { intros m2 Hm2. apply wpx_ret. split_and!; [done..|by intros i|done]. }
  destruct m as [|p0 m0] eqn:Hm; [apply Hnone; by intros ? ? ? (? & ? & ?%elem_of_nil & _)|].
  rw -Hm in Hnd, Hnodes, Hhas |- *. clear p0 m0 Hm.
  pose proof (hash_order_perm m) as Hperm.
  destruct (requests_ok found (hash_order m)) as (m' & reqs & Hprep & Hndr & Hreq & Hasked).
  { by apply Hsound. }
  { by rw /nm_names Hperm. }
  { intros n. rw Hperm. apply Hnodes. }
  { intros name i. rw (nm_has_perm _ _ name i Hperm). apply Hhas. }
  apply wpx_bind. eapply wpx_expect; [exact Hprep|]. cbv beta iota.
  clear Hprep. destruct reqs as [|r0 reqs0] eqn:Hr.
  { apply Hnone. intros name i key Hh Hk _ _. destruct (decide (found !! i = Some true)) as [?|Hf]; [done|].
    rw -(nm_has_perm _ _ name i Hperm) in Hh. destruct (Hasked name i Hh Hf) as (? & ? & ? & ?%elem_of_nil & _). done. }
  rw -Hr in Hndr, Hreq, Hasked |- *. clear r0 reqs0 Hr. apply wpx_bind.
  eapply wpx_mono; [apply exist_on_remote_nodes_spec; [done|done|]|].
  { intros name n ks Hin. destruct (Hreq _ _ _ Hin) as (im & -> & Hn & _ & Hks & _). split; [done|]. split; [done|].
    apply list.Forall_forall. intros k Hk. apply im_collect_Some in Hks as (_ & _ & Hin').
    eapply (proj1 (list.Forall_forall _ _) Hkeys). by apply Hin'. }
  intros acc w1 (Hs1 & Hso & Hco).
  set (mof := λ o : Output (list bool),
    default [] (request ← List.find (λ p, bool_decide (p.1 = out_node_name o)) reqs; nm_lookup request.2.1 m')).
  assert (∀ name n ks o, (name, (n, ks)) ∈ reqs → out_node_name o = name →
    ∃ im, mof o = im ∧ nm_lookup n m' = Some im ∧ im_collect keys im = Some ks ∧ in_range im ∧
      (∀ f, apply_answer m' reqs f (Ok o) = update_existence im f (out_inner o))) as Hmof.
  { intros name n ks o Hin Hname. destruct (Hreq _ _ _ Hin) as (im & _ & _ & Hl & Hks & Hrange & _).
    exists im. rw /mof /apply_answer Hname (find_entry name (n, ks)) //= Hl. done. }
  destruct (fold_answers (apply_answer m' reqs) mof acc found) as (found' & Hfold & Hs' & Hg & Hd); [done| |done|].
  - intros o Ho. destruct (Hso o Ho) as (n & ks & Hin & Hlen & Hb).
    destruct (Hmof _ _ _ o Hin eq_refl) as (im & -> & Hl & Hks & Hrange & Hstep).
    destruct (im_collect_Some _ _ _ Hks) as (Hl2 & Hlk & _). split_and!; [done|congruence|done|].
    intros j i Hj Hbj. destruct (lookup_lt_is_Some_2 keys i) as [k Hk]; [by eapply Hrange, list_elem_of_lookup_2|].
    destruct (Hb j k) as [d Hd]; [by rw (Hlk j i Hj)|done|]. exists k, (node_name n), d. split; [done|].
    split; [by eapply own_data_node|by left].
  - rw Hfold. apply (wpx_expect _ _ found'); [done|]. split_and!; [done..|].
    intros name i key Hh Hk Hreach Hown. destruct (decide (found !! i = Some true)) as [?|Hf]; [by apply Hg|].
    rw -(nm_has_perm _ _ name i Hperm) in Hh. destruct (Hasked name i Hh Hf) as (n & ks & im & Hin & Hl & Hi).
    destruct (Hreq _ _ _ Hin) as (_ & -> & _ & _). destruct (Hco n ks Hin Hreach) as (o & Ho & Hname & Hb).
    destruct (Hmof _ _ _ o Hin Hname) as (im' & Hmo & Hl' & Hks & _). simplify_eq.
    destruct (im_collect_Some _ _ _ Hks) as (_ & Hlk & _). apply list_elem_of_lookup in Hi as [j Hj].
    apply (Hd o j i Ho); [done|]. apply (Hb j key); [by rw (Hlk j i Hj)|done].
Qed.

(** *** The phases of [exist] *)

Definition keeps_found (found found' : list bool) (w' : W) : Prop :=
  nsame w0 w' ∧ sound found' ∧ grows found found'.

Lemma keeps_found_refl found w : nsame w0 w → sound found → keeps_found found found w.
Proof using Type. intros Hs Hf. split; [done|]. split; [done|]. by intros i. Qed.

Lemma local_phase loc found w :
  nsame w0 w → sound found →
  (∀ i, i ∈ default [] loc ↔ ∃ key, keys !! i = Some key ∧ vm_local_node_name v ∈ node_name <$> targets v key) →
  wpx P
    match loc with
    | Some loc =>
        local_keys ← expect (im_collect keys loc);
        r ← exist_on_local_node v local_keys;
        match r with
        | Ok local_exist => expect (update_existence loc found local_exist)
        | Err _ => mret found
        end
    | None => mret found
    end
    (λ found' w', keeps_found found found' w' ∧ ∀ i key d, keys !! i = Some key →
       reachable w0 (vm_local_node_name v) → own_data (v:=v) key w0 (vm_local_node_name v) d →
       found' !! i = Some true) w.
Proof.
  intros Hs Hsound Hloc.
  assert (∀ i key d, keys !! i = Some key → own_data (v:=v) key w0 (vm_local_node_name v) d → i ∈ default [] loc) as Hown.
  { intros i key d Hk (r & Hr & Hn & _). apply Hloc. exists key. split; [done|]. rw -Hn. by apply target_name. }
  destruct loc as [loc|]; simpl in *.
  2: { apply wpx_ret. split; [by apply keeps_found_refl|]. intros i key d Hk _ Hd. by destruct (proj1 (elem_of_nil i) (Hown i key d Hk Hd)). }
  assert (in_range loc) as Hrange. { intros i (key & Hk & _)%Hloc. by eapply lookup_lt_Some. }
  destruct (im_collect_spec keys loc Hrange) as (ks & Hks & Hlen & Hlk).
  apply wpx_bind. eapply wpx_expect; [exact Hks|]. apply wpx_bind.
  eapply wpx_mono; [by apply local_exist_spec|]. intros r w1 (Hs1 & bs & -> & Hlb & Hso & Hco).
  destruct (update_sound loc found bs Hsound Hrange) as (found' & Hu & Hs' & Hg & Hd); [congruence| |].
  { intros j i Hj Hb. destruct (lookup_lt_is_Some_2 keys i) as [k Hk]; [by eapply Hrange, list_elem_of_lookup_2|].
    eapply local_has_present; [by left|exact Hk|]. apply (Hso j k); [by rw (Hlk j i Hj)|done]. }
  apply (wpx_expect _ _ found'); [done|]. split; [by split_and!|].
  intros i key d Hk Hr Hown'. pose proof (Hown i key d Hk Hown') as [j Hj]%list_elem_of_lookup.
  apply (Hd j i Hj), (Hco Hr j key); [by rw (Hlk j i Hj)|]. apply local_has_local. by exists d.
Qed.

(** The keys that are not known yet are in the index map. *)
Definition open_keys (aim : IndexMap) (found : list bool) : Prop :=
  in_range aim ∧ ∀ i, (i < length keys)%nat → found !! i ≠ Some true → i ∈ aim.

Lemma open_keys_all found : sound found → open_keys (where_not_exists found) found.
Proof using Type.
  intros [Hlen _]. split.
  - intros i Hi%where_not_exists_spec. rw -Hlen. by eapply lookup_lt_Some.
  - intros i Hi Hf. apply where_not_exists_spec. rw -Hlen in Hi.
    destruct (lookup_lt_is_Some_2 found i Hi) as [[] Hb]; congruence.
Qed.

Lemma local_alien_phase found w :
  nsame w0 w → sound found →
  wpx P
    match where_not_exists found with
    | [] => mret (found, where_not_exists found)
    | _ =>
        alien_keys ← expect (im_collect keys (where_not_exists found));
        r ← exist_on_local_alien v alien_keys;
        match r with
        | Ok local_alien_result =>
            found' ← expect (update_existence (where_not_exists found) found local_alien_result);
            alien_index_map ← expect (retain_not_existed found' (where_not_exists found));
            mret (found', alien_index_map)
        | Err _ => mret (found, where_not_exists found)
        end
    end
    (λ st w', keeps_found found st.1 w' ∧ open_keys st.2 st.1 ∧ ∀ i key d, keys !! i = Some key →
       reachable w0 (vm_local_node_name v) → alien_data (v:=v) key w0 (vm_local_node_name v) d →
       st.1 !! i = Some true) w.
Proof.
  intros Hs Hsound. pose proof (open_keys_all found Hsound) as [Hrange Hopen].
  set (aim := where_not_exists found) in *.
  assert (∀ X : M W (list bool * IndexMap),
    (aim = [] → wpx P (mret (found, aim)) (λ st w', keeps_found found st.1 w' ∧ open_keys st.2 st.1 ∧
      ∀ i key d, keys !! i = Some key → reachable w0 (vm_local_node_name v) →
        alien_data (v:=v) key w0 (vm_local_node_name v) d → st.1 !! i = Some true) w)) as Hnil.
  { intros _ Hnil. apply wpx_ret. split; [by apply keeps_found_refl|]. split; [done|].
    intros i key d Hk _ _. destruct (decide (found !! i = Some true)) as [?|Hf]; [done|].
    specialize (Hopen i ltac:(by eapply lookup_lt_Some) Hf). rw Hnil in Hopen. by apply elem_of_nil in Hopen. }
  destruct aim as [|i0 aim0] eqn:Haim; [by apply Hnil; [exact (mret (found, []))|]|].
  rw -Haim in Hrange, Hopen |- *. clear Hnil. clearbody aim. clear i0 aim0 Haim.
  destruct (im_collect_spec keys aim Hrange) as (ks & Hks & Hlen & Hlk).
  apply wpx_bind. eapply wpx_expect; [exact Hks|]. apply wpx_bind.
  eapply wpx_mono; [by apply local_exist_spec|]. intros r w1 (Hs1 & bs & -> & Hlb & Hso & Hco).
  destruct (update_sound aim found bs Hsound Hrange) as (found' & Hu & Hs' & Hg & Hd); [congruence| |].
  { intros j i Hj Hb. destruct (lookup_lt_is_Some_2 keys i) as [k Hk]; [by eapply Hrange, list_elem_of_lookup_2|].
    eapply local_has_present; [by right|exact Hk|]. apply (Hso j k); [by rw (Hlk j i Hj)|done]. }
  destruct (retain_not_existed_spec found' aim) as (aim' & Haim' & Hin).
  { intros i Hi. rw (proj1 Hs'). by apply Hrange. }
  apply wpx_bind, (wpx_expect _ _ found'); [done|]. apply wpx_bind, (wpx_expect _ _ aim'); [done|]. apply wpx_ret.
  split; [by split_and!|]. split; [split; [by intros i [? _]%Hin; apply Hrange|]|].
  - intros i Hi Hf. apply Hin. split; [|done]. apply Hopen; [done|]. intros Hf'. by apply Hf, Hg.
  - intros i key d Hk Hr Hal. simpl. destruct (decide (found !! i = Some true)) as [?|Hf]; [by apply Hg|].
    pose proof (Hopen i ltac:(by eapply lookup_lt_Some) Hf) as [j Hj]%list_elem_of_lookup.
    apply (Hd j i Hj), (Hco Hr j key); [by rw (Hlk j i Hj)|]. apply local_has_alien. by exists d.
Qed.

Lemma remote_alien_phase found aim w :
  nsame w0 w → sound found → open_keys aim found →
  wpx P
    match aim with
    | [] => mret (Ok found)
    | _ =>
        alien_keys ← expect (im_collect keys aim);
        results ← exist_on_remote_aliens (remote_of v (vm_nodes v)) alien_keys;
        found' ← expect (ofold (λ found (r : result (Output (list bool)) (Output Error)),
          match r with
          | Ok o => update_existence aim found (out_inner o)
          | Err _ => Some found
          end) found results);
        mret (Ok found')
    end
    (λ r w', ∃ found', (r : result (list bool) Error) = Ok found' ∧ keeps_found found found' w' ∧
       ∀ name i key d, name ∈ node_names v → name ≠ vm_local_node_name v → keys !! i = Some key →
         reachable w0 name → alien_data (v:=v) key w0 name d → found' !! i = Some true) w.
Proof.
  intros Hs Hsound [Hrange Hopen].
  destruct aim as [|i0 aim0] eqn:Haim; [|rw -Haim in Hrange, Hopen |- *; clear i0 aim0 Haim].
  { apply wpx_ret. exists found. split; [done|]. split; [by apply keeps_found_refl|].
    intros name i key d _ _ Hk _ _. destruct (decide (found !! i = Some true)) as [?|Hf]; [done|].
    specialize (Hopen i ltac:(by eapply lookup_lt_Some) Hf). by apply elem_of_nil in Hopen. }
  destruct (im_collect_spec keys aim Hrange) as (ks & Hks & Hlen & Hlk).
  assert (Forall key_wf ks) as Hwf.
  { apply list.Forall_forall. intros k Hk. apply im_collect_Some in Hks as (_ & _ & Hin).
    eapply (proj1 (list.Forall_forall _ _) Hkeys). by apply Hin. }
  apply wpx_bind. eapply wpx_expect; [exact Hks|]. apply wpx_bind.
  eapply wpx_mono; [apply (call_exist_spec _ _ (λ _, ks)
    (λ n k, ∃ d, alien_data (v:=v) k w0 (node_name n) d))|].
  - intros n w1 [Hn _]%remote_in Hs1. assert (nsame w0 w1) as Hs01 by (by eapply nsame_trans).
    eapply wpx_mono; [eapply wpx_wlp; [by apply cl_exist_alien; [apply list_elem_of_fmap_2|]|apply client_exist_node]|].
    intros r w2 ((Hs2 & Hso & Hup) & Hname). split; [done|]. split; [done|]. split.
    + intros o Ho. destruct (Hso o Ho) as [Hl Hb]. split; [done|]. intros j k Hk Hbk.
      destruct (Hb j k Hk Hbk) as (x & d & Hst). exists d, x. by apply Hs01.
    + intros Hr. destruct (Hup Hr) as (o & -> & Hb). exists o. split; [done|]. intros j k Hk (d & x & Hst).
      apply (Hb j k x d); [done..|]. by apply Hs01.
  - intros acc w1 (Hs1 & Hso & Hco).
    destruct (fold_answers (λ found (r : result (Output (list bool)) (Output Error)),
      match r with Ok o => update_existence aim found (out_inner o) | Err _ => Some found end)
      (λ _, aim) acc found) as (found' & Hfold & Hs' & Hg & Hd); [done| |done|].
    + intros o Ho. destruct (Hso o Ho) as (n & [Hn _]%remote_in & _ & Hl & Hb). split_and!; [done|congruence|done|].
      intros j i Hj Hbj. destruct (lookup_lt_is_Some_2 keys i) as [k Hk]; [by eapply Hrange, list_elem_of_lookup_2|].
      destruct (Hb j k) as [d Hal]; [by rw (Hlk j i Hj)|done|]. exists k, (node_name n), d. split; [done|].
      split; [by apply list_elem_of_fmap_2|by right].
    + apply wpx_bind, (wpx_expect _ _ found'); [done|]. apply wpx_ret. exists found'. split; [done|].
      split; [split_and!; [by eapply nsame_trans|done..]|].
      intros name i key d (n & -> & Hn)%list_elem_of_fmap Hne Hk Hreach Hal.
      destruct (decide (found !! i = Some true)) as [?|Hf]; [by apply Hg|].
      pose proof (Hopen i ltac:(by eapply lookup_lt_Some) Hf) as [j Hj]%list_elem_of_lookup.
      destruct (Hco n) as (o & Ho & _ & Hb); [by apply remote_in|by apply Hs|].
      apply (Hd o j i Ho Hj), (Hb j key); [by rw (Hlk j i Hj)|by exists d].
Qed.

Lemma Quorum_exist_spec :
  wpx P (Quorum_exist v keys) (λ r w', nsame w0 w' ∧ ∃ found, r = Ok found ∧ sound found ∧
    ∀ i key n d, keys !! i = Some key → n ∈ node_names v → reachable w0 n →
      findable (v:=v) key w0 n d → found !! i = Some true) w0.
Proof.
  destruct (group_by_nodes_grouped v Hok keys) as (g & Hrun & [Hnd Hnodes Hloc Hrem]).
  assert (∀ n i, assigned v keys (length keys) n i ↔
    ∃ key, keys !! i = Some key ∧ n ∈ node_name <$> targets v key) as Ha.
  { intros n i. rw /assigned. split; [tauto|]. intros (key & Hk & Hn). split; [by eapply lookup_lt_Some|eauto]. }
  assert (∀ name i, nm_has (g_primary g) name i ∨ nm_has (g_secondary g) name i → (i < length keys)%nat) as Hlt.
  { intros name i Hh. destruct (decide (name = vm_local_node_name v)) as [->|Hne].
    - exfalso. destruct Hh as [(n & im & Hin & Hn & _)|(n & im & Hin & Hn & _)];
        apply (list_elem_of_fmap_2 fst) in Hin; by apply (Hnodes n); [apply elem_of_app; auto|].
    - by apply Hrem in Hh as [? _]. }
  apply list.NoDup_app in Hnd as (Hnd1 & _ & Hnd2).
  assert (sound (replicate (length keys) false)) as Hs0.
  { split; [apply length_replicate|]. by intros i [? _]%lookup_replicate. }
  apply wpx_bind. eapply wpx_expect; [exact Hrun|]. cbv beta iota. apply wpx_bind.
  eapply wpx_mono; [apply local_phase; [apply nsame_refl|exact Hs0|]|].
  { intros i. rw -Ha -Hloc. by destruct (g_local g). }
  intros f1 w1 [(Hw1 & Hs1 & _) Hd1]. apply wpx_bind.
  eapply wpx_mono; [apply (collect_remote_exists_spec f1 (g_primary g)); [done..| |]|].
  { intros n Hn. apply Hnodes, elem_of_app. by left. }
  { intros name i Hh. eapply Hlt. by left. }
  intros f2 w2 (Hw2 & Hs2 & Hg2 & Hd2). apply wpx_bind.
  eapply wpx_mono; [apply (collect_remote_exists_spec f2 (g_secondary g)); [done..| |]|].
  { intros n Hn. apply Hnodes, elem_of_app. by right. }
  { intros name i Hh. eapply Hlt. by right. }
  intros f3 w3 (Hw3 & Hs3 & Hg3 & Hd3). apply wpx_bind.
  eapply wpx_mono; [by apply (local_alien_phase f3)|].
  intros [f4 aim] w4 ((Hw4 & Hs4 & Hg4) & Hopen & Hd4).
  eapply wpx_mono; [by apply (remote_alien_phase f4 aim)|].
  intros r w5 (f5 & -> & (Hw5 & Hs5 & Hg5) & Hd5). split; [done|]. exists f5. split; [done|]. split; [done|].
  simpl in *. intros i key n d Hk Hn Hr Hf. destruct (decide (n = vm_local_node_name v)) as [->|Hne].
  - destruct Hf as [Hf|Hf]; apply Hg5; [|by eapply Hd4]. apply Hg4, Hg3, Hg2. by eapply Hd1.
  - destruct Hf as [Hf|Hf]; [|by eapply (Hd5 n)]. apply Hg5, Hg4.
    assert (assigned v keys (length keys) n i) as Has.
    { apply Ha. exists key. split; [done|]. destruct Hf as (rp & Hrp & <- & _). by apply target_name. }
    apply (Hrem n i Hne) in Has as [Hh|Hh]; [apply Hg3; eapply (Hd2 n i key); eauto|eapply (Hd3 n i key); eauto].
Qed.

(** C17: An existence check under the quorum policy never aborts, answers every key in order,
    and changes nothing.  A key answered yes can be found on some node; and a key that any
    node that answers has, on a replica's disk or in its alien storage, is answered yes. *)
Theorem quorum_exist_correct :
  wpx P (Quorum_exist v keys) (λ r w', nsame w0 w' ∧ ∃ found, r = Ok found ∧ length found = length keys ∧
    (∀ i, found !! i = Some true → present i) ∧
    ∀ i key n d, keys !! i = Some key → n ∈ node_names v → reachable w0 n →
      findable (v:=v) key w0 n d → found !! i = Some true) w0.
Proof.
  eapply wpx_mono; [apply Quorum_exist_spec|]. intros r w (Hs & found & -> & [Hl Hso] & Hc).
  split; [done|]. exists found. by split_and!.
Qed.
End exist.
