(* ===== verification/SimpleQuorum.v ===== *)
(** * SimpleQuorum: the cluster under the simple policy

    [bob/src/cluster/simple.rs].  Puts and deletes are sent to every node of the cluster,
    gets and existence checks to the nodes of the key's virtual disk; the local node is
    asked through its own gRPC service like the others. *)

From Corelib Require Import ssreflect.
From stdpp Require Import base option list strings gmap sets numbers.
From Stdlib Require Import Strings.Byte ZArith Lia.
From S2P Require Import Prelude Data Text Errors Options Node ClusterConfig NodeConfig Mapper Backend Network.

Section simple.
Context {key_size : KeySize} {W : Type} `{Network W} (mapper : Virtual) (quorum : nat).

(** The inner [expect]. *)
Definition get_target_nodes (key : BobKey) : option (list Node) :=
  vdisk ← get_vdisk_for_key mapper key; vdisk ← vdisk; Some (vd_nodes vdisk).

(** [entry(nodes).and_modify(..).or_insert_with(..)]: nodes are compared by name. *)
Definition nodes_eq (a b : list Node) : bool := bool_decide (node_name <$> a = node_name <$> b).

Fixpoint add_node_key (nodes : list Node) (key : BobKey) (ind : nat)
    (l : list (list Node * (list BobKey * list nat))) : list (list Node * (list BobKey * list nat)) :=
  match l with
  | [] => [(nodes, ([key], [ind]))]
  | (nodes', (keys, indexes)) :: rest =>
      if nodes_eq nodes' nodes then (nodes', (keys ++ [key], indexes ++ [ind])) :: rest
      else (nodes', (keys, indexes)) :: add_node_key nodes key ind rest
  end.

Fixpoint group_keys_by_nodes_go (ind : nat) (keys : list BobKey) (acc : list (list Node * (list BobKey * list nat)))
    : option (list (list Node * (list BobKey * list nat))) :=
  match keys with
  | [] => Some acc
  | key :: rest =>
      nodes ← get_target_nodes key;
      group_keys_by_nodes_go (S ind) rest (add_node_key nodes key ind acc)
  end.

Definition group_keys_by_nodes (keys : list BobKey) : option (list (list Node * (list BobKey * list nat))) :=
  group_keys_by_nodes_go 0 keys [].

(** The text of a failure, which shows the errors, is an argument. *)
Definition perform_on_nodes {T} (show : list (Output Error) → string)
    (client_fun : NodeName → M W (result (Output T) (Output Error))) : M W (result unit Error) :=
  results ← call_nodes (vm_nodes mapper) client_fun;
  let total_count := length results in
  let errors := omap (λ r : result (Output T) (Output Error), match r with Err e => Some e | Ok _ => None end) results in
  let ok_count := (total_count - length errors)%nat in
  mret (if (quorum <=? ok_count)%nat then Ok tt
        else Err (failed ("failed: total requests: " +:+ fmt_dec (Z.of_nat total_count) +:+ ", ok: "
                          +:+ fmt_dec (Z.of_nat ok_count) +:+ ", quorum: " +:+ fmt_dec (Z.of_nat quorum)
                          +:+ ", errors: " +:+ show errors))).

Definition Simple_put (show : list (Output Error) → string) (key : BobKey) (data : BobData) : M W (result unit Error) :=
  perform_on_nodes show (λ c, client_put c key data
    {| po_remote_nodes := []; po_force_node := true; po_overwrite := false |}).

Definition Simple_get (key : BobKey) : M W (result BobData Error) :=
  target_nodes ← expect (get_target_nodes key);
  results ← call_nodes target_nodes (λ conn, client_get conn key GetOptions_new_local);
  let ok_results := omap (λ r : result (Output BobData) (Output Error), match r with Ok o => Some o | Err _ => None end) results in
  mret (match ok_results with
        | res :: _ => Ok (out_inner res)
        | [] => Err (key_not_found key)
        end).

(** [exist[ind] |= r] for the zip of the answers and the indexes; out of range aborts. *)
Definition or_result (exist : list bool) (indexes : list nat) (result : list bool) : option (list bool) :=
  ofold (λ exist (p : bool * nat), old ← exist !! p.2; Some (<[p.2 := old || p.1]> exist)) exist (zip result indexes).

Definition exist_on_group (exist : list bool) (group : list Node * (list BobKey * list nat)) : M W (list bool) :=
  let '(nodes, (keys, indexes)) := group in
  res ← exist_on_nodes nodes keys;
  expect (ofold (λ exist (r : result (Output (list bool)) (Output Error)),
    match r with Ok o => or_result exist indexes (out_inner o) | Err _ => Some exist end) exist res).

Definition Simple_exist `{!HashOrder} (keys : list BobKey) : M W (result (list bool) Error) :=
  keys_by_nodes ← expect (group_keys_by_nodes keys);
  exist ← for_each exist_on_group (replicate (length keys) false) (hash_order keys_by_nodes);
  mret (Ok exist).

Definition Simple_delete (show : list (Output Error) → string) (key : BobKey) (m : BobMeta) : M W (result unit Error) :=
  perform_on_nodes show (λ c, client_delete c key m DeleteOptions_new_local).
End simple.
