(* ===== verification/Access.v ===== *)
(** * Access: authentication and permissions

    The crate [bob-access]: credentials and their extraction from a request, users and
    permissions, the basic authenticator with the addresses of the nodes and the
    resolution of their host names.  Base64, hexadecimal digits, SHA-512 and the
    case-insensitive comparison come from crates and are the class [AccessCrates]; DNS
    answers are arguments.  Time is in milliseconds. *)

From Corelib Require Import ssreflect.
From stdpp Require Import base option list strings gmap sets numbers.
From Stdlib Require Import Strings.Byte Strings.Ascii ZArith Lia.
From S2P Require Import Prelude Data Text Errors.

Class AccessCrates := {
  base64_decode : string → result (list byte) string;
  from_hex : string → option (list byte);
  sha512 : list byte → list byte;
  unicase_eq : string → string → bool;
}.

(** ** Errors *)

Inductive AccessError : Type :=
| AE_Unknown
| AE_InvalidToken (msg : string)
| AE_Validation (msg : string)
| AE_Os (msg : string)
| AE_UserNotFound
| AE_ConversionError (msg : string)
| AE_CredentialsNotProvided (msg : string)
| AE_MultipleCredentialsTypes
| AE_UnauthorizedRequest
| AE_PermissionDenied.

Definition ae_msg (e : AccessError) : string :=
  match e with
  | AE_Unknown => "Unknown error"
  | AE_InvalidToken _ => "Invalid token"
  | AE_Validation _ => "Validation error"
  | AE_Os _ => "Os error"
  | AE_UserNotFound => "Unauthorized request"
  | AE_ConversionError _ => "Conversion error"
  | AE_CredentialsNotProvided _ => "Credentials not provided"
  | AE_MultipleCredentialsTypes => "Multiple credentials type"
  | AE_UnauthorizedRequest => "Unauthorized request"
  | AE_PermissionDenied => "Permission denied"
  end.

(** The HTTP status code. *)
Definition ae_status_code (e : AccessError) : Z :=
  match e with
  | AE_Unknown | AE_Os _ => 500
  | AE_InvalidToken _ | AE_Validation _ | AE_ConversionError _ | AE_MultipleCredentialsTypes => 400
  | AE_UserNotFound | AE_CredentialsNotProvided _ | AE_UnauthorizedRequest => 401
  | AE_PermissionDenied => 403
  end.

Definition ae_code (e : AccessError) : Code :=
  match e with
  | AE_Unknown => CodeUnknown
  | AE_InvalidToken _ | AE_Validation _ | AE_ConversionError _ | AE_MultipleCredentialsTypes => CodeInvalidArgument
  | AE_Os _ => CodeInternal
  | AE_UserNotFound | AE_CredentialsNotProvided _ | AE_UnauthorizedRequest => CodeUnauthenticated
  | AE_PermissionDenied => CodePermissionDenied
  end.

Definition Status_from_AccessError (e : AccessError) : Status := {| code := ae_code e; message := ae_msg e |}.

(** ** Permissions: the bits of a [u8] *)

Definition Permissions : Type := Z.
Definition PERM_READ : Permissions := 1.
Definition PERM_WRITE : Permissions := 2.
Definition PERM_READ_REST : Permissions := 4.
Definition PERM_WRITE_REST : Permissions := 8.
Definition PERM_FORBIDDEN : Permissions := 128.

Definition perm_all : Permissions := 143.
Definition perm_contains (p q : Permissions) : bool := Z.land p q =? q.
(** [set(flag, true)] *)
Definition perm_set (p flag : Permissions) : Permissions := Z.lor p flag.

Definition has_rest_read (p : Permissions) : bool := perm_contains p PERM_READ_REST.
Definition has_rest_write (p : Permissions) : bool := perm_contains p PERM_WRITE_REST.
Definition has_write (p : Permissions) : bool := perm_contains p PERM_WRITE.
Definition has_read (p : Permissions) : bool := perm_contains p PERM_READ.

(** ** Users *)

Record Perms : Type := { p_read : bool; p_write : bool; p_read_rest : bool; p_write_rest : bool }.
Record User : Type := {
  u_username : string;
  u_password : option string;
  u_password_hash : option (list byte);
  u_perms : Perms;
}.

Definition Permissions_from_User (user : User) : Permissions :=
  let p := 0 in
  let p := if p_read (u_perms user) then perm_set p PERM_READ else p in
  let p := if p_write (u_perms user) then perm_set p PERM_WRITE else p in
  let p := if p_read_rest (u_perms user) then perm_set p PERM_READ_REST else p in
  if p_write_rest (u_perms user) then perm_set p PERM_WRITE_REST else p.

Record ClaimPerms : Type := {
  cp_read : option bool; cp_write : option bool; cp_read_rest : option bool; cp_write_rest : option bool;
}.

Definition update_perms (c : ClaimPerms) (p : Perms) : Perms := {|
  p_read := default (p_read p) (cp_read c);
  p_write := default (p_write p) (cp_write c);
  p_read_rest := default (p_read_rest p) (cp_read_rest c);
  p_write_rest := default (p_write_rest p) (cp_write_rest c);
|}.

Record ConfigUser : Type := {
  cu_username : string;
  cu_password : option string;
  cu_password_hash : option string;
  cu_role : option string;
  cu_claims : option ClaimPerms;
}.

Section users.
Context `{AccessCrates}.

Definition user_perms (roles : gmap string Perms) (u : ConfigUser) : result Perms AccessError :=
  perms <-? match cu_role u with
            | Some role => ok_or (roles !! role) (AE_Validation ("Can't find role " +:+ role))
            | None => Ok {| p_read := false; p_write := false; p_read_rest := false; p_write_rest := false |}
            end;
  Ok (match cu_claims u with Some claims => update_perms claims perms | None => perms end).

(** One turn of the loop.  The outer [None] aborts: a hash that is not hexadecimal.  The
    text of the error for a repeated name, which shows the other user, is an argument. *)
Definition parse_user (show : User → string) (roles : gmap string Perms) (users : gmap string User) (u : ConfigUser)
    : option (result (gmap string User) AccessError) :=
  match user_perms roles u with
  | Err e => Some (Err e)
  | Ok perms =>
      hash ← match cu_password_hash u with
             | Some h => Some <$> from_hex h
             | None => Some None
             end;
      if match hash with Some hash => negb (length hash =? 64)%nat | None => false end
      then Some (Err (AE_Validation ("User's " +:+ cu_username u +:+ " password_hash size is not 512 bits")))
      else
        let password :=
          if bool_decide (hash = None) && bool_decide (cu_password u = None) then Some EmptyString else cu_password u in
        let user := {| u_username := cu_username u; u_password := password; u_password_hash := hash; u_perms := perms |} in
        Some (match users !! cu_username u with
              | Some other => Err (AE_Validation ("Users with the same username (first: " +:+ show other +:+ ")"))
              | None => Ok (<[cu_username u := user]> users)
              end)
  end.

Fixpoint parse_users_go (show : User → string) (roles : gmap string Perms) (users : gmap string User)
    (l : list ConfigUser) : option (result (gmap string User) AccessError) :=
  match l with
  | [] => Some (Ok users)
  | u :: l' =>
      r ← parse_user show roles users u;
      match r with
      | Ok users => parse_users_go show roles users l'
      | Err e => Some (Err e)
      end
  end.

Definition parse_users (show : User → string) (yaml_users : list ConfigUser) (roles : gmap string Perms)
    : option (result (gmap string User) AccessError) := parse_users_go show roles ∅ yaml_users.
End users.

Record UsersMap : Type := { um_inner : gmap string User; um_password_salt : string }.

Definition get_user (um : UsersMap) (username : string) : result User AccessError :=
  ok_or (um_inner um !! username) AE_UserNotFound.

(** ** Credentials *)

Record SocketAddr : Type := { sa_ip : string; sa_port : Z }.

#[global] Instance SocketAddr_eq_dec : EqDecision SocketAddr.
Proof. solve_decision. Defined.

Inductive CredentialsKind : Type :=
| CK_Basic (username password : string)
| CK_Token (token : string)
| CK_InterNode (node_name : string).

#[global] Instance CredentialsKind_eq_dec : EqDecision CredentialsKind.
Proof. solve_decision. Defined.

Definition is_internode (k : CredentialsKind) : bool := match k with CK_InterNode _ => true | _ => false end.

Record RequestCredentials : Type := { rc_address : option SocketAddr; rc_kind : option CredentialsKind }.

Definition RequestCredentials_default : RequestCredentials := {| rc_address := None; rc_kind := None |}.

Record DeclaredCredentials : Type := {
  dc_address : list SocketAddr;
  dc_hostname : option string;
  dc_kind : CredentialsKind;
}.

Definition validate_internode (c : DeclaredCredentials) : bool :=
  (negb (bool_decide (dc_address c = [])) || bool_decide (is_Some (dc_hostname c))) && is_internode (dc_kind c).

Definition is_created_with_address (c : DeclaredCredentials) : bool :=
  bool_decide (dc_hostname c = None) && negb (bool_decide (dc_address c = [])).

Definition RESOLVE_THRESHOLD : Z := 3.

Inductive ResolveState : Type := Resolved (n : Z) | InProgress.

#[global] Instance ResolveState_eq_dec : EqDecision ResolveState.
Proof. solve_decision. Defined.

(** The counter is a [u32] that wraps. *)
Definition ResolveState_update (authenticated : bool) (s : ResolveState) : bool * ResolveState :=
  match s with
  | Resolved n =>
      if authenticated then (false, Resolved 0)
      else let n := (n + 1) mod 2 ^ 32 in (RESOLVE_THRESHOLD <=? n, Resolved n)
  | InProgress => (false, InProgress)
  end.

Record Guard : Type := {
  gd_credentials : DeclaredCredentials;
  gd_resolve_state : ResolveState;
  gd_resolve_threshold : Z;
  gd_period_ms : Z;
}.

Definition Guard_new (now : Z) (credentials : DeclaredCredentials) (period_ms : Z) : Guard := {|
  gd_credentials := credentials; gd_resolve_state := Resolved 0;
  gd_resolve_threshold := now + period_ms; gd_period_ms := period_ms |}.

Definition with_state (g : Guard) (s : ResolveState) : Guard := {|
  gd_credentials := gd_credentials g; gd_resolve_state := s;
  gd_resolve_threshold := gd_resolve_threshold g; gd_period_ms := gd_period_ms g |}.

Definition update_resolve_state (now : Z) (authenticated : bool) (g : Guard) : bool * Guard :=
  if is_created_with_address (gd_credentials g) then (false, g)
  else if authenticated || (gd_resolve_threshold g <=? now) then
    let '(r, s) := ResolveState_update authenticated (gd_resolve_state g) in (r, with_state g s)
  else (false, g).

Definition needs_update (now : Z) (authenticated : bool) (g : Guard) : bool :=
  if is_created_with_address (gd_credentials g) then false
  else
    match gd_resolve_state g with
    | Resolved n => if authenticated then 0 <? n else gd_resolve_threshold g <=? now
    | InProgress => false
    end.

Definition set_resolved (now : Z) (addresses : list SocketAddr) (g : Guard) : Guard := {|
  gd_credentials := {| dc_address := addresses; dc_hostname := dc_hostname (gd_credentials g);
                       dc_kind := dc_kind (gd_credentials g) |};
  gd_resolve_state := Resolved 0;
  gd_resolve_threshold := now + gd_period_ms g;
  gd_period_ms := gd_period_ms g |}.

Definition set_in_progress (g : Guard) : Guard := with_state g InProgress.

(** ** Extraction of the credentials of a request *)

Inductive AuthenticationType : Type := AuthNone | AuthBasic | AuthToken.

(** A header that is not visible ASCII carries the text of its conversion error. *)
Record AccessRequest : Type := {
  ar_header : string → option (result string string);
  ar_remote_addr : option SocketAddr;
}.

Definition get_header (req : AccessRequest) (header : string) : result (option string) AccessError :=
  match ar_header req header with
  | Some v => result_map Some (result_map_err AE_ConversionError v)
  | None => Ok None
  end.

(** Whether the bytes are UTF-8. *)
Definition in_bytes (lo hi : Z) (b : byte) : bool := (lo <=? byte_val b) && (byte_val b <=? hi).

Fixpoint utf8_valid (l : list byte) : bool :=
  match l with
  | [] => true
  | b :: l1 =>
      if in_bytes 0 127 b then utf8_valid l1
      else
        match l1 with
        | [] => false
        | c1 :: l2 =>
            if in_bytes 194 223 b then in_bytes 128 191 c1 && utf8_valid l2
            else
              match l2 with
              | [] => false
              | c2 :: l3 =>
                  if in_bytes 224 239 b then
                    in_bytes (if byte_val b =? 224 then 160 else 128) (if byte_val b =? 237 then 159 else 191) c1
                    && in_bytes 128 191 c2 && utf8_valid l3
                  else
                    match l3 with
                    | [] => false
                    | c3 :: l4 =>
                        in_bytes 240 244 b
                        && in_bytes (if byte_val b =? 240 then 144 else 128) (if byte_val b =? 244 then 143 else 191) c1
                        && in_bytes 128 191 c2 && in_bytes 128 191 c3 && utf8_valid l4
                    end
              end
        end
  end.

Definition string_of_bytes (l : list byte) : string :=
  foldr (λ b s, String (ascii_of_N (Byte.to_N b)) s) EmptyString l.

Definition from_utf8 (l : list byte) : option string :=
  if utf8_valid l then Some (string_of_bytes l) else None.

(** [str::split_terminator]: no empty last piece. *)
Definition split_terminator (sep : ascii) (s : string) : list string :=
  let l := split_char sep s in
  match list.last l with
  | Some EmptyString => List.removelast l
  | _ => l
  end.

Section extract.
Context `{AccessCrates} (utf8_error : list byte → string).

Definition decode_credentials (credentials : string) : result string AccessError :=
  bytes <-? result_map_err (λ e, AE_ConversionError ("bad base64 credentials: " +:+ e)) (base64_decode credentials);
  ok_or (from_utf8 bytes) (AE_ConversionError ("invalid utf8 credentials characters: " +:+ utf8_error bytes)).

Definition username_password_from_credentials (credentials : string) : result (string * string) AccessError :=
  str_cred <-? decode_credentials credentials;
  match split_terminator ":"%char str_cred with
  | username :: password :: _ => Ok (username, password)
  | [username] => Ok (username, EmptyString)
  | [] => Err (AE_CredentialsNotProvided "missing username or password")
  end.

Definition nodename_from_credentials (credentials : string) : result string AccessError :=
  decode_credentials credentials.

Definition extract_basic (req : AccessRequest) : result RequestCredentials AccessError :=
  let with_kind k := {| rc_address := ar_remote_addr req; rc_kind := Some k |} in
  auth_header <-? get_header req "authorization";
  match auth_header with
  | Some auth_header =>
      match split_whitespace auth_header with
      | auth_type :: credentials :: _ =>
          if unicase_eq auth_type "Basic" then
            up <-? username_password_from_credentials credentials;
            Ok (with_kind (CK_Basic up.1 up.2))
          else if unicase_eq auth_type "InterNode" then
            node_name <-? nodename_from_credentials credentials;
            Ok (with_kind (CK_InterNode node_name))
          else Err (AE_CredentialsNotProvided "unknown authorization type")
      | _ => Err (AE_CredentialsNotProvided "bad authorization header")
      end
  | None => Ok (with_kind (CK_Basic "default" EmptyString))
  end.

Definition extract_token (req : AccessRequest) : result RequestCredentials AccessError :=
  let with_kind k := {| rc_address := ar_remote_addr req; rc_kind := Some k |} in
  token <-? get_header req "token";
  match token with
  | Some token => Ok (with_kind (CK_Token token))
  | None =>
      node_name <-? get_header req "node_name";
      match node_name with
      | Some node_name => Ok (with_kind (CK_InterNode node_name))
      | None => Err (AE_CredentialsNotProvided "missing token")
      end
  end.

Definition extract (cred_type : AuthenticationType) (req : AccessRequest) : result RequestCredentials AccessError :=
  match cred_type with
  | AuthNone => Ok RequestCredentials_default
  | AuthBasic => extract_basic req
  | AuthToken => extract_token req
  end.

(** For a gRPC request an extraction that fails gives empty credentials. *)
Definition CredentialsHolder_from (cred_type : AuthenticationType) (req : AccessRequest) : RequestCredentials :=
  match extract cred_type req with Ok c => c | Err _ => RequestCredentials_default end.
End extract.

(** ** The authenticators *)

(** The nodes, and the resolvers that are running. *)
Record AuthState : Type := {
  au_nodes : gmap string Guard;
  au_resolvers : list DeclaredCredentials;
}.

Record Basic : Type := { bs_users_storage : UsersMap; bs_resolve_sleep_period_ms : Z }.

Definition node_creds_ok (creds : list (string * DeclaredCredentials)) : bool :=
  forallb (λ p, validate_internode p.2) creds.

Definition set_node_credentials (now period : Z) (st : AuthState) (p : string * DeclaredCredentials) : AuthState :=
  let guard := Guard_new now p.2 period in
  if bool_decide (dc_address p.2 = []) && bool_decide (is_Some (dc_hostname p.2)) then
    {| au_nodes := <[p.1 := set_in_progress guard]> (au_nodes st); au_resolvers := p.2 :: au_resolvers st |}
  else {| au_nodes := <[p.1 := guard]> (au_nodes st); au_resolvers := au_resolvers st |}.

(** The map of credentials in the order it is drained. *)
Definition set_nodes_credentials (b : Basic) (now : Z) (nodes : list (string * DeclaredCredentials)) (st : AuthState)
    : result unit AccessError * AuthState :=
  if node_creds_ok nodes
  then (Ok tt, foldl (set_node_credentials now (bs_resolve_sleep_period_ms b)) st nodes)
  else (Err (AE_CredentialsNotProvided "nodes credentials missing ip or node name"), st).

(** The end of [resolve_worker]: the addresses of the first answer that has some. *)
Definition resolve_finish (now : Z) (cred : DeclaredCredentials) (addr : list SocketAddr) (nodes : gmap string Guard)
    : gmap string Guard :=
  match dc_kind cred with
  | CK_InterNode nodename => alter (set_resolved now addr) nodename nodes
  | _ => nodes
  end.

Definition process_auth_result (now : Z) (nodename : string) (authenticated : bool) (st : AuthState) : AuthState :=
  match au_nodes st !! nodename with
  | Some node =>
      let '(resolve, node) := update_resolve_state now authenticated node in
      if resolve then
        {| au_nodes := <[nodename := set_in_progress node]> (au_nodes st);
           au_resolvers := gd_credentials node :: au_resolvers st |}
      else {| au_nodes := <[nodename := node]> (au_nodes st); au_resolvers := au_resolvers st |}
  | None => st
  end.

(** The part of [check_node_request] under the read lock: authenticated, needs update. *)
Definition check_node_read (now : Z) (node_name : string) (ip : option SocketAddr) (nodes : gmap string Guard)
    : bool * bool :=
  match ip with
  | None => (false, false)
  | Some addr =>
      match nodes !! node_name with
      | Some guard =>
          if is_internode (dc_kind (gd_credentials guard)) then
            let authenticated :=
              existsb (λ cred_ip, bool_decide (sa_ip cred_ip = sa_ip addr)) (dc_address (gd_credentials guard)) in
            (authenticated, needs_update now authenticated guard)
          else (false, false)
      | None => (false, false)
      end
  end.

Definition check_node_request (now : Z) (node_name : string) (ip : option SocketAddr) : M AuthState bool := λ st,
  let '(authenticated, update) := check_node_read now node_name ip (au_nodes st) in
  Some (authenticated, if update then process_auth_result now node_name authenticated st else st).

Section check.
Context `{AccessCrates}.

Definition check_password (um : UsersMap) (user : User) (password : string) : result Permissions AccessError :=
  match u_password user, u_password_hash user with
  | Some usr_password, _ =>
      if bool_decide (usr_password = password) then Ok (Permissions_from_User user) else Err AE_UnauthorizedRequest
  | None, Some usr_hash =>
      if bool_decide (sha512 (bytes_of_string (password +:+ um_password_salt um)) = usr_hash)
      then Ok (Permissions_from_User user) else Err AE_UnauthorizedRequest
  | None, None => Err AE_UnauthorizedRequest
  end.

Definition check_credentials_common (b : Basic) (credentials : RequestCredentials) : result Permissions AccessError :=
  match rc_kind credentials with
  | Some (CK_Basic username password) =>
      user <-? get_user (bs_users_storage b) username;
      check_password (bs_users_storage b) user password
  | None => Err (AE_CredentialsNotProvided "missing credentials")
  | _ => Err AE_UnauthorizedRequest
  end.

Definition check_credentials_grpc (b : Basic) (now : Z) (credentials : RequestCredentials)
    : M AuthState (result Permissions AccessError) :=
  match rc_kind credentials with
  | Some (CK_InterNode node_name) =>
      authenticated ← check_node_request now node_name (rc_address credentials);
      mret (if (authenticated : bool) then Ok perm_all else Err AE_UnauthorizedRequest)
  | _ => mret (check_credentials_common b credentials)
  end.

Definition check_credentials_rest (b : Basic) (credentials : RequestCredentials) : result Permissions AccessError :=
  check_credentials_common b credentials.
End check.

Definition Stub_check_credentials (_ : RequestCredentials) : result Permissions AccessError := Ok perm_all.

(** ** The resolvers as a transition system

    Requests take the read lock and then, when they need an update, the write lock;
    resolvers finish at any time.  A request between its two locks is pending. *)

Record AuthSystem : Type := {
  sy_state : AuthState;
  sy_pending : list (string * bool);
}.

Inductive auth_step : AuthSystem → AuthSystem → Prop :=
| AuthRead st pending now name ip authenticated :
    check_node_read now name ip (au_nodes st) = (authenticated, true) →
    auth_step {| sy_state := st; sy_pending := pending |}
              {| sy_state := st; sy_pending := (name, authenticated) :: pending |}
| AuthWrite st pre name authenticated post now :
    auth_step {| sy_state := st; sy_pending := pre ++ (name, authenticated) :: post |}
              {| sy_state := process_auth_result now name authenticated st; sy_pending := pre ++ post |}
| AuthResolved nodes pre cred post pending now addr :
    addr ≠ [] →
    auth_step {| sy_state := {| au_nodes := nodes; au_resolvers := pre ++ cred :: post |}; sy_pending := pending |}
              {| sy_state := {| au_nodes := resolve_finish now cred addr nodes; au_resolvers := pre ++ post |};
                 sy_pending := pending |}.

Definition running (name : string) (l : list DeclaredCredentials) : list DeclaredCredentials :=
  filter (λ c, dc_kind c = CK_InterNode name) l.

(** One resolver runs for every node whose resolution is in progress, and none for the
    others; a resolver always has a host name to look up. *)
Record resolvers_ok (st : AuthState) : Prop := {
  ro_named : ∀ name g, au_nodes st !! name = Some g → dc_kind (gd_credentials g) = CK_InterNode name;
  ro_host : ∀ name g, au_nodes st !! name = Some g → is_created_with_address (gd_credentials g) = false →
    is_Some (dc_hostname (gd_credentials g));
  ro_static : ∀ name g, au_nodes st !! name = Some g → is_created_with_address (gd_credentials g) = true →
    gd_resolve_state g ≠ InProgress;
  ro_running : ∀ name g, au_nodes st !! name = Some g →
    length (running name (au_resolvers st)) = if decide (gd_resolve_state g = InProgress) then 1%nat else 0%nat;
  ro_resolver : ∀ c, c ∈ au_resolvers st →
    is_Some (dc_hostname c) ∧ ∃ name, dc_kind c = CK_InterNode name ∧ is_Some (au_nodes st !! name);
}.

Lemma running_cons name c l :
  running name (c :: l) = if decide (dc_kind c = CK_InterNode name) then c :: running name l else running name l.
Proof. by rw /running filter_cons. Qed.

Lemma running_app name l l' : running name (l ++ l') = running name l ++ running name l'.
Proof. by rw /running list.filter_app. Qed.

Lemma running_other st name :
  resolvers_ok st → au_nodes st !! name = None → running name (au_resolvers st) = [].
Proof.
  intros Hok Hn. destruct (running name (au_resolvers st)) as [|c l] eqn:Hr; [done|].
  assert (c ∈ running name (au_resolvers st)) as [Hk Hc]%list_elem_of_filter by (rw Hr; by left).
  destruct (ro_resolver st Hok c Hc) as (_ & name' & Hk' & Hs). rw Hk in Hk'. injection Hk' as <-.
  rw Hn in Hs. by destruct Hs.
Qed.

Lemma update_resolve_state_cases now authenticated g r g' :
  update_resolve_state now authenticated g = (r, g') →
  gd_credentials g' = gd_credentials g ∧
  (r = false → (gd_resolve_state g' = InProgress ↔ gd_resolve_state g = InProgress)) ∧
  (r = true → gd_resolve_state g ≠ InProgress ∧ is_created_with_address (gd_credentials g) = false).
Proof.
  rw /update_resolve_state. destruct (is_created_with_address (gd_credentials g)) eqn:Ha; [by intros [= <- <-]|].
  destruct (_ || _); [|by intros [= <- <-]].
  rw /ResolveState_update. destruct (gd_resolve_state g) as [n|] eqn:Hs; [|by intros [= <- <-]].
  destruct authenticated; intros [= <- <-]; split_and!; done.
Qed.

Lemma set_node_ok now period st p :
  resolvers_ok st → au_nodes st !! p.1 = None → dc_kind p.2 = CK_InterNode p.1 → validate_internode p.2 = true →
  resolvers_ok (set_node_credentials now period st p).
Proof.
  intros Hok Hnew Hk Hv. pose proof (running_other st p.1 Hok Hnew) as Hrun.
  rw /validate_internode in Hv. apply andb_true_iff in Hv as [Hv _].
  assert (∀ g, gd_credentials g = p.2 → gd_resolve_state g ≠ InProgress ∨ is_created_with_address p.2 = false →
    (is_created_with_address p.2 = false → is_Some (dc_hostname p.2)) → ∀ l,
    (l = au_resolvers st ∧ gd_resolve_state g ≠ InProgress ∨
     l = p.2 :: au_resolvers st ∧ gd_resolve_state g = InProgress ∧ is_Some (dc_hostname p.2)) →
    resolvers_ok {| au_nodes := <[p.1 := g]> (au_nodes st); au_resolvers := l |}) as Hgen.
  { intros g Hg Hst Hhost l Hl. split; simpl.
    - intros name g' [[<- <-]|[? ?]]%lookup_insert_Some; [by rw Hg|by eapply ro_named].
    - intros name g' [[<- <-]|[? ?]]%lookup_insert_Some; [by rw Hg|by eapply ro_host].
    - intros name g' [[<- <-]|[? ?]]%lookup_insert_Some; [rw Hg; naive_solver congruence|by eapply ro_static].
    - intros name g' [[<- <-]|[Hne Hl']]%lookup_insert_Some.
      + destruct Hl as [[-> Hs]|[-> [Hs _]]]; [by rw Hrun decide_False|].
        by rw running_cons (decide_True (P := dc_kind _ = _)) // Hrun decide_True.
      + destruct Hl as [[-> Hs]|[-> [Hs _]]]; [by apply ro_running|].
        rw running_cons decide_False; [congruence|]. by apply ro_running.
    - assert (∀ c, c ∈ au_resolvers st → is_Some (dc_hostname c) ∧ ∃ name, dc_kind c = CK_InterNode name ∧
        is_Some (<[p.1 := g]> (au_nodes st) !! name)) as Hold.
      { intros c Hc. destruct (ro_resolver st Hok c Hc) as (? & name & ? & ?). split; [done|]. exists name.
        split; [done|]. rw lookup_insert_is_Some'. by right. }
      intros c Hc. destruct Hl as [[-> _]|[-> (_ & Hh)]]; [by apply Hold|].
      apply elem_of_cons in Hc as [->|Hc]; [|by apply Hold]. split; [done|]. exists p.1. split; [done|].
      rw lookup_insert_eq. by eexists. }
  assert (is_created_with_address p.2 = false → is_Some (dc_hostname p.2)) as Hhost.
  { rw /is_created_with_address. intros [Hb|Hb]%andb_false_iff.
    - apply bool_decide_eq_false in Hb. by destruct (dc_hostname p.2); [eexists|].
    - apply orb_true_iff in Hv as [Hv|Hv]; [by rw Hv in Hb|by apply bool_decide_eq_true in Hv]. }
  rw /set_node_credentials. destruct (_ && _) eqn:Hb.
  - apply andb_true_iff in Hb as [Ha%bool_decide_eq_true Hh%bool_decide_eq_true].
    apply Hgen; [done| |done|]; [|by right].
    right. rw /is_created_with_address Ha. apply andb_false_r.
  - apply Hgen; [done| |done|]; [by left|by left].
Qed.

Lemma resolvers_init b now nodes :
  NoDup nodes.*1 → (∀ p, p ∈ nodes → dc_kind p.2 = CK_InterNode p.1) →
  resolvers_ok (set_nodes_credentials b now nodes {| au_nodes := ∅; au_resolvers := [] |}).2.
Proof.
  intros Hnd Hk. rw /set_nodes_credentials. set (st0 := {| au_nodes := ∅; au_resolvers := [] |}).
  assert (resolvers_ok st0) as H0.
  { split; simpl; [intros name g Hg; by rw lookup_empty in Hg..|by intros c ?%elem_of_nil]. }
  destruct (node_creds_ok nodes) eqn:Hv; [simpl|done].
  assert (∀ p, p ∈ nodes → au_nodes st0 !! p.1 = None) as Hnew by (intros p _; apply lookup_empty).
  clearbody st0. revert st0 H0 Hnew. induction nodes as [|p nodes IH]; intros st H0 Hnew; [done|]. simpl in *.
  apply andb_true_iff in Hv as [Hvp Hv]. apply list.NoDup_cons in Hnd as [Hp Hnd].
  apply IH; [done|intros; apply Hk; by right|done| |].
  - apply set_node_ok; [done|apply Hnew; by left|apply Hk; by left|done].
  - intros q Hq. assert (p.1 ≠ q.1) by (intros Heq; apply Hp; rw Heq; by apply list_elem_of_fmap_2).
    rw /set_node_credentials. destruct (_ && _); simpl; (rw lookup_insert_ne //; apply Hnew; by right).
Qed.

Lemma process_ok now name authenticated st :
  resolvers_ok st → resolvers_ok (process_auth_result now name authenticated st).
Proof.
  intros Hok. rw /process_auth_result. destruct (au_nodes st !! name) as [g|] eqn:Hg; [|done].
  destruct (update_resolve_state now authenticated g) as [r g'] eqn:Hu.
  destruct (update_resolve_state_cases _ _ _ _ _ Hu) as (Hcred & Hfalse & Htrue).
  pose proof (ro_running st Hok name g Hg) as Hrun.
  assert (∀ n, is_Some (au_nodes st !! n) → ∀ x, is_Some (<[name := x]> (au_nodes st) !! n)) as Hkeep.
  { intros n Hn x. rw lookup_insert_is_Some'. by right. }
  destruct r.
  - destruct (Htrue eq_refl) as [Hs Ha]. rw (decide_False (P := gd_resolve_state g = InProgress)) // in Hrun.
    split; simpl.
    + intros n g2 [[<- <-]|[? ?]]%lookup_insert_Some; [simpl; rw Hcred|]; by eapply ro_named.
    + intros n g2 [[<- <-]|[? ?]]%lookup_insert_Some; [simpl; rw Hcred|]; by eapply ro_host.
    + intros n g2 [[<- <-]|[? ?]]%lookup_insert_Some; [simpl; rw Hcred Ha; done|by eapply ro_static].
    + intros n g2 [[<- <-]|[Hne Hl]]%lookup_insert_Some; rw running_cons Hcred (ro_named st Hok name g Hg).
      * by rw (decide_True (P := CK_InterNode name = _)) //= Hrun.
      * rw decide_False; [congruence|]. by apply ro_running.
    + intros c [->|Hc]%elem_of_cons.
      * rw Hcred. split; [by eapply ro_host|]. exists name. split; [by eapply ro_named|].
        rw lookup_insert_eq. by eexists.
      * destruct (ro_resolver st Hok c Hc) as (? & n & ? & ?). split; [done|]. exists n. auto.
  - specialize (Hfalse eq_refl). split; simpl.
    + intros n g2 [[<- <-]|[? ?]]%lookup_insert_Some; [rw Hcred|]; by eapply ro_named.
    + intros n g2 [[<- <-]|[? ?]]%lookup_insert_Some; [rw Hcred|]; by eapply ro_host.
    + intros n g2 [[<- <-]|[? ?]]%lookup_insert_Some; [rw Hcred Hfalse; by eapply ro_static|by eapply ro_static].
    + intros n g2 [[<- <-]|[Hne Hl]]%lookup_insert_Some; [|by apply ro_running].
      rw Hrun. by repeat case_decide; tauto.
    + intros c Hc. destruct (ro_resolver st Hok c Hc) as (? & n & ? & ?). split; [done|]. exists n. auto.
Qed.

Lemma resolve_ok now nodes pre cred post addr :
  addr ≠ [] →
  resolvers_ok {| au_nodes := nodes; au_resolvers := pre ++ cred :: post |} →
  resolvers_ok {| au_nodes := resolve_finish now cred addr nodes; au_resolvers := pre ++ post |}.
Proof.
  intros Haddr Hok.
  destruct (ro_resolver _ Hok cred) as (Hhost & name & Hk & [g Hg]); [simpl; apply elem_of_app; right; by left|].
  rw /resolve_finish Hk. simpl in Hg. pose proof (ro_running _ Hok name g Hg) as Hrun. simpl in Hrun.
  rw running_app running_cons decide_True // length_app /= in Hrun.
  assert (gd_resolve_state g = InProgress) as Hs by (case_decide; [done|lia]).
  rw (decide_True (P := gd_resolve_state g = InProgress)) // in Hrun.
  assert (alter (set_resolved now addr) name nodes = <[name := set_resolved now addr g]> nodes) as Halter.
  { apply map_eq. intros i. destruct (decide (i = name)) as [->|Hne].
    - by rw lookup_alter_eq Hg lookup_insert_eq.
    - by rw lookup_alter_ne // lookup_insert_ne. }
  rw Halter. assert (is_created_with_address (gd_credentials g) = false) as Ha.
  { destruct (is_created_with_address (gd_credentials g)) eqn:Ha; [|done].
    by destruct (ro_static _ Hok name g Hg Ha). }
  pose proof (ro_host _ Hok name g Hg Ha) as Hh.
  split; simpl.
  - intros n g2 [[<- <-]|[? ?]]%lookup_insert_Some; simpl; [by apply (ro_named _ Hok)|by eapply (ro_named _ Hok)].
  - intros n g2 [[<- <-]|[? ?]]%lookup_insert_Some; simpl; [done|by eapply (ro_host _ Hok)].
  - intros n g2 [[<- <-]|[? ?]]%lookup_insert_Some; simpl; [done|by eapply (ro_static _ Hok)].
  - intros n g2 [[<- <-]|[Hne Hl]]%lookup_insert_Some; simpl; rw running_app length_app.
    + lia.
    + pose proof (ro_running _ Hok n g2 Hl) as Hr2. simpl in Hr2.
      rw running_app running_cons decide_False in Hr2; [congruence|]. by rw length_app in Hr2.
  - intros c Hc. destruct (ro_resolver _ Hok c) as (? & n & ? & ?).
    { simpl. apply elem_of_app in Hc as [?|?]; apply elem_of_app; [by left|right; by right]. }
    split; [done|]. exists n. split; [done|]. rw lookup_insert_is_Some'. by right.
Qed.

Lemma auth_step_ok s s' : auth_step s s' → resolvers_ok (sy_state s) → resolvers_ok (sy_state s').
Proof. intros [] Hok; simpl in *; [done|by apply process_ok|by apply resolve_ok]. Qed.

(** ** Lemmas: users *)

Section user_lemmas.
Context `{AccessCrates} (show : User → string) (roles : gmap string Perms).

(** What the configuration says of one user. *)
Definition user_matches (u : ConfigUser) (user : User) : Prop :=
  u_username user = cu_username u ∧
  u_perms user = (let base := match cu_role u ≫= (λ role, roles !! role) with
                              | Some p => p
                              | None => {| p_read := false; p_write := false; p_read_rest := false; p_write_rest := false |}
                              end in
                  match cu_claims u with Some c => update_perms c base | None => base end) ∧
  (∀ role, cu_role u = Some role → is_Some (roles !! role)) ∧
  match cu_password_hash u with
  | Some h => ∃ hash, from_hex h = Some hash ∧ length hash = 64%nat ∧
      u_password_hash user = Some hash ∧ u_password user = cu_password u
  | None => u_password_hash user = None ∧ u_password user = Some (default EmptyString (cu_password u))
  end.

Lemma parse_user_Ok users u users' :
  parse_user show roles users u = Some (Ok users') →
  ∃ user, user_matches u user ∧ users !! cu_username u = None ∧ users' = <[cu_username u := user]> users.
Proof.
  rw /parse_user /user_perms. destruct (match cu_role u with Some _ => _ | None => _ end) as [base|e] eqn:Hrole; [|done].
  simpl. destruct (cu_password_hash u) as [h|] eqn:Hh; simpl.
  - destruct (from_hex h) as [hash|] eqn:Hhex; [simpl|done]. destruct (Nat.eqb_spec (length hash) 64) as [Hl|]; [|done].
    simpl. destruct (users !! cu_username u) eqn:Hnew; [done|]. intros [= <-]. eexists. split; [|done].
    split; [done|]. split; [|split].
    + simpl. destruct (cu_role u) as [role|]; simpl in *; [|by simplify_eq].
      by destruct (roles !! role); simplify_eq/=.
    + intros role Hr. rw Hr in Hrole. destruct (roles !! role); [by eexists|done].
    + rw Hh. exists hash. by split_and!.
  - destruct (users !! cu_username u) eqn:Hnew; [done|]. intros [= <-]. eexists. split; [|done].
    split; [done|]. split; [|split].
    + simpl. destruct (cu_role u) as [role|]; simpl in *; [|by simplify_eq].
      by destruct (roles !! role); simplify_eq/=.
    + intros role Hr. rw Hr in Hrole. destruct (roles !! role); [by eexists|done].
    + rw Hh. split; [done|]. simpl. by destruct (cu_password u).
Qed.

Lemma parse_users_go_Ok l users users' :
  parse_users_go show roles users l = Some (Ok users') →
  NoDup (cu_username <$> l) ∧ (∀ u, u ∈ l → users !! cu_username u = None) ∧
  (∀ name, name ∉ cu_username <$> l → users' !! name = users !! name) ∧
  ∀ u, u ∈ l → ∃ user, users' !! cu_username u = Some user ∧ user_matches u user.
Proof.
  revert users. induction l as [|u l IH]; intros users; simpl.
  - intros [= <-]. split; [constructor|]. split_and!; [by intros ? ?%elem_of_nil|done|by intros ? ?%elem_of_nil].
  - destruct (parse_user show roles users u) as [[users1|e]|] eqn:Hp; [|done|done]. simpl. intros Hgo.
    destruct (parse_user_Ok _ _ _ Hp) as (user & Hm & Hnew & ->).
    destruct (IH _ Hgo) as (Hnd & Hfresh & Hsame & Hin).
    assert (cu_username u ∉ cu_username <$> l) as Hnot.
    { intros (u2 & Heq & Hu2)%list_elem_of_fmap. specialize (Hfresh u2 Hu2). by rw -Heq lookup_insert_eq in Hfresh. }
    split; [by apply list.NoDup_cons|]. split; [|split].
    + intros u2 [->|Hu2]%elem_of_cons; [done|]. specialize (Hfresh u2 Hu2).
      by apply lookup_insert_None in Hfresh as [? _].
    + intros name Hname. rw elem_of_cons in Hname. rw Hsame; [tauto|]. rw lookup_insert_ne //.
      intros Heq. apply Hname. by left.
    + intros u2 [->|Hu2]%elem_of_cons; [|by apply Hin]. exists user. split; [|done].
      by rw Hsame // lookup_insert_eq.
Qed.
End user_lemmas.

(** ** Theorems *)

(** The permissions of a user are exactly the four rights of its record: each right
    is granted if and only if the user has it, and the bit [FORBIDDEN] is never set. *)
Theorem user_permissions_exact user :
  has_read (Permissions_from_User user) = p_read (u_perms user) ∧
  has_write (Permissions_from_User user) = p_write (u_perms user) ∧
  has_rest_read (Permissions_from_User user) = p_read_rest (u_perms user) ∧
  has_rest_write (Permissions_from_User user) = p_write_rest (u_perms user) ∧
  perm_contains (Permissions_from_User user) PERM_FORBIDDEN = false.
Proof. rw /Permissions_from_User. by destruct (u_perms user) as [[] [] [] []]. Qed.

(** When the users file is accepted, the user names are distinct and the map holds
    exactly the users of the file: each with the rights of its role, overridden by its
    claims, and with a password or a hash of 512 bits; a user given neither has the empty
    password. *)
Theorem parse_users_spec `{AccessCrates} show l roles users :
  parse_users show l roles = Some (Ok users) →
  NoDup (cu_username <$> l) ∧ (∀ name, name ∉ cu_username <$> l → users !! name = None) ∧
  ∀ u, u ∈ l → ∃ user, users !! cu_username u = Some user ∧ user_matches roles u user.
Proof.
  intros (Hnd & _ & Hsame & Hin)%parse_users_go_Ok. split; [done|]. split; [|done].
  intros name Hn. rw Hsame //. 
Qed.

(** C32: The basic authenticator lets a gRPC request through only in two cases: as a node,
    with all permissions, when the node is declared and the request comes from one of its
    known addresses; or as a user of the users file, with that user's permissions, when
    the password is the user's or, for a user with only a hash, when the salted password
    hashes to it.  The REST interface accepts users only. *)
Theorem grpc_authentication `{AccessCrates} b now c st r st' p :
  (∀ name g, au_nodes st !! name = Some g → dc_kind (gd_credentials g) = CK_InterNode name) →
  check_credentials_grpc b now c st = Some (r, st') →
  (r = Ok p ↔
     (∃ name addr g a, rc_kind c = Some (CK_InterNode name) ∧ rc_address c = Some addr ∧
        au_nodes st !! name = Some g ∧ a ∈ dc_address (gd_credentials g) ∧ sa_ip a = sa_ip addr ∧ p = perm_all) ∨
     check_credentials_rest b c = Ok p) ∧
  (check_credentials_rest b c = Ok p ↔
     ∃ name password user, rc_kind c = Some (CK_Basic name password) ∧
       um_inner (bs_users_storage b) !! name = Some user ∧ p = Permissions_from_User user ∧
       match u_password user with
       | Some expected => expected = password
       | None => ∃ hash, u_password_hash user = Some hash ∧
           sha512 (bytes_of_string (password +:+ um_password_salt (bs_users_storage b))) = hash
       end).
Proof.
  intros Hnamed Hrun.
  assert (check_credentials_rest b c = Ok p ↔
     ∃ name password user, rc_kind c = Some (CK_Basic name password) ∧
       um_inner (bs_users_storage b) !! name = Some user ∧ p = Permissions_from_User user ∧
       match u_password user with
       | Some expected => expected = password
       | None => ∃ hash, u_password_hash user = Some hash ∧
           sha512 (bytes_of_string (password +:+ um_password_salt (bs_users_storage b))) = hash
       end) as Hrest.
  { rw /check_credentials_rest /check_credentials_common. destruct (rc_kind c) as [[name pw| |]|]; try naive_solver.
    rw /get_user. destruct (um_inner (bs_users_storage b) !! name) as [user|] eqn:Hu; simpl; [|naive_solver].
    rw /check_password. split.
    - intros Hr. exists name, pw, user. destruct (u_password user) as [pw'|] eqn:Hp.
      + case_bool_decide as Heq; [|done]. by injection Hr as <-.
      + destruct (u_password_hash user) as [h|] eqn:Hh; [|done]. case_bool_decide as Heq; [|done].
        injection Hr as <-. split_and!; [done..|]. by exists h.
    - intros (name' & pw2 & user' & [= <- <-] & Hu' & -> & Hmatch). simplify_eq.
      destruct (u_password user) as [pw'|] eqn:Hp; [by rw bool_decide_true|].
      destruct Hmatch as (h & -> & Heq). by rw bool_decide_true. }
  split; [|done]. rw /check_credentials_grpc in Hrun.
  destruct (rc_kind c) as [[name pw|token|name]|] eqn:Hk; try (injection Hrun as <- _; naive_solver).
  apply bind_Some_inv in Hrun as (auth & st1 & Hauth & [= <- _]).
  assert (check_credentials_rest b c ≠ Ok p) as Hno.
  { rw /check_credentials_rest /check_credentials_common Hk. done. }
  rw /check_node_request in Hauth. destruct (check_node_read now name (rc_address c) (au_nodes st)) as [a u] eqn:Hread.
  injection Hauth as -> _. rw /check_node_read in Hread.
  destruct (rc_address c) as [addr|]; [|simplify_eq; naive_solver].
  destruct (au_nodes st !! name) as [g|] eqn:Hg; [|simplify_eq; naive_solver].
  rw (Hnamed name g Hg) /= in Hread. injection Hread as Ha _.
  destruct auth; split; try naive_solver.
  - intros [= <-]. left. apply existsb_exists in Ha as (a0 & Hin%list_elem_of_In & Hip%bool_decide_eq_true).
    by exists name, addr, g, a0.
  - intros [(name' & addr' & g' & a0 & ? & ? & ? & Hin & Hip & ->)|?]; [|done]. simplify_eq.
    apply not_true_iff_false in Ha. destruct Ha. apply existsb_exists. exists a0.
    split; [by apply list_elem_of_In|by apply bool_decide_eq_true].
Qed.

(** Whatever the interleaving of requests and DNS answers, at most one resolver runs for
    a node, and one runs exactly when its resolution is in progress; every resolver has
    the host name it needs; and a node declared with an address alone is never resolved. *)
Theorem resolvers_single b now nodes s :
  NoDup nodes.*1 → (∀ p, p ∈ nodes → dc_kind p.2 = CK_InterNode p.1) →
  rtc auth_step
    {| sy_state := (set_nodes_credentials b now nodes {| au_nodes := ∅; au_resolvers := [] |}).2; sy_pending := [] |} s →
  resolvers_ok (sy_state s).
Proof.
  intros Hnd Hk Hsteps. pose proof (resolvers_init b now nodes Hnd Hk) as Hok.
  change (resolvers_ok (sy_state {| sy_state := (set_nodes_credentials b now nodes
    {| au_nodes := ∅; au_resolvers := [] |}).2; sy_pending := [] |})) in Hok.
  revert Hok. induction Hsteps as [|s1 s2 s3 Hstep _ IH]; [done|]. intros Hok. by apply IH, (auth_step_ok s1).
Qed.

(** The header of the client of another node, [bob_client.rs]. *)
Definition internode_header (base64_encode : list byte → string) (local_node_name : string) : string :=
  "InterNode " +:+ base64_encode (bytes_of_string local_node_name).

Lemma string_of_bytes_of s : string_of_bytes (bytes_of_string s) = s.
Proof.
  induction s as [|c s IH]; [done|]. rw /bytes_of_string /=. rw /bytes_of_string in IH. rw IH. f_equal.
  pose proof (N_ascii_bounded c) as Hb. destruct (Byte.of_N (N_of_ascii c)) as [b|] eqn:Ho.
  - apply Byte.to_of_N in Ho. by rw /= Ho ascii_N_embedding.
  - apply Byte.of_N_None_iff in Ho. lia.
Qed.

(** The header a node sends with its requests is read back as the name of the node, with
    the address of the connection, by the node that receives it. *)
Theorem internode_header_roundtrip `{AccessCrates} err base64_encode req name :
  (∀ l, base64_decode (base64_encode l) = Ok l) →
  plain (base64_encode (bytes_of_string name)) = true → base64_encode (bytes_of_string name) ≠ EmptyString →
  unicase_eq "InterNode" "InterNode" = true → unicase_eq "InterNode" "Basic" = false →
  utf8_valid (bytes_of_string name) = true →
  ar_header req "authorization" = Some (Ok (internode_header base64_encode name)) →
  CredentialsHolder_from err AuthBasic req =
    {| rc_address := ar_remote_addr req; rc_kind := Some (CK_InterNode name) |}.
Proof.
  intros Hdec Hplain Hne Hin Hba Hutf Hh.
  rw /CredentialsHolder_from /extract /extract_basic /get_header Hh. cbn [result_map result_map_err result_bind].
  change (internode_header base64_encode name) with ("InterNode" +:+ " " +:+ base64_encode (bytes_of_string name)).
  rw split_whitespace_word // split_whitespace_one // Hba Hin.
  by rw /= /nodename_from_credentials /decode_credentials Hdec /= /from_utf8 Hutf /= string_of_bytes_of.
Qed.

(** ** Witnesses *)

Definition crates_example : AccessCrates := {|
  base64_decode s := Ok (bytes_of_string s);
  from_hex s := Some (bytes_of_string s);
  sha512 l := rev l;
  unicase_eq a b := bool_decide (a = b);
|}.

Definition reader_example : ConfigUser := {|
  cu_username := "Reader"; cu_password := Some "pass"; cu_password_hash := None; cu_role := Some "reader";
  cu_claims := Some {| cp_read := None; cp_write := Some true; cp_read_rest := None; cp_write_rest := None |} |}.
Definition roles_example : gmap string Perms :=
  {[ "reader" := {| p_read := true; p_write := false; p_read_rest := true; p_write_rest := false |} ]}.
Definition users_result : option (result (gmap string User) AccessError) :=
  @parse_users crates_example (λ _, "") [reader_example] roles_example.

Lemma parse_users_spec_witness :
  ∃ users, users_result = Some (Ok users) ∧ NoDup (cu_username <$> [reader_example]) ∧
    (∀ name, name ∉ cu_username <$> [reader_example] → users !! name = None) ∧
    ∀ u, u ∈ [reader_example] → ∃ user, users !! cu_username u = Some user ∧
      @user_matches crates_example roles_example u user.
Proof.
  destruct users_result as [[users|e]|] eqn:Hr; [|vm_compute in Hr; discriminate..].
  exists users. split; [done|]. by apply (@parse_users_spec crates_example (λ _, "") [reader_example] roles_example users).
Defined.

(** The file gives the reader the right to write by a claim, over its role. *)
Example reader_permissions :
  match users_result with
  | Some (Ok users) => match users !! "Reader" with Some u => Some (Permissions_from_User u) | None => None end
  | _ => None
  end = Some 7.
Proof. by vm_compute. Qed.

Definition addr_a : SocketAddr := {| sa_ip := "10.0.0.1"; sa_port := 20000 |}.
Definition declared_example : list (string * DeclaredCredentials) :=
  [("a", {| dc_address := [addr_a]; dc_hostname := None; dc_kind := CK_InterNode "a" |});
   ("b", {| dc_address := []; dc_hostname := Some "b.example"; dc_kind := CK_InterNode "b" |})].
Definition basic_example : Basic :=
  {| bs_users_storage := {| um_inner := ∅; um_password_salt := "bob" |}; bs_resolve_sleep_period_ms := 100 |}.
Definition auth_example : AuthState :=
  (set_nodes_credentials basic_example 0 declared_example {| au_nodes := ∅; au_resolvers := [] |}).2.
Definition node_a_request : RequestCredentials :=
  {| rc_address := Some {| sa_ip := "10.0.0.1"; sa_port := 54321 |}; rc_kind := Some (CK_InterNode "a") |}.

Lemma auth_example_named name g :
  au_nodes auth_example !! name = Some g → dc_kind (gd_credentials g) = CK_InterNode name.
Proof.
  apply ro_named, resolvers_init; [by apply (bool_decide_unpack _); vm_compute|].
  intros p Hp. repeat (apply elem_of_cons in Hp as [->|Hp]; [done|]). by apply elem_of_nil in Hp.
Qed.

Lemma grpc_authentication_witness :
  ((Ok perm_all : result Permissions AccessError) = Ok perm_all ↔
     (∃ name addr g a, rc_kind node_a_request = Some (CK_InterNode name) ∧ rc_address node_a_request = Some addr ∧
        au_nodes auth_example !! name = Some g ∧ a ∈ dc_address (gd_credentials g) ∧ sa_ip a = sa_ip addr ∧
        perm_all = perm_all) ∨
     @check_credentials_rest crates_example basic_example node_a_request = Ok perm_all).
Proof.
  destruct (@check_credentials_grpc crates_example basic_example 0 node_a_request auth_example) as [[r st']|] eqn:Hr;
    [|vm_compute in Hr; discriminate].
  assert (r = Ok perm_all) as -> by (vm_compute in Hr; by injection Hr).
  exact (proj1 (@grpc_authentication crates_example basic_example 0 node_a_request auth_example _ st' perm_all
    auth_example_named Hr)).
Defined.

Definition cred_b : DeclaredCredentials :=
  {| dc_address := []; dc_hostname := Some "b.example"; dc_kind := CK_InterNode "b" |}.
(** The name of [b] is resolved, and a request from a wrong address claims to be [b]. *)
Definition resolved_example : AuthState :=
  {| au_nodes := resolve_finish 50 cred_b [{| sa_ip := "10.0.0.2"; sa_port := 0 |}] (au_nodes auth_example);
     au_resolvers := [] |}.

Lemma resolvers_single_witness : resolvers_ok (process_auth_result 200 "b" false resolved_example).
Proof.
  apply (resolvers_single basic_example 0 declared_example
    {| sy_state := process_auth_result 200 "b" false resolved_example; sy_pending := [] |}).
  - by apply (bool_decide_unpack _); vm_compute.
  - intros p Hp. repeat (apply elem_of_cons in Hp as [->|Hp]; [done|]). by apply elem_of_nil in Hp.
  - apply (rtc_l _ _ {| sy_state := resolved_example; sy_pending := [] |}).
    { by apply (AuthResolved (au_nodes auth_example) [] cred_b [] [] 50 [{| sa_ip := "10.0.0.2"; sa_port := 0 |}]). }
    apply (rtc_l _ _ {| sy_state := resolved_example; sy_pending := [("b", false)] |}).
    { apply (AuthRead resolved_example [] 200 "b" (Some addr_a) false). by vm_compute. }
    apply rtc_once. apply (AuthWrite resolved_example [] "b" false [] 200).
Defined.

Definition encode_example (l : list byte) : string := string_of_bytes l.
Definition request_example : AccessRequest := {|
  ar_header h := if bool_decide (h = "authorization") then Some (Ok (internode_header encode_example "node-1")) else None;
  ar_remote_addr := Some addr_a |}.

Lemma bytes_of_string_of l : bytes_of_string (string_of_bytes l) = l.
Proof.
  induction l as [|b l IH]; [done|].
  change (bytes_of_string (string_of_bytes (b :: l))) with
    (default x00 (Byte.of_N (N_of_ascii (ascii_of_N (Byte.to_N b)))) :: bytes_of_string (string_of_bytes l)).
  rw IH. f_equal. pose proof (Byte.to_N_bounded b). rw N_ascii_embedding; [lia|]. by rw Byte.of_to_N.
Qed.

Lemma internode_header_roundtrip_witness :
  @CredentialsHolder_from crates_example (λ _, "") AuthBasic request_example =
    {| rc_address := Some addr_a; rc_kind := Some (CK_InterNode "node-1") |}.
Proof.
  apply (@internode_header_roundtrip crates_example (λ _, "") encode_example request_example "node-1");
    [intros l; simpl; f_equal; apply bytes_of_string_of|by vm_compute..].
Defined.

(** A password with a colon is cut at the colon. *)
Example password_with_colon :
  @username_password_from_credentials crates_example (λ _, "") "user:pa:ss" = Ok ("user", "pa").
Proof. by vm_compute. Qed.
