(* ===== verification/Server.v ===== *)
(** * Server: the gRPC service of a node

    [bob/src/server.rs] (the handlers), [bob/src/grinder.rs] (the choice between the local
    storage and the cluster) and [bob/src/cluster/mod.rs] (the trait [Cluster] and its two
    implementations).  The authenticator is a class, as it is a type parameter of the
    server; metrics and logging are not modelled. *)

From Corelib Require Import ssreflect.
From stdpp Require Import base option list strings gmap sets numbers.
From Stdlib Require Import Strings.Byte ZArith Lia.
From S2P Require Import Prelude Data Text Errors Options Node ClusterConfig NodeConfig Mapper Backend Network Operations Quorum SimpleQuorum Access.

(** ** The trait [Cluster]

    A put may leave a task to the runtime: it comes back with the result. *)
Class ClusterOps (W : Type) := {
  cluster_put : BobKey → BobData → M W (result unit Error * option (M W unit));
  cluster_get : BobKey → M W (result BobData Error);
  cluster_exist : list BobKey → M W (result (list bool) Error);
  cluster_delete : BobKey → BobMeta → M W (result unit Error);
}.

Section clusters.
Context {key_size : KeySize} {W : Type} `{BackendStorage W, Network W, SupportState W, !HashOrder}.

Definition QuorumOps (mapper : Virtual) (quorum : nat) : ClusterOps W := {|
  cluster_put key data :=
    res ← Quorum_put mapper quorum key data;
    mret (res.1, match res.2 with
                 | Some bg => Some (counts ← expect (get_replicas_count_by_node mapper key);
                                    background_put mapper bg key data counts)
                 | None => None
                 end);
  cluster_get := Quorum_get mapper;
  cluster_exist := Quorum_exist mapper;
  cluster_delete := Quorum_delete mapper;
|}.

Definition SimpleOps (mapper : Virtual) (quorum : nat) (show : list (Output Error) → string) : ClusterOps W := {|
  cluster_put key data := r ← Simple_put mapper quorum show key data; mret (r, None);
  cluster_get := Simple_get mapper;
  cluster_exist := Simple_exist mapper;
  cluster_delete := Simple_delete mapper quorum show;
|}.

(** [None]: a policy it does not know. *)
Definition get_cluster (mapper : Virtual) (show : list (Output Error) → string) (policy : string) (quorum : nat)
    : option (ClusterOps W) :=
  if bool_decide (policy = "simple") then Some (SimpleOps mapper quorum show)
  else if bool_decide (policy = "quorum") then Some (QuorumOps mapper quorum)
  else None.
End clusters.

(** The authenticator, and the two parts of a node the handlers notify. *)
Class Authenticator (W : Type) := {
  credentials_type : AuthenticationType;
  check_grpc : RequestCredentials → M W (result Permissions AccessError);
}.
Class Notified (W : Type) := {
  request_index_cleanup : M W unit;
  update_node_connection : string → M W unit;
}.

Section server.
Context {key_size : KeySize} {W : Type} `{BackendStorage W, ClusterOps W, Notified W, !HashOrder}.
Context (mapper : Virtual).

(** ** [Grinder] *)

Definition Grinder_put (key : BobKey) (data : BobData) (opts : BobPutOptions)
    : M W (result unit Error * option (M W unit)) :=
  if bpo_force_node opts then result ← Backend_put mapper key data opts; mret (result, None)
  else cluster_put key data.

Definition Grinder_get (key : BobKey) (opts : BobGetOptions) : M W (result BobData Error) :=
  if bgo_force_node opts then Backend_get mapper key opts else cluster_get key.

Definition Grinder_exist (keys : list BobKey) (opts : BobGetOptions) : M W (result (list bool) Error) :=
  if bgo_force_node opts then Backend_exist mapper keys opts else cluster_exist keys.

Definition Grinder_delete (key : BobKey) (meta : BobMeta) (options : BobDeleteOptions) : M W (result unit Error) :=
  result ← (if bdo_force_node options then Backend_delete mapper key meta options else cluster_delete key meta);
  _ ← request_index_cleanup;
  mret result.

(** ** The fields of a request

    The inner [None] is a missing field; the outer one is the abort on a key of the wrong
    length, which is converted last. *)

Definition put_extract (req : PutRequest) : option (option (BobKey * list byte * Z * option PutOptions)) :=
  match prq_key req, prq_data req with
  | Some key, Some blob =>
      match blob_meta blob with
      | Some timestamp => key ← BobKey_from_vec key; Some (Some (key, blob_data blob, timestamp, prq_options req))
      | None => Some None
      end
  | _, _ => Some None
  end.

Definition get_extract (req : GetRequest) : option (option (BobKey * option GetOptions)) :=
  match grq_key req with
  | Some key => key ← BobKey_from_vec key; Some (Some (key, grq_options req))
  | None => Some None
  end.

Definition delete_extract (req : DeleteRequest) : option (option (BobKey * Z * option DeleteOptions)) :=
  match drq_key req with
  | Some key =>
      match drq_meta req with
      | Some timestamp => key ← BobKey_from_vec key; Some (Some (key, timestamp, drq_options req))
      | None => Some None
      end
  | None => Some None
  end.

(** ** The handlers *)

Section handlers.
Context `{Authenticator W, AccessCrates} (utf8_error : list byte → string).

Definition permission_denied (message : string) : Status := {| code := CodePermissionDenied; message := message |}.
Definition invalid_argument (message : string) : Status := {| code := CodeInvalidArgument; message := message |}.

(** The check at the head of a handler. *)
Definition authorized (allowed : Permissions → bool) (denied : string) (metadata : AccessRequest)
    : M W (result unit Status) :=
  let creds := CredentialsHolder_from utf8_error credentials_type metadata in
  perms ← check_grpc creds;
  mret (match perms with
        | Err e => Err (Status_from_AccessError e)
        | Ok p => if allowed p then Ok tt else Err (permission_denied denied)
        end).

Definition Server_put (metadata : AccessRequest) (req : PutRequest) : M W (result unit Status * option (M W unit)) :=
  auth ← authorized has_write "WRITE permission required" metadata;
  match auth with
  | Err status => mret (Err status, None)
  | Ok _ =>
      params ← expect (put_extract req);
      match params with
      | Some (key, inner, timestamp, options) =>
          let data := {| inner := inner; meta := {| timestamp := timestamp |} |} in
          put_result ← Grinder_put key data (BobPutOptions_from_grpc options);
          mret (result_map_err Status_from_Error put_result.1, put_result.2)
      | None => mret (Err (invalid_argument "Key, data and timestamp in data.meta is mandatory"), None)
      end
  end.

Definition Server_get (metadata : AccessRequest) (req : GetRequest) : M W (result Blob Status) :=
  auth ← authorized has_read "READ permission required" metadata;
  match auth with
  | Err status => mret (Err status)
  | Ok _ =>
      params ← expect (get_extract req);
      match params with
      | Some (key, options) =>
          options ← expect (BobGetOptions_from_grpc options);
          get_res ← Grinder_get key options;
          mret (match get_res with
                | Ok data => Ok {| blob_data := inner data; blob_meta := Some (timestamp (meta data)) |}
                | Err e => Err (Status_from_Error e)
                end)
      | None => mret (Err (invalid_argument "Key is mandatory"))
      end
  end.

(** [None]: no [node_name] in the metadata, or not a string. *)
Definition Server_ping (node_name : option string) : M W (result unit Status) :=
  _ ← match node_name with Some name => update_node_connection name | None => mret tt end;
  mret (Ok tt).

Definition Server_exist (metadata : AccessRequest) (req : ExistRequest) : M W (result (list bool) Status) :=
  auth ← authorized has_read "READ permission required" metadata;
  match auth with
  | Err status => mret (Err status)
  | Ok _ =>
      keys ← expect (mapM BobKey_from_vec (erq_keys req));
      options ← expect (BobGetOptions_from_grpc (erq_options req));
      exist ← Grinder_exist keys options;
      mret (result_map_err Status_from_Error exist)
  end.

Definition Server_delete (metadata : AccessRequest) (req : DeleteRequest) : M W (result unit Status) :=
  auth ← authorized has_write "WRITE permission required" metadata;
  match auth with
  | Err status => mret (Err status)
  | Ok _ =>
      params ← expect (delete_extract req);
      match params with
      | Some (key, timestamp, options) =>
          delete_result ← Grinder_delete key {| timestamp := timestamp |} (BobDeleteOptions_from_grpc options);
          mret (result_map_err Status_from_Error delete_result)
      | None => mret (Err (invalid_argument "Key and meta are mandatory"))
      end
  end.
End handlers.
End server.

(** ** Lemmas *)

(** The messages a client sends, as [bob_client.rs] builds them. *)
Definition put_message (key : BobKey) (d : BobData) (options : PutOptions) : PutRequest :=
  {| prq_key := Some (BobKey_into_vec key);
     prq_data := Some {| blob_meta := Some (timestamp (meta d)); blob_data := inner d |};
     prq_options := Some options |}.
Definition get_message (key : BobKey) (options : GetOptions) : GetRequest :=
  {| grq_key := Some (BobKey_into_vec key); grq_options := Some options |}.
Definition exist_message (keys : list BobKey) (options : GetOptions) : ExistRequest :=
  {| erq_keys := BobKey_into_vec <$> keys; erq_options := Some options |}.
Definition delete_message (key : BobKey) (m : BobMeta) (options : DeleteOptions) : DeleteRequest :=
  {| drq_key := Some (BobKey_into_vec key); drq_meta := Some (timestamp m); drq_options := Some options |}.

Section server_lemmas.
Context {key_size : KeySize} {W : Type} `{BackendStorage W, ClusterOps W, Notified W, !HashOrder, Authenticator W, AccessCrates}.
Context (mapper : Virtual) (err : list byte → string) (metadata : AccessRequest).

Lemma from_vec_wf k : key_wf k → BobKey_from_vec (BobKey_into_vec k) = Some k.
Proof using Type. intros Hk. by rw /BobKey_from_vec decide_True. Qed.

Lemma put_extract_message k d o :
  key_wf k → put_extract (put_message k d o) = Some (Some (k, inner d, timestamp (meta d), Some o)).
Proof using Type. intros Hk. by rw /put_extract /put_message /= from_vec_wf. Qed.

Lemma from_vec_all ks : Forall key_wf ks → mapM BobKey_from_vec (BobKey_into_vec <$> ks) = Some ks.
Proof using Type.
  induction 1 as [|k ks Hk _ IH]; [done|]. rw fmap_cons. simpl. rw from_vec_wf //=.
  change (list_fmap BobKey (list byte) BobKey_into_vec ks) with (BobKey_into_vec <$> ks). by rw IH.
Qed.

Lemma authorized_run allowed denied w w1 p :
  check_grpc (CredentialsHolder_from err credentials_type metadata) w = Some (Ok p, w1) → allowed p = true →
  authorized err allowed denied metadata w = Some (Ok tt, w1).
Proof using Type. intros Hc Hp. rw /authorized (bind_run _ _ _ _ _ Hc). by rw Hp. Qed.

Lemma unauthorized_run allowed denied w w1 r :
  check_grpc (CredentialsHolder_from err credentials_type metadata) w = Some (r, w1) →
  (∀ p, r = Ok p → allowed p = false) →
  ∃ s, authorized err allowed denied metadata w = Some (Err s, w1) ∧
    s = match r with Err e => Status_from_AccessError e | Ok _ => permission_denied denied end.
Proof using Type.
  intros Hc Hp. rw /authorized (bind_run _ _ _ _ _ Hc). destruct r as [p|e]; [rw (Hp p eq_refl)|]; by eexists.
Qed.
End server_lemmas.

Section extract_options.
Context {key_size : KeySize}.

Lemma put_extract_options req key inner ts o :
  put_extract req = Some (Some (key, inner, ts, o)) → o = prq_options req.
Proof.
  rw /put_extract. destruct (prq_key req) as [k|]; [|done]. destruct (prq_data req) as [b|]; [|done].
  destruct (blob_meta b); [|done]. destruct (BobKey_from_vec k); simpl; [|done]. by intros [= _ _ _ <-].
Qed.

Lemma get_extract_options req key o : get_extract req = Some (Some (key, o)) → o = grq_options req.
Proof.
  rw /get_extract. destruct (grq_key req) as [k|]; [|done]. destruct (BobKey_from_vec k); simpl; [|done].
  by intros [= _ <-].
Qed.

Lemma delete_extract_options req key ts o : delete_extract req = Some (Some (key, ts, o)) → o = drq_options req.
Proof.
  rw /delete_extract. destruct (drq_key req) as [k|]; [|done]. destruct (drq_meta req); [|done].
  destruct (BobKey_from_vec k); simpl; [|done]. by intros [= _ _ <-].
Qed.
End extract_options.

(** The handler of an authorized request is the grinder on what was sent. *)
Section authorized_runs.
Context {key_size : KeySize} {W : Type} `{BackendStorage W, ClusterOps W, Notified W, !HashOrder, Authenticator W, AccessCrates}.
Context (mapper : Virtual) (err : list byte → string) (metadata : AccessRequest) (w w1 : W) (p : Permissions).
Context (Hc : check_grpc (CredentialsHolder_from err credentials_type metadata) w = Some (Ok p, w1)).
#[local] Set Default Proof Using "Type*".

Lemma Server_put_message k d o :
  has_write p = true → key_wf k →
  Server_put mapper err metadata (put_message k d (BobPutOptions_to_grpc o)) w =
  (r ← Grinder_put mapper k d o; mret (result_map_err Status_from_Error r.1, r.2)) w1.
Proof.
  intros Hw Hk.
  rw /Server_put (bind_run _ _ _ _ _ (authorized_run err metadata has_write "WRITE permission required" w w1 p Hc Hw)).
  rw (bind_run _ _ w1 (Some (k, inner d, timestamp (meta d), Some (BobPutOptions_to_grpc o))) w1);
    [by rw /expect put_extract_message|].
  rw BobPutOptions_wire. by destruct d as [i []].
Qed.

Lemma Server_get_message k o :
  has_read p = true → key_wf k →
  Server_get mapper err metadata (get_message k (BobGetOptions_to_grpc o)) w =
  (r ← Grinder_get mapper k o; mret (match r with
     | Ok d => Ok {| blob_data := inner d; blob_meta := Some (timestamp (meta d)) |}
     | Err e => Err (Status_from_Error e) end)) w1.
Proof.
  intros Hr Hk.
  rw /Server_get (bind_run _ _ _ _ _ (authorized_run err metadata has_read "READ permission required" w w1 p Hc Hr)).
  rw (bind_run _ _ w1 (Some (k, Some (BobGetOptions_to_grpc o))) w1);
    [by rw /expect /get_extract /get_message /= from_vec_wf|].
  rw (bind_run _ _ w1 o w1); [by rw /expect BobGetOptions_wire|done].
Qed.

Lemma Server_exist_message ks o :
  has_read p = true → Forall key_wf ks →
  Server_exist mapper err metadata (exist_message ks (BobGetOptions_to_grpc o)) w =
  (r ← Grinder_exist mapper ks o; mret (result_map_err Status_from_Error r)) w1.
Proof.
  intros Hr Hks.
  rw /Server_exist (bind_run _ _ _ _ _ (authorized_run err metadata has_read "READ permission required" w w1 p Hc Hr)).
  rw (bind_run _ _ w1 ks w1); [by rw /expect /exist_message /= from_vec_all|].
  rw (bind_run _ _ w1 o w1); [by rw /expect BobGetOptions_wire|done].
Qed.

Lemma Server_delete_message k m o :
  has_write p = true → key_wf k →
  Server_delete mapper err metadata (delete_message k m (BobDeleteOptions_to_grpc o)) w =
  (r ← Grinder_delete mapper k m o; mret (result_map_err Status_from_Error r)) w1.
Proof.
  intros Hw Hk.
  rw /Server_delete (bind_run _ _ _ _ _ (authorized_run err metadata has_write "WRITE permission required" w w1 p Hc Hw)).
  rw (bind_run _ _ w1 (Some (k, timestamp m, Some (BobDeleteOptions_to_grpc o))) w1);
    [by rw /expect /delete_extract /delete_message /= from_vec_wf|].
  rw BobDeleteOptions_wire. by destruct m.
Qed.
End authorized_runs.

(** ** Theorems *)

Section server_theorems.
Context {key_size : KeySize} {W : Type} `{BackendStorage W, !Notified W, !HashOrder, !Authenticator W, AccessCrates}.
Context (mapper : Virtual) (err : list byte → string) (metadata : AccessRequest).

(** A request with [force_node] is served by the node itself, whatever cluster the node
    is part of: the four handlers do not call it.  Every request the cluster policies
    send has [force_node], so a request is forwarded at most once. *)
Theorem force_node_stays_local (c1 c2 : ClusterOps W) w :
  (∀ req o, prq_options req = Some o → po_force_node o = true →
     @Server_put key_size W _ c1 mapper _ _ err metadata req w = @Server_put key_size W _ c2 mapper _ _ err metadata req w) ∧
  (∀ req o, grq_options req = Some o → go_force_node o = true →
     @Server_get key_size W _ c1 mapper _ _ err metadata req w = @Server_get key_size W _ c2 mapper _ _ err metadata req w) ∧
  (∀ req o, erq_options req = Some o → go_force_node o = true →
     @Server_exist key_size W _ c1 _ mapper _ _ err metadata req w =
     @Server_exist key_size W _ c2 _ mapper _ _ err metadata req w) ∧
  (∀ req o, drq_options req = Some o → do_force_node o = true →
     @Server_delete key_size W _ c1 _ mapper _ _ err metadata req w =
     @Server_delete key_size W _ c2 _ mapper _ _ err metadata req w) ∧
  (∀ names, po_force_node (BobPutOptions_to_grpc BobPutOptions_new_local) = true ∧
     po_force_node (BobPutOptions_to_grpc (BobPutOptions_new_alien names)) = true ∧
     go_force_node GetOptions_new_local = true ∧ go_force_node GetOptions_new_alien = true ∧
     go_force_node GetOptions_new_all = true ∧
     do_force_node (BobDeleteOptions_to_grpc BobDeleteOptions_new_local) = true ∧
     do_force_node (BobDeleteOptions_to_grpc (BobDeleteOptions_new_alien names)) = true).
Proof.
  split; [|split; [|split; [|split]]]; [..|by intros names]; intros req o Ho Hf; apply bind_ext;
    intros [[]|s] w1 _; try done; apply bind_ext.
  - intros [[[[key inner] ts] o']|] w2 [Hx _]%expect_inv; [|done]. apply put_extract_options in Hx as ->.
    by rw Ho /Grinder_put /= Hf.
  - intros [[key o']|] w2 [Hx _]%expect_inv; [|done]. apply get_extract_options in Hx as ->.
    apply bind_ext. intros options w3 [Hopt _]%expect_inv. rw Ho /BobGetOptions_from_grpc in Hopt.
    destruct (GetSource_from (go_source o)); simplify_eq/=. by rw /Grinder_get /= Hf.
  - intros keys w2 _. apply bind_ext. intros options w3 [Hopt _]%expect_inv. rw Ho /BobGetOptions_from_grpc in Hopt.
    destruct (GetSource_from (go_source o)); simplify_eq/=. by rw /Grinder_exist /= Hf.
  - intros [[[key ts] o']|] w2 [Hx _]%expect_inv; [|done]. apply delete_extract_options in Hx as ->.
    by rw Ho /Grinder_delete /= Hf.
Qed.

Context `{!ClusterOps W}.

(** C29: A request without the permission it needs has no effect: the handler answers with
    the status of the authenticator's error, or with [PermissionDenied] naming the missing
    permission when the sender is known, and the world is as the check left it. *)
Theorem unauthorized_no_effect w w1 perms :
  check_grpc (CredentialsHolder_from err credentials_type metadata) w = Some (perms, w1) →
  ((∀ p, perms = Ok p → has_write p = false) →
     ∃ s, s = match perms with Err e => Status_from_AccessError e | Ok _ => permission_denied "WRITE permission required" end ∧
     code s ∈ [CodeUnauthenticated; CodePermissionDenied; CodeInvalidArgument; CodeInternal; CodeUnknown] ∧
     (∀ req, Server_put mapper err metadata req w = Some ((Err s, None), w1)) ∧
     (∀ req, Server_delete mapper err metadata req w = Some (Err s, w1))) ∧
  ((∀ p, perms = Ok p → has_read p = false) →
     ∃ s, s = match perms with Err e => Status_from_AccessError e | Ok _ => permission_denied "READ permission required" end ∧
     code s ∈ [CodeUnauthenticated; CodePermissionDenied; CodeInvalidArgument; CodeInternal; CodeUnknown] ∧
     (∀ req, Server_get mapper err metadata req w = Some (Err s, w1)) ∧
     (∀ req, Server_exist mapper err metadata req w = Some (Err s, w1))).
Proof.
  intros Hc.
  assert (∀ denied s, s = match perms with Err e => Status_from_AccessError e | Ok _ => permission_denied denied end →
    code s ∈ [CodeUnauthenticated; CodePermissionDenied; CodeInvalidArgument; CodeInternal; CodeUnknown]) as Hcode.
  { intros denied s ->. apply list_elem_of_In. destruct perms as [p|[]]; vm_compute; tauto. }
  split; intros Hp.
  - destruct (unauthorized_run err metadata has_write "WRITE permission required" w w1 perms Hc Hp) as (s & Ha & Hs).
    exists s. split; [exact Hs|]. split; [by eapply Hcode|]. split; intros req;
      [rw /Server_put|rw /Server_delete]; by rw (bind_run _ _ _ _ _ Ha).
  - destruct (unauthorized_run err metadata has_read "READ permission required" w w1 perms Hc Hp) as (s & Ha & Hs).
    exists s. split; [exact Hs|]. split; [by eapply Hcode|]. split; intros req;
      [rw /Server_get|rw /Server_exist]; by rw (bind_run _ _ _ _ _ Ha).
Qed.

(** C30: What a node sends is what the other node serves: the message a client builds for a
    put, get, exist or delete reaches the grinder of the authorized node with the same
    key, data, meta and options, and the answer keeps the data. *)
Theorem client_server_agree w w1 p :
  check_grpc (CredentialsHolder_from err credentials_type metadata) w = Some (Ok p, w1) →
  has_write p = true → has_read p = true →
  (∀ k d o, key_wf k → Server_put mapper err metadata (put_message k d (BobPutOptions_to_grpc o)) w =
     (r ← Grinder_put mapper k d o; mret (result_map_err Status_from_Error r.1, r.2)) w1) ∧
  (∀ k o, key_wf k → Server_get mapper err metadata (get_message k (BobGetOptions_to_grpc o)) w =
     (r ← Grinder_get mapper k o; mret (match r with
        | Ok d => Ok {| blob_data := inner d; blob_meta := Some (timestamp (meta d)) |}
        | Err e => Err (Status_from_Error e) end)) w1) ∧
  (∀ ks o, Forall key_wf ks → Server_exist mapper err metadata (exist_message ks (BobGetOptions_to_grpc o)) w =
     (r ← Grinder_exist mapper ks o; mret (result_map_err Status_from_Error r)) w1) ∧
  (∀ k m o, key_wf k → Server_delete mapper err metadata (delete_message k m (BobDeleteOptions_to_grpc o)) w =
     (r ← Grinder_delete mapper k m o; mret (result_map_err Status_from_Error r)) w1).
Proof.
  intros Hc Hw Hr. split; [|split; [|split]]; intros; [by eapply Server_put_message|by eapply Server_get_message|
    by eapply Server_exist_message|by eapply Server_delete_message].
Qed.

(** A well-formed request with a key of the wrong length aborts the process of the node
    that receives it. *)
Theorem wrong_key_length_aborts w w1 p key blob ts options :
  check_grpc (CredentialsHolder_from err credentials_type metadata) w = Some (Ok p, w1) →
  has_write p = true → blob_meta blob = Some ts → ¬ key_wf key →
  Server_put mapper err metadata {| prq_key := Some key; prq_data := Some blob; prq_options := options |} w = None.
Proof.
  intros Hc Hw Hts Hk.
  rw /Server_put (bind_run _ _ _ _ _ (authorized_run err metadata _ "WRITE permission required" w w1 p Hc Hw)).
  rw /mbind /M_bind /expect /put_extract /= Hts /BobKey_from_vec decide_False //.
Qed.
End server_theorems.
