(* ===== verification/ClusterWorld.v ===== *)
(** * ClusterWorld: a cluster of in-memory nodes

    An implementation of the contract of [ClusterLaws]: every node keeps a [MemBackend],
    a request to a node runs the handlers of [Server] on the node's store, and a list of
    numbers drives the scheduler.  A node that is down, or whose handler aborts, answers
    [Unavailable].  The theorems on the cluster policies are used here on this world. *)

From Corelib Require Import ssreflect.
From stdpp Require Import base option list strings gmap sets numbers.
From Stdlib Require Import Strings.Byte ZArith Lia.
From S2P Require Import Prelude Data Text Errors Options Node ClusterConfig NodeConfig Mapper Backend MemBackend Network Operations Quorum ClusterLaws QuorumPut QuorumGet QuorumDelete QuorumExist SimpleQuorum Access Server.

#[local] Set Default Proof Using "Type*".

(** ** Storages that never abort

    If every call of the storage returns, moves the world along [R] and fails only with
    errors that survive the wire, so do the operations of the backend. *)

Section calm.
Context {key_size : KeySize}.

Definition result_wf {A} (r : result A Error) : Prop :=
  match r with Err e => kind_wf (ctx e) | Ok _ => True end.

Context {W : Type} `{BackendStorage W} (mapper : Virtual) (Hok : mapper_ok mapper).
Context (R : relation W) `{!PreOrder R}.

Definition calm {A} (m : M W (result A Error)) : Prop := ∀ w, wp m (λ r w', result_wf r ∧ R w w') w.

Lemma calm_ret {A} (r : result A Error) : result_wf r → calm (mret r).
Proof. intros Hr w. by apply wpx_ret. Qed.

Lemma calm_bind {A B} (m : M W (result A Error)) (f : result A Error → M W (result B Error)) :
  calm m → (∀ r, result_wf r → calm (f r)) → calm (m ≫= f).
Proof.
  intros Hm Hf w. apply wpx_bind. eapply wpx_mono; [apply Hm|]. intros r w1 [Hr H1].
  eapply wpx_mono; [by apply Hf|]. intros r2 w2 [Hr2 H2]. split; [done|]. by etrans.
Qed.

Lemma calm_expect {A B} (o : option A) a (f : A → M W (result B Error)) : o = Some a → calm (f a) → calm (expect o ≫= f).
Proof. intros -> Hf w. apply wpx_bind. eapply wpx_expect; [done|]. apply Hf. Qed.

Lemma calm_for_each {A B} (f : result A Error → B → M W (result A Error)) l :
  (∀ r b, result_wf r → calm (f r b)) → ∀ r, result_wf r → calm (for_each f r l).
Proof.
  intros Hf. induction l as [|b l IH]; intros r Hr; simpl; [by apply calm_ret|].
  apply calm_bind; [by apply Hf|]. apply IH.
Qed.

Section put.
Context (k : BobKey) (d : BobData).
Context (Hput : ∀ op, is_data_alien op = false → calm (st_put op k d)).
Context (Halien : ∀ op, is_Some (op_remote_node_name op) → calm (st_put_alien op k d)).

Lemma put_single_calm op : (is_data_alien op = true → is_Some (op_remote_node_name op)) → calm (put_single mapper k d op).
Proof.
  intros Hr. rw /put_single. destruct (is_data_alien op) eqn:Ha; [by auto|].
  apply calm_bind; [by apply Hput|]. intros [[]|e] He; [by apply calm_ret|].
  destruct (negb (is_duplicate e)); [|by apply calm_ret].
  destruct (is_data_alien_loc op Ha) as [loc Hloc].
  assert (is_Some (disk_name_local op)) as [n Hn].
  { rw /is_data_alien bool_decide_eq_false in Ha. rw /disk_name_local. destruct (op_disk_path op); [simpl; eauto|done]. }
  eapply calm_expect; [done|]. apply calm_bind; [apply Halien; simpl; eauto|].
  intros [u|e2] He2; by apply calm_ret.
Qed.

Lemma Backend_put_calm options : calm (Backend_put mapper k d options).
Proof.
  rw /Backend_put. eapply calm_expect; [by apply get_op|].
  destruct (put_to_alien options).
  - induction (bpo_remote_nodes options) as [|n l IH]; simpl; [by apply calm_ret|].
    apply calm_bind; [apply put_single_calm; simpl; eauto|]. intros [u|e] He; [done|by apply calm_ret].
  - destruct (local_replicas mapper k); [by apply calm_ret|].
    apply calm_for_each; [|done]. intros r path Hr. rw /put_path.
    apply calm_bind; [by apply put_single_calm|]. intros [u|e] He; by apply calm_ret.
Qed.
End put.

Section get.
Context (k : BobKey) (Hkey : key_wf k).
Context (Hget : ∀ op, is_data_alien op = false → calm (st_get op k)) (Halien : ∀ op, calm (st_get_alien op k)).

Lemma get_single_calm op : calm (get_single k op).
Proof.
  rw /get_single. destruct (is_data_alien op) eqn:Ha; [done|].
  assert (is_Some (disk_name_local op)) as [n Hn].
  { rw /is_data_alien bool_decide_eq_false in Ha. rw /disk_name_local. destruct (op_disk_path op); [simpl; eauto|done]. }
  eapply calm_expect; [done|]. by apply Hget.
Qed.

Lemma get_paths_calm id paths err w :
  result_wf (Err (A := BobData) (default internal err)) →
  wp (get_paths k id paths err)
    (λ r w', R w w' ∧ match r with inl _ => True | inr e => result_wf (Err (A := BobData) (default internal e)) end) w.
Proof.
  revert err w. induction paths as [|path paths IH]; intros err w He; simpl; [by apply wpx_ret|].
  apply wpx_bind. eapply wpx_mono; [apply get_single_calm|]. intros [d|e] w1 [Hr HR]; [by apply wpx_ret|].
  eapply wpx_mono; [by apply IH|]. intros r w2 [HR2 Hr2]. split; [by etrans|done].
Qed.

Lemma Backend_get_calm options : calm (Backend_get mapper k options).
Proof.
  rw /Backend_get. eapply calm_expect; [by apply get_op|].
  destruct (get_all options).
  - intros w. apply wpx_bind.
    assert (wp (match (match local_replicas mapper k with [] => None | l => Some (DiskPath_from <$> l) end) with
      | Some ps => get_paths k (key_id mapper k) ps None | None => mret (inr None) end) (λ _ w', R w w') w) as Hp.
    { destruct (local_replicas mapper k); [by apply wpx_ret|].
      eapply wpx_mono; [by apply get_paths_calm|]. by intros ?? [??]. }
    eapply wpx_mono; [exact Hp|]. intros [d|e] w1 HR; [by apply wpx_ret|].
    eapply wpx_mono; [apply get_single_calm|]. intros r w2 [Hr HR2]. split; [done|by etrans].
  - destruct (get_normal options).
    + destruct (local_replicas mapper k); [by apply calm_ret|].
      intros w. apply wpx_bind. eapply wpx_mono; [by apply get_paths_calm|].
      intros [d|[e|]] w1 [HR Hr]; by apply wpx_ret.
    + destruct (get_alien options); [apply get_single_calm|by apply calm_ret].
Qed.
End get.

Section exist.
Context `{!HashOrder} (Hex : ∀ op ks, is_data_alien op = false → calm (st_exist op ks)).
Context (Halien : ∀ op ks, calm (st_exist_alien op ks)).

Lemma Backend_exist_calm ks options : calm (Backend_exist mapper ks options).
Proof.
  rw /Backend_exist.
  assert (∃ groups, group_keys_by_operations mapper ks options = Some groups) as [groups Hg].
  { rw /group_keys_by_operations. generalize 0%nat ([] : groups).
    induction ks as [|k ks IH]; intros ind acc; simpl; [eauto|].
    rw {1}/find_operations get_op //=. }
  eapply calm_expect; [done|]. intros w. apply wpx_bind.
  eapply wpx_mono; [apply (wpx_for_each _ _ _ (λ _ _ w', R w w')); [done|]|].
  - intros pre [op [ks' ids]] rest ex w1 _ HR. apply wpx_bind.
    assert (wp (if is_data_alien op then st_exist_alien op ks' else st_exist op ks') (λ _ w', R w1 w') w1) as Hop.
    { destruct (is_data_alien op) eqn:Ha; (eapply wpx_mono; [by (apply Halien || apply Hex)|]); by intros ?? [??]. }
    eapply wpx_mono; [exact Hop|]. intros r w2 HR2. apply wpx_ret. by etrans.
  - intros ex w1 HR. by apply wpx_ret.
Qed.
End exist.

Section delete.
Context (k : BobKey) (m : BobMeta) (G : Loc → W → Prop).
Context (HG : ∀ loc w w', R w w' → G loc w → G loc w').
Context (Hdel : ∀ op w, is_data_alien op = false →
  wp (st_delete op k m) (λ r w', result_wf r ∧ R w w' ∧ ∀ loc, op_loc op = Some loc → G loc w') w).
Context (Halien : ∀ op f w, is_Some (op_remote_node_name op) →
  wp (st_delete_alien op k m f) (λ r w', result_wf r ∧ R w w' ∧ ∀ loc, alien_loc op = Some loc → G loc w') w).

Lemma delete_paths_calm id paths w :
  wp (for_each (delete_path k m id) (Ok tt) paths)
    (λ r w', result_wf r ∧ R w w' ∧ ∀ p, p ∈ paths → G (LocLocal id (dp_name p)) w') w.
Proof.
  apply (wpx_for_each _ _ _ (λ done r w', result_wf r ∧ R w w' ∧ ∀ p, p ∈ done → G (LocLocal id (dp_name p)) w')).
  - split; [done|]. split; [done|]. by intros p ?%elem_of_nil.
  - intros pre path rest r w1 _ (Hr & HR & Hg). rw /delete_path /delete_single. change (is_data_alien _) with false.
    cbv iota. apply wpx_bind. apply wpx_bind. eapply wpx_expect; [done|].
    eapply wpx_mono; [by apply Hdel|]. intros r2 w2 (Hr2 & HR2 & Hg2). apply wpx_ret.
    split; [by destruct r2|]. split; [by etrans|].
    intros p [Hp| ->%list_elem_of_singleton]%elem_of_app; [by eapply HG, Hg|by apply Hg2].
Qed.

Lemma delete_nodes_calm options id nodes w :
  wp (for_each (delete_node k m options id) [] nodes)
    (λ errors w', Forall (λ e, kind_wf (ctx e)) errors ∧ R w w' ∧
       ∀ n, n ∈ nodes → G (LocAlien id (node_name n)) w') w.
Proof.
  apply (wpx_for_each _ _ _ (λ done errors w', Forall (λ e, kind_wf (ctx e)) errors ∧ R w w' ∧
    ∀ n, n ∈ done → G (LocAlien id (node_name n)) w')).
  - split; [done|]. split; [done|]. by intros p ?%elem_of_nil.
  - intros pre node rest errors w1 _ (Hr & HR & Hg). rw /delete_node /delete_single. change (is_data_alien _) with true.
    cbv iota. apply wpx_bind. eapply wpx_mono; [apply Halien; simpl; eauto|].
    intros r2 w2 (Hr2 & HR2 & Hg2). apply wpx_ret.
    split; [destruct r2; [done|]; apply Forall_app; by repeat constructor|]. split; [by etrans|].
    intros n [Hp| ->%list_elem_of_singleton]%elem_of_app; [by eapply HG, Hg|by apply Hg2].
Qed.

Lemma Backend_delete_calm options w :
  wp (Backend_delete mapper k m options)
    (λ r w', result_wf r ∧ R w w' ∧
       if bdo_is_alien options then ∀ x, x ∈ node_name <$> targets mapper k → G (LocAlien (key_id mapper k) x) w'
       else ∀ rp, rp ∈ local_replicas mapper k → G (replica_loc mapper k rp) w') w.
Proof.
  rw /Backend_delete. apply wpx_bind. eapply wpx_expect; [by apply get_op|].
  destruct (bdo_is_alien options).
  - apply wpx_bind. eapply wpx_expect; [by apply get_targets|]. apply wpx_bind.
    eapply wpx_mono; [apply delete_nodes_calm|]. intros errors w1 (He & HR & Hg). apply wpx_ret.
    split; [|split; [done|]].
    + destruct errors as [|e [|? ?]]; [done| |done]. by apply list.Forall_cons in He as [? _].
    + by intros x (n & -> & Hn)%list_elem_of_fmap; apply Hg.
  - destruct (local_replicas mapper k) as [|rp l] eqn:Hl; [apply wpx_ret; split; [done|]; split; [done|]; by intros ? ?%elem_of_nil|].
    eapply wpx_mono; [apply delete_paths_calm|]. intros r w1 (Hr & HR & Hg). split; [done|]. split; [done|].
    intros rp' Hrp. apply (Hg (DiskPath_from rp')). by apply list_elem_of_fmap_2.
Qed.
End delete.
End calm.

(** ** The in-memory storage never aborts *)

Section mem.
Context {key_size : KeySize}.

(** The virtual disks of the foreign disk stay. *)
Definition mem_dom (b b' : MemBackend) : Prop :=
  ∀ id, is_Some (md_vdisks (mb_foreign_data b) !! id) → is_Some (md_vdisks (mb_foreign_data b') !! id).

Definition mem_reads (b b' : MemBackend) : Prop := mem_unchanged b b' ∧ mem_dom b b'.
Definition mem_puts (k : BobKey) (d : BobData) (b b' : MemBackend) : Prop :=
  (∀ loc k' d', k' ≠ k ∨ d' = d → mem_stored b loc k' d' → mem_stored b' loc k' d') ∧
  (∀ loc k' d', mem_stored b' loc k' d' → mem_stored b loc k' d' ∨ k' = k ∧ d' = d) ∧ mem_dom b b'.
Definition mem_deletes (k : BobKey) (b b' : MemBackend) : Prop :=
  (∀ loc k' d', mem_stored b' loc k' d' → mem_stored b loc k' d') ∧
  (∀ loc k' d', k' ≠ k → mem_stored b loc k' d' → mem_stored b' loc k' d') ∧ mem_dom b b'.

#[global] Instance mem_reads_preorder : PreOrder mem_reads.
Proof.
  split; [by intros b; split; [|by intros id]|]. intros b1 b2 b3 [H1 D1] [H2 D2]. split; [|by intros id ?%D1%D2].
  intros loc k. by rw H2.
Qed.
#[global] Instance mem_puts_preorder k d : PreOrder (mem_puts k d).
Proof.
  split; [intros b; split_and!; [auto|auto|by intros id]|]. intros b1 b2 b3 (H1 & N1 & D1) (H2 & N2 & D2).
  split; [by auto|]. split; [|by intros id ?%D1%D2].
  intros loc k' d' [Hs|?]%N2; [by apply N1|by right].
Qed.
#[global] Instance mem_deletes_preorder k : PreOrder (mem_deletes k).
Proof.
  split; [intros b; split_and!; [auto|auto|by intros id]|]. intros b1 b2 b3 (H1 & N1 & D1) (H2 & N2 & D2).
  split; [by auto|]. split; [by auto|by intros id ?%D1%D2].
Qed.

Lemma with_vdisk_dom {A} (f : MemVDisk → result A Error * MemVDisk) id d r d' :
  with_vdisk f id d = (r, d') → ∀ id', is_Some (md_vdisks d !! id') → is_Some (md_vdisks d' !! id').
Proof.
  rw /with_vdisk. destruct (md_vdisks d !! id) as [v|]; [|intros [= _ <-]; auto].
  destruct (f v) as [r1 v']. intros [= _ <-] id' Hid. simpl. apply lookup_insert_is_Some'. by right.
Qed.

Lemma on_loc_dom {A} (loc : Loc) (f : MemVDisk → result A Error * MemVDisk) b r b' :
  on_loc loc (with_vdisk f (loc_vdisk loc)) b = (r, b') → mem_dom b b'.
Proof.
  rw /on_loc. destruct (loc_disk b loc) as [d|] eqn:Hd; [|intros [= _ <-]; by intros id].
  destruct (with_vdisk _ _ d) as [r1 d'] eqn:Hf. intros [= _ <-] id Hid.
  destruct loc; simpl in *; [done|]. simplify_eq. by eapply with_vdisk_dom.
Qed.

Lemma on_loc_wf {A} (loc : Loc) (f : MemVDisk → result A Error * MemVDisk) b r b' :
  (∀ v, result_wf (f v).1) → on_loc loc (with_vdisk f (loc_vdisk loc)) b = (r, b') → result_wf r.
Proof.
  intros Hf. rw /on_loc /with_vdisk. destruct (loc_disk b loc) as [d|]; [|by intros [= <- _]].
  destruct (md_vdisks d !! _) as [v|]; [|by intros [= <- _]].
  specialize (Hf v). destruct (f v). by intros [= <- _].
Qed.

(** A handler of the trait as a function on a place. *)
Lemma wp_on_disk {A} op (f : MemDisk → result A Error * MemDisk) b (Q : result A Error → MemBackend → Prop) :
  is_data_alien op = false →
  (∀ loc r b', op_loc op = Some loc → loc_vdisk loc = op_vdisk_id op → on_loc loc f b = (r, b') → Q r b') →
  wp (on_disk op f) Q b.
Proof.
  intros Ha HQ. destruct (is_data_alien_loc op Ha) as [loc Hloc].
  destruct (on_disk_loc op f b loc Ha Hloc) as [Heq Hid]. rw /wpx Heq. destruct (on_loc loc f b) eqn:Hon. eauto.
Qed.

Lemma wp_on_foreign {A} id node (f : MemDisk → result A Error * MemDisk) b (Q : result A Error → MemBackend → Prop) :
  (∀ r b', on_loc (LocAlien id node) f b = (r, b') → Q r b') → wp (on_foreign f) Q b.
Proof. intros HQ. rw /wpx (on_foreign_loc _ b id node). destruct (on_loc _ f b) eqn:Hon. eauto. Qed.

Lemma mem_put_puts loc k d b r b' :
  on_loc loc (MemDisk_put (loc_vdisk loc) k d) b = (r, b') →
  result_wf r ∧ mem_puts k d b b' ∧ (r = Ok tt → mem_stored b' loc k d).
Proof.
  intros Hon. split; [by eapply (on_loc_wf loc (MemVDisk_put k d)); [|exact Hon]|].
  destruct (mem_put_spec _ _ _ _ _ _ Hon) as [Hf Hr]. split.
  - split; [intros loc' k' d' Hk Hs; by eapply mem_put_keeps|].
    split; [|by eapply (on_loc_dom loc (MemVDisk_put k d))].
    intros loc' k' d' Hs. destruct (decide (same_cell loc loc' ∧ k' = k)) as [[Hc ->]|Hn].
    + destruct Hr as [[-> Hl]|[_ Hu]]; [|left; by rw /mem_stored -Hu].
      right. split; [done|]. rw /mem_stored -(mem_lookup_same_cell _ loc) // Hl in Hs. by simplify_eq.
    + left. by rw /mem_stored -Hf.
  - intros ->. by destruct Hr as [[_ ?]|[? _]].
Qed.

Lemma mem_put_calm k d op : is_data_alien op = false → calm (mem_puts k d) (st_put op k d).
Proof.
  intros Ha b. apply wp_on_disk; [done|]. intros loc r b' Hloc Hid Hon. rw -Hid in Hon.
  by destruct (mem_put_puts _ _ _ _ _ _ Hon) as (? & ? & _).
Qed.

Lemma mem_put_alien_calm k d op : calm (mem_puts k d) (st_put_alien op k d).
Proof.
  intros b. apply (wp_on_foreign (op_vdisk_id op) EmptyString). intros r b' Hon.
  by destruct (mem_put_puts (LocAlien (op_vdisk_id op) EmptyString) _ _ _ _ _ Hon) as (? & ? & _).
Qed.

(** The foreign disk accepts a put when it has the virtual disk. *)
Lemma mem_put_alien_ok k d op b :
  is_Some (md_vdisks (mb_foreign_data b) !! op_vdisk_id op) → wp (st_put_alien op k d) (λ r _, r = Ok tt) b.
Proof. intros [v Hv]. by rw /wpx /= /on_foreign /MemDisk_put /with_vdisk Hv. Qed.

Lemma mem_read_reads {A} (f : MemVDisk → result A Error) loc b r b' :
  (∀ v, result_wf (f v)) →
  on_loc loc (with_vdisk (λ v, (f v, v)) (loc_vdisk loc)) b = (r, b') → result_wf r ∧ mem_reads b b'.
Proof.
  intros Hf Hon. split; [by eapply (on_loc_wf loc (λ v, (f v, v))); [|exact Hon]|].
  split; [|by eapply (on_loc_dom loc (λ v, (f v, v)))].
  eapply on_loc_unchanged; [|exact Hon]. intros d r1 d'.
  destruct (with_vdisk_read f (loc_vdisk loc) d) as (d2 & -> & Hs). by intros [= _ <-].
Qed.

Lemma MemVDisk_get_wf k v : key_wf k → result_wf (MemVDisk_get k v).
Proof. intros Hk. rw /MemVDisk_get. by destruct (v !! k). Qed.

Lemma mem_get_reads loc k b r b' :
  on_loc loc (MemDisk_get (loc_vdisk loc) k) b = (r, b') → (key_wf k → result_wf r) ∧ mem_reads b b'.
Proof.
  intros Hon. split; [|split].
  - intros Hk. eapply (on_loc_wf loc (λ v, (MemVDisk_get k v, v))); [|exact Hon]. intros v. by apply MemVDisk_get_wf.
  - destruct (mem_get_spec loc k b) as (b2 & Heq & Hu). rw Heq in Hon. by injection Hon as _ <-.
  - by eapply (on_loc_dom loc (λ v, (MemVDisk_get k v, v))).
Qed.

Lemma mem_get_calm k op b : is_data_alien op = false →
  wp (st_get op k) (λ r b', (key_wf k → result_wf r) ∧ mem_reads b b') b.
Proof.
  intros Ha. apply wp_on_disk; [done|]. intros loc r b' Hloc Hid Hon. rw -Hid in Hon. by eapply mem_get_reads.
Qed.

Lemma mem_get_alien_calm k op b :
  wp (st_get_alien op k) (λ r b', (key_wf k → result_wf r) ∧ mem_reads b b') b.
Proof.
  apply (wp_on_foreign (op_vdisk_id op) EmptyString). intros r b' Hon.
  by eapply (mem_get_reads (LocAlien (op_vdisk_id op) EmptyString)).
Qed.

Lemma mem_exist_calm ks op : is_data_alien op = false → calm mem_reads (st_exist op ks).
Proof.
  intros Ha b. apply wp_on_disk; [done|]. intros loc r b' Hloc Hid Hon. rw -Hid in Hon.
  by eapply (mem_read_reads (MemVDisk_exist ks)); [|exact Hon].
Qed.

Lemma mem_exist_alien_calm ks op : calm mem_reads (st_exist_alien op ks).
Proof.
  intros b. apply (wp_on_foreign (op_vdisk_id op) EmptyString). intros r b' Hon.
  by eapply (mem_read_reads (MemVDisk_exist ks) (LocAlien (op_vdisk_id op) EmptyString)); [|exact Hon].
Qed.

(** A delete always leaves the key gone: it fails only when there is nothing. *)
Definition mem_gone (k : BobKey) (loc : Loc) (b : MemBackend) : Prop := ∀ d, ¬ mem_stored b loc k d.

Lemma mem_delete_deletes loc k b r b' :
  on_loc loc (MemDisk_delete (loc_vdisk loc) k) b = (r, b') →
  (key_wf k → result_wf r) ∧ mem_deletes k b b' ∧ mem_gone k loc b'.
Proof.
  intros Hon. split.
  { intros Hk. eapply (on_loc_wf loc (MemVDisk_delete k)); [|exact Hon]. intros v. rw /MemVDisk_delete. by destruct (v !! k). }
  split.
  { split; [|split; [|by eapply (on_loc_dom loc (MemVDisk_delete k))]]; intros loc' k' d';
      apply (mem_delete_keeps loc k b r b' loc' k' d' Hon). }
  intros d. rw /mem_stored. destruct (on_loc_result _ _ _ _ _ Hon) as [(-> & -> & Hd)|(d1 & d2 & Hd & Hf & Hd')].
  - by rw /mem_lookup Hd.
  - rw /mem_lookup Hd' /= /disk_lookup. rw /MemDisk_delete /with_vdisk /MemVDisk_delete in Hf.
    destruct (md_vdisks d1 !! loc_vdisk loc) as [v|] eqn:Hv; [|injection Hf as <- <-; by rw Hv].
    destruct (v !! k) eqn:Hvk; injection Hf as <- <-; simpl; rw lookup_insert_eq /=;
      [by rw lookup_delete_eq|by rw Hvk].
Qed.

Lemma mem_delete_calm k m op b : is_data_alien op = false →
  wp (st_delete op k m) (λ r b', (key_wf k → result_wf r) ∧ mem_deletes k b b' ∧ ∀ loc, op_loc op = Some loc → mem_gone k loc b') b.
Proof.
  intros Ha. apply wp_on_disk; [done|]. intros loc r b' Hloc Hid Hon. rw -Hid in Hon.
  destruct (mem_delete_deletes _ _ _ _ _ Hon) as (? & ? & ?). split; [done|]. split; [done|].
  intros loc' ?. by simplify_eq.
Qed.

Lemma mem_delete_alien_calm k m op f b :
  wp (st_delete_alien op k m f)
    (λ r b', (key_wf k → result_wf r) ∧ mem_deletes k b b' ∧ ∀ loc, alien_loc op = Some loc → mem_gone k loc b') b.
Proof.
  apply (wp_on_foreign (op_vdisk_id op) EmptyString). intros r b' Hon.
  destruct (mem_delete_deletes (LocAlien (op_vdisk_id op) EmptyString) _ _ _ _ Hon) as (? & ? & Hg).
  split; [done|]. split; [done|]. intros loc Hloc d. rw /alien_loc in Hloc.
  destruct (op_remote_node_name op) as [n|]; [|done]. injection Hloc as <-.
  rw /mem_stored (mem_lookup_same_cell _ _ (LocAlien (op_vdisk_id op) EmptyString)) //. apply Hg.
Qed.
End mem.

(** ** The world *)

Record CW (v : Virtual) : Type := mkCW {
  cw_stores : gmap NodeName MemBackend;
  (** The nodes that do not answer. *)
  cw_down : gset NodeName;
  (** The choices of the scheduler; [0] when there are none left. *)
  cw_sched : list nat;
  cw_offset : Z;
}.
Arguments mkCW {v} _ _ _ _.
Arguments cw_stores {v} _.
Arguments cw_down {v} _.
Arguments cw_sched {v} _.
Arguments cw_offset {v} _.

Definition empty_store : MemBackend :=
  {| mb_disks := ∅; mb_foreign_data := {| md_name := "foreign"; md_vdisks := ∅ |} |}.

Section world.
Context {v : Virtual}.

Definition cw_store (w : CW v) (n : NodeName) : MemBackend := default empty_store (cw_stores w !! n).

Definition set_store (n : NodeName) (b : MemBackend) (w : CW v) : CW v :=
  mkCW (<[n := b]> (cw_stores w)) (cw_down w) (cw_sched w) (cw_offset w).

(** Run an operation of a node on its store. *)
Definition on_store {A} (n : NodeName) (m : M MemBackend A) : M (CW v) A := λ w,
  match m (cw_store w n) with Some (a, b) => Some (a, set_store n b w) | None => None end.

Lemma cw_store_set n b w n' : cw_store (set_store n b w) n' = if decide (n' = n) then b else cw_store w n'.
Proof.
  rw /cw_store /set_store /=. case_decide as Hn; [by rw Hn lookup_insert_eq|by rw lookup_insert_ne].
Qed.

Lemma cw_store_set_eq n b w : cw_store (set_store n b w) n = b.
Proof. by rw cw_store_set decide_True. Qed.

Lemma wpx_on_store {A} P n (m : M MemBackend A) Q w :
  wpx P m (λ a b, Q a (set_store n b w)) (cw_store w n) → wpx P (on_store n m) Q w.
Proof. rw /wpx /on_store. by destruct (m (cw_store w n)) as [[a b]|]. Qed.

Lemma on_store_inv {A} n (m : M MemBackend A) w a w' :
  on_store n m w = Some (a, w') → m (cw_store w n) = Some (a, cw_store w' n).
Proof.
  rw /on_store. destruct (m (cw_store w n)) as [[a' b]|]; [|done]. intros [= <- <-]. by rw cw_store_set_eq.
Qed.

Lemma on_store_world {A} n (m : M MemBackend A) w a w' :
  on_store n m w = Some (a, w') → w' = set_store n (cw_store w' n) w.
Proof.
  rw /on_store. destruct (m (cw_store w n)) as [[a' b]|]; [|done]. intros [= <- <-]. by rw cw_store_set_eq.
Qed.

Local Abbreviation local := (vm_local_node_name v).

#[global] Instance CW_storage : BackendStorage (CW v) := {|
  st_put op key data := on_store local (st_put op key data);
  st_put_alien op key data := on_store local (st_put_alien op key data);
  st_get op key := on_store local (st_get op key);
  st_get_alien op key := on_store local (st_get_alien op key);
  st_exist op keys := on_store local (st_exist op keys);
  st_exist_alien op keys := on_store local (st_exist_alien op keys);
  st_delete op key m := on_store local (st_delete op key m);
  st_delete_alien op key m f := on_store local (st_delete_alien op key m f);
|}.

#[local] Obligation Tactic := idtac.

(** Every law is the one of the node's own storage. *)
#[global] Program Instance CW_laws : StorageLaws (CW v) :=
  {| stored w loc k d := mem_stored (cw_store w local) loc k d |}.
Next Obligation. intros * Hrun%on_store_inv. revert Hrun. apply (@law_put MemBackend _ MemBackend_laws). Qed.
Next Obligation. intros * Hrun%on_store_inv. revert Hrun. apply (@law_put_keeps MemBackend _ MemBackend_laws). Qed.
Next Obligation. intros * Hrun%on_store_inv. revert Hrun. apply (@law_put_alien MemBackend _ MemBackend_laws). Qed.
Next Obligation. intros * Hrun%on_store_inv. revert Hrun. apply (@law_put_alien_keeps MemBackend _ MemBackend_laws). Qed.
Next Obligation. intros * Hrun%on_store_inv. revert Hrun. apply (@law_get MemBackend _ MemBackend_laws). Qed.
Next Obligation. intros * Hrun%on_store_inv. revert Hrun. apply (@law_get_alien MemBackend _ MemBackend_laws). Qed.
Next Obligation. intros * Hrun%on_store_inv. revert Hrun. apply (@law_get_keeps MemBackend _ MemBackend_laws). Qed.
Next Obligation. intros * Hrun%on_store_inv. revert Hrun. apply (@law_get_alien_keeps MemBackend _ MemBackend_laws). Qed.
Next Obligation. intros * Hrun%on_store_inv. revert Hrun. apply (@law_exist MemBackend _ MemBackend_laws). Qed.
Next Obligation. intros * Hrun%on_store_inv. revert Hrun. apply (@law_exist_alien MemBackend _ MemBackend_laws). Qed.
Next Obligation. intros * Hrun%on_store_inv. revert Hrun. apply (@law_exist_keeps MemBackend _ MemBackend_laws). Qed.
Next Obligation. intros * Hrun%on_store_inv. revert Hrun. apply (@law_exist_alien_keeps MemBackend _ MemBackend_laws). Qed.
Next Obligation. intros * Hrun%on_store_inv. revert Hrun. apply (@law_delete MemBackend _ MemBackend_laws). Qed.
Next Obligation. intros * Hrun%on_store_inv. revert Hrun. apply (@law_delete_keeps MemBackend _ MemBackend_laws). Qed.
Next Obligation. intros * Hrun%on_store_inv. revert Hrun. apply (@law_delete_alien MemBackend _ MemBackend_laws). Qed.
Next Obligation. intros * Hrun%on_store_inv. revert Hrun. apply (@law_delete_alien_keeps MemBackend _ MemBackend_laws). Qed.

Lemma on_store_run {A} n (m : M MemBackend A) w a b :
  m (cw_store w n) = Some (a, b) → on_store n m w = Some (a, set_store n b w).
Proof. rw /on_store. by intros ->. Qed.

#[global] Program Instance CW_reliable : ReliableReads (CW v).
Next Obligation.
  intros op k w Ha. destruct (rel_get (W := MemBackend) op k (cw_store w local) Ha) as (r & b & Hrun & Hr).
  exists r, (set_store local b w). split; [by apply on_store_run|done].
Qed.
Next Obligation.
  intros op k w. destruct (rel_get_alien (W := MemBackend) op k (cw_store w local)) as (r & b & Hrun & Hr).
  exists r, (set_store local b w). split; [by apply on_store_run|done].
Qed.
Next Obligation.
  intros op ks w Ha. destruct (rel_exist (W := MemBackend) op ks (cw_store w local) Ha) as (r & b & Hrun & Hr).
  exists r, (set_store local b w). split; [by apply on_store_run|done].
Qed.
Next Obligation.
  intros op ks w. destruct (rel_exist_alien (W := MemBackend) op ks (cw_store w local)) as (r & b & Hrun & Hr).
  exists r, (set_store local b w). split; [by apply on_store_run|done].
Qed.

#[global] Instance CW_support : SupportState (CW v) := {|
  support_offset := cw_offset;
  set_support_offset o w := mkCW (cw_stores w) (cw_down w) (cw_sched w) o;
  observe_connections := λ w,
    let up i := match vm_nodes v !! i with Some n => bool_decide (node_name n ∉ cw_down w) | None => false end in
    Some ((λ _ i, up i, up), w);
|}.

#[global] Instance CW_state : ClusterState (CW v) := {|
  nstored w n loc k d := mem_stored (cw_store w n) loc k d;
  alien_ready w := ∀ k, is_Some (md_vdisks (mb_foreign_data (cw_store w local)) !! key_id v k);
  reachable w n := n ∉ cw_down w;
|}.
End world.

(** *** The other nodes *)

(** A node checks no credentials, is told of nothing, and calls no cluster. *)
#[local] Instance mem_authenticator : Authenticator MemBackend :=
  {| credentials_type := AuthNone; check_grpc _ := mret (Stub_check_credentials RequestCredentials_default) |}.
#[local] Instance mem_notified : Notified MemBackend :=
  {| request_index_cleanup := mret tt; update_node_connection _ := mret tt |}.
#[local] Instance mem_no_cluster : ClusterOps MemBackend :=
  {| cluster_put _ _ := panic; cluster_get _ := panic; cluster_exist _ := panic; cluster_delete _ _ := panic |}.

(** The mapper another node has of the same cluster. *)
Definition mapper_for (v : Virtual) (n : NodeName) : Virtual := {|
  vm_local_node_name := n; vm_local_node_address := vm_local_node_address v; vm_disks := vm_disks v;
  vm_vdisks := vm_vdisks v; vm_nodes := vm_nodes v; vm_distribution_func := vm_distribution_func v;
  vm_support_nodes_offset := vm_support_nodes_offset v |}.

Definition unavailable : Status := {| code := CodeUnavailable; message := "down" |}.

Section requests.
Context {key_size : KeySize} `{!HashOrder, !AccessCrates} {v : Virtual}.

(** A request to a node: one atomic step of its handler. *)
Definition serve {A} (n : NodeName) (m : M MemBackend (result A Status)) : M (CW v) (result A Status) := λ w,
  if decide (n ∈ cw_down w) then Some (Err unavailable, w)
  else match m (cw_store w n) with
       | Some (r, b) => Some (r, set_store n b w)
       | None => Some (Err unavailable, w)
       end.

Definition no_text : list byte → string := λ _, EmptyString.
Definition no_metadata : AccessRequest := {| ar_header := λ _, None; ar_remote_addr := None |}.

Definition pop_sched (w : CW v) : option (nat * CW v) :=
  Some (hd 0%nat (cw_sched w), mkCW (cw_stores w) (cw_down w) (List.tl (cw_sched w)) (cw_offset w)).

#[global] Instance CW_network : Network (CW v) := {|
  node_connected n := λ w, Some (bool_decide (n ∉ cw_down w), w);
  grpc_put n req := serve n (r ← Server_put (mapper_for v n) no_text no_metadata req; mret r.1);
  grpc_get n req := serve n (Server_get (mapper_for v n) no_text no_metadata req);
  grpc_exist n req := serve n (Server_exist (mapper_for v n) no_text no_metadata req);
  grpc_delete n req := serve n (Server_delete (mapper_for v n) no_text no_metadata req);
  sched_choose _ := pop_sched;
  sched_cancelled := mret false;
|}.
End requests.

(** ** The contract *)

Section steps.
Context {key_size : KeySize} {v : Virtual}.
Implicit Types w : CW v.

(** What a change of one store is for the cluster. *)
Lemma store_stays n b w :
  mem_dom (cw_store w n) b → stays w (set_store n b w).
Proof.
  intros Hd. split; [|done]. intros Hr k. specialize (Hr k). rw cw_store_set. case_decide as Hn; [|done].
  subst n. by apply Hd.
Qed.

Lemma store_same n b w : mem_reads (cw_store w n) b → nsame w (set_store n b w).
Proof.
  intros [Hu Hd]. split; [|by apply store_stays]. intros n' loc k d. rw /nstored /= cw_store_set.
  case_decide as Hn; [|done]. subst n'. by rw /mem_stored Hu.
Qed.

Lemma store_keeps n k d b w : mem_puts k d (cw_store w n) b → nkeeps k d w (set_store n b w).
Proof.
  intros (Hk & Hn & Hd). split_and!; [..|by apply store_stays];
    intros n' loc k' d'; rw /nstored /= cw_store_set; case_decide as He; subst; eauto.
Qed.

Lemma store_drops n k b w : mem_deletes k (cw_store w n) b → ndrops k w (set_store n b w).
Proof.
  intros (Hk & Hn & Hd). split_and!; [..|by apply store_stays];
    intros n' loc k' d'; rw /nstored /= cw_store_set; case_decide as He; subst; eauto.
Qed.

#[global] Instance nsame_preorder : PreOrder (nsame (W := CW v)).
Proof. split; [intros w; apply nsame_refl|intros w1 w2 w3; apply nsame_trans]. Qed.
End steps.

(** A reply that failed is read back as an error. *)
Section replies.
Context {key_size : KeySize} (Hsize : BOB_KEY_SIZE ≠ 0%nat) {W : Type}.

Lemma Error_from_Status_wf e : kind_wf (ctx e) → is_Some (Error_from_Status (Status_from_Error e)).
Proof. intros He. destruct e as [[]]; simpl in He; try (by eexists); [by rw VDiskNotFound_wire|by rw KeyNotFound_wire]. Qed.

Definition status_ok (s : Status) : Prop := is_Some (Error_from_Status s).

Lemma wp_client_result {A B} n (f : A → B) (r : result A Status) (Q : result (Output B) (Output Error) → W → Prop) w :
  match r with Ok a => Q (Ok (mkOutput n (f a))) w | Err s => status_ok s ∧ ∀ e, Q (Err (mkOutput n e)) w end →
  wp (client_result n f r) Q w.
Proof.
  destruct r as [a|s]; simpl; [apply wpx_ret|]. intros [[e He] HQ].
  apply wpx_bind. eapply wpx_expect; [done|]. by apply wpx_ret.
Qed.

Lemma unavailable_ok : status_ok unavailable.
Proof using Type. vm_compute. eauto. Qed.
End replies.

Section contract.
Context {key_size : KeySize} (Hsize : BOB_KEY_SIZE ≠ 0%nat) `{!HashOrder, !AccessCrates} {v : Virtual} (Hok : mapper_ok v).
Implicit Types w : CW v.
#[local] Set Default Proof Using "All".
Local Abbreviation local := (vm_local_node_name v).

Lemma mapper_for_ok n : n ∈ node_names v → mapper_ok (mapper_for v n).
Proof. intros Hn. destruct Hok. by constructor. Qed.

(** A request is answered by the node, or by no one. *)
Lemma wp_serve {A} n (m : M MemBackend (result A Status)) (Q : result A Status → CW v → Prop) w :
  (n ∈ cw_down w → Q (Err unavailable) w) →
  (n ∉ cw_down w → wp m (λ r b, Q r (set_store n b w)) (cw_store w n)) →
  wp (serve n m) Q w.
Proof.
  intros Hd Hu. rw /wpx /serve. case_decide as Hn; [by apply Hd|]. specialize (Hu Hn). rw /wpx in Hu.
  by destruct (m (cw_store w n)) as [[r b]|].
Qed.

(** The answer of the grinder is the answer of the node. *)
Lemma wp_forward {A B} (m : M MemBackend (result A Error)) (f : result A Error → B) Q b :
  wp m (λ r b', Q (f r) b') b → wp (r ← m; mret (f r)) Q b.
Proof. intros Hm. by apply wpx_bind. Qed.

Lemma check_runs b :
  check_grpc (W := MemBackend) (CredentialsHolder_from no_text credentials_type no_metadata) b = Some (Ok perm_all, b).
Proof. done. Qed.

(** *** The local storage *)

Lemma cw_st_put op k d w : is_data_alien op = false → wp (st_put op k d) (λ _ w', nkeeps k d w w') w.
Proof.
  intros Ha. apply wpx_on_store. eapply wpx_mono; [by apply mem_put_calm|]. intros r b [_ Hp]. by apply store_keeps.
Qed.

Lemma cw_st_put_alien op k d w :
  wp (st_put_alien op k d) (λ r w', nkeeps k d w w' ∧
    (alien_ready w → op_vdisk_id op = key_id v k → r = Ok tt)) w.
Proof.
  apply wpx_on_store. pose proof (mem_put_alien_calm k d op (cw_store w local)) as Hc.
  pose proof (mem_put_alien_ok k d op (cw_store w local)) as Hr. rw /wpx in Hc Hr |- *.
  destruct (st_put_alien op k d _) as [[r b]|]; [|done]. split; [apply store_keeps, Hc|].
  intros Hready Hid. apply Hr. rw Hid. apply Hready.
Qed.

Lemma cw_st_get op k w : is_data_alien op = false →
  wp (st_get op k) (λ r w', nsame w w' ∧ ∀ loc d, op_loc op = Some loc → stored w loc k d → is_ok r = true) w.
Proof.
  intros Ha. destruct (rel_get op k w Ha) as (r & w' & Hrun & Hr). rw /wpx Hrun. split; [|eauto].
  pose proof (mem_get_calm k op (cw_store w local) Ha) as Hc. apply on_store_inv in Hrun as Hm.
  rw /wpx Hm in Hc. apply on_store_world in Hrun as ->. apply store_same, Hc.
Qed.

Lemma cw_st_get_alien op k w :
  wp (st_get_alien op k) (λ r w', nsame w w' ∧
    ∀ node d, stored w (LocAlien (op_vdisk_id op) node) k d → is_ok r = true) w.
Proof.
  destruct (rel_get_alien op k w) as (r & w' & Hrun & Hr). rw /wpx Hrun. split; [|eauto].
  pose proof (mem_get_alien_calm k op (cw_store w local)) as Hc. apply on_store_inv in Hrun as Hm.
  rw /wpx Hm in Hc. apply on_store_world in Hrun as ->. apply store_same, Hc.
Qed.

Lemma cw_st_exist op ks : is_data_alien op = false → calm (W := CW v) nsame (st_exist op ks).
Proof.
  intros Ha w. apply wpx_on_store. eapply wpx_mono; [by apply mem_exist_calm|]. intros r b [? Hp].
  split; [done|by apply store_same].
Qed.

Lemma cw_st_exist_alien op ks : calm (W := CW v) nsame (st_exist_alien op ks).
Proof.
  intros w. apply wpx_on_store. eapply wpx_mono; [by apply mem_exist_alien_calm|]. intros r b [? Hp].
  split; [done|by apply store_same].
Qed.

Lemma cw_backend_exist (ho : HashOrder) ks options w :
  wp (Backend_exist v ks options) (λ r w', nsame w w' ∧
    ∃ bs, r = Ok bs ∧ ∀ i k loc d, ks !! i = Some k → searched v k options loc → stored w loc k d → bs !! i = Some true) w.
Proof.
  pose proof (Backend_exist_calm v Hok nsame cw_st_exist cw_st_exist_alien ks options w) as Hc.
  pose proof (Backend_exist_complete v ks options w (λ k _, get_operation_total v k Hok)) as He.
  eapply wpx_mono; [apply (wpx_and _ _ _ _ _ Hc He)|]. intros r w' [[_ Hs] (bs & -> & Hb)].
  split; [done|]. exists bs. split; [done|]. intros i k loc d Hi Hse Hst. eauto.
Qed.

Lemma cw_st_delete op k m w : is_data_alien op = false →
  wp (st_delete op k m) (λ _ w', ndrops k w w' ∧ ∀ loc d, op_loc op = Some loc → ¬ stored w' loc k d) w.
Proof.
  intros Ha. apply wpx_on_store. eapply wpx_mono; [by apply mem_delete_calm|]. intros r b (_ & Hp & Hg).
  split; [by apply store_drops|]. intros loc d Hloc. rw /stored /= cw_store_set_eq. by apply Hg.
Qed.

Lemma cw_st_delete_alien op k m f w :
  wp (st_delete_alien op k m f) (λ _ w', ndrops k w w' ∧ ∀ loc d, alien_loc op = Some loc → ¬ stored w' loc k d) w.
Proof.
  apply wpx_on_store. eapply wpx_mono; [by apply mem_delete_alien_calm|]. intros r b (_ & Hp & Hg).
  split; [by apply store_drops|]. intros loc d Hloc. rw /stored /= cw_store_set_eq. by apply Hg.
Qed.

(** *** The requests *)

Lemma wpx_eq {U A} P (m m' : M U A) Q (u u1 : U) : m u = m' u1 → wpx P m' Q u1 → wpx P m Q u.
Proof. rw /wpx. by intros ->. Qed.

Lemma status_ok_from e : kind_wf (ctx e) → status_ok (Status_from_Error e).
Proof. by apply Error_from_Status_wf. Qed.

(** A request whose handler answers with the result of the storage. *)
Lemma wp_request {A B} n (m : M MemBackend (result A Error)) (f : A → B)
    (req : M MemBackend (result A Status)) (Q : result (Output B) (Output Error) → CW v → Prop) w :
  (∀ b, req b = (r ← m; mret (result_map_err Status_from_Error r)) b) →
  (∀ e, Q (Err e) w) →
  (n ∉ cw_down w → wp m (λ r b, result_wf r ∧
     match r with Ok a => Q (Ok (mkOutput n (f a))) (set_store n b w) | Err _ => ∀ e, Q (Err e) (set_store n b w) end)
     (cw_store w n)) →
  wp (r ← serve n req; client_result n f r) Q w.
Proof.
  intros Hreq Hdown Hup. apply wpx_bind, wp_serve.
  - intros _. apply wp_client_result; [done|]. split; [apply unavailable_ok|]. intros e. apply Hdown.
  - intros Hn. specialize (Hup Hn). eapply wpx_eq; [apply Hreq|]. apply wpx_bind.
    eapply wpx_mono; [exact Hup|]. intros r b [Hwf Hr]. apply wpx_ret.
    apply wp_client_result; [done|]. destruct r as [a|e]; simpl; [done|].
    split; [by apply status_ok_from|done].
Qed.

Lemma local_replicas_at n k : local_replicas (mapper_for v n) k = filter (λ r, nd_node_name r = n) (key_replicas v k).
Proof. done. Qed.

(** What the nodes run for the requests of the policies. *)
Lemma put_request n k d options b :
  key_wf k → bpo_force_node options = true →
  (r ← Server_put (mapper_for v n) no_text no_metadata (put_message k d (BobPutOptions_to_grpc options)); mret r.1) b =
  (r ← Backend_put (mapper_for v n) k d options; mret (result_map_err Status_from_Error r)) b.
Proof.
  intros Hk Hf. rw /mbind /M_bind.
  rw (Server_put_message (mapper_for v n) no_text no_metadata b b perm_all (check_runs b) k d options eq_refl Hk).
  rw /Grinder_put Hf /mbind /M_bind. by destruct (Backend_put _ _ _ _ b) as [[r b']|].
Qed.

Lemma exist_request n ks o b :
  Forall key_wf ks → bgo_force_node o = true →
  Server_exist (mapper_for v n) no_text no_metadata (exist_message ks (BobGetOptions_to_grpc o)) b =
  (r ← Backend_exist (mapper_for v n) ks o; mret (result_map_err Status_from_Error r)) b.
Proof.
  intros Hk Hf.
  rw (Server_exist_message (mapper_for v n) no_text no_metadata b b perm_all (check_runs b) ks o eq_refl Hk).
  by rw /Grinder_exist Hf.
Qed.

Lemma get_request n k o b :
  key_wf k → bgo_force_node o = true →
  Server_get (mapper_for v n) no_text no_metadata (get_message k (BobGetOptions_to_grpc o)) b =
  (r ← Backend_get (mapper_for v n) k o; mret (match r with
     | Ok d => Ok {| blob_data := inner d; blob_meta := Some (timestamp (meta d)) |}
     | Err e => Err (Status_from_Error e) end)) b.
Proof.
  intros Hk Hf.
  rw (Server_get_message (mapper_for v n) no_text no_metadata b b perm_all (check_runs b) k o eq_refl Hk).
  by rw /Grinder_get Hf.
Qed.

Lemma delete_request n k m o b :
  key_wf k → bdo_force_node o = true →
  Server_delete (mapper_for v n) no_text no_metadata (delete_message k m (BobDeleteOptions_to_grpc o)) b =
  (r ← Backend_delete (mapper_for v n) k m o; mret (result_map_err Status_from_Error r)) b.
Proof.
  intros Hk Hf.
  rw (Server_delete_message (mapper_for v n) no_text no_metadata b b perm_all (check_runs b) k m o eq_refl Hk).
  rw /Grinder_delete Hf /mbind /M_bind. by destruct (Backend_delete _ _ _ _ b) as [[r b']|].
Qed.

Lemma cw_put n k d (options : BobPutOptions) w :
  n ∈ node_names v → key_wf k → bpo_force_node options = true →
  wp (client_put n k d (BobPutOptions_to_grpc options)) (λ r w', nkeeps k d w w' ∧
    (is_ok r = true →
       match bpo_remote_nodes options with
       | [] => ∀ rp, rp ∈ key_replicas v k → nd_node_name rp = n →
           nstored w' n (replica_loc v k rp) k d ∨ nstored w' n (alien_for v k n) k d
       | names => ∀ x, x ∈ names → nstored w' n (alien_for v k x) k d
       end)) w.
Proof.
  intros Hn Hk Hf. pose proof (mapper_for_ok n Hn) as Hokn. rw /client_put /=.
  apply (wp_request n (Backend_put (mapper_for v n) k d options)).
  - intros b. by apply put_request.
  - intros e. split; [apply nkeeps_refl|done].
  - intros _.
    pose proof (Backend_put_calm (mapper_for v n) Hokn (mem_puts k d) k d (mem_put_calm k d)
      (λ op _, mem_put_alien_calm k d op) options (cw_store w n)) as Hc.
    eapply wpx_mono; [apply (wpx_wlp _ _ _ _ _ Hc (Backend_put_stored (mapper_for v n) k d options _))|].
    intros r b [[Hwf HR] [_ Hst]]. split; [done|]. apply store_keeps in HR.
    destruct r as [[]|e]; [|by intros e'; split]. split; [done|]. intros _.
    destruct (Hst eq_refl) as (id & paths & Hop & Hcase).
    rw (get_op (mapper_for v n) k Hokn) in Hop. injection Hop as <- <-.
    rw /put_to_alien in Hcase. rw /nstored /= cw_store_set_eq.
    destruct (bpo_remote_nodes options) as [|x l]; [|exact Hcase].
    destruct Hcase as (ps & Hps & Hall). intros rp Hrp Hname.
    assert (rp ∈ local_replicas (mapper_for v n) k) as Hin.
    { rw local_replicas_at. by apply list_elem_of_filter. }
    destruct (local_replicas (mapper_for v n) k) as [|r0 l]; [by apply elem_of_nil in Hin|].
    injection Hps as <-. apply (Hall (DiskPath_from rp)).
    apply (list_elem_of_fmap_2 DiskPath_from (r0 :: l) rp Hin).
Qed.

(** What a read of one key does on a node. *)
Lemma node_get n k o b :
  n ∈ node_names v → key_wf k →
  wp (Backend_get (mapper_for v n) k o) (λ r b', (result_wf r ∧ mem_reads b b') ∧
    (∀ d, r = Ok d → ∃ loc, searched (mapper_for v n) k o loc ∧ mem_stored b loc k d) ∧
    ((∃ loc d, searched (mapper_for v n) k o loc ∧ mem_stored b loc k d) → ∃ d, r = Ok d)) b.
Proof.
  intros Hn Hk. pose proof (mapper_for_ok n Hn) as Hokn.
  assert (wp (Backend_get (mapper_for v n) k o) (λ r b', result_wf r ∧ mem_reads b b') b) as Hc.
  { apply (Backend_get_calm _ Hokn mem_reads k Hk).
    - intros op Ha b1. eapply wpx_mono; [by apply mem_get_calm|]. intros r b2 [? ?]. auto.
    - intros op b1. eapply wpx_mono; [by apply mem_get_alien_calm|]. intros r b2 [? ?]. auto. }
  eapply wpx_mono; [apply wpx_and; [exact Hc|apply wpx_wlp;
    [exact (Backend_get_finds _ k o b (get_operation_total _ k Hokn))|exact (Backend_get_sound _ k o b)]]|].
  intros r b' (Hc' & Hf & _ & Hs). split; [done|]. split; [exact Hs|exact Hf].
Qed.

Lemma wp_get_request n k o (Q : result (Output BobData) (Output Error) → CW v → Prop) w :
  n ∈ node_names v → key_wf k → bgo_force_node o = true →
  (n ∈ cw_down w → ∀ e, Q (Err e) w) →
  (n ∉ cw_down w → wp (Backend_get (mapper_for v n) k o) (λ r b,
     match r with Ok d => Q (Ok (mkOutput n d)) (set_store n b w) | Err _ => ∀ e, Q (Err e) (set_store n b w) end)
     (cw_store w n)) →
  wp (client_get n k (BobGetOptions_to_grpc o)) Q w.
Proof.
  intros Hn Hk Hf Hdown Hup. rw /client_get /=. apply wpx_bind, wp_serve.
  - intros Hd. destruct unavailable_ok as [e He]. apply wpx_bind. eapply wpx_expect; [exact He|]. by apply wpx_ret, Hdown.
  - intros Hd. specialize (Hup Hd). eapply wpx_eq; [by apply get_request|]. apply wpx_bind.
    eapply wpx_mono; [apply (wpx_and _ _ _ _ _ Hup (node_get n k o _ Hn Hk))|].
    intros r b (HQ & [Hwf _] & _). apply wpx_ret. destruct r as [d|e].
    + apply wpx_bind. eapply wpx_expect; [done|]. apply wpx_ret. by destruct d as [i []].
    + destruct (status_ok_from e Hwf) as [e' He]. apply wpx_bind. eapply wpx_expect; [exact He|]. by apply wpx_ret.
Qed.

Lemma cw_get n k w : n ∈ node_names v → key_wf k →
  wp (client_get n k GetOptions_new_local) (λ r w', nsame w w' ∧
    (∀ o, r = Ok o → ∃ rp, rp ∈ key_replicas v k ∧ nd_node_name rp = n ∧
       nstored w n (replica_loc v k rp) k (out_inner o)) ∧
    (reachable w n → ∀ rp d, rp ∈ key_replicas v k → nd_node_name rp = n →
       nstored w n (replica_loc v k rp) k d → is_ok r = true)) w.
Proof.
  intros Hn Hk. apply (wp_get_request n k BobGetOptions_new_local); [done..| |].
  - intros Hd e. split; [apply nsame_refl|]. split; [done|]. by intros [].
  - intros Hd. eapply wpx_mono; [by apply node_get|]. intros r b ([_ HR] & Hs & Hf). apply store_same in HR.
    assert (∀ rp d, rp ∈ key_replicas v k → nd_node_name rp = n →
      mem_stored (cw_store w n) (replica_loc v k rp) k d → ∃ d, r = Ok d) as Hfound.
    { intros rp d Hrp Hname Hst. apply Hf. exists (replica_loc v k rp), d. split; [|done].
      apply (searched_local (mapper_for_ok n Hn)). exists rp. rw local_replicas_at list_elem_of_filter. done. }
    destruct r as [d|e].
    + split; [done|]. split; [|done]. intros o [= <-]. destruct (Hs d eq_refl) as (loc & Hse & Hst).
      apply (searched_local (mapper_for_ok n Hn)) in Hse as (rp & Hrp & ->).
      rw local_replicas_at in Hrp. apply list_elem_of_filter in Hrp as [Hname Hrp]. by exists rp.
    + intros e'. split; [done|]. split; [done|]. intros _ rp d Hrp Hname Hst. by destruct (Hfound rp d Hrp Hname Hst).
Qed.

Lemma cw_get_alien n k w : n ∈ node_names v → key_wf k →
  wp (client_get n k GetOptions_new_alien) (λ r w', nsame w w' ∧
    (∀ o, r = Ok o → ∃ x, nstored w n (alien_for v k x) k (out_inner o)) ∧
    (reachable w n → ∀ x d, nstored w n (alien_for v k x) k d → is_ok r = true)) w.
Proof.
  intros Hn Hk. apply (wp_get_request n k BobGetOptions_new_alien); [done..| |].
  - intros Hd e. split; [apply nsame_refl|]. split; [done|]. by intros [].
  - intros Hd. eapply wpx_mono; [by apply node_get|]. intros r b ([_ HR] & Hs & Hf). apply store_same in HR.
    assert (∀ x d, mem_stored (cw_store w n) (alien_for v k x) k d → ∃ d, r = Ok d) as Hfound.
    { intros x d Hst. apply Hf. exists (alien_for v k x), d. split; [|done].
      apply (searched_alien (mapper_for_ok n Hn)). by exists x. }
    destruct r as [d|e].
    + split; [done|]. split; [|done]. intros o [= <-]. destruct (Hs d eq_refl) as (loc & Hse & Hst).
      apply (searched_alien (mapper_for_ok n Hn)) in Hse as (x & ->). by exists x.
    + intros e'. split; [done|]. split; [done|]. intros _ x d Hst. by destruct (Hfound x d Hst).
Qed.

(** What an [exist] does on a node. *)
Lemma cw_exist_request n ks o w (place : BobKey → Loc → Prop) :
  n ∈ node_names v → Forall key_wf ks → bgo_force_node o = true →
  (∀ k loc, searched (mapper_for v n) k o loc ↔ place k loc) →
  wp (client_exist n ks (BobGetOptions_to_grpc o)) (λ r w', nsame w w' ∧
    (∀ out, r = Ok out → length (out_inner out) = length ks ∧
       ∀ j k, ks !! j = Some k → out_inner out !! j = Some true → ∃ loc d, place k loc ∧ nstored w n loc k d) ∧
    (reachable w n → ∃ out, r = Ok out ∧ ∀ j k loc d, ks !! j = Some k → place k loc →
       nstored w n loc k d → out_inner out !! j = Some true)) w.
Proof.
  intros Hn Hks Hf Hplace. pose proof (mapper_for_ok n Hn) as Hokn. rw /client_exist.
  apply wpx_bind, wp_serve.
  { intros Hd. apply wp_client_result; [done|]. split; [apply unavailable_ok|]. intros e.
    split; [apply nsame_refl|]. split; [done|]. by intros []. }
  intros Hd. eapply wpx_eq; [by apply exist_request|]. apply wpx_bind.
  pose proof (Backend_exist_calm (mapper_for v n) Hokn mem_reads
    (λ op ks H, mem_exist_calm ks op H) (λ op ks, mem_exist_alien_calm ks op) ks o (cw_store w n)) as Hc.
  pose proof (Backend_exist_complete (mapper_for v n) ks o (cw_store w n)
    (λ k _, get_operation_total _ k Hokn)) as Hcomp.
  eapply wpx_mono; [apply (wpx_and _ _ _ _ _ Hc (wpx_wlp _ _ _ _ _ Hcomp
    (Backend_exist_sound (mapper_for v n) ks o (cw_store w n))))|].
  intros r b ([_ HR] & (bs & -> & Hall) & _ & bs' & [= <-] & Hlen & Hso). apply store_same in HR.
  apply wpx_ret, wp_client_result; [done|]. simpl. split; [done|]. split.
  - intros out [= <-]. split; [done|]. intros j k Hj Hb. simpl in Hb.
    destruct (Hso j Hb) as (k' & loc & d & Hk' & Hse & Hst). simplify_eq. exists loc, d. by rw -Hplace.
  - intros _. eexists. split; [done|]. intros j k loc d Hj Hp Hst. apply (Hall j k Hj).
    exists loc, d. by rw Hplace.
Qed.

Lemma cw_exist n ks w : n ∈ node_names v → Forall key_wf ks →
  wp (client_exist n ks GetOptions_new_local) (λ r w', nsame w w' ∧
    (∀ o, r = Ok o → length (out_inner o) = length ks ∧
       ∀ j k, ks !! j = Some k → out_inner o !! j = Some true →
         ∃ rp d, rp ∈ key_replicas v k ∧ nd_node_name rp = n ∧ nstored w n (replica_loc v k rp) k d) ∧
    (reachable w n → ∃ o, r = Ok o ∧ ∀ j k rp d, ks !! j = Some k → rp ∈ key_replicas v k →
       nd_node_name rp = n → nstored w n (replica_loc v k rp) k d → out_inner o !! j = Some true)) w.
Proof.
  intros Hn Hks.
  eapply wpx_mono; [apply (cw_exist_request n ks BobGetOptions_new_local w
    (λ k loc, ∃ rp, rp ∈ key_replicas v k ∧ nd_node_name rp = n ∧ loc = replica_loc v k rp)); [done..|]|].
  - intros k loc. rw (searched_local (mapper_for_ok n Hn)) local_replicas_at. setoid_rewrite list_elem_of_filter.
    split; [intros (rp & [? ?] & ?)|intros (rp & ? & ? & ?)]; exists rp; auto.
  - intros r w' (Hs & Hso & Hc). split; [done|]. split.
    + intros o Ho. destruct (Hso o Ho) as [Hl Hb]. split; [done|]. intros j k Hj Hjb.
      destruct (Hb j k Hj Hjb) as (loc & d & (rp & ? & ? & ->) & ?). eauto.
    + intros Hr. destruct (Hc Hr) as (o & Ho & Hall). exists o. split; [done|].
      intros j k rp d Hj Hrp Hname Hst. eapply (Hall j k (replica_loc v k rp)); eauto.
Qed.

Lemma cw_exist_alien n ks w : n ∈ node_names v → Forall key_wf ks →
  wp (client_exist n ks GetOptions_new_alien) (λ r w', nsame w w' ∧
    (∀ o, r = Ok o → length (out_inner o) = length ks ∧
       ∀ j k, ks !! j = Some k → out_inner o !! j = Some true → ∃ x d, nstored w n (alien_for v k x) k d) ∧
    (reachable w n → ∃ o, r = Ok o ∧ ∀ j k x d, ks !! j = Some k →
       nstored w n (alien_for v k x) k d → out_inner o !! j = Some true)) w.
Proof.
  intros Hn Hks.
  eapply wpx_mono; [apply (cw_exist_request n ks BobGetOptions_new_alien w
    (λ k loc, ∃ x, loc = alien_for v k x)); [done..|]|].
  - intros k loc. apply (searched_alien (mapper_for_ok n Hn)).
  - intros r w' (Hs & Hso & Hc). split; [done|]. split.
    + intros o Ho. destruct (Hso o Ho) as [Hl Hb]. split; [done|]. intros j k Hj Hjb.
      destruct (Hb j k Hj Hjb) as (loc & d & (x & ->) & ?). eauto.
    + intros Hr. destruct (Hc Hr) as (o & Ho & Hall). exists o. split; [done|].
      intros j k x d Hj Hst. eapply (Hall j k (alien_for v k x)); eauto.
Qed.

Lemma cw_delete n k m (options : BobDeleteOptions) w :
  n ∈ node_names v → key_wf k → bdo_force_node options = true →
  wp (client_delete n k m (BobDeleteOptions_to_grpc options)) (λ r w', ndrops k w w' ∧
    (is_ok r = true ∨ reachable w n →
       if bdo_is_alien options
       then ∀ x d, x ∈ node_name <$> targets v k → ¬ nstored w' n (alien_for v k x) k d
       else ∀ rp d, rp ∈ key_replicas v k → nd_node_name rp = n → ¬ nstored w' n (replica_loc v k rp) k d)) w.
Proof.
  intros Hn Hk Hf. pose proof (mapper_for_ok n Hn) as Hokn. rw /client_delete.
  apply wpx_bind, wp_serve.
  { intros Hd. apply wp_client_result; [done|]. split; [apply unavailable_ok|]. intros e.
    split; [apply ndrops_refl|]. by intros [|[]]. }
  intros Hd. eapply wpx_eq; [by apply delete_request|]. apply wpx_bind.
  eapply wpx_mono; [apply (Backend_delete_calm (mapper_for v n) Hokn (mem_deletes k) k m (mem_gone k))|].
  - intros loc b1 b2 (Hold & _) Hg d Hst. by apply (Hg d), Hold.
  - intros op b Ha. eapply wpx_mono; [by apply mem_delete_calm|]. intros r b' (Hwf & HR & Hg). auto.
  - intros op f b Ha. eapply wpx_mono; [by apply mem_delete_alien_calm|]. intros r b' (Hwf & HR & Hg). auto.
  - intros r b (Hwf & HR & Hg). apply store_drops in HR.
    assert (if bdo_is_alien options
       then ∀ x d, x ∈ node_name <$> targets v k → ¬ nstored (set_store n b w) n (alien_for v k x) k d
       else ∀ rp d, rp ∈ key_replicas v k → nd_node_name rp = n →
         ¬ nstored (set_store n b w) n (replica_loc v k rp) k d) as Hgone.
    { destruct (bdo_is_alien options).
      - intros x d Hx. rw /nstored /= cw_store_set_eq. by apply (Hg x Hx d).
      - intros rp d Hrp Hname. rw /nstored /= cw_store_set_eq. apply (Hg rp). rw local_replicas_at.
        by apply list_elem_of_filter. }
    apply wpx_ret, wp_client_result; [done|]. destruct r as [a|e]; simpl; [by split|].
    split; [by apply status_ok_from|]. intros e'. by split.
Qed.

#[local] Obligation Tactic := idtac.

Lemma pop_sched_same w : nsame w (mkCW (cw_stores w) (cw_down w) (List.tl (cw_sched w)) (cw_offset w)).
Proof. by split. Qed.

(** The world keeps the contract, and no call ever aborts. *)
Lemma cluster_world_laws : ClusterLaws False (CW v) v.
Proof.
  split.
  - done.
  - intros op k d w Ha. by apply cw_st_put.
  - intros op k d w _. apply cw_st_put_alien.
  - intros op k w Ha. eapply wpx_mono; [by apply cw_st_get|]. intros r w' [? ?]. eauto.
  - intros op k w. eapply wpx_mono; [by apply cw_st_get_alien|]. intros r w' [? ?]. eauto.
  - intros ho ks options w. eapply wpx_mono; [by apply cw_backend_exist|]. intros r w' [? ?]. eauto.
  - intros op k m w Ha. eapply wpx_mono; [by apply cw_st_delete|]. intros r w' [? ?]. eauto.
  - intros op k m f w _. eapply wpx_mono; [by apply cw_st_delete_alien|]. intros r w' [? ?]. eauto.
  - intros n w. apply pop_sched_same.
  - intros w. split; [done|apply nsame_refl].
  - intros w. apply nsame_refl.
  - intros o w. by split.
  - intros n w. split; [apply nsame_refl|]. intros Hr. by apply bool_decide_eq_true.
  - apply cw_put.
  - apply cw_get.
  - apply cw_get_alien.
  - apply cw_exist.
  - apply cw_exist_alien.
  - apply cw_delete.
Qed.
End contract.

(** ** Witnesses: three nodes, one virtual disk with two replicas *)

Definition trio_cluster : Cluster := {|
  cl_nodes := imap (testmode_node "/tmp/d1") ["a:20000"; "b:20000"; "c:20000"];
  cl_vdisks :=
    [ push_replica {| rep_node := "node_1"; rep_disk := "disk_0" |} (testmode_vdisk 0) ];
  cl_racks := [];
  cl_distribution_func := Mod;
|}.

Definition trio_mapper : option Virtual :=
  Virtual_new (set_refs "b:20000" [{| dp_name := "disk_0"; dp_path := "/tmp/d1" |}] config_example) trio_cluster.

Definition trio : Virtual := default
  {| vm_local_node_name := EmptyString; vm_local_node_address := EmptyString; vm_disks := []; vm_vdisks := ∅;
     vm_nodes := []; vm_distribution_func := Mod; vm_support_nodes_offset := 0 |} trio_mapper.

Lemma trio_ok : mapper_ok trio.
Proof.
  assert (@cluster_typed trio_cluster) as Hty.
  { rw /cluster_typed /u32 /=. rw !list.Forall_cons. rw Forall_nil_iff. by vm_compute. }
  destruct (@Virtual_new_ok uri_example
    (set_refs "b:20000" [{| dp_name := "disk_0"; dp_path := "/tmp/d1" |}] config_example) trio_cluster)
    as (v & Hv & Hok & _); [done| |by vm_compute|by apply list_elem_of_In; vm_compute; tauto|].
  - apply (@Cluster_validate_Ok uri_example); [done|by vm_compute].
  - rw /trio /trio_mapper Hv. exact Hok.
Qed.

(** Stores without data. *)
Definition fresh_backend (disks : list DiskName) (count : Z) : MemBackend := {|
  mb_disks := list_to_map ((λ n, (n, MemDisk_new_direct n count)) <$> disks);
  mb_foreign_data := MemDisk_new_direct "foreign" count;
|}.

Definition fresh_world (v : Virtual) (down : gset NodeName) (sched : list nat) : CW v := mkCW
  (list_to_map ((λ n, (n, fresh_backend ["disk_0"] (Z.of_nat (size (vm_vdisks v))))) <$> node_names v)) down sched 0.

Lemma fresh_disk_empty name count id k : disk_lookup (MemDisk_new_direct name count) id k = None.
Proof.
  rw /disk_lookup /MemDisk_new_direct /=.
  destruct (list_to_map _ !! id) as [m|] eqn:Hm; [|done].
  apply elem_of_list_to_map_2, list_elem_of_fmap in Hm as (i & [= _ ->] & _). by vm_compute.
Qed.

Lemma fresh_backend_empty disks count loc k d : ¬ mem_stored (fresh_backend disks count) loc k d.
Proof.
  rw /mem_stored /mem_lookup. destruct loc as [id n|id n]; simpl; [|by rw fresh_disk_empty].
  destruct (list_to_map _ !! n) as [m|] eqn:Hm; [|done].
  apply elem_of_list_to_map_2, list_elem_of_fmap in Hm as (i & [= _ ->] & _). by rw /= fresh_disk_empty.
Qed.

Lemma fresh_world_empty v down sched n loc k d : ¬ nstored (fresh_world v down sched) n loc k d.
Proof.
  rw /nstored /= /cw_store /=. destruct (list_to_map _ !! n) as [b|] eqn:Hb; simpl.
  - apply elem_of_list_to_map_2, list_elem_of_fmap in Hb as (i & [= _ ->] & _). apply fresh_backend_empty.
  - rw /mem_stored /mem_lookup. destruct loc; simpl; [by rw lookup_empty|by rw /disk_lookup /= lookup_empty].
Qed.

Section witnesses.
#[local] Instance one_byte_keys : KeySize := 1%nat.
#[local] Instance some_hash_order : HashOrder :=
  {| hash_order := λ A l, reverse l; hash_order_perm := λ A l, reverse_Permutation l |}.
#[local] Existing Instance crates_example.

#[local] Instance trio_laws : ClusterLaws False (CW trio) trio.
Proof. by apply (cluster_world_laws ltac:(done) trio_ok). Qed.

Lemma key_id_trio k : key_id trio k = 0.
Proof. rw /key_id. replace (Z.of_nat (size (vm_vdisks trio))) with 1 by by vm_compute. apply Z.mod_1_r. Qed.

(** One of the two replicas is down. *)
Definition half_down : CW trio := fresh_world trio {["node_0"]} [1; 0; 1]%nat.
Definition all_up : CW trio := fresh_world trio ∅ [1; 0; 1]%nat.

Definition trio_put_result (w : CW trio) (quorum : nat) : option (result unit Error) :=
  match Quorum_put trio quorum [x03] data_example w with Some ((r, _), _) => Some r | None => None end.

Lemma key_ok : key_wf [x03].
Proof. done. Qed.

Lemma quorum_put_durable_witness :
  ∃ r w', Quorum_put trio 1 [x03] data_example half_down = Some (r, w') ∧
    put_done (v := trio) [x03] data_example 1 half_down r w' ∧ trio_put_result half_down 1 = Some (Ok tt).
Proof.
  destruct (wp_total _ _ _ (quorum_put_durable (W := CW trio) (P := False) trio_ok [x03] data_example key_ok 1 half_down))
    as (r & w' & Hrun & Hdone).
  exists r, w'. split; [done|]. split; [done|]. by vm_compute.
Defined.

Lemma quorum_put_settles_witness :
  alien_ready half_down ∧ (2 ≤ length (key_replicas trio [x03]))%nat ∧
  ∃ w', put_then_background (v := trio) [x03] data_example 2 half_down = Some (Ok tt, w') ∧
    ∀ rp, rp ∈ key_replicas trio [x03] →
      held (v := trio) [x03] data_example w' rp ∨ covered (v := trio) [x03] data_example w' (nd_node_name rp).
Proof.
  assert (alien_ready half_down) as Hready.
  { intros k. rw key_id_trio. exists ∅. by vm_compute. }
  assert (2 ≤ length (key_replicas trio [x03]))%nat as Hlen by by vm_compute.
  split; [done|]. split; [done|].
  destruct (wp_total _ _ _ (quorum_put_settles (W := CW trio) (P := False) trio_ok [x03] data_example key_ok 2 half_down))
    as (r & w' & Hrun & _ & Hall).
  destruct (Hall Hready Hlen) as [-> Hheld]. exists w'. split; [exact Hrun|exact Hheld].
Defined.

Lemma put_aliens_covers_witness :
  ∃ r w', put_aliens trio ["node_0"] [x03] data_example half_down = Some (r, w') ∧
    (r = Ok tt → covered (v := trio) [x03] data_example w' "node_0").
Proof.
  destruct (wp_total _ _ _ (put_aliens_covers (W := CW trio) (P := False) trio_ok [x03] data_example key_ok ["node_0"] half_down))
    as (r & w' & Hrun & _ & Hcov & _).
  exists r, w'. split; [done|]. intros Hr. apply (Hcov Hr). by left.
Defined.

Lemma quorum_get_correct_witness :
  ∃ w', Quorum_get trio [x03] half_down = Some (Err (key_not_found [x03]), w').
Proof.
  destruct (wp_total _ _ _ (quorum_get_correct (W := CW trio) (P := False) trio_ok [x03] key_ok half_down))
    as (r & w' & Hrun & _ & Hok & Herr).
  exists w'. rw Hrun. destruct r as [d|e]; [|by destruct (Herr e eq_refl) as [-> _]].
  destruct (Hok d eq_refl) as (n & _ & [(rp & _ & _ & Hst)|(x & Hst)]);
    destruct (fresh_world_empty _ _ _ _ _ _ _ Hst).
Defined.

Lemma quorum_read_your_write_witness :
  ∃ r w', (put ← Quorum_put trio 2 [x03] data_example; get ← Quorum_get trio [x03]; mret (put.1, get)) all_up =
    Some (r, w') ∧ r = (Ok tt, Ok data_example).
Proof.
  assert (∀ n d, ¬ findable (v := trio) [x03] all_up n d) as Hnew.
  { intros n d [(rp & _ & _ & Hst)|(x & Hst)]; destruct (fresh_world_empty _ _ _ _ _ _ _ Hst). }
  destruct (wp_total _ _ _ (quorum_read_your_write (W := CW trio) (P := False) trio_ok [x03] key_ok 2 data_example all_up
    ltac:(lia) Hnew ltac:(done))) as ([p g] & w' & Hrun & Hr).
  exists (p, g), w'. split; [done|]. simpl in Hr.
  assert (p = Ok tt) as ->; [|by rw (Hr eq_refl)].
  apply (f_equal (fmap (λ x, x.1.1))) in Hrun. vm_compute in Hrun. by injection Hrun as <-.
Defined.

Lemma quorum_delete_gone_witness :
  ∃ r w', Quorum_delete trio [x03] BobMeta_stub all_up = Some (r, w') ∧
    own_gone (v := trio) [x03] w' "node_0" ∧ aliens_gone (v := trio) [x03] w' "node_2".
Proof.
  destruct (wp_total _ _ _ (quorum_delete_gone (W := CW trio) (P := False) trio_ok [x03] key_ok BobMeta_stub all_up))
    as (r & w' & Hrun & _ & _ & Hgone).
  exists r, w'. split; [done|].
  split; apply Hgone; [apply list_elem_of_In; vm_compute; tauto|done|apply list_elem_of_In; vm_compute; tauto|done].
Defined.

Lemma quorum_exist_correct_witness :
  ∃ found w', Quorum_exist trio [[x03]; [x04]] all_up = Some (Ok found, w') ∧ length found = 2%nat.
Proof.
  destruct (wp_total _ _ _ (quorum_exist_correct (W := CW trio) (P := False) trio_ok [[x03]; [x04]] ltac:(by repeat constructor) all_up))
    as (r & w' & Hrun & _ & found & -> & Hlen & _).
  eauto.
Defined.

Lemma group_by_nodes_partition_witness :
  ∃ loc primary secondary, group_by_nodes trio [[x03]; [x04]] = Some (loc, primary, secondary) ∧
    NoDup (nm_names primary ++ nm_names secondary).
Proof.
  destruct (group_by_nodes_partition trio trio_ok [[x03]; [x04]]) as (loc & p & s & Hrun & Hnd & _).
  exists loc, p, s. split; [exact Hrun|exact Hnd].
Defined.

Lemma drain_collect_spec_witness :
  let s : gset nat := {[1; 2; 3]}%nat in
  (2 ≤ size s)%nat ∧ length (drain_collect 2 s).1 = 2%nat.
Proof.
  intros s. assert (2 ≤ size s)%nat as Hs by (vm_compute; lia). split; [done|]. by apply (drain_collect_spec 2 s).
Defined.

(** *** The server *)

Lemma client_server_agree_witness :
  Server_put trio no_text no_metadata (put_message [x03] data_example (BobPutOptions_to_grpc BobPutOptions_new_local))
    (fresh_backend ["disk_0"] 1) =
  (r ← Grinder_put trio [x03] data_example BobPutOptions_new_local;
   mret (result_map_err Status_from_Error r.1, r.2)) (fresh_backend ["disk_0"] 1).
Proof.
  apply (proj1 (client_server_agree (W := MemBackend) (Authenticator0 := mem_authenticator) trio no_text no_metadata (fresh_backend ["disk_0"] 1)
    (fresh_backend ["disk_0"] 1) perm_all eq_refl eq_refl eq_refl)). apply key_ok.
Defined.

Lemma wrong_key_length_aborts_witness :
  let req := {| prq_key := Some [x03; x04]; prq_data := Some {| blob_data := [x01]; blob_meta := Some 7 |};
                prq_options := None |} in
  Server_put trio no_text no_metadata req (fresh_backend ["disk_0"] 1) = None.
Proof.
  intros req. by apply (wrong_key_length_aborts (W := MemBackend) (Authenticator0 := mem_authenticator) trio no_text no_metadata (fresh_backend ["disk_0"] 1)
    (fresh_backend ["disk_0"] 1) perm_all [x03; x04] _ 7 None).
Defined.

(** An authenticator that knows no one. *)
Definition denying : Authenticator MemBackend :=
  {| credentials_type := AuthBasic; check_grpc _ := mret (Err AE_UnauthorizedRequest) |}.

Lemma unauthorized_no_effect_witness :
  ∃ s, s = Status_from_AccessError AE_UnauthorizedRequest ∧ code s = CodeUnauthenticated ∧
    ∀ req, @Server_put _ MemBackend _ _ trio denying _ no_text no_metadata req (fresh_backend ["disk_0"] 1) =
      Some ((Err s, None), fresh_backend ["disk_0"] 1).
Proof.
  destruct (proj1 (@unauthorized_no_effect _ MemBackend _ _ _ denying _ trio no_text no_metadata _
    (fresh_backend ["disk_0"] 1) (fresh_backend ["disk_0"] 1) (Err AE_UnauthorizedRequest) eq_refl)) as (s & -> & _ & Hput & _);
    [done|].
  eexists. split; [reflexivity|]. split; [reflexivity|exact Hput].
Defined.
End witnesses.
