(* ===== verification/PearlUtils.v ===== *)
(** * PearlUtils: the start of a period, the names of the partitions, paths

    [bob-backend/src/pearl/utils.rs], and from [pearl/group.rs] the names of the
    directories of the holders ([PartitionName]) and the hash of the owner of a group.
    The calendar ([chrono]) and the digest ([sha2]) are parameters with the laws the code
    relies on. *)

From Corelib Require Import ssreflect.
From stdpp Require Import base option list strings numbers.
From Stdlib Require Import Strings.Byte Strings.Ascii ZArith Lia.
From S2P Require Import Prelude Data Text Errors Options Node ClusterConfig NodeConfig.

(** ** The calendar

    A date-time is its number of nanoseconds since the epoch; [dt_valid] is the range
    [chrono] supports. *)
Class Chrono := {
  dt_valid : Z → bool;
  (** [date().and_hms_opt(0, 0, 0)] *)
  midnight : Z → Z;
  (** [weekday().num_days_from_monday()] *)
  num_days_from_monday : Z → Z;
}.

Definition day_nanos : Z := 86400 * nanos_per_sec.
Definition week_nanos : Z := 7 * day_nanos.

Class ChronoLaws `{ConfigParsers, Chrono} : Prop := {
  from_std_eq : ∀ d p, chrono_from_std d = Some p → p = d;
  midnight_eq : ∀ t, midnight t = t - t mod day_nanos;
  weekday_eq : ∀ t, num_days_from_monday t = (t / day_nanos + 3) mod 7;
  (** The range is an interval that contains the years 1970 to 9999 and not much more
      than 262000 years on both sides. *)
  dt_valid_convex : ∀ a b c, a ≤ b ≤ c → dt_valid a = true → dt_valid c = true → dt_valid b = true;
  dt_valid_common : ∀ t, 0 ≤ t < 253402300800 * nanos_per_sec → dt_valid t = true;
  dt_valid_bound : ∀ t, dt_valid t = true → - (263000 * 366 * day_nanos) ≤ t ≤ 263000 * 366 * day_nanos;
}.

(** ** [utils.rs] *)

Record StartTimestampConfig : Type := { stc_round : bool }.
Definition StartTimestampConfig_default : StartTimestampConfig := {| stc_round := true |}.

Section start.
Context `{ConfigParsers, Chrono}.

(** Arithmetic on date-times aborts out of range. *)
Definition dt (t : Z) : option Z := if dt_valid t then Some t else None.

(** [i64 -> u64] of [try_into().unwrap()]. *)
Definition i64_to_u64 (t : Z) : option Z := if t <? 0 then None else Some t.
Definition u64_to_i64 (t : Z) : option Z := if t <? 2 ^ 63 then Some t else None.

(** The [while] loop; it does not end when [period] is zero. *)
Fixpoint start_loop (fuel : nat) (period time start_time : Z) : option Z :=
  match fuel with
  | O => None
  | S fuel' =>
      limit ← dt (start_time + period);
      if (start_time <=? time) && (time <? limit) then Some start_time
      else start_loop fuel' period time limit
  end.

(** Enough for a positive period: the start moves up to the time by [period]. *)
Definition start_fuel (period time start_time : Z) : nat := S (Z.to_nat ((time - start_time) / period)).

Definition get_start_timestamp (period time : Z) (config : StartTimestampConfig) : option Z :=
  if negb (stc_round config) then i64_to_u64 (time / nanos_per_sec)
  else
    start_time ←
      (if period <=? day_nanos then Some (midnight time)
       else if period <=? week_nanos then
         let time := midnight time in
         (* the subtraction of [u32] wraps *)
         dt (time - (num_days_from_monday time - 1) mod 2 ^ 32 * day_nanos)
       else None);
    start_time ← start_loop (start_fuel period time start_time) period time start_time;
    i64_to_u64 (start_time / nanos_per_sec).

Definition get_start_timestamp_by_std_time (period time : Z) (config : StartTimestampConfig) : option Z :=
  period ← chrono_from_std period;
  get_start_timestamp period time config.

Definition get_start_timestamp_by_timestamp (period time : Z) (config : StartTimestampConfig) : option Z :=
  period ← chrono_from_std period;
  time ← u64_to_i64 time;
  time ← dt (time * nanos_per_sec);
  get_start_timestamp period time config.
End start.

(** ** [PartitionName] *)

Record PartitionName : Type := { pn_timestamp : Z; pn_hash : string }.

Definition PartitionName_to_string (p : PartitionName) : string :=
  fmt_dec (pn_timestamp p) +:+ "_" +:+ pn_hash p.

Definition PartitionName_try_from_string (s : string) : option PartitionName :=
  match split_char "_"%char s with
  | [] => None
  | timestamp_string :: rest =>
      let hash_string := match rest with h :: _ => h | [] => EmptyString end in
      timestamp ← parse_u64 timestamp_string;
      Some {| pn_timestamp := timestamp; pn_hash := hash_string |}
  end.

(** ** The hash of the owner *)

Class Sha256 := { sha256 : list byte → list byte }.
Class Sha256Laws `{Sha256} : Prop := { length_sha256 : ∀ l, length (sha256 l) = 32%nat }.

Definition is_translation (i : Z) : bool :=
  ((47 <? i) && (i <? 58)) || ((64 <? i) && (i <? 91)) || ((96 <? i) && (i <? 123)) || (i =? 45) || (i =? 43).

Definition ASCII_TRANSLATION : list Z := filter (λ i, is_translation i = true) (Z.of_nat <$> seq 0 256).

(** The letter of six bits; [None] is an index out of range. *)
Definition translate (i : Z) : option Z := ASCII_TRANSLATION !! Z.to_nat i.

Definition hex_first (b0 : Z) : Z := Z.shiftr b0 2.
Definition hex_second (b0 b1 : Z) : Z :=
  Z.lor (Z.land (Z.shiftl b0 4 mod 256) 48) (Z.shiftr b1 4).
Definition hex_third (b1 b2 : Z) : Z :=
  Z.lor (Z.land b1 15) (Z.land (Z.shiftr b2 2) 48).
Definition hex_fourth (b2 : Z) : Z := Z.land b2 63.

(** The letters of one group of at most three bytes. *)
Definition hex_group (bytes : list byte) : option (list Z) :=
  match byte_val <$> bytes with
  | [] => Some []
  | [b0] => mapM translate [hex_first b0; hex_second b0 0]
  | [b0; b1] => mapM translate [hex_first b0; hex_second b0 b1; hex_third b1 0]
  | b0 :: b1 :: b2 :: _ => mapM translate [hex_first b0; hex_second b0 b1; hex_third b1 b2; hex_fourth b2]
  end.

(** [for i in (0..hash.len()).step_by(3)] *)
Fixpoint hex_groups (hash : list byte) : option (list Z) :=
  match hash with
  | b0 :: b1 :: b2 :: rest => h ← hex_group [b0; b1; b2]; t ← hex_groups rest; Some (h ++ t)
  | bytes => hex_group bytes
  end.

(** The text of bytes below 128. *)
Definition string_of_bytes (l : list Z) : string := String.string_of_list_ascii ((λ i, ascii_of_N (Z.to_N i)) <$> l).

Definition bytes_of_text (s : string) : list byte :=
  (λ c, default x00 (Byte.of_N (N_of_ascii c))) <$> String.list_ascii_of_string s.

Definition get_owner_node_hash `{Sha256} (owner_node_identifier : string) (hash_chars_count : Z) : option string :=
  hex ← hex_groups (sha256 (bytes_of_text owner_node_identifier));
  Some (string_of_bytes (take (Z.to_nat hash_chars_count) hex)).

(** ** Paths *)

Definition ends_with_sep (p : string) : bool :=
  match String.get (String.length p - 1) p with Some c => bool_decide (c = "/"%char) | None => false end.

(** [PathBuf::push] *)
Definition path_push (p x : string) : string :=
  if is_prefix "/" x then x
  else if bool_decide (p = EmptyString) || ends_with_sep p then p +:+ x
  else p +:+ "/" +:+ x.

(** [Path::file_name] *)
Definition path_components (p : string) : list string :=
  filter (λ c, c ≠ EmptyString ∧ c ≠ ".") (split_char "/"%char p).
Definition path_file_name (p : string) : option string :=
  name ← list.last (path_components p);
  if bool_decide (name = "..") then None else Some name.

(** ** Lemmas: the start of a period *)

Section start_laws.
Context `{ChronoLaws}.
#[local] Set Default Proof Using "Type*".

Lemma dt_between a b c : a ≤ b ≤ c → dt_valid a = true → dt_valid c = true → dt b = Some b.
Proof. intros Hb Ha Hc. by rw /dt (dt_valid_convex a b c). Qed.

Lemma dt_common t : 0 ≤ t < 253402300800 * nanos_per_sec → dt t = Some t.
Proof. intros Ht. by rw /dt dt_valid_common. Qed.

(** The loop stops at the only point congruent to its start whose period covers the time. *)
Lemma start_loop_spec fuel period time start :
  0 < period → start ≤ time → dt_valid start = true → dt_valid (time + period) = true →
  (Z.to_nat ((time - start) / period) < fuel)%nat →
  ∃ s, start_loop fuel period time start = Some s ∧ s ≤ time < s + period ∧ start ≤ s ∧
       (s - start) mod period = 0.
Proof.
  intros Hp. revert start. induction fuel as [|fuel IH]; intros start Hle Hs Ht Hf; [lia|].
  simpl. rw (dt_between start (start + period) (time + period)); [lia|done..|]. simpl.
  rw (proj2 (Z.leb_le start time) Hle). simpl.
  destruct (Z.ltb_spec time (start + period)) as [Hlt|Hge].
  - exists start. split_and!; [done|lia..|]. by rw Z.sub_diag.
  - assert ((time - start) / period = (time - (start + period)) / period + 1) as Hdiv.
    { rw -Z.div_add; [lia|]. f_equal. lia. }
    assert (0 ≤ (time - (start + period)) / period) as Hpos by (apply Z.div_pos; lia).
    destruct (IH (start + period)) as (s & -> & Hst & Hle' & Hmod); [lia| |done|lia|].
    { apply (dt_valid_convex start _ (time + period)); [lia|done..]. }
    exists s. split_and!; [done|lia..|].
    replace (s - start) with (s - (start + period) + 1 * period) by lia.
    by rw Z.mod_add; [lia|].
Qed.

Lemma midnight_bounds t : midnight t ≤ t < midnight t + day_nanos.
Proof.
  rw midnight_eq. pose proof (Z.mod_pos_bound t day_nanos) as Hb. rw /day_nanos /nanos_per_sec in Hb |- *. lia.
Qed.

Lemma midnight_nonneg t : 0 ≤ t → 0 ≤ midnight t.
Proof.
  intros Ht. rw midnight_eq. pose proof (Z.mod_le t day_nanos Ht) as Hle.
  rw /day_nanos /nanos_per_sec in Hle |- *. lia.
Qed.

(** Whole seconds: flooring both ends of an interval of whole seconds. *)
Lemma floor_interval s t p :
  p mod nanos_per_sec = 0 → s mod nanos_per_sec = 0 → s ≤ t * nanos_per_sec < s + p →
  s / nanos_per_sec ≤ t < s / nanos_per_sec + p / nanos_per_sec.
Proof.
  rw /nanos_per_sec. intros Hp Hs Hb.
  pose proof (Z.div_mod s 1000000000 ltac:(done)). pose proof (Z.div_mod p 1000000000 ltac:(done)). lia.
Qed.

Lemma midnight_whole t : midnight t mod nanos_per_sec = 0.
Proof.
  rw midnight_eq. pose proof (Z.div_mod t day_nanos ltac:(done)) as Hd.
  replace (t - t mod day_nanos) with ((86400 * (t / day_nanos)) * nanos_per_sec).
  - apply Z.mod_mul. done.
  - set (r := t mod day_nanos) in *. rw /day_nanos in Hd |- *. lia.
Qed.

Definition is_monday (t : Z) : bool := num_days_from_monday (midnight (t * nanos_per_sec)) =? 0.

Lemma weekday_bounds t : 0 ≤ num_days_from_monday t < 7.
Proof. rw weekday_eq. by apply Z.mod_pos_bound. Qed.

#[local] Arguments start_fuel : simpl never.
#[local] Arguments start_loop : simpl never.

(** Where the loop starts. *)
Lemma start_from period t start :
  0 < period ≤ week_nanos → period mod nanos_per_sec = 0 → 0 ≤ t < 253402300800 - 7 * 86400 →
  0 ≤ start ≤ t * nanos_per_sec → start mod nanos_per_sec = 0 →
  ∃ s, (start_time ← start_loop (start_fuel period (t * nanos_per_sec) start) period (t * nanos_per_sec) start;
        i64_to_u64 (start_time / nanos_per_sec)) = Some s ∧
       s ≤ t < s + period / nanos_per_sec ∧ 0 ≤ s ∧ start / nanos_per_sec ≤ s.
Proof.
  intros Hp Hw Ht Hs Hsw. rw /week_nanos /day_nanos in Hp.
  destruct (start_loop_spec (start_fuel period (t * nanos_per_sec) start) period (t * nanos_per_sec) start)
    as (s & -> & Hst & Hle & Hmod).
  { lia. } { lia. }
  { apply dt_valid_common. rw /nanos_per_sec in Hs Hp |- *. lia. }
  { apply dt_valid_common. rw /nanos_per_sec in Hs Hp |- *. lia. }
  { rw /start_fuel. lia. }
  simpl. assert (s mod nanos_per_sec = 0) as Hsm.
  { apply Z.mod_divide in Hmod; [|lia]. apply Z.mod_divide in Hw; [|done]. apply Z.mod_divide in Hsw; [|done].
    apply Z.mod_divide; [done|]. replace s with ((s - start) + start) by lia.
    apply Z.divide_add_r; [|done]. by apply (Z.divide_trans _ period). }
  exists (s / nanos_per_sec). rw /i64_to_u64.
  assert (0 ≤ s / nanos_per_sec) as Hpos by (apply Z.div_pos; [lia|done]).
  destruct (Z.ltb_spec (s / nanos_per_sec) 0); [lia|].
  split_and!; [done| | |done|by apply Z.div_le_mono].
  all: apply (floor_interval s t period); done.
Qed.

Lemma start_timestamp_run period t :
  chrono_from_std period = Some period → 0 < period ≤ week_nanos → period mod nanos_per_sec = 0 →
  7 * 86400 ≤ t < 253402300800 - 7 * 86400 → period ≤ day_nanos ∨ is_monday t = false →
  ∃ s, get_start_timestamp_by_timestamp period t StartTimestampConfig_default = Some s ∧
    s ≤ t < s + period / nanos_per_sec ∧ 0 ≤ s.
Proof.
  intros Hstd Hp Hw Ht Hcase.
  assert (0 ≤ t * nanos_per_sec < 253402300800 * nanos_per_sec) as Htn by (rw /nanos_per_sec; lia).
  pose proof (midnight_bounds (t * nanos_per_sec)) as Hmb.
  pose proof (midnight_whole (t * nanos_per_sec)) as Hmw.
  rw /get_start_timestamp_by_timestamp Hstd /u64_to_i64.
  destruct (Z.ltb_spec t (2 ^ 63)); [|lia].
  simpl. rw dt_common //. simpl. rw /get_start_timestamp /=.
  destruct (Z.leb_spec period day_nanos) as [Hday|Hday]; simpl.
  - destruct (start_from period t (midnight (t * nanos_per_sec))) as (s & Hs & Hb & Hpos & _); [done|done|lia| |done|].
    + split; [|lia]. apply midnight_nonneg. lia.
    + exists s. split_and!; [done|lia..].
  - destruct Hcase as [?|Hmon]; [lia|].
    destruct (Z.leb_spec period week_nanos); [|lia]. simpl.
    set (mid := midnight (t * nanos_per_sec)) in *.
    pose proof (weekday_bounds mid) as Hwd. rw /is_monday -/mid in Hmon. apply Z.eqb_neq in Hmon.
    rw Z.mod_small; [lia|].
    set (back := (num_days_from_monday mid - 1) * day_nanos).
    assert (0 ≤ back ≤ 5 * day_nanos) as Hback by (rw /back /day_nanos /nanos_per_sec; lia).
    assert (6 * day_nanos ≤ mid) as Hmid.
    { rw /mid midnight_eq. pose proof (Z.mod_pos_bound (t * nanos_per_sec) day_nanos ltac:(done)) as Hr.
      rw /day_nanos /nanos_per_sec in Hr |- *. lia. }
    rw (dt_common (mid - back)).
    { rw /day_nanos /nanos_per_sec in Hback Hmid Hmb Htn |- *. lia. }
    simpl. destruct (start_from period t (mid - back)) as (s & Hs & Hb & Hpos & _); [done|done|lia| | |].
    + rw /day_nanos /nanos_per_sec in Hback Hmid Hmb |- *. lia.
    + rw Zminus_mod Hmw. replace (back mod nanos_per_sec) with 0; [done|].
      rw /back /day_nanos. replace ((num_days_from_monday mid - 1) * (86400 * nanos_per_sec))
        with (((num_days_from_monday mid - 1) * 86400) * nanos_per_sec) by lia. by rw Z.mod_mul.
    + exists s. split_and!; [done|lia..].
Qed.

(** Whenever it answers, the partition has the time, whatever the rounding. *)
Lemma start_loop_bounds fuel period time start s :
  start_loop fuel period time start = Some s →
  s ≤ time < s + period ∧ ∃ k, s = start + k * period.
Proof.
  revert start. induction fuel as [|fuel IH]; intros start; [done|].
  change (start_loop (S fuel) period time start) with
    (limit ← dt (start + period);
     if (start <=? time) && (time <? limit) then Some start else start_loop fuel period time limit).
  rw /dt. destruct (dt_valid (start + period)); [|done]. simpl.
  destruct ((start <=? time) && (time <? start + period)) eqn:Hb.
  - intros [= <-]. apply andb_true_iff in Hb as [H1b H2b]. split; [lia|]. exists 0. lia.
  - intros Hs. destruct (IH _ Hs) as (Hst & k & ->). split; [done|]. exists (k + 1). lia.
Qed.

Lemma start_timestamp_covers period t config s :
  0 < period → period mod nanos_per_sec = 0 → 0 ≤ t →
  get_start_timestamp_by_timestamp period t config = Some s →
  0 ≤ s ∧ s ≤ t < s + period / nanos_per_sec ∧ t < 2 ^ 63.
Proof.
  intros Hp Hw Ht. rw /get_start_timestamp_by_timestamp.
  destruct (chrono_from_std period) as [p'|] eqn:Hstd; [|done]. apply from_std_eq in Hstd as ->.
  rw /u64_to_i64. destruct (Z.ltb_spec t (2 ^ 63)) as [Hlt|]; [|done].
  rw {1}/dt /=. destruct (dt_valid (t * nanos_per_sec)); [|done]. simpl.
  assert (period / nanos_per_sec * nanos_per_sec = period) as Hdiv.
  { pose proof (Z.div_mod period nanos_per_sec ltac:(done)). lia. }
  assert (1 ≤ period / nanos_per_sec) as Hone by (rw /nanos_per_sec in Hdiv Hp |- *; lia).
  rw /get_start_timestamp. destruct (stc_round config); simpl.
  - intros Hs. set (time := t * nanos_per_sec) in *.
    assert (∃ start, start mod nanos_per_sec = 0 ∧ (start_time ← start_loop (start_fuel period time start) period time start;
              i64_to_u64 (start_time / nanos_per_sec)) = Some s) as (start & Hwhole & Hrun).
    { pose proof (midnight_whole time) as Hmw. destruct (period <=? day_nanos); [by exists (midnight time)|].
      destruct (period <=? week_nanos); [|done]. revert Hs. set (n := (num_days_from_monday (midnight time) - 1) mod 2 ^ 32).
      rw /dt. destruct (dt_valid (midnight time - n * day_nanos)); [|done]. simpl. intros Hs.
      exists (midnight time - n * day_nanos). split; [|done]. rw Zminus_mod Hmw.
      replace (n * day_nanos) with ((n * 86400) * nanos_per_sec) by (rw /day_nanos; lia). by rw Z.mod_mul. }
    destruct (start_loop _ _ _ _) as [s0|] eqn:Hloop; [|done]. simpl in Hrun.
    apply start_loop_bounds in Hloop as (Hb & n & ->).
    rw /i64_to_u64 in Hrun. destruct (Z.ltb_spec ((start + n * period) / nanos_per_sec) 0); [done|].
    injection Hrun as <-. split; [done|]. split; [|done].
    apply (floor_interval _ t period); [done| |exact Hb].
    rw Z.add_mod; [done|]. rw Z.mul_mod; [done|]. rw Hw Hwhole Z.mul_0_r. done.
  - rw Z.div_mul; [done|]. rw /i64_to_u64. destruct (Z.ltb_spec t 0); [done|]. intros [= <-]. lia.
Qed.

(** On a Monday the number of days to go back wraps around, and leaves the calendar. *)
Lemma start_timestamp_monday period t :
  chrono_from_std period = Some period → day_nanos < period → 0 ≤ t → is_monday t = true →
  get_start_timestamp_by_timestamp period t StartTimestampConfig_default = None.
Proof.
  intros Hstd Hp Ht Hmon. rw /get_start_timestamp_by_timestamp Hstd /u64_to_i64.
  destruct (t <? 2 ^ 63); [|done]. simpl. rw {1}/dt.
  destruct (dt_valid (t * nanos_per_sec)) eqn:Hv; [|done]. simpl. rw /get_start_timestamp /=.
  destruct (Z.leb_spec period day_nanos); [lia|].
  destruct (Z.leb_spec period week_nanos); [|done].
  apply Z.eqb_eq in Hmon. rw Hmon /=. set (mid := midnight (t * nanos_per_sec)).
  change ((0 - 1) mod 2 ^ 32) with 4294967295.
  rw /dt. destruct (dt_valid (mid - 4294967295 * day_nanos)) eqn:Hv'; [|done]. exfalso.
  apply dt_valid_bound in Hv', Hv. pose proof (midnight_bounds (t * nanos_per_sec)) as Hb.
  rw -/mid /day_nanos /nanos_per_sec in Hb Hv Hv'. lia.
Qed.
End start_laws.

(** ** Lemmas: partition names *)

Lemma split_partition ts hash :
  0 ≤ ts → no_sep "_"%char hash → split_char "_"%char (fmt_dec ts +:+ "_" +:+ hash) = [fmt_dec ts; hash].
Proof.
  intros Hts Hh. rw /split_char split_go_app.
  - apply dec_go_no_sep; [done|done|]. by intros [|i] c.
  - change (fmt_dec ts :: split_go "_" hash EmptyString = [fmt_dec ts; hash]). f_equal.
    pose proof (split_go_app "_"%char hash EmptyString EmptyString Hh) as Hs. by rw append_nil_r in Hs.
Qed.

Lemma partition_parse p :
  u64 (pn_timestamp p) → no_sep "_"%char (pn_hash p) →
  PartitionName_try_from_string (PartitionName_to_string p) = Some p.
Proof.
  intros Hts Hh. destruct p as [ts hash]. rw /u64 /= in Hts. simpl in Hh.
  rw /PartitionName_try_from_string /PartitionName_to_string /=.
  rw split_partition; [lia|done|]. rw /parse_u64.
  assert (parse_uint (2 ^ 64) (fmt_dec ts) = Some ts) as -> by (apply parse_fmt_dec; lia). done.
Qed.

(** ** Lemmas: the hash of the owner *)

(** The letters of a hash: digits, letters, [+] and [-]. *)
Definition hash_letter (i : Z) : Prop := is_translation i = true ∧ 0 ≤ i < 128.

Lemma translate_spec i : 0 ≤ i < 64 → ∃ c, translate i = Some c ∧ hash_letter c.
Proof.
  intros Hi. rw /translate.
  assert (Forall (λ c, is_translation c = true ∧ 0 ≤ c < 128) ASCII_TRANSLATION) as Hall.
  { vm_compute. repeat constructor; done. }
  destruct (ASCII_TRANSLATION !! Z.to_nat i) as [c|] eqn:Hc.
  - exists c. split; [done|]. by apply (Forall_lookup_1 _ _ _ _ Hall Hc).
  - apply lookup_ge_None_1 in Hc. change (length ASCII_TRANSLATION) with 64%nat in Hc. lia.
Qed.

Lemma lor_six x y : 0 ≤ x < 64 → 0 ≤ y < 64 → 0 ≤ Z.lor x y < 64.
Proof.
  intros Hx Hy. pose proof (Z.lor_nonneg x y) as [_ Hnn]. split; [apply Hnn; lia|].
  destruct (Z.eq_dec (Z.lor x y) 0) as [->|Hne]; [done|].
  assert (∀ z, 0 ≤ z < 64 → Z.log2 z < 6) as Hlog.
  { intros z Hz. destruct (Z.eq_dec z 0) as [->|]; [done|]. apply Z.log2_lt_pow2; [lia|].
    change (2 ^ 6) with 64. lia. }
  change 64 with (2 ^ 6). apply Z.log2_lt_pow2; [specialize (Hnn ltac:(lia)); lia|].
  rw Z.log2_lor; [lia..|]. by apply Z.max_lub_lt; apply Hlog.
Qed.

Lemma land_six x y : 0 ≤ x → 0 ≤ y < 64 → 0 ≤ Z.land x y < 64.
Proof.
  intros Hx Hy. split; [apply Z.land_nonneg; lia|].
  pose proof (N.land_le_r (Z.to_N x) (Z.to_N y)) as Hle.
  rw -(Z2N.id x); [lia|]. rw -{1}(Z2N.id y); [lia|]. rw -N2Z.inj_land. lia.
Qed.

Lemma shiftr_six b k : 0 ≤ b < 256 → 2 ≤ k → 0 ≤ Z.shiftr b k < 64.
Proof.
  intros Hb Hk. rw Z.shiftr_div_pow2; [lia|]. split; [apply Z.div_pos; lia|].
  apply Z.div_lt_upper_bound; [lia|]. assert (2 ^ 2 ≤ 2 ^ k) by (apply Z.pow_le_mono_r; lia). lia.
Qed.

Lemma mapM_translate l : Forall (λ i, 0 ≤ i < 64) l →
  ∃ h, mapM translate l = Some h ∧ Forall hash_letter h ∧ length h = length l.
Proof.
  induction 1 as [|i l Hi _ IH]; [by exists []|].
  destruct (translate_spec i Hi) as (c & Hc & Hl). destruct IH as (h & Hh & Hall & Hlen).
  exists (c :: h). simpl. rw Hc /= Hh /=. split_and!; [done|by constructor|lia].
Qed.

Lemma hex_group_spec bytes :
  ∃ h, hex_group bytes = Some h ∧ Forall hash_letter h ∧
       length h = match length bytes with 0 => 0 | 1 => 2 | 2 => 3 | _ => 4 end%nat.
Proof.
  rw /hex_group. destruct bytes as [|b0 [|b1 [|b2 rest]]]; simpl fmap.
  1: by exists [].
  all: apply mapM_translate; repeat constructor;
    rw /hex_first /hex_second /hex_third /hex_fourth;
    repeat first [apply lor_six|apply land_six|apply shiftr_six]; try lia;
    try apply byte_val_bounds; try (apply Z.shiftr_nonneg; apply byte_val_bounds);
    try apply Z.mod_pos_bound; try (by apply (proj1 (byte_val_bounds _))).
  all: done.
Qed.

Lemma hex_groups_spec hash :
  ∃ h, hex_groups hash = Some h ∧ Forall hash_letter h ∧
       length h = ((4 * length hash + 2) / 3)%nat.
Proof.
  enough (∀ n hash, (length hash ≤ n)%nat → ∃ h, hex_groups hash = Some h ∧ Forall hash_letter h ∧
            length h = ((4 * length hash + 2) / 3)%nat) as Hgen by eauto.
  clear hash. intros n. induction n as [|n IH]; intros hash Hle.
  { destruct hash; [|simpl in Hle; lia]. by exists []. }
  destruct hash as [|b0 [|b1 [|b2 rest]]].
  1-3: match goal with |- context [hex_groups ?l] =>
         change (hex_groups l) with (hex_group l); destruct (hex_group_spec l) as (h & -> & Hl & Hlen) end;
       exists h; split_and!; [done..|]; by rw Hlen.
  destruct (hex_group_spec [b0; b1; b2]) as (h & Hh & Hl & Hlen).
  destruct (IH rest) as (r & Hr & Hrl & Hrlen); [simpl in Hle; lia|].
  exists (h ++ r). simpl hex_groups. rw Hh /= Hr /=. split_and!; [done|by apply Forall_app|].
  simpl in Hlen. rw length_app Hlen Hrlen.
  pose proof (Nat.div_add (4 * length rest + 2) 4 3 ltac:(done)) as Hd.
  replace (S (S (S (length rest + 3 * S (S (S (length rest))) + 2))))%nat with (4 * length rest + 2 + 4 * 3)%nat by lia.
  rw Hd. apply Nat.add_comm.
Qed.

Lemma string_of_letters l :
  Forall hash_letter l → no_sep "_"%char (string_of_bytes l) ∧ String.length (string_of_bytes l) = length l.
Proof.
  induction 1 as [|c l [Hc Hb] _ [IH IHl]]; [by split; [intros [|i] c'|]|].
  split; [|by simpl; f_equal].
  intros [|i] c'; simpl; [|apply IH]. intros [= <-] Heq.
  assert (byte_of_char (ascii_of_N (Z.to_N c)) = byte_of_char "_"%char) as Hv by (by rw Heq).
  rw /byte_of_char N_ascii_embedding in Hv; [lia|]. rw Z2N.id in Hv; [lia|].
  change (byte_of_char "_") with 95 in Hv. rw Hv in Hc. done.
Qed.

Section hash.
Context `{Sha256Laws}.

Lemma owner_hash_run owner count :
  0 ≤ count → ∃ hash, get_owner_node_hash owner count = Some hash ∧
    String.length hash = (Z.to_nat count `min` 43)%nat ∧ no_sep "_"%char hash.
Proof using Type*.
  intros Hc. rw /get_owner_node_hash.
  destruct (hex_groups_spec (sha256 (bytes_of_text owner))) as (h & Hh & Hl & Hlen). rw Hh /=.
  exists (string_of_bytes (take (Z.to_nat count) h)). split; [done|].
  destruct (string_of_letters (take (Z.to_nat count) h)) as [Hn Hlen']; [by apply Forall_take|].
  split; [|done]. rw Hlen' length_take Hlen length_sha256. done.
Qed.
End hash.

(** ** Theorems *)

(** C39: A partition starts at or before the time it is created for and ends after it,
    for every whole-second period of at most a day on every day, and of at most a week on
    every day but a Monday.  On a Monday a period of more than a day aborts the process. *)
Theorem start_timestamp_spec `{ChronoLaws} period t :
  chrono_from_std period = Some period → 0 < period ≤ week_nanos → period mod nanos_per_sec = 0 →
  7 * 86400 ≤ t < 253402300800 - 7 * 86400 →
  if (period <=? day_nanos) || negb (is_monday t)
  then ∃ s, get_start_timestamp_by_timestamp period t StartTimestampConfig_default = Some s ∧
         0 ≤ s ∧ s ≤ t < s + period / nanos_per_sec
  else get_start_timestamp_by_timestamp period t StartTimestampConfig_default = None.
Proof.
  intros Hstd Hp Hw Ht. destruct (Z.leb_spec period day_nanos) as [Hday|Hday]; simpl.
  - destruct (start_timestamp_run period t) as (s & Hs & Hb & Hpos); auto. by exists s.
  - destruct (is_monday t) eqn:Hmon; simpl.
    + apply start_timestamp_monday; auto; lia.
    + destruct (start_timestamp_run period t) as (s & Hs & Hb & Hpos); auto. by exists s.
Qed.

(** The name of the directory of a holder, whose hash is the hash of an owner, parses
    back to the same timestamp and hash. *)
Theorem partition_name_roundtrip `{Sha256Laws} owner count ts :
  0 ≤ count → u64 ts →
  ∃ hash, get_owner_node_hash owner count = Some hash ∧
    String.length hash = (Z.to_nat count `min` 43)%nat ∧
    PartitionName_try_from_string (PartitionName_to_string {| pn_timestamp := ts; pn_hash := hash |}) =
      Some {| pn_timestamp := ts; pn_hash := hash |}.
Proof.
  intros Hc Hts. destruct (owner_hash_run owner count Hc) as (hash & Hh & Hlen & Hsep).
  exists hash. split_and!; [done..|]. by apply partition_parse.
Qed.

(** ** Examples *)

(** The proleptic Gregorian calendar of [chrono], around the year 1970. *)
Definition Chrono_example : Chrono := {|
  dt_valid := λ t, (- (262000 * 365 * day_nanos) <=? t) && (t <=? 262000 * 365 * day_nanos);
  midnight := λ t, t - t mod day_nanos;
  num_days_from_monday := λ t, (t / day_nanos + 3) mod 7;
|}.

Definition Parsers_example : ConfigParsers := {|
  parse_duration := λ s, if decide (s = "1d") then Ok day_nanos else Ok (100 * 1000000);
  parse_socket_addr := λ _, Ok tt;
  chrono_from_std := λ d, if d <=? (2 ^ 63 - 1) * 1000000 then Some d else None;
  chrono_display := λ _, EmptyString;
|}.

Lemma Chrono_example_laws : @ChronoLaws Parsers_example Chrono_example.
Proof.
  split; [intros d p; simpl; case_match; congruence|done..| | |]; simpl.
  - intros a b c Hb [Ha _]%andb_true_iff [_ Hc]%andb_true_iff. apply andb_true_iff. split; lia.
  - intros t Ht. rw /day_nanos /nanos_per_sec in Ht |- *. apply andb_true_iff. split; lia.
  - intros t [Ha Hb]%andb_true_iff. rw /day_nanos /nanos_per_sec in Ha Hb |- *. lia.
Qed.

Definition Sha256_example : Sha256 := {| sha256 := λ _, replicate 32 xff |}.

(** A Friday and a Monday in July 2023. *)
Example friday_start :
  @get_start_timestamp_by_timestamp Parsers_example Chrono_example day_nanos 1690000000
    StartTimestampConfig_default = Some 1689984000.
Proof. vm_compute. reflexivity. Qed.

Example monday_aborts :
  @get_start_timestamp_by_timestamp Parsers_example Chrono_example week_nanos 1690200000
    StartTimestampConfig_default = None.
Proof. vm_compute. reflexivity. Qed.

Lemma start_timestamp_spec_witness :
  ∃ s, @get_start_timestamp_by_timestamp Parsers_example Chrono_example day_nanos 1690000000
         StartTimestampConfig_default = Some s ∧
    0 ≤ s ∧ s ≤ 1690000000 < s + day_nanos / nanos_per_sec.
Proof.
  apply (@start_timestamp_spec Parsers_example Chrono_example Chrono_example_laws day_nanos 1690000000);
    vm_compute; split; congruence || reflexivity.
Defined.

Lemma partition_name_roundtrip_witness :
  ∃ hash, @get_owner_node_hash Sha256_example "anode" 10 = Some hash ∧
    String.length hash = (Z.to_nat 10 `min` 43)%nat ∧
    PartitionName_try_from_string (PartitionName_to_string {| pn_timestamp := 1689984000; pn_hash := hash |}) =
      Some {| pn_timestamp := 1689984000; pn_hash := hash |}.
Proof.
  apply (@partition_name_roundtrip Sha256_example); [by split|done|by rw /u64].
Defined.
