(* ===== verification/PearlWorld.v ===== *)
(** * PearlWorld: the data of the Pearl storage and the store it lives in

    [bob-backend/src/pearl]: the structs [Settings], [Holder], [PearlSync], [Group],
    [DiskController], [Pearl] and the hooks, and the world their operations run in.

    A [Holder], the containers of a [Group] and a [DiskController] are shared through
    [Arc], so they are handles into a store: clones of a handle see one cell.  The
    [pearl] crate (files of blobs and [HierarchicalFilters]), the file system and the
    clock are the class [PearlCrate]. *)

From Corelib Require Import ssreflect.
From stdpp Require Import base option list strings gmap numbers.
From Stdlib Require Import Strings.Byte ZArith Lia.
From S2P Require Import Prelude Data Text Errors Options Node ClusterConfig NodeConfig Mapper Backend PearlUtils.

(** ** Errors of the crate, of the file system and of [anyhow] *)

Inductive IOErrorKind : Type := IOPermissionDenied | IOOther | IOAnotherKind.

(** The kinds of a [pearl::Error] the code tells apart. *)
Inductive PearlErrorKind : Type := WorkDirUnavailable | ValidationBlobVersion | PearlAnotherKind.

Inductive AnyError : Type :=
| AnyPearl (kind : PearlErrorKind) (text : string)
| AnyIo (kind : IOErrorKind) (text : string)
| AnyBob (e : Error)
| AnyForeign (text : string).

Definition any_text (e : AnyError) : string :=
  match e with
  | AnyPearl _ text | AnyIo _ text | AnyForeign text => text
  | AnyBob e => Error_display e
  end.

(** [pearl::ReadResult] *)
Inductive ReadResult (A : Type) : Type :=
| Found (a : A)
| Deleted (ts : Z)
| NotFound.
Arguments Found {A} a.
Arguments Deleted {A} ts.
Arguments NotFound {A}.

(** What the code reads of an entry of a directory; [None] is not UTF-8, or no metadata.
    [de_debug] is its path as [{:?}] prints it. *)
Record DirEntry : Type := { de_file_name : option string; de_is_dir : option bool; de_debug : string }.

(** The builder of a [pearl::Storage]. *)
Record PearlBuilder : Type := {
  pb_work_dir : string;
  pb_allow_duplicates : bool;
  pb_blob_file_name_prefix : string;
  pb_max_data_in_blob : Z;
  pb_max_blob_size : Z;
  pb_max_dirty_bytes_before_sync : Z;
  pb_max_buf_bits_count : option Z;
  pb_validate_data_during_index_regen : bool;
}.

(** ** Settings *)

Record Settings : Type := {
  se_bob_prefix_path : string;
  se_alien_folder : string;
  se_timestamp_period : Z;
  se_config : PearlConfig;
  se_mapper : Virtual;
  se_holder_group_size : Z;
}.

(** ** Handles

    [h_id] and [g_id] stand for the [Arc]s of a holder and of a group; the other fields do
    not change. *)

Record Holder : Type := {
  h_id : nat;
  start_timestamp : Z;
  end_timestamp : Z;
  h_vdisk : VDiskId;
  disk_path : string;
  h_config : PearlConfig;
}.

(** A clone of a group shares its holders and its lock, and has its own
    [safe_timestamp_step]. *)
Record Group : Type := {
  g_id : nat;
  g_settings : Settings;
  directory_path : string;
  g_vdisk_id : VDiskId;
  g_node_name : NodeName;
  g_disk_name : DiskName;
  owner_node_identifier : string;
  safe_timestamp_step : option Z;
}.

Inductive GroupsState : Type := DiskNotReady | DiskInitialized | DiskReady.

#[global] Instance GroupsState_eq_dec : EqDecision GroupsState.
Proof. solve_decision. Defined.

Record DiskController : Type := {
  dc_id : nat;
  dc_disk : DiskPath;
  dc_vdisks : list VDiskId;
  dc_node_name : NodeName;
  dc_settings : Settings;
  dc_is_alien : bool;
}.

Record Pearl : Type := {
  p_disk_controllers : list DiskController;
  p_alien_disk_controller : DiskController;
  p_bloom_filter_memory_limit : option Z;
}.

(** [hooks.rs]: a holder as the set of the hooks sees it. *)
Record SimpleHolder : Type := { sh_storage : nat; sh_timestamp : Z }.

(** ** The [pearl] crate, the file system and the clock *)

Class PearlCrate := {
  Disk : Type;
  PearlStorage : Type;
  Filter : Type;
  (** The clocks: nanoseconds of [SystemTime], seconds of [coarsetime]. *)
  pe_now : Disk → Z * Disk;
  pe_coarse_now : Disk → Z * Disk;
  (** The file system. *)
  fs_exists : string → Disk → bool;
  fs_create_dir_all : string → Disk → result unit (IOErrorKind * string) * Disk;
  fs_remove_file : string → Disk → result unit (IOErrorKind * string) * Disk;
  fs_remove_dir_all : string → Disk → result unit (IOErrorKind * string) * Disk;
  (** The entries in the order they are read; each may be an error. *)
  fs_read_dir : string → Disk → result (list (result DirEntry string)) (IOErrorKind * string);
  (** [pearl::Storage]. *)
  pe_build : PearlBuilder → Disk → result PearlStorage AnyError * Disk;
  pe_init : PearlStorage → Disk → result unit AnyError * Disk;
  pe_init_lazy : PearlStorage → Disk → result unit AnyError * Disk;
  pe_write : PearlStorage → list byte → list byte → Z → Disk → result unit AnyError * Disk;
  pe_read : PearlStorage → list byte → Disk → result (ReadResult (list byte)) AnyError * Disk;
  pe_contains : PearlStorage → list byte → Disk → result (ReadResult Z) AnyError * Disk;
  pe_delete : PearlStorage → list byte → Z → bool → Disk → result Z AnyError * Disk;
  pe_close : PearlStorage → Disk → result unit AnyError * Disk;
  pe_fsyncdata : PearlStorage → Disk → result unit AnyError * Disk;
  pe_close_active_blob_in_background : PearlStorage → Disk → Disk;
  pe_free_excess_resources : PearlStorage → Disk → Z * Disk;
  pe_offload_buffer : PearlStorage → Z → nat → Disk → Z * Disk;
  pe_blobs_count : PearlStorage → Disk → Z;
  pe_corrupted_blobs_count : PearlStorage → Disk → Z;
  pe_active_index_memory : PearlStorage → Disk → Z;
  pe_inactive_index_memory : PearlStorage → Disk → Z;
  pe_index_memory : PearlStorage → Disk → Z;
  pe_records_count : PearlStorage → Disk → Z;
  pe_has_active_blob : PearlStorage → Disk → bool;
  pe_records_count_in_active_blob : PearlStorage → Disk → option Z;
  pe_filter_memory_allocated : PearlStorage → Disk → Z;
  pe_disk_used : PearlStorage → Disk → Z;
  pe_check_filter : PearlStorage → list byte → Disk → bool;
  pe_get_filter : PearlStorage → Disk → option Filter;
  (** [pearl::HierarchicalFilters] over holders: the filter of a holder is what its
      implementation of [BloomProvider] answers. *)
  HoldersContainer : Type;
  hf_new : Z → nat → HoldersContainer;
  hf_iter : HoldersContainer → list Holder;
  hf_len : HoldersContainer → nat;
  hf_get_child : HoldersContainer → nat → option Holder;
  hf_possible_childs_rev : HoldersContainer → list byte → list Holder;
  hf_add_to_parents : nat → list byte → HoldersContainer → HoldersContainer;
  hf_push : (Holder → option Filter) → Holder → HoldersContainer → nat * HoldersContainer;
  hf_extend : (Holder → option Filter) → list Holder → HoldersContainer → HoldersContainer;
  hf_remove : nat → HoldersContainer → option Holder * HoldersContainer;
  hf_clear : HoldersContainer → HoldersContainer;
  hf_clear_and_get_values : HoldersContainer → list Holder * HoldersContainer;
  hf_reload : (Holder → option Filter) → HoldersContainer → HoldersContainer;
  hf_filter_memory : (Holder → Z) → HoldersContainer → Z;
}.

(** ** The store *)

Section world.
Context `{PearlCrate}.

Inductive PearlState : Type :=
| Initializing
| Running (storage : PearlStorage).

Record PearlSync : Type := { ps_state : PearlState }.

Definition PearlSync_default : PearlSync := {| ps_state := Initializing |}.

Definition PearlSync_get (p : PearlSync) : option PearlStorage :=
  match ps_state p with Initializing => None | Running storage => Some storage end.

Definition PearlSync_is_ready (p : PearlSync) : bool :=
  match ps_state p with Running _ => true | Initializing => false end.

Definition PearlSync_set_ready (storage : PearlStorage) : M PearlSync (result unit Error) :=
  p ← gets id;
  if PearlSync_is_ready p
  then mret (Err (failed "Pearl storage already initialized. Please, close previous before"))
  else _ ← modify (λ _, {| ps_state := Running storage |}); mret (Ok tt).

Definition PearlSync_reset : M PearlSync (option PearlStorage) :=
  prev_state ← gets ps_state;
  _ ← modify (λ _, {| ps_state := Initializing |});
  mret (match prev_state with Initializing => None | Running storage => Some storage end).

(** The mutable part of a holder: [init_protection] is free or taken. *)
Record HolderCell : Type := {
  hc_storage : PearlSync;
  hc_last_modification : Z;
  hc_init_free : bool;
}.

Definition HolderCell_new : HolderCell :=
  {| hc_storage := PearlSync_default; hc_last_modification := 0; hc_init_free := true |}.

(** [gc_reinit_free]: nobody holds [reinit_lock] for writing. *)
Record GroupCell : Type := {
  gc_holders : HoldersContainer;
  gc_reinit_free : bool;
}.

Record DcCell : Type := {
  dcc_groups : list Group;
  dcc_state : GroupsState;
  dcc_blobs_count_cached : Z;
}.

Definition DcCell_new : DcCell :=
  {| dcc_groups := []; dcc_state := DiskNotReady; dcc_blobs_count_cached := 0 |}.

(** [BloomFilterMemoryLimitHooks]; the set is sorted by timestamp. *)
Record Hooks : Type := {
  hk_holders : list SimpleHolder;
  hk_allocated_size : Z;
  hk_bloom_filter_memory_limit : option Z;
}.

Definition Hooks_new (limit : option Z) : Hooks :=
  {| hk_holders := []; hk_allocated_size := 0; hk_bloom_filter_memory_limit := limit |}.

Record PearlWorld : Type := {
  pw_disk : Disk;
  pw_holders : gmap nat HolderCell;
  pw_groups : gmap nat GroupCell;
  pw_dcs : gmap nat DcCell;
  pw_hooks : Hooks;
  pw_fresh : nat;
}.

(** *** Steps on one part of the store *)

Definition set_disk (d : Disk) (w : PearlWorld) : PearlWorld := {|
  pw_disk := d; pw_holders := pw_holders w; pw_groups := pw_groups w; pw_dcs := pw_dcs w;
  pw_hooks := pw_hooks w; pw_fresh := pw_fresh w |}.
Definition set_holders (m : gmap nat HolderCell) (w : PearlWorld) : PearlWorld := {|
  pw_disk := pw_disk w; pw_holders := m; pw_groups := pw_groups w; pw_dcs := pw_dcs w;
  pw_hooks := pw_hooks w; pw_fresh := pw_fresh w |}.
Definition set_groups (m : gmap nat GroupCell) (w : PearlWorld) : PearlWorld := {|
  pw_disk := pw_disk w; pw_holders := pw_holders w; pw_groups := m; pw_dcs := pw_dcs w;
  pw_hooks := pw_hooks w; pw_fresh := pw_fresh w |}.
Definition set_dcs (m : gmap nat DcCell) (w : PearlWorld) : PearlWorld := {|
  pw_disk := pw_disk w; pw_holders := pw_holders w; pw_groups := pw_groups w; pw_dcs := m;
  pw_hooks := pw_hooks w; pw_fresh := pw_fresh w |}.
Definition set_hooks (h : Hooks) (w : PearlWorld) : PearlWorld := {|
  pw_disk := pw_disk w; pw_holders := pw_holders w; pw_groups := pw_groups w; pw_dcs := pw_dcs w;
  pw_hooks := h; pw_fresh := pw_fresh w |}.
Definition set_fresh (n : nat) (w : PearlWorld) : PearlWorld := {|
  pw_disk := pw_disk w; pw_holders := pw_holders w; pw_groups := pw_groups w; pw_dcs := pw_dcs w;
  pw_hooks := pw_hooks w; pw_fresh := n |}.

(** A call of the crate or of the system. *)
Definition ext {A} (f : Disk → A * Disk) : M PearlWorld A := λ w,
  let '(a, d) := f (pw_disk w) in Some (a, set_disk d w).
Definition peek {A} (f : Disk → A) : M PearlWorld A := gets (λ w, f (pw_disk w)).

(** A cell that was never written is a new one. *)
Definition holder_cell (w : PearlWorld) (id : nat) : HolderCell := default HolderCell_new (pw_holders w !! id).
Definition put_holder_cell (id : nat) (c : HolderCell) (w : PearlWorld) : PearlWorld :=
  set_holders (<[id := c]> (pw_holders w)) w.

Definition GroupCell_new (holder_group_size : Z) : GroupCell :=
  {| gc_holders := hf_new holder_group_size 2; gc_reinit_free := true |}.

Definition group_cell (w : PearlWorld) (g : Group) : GroupCell :=
  default (GroupCell_new (se_holder_group_size (g_settings g))) (pw_groups w !! g_id g).
Definition put_group_cell (g : Group) (c : GroupCell) (w : PearlWorld) : PearlWorld :=
  set_groups (<[g_id g := c]> (pw_groups w)) w.

Definition dc_cell (w : PearlWorld) (id : nat) : DcCell := default DcCell_new (pw_dcs w !! id).
Definition put_dc_cell (id : nat) (c : DcCell) (w : PearlWorld) : PearlWorld :=
  set_dcs (<[id := c]> (pw_dcs w)) w.

(** A step of a holder's [PearlSync] under its lock. *)
Definition on_sync {A} (id : nat) (m : M PearlSync A) : M PearlWorld A := λ w,
  let c := holder_cell w id in
  match m (hc_storage c) with
  | Some (a, s) => Some (a, put_holder_cell id
      {| hc_storage := s; hc_last_modification := hc_last_modification c; hc_init_free := hc_init_free c |} w)
  | None => None
  end.

Definition fresh_id : M PearlWorld nat :=
  n ← gets pw_fresh; _ ← modify (set_fresh (S n)); mret n.

(** [utils::get_current_timestamp] *)
Definition get_current_timestamp : M PearlWorld Z :=
  now ← ext pe_now; expect (i64_to_u64 (now / nanos_per_sec)).
End world.
