(* ===== verification/PearlHolder.v ===== *)
(** * PearlHolder: one partition of a virtual disk

    [bob-backend/src/pearl/holder.rs] and the file system part of [pearl/utils.rs].  A
    holder is a [pearl::Storage] behind [PearlSync], opened and reopened by the holder. *)

From Corelib Require Import ssreflect.
From stdpp Require Import base option list strings gmap numbers.
From Stdlib Require Import Strings.Byte ZArith Lia.
From S2P Require Import Prelude Data Text Errors Options Node ClusterConfig NodeConfig Mapper Backend PearlUtils PearlWorld.

Definition MAX_TIME_SINCE_LAST_WRITE_SEC : Z := 10.
Definition SMALL_RECORDS_COUNT_MUL : Z := 10.

Section holder.
Context {key_size : KeySize} `{ConfigParsers, PearlCrate}.

(** ** The file system part of [Utils] *)

Definition check_or_create_directory (path : string) : M PearlWorld (result unit Error) :=
  exists_ ← peek (fs_exists path);
  if exists_ : bool then mret (Ok tt)
  else
    r ← ext (fs_create_dir_all path);
    mret (match r with
          | Ok _ => Ok tt
          | Err (IOPermissionDenied, _) | Err (IOOther, _) => Err possible_disk_disconnection
          | Err (IOAnotherKind, e) =>
              Err (storage ("cannot create directory: " +:+ path +:+ ", error: " +:+ e))
          end).

Definition drop_pearl_lock_file (path : string) : M PearlWorld (result unit Error) :=
  let file := path_push path "pearl.lock" in
  exists_ ← peek (fs_exists file);
  if exists_ : bool then
    r ← ext (fs_remove_file file);
    mret (match r with
          | Ok _ => Ok tt
          | Err (_, e) => Err (storage ("cannot delete lock file from directory: "
                                        +:+ fmt_debug_str file +:+ ", error: " +:+ e))
          end)
  else mret (Ok tt).

Definition Utils_drop_directory (path : string) : M PearlWorld (result unit Error) :=
  r ← ext (fs_remove_dir_all path);
  mret (match r with
        | Err (_, e) => Err (storage ("error deleting directory " +:+ fmt_debug_str path +:+ ", " +:+ e))
        | Ok _ => Ok tt
        end).

(** ** State *)

Definition Holder_new (start_timestamp end_timestamp : Z) (vdisk : VDiskId) (disk_path : string)
    (config : PearlConfig) : M PearlWorld Holder :=
  id ← fresh_id;
  _ ← modify (put_holder_cell id HolderCell_new);
  mret {| h_id := id; start_timestamp := start_timestamp; end_timestamp := end_timestamp;
          h_vdisk := vdisk; disk_path := disk_path; h_config := config |}.

Definition get_id (h : Holder) : string := default "unparsable string" (path_file_name (disk_path h)).

(** [self.storage.read().await.get()] *)
Definition holder_storage (h : Holder) : M PearlWorld (option PearlStorage) :=
  gets (λ w, PearlSync_get (hc_storage (holder_cell w (h_id h)))).

(** The queries that answer a default while the storage is not open. *)
Definition holder_query {A} (f : PearlStorage → Disk → A) (none : A) (h : Holder) : M PearlWorld A :=
  st ← holder_storage h;
  match st with Some storage => peek (f storage) | None => mret none end.

Definition holder_blobs_count := holder_query pe_blobs_count 0.
Definition holder_corrupted_blobs_count := holder_query pe_corrupted_blobs_count 0.
Definition active_index_memory := holder_query pe_active_index_memory 0.
Definition holder_index_memory := holder_query pe_index_memory 0.
Definition has_excess_resources := holder_query (λ s d, 0 <? pe_inactive_index_memory s d) false.
Definition records_count := holder_query pe_records_count 0.
Definition has_active_blob := holder_query pe_has_active_blob false.
Definition active_blob_is_empty :=
  holder_query (λ s d, (λ c, c =? 0) <$> pe_records_count_in_active_blob s d) None.
Definition active_blob_is_small (h : Holder) : M PearlWorld (option bool) :=
  holder_query (λ s d, (λ c, wrap64 (c * SMALL_RECORDS_COUNT_MUL) <? pl_max_data_in_blob (h_config h))
                         <$> pe_records_count_in_active_blob s d) None h.
Definition holder_filter_memory_allocated := holder_query pe_filter_memory_allocated 0.
Definition holder_disk_used := holder_query pe_disk_used 0.

(** [BloomProvider]: [true] asks for an additional check. *)
Definition holder_check_filter (item : list byte) := holder_query (λ s d, pe_check_filter s item d) true.
Definition holder_get_filter := holder_query pe_get_filter None.

(** The filters of the holders at one moment, for the container. *)
Definition filters_view (w : PearlWorld) (h : Holder) : option Filter :=
  match PearlSync_get (hc_storage (holder_cell w (h_id h))) with
  | Some storage => pe_get_filter storage (pw_disk w)
  | None => None
  end.
Definition filter_memory_view (w : PearlWorld) (h : Holder) : Z :=
  match PearlSync_get (hc_storage (holder_cell w (h_id h))) with
  | Some storage => pe_filter_memory_allocated storage (pw_disk w)
  | None => 0
  end.

(** ** Time *)

Definition gets_into_interval (h : Holder) (timestamp : Z) : bool :=
  (start_timestamp h <=? timestamp) && (timestamp <? end_timestamp h).

Definition is_outdated (h : Holder) : M PearlWorld bool :=
  ts ← ext pe_coarse_now; mret (end_timestamp h <? ts).

(** The subtraction wraps. *)
Definition is_older_than (h : Holder) (secs : Z) : M PearlWorld bool :=
  ts ← ext pe_coarse_now; mret (end_timestamp h <? wrap64 (ts - secs)).

Definition last_modification (h : Holder) : M PearlWorld Z :=
  gets (λ w, hc_last_modification (holder_cell w (h_id h))).

Definition no_modifications_recently (h : Holder) : M PearlWorld bool :=
  ts ← ext pe_coarse_now;
  modification ← last_modification h;
  mret (MAX_TIME_SINCE_LAST_WRITE_SEC <? wrap64 (ts - modification)).

Definition update_last_modification (h : Holder) : M PearlWorld unit :=
  ts ← ext pe_coarse_now;
  modify (λ w, let c := holder_cell w (h_id h) in put_holder_cell (h_id h)
    {| hc_storage := hc_storage c; hc_last_modification := ts; hc_init_free := hc_init_free c |} w).

(** ** Maintenance *)

Definition close_active_blob (h : Holder) : M PearlWorld unit :=
  st ← holder_storage h;
  match st with
  | Some storage => ext (λ d, (tt, pe_close_active_blob_in_background storage d))
  | None => mret tt
  end.

Definition free_excess_resources (h : Holder) : M PearlWorld Z :=
  st ← holder_storage h;
  match st with Some storage => ext (pe_free_excess_resources storage) | None => mret 0 end.

Definition holder_offload_buffer (h : Holder) (needed_memory : Z) (level : nat) : M PearlWorld Z :=
  st ← holder_storage h;
  match st with Some storage => ext (pe_offload_buffer storage needed_memory level) | None => mret 0 end.

(** ** Write, read, exist, delete *)

Definition write_error (e : AnyError) : Error :=
  match e with
  | AnyPearl WorkDirUnavailable _ => possible_disk_disconnection
  | AnyPearl _ _ => internal
  | _ => possible_disk_disconnection
  end.

Definition write_disk (storage : PearlStorage) (key : list byte) (data : BobData) : M PearlWorld (result unit Error) :=
  res ← ext (pe_write storage key (to_serialized_bytes data) (timestamp (meta data)));
  mret (result_map_err write_error res).

Definition holder_write (h : Holder) (key : BobKey) (data : BobData) : M PearlWorld (result unit Error) :=
  state ← holder_storage h;
  match state with
  | Some storage => _ ← update_last_modification h; write_disk storage (Key_from key) data
  | None => mret (Err vdisk_is_not_ready)
  end.

Definition holder_read (h : Holder) (key : BobKey) : M PearlWorld (result (ReadResult BobData) Error) :=
  state ← holder_storage h;
  match state with
  | Some st =>
      res ← ext (pe_read st (Key_from key));
      match res with
      | Err e => mret (Err (storage (any_text e)))
      | Ok (Found v) => d ← expect (from_serialized_bytes v); mret (result_map Found d)
      | Ok (Deleted ts) => mret (Ok (Deleted ts))
      | Ok NotFound => mret (Ok NotFound)
      end
  | None => mret (Err vdisk_is_not_ready)
  end.

Definition holder_exist (h : Holder) (key : BobKey) : M PearlWorld (result (ReadResult Z) Error) :=
  state ← holder_storage h;
  match state with
  | Some st =>
      res ← ext (pe_contains st (Key_from key));
      mret (result_map_err (λ e, storage (any_text e)) res)
  | None => mret (Err vdisk_is_not_ready)
  end.

Definition holder_delete (h : Holder) (key : BobKey) (m : BobMeta) (force_delete : bool) : M PearlWorld (result Z Error) :=
  state ← holder_storage h;
  match state with
  | Some st =>
      res ← ext (pe_delete st (Key_from key) (timestamp m) (negb force_delete));
      _ ← update_last_modification h;
      mret (result_map_err (λ e, storage (any_text e)) res)
  | None => mret (Err vdisk_is_not_ready)
  end.

(** ** Opening the storage *)

Definition builder_of (h : Holder) : PearlBuilder := {|
  pb_work_dir := disk_path h;
  pb_allow_duplicates := pl_allow_duplicates (h_config h);
  pb_blob_file_name_prefix := pl_blob_file_name_prefix (h_config h);
  pb_max_data_in_blob := pl_max_data_in_blob (h_config h);
  pb_max_blob_size := pl_max_blob_size (h_config h);
  pb_max_dirty_bytes_before_sync := pl_max_dirty_bytes_before_sync (h_config h);
  pb_max_buf_bits_count := pl_bloom_filter_max_buf_bits_count (h_config h);
  pb_validate_data_during_index_regen := pl_validate_data_checksum (h_config h);
|}.

Definition init_pearl_by_path (h : Holder) : M PearlWorld (result PearlStorage AnyError) :=
  ext (pe_build (builder_of h)).

Definition init_pearl (h : Holder) (st : PearlStorage) : M PearlWorld (result unit Error) :=
  ts ← get_current_timestamp;
  res ← (if gets_into_interval h ts then ext (pe_init st) else ext (pe_init_lazy st));
  mret (result_map_err (λ err, storage ("pearl error: " +:+ any_text err)) res).

(** [try_multiple_times_async(f, .., config.fail_retry_timeout())]: the delay is parsed
    before the first attempt. *)
Definition with_retries {T E} (config : PearlConfig) (f : M PearlWorld (result T E)) : M PearlWorld (result T E) :=
  _ ← expect (fail_retry_timeout config);
  try_multiple_times config f.

Definition init_holder (h : Holder) : M PearlWorld (result PearlStorage AnyError) :=
  r ← with_retries (h_config h) (check_or_create_directory (disk_path h));
  match r with
  | Err e => mret (Err (AnyBob e))
  | Ok _ =>
      r ← with_retries (h_config h) (drop_pearl_lock_file (disk_path h));
      match r with
      | Err e => mret (Err (AnyBob e))
      | Ok _ =>
          r ← with_retries (h_config h) (init_pearl_by_path h);
          match r with
          | Err e => mret (Err e)
          | Ok st =>
              r ← init_pearl h st;
              mret (match r with Err e => Err (AnyBob e) | Ok _ => Ok st end)
          end
      end
  end.

(** The error of an opening; a blob of an unsupported version aborts. *)
Definition init_error (e : AnyError) : option Error :=
  let storage_error := storage "Failed to init holder" in
  match e with
  | AnyPearl ValidationBlobVersion _ => None
  | AnyIo IOOther _ | AnyIo IOPermissionDenied _ => Some possible_disk_disconnection
  | AnyIo _ _ => Some storage_error
  | AnyBob e => Some e
  | AnyPearl _ _ | AnyForeign _ => Some storage_error
  end.

Definition create_and_prepare_storage (h : Holder) : M PearlWorld (result PearlStorage Error) :=
  r ← with_retries (h_config h) (init_holder h);
  match r with
  | Ok st => mret (Ok st)
  | Err e => e ← expect (init_error e); mret (Err e)
  end.

(** [init_protection]: the permit is back when the guard is dropped. *)
Definition set_init_free (h : Holder) (free : bool) : M PearlWorld unit :=
  modify (λ w, let c := holder_cell w (h_id h) in put_holder_cell (h_id h)
    {| hc_storage := hc_storage c; hc_last_modification := hc_last_modification c; hc_init_free := free |} w).

(** The end both openings share. *)
Definition open_storage (h : Holder) : M PearlWorld (result unit Error) :=
  r ← create_and_prepare_storage h;
  match r with
  | Ok st =>
      ready ← on_sync (h_id h) (PearlSync_set_ready st);
      _ ← expect (match ready with Ok _ => Some tt | Err _ => None end);
      mret (Ok tt)
  | Err e => mret (Err e)
  end.

Definition try_reinit (h : Holder) : M PearlWorld (result unit Error) :=
  free ← gets (λ w, hc_init_free (holder_cell w (h_id h)));
  if (free : bool) then
    _ ← set_init_free h false;
    old_storage ← on_sync (h_id h) PearlSync_reset;
    _ ← match old_storage with
        | Some old_storage => _ ← ext (pe_close old_storage); mret tt
        | None => mret tt
        end;
    res ← open_storage h;
    _ ← set_init_free h true;
    mret res
  else mret (Err holder_temporary_unavailable).

(** [acquire] waits for the permit; a task that holds it gives it back. *)
Definition prepare_storage (h : Holder) : M PearlWorld (result unit Error) :=
  _ ← set_init_free h false;
  res ← open_storage h;
  _ ← set_init_free h true;
  mret res.

Definition holder_drop_directory (h : Holder) : M PearlWorld (result unit Error) := Utils_drop_directory (disk_path h).

Definition close_storage (h : Holder) : M PearlWorld unit :=
  st ← on_sync (h_id h) PearlSync_reset;
  match st with
  | Some st => _ ← ext (pe_fsyncdata st); _ ← ext (pe_close st); mret tt
  | None => mret tt
  end.
End holder.
