(* ===== verification/PearlGroup.v ===== *)
(** * PearlGroup: the partitions of one virtual disk

    [bob-backend/src/pearl/group.rs] and [pearl/hooks.rs].  A group keeps its holders in
    a container with filters; a key is written to the newest holder whose interval has its
    timestamp and read from every holder the filters and the timestamps do not exclude. *)

From Corelib Require Import ssreflect.
From stdpp Require Import base option list strings gmap numbers.
From Stdlib Require Import Strings.Byte ZArith Lia.
From S2P Require Import Prelude Data Text Errors Options Node ClusterConfig NodeConfig Mapper Backend PearlUtils PearlWorld PearlHolder.

(** ** Pure parts *)

(** An alien operation without a node name matches every node. *)
Definition can_process_operation (g : Group) (operation : Operation) : option bool :=
  if is_data_alien operation then
    let name_matched :=
      match op_remote_node_name operation with
      | None => true
      | Some node_name => bool_decide (node_name = g_node_name g)
      end in
    Some (name_matched && (g_vdisk_id g =? op_vdisk_id operation))
  else if g_vdisk_id g =? op_vdisk_id operation then
    name ← disk_name_local operation;
    Some (bool_decide (g_disk_name g = name))
  else Some false.

(** The first holder with the greatest start among those whose interval has the timestamp,
    with its index. *)
Definition newer_start (max elem : nat * Holder) : nat * Holder :=
  if start_timestamp max.2 <? start_timestamp elem.2 then elem else max.

Definition holders_for_time (holders : list Holder) (data_timestamp : Z) : list (nat * Holder) :=
  filter (λ h : nat * Holder, gets_into_interval h.2 data_timestamp = true) (imap pair holders).

Definition find_actual_holder (holders : list Holder) (data_timestamp : Z) : result (nat * Holder) Error :=
  match holders_for_time holders data_timestamp with
  | max :: rest => Ok (foldl newer_start max rest)
  | [] => Err (failed ("cannot find actual pearl folder. meta: " +:+ fmt_dec data_timestamp))
  end.

Definition should_check_holder (g : Group) (h : Holder) (max_timestamp : option Z) : bool :=
  match max_timestamp, safe_timestamp_step g with
  | Some max, Some step => max <=? wrap64 (end_timestamp h + step)
  | _, _ => true
  end.

(** [max_timestamp.is_none() || ts > max_timestamp.unwrap()] *)
Definition is_newer (max_timestamp : option Z) (ts : Z) : bool :=
  match max_timestamp with None => true | Some max => max <? ts end.

(** The greatest difference of neighbours. *)
Fixpoint max_neighbour_diff (max_diff : Z) (l : list Z) : Z :=
  match l with
  | a :: (b :: _) as l' =>
      let diff := wrap64 (b - a) in
      max_neighbour_diff (if max_diff <? diff then diff else max_diff) l'
  | _ => max_diff
  end.

Definition timestamp_period_as_secs (s : Settings) : Z := se_timestamp_period s / nanos_per_sec.

(** [sort_by_priority]: small blobs last, then by end. *)
Definition priority_le (is_small : list bool) (a b : nat * Holder) : bool :=
  match default false (is_small !! a.1), default false (is_small !! b.1) with
  | true, false => false
  | false, true => true
  | _, _ => end_timestamp a.2 <=? end_timestamp b.2
  end.

Section hooks.
Context `{ConfigParsers, PearlCrate}.

(** ** [hooks.rs] *)

Definition SimpleHolder_from (h : Holder) : SimpleHolder :=
  {| sh_storage := h_id h; sh_timestamp := end_timestamp h |}.

Definition simple_storage (h : SimpleHolder) : M PearlWorld (option PearlStorage) :=
  gets (λ w, PearlSync_get (hc_storage (holder_cell w (sh_storage h)))).

Definition simple_filter_memory_allocated (h : SimpleHolder) : M PearlWorld Z :=
  st ← simple_storage h;
  match st with Some st => peek (pe_filter_memory_allocated st) | None => mret 0 end.

Definition offload_filter (h : SimpleHolder) (needed_memory : Z) (level : nat) : M PearlWorld Z :=
  st ← simple_storage h;
  match st with Some st => ext (pe_offload_buffer st needed_memory level) | None => mret 0 end.

Definition simple_is_ready (h : SimpleHolder) : M PearlWorld bool :=
  gets (λ w, PearlSync_is_ready (hc_storage (holder_cell w (sh_storage h)))).

(** [BTreeSet::insert]: two holders with the same end are the same element. *)
Fixpoint btree_insert (h : SimpleHolder) (l : list SimpleHolder) : list SimpleHolder :=
  match l with
  | [] => [h]
  | x :: l' =>
      if sh_timestamp h <? sh_timestamp x then h :: l
      else if sh_timestamp h =? sh_timestamp x then l
      else x :: btree_insert h l'
  end.

(** The [while] loop: every turn takes the first holder out of the set. *)
Fixpoint offload_over_limit (limit : Z) (holders : list SimpleHolder) (allocated_size : Z)
    : M PearlWorld (list SimpleHolder * Z) :=
  if limit <? allocated_size then
    match holders with
    | [] => mret ([], allocated_size)
    | holder :: rest =>
        freed ← offload_filter holder u64_max 0;
        offload_over_limit limit rest (saturating_sub allocated_size freed)
    end
  else mret (holders, allocated_size).

Definition storage_prepared (h : Holder) : M PearlWorld unit :=
  pp ← gets pw_hooks;
  let holder := SimpleHolder_from h in
  filter_memory ← simple_filter_memory_allocated holder;
  let holders := btree_insert holder (hk_holders pp) in
  let allocated_size := wrap64 (hk_allocated_size pp + filter_memory) in
  res ← match hk_bloom_filter_memory_limit pp with
        | Some limit => offload_over_limit limit holders allocated_size
        | None => mret (holders, allocated_size)
        end;
  modify (set_hooks {| hk_holders := res.1; hk_allocated_size := res.2;
                       hk_bloom_filter_memory_limit := hk_bloom_filter_memory_limit pp |}).
End hooks.

Section group.
Context {key_size : KeySize} `{ConfigParsers, Chrono, Sha256, PearlCrate}.

(** ** State *)

Definition Group_new (settings : Settings) (vdisk_id : VDiskId) (node_name : NodeName) (disk_name : DiskName)
    (directory_path owner_node_identifier : string) : M PearlWorld Group :=
  id ← fresh_id;
  let g := {| g_id := id; g_settings := settings; directory_path := directory_path; g_vdisk_id := vdisk_id;
              g_node_name := node_name; g_disk_name := disk_name;
              owner_node_identifier := owner_node_identifier; safe_timestamp_step := None |} in
  _ ← modify (put_group_cell g (GroupCell_new (se_holder_group_size settings)));
  mret g.

Definition group_config (g : Group) : PearlConfig := se_config (g_settings g).

Definition read_holders (g : Group) : M PearlWorld HoldersContainer :=
  gets (λ w, gc_holders (group_cell w g)).
Definition write_holders (g : Group) (c : HoldersContainer) : M PearlWorld unit :=
  modify (λ w, put_group_cell g {| gc_holders := c; gc_reinit_free := gc_reinit_free (group_cell w g) |} w).
Definition set_reinit_free (g : Group) (free : bool) : M PearlWorld unit :=
  modify (λ w, put_group_cell g {| gc_holders := gc_holders (group_cell w g); gc_reinit_free := free |} w).

(** [reinit_lock.try_read()] *)
Definition under_reinit_lock {A} (g : Group) (m : M PearlWorld (result A Error)) : M PearlWorld (result A Error) :=
  free ← gets (λ w, gc_reinit_free (group_cell w g));
  if (free : bool) then m else mret (Err holder_temporary_unavailable).

(** ** Creating holders *)

Definition create_pearl_holder (g : Group) (start : Z) (hash : string) : M PearlWorld Holder :=
  let config := group_config g in
  Holder_new start (wrap64 (start + timestamp_period_as_secs (g_settings g))) (g_vdisk_id g)
    (path_push (directory_path g) (PartitionName_to_string {| pn_timestamp := start; pn_hash := hash |}))
    {| pl_max_blob_size := pl_max_blob_size config;
       pl_max_data_in_blob := pl_max_data_in_blob config;
       pl_blob_file_name_prefix := pl_blob_file_name_prefix config +:+ "_" +:+ hash;
       pl_fail_retry_timeout := pl_fail_retry_timeout config;
       pl_fail_retry_count := pl_fail_retry_count config;
       pl_alien_disk := pl_alien_disk config;
       pl_allow_duplicates := pl_allow_duplicates config;
       pl_settings := pl_settings config;
       pl_hash_chars_count := pl_hash_chars_count config;
       pl_enable_aio := pl_enable_aio config;
       pl_disks_events_logfile := pl_disks_events_logfile config;
       pl_bloom_filter_max_buf_bits_count := pl_bloom_filter_max_buf_bits_count config;
       pl_validate_data_checksum := pl_validate_data_checksum config;
       pl_skip_holders := pl_skip_holders config;
       pl_max_dirty_bytes_before_sync := pl_max_dirty_bytes_before_sync config |}.

Definition group_owner_hash (g : Group) : option string :=
  get_owner_node_hash (owner_node_identifier g) (pl_hash_chars_count (group_config g)).

Definition create_pearl_by_timestamp (g : Group) (time : Z) (config : StartTimestampConfig) : M PearlWorld Holder :=
  start ← expect (get_start_timestamp_by_timestamp (se_timestamp_period (g_settings g)) time config);
  hash ← expect (group_owner_hash g);
  create_pearl_holder g start hash.

(** [Settings::get_actual_timestamp_start] *)
Definition get_actual_timestamp_start (s : Settings) : M PearlWorld Z :=
  now ← ext pe_now;
  expect (get_start_timestamp_by_std_time (se_timestamp_period s) now StartTimestampConfig_default).

Definition create_current_pearl (g : Group) : M PearlWorld Holder :=
  start ← get_actual_timestamp_start (g_settings g);
  hash ← expect (group_owner_hash g);
  create_pearl_holder g start hash.

Definition create_and_init_pearl (g : Group) (data_timestamp : Z) (config : StartTimestampConfig)
    : M PearlWorld (result Holder Error) :=
  pearl ← create_pearl_by_timestamp g data_timestamp config;
  r ← prepare_storage pearl;
  mret (match r with Ok _ => Ok pearl | Err e => Err e end).

Definition push_holder (g : Group) (h : Holder) : M PearlWorld nat :=
  c ← read_holders g;
  filters ← gets filters_view;
  let '(new_index, c) := hf_push filters h c in
  _ ← write_holders g c;
  mret new_index.

Definition get_or_create_write_pearl (g : Group) (data_timestamp : Z) (config : StartTimestampConfig)
    : M PearlWorld (result (nat * Holder) Error) :=
  holders ← read_holders g;
  match find_actual_holder (hf_iter holders) data_timestamp with
  | Ok index_and_holder => mret (Ok index_and_holder)
  | Err _ =>
      _ ← expect (bs_wait_delay (pl_settings (group_config g)));
      r ← try_multiple_times (group_config g) (create_and_init_pearl g data_timestamp config);
      match r with
      | Err e => mret (Err e)
      | Ok pearl => new_index ← push_holder g pearl; mret (Ok (new_index, pearl))
      end
  end.

Definition get_or_create_actual_holder (g : Group) (data_timestamp : Z) (config : StartTimestampConfig)
    : M PearlWorld (result (nat * Holder) Error) :=
  holders ← read_holders g;
  match find_actual_holder (hf_iter holders) data_timestamp with
  | Err _ => get_or_create_write_pearl g data_timestamp config
  | Ok holder_info => mret (Ok holder_info)
  end.

Definition add_to_parents (g : Group) (index : nat) (key : BobKey) : M PearlWorld unit :=
  c ← read_holders g; write_holders g (hf_add_to_parents index (Key_from key) c).

(** ** put *)

(** After an error that is neither of the disk nor of a closed holder, the holder is
    opened again; the outcome is only logged. *)
Definition reinit_after (e : Error) (keep : Error → bool) (h : Holder) : M PearlWorld unit :=
  if keep e then mret tt else _ ← try_reinit h; mret tt.

Definition keeps_holder (e : Error) : bool := is_possible_disk_disconnection e || is_duplicate e || is_not_ready e.

Definition put_common (h : Holder) (key : BobKey) (data : BobData) : M PearlWorld (result unit Error) :=
  r ← holder_write h key data;
  match r with
  | Err e => _ ← reinit_after e keeps_holder h; mret (Err e)
  | Ok _ => mret (Ok tt)
  end.

Definition group_put (g : Group) (key : BobKey) (data : BobData) (config : StartTimestampConfig)
    : M PearlWorld (result unit Error) :=
  under_reinit_lock g (
    holder ← get_or_create_actual_holder g (timestamp (meta data)) config;
    match holder with
    | Err e => mret (Err e)
    | Ok (index, h) =>
        res ← put_common h key data;
        match res with
        | Err e => mret (Err e)
        | Ok _ => _ ← add_to_parents g index key; mret (Ok tt)
        end
    end).

(** ** get *)

Definition get_common (h : Holder) (key : BobKey) : M PearlWorld (result (ReadResult BobData) Error) :=
  r ← holder_read h key;
  match r with
  | Err e => _ ← reinit_after e (λ e, is_key_not_found e || is_not_ready e) h; mret (Err e)
  | Ok r => mret (Ok r)
  end.

Record GetScan : Type := { gs_has_error : bool; gs_max_timestamp : option Z; gs_result : option BobData }.
Definition GetScan_new : GetScan := {| gs_has_error := false; gs_max_timestamp := None; gs_result := None |}.

(** What one answer changes. *)
Definition get_answer (s : GetScan) (r : result (ReadResult BobData) Error) : GetScan :=
  match r with
  | Ok (Found data) =>
      let ts := timestamp (meta data) in
      if is_newer (gs_max_timestamp s) ts
      then {| gs_has_error := gs_has_error s; gs_max_timestamp := Some ts; gs_result := Some data |} else s
  | Ok (Deleted ts) =>
      if is_newer (gs_max_timestamp s) ts
      then {| gs_has_error := gs_has_error s; gs_max_timestamp := Some ts; gs_result := None |} else s
  | Ok NotFound => s
  | Err _ => {| gs_has_error := true; gs_max_timestamp := gs_max_timestamp s; gs_result := gs_result s |}
  end.

Definition get_step (g : Group) (key : BobKey) (s : GetScan) (h : Holder) : M PearlWorld GetScan :=
  if should_check_holder g h (gs_max_timestamp s) then
    r ← get_common h key; mret (get_answer s r)
  else mret s.

Definition group_get (g : Group) (key : BobKey) : M PearlWorld (result BobData Error) :=
  under_reinit_lock g (
    holders ← read_holders g;
    s ← for_each (get_step g key) GetScan_new (hf_possible_childs_rev holders (Key_from key));
    mret (match gs_result s with
          | Some result => Ok result
          | None => if gs_has_error s then Err (failed "cannot read from some pearls")
                    else Err (key_not_found key)
          end)).

(** ** exist *)

Definition exist_answer (s : option Z * bool) (r : ReadResult Z) : option Z * bool :=
  match r with
  | Found ts => if is_newer s.1 ts then (Some ts, true) else s
  | Deleted ts => if is_newer s.1 ts then (Some ts, false) else s
  | NotFound => s
  end.

Definition exist_step (g : Group) (key : BobKey) (s : option Z * bool) (h : Holder) : M PearlWorld (option Z * bool) :=
  if should_check_holder g h s.1 then
    r ← holder_exist h key;
    mret (exist_answer s (match r with Ok r => r | Err _ => NotFound end))
  else mret s.

Definition exist_key (g : Group) (holders : HoldersContainer) (exist : list bool) (key : BobKey) : M PearlWorld (list bool) :=
  s ← for_each (exist_step g key) (None, false) (hf_possible_childs_rev holders (Key_from key));
  mret (exist ++ [s.2]).

Definition group_exist (g : Group) (keys : list BobKey) : M PearlWorld (result (list bool) Error) :=
  under_reinit_lock g (
    holders ← read_holders g;
    exist ← for_each (exist_key g holders) [] keys;
    mret (Ok exist)).

(** ** delete *)

Definition delete_common (h : Holder) (key : BobKey) (m : BobMeta) (force_delete : bool) : M PearlWorld (result Z Error) :=
  r ← holder_delete h key m force_delete;
  match r with
  | Err e => _ ← reinit_after e keeps_holder h; mret (Err e)
  | Ok n => mret (Ok n)
  end.

Definition delete_in_actual_holder (g : Group) (index : nat) (h : Holder) (key : BobKey) (m : BobMeta)
    : M PearlWorld (result Z Error) :=
  r ← delete_common h key m true;
  match r with
  | Err e => mret (Err e)
  | Ok delete_count => _ ← add_to_parents g index key; mret (Ok delete_count)
  end.

Definition delete_before_step (key : BobKey) (m : BobMeta) (total_count : Z) (h : Holder) : M PearlWorld Z :=
  r ← delete_common h key m false;
  mret (wrap64 (total_count + match r with Ok count => count | Err _ => 0 end)).

(** It always succeeds. *)
Definition delete_in_holders_before (holders : list Holder) (key : BobKey) (m : BobMeta) : M PearlWorld Z :=
  for_each (delete_before_step key m) 0 (rev holders).

Definition group_delete (g : Group) (key : BobKey) (m : BobMeta) (config : StartTimestampConfig) (force_delete : bool)
    : M PearlWorld (result Z Error) :=
  under_reinit_lock g (
    first ← (if force_delete then
               actual ← get_or_create_actual_holder g (timestamp m) config;
               match actual with
               | Err e => mret (Err e)
               | Ok (index, h) =>
                   r ← delete_in_actual_holder g index h key m;
                   mret (match r with Err e => Err e | Ok n => Ok (start_timestamp h, n) end)
               end
             else mret (Ok (timestamp m, 0)));
    match first with
    | Err e => mret (Err e)
    | Ok (reference_timestamp, total) =>
        holders ← read_holders g;
        let before := filter (λ h, start_timestamp h < reference_timestamp) (hf_iter holders) in
        count ← delete_in_holders_before before key m;
        mret (Ok (wrap64 (total + count)))
    end).

(** ** The directory, running and remounting *)

(** [try_read_path] on every entry: the first failure ends the reading. *)
Fixpoint read_entries (entries : list (result DirEntry string)) : result (list string) Error :=
  match entries with
  | [] => Ok []
  | Err e :: _ => Err (failed ("couldn't read entry: " +:+ e +:+ " "))
  | Ok e :: rest =>
      match de_is_dir e with
      | None => Err (failed ("Couldn't get metadata for " +:+ de_debug e))
      | Some is_dir =>
          result_map (λ directories, match de_file_name e, is_dir with
                                     | Some name, true => name :: directories
                                     | _, _ => directories
                                     end) (read_entries rest)
      end
  end.

(** [Settings::get_all_subdirectories]: the names, in UTF-8, of the directories. *)
Definition get_all_subdirectories (path : string) : M PearlWorld (result (list string) Error) :=
  r ← check_or_create_directory path;
  match r with
  | Err e => mret (Err e)
  | Ok _ =>
      dir ← peek (fs_read_dir path);
      mret (match dir with
            | Err (_, e) => Err (failed ("couldn't process path: " +:+ fmt_debug_str path +:+ ", error: " +:+ e +:+ " "))
            | Ok entries => read_entries entries
            end)
  end.

Definition read_holder (g : Group) (holders : list Holder) (file_name : string) : M PearlWorld (list Holder) :=
  match PartitionName_try_from_string file_name with
  | Some name => h ← create_pearl_holder g (pn_timestamp name) (pn_hash name); mret (holders ++ [h])
  | None => mret holders
  end.

Definition start_le (a b : Holder) : bool := start_timestamp a <=? start_timestamp b.

Definition read_vdisk_directory (g : Group) : M PearlWorld (result (list Holder) Error) :=
  r ← check_or_create_directory (directory_path g);
  match r with
  | Err e => mret (Err e)
  | Ok _ =>
      dirs ← get_all_subdirectories (directory_path g);
      match dirs with
      | Err e => mret (Err e)
      | Ok names =>
          holders ← for_each (read_holder g) [] names;
          mret (Ok (sort_by start_le holders))
      end
  end.

Definition run_pearl (res : result unit Error) (h : Holder) : M PearlWorld (result unit Error) :=
  match res with
  | Err e => mret (Err e)
  | Ok _ =>
      r ← prepare_storage h;
      match r with
      | Err e => mret (Err e)
      | Ok _ => _ ← storage_prepared h; mret (Ok tt)
      end
  end.

(** The container is reloaded when every holder was prepared. *)
Definition run_pearls (g : Group) : M PearlWorld (result unit Error) :=
  holders ← read_holders g;
  r ← for_each run_pearl (Ok tt) (hf_iter holders);
  match r with
  | Err e => mret (Err e)
  | Ok _ =>
      filters ← gets filters_view;
      _ ← write_holders g (hf_reload filters holders);
      mret (Ok tt)
  end.

Definition run_under_reinit_lock (g : Group) : M PearlWorld (result unit Error) :=
  new_holders ← with_retries (group_config g) (read_vdisk_directory g);
  match new_holders with
  | Err e => mret (Err e)
  | Ok new_holders =>
      holders ← read_holders g;
      filters ← gets filters_view;
      _ ← write_holders g (hf_extend filters new_holders (hf_clear holders));
      run_pearls g
  end.

Definition compute_safe_timestamp_step (g : Group) : M PearlWorld (option Z) :=
  adjust ← expect (skip_holders_sec (group_config g));
  match adjust with
  | None => mret None
  | Some adjust =>
      holders ← read_holders g;
      now ← get_current_timestamp;
      let start_timestamps := sort_by Z.leb (start_timestamp <$> hf_iter holders) ++ [now] in
      let period := timestamp_period_as_secs (g_settings g) in
      let max_diff := max_neighbour_diff period start_timestamps in
      let step := wrap64 (wrap64 (2 * Z.max max_diff period) + 1) in
      mret (Some (Z.max adjust step))
  end.

Definition with_safe_timestamp_step (step : option Z) (g : Group) : Group := {|
  g_id := g_id g; g_settings := g_settings g; directory_path := directory_path g; g_vdisk_id := g_vdisk_id g;
  g_node_name := g_node_name g; g_disk_name := g_disk_name g;
  owner_node_identifier := owner_node_identifier g; safe_timestamp_step := step |}.

Definition group_run (g : Group) : M PearlWorld (result unit Error * Group) :=
  _ ← set_reinit_free g false;
  res ← run_under_reinit_lock g;
  step ← compute_safe_timestamp_step g;
  _ ← set_reinit_free g true;
  mret (res, with_safe_timestamp_step step g).

Definition close_holders (holders : list Holder) : M PearlWorld unit :=
  for_each (λ _ h, close_storage h) tt holders.

Definition group_remount (g : Group) : M PearlWorld (result unit Error * Group) :=
  _ ← set_reinit_free g false;
  holders ← read_holders g;
  let '(cleared, holders) := hf_clear_and_get_values holders in
  _ ← write_holders g holders;
  _ ← close_holders cleared;
  res ← run_under_reinit_lock g;
  step ← compute_safe_timestamp_step g;
  _ ← set_reinit_free g true;
  mret (res, with_safe_timestamp_step step g).

(** ** Attaching and detaching *)

Definition attach (g : Group) (start : Z) : M PearlWorld (result unit Error) :=
  holders ← read_holders g;
  if existsb (λ h, start_timestamp h =? start) (hf_iter holders) then
    mret (Err (pearl_change_state ("pearl:" +:+ fmt_dec start +:+ " already exists")))
  else
    holder ← create_pearl_by_timestamp g start StartTimestampConfig_default;
    r ← prepare_storage holder;
    match r with
    | Err e => mret (Err e)
    | Ok _ => _ ← push_holder g holder; mret (Ok tt)
    end.

Definition detach_step (g : Group) (start ts : Z) (removed : list Holder) (ind : nat) : M PearlWorld (list Holder) :=
  holders ← read_holders g;
  match hf_get_child holders ind with
  | Some h =>
      if (start_timestamp h =? start) && negb (gets_into_interval h ts) then
        let '(child, holders) := hf_remove ind holders in
        _ ← write_holders g holders;
        child ← expect child;
        mret (removed ++ [child])
      else mret removed
  | None => mret removed
  end.

Definition detach (g : Group) (start : Z) : M PearlWorld (result (list Holder) Error) :=
  ts ← get_current_timestamp;
  holders ← read_holders g;
  removed ← for_each (detach_step g start ts) [] (seq 0 (hf_len holders));
  match removed with
  | [] => mret (Err (pearl_change_state ("pearl:" +:+ fmt_dec start +:+ " not found")))
  | _ => _ ← close_holders removed; mret (Ok removed)
  end.

Definition group_detach_all (g : Group) : M PearlWorld (result unit Error) :=
  holders ← read_holders g;
  let '(values, holders) := hf_clear_and_get_values holders in
  _ ← write_holders g holders;
  _ ← close_holders values;
  mret (Ok tt).

(** ** Active blobs and resources *)

Definition oldest_step (period : Z) (result : option Holder) (h : Holder) : M PearlWorld (option Holder) :=
  active ← has_active_blob h;
  if (active : bool) then
    outdated ← is_outdated h;
    if (outdated : bool) then
      older ← is_older_than h period;
      mret (if older && (end_timestamp h <? from_option end_timestamp u64_max result) then Some h else result)
    else mret result
  else mret result.

Definition inactive_period (g : Group) : Z := timestamp_period_as_secs (g_settings g) / 2 + 10.

Definition find_oldest_inactive_holder (g : Group) : M PearlWorld (option Holder) :=
  holders ← read_holders g;
  for_each (oldest_step (inactive_period g)) None (hf_iter holders).

Definition freeable_step (period : Z) (s : option Holder * Z) (h : Holder) : M PearlWorld (option Holder * Z) :=
  outdated ← is_outdated h;
  if (outdated : bool) then
    older ← is_older_than h period;
    if (older : bool) then
      modification ← last_modification h;
      excess ← has_excess_resources h;
      mret (if excess && (modification <? s.2) then (Some h, modification) else s)
    else mret s
  else mret s.

Definition find_least_modified_freeable_holder (g : Group) : M PearlWorld (option Holder) :=
  holders ← read_holders g;
  s ← for_each (freeable_step (inactive_period g)) (None, u64_max) (hf_iter holders);
  mret s.1.

Definition sum_holders (f : Holder → M PearlWorld Z) (g : Group) : M PearlWorld Z :=
  holders ← read_holders g;
  for_each (λ acc h, n ← f h; mret (wrap64 (acc + n))) 0 (hf_iter holders).

Definition group_corrupted_blobs_count := sum_holders holder_corrupted_blobs_count.
Definition group_blobs_count := sum_holders holder_blobs_count.
Definition group_index_memory := sum_holders holder_index_memory.
Definition group_disk_used := sum_holders holder_disk_used.
Definition group_filter_memory_allocated (g : Group) : M PearlWorld Z :=
  holders ← read_holders g;
  memory ← gets filter_memory_view;
  mret (hf_filter_memory memory holders).

Definition outdated_step (s : Z * list Holder) (h : Holder) : M PearlWorld (Z * list Holder) :=
  active ← has_active_blob h;
  if (active : bool) then
    outdated ← is_outdated h;
    if (outdated : bool) then
      quiet ← no_modifications_recently h;
      mret (s.1 + 1, if (quiet : bool) then s.2 ++ [h] else s.2)
    else mret (s.1 + 1, s.2)
  else mret s.

(** The two [while] loops, on the reverse of the vector they pop from. *)
Fixpoint close_hard (hard : Z) (close : list (nat * Holder)) : M PearlWorld (list (nat * Holder)) :=
  match close with
  | [] => mret []
  | (i, holder) :: rest =>
      if hard <? Z.of_nat (length close) then _ ← close_active_blob holder; close_hard hard rest
      else mret close
  end.

Fixpoint close_soft (soft : Z) (is_small : list bool) (close : list (nat * Holder)) : M PearlWorld (list (nat * Holder)) :=
  match close with
  | [] => mret []
  | (i, holder) :: rest =>
      if (soft <? Z.of_nat (length close)) && negb (default false (is_small !! i))
      then _ ← close_active_blob holder; close_soft soft is_small rest
      else mret close
  end.

Definition collect_small (acc : list bool) (h : Holder) : M PearlWorld (list bool) :=
  small ← active_blob_is_small h; mret (acc ++ [default false small]).

Definition group_close_unneeded_active_blobs (g : Group) (soft hard : Z) : M PearlWorld unit :=
  holders ← read_holders g;
  s ← for_each outdated_step (0, []) (hf_iter holders);
  let '(total_open_blobs, close) := s in
  let needed := total_open_blobs - Z.of_nat (length close) in
  let soft := saturating_sub soft needed in
  let hard := saturating_sub hard needed in
  is_small ← for_each collect_small [] close;
  let close := sort_by (priority_le is_small) (imap pair close) in
  rest ← close_hard hard (rev close);
  _ ← close_soft soft is_small rest;
  mret tt.
End group.
