(* ===== verification/PearlLaws.v ===== *)
(** * PearlLaws: what the code relies on of the [pearl] crate, and the holders over it

    The records of a directory are [content]; the laws say what each call of the crate
    does to them.  The filters of a container may only exclude holders without a record
    of the key.  From these laws follow the specifications of the operations of a holder. *)

From Corelib Require Import ssreflect.
From stdpp Require Import base option list strings gmap numbers.
From Stdlib Require Import Strings.Byte ZArith Lia.
From S2P Require Import Prelude Data Text Errors Options Node ClusterConfig NodeConfig Mapper Backend PearlUtils PearlWorld PearlHolder PearlGroup.

(** ** Records *)

Definition rr_map {A B} (f : A → B) (r : ReadResult A) : ReadResult B :=
  match r with Found a => Found (f a) | Deleted ts => Deleted ts | NotFound => NotFound end.

(** The newest record of a key: a value with its timestamp, a mark of deletion, or nothing. *)
Definition Rec : Type := ReadResult (Z * list byte).

Definition rec_ts (r : Rec) : option Z :=
  match r with Found v => Some v.1 | Deleted ts => Some ts | NotFound => None end.

Definition is_found {A} (r : ReadResult A) : bool := match r with Found _ => true | _ => false end.

(** [new] is [old] after the record [r] was added: the newer of the two. *)
Definition added (old new r : Rec) : Prop :=
  (new = r ∧ ∀ ts t, rec_ts r = Some ts → rec_ts old = Some t → t ≤ ts) ∨
  (new = old ∧ ∃ ts t, rec_ts r = Some ts ∧ rec_ts old = Some t ∧ ts ≤ t).

Class PearlLaws `{PearlCrate} := {
  (** The directory of a storage, and the records of a directory. *)
  pe_dir : PearlStorage → string;
  content : string → list byte → Disk → Rec;
  (** Whether the storage was built to allow a second record of a key. *)
  duplicates : PearlStorage → bool;
  law_build : ∀ b d s d', pe_build b d = (Ok s, d') →
    pe_dir s = pb_work_dir b ∧ duplicates s = pb_allow_duplicates b;
  quiet_now : ∀ d p k, content p k (pe_now d).2 = content p k d;
  quiet_coarse_now : ∀ d p k, content p k (pe_coarse_now d).2 = content p k d;
  quiet_create_dir : ∀ dir d p k, content p k (fs_create_dir_all dir d).2 = content p k d;
  quiet_remove_lock : ∀ dir d p k, content p k (fs_remove_file (path_push dir "pearl.lock") d).2 = content p k d;
  quiet_build : ∀ b d p k, content p k (pe_build b d).2 = content p k d;
  quiet_init : ∀ s d p k, content p k (pe_init s d).2 = content p k d;
  quiet_init_lazy : ∀ s d p k, content p k (pe_init_lazy s d).2 = content p k d;
  quiet_read : ∀ s k' d p k, content p k (pe_read s k' d).2 = content p k d;
  quiet_contains : ∀ s k' d p k, content p k (pe_contains s k' d).2 = content p k d;
  quiet_close : ∀ s d p k, content p k (pe_close s d).2 = content p k d;
  quiet_fsync : ∀ s d p k, content p k (pe_fsyncdata s d).2 = content p k d;
  (** Reads answer the newest record. *)
  law_read : ∀ s k d r d', pe_read s k d = (Ok r, d') → r = rr_map snd (content (pe_dir s) k d);
  law_contains : ∀ s k d r d', pe_contains s k d = (Ok r, d') → r = rr_map fst (content (pe_dir s) k d);
  (** A write, whatever its answer, touches one key of one directory; one that succeeded
      added its record, unless the storage refuses duplicates and has the key. *)
  law_write_frame : ∀ s k v ts d p k', p ≠ pe_dir s ∨ k' ≠ k → content p k' (pe_write s k v ts d).2 = content p k' d;
  law_write : ∀ s k v ts d d', pe_write s k v ts d = (Ok tt, d') →
    duplicates s = true ∨ is_found (content (pe_dir s) k d) = false →
    added (content (pe_dir s) k d) (content (pe_dir s) k d') (Found (ts, v));
  law_delete_frame : ∀ s k ts b d p k', p ≠ pe_dir s ∨ k' ≠ k → content p k' (pe_delete s k ts b d).2 = content p k' d;
  law_delete : ∀ s k ts d n d', pe_delete s k ts false d = (Ok n, d') →
    added (content (pe_dir s) k d) (content (pe_dir s) k d') (Deleted ts);
  (** Whatever its answer, a deletion leaves the record or adds its mark, with
      [only_if_presented] only where there is a record. *)
  law_delete_any : ∀ s k ts b d, let old := content (pe_dir s) k d in
    let new := content (pe_dir s) k (pe_delete s k ts b d).2 in
    new = old ∨ (added old new (Deleted ts) ∧ (b = true → old ≠ NotFound));
  (** The filter of a storage admits every key with a record. *)
  admits : Filter → list byte → bool;
  law_filter : ∀ s k d f, pe_get_filter s d = Some f → content (pe_dir s) k d ≠ NotFound → admits f k = true;
  (** [HierarchicalFilters] without removals: the identifier of a child is its index. *)
  covers : HoldersContainer → Holder → list byte → Prop;
  dense : HoldersContainer → Prop;
  hf_dense : ∀ c i, dense c → hf_get_child c i = hf_iter c !! i;
  hf_possible_sublist : ∀ c k, hf_possible_childs_rev c k `sublist_of` rev (hf_iter c);
  hf_covers_possible : ∀ c k h, covers c h k → h ∈ hf_iter c → h ∈ hf_possible_childs_rev c k;
  hf_new_spec : ∀ n l, hf_iter (hf_new n l) = [] ∧ dense (hf_new n l);
  hf_push_spec : ∀ f h c n c', hf_push f h c = (n, c') →
    hf_iter c' = hf_iter c ++ [h] ∧ (dense c → dense c' ∧ n = length (hf_iter c)) ∧
    (∀ h' k, covers c h' k → covers c' h' k) ∧
    (∀ k, from_option (λ fl, admits fl k) true (f h) = true → covers c' h k);
  hf_add_spec : ∀ i k c, let c' := hf_add_to_parents i k c in
    hf_iter c' = hf_iter c ∧ (dense c → dense c') ∧ (∀ h' k', covers c h' k' → covers c' h' k') ∧
    (∀ h, hf_get_child c i = Some h → covers c' h k);
  hf_extend_spec : ∀ f l c, let c' := hf_extend f l c in
    hf_iter c' = hf_iter c ++ l ∧ (dense c → dense c');
  hf_clear_spec : ∀ c, hf_iter (hf_clear c) = [] ∧ dense (hf_clear c);
  hf_clear_get_spec : ∀ c, (hf_clear_and_get_values c).1 = hf_iter c ∧
    hf_iter (hf_clear_and_get_values c).2 = [] ∧ dense (hf_clear_and_get_values c).2;
  hf_reload_spec : ∀ f c, let c' := hf_reload f c in
    hf_iter c' = hf_iter c ∧ (dense c → dense c') ∧
    (∀ h k, h ∈ hf_iter c → from_option (λ fl, admits fl k) true (f h) = true → covers c' h k);
}.

Section holder_laws.
Context {key_size : KeySize} `{ConfigParsers, PearlLaws}.
#[local] Set Default Proof Using "Type*".

(** ** Views of the store *)

Definition running (w : PearlWorld) (id : nat) : option PearlStorage := PearlSync_get (hc_storage (holder_cell w id)).

(** The record of a key in the directory of a holder. *)
Definition hrec (w : PearlWorld) (h : Holder) (key : BobKey) : Rec :=
  content (disk_path h) (Key_from key) (pw_disk w).

Definition same_content (w w' : PearlWorld) : Prop :=
  ∀ p k, content p k (pw_disk w') = content p k (pw_disk w).

(** A storage of the directory of the holder, built from its configuration. *)
Definition storage_of (h : Holder) (s : PearlStorage) : Prop :=
  pe_dir s = disk_path h ∧ duplicates s = pl_allow_duplicates (h_config h).

(** An open holder has its own directory open. *)
Definition opened (w : PearlWorld) (h : Holder) : Prop := ∀ s, running w (h_id h) = Some s → storage_of h s.

(** A step that leaves the groups and the disks as they are, and opens or closes no holder
    but [R]. *)
Record rest_same (R : nat → Prop) (w w' : PearlWorld) : Prop := {
  rs_groups : pw_groups w' = pw_groups w;
  rs_dcs : pw_dcs w' = pw_dcs w;
  rs_fresh : pw_fresh w' = pw_fresh w;
  rs_running : ∀ id, ¬ R id → running w' id = running w id;
}.

Definition nobody : nat → Prop := λ _, False.
Definition only (h : Holder) : nat → Prop := λ id, id = h_id h.

Lemma rest_same_refl R w : rest_same R w w.
Proof. by split. Qed.

Lemma rest_same_trans (R : nat → Prop) w1 w2 w3 : rest_same R w1 w2 → rest_same R w2 w3 → rest_same R w1 w3.
Proof.
  intros H12 H23. split; [rw (rs_groups R w2 w3 H23)|rw (rs_dcs R w2 w3 H23)|rw (rs_fresh R w2 w3 H23)|].
  - apply (rs_groups R _ _ H12).
  - apply (rs_dcs R _ _ H12).
  - apply (rs_fresh R _ _ H12).
  - intros id Hid. rw (rs_running R w2 w3 H23 id Hid). by apply (rs_running R _ _ H12).
Qed.

Lemma rest_same_mono (R R' : nat → Prop) w w' : (∀ id, R id → R' id) → rest_same R w w' → rest_same R' w w'.
Proof. intros Himp [Hg Hd Hf Hr]. split; auto. Qed.

(** A step that only reads: the records, and the open storages, stay. *)
Definition calm (w w' : PearlWorld) : Prop := rest_same nobody w w' ∧ same_content w w'.

Lemma calm_refl w : calm w w.
Proof. split; [apply rest_same_refl|done]. Qed.

Lemma calm_trans w1 w2 w3 : calm w1 w2 → calm w2 w3 → calm w1 w3.
Proof.
  intros [Hr1 Hc1] [Hr2 Hc2]. split; [by apply (rest_same_trans _ w1 w2)|].
  intros p k. by rw (Hc2 p k).
Qed.

#[global] Instance calm_preorder : PreOrder calm.
Proof. split; [exact calm_refl|exact calm_trans]. Qed.

Lemma calm_running w w' id : calm w w' → running w' id = running w id.
Proof. intros [[_ _ _ Hr] _]. apply Hr. intros []. Qed.

Lemma calm_hrec w w' h k : calm w w' → hrec w' h k = hrec w h k.
Proof. intros [_ Hc]. apply Hc. Qed.

Lemma calm_set_disk d w : (∀ p k, content p k d = content p k (pw_disk w)) → calm w (set_disk d w).
Proof. intros Hd. split; [by split|exact Hd]. Qed.

(** ** Steps *)

Lemma ext_run {A} (f : Disk → A * Disk) w : ext f w = Some ((f (pw_disk w)).1, set_disk (f (pw_disk w)).2 w).
Proof. rw /ext. by destruct (f (pw_disk w)). Qed.

Lemma wpx_ext {A} (P : Prop) (f : Disk → A * Disk) (Q : A → PearlWorld → Prop) w :
  Q (f (pw_disk w)).1 (set_disk (f (pw_disk w)).2 w) → wpx P (ext f) Q w.
Proof. rw /wpx ext_run. done. Qed.

Lemma holder_cell_put id c w id' :
  holder_cell (put_holder_cell id c w) id' = if decide (id' = id) then c else holder_cell w id'.
Proof.
  rw /holder_cell /put_holder_cell /=. destruct (decide (id' = id)) as [->|Hne].
  - by rw lookup_insert_eq.
  - by rw lookup_insert_ne.
Qed.

(** A change of a cell that keeps its storage. *)
Lemma calm_put_cell id c w : hc_storage c = hc_storage (holder_cell w id) → calm w (put_holder_cell id c w).
Proof.
  intros Hc. split; [split; try done|done]. intros id' _. rw /running holder_cell_put.
  destruct (decide (id' = id)) as [->|]; [by rw Hc|done].
Qed.

Lemma running_put_cell id c w id' :
  running (put_holder_cell id c w) id' = if decide (id' = id) then PearlSync_get (hc_storage c) else running w id'.
Proof. rw /running holder_cell_put. by case_decide. Qed.

(** The cell of a holder with another storage. *)
Definition with_sync (w : PearlWorld) (id : nat) (s : PearlSync) : PearlWorld :=
  put_holder_cell id {| hc_storage := s; hc_last_modification := hc_last_modification (holder_cell w id);
                        hc_init_free := hc_init_free (holder_cell w id) |} w.

Lemma wpx_on_sync {A} (P : Prop) id (m : M PearlSync A) (Q : A → PearlWorld → Prop) w :
  wpx P m (λ a s, Q a (with_sync w id s)) (hc_storage (holder_cell w id)) → wpx P (on_sync id m) Q w.
Proof. rw /wpx /on_sync. by destruct (m _) as [[a s]|]. Qed.

Lemma set_ready_spec (P : Prop) st (Q : result unit Error → PearlSync → Prop) s :
  (PearlSync_is_ready s = false → Q (Ok tt) {| ps_state := Running st |}) →
  (∀ e, PearlSync_is_ready s = true → Q (Err e) s) → wpx P (PearlSync_set_ready st) Q s.
Proof.
  intros Hok Herr. rw /PearlSync_set_ready. apply wpx_bind, wpx_gets. simpl.
  destruct (PearlSync_is_ready s); [by apply wpx_ret, Herr|]. apply wpx_bind, wpx_modify, wpx_ret. by apply Hok.
Qed.

Lemma reset_spec (P : Prop) (Q : option PearlStorage → PearlSync → Prop) s :
  Q (PearlSync_get s) PearlSync_default → wpx P PearlSync_reset Q s.
Proof. done. Qed.

(** ** Opening a storage *)

(** A loop of attempts keeps what one attempt keeps. *)
Lemma wlp_try_loop {T E} (f : M PearlWorld (result T E)) n (I : PearlWorld → Prop)
    (Q : result T E → PearlWorld → Prop) w :
  (∀ w, I w → wlp f (λ r w', I w' ∧ Q r w') w) → I w → wlp (try_loop f n) (λ r w', I w' ∧ Q r w') w.
Proof.
  intros Hf. revert w. induction n as [|n IH]; intros w HI; simpl; [done|].
  apply wpx_bind. eapply wpx_mono; [by apply Hf|]. intros [v|e] w' [HI' HQ]; [done|].
  case_decide; [done|]. by apply IH.
Qed.

Lemma wlp_with_retries {T E} config (f : M PearlWorld (result T E)) (I : PearlWorld → Prop)
    (Q : result T E → PearlWorld → Prop) w :
  (∀ w, I w → wlp f (λ r w', I w' ∧ Q r w') w) → I w → wlp (with_retries config f) (λ r w', I w' ∧ Q r w') w.
Proof.
  intros Hf HI. rw /with_retries. apply wpx_bind. rw /wpx /expect.
  destruct (fail_retry_timeout config); [|done]. by apply wlp_try_loop.
Qed.

Lemma check_directory_calm path w : wlp (check_or_create_directory path) (λ _ w', calm w w') w.
Proof.
  rw /check_or_create_directory. apply wpx_bind, wpx_gets. case_match; [by apply wpx_ret|].
  apply wpx_bind, wpx_ext, wpx_ret, calm_set_disk. intros p k. apply quiet_create_dir.
Qed.

Lemma drop_lock_calm path w : wlp (drop_pearl_lock_file path) (λ _ w', calm w w') w.
Proof.
  rw /drop_pearl_lock_file. apply wpx_bind, wpx_gets. case_match; [|by apply wpx_ret].
  apply wpx_bind, wpx_ext, wpx_ret, calm_set_disk. intros p k. apply quiet_remove_lock.
Qed.

Lemma current_timestamp_calm w : wlp get_current_timestamp (λ _ w', calm w w') w.
Proof.
  rw /get_current_timestamp. apply wpx_bind, wpx_ext. rw /wpx /expect.
  destruct (i64_to_u64 _); [|done]. apply calm_set_disk. intros p k. apply quiet_now.
Qed.

Lemma init_pearl_calm h st w : wlp (init_pearl h st) (λ _ w', calm w w') w.
Proof.
  rw /init_pearl. apply wpx_bind. eapply wpx_mono; [apply current_timestamp_calm|]. intros ts w1 Hw1.
  apply wpx_bind.
  assert (wlp (if gets_into_interval h ts then ext (pe_init st) else ext (pe_init_lazy st))
            (λ _ w', calm w1 w') w1) as Hcalm.
  { case_match; apply wpx_ext, calm_set_disk; intros p k; [apply quiet_init|apply quiet_init_lazy]. }
  eapply wpx_mono; [exact Hcalm|]. intros r w2 Hw2. apply wpx_ret. by transitivity w1.
Qed.

Lemma build_calm h w :
  wlp (init_pearl_by_path h) (λ r w', calm w w' ∧ ∀ st, r = Ok st → storage_of h st) w.
Proof.
  rw /init_pearl_by_path. apply wpx_ext. split.
  - apply calm_set_disk. intros p k. apply quiet_build.
  - intros st Hst. apply (law_build (builder_of h) (pw_disk w) st (pe_build (builder_of h) (pw_disk w)).2).
    rw -Hst. apply surjective_pairing.
Qed.

(** An opening opens the directory of the holder. *)
Definition opens {E} (h : Holder) (r : result PearlStorage E) : Prop := ∀ st, r = Ok st → storage_of h st.

Lemma retries_calm {T E} config (f : M PearlWorld (result T E)) (Q : result T E → Prop) w :
  (∀ w, wlp f (λ r w', calm w w' ∧ Q r) w) → wlp (with_retries config f) (λ r w', calm w w' ∧ Q r) w.
Proof.
  intros Hf. apply (wlp_with_retries config f (calm w) (λ r _, Q r)); [|done].
  intros w1 Hw1. eapply wpx_mono; [apply Hf|]. intros r w2 [Hw2 HQ]. split; [by transitivity w1|done].
Qed.

Lemma retries_calm_only {T E} config (f : M PearlWorld (result T E)) w :
  (∀ w, wlp f (λ _ w', calm w w') w) → wlp (with_retries config f) (λ _ w', calm w w') w.
Proof.
  intros Hf. eapply wpx_mono; [apply (retries_calm config f (λ _, True))|by intros r w' [? _]].
  intros w1. eapply wpx_mono; [apply Hf|]. by intros r w2 ?.
Qed.

Lemma init_holder_calm h w : wlp (init_holder h) (λ r w', calm w w' ∧ opens h r) w.
Proof.
  rw /init_holder. apply wpx_bind. eapply wpx_mono; [apply retries_calm_only, check_directory_calm|].
  intros [[]|e] w1 Hw1; [|by apply wpx_ret].
  apply wpx_bind. eapply wpx_mono; [apply retries_calm_only, drop_lock_calm|].
  intros [[]|e] w2 Hw2; [|by apply wpx_ret; split; [transitivity w1|]].
  apply wpx_bind. eapply wpx_mono; [apply (retries_calm _ _ (opens h)), build_calm|].
  intros [st|e] w3 [Hw3 Hst]; [|by apply wpx_ret; split; [transitivity w1; [|transitivity w2]|]].
  apply wpx_bind. eapply wpx_mono; [apply init_pearl_calm|]. intros r w4 Hw4. apply wpx_ret.
  split; [by transitivity w1; [|transitivity w2; [|transitivity w3]]|].
  intros st' Heq. destruct r; simplify_eq. by apply Hst.
Qed.

Lemma create_storage_calm h w : wlp (create_and_prepare_storage h) (λ r w', calm w w' ∧ opens h r) w.
Proof.
  rw /create_and_prepare_storage. apply wpx_bind.
  eapply wpx_mono; [apply (retries_calm _ _ (opens h)), init_holder_calm|].
  intros [st|e] w1 [Hw1 Hst].
  - apply wpx_ret. split; [done|]. intros st' [= <-]. by apply Hst.
  - apply wpx_bind. rw /wpx /expect. by destruct (init_error e).
Qed.

(** *** Reopening *)

(** A step that may open or close [h] only, and leaves every record as it is. *)
Definition reopens (h : Holder) (w w' : PearlWorld) : Prop :=
  rest_same (only h) w w' ∧ same_content w w' ∧ (opened w h → opened w' h).

Lemma reopens_trans h w1 w2 w3 : reopens h w1 w2 → reopens h w2 w3 → reopens h w1 w3.
Proof.
  intros (Hr1 & Hc1 & Ho1) (Hr2 & Hc2 & Ho2). split; [by apply (rest_same_trans _ w1 w2)|].
  split; [|auto]. intros p k. by rw (Hc2 p k).
Qed.

Lemma calm_opened h w w' : calm w w' → opened w h → opened w' h.
Proof. intros Hc Ho s. rw (calm_running _ _ _ Hc). apply Ho. Qed.

Lemma calm_reopens h w w' : calm w w' → reopens h w w'.
Proof.
  intros Hc. split; [|split; [apply Hc|by apply calm_opened]].
  destruct Hc as [Hr _]. by apply (rest_same_mono nobody).
Qed.

Lemma reopens_refl h w : reopens h w w.
Proof. apply calm_reopens, calm_refl. Qed.

#[global] Instance reopens_preorder h : PreOrder (reopens h).
Proof. split; [exact (reopens_refl h)|exact (reopens_trans h)]. Qed.

(** A change of the cell of [h] to a storage of its directory. *)
Lemma reopens_put_cell h c w :
  (∀ s, PearlSync_get (hc_storage c) = Some s → storage_of h s) →
  reopens h w (put_holder_cell (h_id h) c w).
Proof.
  intros Hs. split; [split; try done|split; [done|]].
  - intros id Hid. rw running_put_cell decide_False //.
  - intros _ s. rw running_put_cell decide_True //. apply Hs.
Qed.

Lemma set_init_free_calm h free w : wp (set_init_free h free) (λ _ w', calm w w') w.
Proof. rw /set_init_free. apply wpx_modify. by apply calm_put_cell. Qed.

Lemma reset_reopens h w : wp (on_sync (h_id h) PearlSync_reset) (λ _ w', reopens h w w') w.
Proof. apply wpx_on_sync, reset_spec. by apply reopens_put_cell. Qed.

Lemma open_storage_reopens h w : wlp (open_storage h) (λ _ w', reopens h w w') w.
Proof.
  rw /open_storage. apply wpx_bind. eapply wpx_mono; [apply create_storage_calm|].
  intros [st|e] w1 [Hw1 Hst]; [|by apply wpx_ret, calm_reopens].
  apply wpx_bind, wpx_on_sync, set_ready_spec; intros *; [intros _|done].
  apply wpx_bind, (wpx_expect _ _ tt); [done|]. apply wpx_ret.
  apply (reopens_trans h _ w1); [by apply calm_reopens|].
  apply reopens_put_cell. simpl. intros s [= <-]. by apply Hst.
Qed.

(** The run of a step that cannot abort. *)
Lemma reopens_step {A B} h (m : M PearlWorld A) (f : A → M PearlWorld B) (Q : B → PearlWorld → Prop) w :
  wlp m (λ _ w', reopens h w w') w → (∀ a w1, reopens h w w1 → wlp (f a) Q w1) → wlp (m ≫= f) Q w.
Proof. intros Hm Hf. apply wpx_bind. eapply wpx_mono; [exact Hm|]. intros a w1 Hw1. by apply Hf. Qed.

Lemma wp_wlp {A} (m : M PearlWorld A) (Q : A → PearlWorld → Prop) w : wp m Q w → wlp m Q w.
Proof. rw /wpx. by destruct (m w) as [[a w']|]. Qed.

Lemma wlp_calm_reopens {A} h (m : M PearlWorld A) w : wlp m (λ _ w', calm w w') w → wlp m (λ _ w', reopens h w w') w.
Proof. intros Hm. eapply wpx_mono; [exact Hm|]. intros a w' Hw'. by apply calm_reopens. Qed.

Lemma close_calm st w : wp (ext (pe_close st)) (λ _ w', calm w w') w.
Proof. apply wpx_ext, calm_set_disk. intros p k. apply quiet_close. Qed.

Lemma fsync_calm st w : wp (ext (pe_fsyncdata st)) (λ _ w', calm w w') w.
Proof. apply wpx_ext, calm_set_disk. intros p k. apply quiet_fsync. Qed.

(** The end of a chain of steps. *)
Ltac reopens_chain := first [done | eassumption | etransitivity; [eassumption|reopens_chain]].

Lemma try_reinit_reopens h w : wlp (try_reinit h) (λ _ w', reopens h w w') w.
Proof.
  rw /try_reinit. apply wpx_bind, wpx_gets. case_match; [|apply wpx_ret, reopens_refl].
  apply (reopens_step h); [apply wlp_calm_reopens, wp_wlp, set_init_free_calm|]. intros _ w1 H1w.
  apply (reopens_step h); [apply wp_wlp, reset_reopens|]. intros old w2 H2w.
  apply (reopens_step h).
  { destruct old as [st|]; [|by apply wpx_ret]. apply wpx_bind.
    eapply wpx_mono; [apply wp_wlp, close_calm|]. intros ? w3 H3w. by apply wpx_ret, calm_reopens. }
  intros _ w3 H3w. apply (reopens_step h); [apply open_storage_reopens|]. intros r w4 H4w.
  apply (reopens_step h); [apply wlp_calm_reopens, wp_wlp, set_init_free_calm|]. intros _ w5 H5w.
  apply wpx_ret. reopens_chain.
Qed.

Lemma prepare_storage_reopens h w : wlp (prepare_storage h) (λ _ w', reopens h w w') w.
Proof.
  rw /prepare_storage.
  apply (reopens_step h); [apply wlp_calm_reopens, wp_wlp, set_init_free_calm|]. intros _ w1 H1w.
  apply (reopens_step h); [apply open_storage_reopens|]. intros r w2 H2w.
  apply (reopens_step h); [apply wlp_calm_reopens, wp_wlp, set_init_free_calm|]. intros _ w3 H3w.
  apply wpx_ret. reopens_chain.
Qed.

Lemma close_storage_reopens h w : wp (close_storage h) (λ _ w', reopens h w w' ∧ running w' (h_id h) = None) w.
Proof.
  rw /close_storage. apply wpx_bind, wpx_on_sync, reset_spec.
  set (w1 := with_sync w (h_id h) PearlSync_default).
  assert (reopens h w w1 ∧ running w1 (h_id h) = None) as [H1w Hn1].
  { split; [by apply reopens_put_cell|]. rw running_put_cell decide_True //. }
  destruct (PearlSync_get _) as [st|]; [|by apply wpx_ret].
  apply wpx_bind. eapply wpx_mono; [apply fsync_calm|]. intros ? w2 H2w.
  apply wpx_bind. eapply wpx_mono; [apply close_calm|]. intros ? w3 H3w. apply wpx_ret. split.
  - transitivity w1; [done|]. apply calm_reopens. by transitivity w2.
  - rw (calm_running _ _ _ H3w) (calm_running _ _ _ H2w). done.
Qed.
End holder_laws.
