(* ===== verification/PearlReads.v ===== *)
(** * PearlReads: get and exist of a group

    A read asks the holders the filters admit, newest first, and keeps the newest answer.
    The theorems say that nothing newer is missed by the filters or by the step of
    timestamps a group may skip. *)

From Corelib Require Import ssreflect.
From stdpp Require Import base option list strings gmap numbers.
From Stdlib Require Import Strings.Byte ZArith Lia.
From S2P Require Import Prelude Data Text Errors Options Node ClusterConfig NodeConfig Mapper Backend PearlUtils PearlWorld PearlHolder PearlGroup PearlLaws.

Section reads.
Context {key_size : KeySize} `{ConfigParsers, PearlLaws}.
#[local] Set Default Proof Using "Type*".

(** ** What a read of a holder answers *)

(** The value of a record is what [write_disk] wrote. *)
Definition rec_wf (r : Rec) : Prop :=
  ∀ ts v, r = Found (ts, v) → ∃ d, v = to_serialized_bytes d ∧ ts = timestamp (meta d) ∧ data_wf d.

Definition answers (r : Rec) (rr : ReadResult BobData) : Prop :=
  match rr with
  | Found d => r = Found (timestamp (meta d), to_serialized_bytes d)
  | Deleted ts => r = Deleted ts
  | NotFound => r = NotFound
  end.

(** The holder is open and its storage reads the key. *)
Definition readable (w : PearlWorld) (h : Holder) (key : BobKey) : Prop :=
  ∃ s, running w (h_id h) = Some s ∧ ∀ d, is_ok (pe_read s (Key_from key) d).1 = true.

Definition checkable (w : PearlWorld) (h : Holder) (key : BobKey) : Prop :=
  ∃ s, running w (h_id h) = Some s ∧ ∀ d, is_ok (pe_contains s (Key_from key) d).1 = true.

Lemma holder_read_spec h k w :
  opened w h → rec_wf (hrec w h k) →
  wp (holder_read h k) (λ r w', calm w w' ∧
    (∀ rr, r = Ok rr → answers (hrec w h k) rr) ∧ (readable w h k → is_ok r = true)) w.
Proof.
  intros Ho Hwf. rw /holder_read. apply wpx_bind, wpx_gets.
  rw -/(running w (h_id h)). destruct (running w (h_id h)) as [s|] eqn:Hrun.
  - apply wpx_bind, wpx_ext.
    destruct (pe_read s (Key_from k) (pw_disk w)) as [res d'] eqn:Hread. simpl.
    assert (calm w (set_disk d' w)) as Hcalm.
    { apply calm_set_disk. intros p k'. pose proof (quiet_read s (Key_from k) (pw_disk w) p k') as Hq.
      by rw Hread in Hq. }
    assert (readable w h k → is_ok res = true) as Hok.
    { intros (s' & Hs' & Hall). rw Hrun in Hs'. injection Hs' as <-.
      specialize (Hall (pw_disk w)). by rw Hread in Hall. }
    destruct res as [rr|e].
    + apply law_read in Hread. rw (proj1 (Ho s Hrun)) -/(hrec w h k) in Hread.
      destruct (hrec w h k) as [[ts v]|ts|] eqn:Hr; simpl in Hread; subst rr.
      * destruct (Hwf ts v) as (d & -> & -> & Hd); [done|].
        apply wpx_bind, (wpx_expect _ _ (Ok d)); [by apply serialized_parse|]. apply wpx_ret.
        split_and!; [done| |done]. intros rr [= <-]. done.
      * apply wpx_ret. split_and!; [done| |done]. by intros rr [= <-].
      * apply wpx_ret. split_and!; [done| |done]. by intros rr [= <-].
    + apply wpx_ret. split_and!; [done|done|]. intros Hr. by specialize (Hok Hr).
  - apply wpx_ret. split_and!; [apply calm_refl|done|]. intros (s & Hs & _). congruence.
Qed.

Lemma holder_exist_spec h k w :
  opened w h →
  wp (holder_exist h k) (λ r w', calm w w' ∧
    (∀ rr, r = Ok rr → rr = rr_map fst (hrec w h k)) ∧ (checkable w h k → is_ok r = true)) w.
Proof.
  intros Ho. rw /holder_exist. apply wpx_bind, wpx_gets.
  rw -/(running w (h_id h)). destruct (running w (h_id h)) as [s|] eqn:Hrun.
  - apply wpx_bind, wpx_ext, wpx_ret.
    destruct (pe_contains s (Key_from k) (pw_disk w)) as [res d'] eqn:Hread. simpl. split_and!.
    + apply calm_set_disk. intros p k'. pose proof (quiet_contains s (Key_from k) (pw_disk w) p k') as Hq.
      by rw Hread in Hq.
    + intros rr Hrr. destruct res as [r|e]; simplify_eq/=. apply law_contains in Hread. by rw (proj1 (Ho s Hrun)) in Hread.
    + intros (s' & Hs' & Hall). rw Hrun in Hs'. injection Hs' as <-. specialize (Hall (pw_disk w)).
      rw Hread in Hall. by destruct res.
  - apply wpx_ret. split_and!; [apply calm_refl|done|]. intros (s & Hs & _). congruence.
Qed.

(** A read of the group: an error opens the holder again. *)
Lemma get_common_spec h k w :
  opened w h → rec_wf (hrec w h k) →
  wpx (¬ readable w h k) (get_common h k) (λ r w', reopens h w w' ∧
    (∀ rr, r = Ok rr → answers (hrec w h k) rr) ∧ (readable w h k → is_ok r = true)) w.
Proof.
  intros Ho Hwf. rw /get_common. apply wpx_bind.
  eapply wpx_mono. { pose proof (holder_read_spec h k w Ho Hwf) as Hr. rw /wpx in Hr |- *.
    destruct (holder_read h k w) as [[r w']|]; [exact Hr|done]. }
  intros [rr|e] w1 (Hc & Ha & Hok); simpl.
  - apply wpx_ret. split_and!; [by apply calm_reopens| |done]. intros rr' [= <-]. by apply Ha.
  - assert (¬ readable w h k) as Hnr by (intros Hr; by specialize (Hok Hr)).
    apply wpx_bind. rw /reinit_after. case_match.
    + do 2 apply wpx_ret. split_and!; [by apply calm_reopens|done|done].
    + apply wpx_bind. pose proof (try_reinit_reopens h w1) as Hre. rw /wpx in Hre |- *.
      destruct (try_reinit h w1) as [[r w2]|]; [|done]. simpl.
      split_and!; [|done|done]. transitivity w1; [by apply calm_reopens|done].
Qed.

Lemma get_common_readable h k w :
  opened w h → rec_wf (hrec w h k) → readable w h k →
  ∃ rr w', get_common h k w = Some (Ok rr, w') ∧ calm w w' ∧ answers (hrec w h k) rr.
Proof.
  intros Ho Hwf Hr. destruct (wp_total _ _ _ (holder_read_spec h k w Ho Hwf)) as (r & w' & Hread & Hc & Ha & Hok).
  destruct r as [rr|e]; [|by specialize (Hok Hr)]. exists rr, w'. rw /get_common (bind_run _ _ _ _ _ Hread).
  split_and!; [done..|]. by apply Ha.
Qed.

Lemma holder_exist_checkable h k w :
  opened w h → checkable w h k →
  ∃ w', holder_exist h k w = Some (Ok (rr_map fst (hrec w h k)), w') ∧ calm w w'.
Proof.
  intros Ho Hr. destruct (wp_total _ _ _ (holder_exist_spec h k w Ho)) as (r & w' & Hread & Hc & Ha & Hok).
  destruct r as [rr|e]; [|by specialize (Hok Hr)]. exists w'. rw Hread. by rw (Ha rr).
Qed.

(** ** The scan *)

Section scan.
Context (g : Group).

(** A holder a scan skips stays skipped when the newest timestamp grows. *)
Lemma should_check_antitone h m m' :
  m ≤ m' → should_check_holder g h (Some m') = true → should_check_holder g h (Some m) = true.
Proof. intros Hm. rw /should_check_holder. destruct (safe_timestamp_step g); [|done]. lia. Qed.

(** Every record, or a newer one, is in a holder that is read however far the scan is. *)
Definition timely (rec : Holder → Rec) (l : list Holder) : Prop :=
  ∀ h t, h ∈ l → rec_ts (rec h) = Some t →
    ∃ h' t', h' ∈ l ∧ rec_ts (rec h') = Some t' ∧ t ≤ t' ∧ should_check_holder g h' (Some t') = true.

(** [result] with the time [max] is the record of one of the holders. *)
Definition scan_from (rec : Holder → Rec) (l : list Holder) (s : GetScan) : Prop :=
  match gs_max_timestamp s with
  | None => gs_result s = None
  | Some m => ∃ h, h ∈ l ∧
      rec h = match gs_result s with Some d => Found (m, to_serialized_bytes d) | None => Deleted m end ∧
      ∀ d, gs_result s = Some d → timestamp (meta d) = m
  end.

Definition scan_newest (rec : Holder → Rec) (l : list Holder) (s : GetScan) : Prop :=
  gs_has_error s = false → ∀ h t, h ∈ l → rec_ts (rec h) = Some t →
    ∃ m, gs_max_timestamp s = Some m ∧ (t ≤ m ∨ should_check_holder g h (Some m) = false).

Lemma scan_from_mono rec l l' s : (∀ h, h ∈ l → h ∈ l') → scan_from rec l s → scan_from rec l' s.
Proof.
  intros Hl. rw /scan_from. destruct (gs_max_timestamp s); [|done]. intros (h & Hin & Hr). eauto.
Qed.

(** One answer. *)
Lemma get_answer_from rec l s h rr :
  answers (rec h) rr → scan_from rec l s → scan_from rec (l ++ [h]) (get_answer s (Ok rr)).
Proof.
  intros Ha Hs. assert (scan_from rec (l ++ [h]) s) as Hs' by (apply (scan_from_mono rec l); [set_solver|done]).
  destruct rr as [d|ts|]; simpl in Ha |- *; [| |done].
  all: case_match; [|done]; rw /scan_from /=; exists h; split_and!; [set_solver|done|].
  - by intros d' [= <-].
  - done.
Qed.

Lemma get_answer_newest rec l s h rr :
  answers (rec h) rr → scan_newest rec l s → scan_newest rec (l ++ [h]) (get_answer s (Ok rr)).
Proof.
  intros Ha Hs.
  assert (∃ m', gs_has_error (get_answer s (Ok rr)) = gs_has_error s ∧
    gs_max_timestamp (get_answer s (Ok rr)) = m' ∧
    (∀ t, rec_ts (rec h) = Some t → ∃ m, m' = Some m ∧ t ≤ m) ∧
    (∀ m, gs_max_timestamp s = Some m → ∃ m1, m' = Some m1 ∧ m ≤ m1)) as (m' & He & Hm & Hnew & Hold).
  { assert (∀ ts, rec_ts (rec h) = Some ts →
      ∃ m', (if is_newer (gs_max_timestamp s) ts then Some ts else gs_max_timestamp s) = m' ∧
      (∀ t, rec_ts (rec h) = Some t → ∃ m, m' = Some m ∧ t ≤ m) ∧
      (∀ m, gs_max_timestamp s = Some m → ∃ m1, m' = Some m1 ∧ m ≤ m1)) as Hcase.
    { intros ts Hts. rw /is_newer. destruct (gs_max_timestamp s) as [m|] eqn:Hmax.
      - destruct (Z.ltb_spec m ts); eexists; (split; [done|]); split; intros t Ht; simplify_eq; eexists; split; done || lia.
      - eexists. split; [done|]. split; intros t Ht; simplify_eq. by eexists. }
    destruct rr as [d|ts|]; simpl in Ha |- *.
    - destruct (Hcase (timestamp (meta d))) as (m' & Hm & H1' & H2'); [by rw Ha|].
      exists m'. split_and!; [by case_match|rw -Hm; by case_match|done|done].
    - destruct (Hcase ts) as (m' & Hm & H1' & H2'); [by rw Ha|].
      exists m'. split_and!; [by case_match|rw -Hm; by case_match|done|done].
    - eexists. split_and!; [done..| |]; rw ?Ha; [done|]. eauto with lia. }
  intros Hne h' t Hin Ht. rw He in Hne. rw Hm.
  apply elem_of_app in Hin as [Hin|Hin%list_elem_of_singleton].
  - destruct (Hs Hne h' t Hin Ht) as (m & Hmax & Hcase). destruct (Hold m Hmax) as (m1 & -> & Hle).
    exists m1. split; [done|]. destruct Hcase as [?|Hskip]; [left; lia|].
    destruct (should_check_holder g h' (Some m1)) eqn:Hc; [|by right].
    apply (should_check_antitone h' m m1 Hle) in Hc. congruence.
  - subst h'. destruct (Hnew t Ht) as (m & -> & Hle). eauto.
Qed.

(** A failed answer keeps the newest record and remembers the failure. *)
Lemma get_answer_err_from rec l s h e :
  scan_from rec l s → scan_from rec (l ++ [h]) (get_answer s (Err e)).
Proof. intros Hs. apply (scan_from_mono rec l _ s); [set_solver|done]. Qed.

Lemma get_answer_err_newest rec l s e : scan_newest rec l (get_answer s (Err e)).
Proof. done. Qed.

(** A skipped holder. *)
Lemma skip_newest rec l s h :
  should_check_holder g h (gs_max_timestamp s) = false → scan_newest rec l s → scan_newest rec (l ++ [h]) s.
Proof.
  intros Hskip Hs Hne h' t Hin Ht. apply elem_of_app in Hin as [Hin|Hin%list_elem_of_singleton].
  - by apply Hs.
  - subst h'. rw /should_check_holder in Hskip |- *. destruct (gs_max_timestamp s) as [m|]; [|done].
    exists m. split; [done|]. by right.
Qed.

(** At the end of a scan without failures nothing is newer than what it holds. *)
Lemma scan_complete rec l s :
  timely rec l → scan_newest rec l s → gs_has_error s = false →
  ∀ h t, h ∈ l → rec_ts (rec h) = Some t → ∃ m, gs_max_timestamp s = Some m ∧ t ≤ m.
Proof.
  intros Htime Hs Hne h t Hin Ht. destruct (Htime h t Hin Ht) as (h' & t' & Hin' & Ht' & Hle & Hchk).
  destruct (Hs Hne h' t' Hin' Ht') as (m & Hmax & [Hm|Hskip]).
  - exists m. split; [done|lia].
  - exists m. split; [done|]. destruct (Z.le_gt_cases t' m); [lia|].
    apply (should_check_antitone h' m t') in Hchk; [congruence|lia].
Qed.
End scan.

(** *** The loop *)

(** What the rest of the loop relies on: the holders not yet asked are as at the start. *)
Definition loop_world (w0 w : PearlWorld) (done : list Holder) : Prop :=
  rest_same (λ id, id ∈ h_id <$> done) w0 w ∧ same_content w0 w.

Lemma loop_world_step w0 w w' pre h :
  loop_world w0 w pre → reopens h w w' → loop_world w0 w' (pre ++ [h]).
Proof.
  intros [Hr Hc] (Hr' & Hc' & _). split.
  - apply (rest_same_trans _ w0 w).
    + apply (rest_same_mono (λ id, id ∈ h_id <$> pre)); [|done]. intros id Hid. rw fmap_app. set_solver.
    + apply (rest_same_mono (only h)); [|done]. intros id ->. rw fmap_app. set_solver.
  - intros p k. by rw (Hc' p k).
Qed.

Lemma loop_world_hrec w0 w pre h k : loop_world w0 w pre → hrec w h k = hrec w0 h k.
Proof. intros [_ Hc]. apply Hc. Qed.

Lemma loop_world_running w0 w pre h :
  loop_world w0 w pre → h_id h ∉ h_id <$> pre → running w (h_id h) = running w0 (h_id h).
Proof. intros [Hr _] Hin. by apply (rs_running _ _ _ Hr). Qed.

Lemma fresh_in_loop {l pre h rest} :
  NoDup (h_id <$> l) → l = pre ++ h :: rest → h_id h ∉ h_id <$> pre.
Proof.
  intros Hnd ->. rw fmap_app /= in Hnd. apply list.NoDup_app in Hnd as (_ & Hd & _).
  intros Hin. apply (Hd _ Hin). constructor.
Qed.

Lemma get_loop_spec g k l w0 :
  NoDup (h_id <$> l) → (∀ h, h ∈ l → opened w0 h) → (∀ h, h ∈ l → rec_wf (hrec w0 h k)) →
  wpx (¬ ∀ h, h ∈ l → readable w0 h k) (for_each (get_step g k) GetScan_new l)
    (λ s w', loop_world w0 w' l ∧ scan_from (λ h, hrec w0 h k) l s ∧ scan_newest g (λ h, hrec w0 h k) l s ∧
      ((∀ h, h ∈ l → readable w0 h k) → gs_has_error s = false)) w0.
Proof.
  intros Hnd Hop Hwf.
  apply (wpx_for_each _ (get_step g k) l (λ pre s w', loop_world w0 w' pre ∧
    scan_from (λ h, hrec w0 h k) pre s ∧ scan_newest g (λ h, hrec w0 h k) pre s ∧
    ((∀ h, h ∈ l → readable w0 h k) → gs_has_error s = false))).
  { split; [by split; [apply rest_same_refl|]|]. split; [done|]. split; [|done]. intros _ h t Hin. set_solver. }
  intros pre h rest s w Hl (Hw & Hfrom & Hnew & Herr). rw /get_step.
  destruct (should_check_holder g h (gs_max_timestamp s)) eqn:Hcheck; cycle 1.
  { apply wpx_ret. split_and!; [by apply (loop_world_step w0 w w), reopens_refl| |by apply skip_newest|done].
    by apply (scan_from_mono _ pre); [set_solver|]. }
  assert (h ∈ l) as Hin by (subst; set_solver).
  pose proof (loop_world_running w0 w pre h Hw (fresh_in_loop Hnd Hl)) as Hrun.
  assert (readable w h k ↔ readable w0 h k) as Hread by (rw /readable Hrun; done).
  assert (opened w h) as Ho by (intros s'; rw Hrun; by apply Hop).
  apply wpx_bind. eapply wpx_mono.
  { assert (rec_wf (hrec w h k)) as Hwf' by (rw (loop_world_hrec w0 w pre); [done|by apply Hwf]).
    pose proof (get_common_spec h k w Ho Hwf') as Hspec. rw /wpx in Hspec |- *.
    destruct (get_common h k w) as [[r w']|]; [exact Hspec|]. intros Hall. apply Hspec, Hread. by apply Hall. }
  intros r w' (Hre & Hans & Hok). apply wpx_ret. rw (loop_world_hrec w0 w pre h k Hw) in Hans.
  split_and!; [by apply (loop_world_step w0 w)|..].
  - destruct r as [rr|e]; [by apply get_answer_from; [apply Hans|]|by apply get_answer_err_from].
  - destruct r as [rr|e]; [by apply get_answer_newest; [apply Hans|]|by apply get_answer_err_newest].
  - intros Hall. specialize (Hok (proj2 Hread (Hall h Hin))). destruct r as [rr|e]; [|done].
    rw -(Herr Hall). destruct rr; simpl; repeat case_match; done.
Qed.

(** ** The group *)

Definition holders_of (g : Group) (w : PearlWorld) : list Holder := hf_iter (gc_holders (group_cell w g)).

(** The holders are different objects over different directories, and the filters of the
    container admit every key with a record. *)
Record group_ok (g : Group) (w : PearlWorld) : Prop := {
  go_ids : NoDup (h_id <$> holders_of g w);
  go_paths : NoDup (disk_path <$> holders_of g w);
  go_opened : ∀ h, h ∈ holders_of g w → opened w h;
  go_covers : ∀ h k, h ∈ holders_of g w → content (disk_path h) k (pw_disk w) ≠ NotFound →
    covers (gc_holders (group_cell w g)) h k;
}.

(** [r] is the newest record of the key, or one as new. *)
Definition newest_is (l : list Holder) (w : PearlWorld) (k : BobKey) (r : Rec) : Prop :=
  (r = NotFound ∨ ∃ h, h ∈ l ∧ hrec w h k = r) ∧
  ∀ h t, h ∈ l → rec_ts (hrec w h k) = Some t → ∃ m, rec_ts r = Some m ∧ t ≤ m.

Definition records_wf (g : Group) (w : PearlWorld) (k : BobKey) : Prop :=
  ∀ h, h ∈ holders_of g w → rec_wf (hrec w h k).

Definition possible (g : Group) (w : PearlWorld) (k : BobKey) : list Holder :=
  hf_possible_childs_rev (gc_holders (group_cell w g)) (Key_from k).

Lemma possible_in g w k h : h ∈ possible g w k → h ∈ holders_of g w.
Proof.
  intros Hin. pose proof (hf_possible_sublist (gc_holders (group_cell w g)) (Key_from k)) as Hsub.
  apply (elem_of_sublist _ _ _ Hin) in Hsub. apply list_elem_of_In, in_rev, list_elem_of_In in Hsub. done.
Qed.

Lemma possible_nodup g w k : group_ok g w → NoDup (h_id <$> possible g w k).
Proof.
  intros Hok. apply (sublist_NoDup _ (h_id <$> rev (holders_of g w))).
  - apply (NoDup_Permutation_proper _ _ (fmap_Permutation h_id _ _ (Permutation_rev (holders_of g w)))).
    apply (go_ids _ _ Hok).
  - apply fmap_sublist, hf_possible_sublist.
Qed.

(** A holder with a record is asked. *)
Lemma possible_complete g w k h t :
  group_ok g w → h ∈ holders_of g w → rec_ts (hrec w h k) = Some t → h ∈ possible g w k.
Proof.
  intros Hok Hin Ht. apply hf_covers_possible; [|done]. apply (go_covers _ _ Hok); [done|].
  intros Hnf. rw /hrec Hnf in Ht. done.
Qed.

Lemma timely_possible g w k :
  group_ok g w → timely g (λ h, hrec w h k) (holders_of g w) → timely g (λ h, hrec w h k) (possible g w k).
Proof.
  intros Hok Htime h t Hin Ht. destruct (Htime h t) as (h' & t' & Hin' & Ht' & Hle & Hc); [|done|].
  - by apply (possible_in g w k).
  - exists h', t'. split_and!; [by apply (possible_complete g w k h' t')|done..].
Qed.

(** What the end of the scan says of the whole group. *)
Lemma scan_end g w k s :
  group_ok g w → timely g (λ h, hrec w h k) (holders_of g w) →
  scan_from (λ h, hrec w h k) (possible g w k) s → scan_newest g (λ h, hrec w h k) (possible g w k) s →
  gs_has_error s = false →
  ∃ r, newest_is (holders_of g w) w k r ∧
    match gs_result s with
    | Some d => r = Found (timestamp (meta d), to_serialized_bytes d)
    | None => is_found r = false
    end.
Proof.
  intros Hok Htime Hfrom Hnew Herr.
  pose proof (scan_complete g _ _ s (timely_possible g w k Hok Htime) Hnew Herr) as Hmax.
  assert (∀ h t, h ∈ holders_of g w → rec_ts (hrec w h k) = Some t →
            ∃ m, gs_max_timestamp s = Some m ∧ t ≤ m) as Hall.
  { intros h t Hin Ht. apply (Hmax h t); [|done]. by apply (possible_complete g w k h t). }
  rw /scan_from in Hfrom. destruct (gs_max_timestamp s) as [m|] eqn:Hm.
  - destruct Hfrom as (h & Hin & Hrec & Hts). exists (hrec w h k). split.
    + split; [right; exists h; split; [by apply (possible_in g w k)|done]|].
      intros h' t Hin' Ht. destruct (Hall h' t Hin' Ht) as (m' & [= <-] & Hle). exists m. split; [|done].
      rw Hrec. by destruct (gs_result s).
    + rw Hrec. destruct (gs_result s) as [d|]; [|done]. by rw (Hts d).
  - exists NotFound. rw Hfrom. split; [|done]. split; [by left|].
    intros h t Hin Ht. by destruct (Hall h t Hin Ht) as (m & ? & _).
Qed.

(** What [get] of a group answers, on a run that may meet failing holders. *)
Definition get_sound (g : Group) (w : PearlWorld) (k : BobKey) (r : result BobData Error) : Prop :=
  (∀ d, r = Ok d → ∃ h, h ∈ holders_of g w ∧ hrec w h k = Found (timestamp (meta d), to_serialized_bytes d)) ∧
  (r = Err (key_not_found k) → ∃ rc, newest_is (holders_of g w) w k rc ∧ is_found rc = false).

(** The newest record decides. *)
Definition get_newest (g : Group) (w : PearlWorld) (k : BobKey) (r : result BobData Error) : Prop :=
  ∃ rc, newest_is (holders_of g w) w k rc ∧
    match r with
    | Ok d => rc = Found (timestamp (meta d), to_serialized_bytes d)
    | Err e => e = key_not_found k ∧ is_found rc = false
    end.

Lemma group_get_run g k w :
  group_ok g w → gc_reinit_free (group_cell w g) = true → records_wf g w k →
  timely g (λ h, hrec w h k) (holders_of g w) →
  wpx (¬ ∀ h, h ∈ holders_of g w → readable w h k) (group_get g k)
    (λ r w', same_content w w' ∧ get_sound g w k r ∧
       ((∀ h, h ∈ holders_of g w → readable w h k) → get_newest g w k r)) w.
Proof.
  intros Hok Hfree Hwf Htime. rw /group_get /under_reinit_lock. apply wpx_bind, wpx_gets. rw Hfree.
  apply wpx_bind, wpx_gets. apply wpx_bind.
  assert (∀ h, h ∈ possible g w k → opened w h) as Hop
    by (intros h Hin; by apply (go_opened _ _ Hok), (possible_in g w k)).
  assert (∀ h, h ∈ possible g w k → rec_wf (hrec w h k)) as Hwf'
    by (intros h Hin; by apply Hwf, (possible_in g w k)).
  pose proof (get_loop_spec g k (possible g w k) w (possible_nodup g w k Hok) Hop Hwf') as Hloop.
  rw /wpx in Hloop |- *. rw -/(possible g w k).
  destruct (for_each _ _ _ w) as [[s w']|]; cycle 1.
  { intros Hall. apply Hloop. intros h Hin. by apply Hall, (possible_in g w k). }
  destruct Hloop as (Hw & Hfrom & Hnew & Herr). simpl. split; [apply Hw|].
  assert (gs_has_error s = false → get_newest g w k (match gs_result s with
            | Some result => Ok result
            | None => if gs_has_error s then Err (failed "cannot read from some pearls") else Err (key_not_found k)
            end)) as Hend.
  { intros Hne. destruct (scan_end g w k s) as (rc & Hrc & Hres); [done..|]. exists rc. split; [done|].
    rw Hne. by destruct (gs_result s). }
  split; [split|].
  - intros d Hd. rw /scan_from in Hfrom. destruct (gs_result s) as [d'|] eqn:Hres; [|by destruct (gs_has_error s)].
    injection Hd as ->. destruct (gs_max_timestamp s) as [m|]; [|done].
    destruct Hfrom as (h & Hin & Hrec & Hts). exists h. split; [by apply (possible_in g w k)|].
    by rw Hrec (Hts d).
  - intros Hr. destruct (gs_result s) as [d|] eqn:Hres; [done|].
    destruct (gs_has_error s) eqn:Hne; [done|]. destruct Hend as (rc & Hrc & _ & Hf); [done|]. by exists rc.
  - intros Hall. apply Hend, Herr. intros h Hin. by apply Hall, (possible_in g w k).
Qed.

(** C8: [get] of a group with readable holders returns, and answers by the newest record of
    the key among all its holders: the value if it is one, not found if it is a mark of
    deletion or there is none.  The filters, the order of the holders and the step of
    timestamps it may skip do not matter. *)
Theorem group_get_newest g k w :
  group_ok g w → gc_reinit_free (group_cell w g) = true → records_wf g w k →
  timely g (λ h, hrec w h k) (holders_of g w) → (∀ h, h ∈ holders_of g w → readable w h k) →
  ∃ r w', group_get g k w = Some (r, w') ∧ get_newest g w k r.
Proof.
  intros Hok Hfree Hwf Htime Hread. pose proof (group_get_run g k w Hok Hfree Hwf Htime) as Hrun.
  rw /wpx in Hrun. destruct (group_get g k w) as [[r w']|]; [|by exfalso; apply Hrun].
  exists r, w'. split; [done|]. by apply Hrun.
Qed.

(** C9: With holders that are closed or fail to read, [get] of a group still returns only
    data a holder has under the key, and answers not found only when the newest record of
    the key is not a value: a failure is never reported as a missing key. *)
Theorem group_get_failures g k w r w' :
  group_ok g w → gc_reinit_free (group_cell w g) = true → records_wf g w k →
  timely g (λ h, hrec w h k) (holders_of g w) →
  group_get g k w = Some (r, w') → get_sound g w k r.
Proof.
  intros Hok Hfree Hwf Htime Hget. pose proof (group_get_run g k w Hok Hfree Hwf Htime) as Hrun.
  rw /wpx Hget in Hrun. apply Hrun.
Qed.
(** ** exist *)

(** What [exist] keeps of the state of [get]. *)
Definition exist_of (s : GetScan) : option Z * bool :=
  (gs_max_timestamp s, match gs_result s with Some _ => true | None => false end).

Lemma exist_of_answer s r rr : answers r rr → exist_of (get_answer s (Ok rr)) = exist_answer (exist_of s) (rr_map fst r).
Proof. destruct rr as [d|ts|]; simpl; intros ->; simpl; [| |done]; by destruct (is_newer _ _). Qed.

Lemma scans_agree g k l w0 :
  (∀ h, h ∈ l → opened w0 h ∧ rec_wf (hrec w0 h k) ∧ readable w0 h k ∧ checkable w0 h k) →
  ∀ s wg we, calm w0 wg → calm w0 we →
  ∃ s' wg' we', for_each (get_step g k) s l wg = Some (s', wg') ∧
    for_each (exist_step g k) (exist_of s) l we = Some (exist_of s', we') ∧ calm w0 we'.
Proof.
  induction l as [|h l IH]; intros Hl s wg we Hg He; [by exists s, wg, we|].
  destruct (Hl h) as (Ho & Hwf & Hr & Hc); [by constructor|].
  assert (∀ s wg we, calm w0 wg → calm w0 we → ∃ s' wg' we', for_each (get_step g k) s l wg = Some (s', wg') ∧
            for_each (exist_step g k) (exist_of s) l we = Some (exist_of s', we') ∧ calm w0 we') as IH'.
  { apply IH. intros h' Hin. apply Hl. by constructor. }
  simpl. destruct (should_check_holder g h (gs_max_timestamp s)) eqn:Hchk; cycle 1.
  { destruct (IH' s wg we Hg He) as (s' & wg' & we' & Hgs & Hes & Hc'). exists s', wg', we'.
    rw (bind_run (get_step g k s h) _ wg s wg); [by rw /get_step Hchk|].
    rw (bind_run (exist_step g k (exist_of s) h) _ we (exist_of s) we); [by rw /exist_step /= Hchk|]. done. }
  destruct (get_common_readable h k wg) as (rr & wg1 & Hget & Hg1 & Hans).
  { by apply (calm_opened h w0 wg). } { by rw (calm_hrec _ _ _ _ Hg). } { by rw /readable (calm_running _ _ _ Hg). }
  destruct (holder_exist_checkable h k we) as (we1 & Hex & He1).
  { by apply (calm_opened h w0 we). } { by rw /checkable (calm_running _ _ _ He). }
  destruct (IH' (get_answer s (Ok rr)) wg1 we1) as (s' & wg' & we' & Hgs & Hes & Hc'); [by transitivity wg|by transitivity we|].
  exists s', wg', we'.
  rw (bind_run (get_step g k s h) _ wg (get_answer s (Ok rr)) wg1).
  { by rw /get_step Hchk (bind_run _ _ _ _ _ Hget). }
  rw (bind_run (exist_step g k (exist_of s) h) _ we (exist_of (get_answer s (Ok rr))) we1); [|done].
  rw /exist_step /= Hchk (bind_run _ _ _ _ _ Hex). rw (calm_hrec _ _ _ _ He). rw (calm_hrec _ _ _ _ Hg) in Hans.
  by rw (exist_of_answer s _ rr Hans).
Qed.

(** Every holder answers a read and a check of the key. *)
Definition serves (g : Group) (w : PearlWorld) (k : BobKey) : Prop :=
  ∀ h, h ∈ holders_of g w → rec_wf (hrec w h k) ∧ readable w h k ∧ checkable w h k.

Lemma exist_key_agrees g k w we acc :
  group_ok g w → gc_reinit_free (group_cell w g) = true → serves g w k → calm w we →
  ∃ r wg we', group_get g k w = Some (r, wg) ∧
    exist_key g (gc_holders (group_cell w g)) acc k we = Some (acc ++ [is_ok r], we') ∧ calm w we'.
Proof.
  intros Hok Hfree Hs He.
  destruct (scans_agree g k (possible g w k) w) with (s := GetScan_new) (wg := w) (we := we)
    as (s & wg & we' & Hg & Hx & Hc); [|done|done|].
  { intros h Hin%possible_in. split; [by apply (go_opened _ _ Hok)|by apply Hs]. }
  eexists _, wg, we'. split_and!; [| |done].
  - rw /group_get /under_reinit_lock. rw (bind_run _ _ w true w); [by rw -Hfree|].
    rw (bind_run _ _ w (gc_holders (group_cell w g)) w); [done|]. rw (bind_run _ _ w s wg); [done|]. done.
  - rw /exist_key (bind_run _ _ we (exist_of s) we'); [done|]. simpl. do 2 f_equal. f_equal. f_equal.
    destruct (gs_result s); [done|]. by destruct (gs_has_error s).
Qed.

Lemma exist_loop_agrees g w keys acc we :
  group_ok g w → gc_reinit_free (group_cell w g) = true → (∀ k, k ∈ keys → serves g w k) → calm w we →
  ∃ bs we', for_each (exist_key g (gc_holders (group_cell w g))) acc keys we = Some (acc ++ bs, we') ∧
    Forall2 (λ k b, ∃ r wg, group_get g k w = Some (r, wg) ∧ b = is_ok r) keys bs.
Proof.
  intros Hok Hfree. revert acc we. induction keys as [|k keys IH]; intros acc we Hs He.
  - exists [], we. by rw app_nil_r.
  - destruct (exist_key_agrees g k w we acc Hok Hfree) as (r & wg & we1 & Hg & Hx & Hc); [apply Hs; constructor|done|].
    destruct (IH (acc ++ [is_ok r]) we1) as (bs & we' & Hl & Hall); [intros k' Hin; apply Hs; by constructor|done|].
    exists (is_ok r :: bs), we'. simpl. rw (bind_run _ _ _ _ _ Hx) Hl -app_assoc. split; [done|].
    constructor; [|done]. eauto.
Qed.

(** C19: [exist] of a group answers for every key, in order, whether [get] would return data:
    the two scans, which keep different states, always agree. *)
Theorem group_exist_agrees g keys w :
  group_ok g w → gc_reinit_free (group_cell w g) = true → (∀ k, k ∈ keys → serves g w k) →
  ∃ bs w', group_exist g keys w = Some (Ok bs, w') ∧
    Forall2 (λ k b, ∃ r wg, group_get g k w = Some (r, wg) ∧ b = is_ok r) keys bs.
Proof.
  intros Hok Hfree Hs. destruct (exist_loop_agrees g w keys [] w) as (bs & w' & Hl & Hall); [done..|].
  exists bs, w'. split; [|done]. rw /group_exist /under_reinit_lock (bind_run _ _ w true w); [by rw -Hfree|].
  rw (bind_run _ _ w (gc_holders (group_cell w g)) w); [done|]. by rw (bind_run _ _ _ _ _ Hl).
Qed.
End reads.
