(* ===== verification/PearlWrites.v ===== *)
(** * PearlWrites: put and delete of a group

    A put goes to the newest holder whose interval has the timestamp, which is created when
    there is none; a forced deletion leaves its mark there, and in the older holders that
    have the key.  Both keep the group well formed, so a get that follows finds them. *)

From Corelib Require Import ssreflect.
From stdpp Require Import base option list strings gmap numbers.
From Stdlib Require Import Strings.Byte Strings.Ascii ZArith Lia.
From S2P Require Import Prelude Data Text Errors Options Node ClusterConfig NodeConfig Mapper Backend PearlUtils PearlWorld PearlHolder PearlGroup PearlLaws PearlReads.

(** ** The holder of a timestamp *)

Lemma holders_for_time_in l ts i h :
  (i, h) ∈ holders_for_time l ts ↔ l !! i = Some h ∧ gets_into_interval h ts = true.
Proof.
  rw /holders_for_time list_elem_of_filter /=. split.
  - intros [Hb (j & y & Heq & Hj)%elem_of_lookup_imap]. by simplify_eq.
  - intros [Hi Hb]. split; [done|]. apply elem_of_lookup_imap. eauto.
Qed.

Lemma foldl_newer_start (l : list (nat * Holder)) max :
  foldl newer_start max l ∈ max :: l ∧
  ∀ x, x ∈ max :: l → start_timestamp x.2 ≤ start_timestamp (foldl newer_start max l).2.
Proof.
  revert max. induction l as [|y l IH]; intros max; simpl.
  - split; [constructor|]. intros x ->%list_elem_of_singleton. lia.
  - destruct (IH (newer_start max y)) as [Hin Hle].
    assert (newer_start max y = max ∨ newer_start max y = y) as Hcase
      by (rw /newer_start; case_match; auto).
    split.
    + destruct Hcase as [Heq|Heq]; rw Heq in Hin |- *; set_solver.
    + assert (start_timestamp max.2 ≤ start_timestamp (newer_start max y).2 ∧
              start_timestamp y.2 ≤ start_timestamp (newer_start max y).2) as [Hm Hy]
        by (rw /newer_start; destruct (Z.ltb_spec (start_timestamp max.2) (start_timestamp y.2)); lia).
      specialize (Hle (newer_start max y) ltac:(constructor)) as Hn.
      intros x Hx. apply elem_of_cons in Hx as [->|Hx]; [lia|].
      apply elem_of_cons in Hx as [->|Hx]; [lia|]. apply Hle. by constructor.
Qed.

Lemma find_holder_some l ts i h :
  find_actual_holder l ts = Ok (i, h) →
  l !! i = Some h ∧ gets_into_interval h ts = true ∧
  ∀ h', h' ∈ l → gets_into_interval h' ts = true → start_timestamp h' ≤ start_timestamp h.
Proof.
  rw /find_actual_holder. destruct (holders_for_time l ts) as [|m rest] eqn:Hl; [done|]. intros [= Heq].
  destruct (foldl_newer_start rest m) as [Hin Hle]. rw Heq -Hl in Hin. rw Heq in Hle. simpl in Hle.
  apply holders_for_time_in in Hin as [Hi Hb]. split_and!; [done..|].
  intros h' (j & Hj)%list_elem_of_lookup Hb'. apply (Hle (j, h')). rw -Hl. by apply holders_for_time_in.
Qed.

Lemma find_holder_none l ts e :
  find_actual_holder l ts = Err e → ∀ h, h ∈ l → gets_into_interval h ts = false.
Proof.
  rw /find_actual_holder. destruct (holders_for_time l ts) as [|m rest] eqn:Hl; [|done]. intros _ h (j & Hj)%list_elem_of_lookup.
  destruct (gets_into_interval h ts) eqn:Hb; [|done]. exfalso.
  assert ((j, h) ∈ holders_for_time l ts) as Hin by (by apply holders_for_time_in). rw Hl in Hin. set_solver.
Qed.

(** The holder chosen for a timestamp is the one with the greatest start among those whose
    interval has it, at its own index; the choice fails exactly when no interval has it. *)
Theorem find_actual_holder_spec l ts :
  match find_actual_holder l ts with
  | Ok (i, h) => l !! i = Some h ∧ gets_into_interval h ts = true ∧
      ∀ h', h' ∈ l → gets_into_interval h' ts = true → start_timestamp h' ≤ start_timestamp h
  | Err _ => ∀ h, h ∈ l → gets_into_interval h ts = false
  end.
Proof.
  destruct (find_actual_holder l ts) as [[i h]|e] eqn:Hf; [by apply find_holder_some|by apply (find_holder_none l ts e)].
Qed.

Section writes.
Context {key_size : KeySize} `{ChronoLaws, Sha256, PearlLaws}.
#[local] Set Default Proof Using "Type*".

(** ** Well-formed groups *)

(** The period is a whole number of seconds, at most a year. *)
Definition period_ok (g : Group) : Prop :=
  0 < se_timestamp_period (g_settings g) ≤ max_period ∧ se_timestamp_period (g_settings g) mod nanos_per_sec = 0.

Definition period_secs (g : Group) : Z := timestamp_period_as_secs (g_settings g).

(** A holder of the group: its directory is named after its start, and it lasts one period. *)
Record partition_of (g : Group) (h : Holder) : Prop := {
  po_start : 0 ≤ start_timestamp h < 2 ^ 63;
  po_path : ∃ hash, disk_path h = path_push (directory_path g)
    (PartitionName_to_string {| pn_timestamp := start_timestamp h; pn_hash := hash |}) ∧ no_sep "_"%char hash;
  po_end : end_timestamp h = start_timestamp h + period_secs g;
  po_duplicates : pl_allow_duplicates (h_config h) = pl_allow_duplicates (group_config g);
}.

Record group_shape (g : Group) (w : PearlWorld) : Prop := {
  sh_dense : dense (gc_holders (group_cell w g));
  sh_fresh : ∀ h, h ∈ holders_of g w → (h_id h < pw_fresh w)%nat;
  sh_partition : ∀ h, h ∈ holders_of g w → partition_of g h;
}.

Lemma period_secs_bounds g : period_ok g → 1 ≤ period_secs g ≤ 366 * 86400.
Proof.
  rw /period_ok /period_secs /timestamp_period_as_secs /max_period. intros [Hp Hw].
  pose proof (Z.div_mod (se_timestamp_period (g_settings g)) nanos_per_sec ltac:(done)) as Hd.
  rw /nanos_per_sec in Hp Hw Hd |- *. lia.
Qed.

(** Two partitions of a group in one directory are one partition. *)
Lemma path_push_name d x : is_prefix "/" x = false →
  ∃ p, path_push d x = p +:+ x ∧ ∀ y, is_prefix "/" y = false → path_push d y = p +:+ y.
Proof.
  intros Hx. rw /path_push Hx. destruct (bool_decide (d = EmptyString) || ends_with_sep d).
  - exists d. split; [done|]. intros y Hy. by rw Hy.
  - exists (d +:+ "/"). split; [by rw append_assoc|]. intros y Hy. by rw Hy append_assoc.
Qed.

Lemma partition_name_plain ts hash : 0 ≤ ts →
  is_prefix "/" (PartitionName_to_string {| pn_timestamp := ts; pn_hash := hash |}) = false.
Proof.
  intros Hts. rw /PartitionName_to_string /=.
  pose proof (dec_go_no_sep "/"%char 20 ts EmptyString Hts) as Hns.
  rw -/(fmt_dec ts) in Hns. specialize (Hns eq_refl ltac:(by intros [|i] c)).
  destruct (fmt_dec ts) as [|c s]; [done|]. simpl.
  specialize (Hns 0%nat c eq_refl). apply andb_false_iff. left. apply bool_decide_eq_false. congruence.
Qed.

Lemma partition_path_start g h h' :
  partition_of g h → partition_of g h' → disk_path h = disk_path h' → start_timestamp h = start_timestamp h'.
Proof.
  intros Hp Hp'. destruct (po_path g h Hp) as (hash & -> & Hs). destruct (po_path g h' Hp') as (hash' & -> & Hs').
  pose proof (po_start g h Hp) as Hb. pose proof (po_start g h' Hp') as Hb'.
  destruct (path_push_name (directory_path g) _ (partition_name_plain (start_timestamp h) hash ltac:(lia)))
    as (p & -> & Hall).
  rw Hall; [apply partition_name_plain; lia|]. intros Heq. apply append_inj_l in Heq.
  assert (∀ h, partition_of g h → u64 (start_timestamp h)) as Hu64
    by (intros h0 H0'; pose proof (po_start g h0 H0'); rw /u64; lia).
  pose proof (partition_parse {| pn_timestamp := start_timestamp h; pn_hash := hash |} (Hu64 h Hp) Hs) as H1p.
  pose proof (partition_parse {| pn_timestamp := start_timestamp h'; pn_hash := hash' |} (Hu64 h' Hp') Hs') as H2p.
  rw Heq H2p in H1p. by injection H1p.
Qed.
(** ** Creating a holder *)

(** New cells may appear; the old ones, the records and the groups stay. *)
Record grown (w w' : PearlWorld) : Prop := {
  gr_groups : pw_groups w' = pw_groups w;
  gr_dcs : pw_dcs w' = pw_dcs w;
  gr_content : same_content w w';
  gr_fresh : (pw_fresh w ≤ pw_fresh w')%nat;
  gr_running : ∀ id, (id < pw_fresh w)%nat → running w' id = running w id;
}.

#[global] Instance grown_preorder : PreOrder grown.
Proof.
  split; [by split|]. intros w1 w2 w3 [G1 D1 C1 F1 R1] [G2 D2 C2 F2 R2]. split; [congruence..| |lia|].
  - intros p k. by rw (C2 p k).
  - intros id Hid. rw R2; [lia|]. by apply R1.
Qed.

Lemma reopens_grown h w w' : (pw_fresh w ≤ h_id h)%nat → reopens h w w' → grown w w' ∧ pw_fresh w' = pw_fresh w.
Proof.
  intros Hid ([Hg Hd Hf Hr] & Hc & _). split; [|done]. split; [done..|lia|].
  intros id Hlt. apply Hr. rw /only. lia.
Qed.

(** A holder created for a timestamp. *)
Definition new_holder (g : Group) (ts : Z) (w w' : PearlWorld) (h : Holder) : Prop :=
  (pw_fresh w ≤ h_id h < pw_fresh w')%nat ∧ partition_of g h ∧ gets_into_interval h ts = true ∧ opened w' h.

Lemma create_pearl_holder_spec g start hash w :
  wp (create_pearl_holder g start hash) (λ h w', grown w w' ∧ h_id h = pw_fresh w ∧ pw_fresh w' = S (pw_fresh w) ∧
    running w' (h_id h) = None ∧ start_timestamp h = start ∧ end_timestamp h = wrap64 (start + period_secs g) ∧
    disk_path h = path_push (directory_path g) (PartitionName_to_string {| pn_timestamp := start; pn_hash := hash |}) ∧
    pl_allow_duplicates (h_config h) = pl_allow_duplicates (group_config g)) w.
Proof.
  rw /create_pearl_holder /Holder_new /fresh_id. rw /wpx /=. split_and!; try done.
  - split; try done; simpl; [lia|]. intros id Hid. rw running_put_cell decide_False //. lia.
  - rw running_put_cell decide_True //.
Qed.

Lemma create_by_timestamp_spec g ts config w :
  period_ok g → 0 ≤ ts →
  wlp (create_pearl_by_timestamp g ts config) (λ h w', grown w w' ∧ new_holder g ts w w' h) w.
Proof.
  intros Hp Hts. rw /create_pearl_by_timestamp. apply wpx_bind. rw /wpx /expect.
  destruct (get_start_timestamp_by_timestamp _ _ _) as [start|] eqn:Hstart; [|done].
  destruct (start_timestamp_covers _ _ _ _ (proj1 (proj1 Hp)) (proj2 Hp) Hts Hstart) as (Hs0 & Hs & Hlt).
  change (wlp (hash ← expect (group_owner_hash g); create_pearl_holder g start hash)
            (λ h w', grown w w' ∧ new_holder g ts w w' h) w).
  apply wpx_bind. rw /wpx /expect. destruct (group_owner_hash g) as [hash|] eqn:Hhash; [|done].
  eapply (wpx_mono True); [apply (wp_wlp _ _ _ (create_pearl_holder_spec g start hash w))|].
  intros h w' (Hg & Hid & Hf & Hrun & Hst & Hend & Hpath & Hdup). split; [done|].
  pose proof (period_secs_bounds g Hp) as Hsec. change (se_timestamp_period (g_settings g) / nanos_per_sec) with (period_secs g) in Hs.
  assert (wrap64 (start + period_secs g) = start + period_secs g) as Hw by (rw /wrap64 Z.mod_small; lia).
  split; [lia|]. split; [|split].
  - split; [lia| |lia|done]. exists hash. split; [by rw Hst|].
    revert Hhash. rw /group_owner_hash /get_owner_node_hash. destruct (hex_groups_spec (sha256 (bytes_of_text (owner_node_identifier g))))
      as (l & -> & Hl & _). simpl. intros [= <-]. apply string_of_letters. by apply Forall_take.
  - rw /gets_into_interval. apply andb_true_iff. split; lia.
  - intros s Hs'. congruence.
Qed.

Lemma create_and_init_spec g ts config w :
  period_ok g → 0 ≤ ts →
  wlp (create_and_init_pearl g ts config) (λ r w', grown w w' ∧ ∀ h, r = Ok h → new_holder g ts w w' h) w.
Proof.
  intros Hp Hts. rw /create_and_init_pearl. apply wpx_bind.
  eapply wpx_mono; [by apply create_by_timestamp_spec|]. intros h w1 (Hg & Hid & Hpart & Hin & Ho).
  apply wpx_bind. eapply wpx_mono; [apply prepare_storage_reopens|]. intros r w2 Hre. apply wpx_ret.
  destruct Hre as ([Rg Rd Rf Rr] & Hc & Ho'). split.
  - destruct Hg as [G1 D1 C1 F1 R1]. split; [congruence..| |lia|].
    + intros p k. by rw (Hc p k).
    + intros id Hlt. rw -(R1 id Hlt). apply Rr. rw /only. lia.
  - intros h' Heq. destruct r; simplify_eq. split_and!; [lia..|done|done|]. by apply Ho'.
Qed.

(** ** Pushing it *)

Lemma group_cell_put g c w : group_cell (put_group_cell g c w) g = c.
Proof. by rw /group_cell /put_group_cell /= lookup_insert_eq. Qed.

Lemma write_holders_spec g c w w' :
  w' = put_group_cell g {| gc_holders := c; gc_reinit_free := gc_reinit_free (group_cell w g) |} w →
  gc_holders (group_cell w' g) = c ∧ gc_reinit_free (group_cell w' g) = gc_reinit_free (group_cell w g) ∧
  pw_disk w' = pw_disk w ∧ pw_dcs w' = pw_dcs w ∧ pw_fresh w' = pw_fresh w ∧ (∀ id, running w' id = running w id).
Proof. intros ->. rw !group_cell_put. split_and!; done. Qed.

(** An open storage has a filter that admits its records; a closed one has none. *)
Lemma filters_view_admits h k w :
  opened w h → content (disk_path h) k (pw_disk w) ≠ NotFound →
  from_option (λ fl, admits fl k) true (filters_view w h) = true.
Proof.
  intros Ho Hne. rw /filters_view. rw -/(running w (h_id h)). destruct (running w (h_id h)) as [s|] eqn:Hr; [|done].
  destruct (pe_get_filter s (pw_disk w)) as [f|] eqn:Hf; [|done]. simpl.
  apply (law_filter s k (pw_disk w) f Hf). by rw (proj1 (Ho s Hr)).
Qed.

Lemma push_holder_spec g h w :
  group_ok g w → group_shape g w → h_id h ∉ h_id <$> holders_of g w → (h_id h < pw_fresh w)%nat →
  disk_path h ∉ disk_path <$> holders_of g w → opened w h → partition_of g h →
  wp (push_holder g h) (λ i w', group_ok g w' ∧ group_shape g w' ∧ same_content w w' ∧ pw_dcs w' = pw_dcs w ∧
    holders_of g w' = holders_of g w ++ [h] ∧ i = length (holders_of g w) ∧
    gc_reinit_free (group_cell w' g) = gc_reinit_free (group_cell w g)) w.
Proof.
  intros Hok Hsh Hid Hf Hpath Ho Hpart. rw /push_holder. apply wpx_bind, wpx_gets. apply wpx_bind, wpx_gets.
  destruct (hf_push (filters_view w) h (gc_holders (group_cell w g))) as [n c'] eqn:Hpush.
  destruct (hf_push_spec _ _ _ _ _ Hpush) as (Hit & Hdense & Hold & Hnew).
  destruct (Hdense (sh_dense _ _ Hsh)) as [Hd ->].
  apply wpx_bind, wpx_modify, wpx_ret.
  remember (put_group_cell g _ w) as w' eqn:Hw'.
  destruct (write_holders_spec g c' w w' Hw') as (Hc & Hfree & Hdisk & Hdcs & Hfr & Hrun).
  assert (holders_of g w' = holders_of g w ++ [h]) as Hl by (by rw /holders_of Hc).
  assert (∀ h', opened w h' → opened w' h') as Hop by (intros h' Ho' s; rw Hrun; by apply Ho').
  split_and!; [split|split|intros p k; by rw Hdisk|done..].
  - rw Hl fmap_app. apply list.NoDup_app. split_and!; [apply (go_ids _ _ Hok)| |apply NoDup_singleton].
    intros x Hx Hx'%list_elem_of_singleton. by subst.
  - rw Hl fmap_app. apply list.NoDup_app. split_and!; [apply (go_paths _ _ Hok)| |apply NoDup_singleton].
    intros x Hx Hx'%list_elem_of_singleton. by subst.
  - intros h' Hin. rw Hl in Hin. apply elem_of_app in Hin as [Hin|Hin%list_elem_of_singleton].
    + by apply Hop, (go_opened _ _ Hok).
    + subst. by apply Hop.
  - intros h' k Hin. rw Hdisk Hc. intros Hne. rw Hl in Hin.
    apply elem_of_app in Hin as [Hin|Hin%list_elem_of_singleton].
    + by apply Hold, (go_covers _ _ Hok).
    + subst h'. apply Hnew. by apply filters_view_admits.
  - by rw Hc.
  - intros h' Hin. rw Hl in Hin. rw Hfr. apply elem_of_app in Hin as [Hin|Hin%list_elem_of_singleton].
    + by apply (sh_fresh _ _ Hsh).
    + by subst.
  - intros h' Hin. rw Hl in Hin. apply elem_of_app in Hin as [Hin|Hin%list_elem_of_singleton].
    + by apply (sh_partition _ _ Hsh).
    + by subst.
Qed.

(** *** A well-formed group after other steps *)

Lemma grown_group g w w' : grown w w' → group_shape g w → group_ok g w → group_ok g w' ∧ group_shape g w'.
Proof.
  intros [Hg Hd Hc Hf Hr] Hsh Hok.
  assert (group_cell w' g = group_cell w g) as Hcell by (by rw /group_cell Hg).
  assert (holders_of g w' = holders_of g w) as Hl by (by rw /holders_of Hcell).
  split; split; rw ?Hl ?Hcell.
  - apply (go_ids _ _ Hok).
  - apply (go_paths _ _ Hok).
  - intros h Hin s. rw Hr; [by apply (sh_fresh _ _ Hsh)|]. by apply (go_opened _ _ Hok).
  - intros h k Hin. rw (Hc (disk_path h) k). by apply (go_covers _ _ Hok).
  - apply (sh_dense _ _ Hsh).
  - intros h Hin. pose proof (sh_fresh _ _ Hsh h Hin). lia.
  - apply (sh_partition _ _ Hsh).
Qed.

(** The outcome of looking for the holder of a timestamp. *)
Definition chosen_holder (g : Group) (ts : Z) (w : PearlWorld) (r : result (nat * Holder) Error) (w' : PearlWorld) : Prop :=
  group_ok g w' ∧ group_shape g w' ∧ same_content w w' ∧ pw_dcs w' = pw_dcs w ∧
  gc_reinit_free (group_cell w' g) = gc_reinit_free (group_cell w g) ∧
  (∀ h, h ∈ holders_of g w → h ∈ holders_of g w') ∧
  ∀ i h, r = Ok (i, h) → holders_of g w' !! i = Some h ∧ gets_into_interval h ts = true.

Lemma grown_chosen g ts w w' e :
  grown w w' → group_shape g w → group_ok g w → chosen_holder g ts w (Err e) w'.
Proof.
  intros Hg Hsh Hok. destruct (grown_group g w w' Hg Hsh Hok) as [Hok' Hsh'].
  assert (group_cell w' g = group_cell w g) as Hcell by (by rw /group_cell (gr_groups _ _ Hg)).
  split_and!; try done; [apply (gr_content _ _ Hg)|apply (gr_dcs _ _ Hg)|by rw Hcell|].
  intros h. by rw /holders_of Hcell.
Qed.

Lemma write_pearl_spec g ts config w :
  group_ok g w → group_shape g w → period_ok g → 0 ≤ ts →
  wlp (get_or_create_write_pearl g ts config) (λ r w', chosen_holder g ts w r w') w.
Proof.
  intros Hok Hsh Hp Hts. rw /get_or_create_write_pearl. apply wpx_bind, wpx_gets.
  rw -/(holders_of g w). destruct (find_actual_holder (holders_of g w) ts) as [[i h]|e] eqn:Hfind.
  { apply wpx_ret. destruct (find_holder_some _ _ _ _ Hfind) as (Hi & Hb & _). split_and!; try done.
    intros i' h' [= <- <-]. done. }
  pose proof (find_holder_none _ _ _ Hfind) as Hnone.
  apply wpx_bind. rw /wpx /expect. destruct (bs_wait_delay _); [|done].
  change (wlp (r ← try_multiple_times (group_config g) (create_and_init_pearl g ts config);
     match r with
     | Err e => mret (Err e)
     | Ok pearl => new_index ← push_holder g pearl; mret (Ok (new_index, pearl))
     end) (λ r w', chosen_holder g ts w r w') w).
  apply wpx_bind. eapply wpx_mono.
  { rw /try_multiple_times. apply (wlp_try_loop _ _ (grown w) (λ r w', ∀ h, r = Ok h → new_holder g ts w w' h)); [|done].
    intros w1 Hg1. eapply wpx_mono; [by apply create_and_init_spec|]. intros r w2 [Hg2 Hnew]. split; [by transitivity w1|].
    intros h Heq. destruct (Hnew h Heq) as (Hid & Hrest). split; [|done]. pose proof (gr_fresh _ _ Hg1). lia. }
  intros [pearl|e'] w1 [Hg1 Hnew]; [|by apply wpx_ret, grown_chosen].
  destruct (Hnew pearl eq_refl) as (Hid & Hpart & Hin & Ho).
  destruct (grown_group g w w1 Hg1 Hsh Hok) as [Hok1 Hsh1].
  assert (holders_of g w1 = holders_of g w) as Hl by (by rw /holders_of /group_cell (gr_groups _ _ Hg1)).
  apply wpx_bind. eapply wpx_mono.
  { apply (wp_wlp _ _ _). apply (push_holder_spec g pearl w1 Hok1 Hsh1); [|lia| |done|done].
    - rw Hl. intros (h' & Heq & Hin')%list_elem_of_fmap. pose proof (sh_fresh _ _ Hsh h' Hin'). lia.
    - rw Hl. intros (h' & Heq & Hin')%list_elem_of_fmap. specialize (Hnone h' Hin').
      pose proof (sh_partition _ _ Hsh h' Hin') as Hpart'.
      pose proof (partition_path_start g _ _ Hpart Hpart' Heq) as Hst.
      rw /gets_into_interval (po_end g _ Hpart') -Hst -(po_end g _ Hpart) in Hnone. rw /gets_into_interval in Hin. congruence. }
  intros i w2 (Hok2 & Hsh2 & Hc2 & Hd2 & Hl2 & -> & Hf2). apply wpx_ret. split_and!; [done|done| | | | |].
  - intros p k. rw (Hc2 p k). apply (gr_content _ _ Hg1).
  - rw Hd2. apply (gr_dcs _ _ Hg1).
  - rw Hf2 /group_cell. by rw (gr_groups _ _ Hg1).
  - intros h Hh. rw Hl2 Hl. set_solver.
  - intros i h [= <- <-]. rw Hl2 lookup_app_r // Nat.sub_diag //.
Qed.

Lemma actual_holder_spec g ts config w :
  group_ok g w → group_shape g w → period_ok g → 0 ≤ ts →
  wlp (get_or_create_actual_holder g ts config) (λ r w', chosen_holder g ts w r w') w.
Proof.
  intros Hok Hsh Hp Hts. rw /get_or_create_actual_holder. apply wpx_bind, wpx_gets. rw -/(holders_of g w).
  destruct (find_actual_holder (holders_of g w) ts) as [[i h]|e] eqn:Hfind; [|by apply write_pearl_spec].
  apply wpx_ret. destruct (find_holder_some _ _ _ _ Hfind) as (Hi & Hb & _). split_and!; try done.
  intros i' h' [= <- <-]. done.
Qed.
(** ** One record of one key *)

(** A step that may change the record of one key in some directories, and nothing else. *)
Record touches (P : string → Prop) (k : BobKey) (w w' : PearlWorld) : Prop := {
  to_rest : rest_same nobody w w';
  to_content : ∀ p k', ¬ P p ∨ k' ≠ Key_from k → content p k' (pw_disk w') = content p k' (pw_disk w);
}.

Lemma calm_touches P k w w' : calm w w' → touches P k w w'.
Proof. intros [Hr Hc]. split; [done|]. intros p k' _. apply Hc. Qed.

Lemma touches_trans P k w1 w2 w3 : touches P k w1 w2 → touches P k w2 w3 → touches P k w1 w3.
Proof.
  intros [R1 C1] [R2 C2]. split; [by apply (rest_same_trans _ w1 w2)|]. intros p k' Hp. by rw C2; [|rw C1].
Qed.

Lemma update_last_modification_calm h w : wp (update_last_modification h) (λ _ w', calm w w') w.
Proof.
  rw /update_last_modification. apply wpx_bind, wpx_ext, wpx_modify.
  set (w1 := set_disk _ w). assert (calm w w1) as Hc.
  { apply calm_set_disk. intros p k. apply quiet_coarse_now. }
  transitivity w1; [done|]. by apply calm_put_cell.
Qed.

Definition at_path (h : Holder) : string → Prop := λ p, p = disk_path h.

Lemma holder_write_spec h k d w :
  opened w h →
  wp (holder_write h k d) (λ r w', touches (at_path h) k w w' ∧
    (r = Ok tt → pl_allow_duplicates (h_config h) = true →
     added (hrec w h k) (hrec w' h k) (Found (timestamp (meta d), to_serialized_bytes d)))) w.
Proof.
  intros Ho. rw /holder_write. apply wpx_bind, wpx_gets. rw -/(running w (h_id h)).
  destruct (running w (h_id h)) as [s|] eqn:Hrun; [|by apply wpx_ret; split; [apply calm_touches, calm_refl|]].
  apply wpx_bind. eapply wpx_mono; [apply update_last_modification_calm|]. intros ? w1 Hc1.
  destruct (Ho s Hrun) as [Hdir Hdup].
  rw /write_disk. apply wpx_bind, wpx_ext, wpx_ret. split.
  - apply (touches_trans _ k w w1); [by apply calm_touches|]. split; [by split|]. simpl.
    intros p k' Hp. apply law_write_frame. rw Hdir. destruct Hp as [Hp|]; [left|by right]. exact Hp.
  - destruct (pe_write s (Key_from k) _ _ (pw_disk w1)) as [res d'] eqn:Hw. simpl. intros Hres Hall.
    destruct res as [[]|]; [|done]. pose proof (law_write _ _ _ _ _ _ Hw) as Hadd. rw Hdup Hall Hdir in Hadd.
    rw -(calm_hrec _ _ h k Hc1). apply Hadd. by left.
Qed.

Lemma touches_running P k w w' id : touches P k w w' → running w' id = running w id.
Proof. intros [[_ _ _ Hr] _]. apply Hr. intros []. Qed.

Lemma touches_other P k w w' h k' : touches P k w w' → ¬ P (disk_path h) ∨ Key_from k' ≠ Key_from k → hrec w' h k' = hrec w h k'.
Proof. intros [_ Hc] Hcase. by apply Hc. Qed.

(** *** Telling the parents *)

Lemma add_to_parents_spec g i k w :
  wp (add_to_parents g i k) (λ _ w', pw_disk w' = pw_disk w ∧ pw_dcs w' = pw_dcs w ∧ pw_fresh w' = pw_fresh w ∧
    (∀ id, running w' id = running w id) ∧ gc_reinit_free (group_cell w' g) = gc_reinit_free (group_cell w g) ∧
    gc_holders (group_cell w' g) = hf_add_to_parents i (Key_from k) (gc_holders (group_cell w g))) w.
Proof.
  rw /add_to_parents. apply wpx_bind, wpx_gets, wpx_modify.
  remember (put_group_cell g _ w) as w' eqn:Hw'.
  destruct (write_holders_spec g _ w w' Hw') as (Hc & Hfree & Hdisk & Hdcs & Hfr & Hrun). split_and!; done.
Qed.

(** A well-formed group after the record of [k] in the holder at [i] changed and its parents
    were told. *)
Lemma touched_group g i h k w w1 w2 :
  group_ok g w → group_shape g w → holders_of g w !! i = Some h →
  touches (at_path h) k w w1 → add_to_parents g i k w1 = Some (tt, w2) →
  group_ok g w2 ∧ group_shape g w2 ∧ holders_of g w2 = holders_of g w ∧ pw_dcs w2 = pw_dcs w ∧
  gc_reinit_free (group_cell w2 g) = gc_reinit_free (group_cell w g) ∧ pw_disk w2 = pw_disk w1.
Proof.
  intros Hok Hsh Hi Ht Hadd. pose proof (add_to_parents_spec g i k w1) as Hs. rw /wpx Hadd in Hs.
  destruct Hs as (Hdisk & Hdcs & Hfr & Hrun & Hfree & Hc). destruct (to_rest _ _ _ _ Ht) as [Tg Td Tf Tr].
  assert (group_cell w1 g = group_cell w g) as Hcell by (by rw /group_cell Tg).
  rw Hcell in Hc, Hfree.
  destruct (hf_add_spec i (Key_from k) (gc_holders (group_cell w g))) as (Hit & Hdense & Hold & Hnew). rw -Hc in Hit, Hdense, Hold, Hnew.
  assert (holders_of g w2 = holders_of g w) as Hl by done.
  assert (∀ id, running w2 id = running w id) as Hrun'.
  { intros id. rw Hrun. by apply (touches_running _ _ _ _ _ Ht). }
  split_and!; [split|split|done|by rw Hdcs|done|done]; rw ?Hl.
  - apply (go_ids _ _ Hok).
  - apply (go_paths _ _ Hok).
  - intros h' Hin s. rw Hrun'. by apply (go_opened _ _ Hok).
  - intros h' k' Hin. rw Hdisk. intros Hne. destruct (decide (disk_path h' = disk_path h ∧ k' = Key_from k)) as [[Hp ->]|Hother].
    + apply Hnew. rw (hf_dense _ _ (sh_dense _ _ Hsh)).
      apply list_elem_of_lookup in Hin as (j & Hj).
      assert (j = i) as ->; [|done]. pose proof (go_paths _ _ Hok) as Hnd.
      apply (NoDup_lookup _ j i (disk_path h') Hnd); rw list_lookup_fmap; [by rw Hj|by rw Hi /= Hp].
    + apply Hold, (go_covers _ _ Hok); [done|]. rw -(to_content _ _ _ _ Ht); [|done].
      destruct (decide (disk_path h' = disk_path h)); [right|by left]. naive_solver.
  - apply Hdense, (sh_dense _ _ Hsh).
  - intros h' Hin. rw Hfr Tf. by apply (sh_fresh _ _ Hsh).
  - apply (sh_partition _ _ Hsh).
Qed.

(** ** put *)

(** What a successful put leaves behind. *)
Definition put_done (g : Group) (k : BobKey) (d : BobData) (w w' : PearlWorld) : Prop :=
  ∃ h, h ∈ holders_of g w' ∧ gets_into_interval h (timestamp (meta d)) = true ∧
    added (hrec w h k) (hrec w' h k) (Found (timestamp (meta d), to_serialized_bytes d)) ∧
    (∀ h' k', h' ∈ holders_of g w' → h' ≠ h ∨ Key_from k' ≠ Key_from k → hrec w' h' k' = hrec w h' k') ∧
    ∀ p k', p ≠ disk_path h ∨ k' ≠ Key_from k → content p k' (pw_disk w') = content p k' (pw_disk w).

Lemma put_common_ok h k d w w' :
  opened w h → put_common h k d w = Some (Ok tt, w') → touches (at_path h) k w w' ∧
    (pl_allow_duplicates (h_config h) = true →
     added (hrec w h k) (hrec w' h k) (Found (timestamp (meta d), to_serialized_bytes d))).
Proof.
  intros Ho. rw /put_common. intros (r & w1 & Hw & Hrest)%bind_Some_inv.
  pose proof (wpx_elim _ _ _ _ _ _ (holder_write_spec h k d w Ho) Hw) as [Ht Hadd]. simpl in Ht, Hadd.
  destruct r as [[]|e].
  - injection Hrest as <-. split; [done|]. by apply Hadd.
  - apply bind_Some_inv in Hrest as (u & w2 & _ & Hrest). done.
Qed.

Lemma path_other {g w h h'} : group_ok g w → h ∈ holders_of g w → h' ∈ holders_of g w → h' ≠ h → disk_path h' ≠ disk_path h.
Proof.
  intros Hok (i & Hi)%list_elem_of_lookup (j & Hj)%list_elem_of_lookup Hne Heq. apply Hne.
  assert (j = i) as ->; [|congruence]. apply (NoDup_lookup _ j i (disk_path h) (go_paths _ _ Hok)); rw list_lookup_fmap.
  - by rw Hj /= Heq.
  - by rw Hi.
Qed.

Lemma group_put_run g k d config w w' :
  group_ok g w → group_shape g w → period_ok g → 0 ≤ timestamp (meta d) →
  pl_allow_duplicates (group_config g) = true → group_put g k d config w = Some (Ok tt, w') →
  group_ok g w' ∧ group_shape g w' ∧ pw_dcs w' = pw_dcs w ∧ gc_reinit_free (group_cell w' g) = true ∧
  (∀ h, h ∈ holders_of g w → h ∈ holders_of g w') ∧ put_done g k d w w'.
Proof.
  intros Hok Hsh Hp Hts Hdup. rw /group_put /under_reinit_lock. intros (free & w0 & [= <- <-] & Hrun)%bind_Some_inv.
  destruct (gc_reinit_free (group_cell w g)) eqn:Hfree; [|done].
  apply bind_Some_inv in Hrun as (r & w1 & Hact & Hrun).
  pose proof (wpx_elim _ _ _ _ _ _ (actual_holder_spec g _ config w Hok Hsh Hp Hts) Hact) as
    (Hok1 & Hsh1 & Hc1 & Hd1 & Hf1 & Hin1 & Hres).
  destruct r as [[i h]|e]; [|done]. destruct (Hres i h eq_refl) as [Hi Hint].
  apply bind_Some_inv in Hrun as (res & w2 & Hput & Hrun). destruct res as [[]|e]; [|done].
  assert (h ∈ holders_of g w1) as Hin by (by apply (list_elem_of_lookup_2 _ i)).
  destruct (put_common_ok h k d w1 w2 (go_opened _ _ Hok1 h Hin) Hput) as [Ht Hadd].
  apply bind_Some_inv in Hrun as ([] & w3 & Hpar & [= <-]).
  destruct (touched_group g i h k w1 w2 w3 Hok1 Hsh1 Hi Ht Hpar) as (Hok3 & Hsh3 & Hl3 & Hd3 & Hf3 & Hdisk3).
  split_and!; [done|done|congruence|by rw Hf3 Hf1|by intros h' Hh; rw Hl3; apply Hin1|].
  assert (∀ p k', p ≠ disk_path h ∨ k' ≠ Key_from k → content p k' (pw_disk w3) = content p k' (pw_disk w)) as Hframe.
  { intros p k' Hcase. rw Hdisk3 -(Hc1 p k'). by apply (to_content _ _ _ _ Ht). }
  exists h. rw Hl3. split_and!; [done|done| | |exact Hframe].
  - rw -(po_duplicates g h (sh_partition _ _ Hsh1 h Hin)) in Hdup. specialize (Hadd Hdup).
    rw /hrec Hdisk3 -(Hc1 (disk_path h) (Key_from k)). exact Hadd.
  - intros h' k' Hin' Hcase. apply Hframe. destruct Hcase as [Hne|]; [left|by right]. by apply (path_other Hok1).
Qed.
(** A group whose newest record of [k] is in a holder that covers its time. *)
Definition step_small (g : Group) : Prop := ∀ step, safe_timestamp_step g = Some step → 0 ≤ step < 2 ^ 62.

Lemma covering_checked g h ts m :
  step_small g → period_ok g → partition_of g h → gets_into_interval h ts = true → m ≤ ts →
  should_check_holder g h (Some m) = true.
Proof.
  intros Hstep Hp Hpart [Hb1 Hb2]%andb_true_iff Hm. rw /should_check_holder.
  destruct (safe_timestamp_step g) as [step|] eqn:Hs; [|done]. pose proof (Hstep step Hs).
  pose proof (po_start g h Hpart). pose proof (po_end g h Hpart). pose proof (period_secs_bounds g Hp).
  rw /wrap64 Z.mod_small; lia.
Qed.

Lemma covering_timely g w k h ts :
  step_small g → period_ok g → partition_of g h → gets_into_interval h ts = true → h ∈ holders_of g w →
  rec_ts (hrec w h k) = Some ts → (∀ h' t, h' ∈ holders_of g w → rec_ts (hrec w h' k) = Some t → t ≤ ts) →
  timely g (λ h, hrec w h k) (holders_of g w).
Proof.
  intros Hstep Hp Hpart Hint Hin Hts Hall h' t Hin' Ht. exists h, ts. split_and!; [done..|by apply (Hall h')|].
  by apply (covering_checked g h ts ts).
Qed.

(** The records of [k] are values [write_disk] wrote, older than [ts]. *)
Definition records_older (g : Group) (w w' : PearlWorld) (k : BobKey) (ts : Z) : Prop :=
  ∀ h, h ∈ holders_of g w' → rec_wf (hrec w h k) ∧ ∀ t, rec_ts (hrec w h k) = Some t → t < ts.

Lemma serialized_inj d d' :
  timestamp (meta d) = timestamp (meta d') → to_serialized_bytes d = to_serialized_bytes d' → d = d'.
Proof.
  destruct d as [i [ts]], d' as [i' [ts']]. rw /to_serialized_bytes /=. intros ->. by intros [= ->].
Qed.

(** C20: Data put into a group, newer than every record of its key, is what [get] returns
    afterwards, whether the holder of its timestamp existed or was created for it. *)
Theorem group_put_get g k d config w w' :
  group_ok g w → group_shape g w → period_ok g → step_small g → data_wf d →
  pl_allow_duplicates (group_config g) = true →
  group_put g k d config w = Some (Ok tt, w') → records_older g w w' k (timestamp (meta d)) →
  (∀ h, h ∈ holders_of g w' → readable w' h k) →
  ∃ w'', group_get g k w' = Some (Ok d, w'').
Proof.
  intros Hok Hsh Hp Hstep Hd Hdup Hput Hold Hread.
  destruct (group_put_run g k d config w w' Hok Hsh Hp (proj1 Hd) Hdup Hput)
    as (Hok' & Hsh' & _ & Hfree & _ & h & Hin & Hint & Hadd & Hrest & _).
  assert (hrec w' h k = Found (timestamp (meta d), to_serialized_bytes d)) as Hrec.
  { destruct Hadd as [[Heq _]|[_ (ts & t & [= <-] & Ht & Hle)]]; [done|].
    pose proof (proj2 (Hold h Hin) t Ht). lia. }
  assert (∀ h', h' ∈ holders_of g w' → rec_wf (hrec w' h' k) ∧
            ∀ t, rec_ts (hrec w' h' k) = Some t → t ≤ timestamp (meta d) ∧ (t = timestamp (meta d) → h' = h)) as Hall.
  { intros h' Hin'. destruct (decide (disk_path h' = disk_path h)) as [Hpath|Hpath].
    - assert (h' = h) as ->.
      { destruct (decide (h_id h' = h_id h)) as [Hid|Hid].
        - apply list_elem_of_lookup in Hin as (i & Hi), Hin' as (j & Hj).
          assert (j = i) as ->; [|congruence].
          apply (NoDup_lookup _ j i (h_id h) (go_ids _ _ Hok')); rw list_lookup_fmap; [by rw Hj /= Hid|by rw Hi].
        - exfalso. apply (path_other Hok' Hin Hin'); [congruence|done]. }
      split; [|intros t; rw Hrec; intros [= <-]; split; [lia|done]].
      intros ts v Hv. rw Hrec in Hv. injection Hv as <- <-. by exists d.
    - assert (h' ≠ h) as Hne by congruence. rw (Hrest h' k Hin'); [by left|].
      destruct (Hold h' Hin') as [Hwf Ht]. split; [done|]. intros t Hr. specialize (Ht t Hr). split; lia. }
  assert (timely g (λ h, hrec w' h k) (holders_of g w')) as Htime.
  { apply (covering_timely g w' k h (timestamp (meta d))); [done|done|by apply (sh_partition _ _ Hsh')|done|done|by rw Hrec|].
    intros h' t Hin' Ht. by apply (Hall h' Hin'). }
  assert (records_wf g w' k) as Hwf by (intros h' Hin'; by apply Hall).
  pose proof (group_get_run g k w' Hok' Hfree Hwf Htime) as Hget. rw /wpx in Hget.
  destruct (group_get g k w') as [[r w'']|]; [|by exfalso; apply Hget].
  destruct Hget as (_ & _ & Hnew). specialize (Hnew Hread). destruct Hnew as (rc & [Hfrom Hmax] & Hres).
  destruct (Hmax h (timestamp (meta d)) Hin) as (m & Hm & Hle); [by rw Hrec|].
  destruct Hfrom as [->|(h' & Hin' & Heq)]; [done|]. subst rc.
  destruct (proj2 (Hall h' Hin') m Hm) as [Hle' Hsame]. assert (h' = h) as -> by (apply Hsame; lia).
  rw Hrec in Hres. destruct r as [d'|e]; [|by destruct Hres]. exists w''.
  apply (f_equal (λ r : Rec, match r with Found v => v | _ => (0, []) end)), pair_equal_spec in Hres as [Hts Hv].
  by rw (serialized_inj d d' Hts Hv).
Qed.
(** ** delete *)

(** What a deletion at [ts] may do to a record. *)
Definition marked (ts : Z) (old new : Rec) : Prop :=
  new = old ∨ (new = Deleted ts ∧ ∀ t, rec_ts old = Some t → t ≤ ts).

Lemma marked_trans ts a b c : marked ts a b → marked ts b c → marked ts a c.
Proof.
  intros [->|[-> Ha]] [->|[-> Hb]]; [by left|by right|by right|]. by right.
Qed.

Lemma added_marked ts old new : added old new (Deleted ts) → marked ts old new.
Proof. intros [[-> Hle]|[-> _]]; [right|by left]. split; [done|]. intros t Ht. by apply (Hle ts t). Qed.

(** The holders [l] of a group during a deletion: other keys stay, the records of [k] may be
    marked, only records that were there unless the holder is in [P], and the open holders
    have their own directories. *)
Record deleting (l : list Holder) (P : Holder → Prop) (k : BobKey) (ts : Z) (w w' : PearlWorld) : Prop := {
  de_groups : pw_groups w' = pw_groups w;
  de_dcs : pw_dcs w' = pw_dcs w;
  de_fresh : pw_fresh w' = pw_fresh w;
  de_other : ∀ p k', k' ≠ Key_from k → content p k' (pw_disk w') = content p k' (pw_disk w);
  de_frame : ∀ p k', p ∉ (disk_path <$> l) → content p k' (pw_disk w') = content p k' (pw_disk w);
  de_marked : ∀ h, h ∈ l → marked ts (hrec w h k) (hrec w' h k);
  de_absent : ∀ h, h ∈ l → ¬ P h → hrec w h k = NotFound → hrec w' h k = NotFound;
  de_opened : (∀ h, h ∈ l → opened w h) → ∀ h, h ∈ l → opened w' h;
}.

Lemma deleting_refl l P k ts w : deleting l P k ts w w.
Proof. split; try done. intros h _. by left. Qed.

Lemma deleting_trans l P k ts w1 w2 w3 : deleting l P k ts w1 w2 → deleting l P k ts w2 w3 → deleting l P k ts w1 w3.
Proof.
  intros [G1 D1 F1 O1 R1 M1 A1 P1] [G2 D2 F2 O2 R2 M2 A2 P2]. split; [congruence..| | | | |auto].
  - intros p k' Hk. by rw (O2 p k' Hk) (O1 p k' Hk).
  - intros p k' Hp. by rw (R2 p k' Hp) (R1 p k' Hp).
  - intros h Hin. apply (marked_trans ts _ (hrec w2 h k)); auto.
  - auto.
Qed.

Lemma reopens_deleting l P k ts h w w' :
  NoDup (h_id <$> l) → h ∈ l → reopens h w w' → deleting l P k ts w w'.
Proof.
  intros Hnd Hin ([Rg Rd Rf Rr] & Hc & Ho). split; [done..| | | | |].
  - intros p k' _. apply Hc.
  - intros p k' _. apply Hc.
  - intros h' _. left. apply Hc.
  - intros h' _ _. rw /hrec. by rw (Hc (disk_path h') (Key_from k)).
  - intros Hop h' Hin'. destruct (decide (h_id h' = h_id h)) as [Hid|Hid].
    + assert (h' = h) as ->; [|by apply Ho, Hop].
      apply list_elem_of_lookup in Hin as (i & Hi), Hin' as (j & Hj).
      assert (j = i) as ->; [|congruence].
      apply (NoDup_lookup _ j i (h_id h) Hnd); rw list_lookup_fmap; [by rw Hj /= Hid|by rw Hi].
    + intros s. rw Rr; [done|]. by apply Hop.
Qed.

Lemma holder_delete_spec h k m force w :
  opened w h →
  wp (holder_delete h k m force) (λ r w', touches (at_path h) k w w' ∧
    (hrec w' h k = hrec w h k ∨
     (added (hrec w h k) (hrec w' h k) (Deleted (timestamp m)) ∧ (force = false → hrec w h k ≠ NotFound))) ∧
    (is_ok r = true → force = true → added (hrec w h k) (hrec w' h k) (Deleted (timestamp m)))) w.
Proof.
  intros Ho. rw /holder_delete. apply wpx_bind, wpx_gets. rw -/(running w (h_id h)).
  destruct (running w (h_id h)) as [s|] eqn:Hrun;
    [|by apply wpx_ret; split; [apply calm_touches, calm_refl|split; [by left|]]].
  destruct (Ho s Hrun) as [Hdir _]. apply wpx_bind, wpx_ext.
  apply wpx_bind. eapply wpx_mono; [apply update_last_modification_calm|]. intros ? w2 Hc2.
  set (w1 := set_disk _ w) in Hc2.
  assert (touches (at_path h) k w w1) as Ht1.
  { split; [by split|]. simpl. intros p k' Hp. apply law_delete_frame. rw Hdir. destruct Hp as [Hp|]; [left|by right]. exact Hp. }
  apply wpx_ret. split; [apply (touches_trans _ k w w1); [done|by apply calm_touches]|].
  rw (calm_hrec _ _ h k Hc2). split.
  - pose proof (law_delete_any s (Key_from k) (timestamp m) (negb force) (pw_disk w)) as Hany. simpl in Hany.
    rw Hdir in Hany. destruct Hany as [Hsame|[Hadd Hpres]]; [by left|right]. split; [done|].
    intros ->. by apply Hpres.
  - intros Hok ->. simpl in Hok |- *. destruct (pe_delete s (Key_from k) (timestamp m) false (pw_disk w)) as [res d'] eqn:Hd.
    destruct res as [n|]; [|done]. pose proof (law_delete _ _ _ _ _ _ Hd) as Hadd. rw Hdir in Hadd.
    rw /hrec /w1 /= Hd. exact Hadd.
Qed.

Lemma delete_common_spec l P h k m force w :
  NoDup (h_id <$> l) → NoDup (disk_path <$> l) → h ∈ l → opened w h → (force = true → P h) →
  wlp (delete_common h k m force) (λ r w', deleting l P k (timestamp m) w w' ∧
    (is_ok r = true → force = true → added (hrec w h k) (hrec w' h k) (Deleted (timestamp m)))) w.
Proof.
  intros Hnd Hnp Hin Ho HP. rw /delete_common. apply wpx_bind.
  eapply wpx_mono; [by apply wp_wlp, holder_delete_spec|]. intros r w1 (Ht & Hrec & Hadd).
  assert (deleting l P k (timestamp m) w w1) as Hdel.
  { destruct Ht as [[Tg Td Tf Tr] Tc].
    assert (∀ h', h' ∈ l → disk_path h' = disk_path h → h' = h) as Hsame.
    { intros h' Hin' Heq. apply list_elem_of_lookup in Hin as (i & Hi), Hin' as (j & Hj).
      assert (j = i) as ->; [|congruence].
      apply (NoDup_lookup _ j i (disk_path h) Hnp); rw list_lookup_fmap; [by rw Hj /= Heq|by rw Hi]. }
    split; try done.
    - intros p k' Hk. apply Tc. by right.
    - intros p k' Hp. apply Tc. left. intros ->. by apply Hp, list_elem_of_fmap_2.
    - intros h' Hin'. destruct (decide (disk_path h' = disk_path h)) as [Heq|Hne].
      + rw (Hsame h' Hin' Heq). destruct Hrec as [->|[Ha _]]; [by left|]. by apply added_marked.
      + left. apply Tc. by left.
    - intros h' Hin' HnP Hnf. destruct (decide (disk_path h' = disk_path h)) as [Heq|Hne].
      + rw (Hsame h' Hin' Heq) in HnP, Hnf |- *. destruct Hrec as [->|[_ Hf]]; [done|].
        destruct force; [by exfalso; apply HnP, HP|]. by destruct (Hf eq_refl).
      + rw -Hnf. apply Tc. by left.
    - intros Hop h' Hin' s. rw Tr; [by intros []|]. by apply Hop. }
  destruct r as [n|e].
  - apply wpx_ret. split; [done|]. intros _ Hforce. by apply Hadd.
  - apply wpx_bind. rw /reinit_after. case_match; [by do 2 apply wpx_ret|].
    apply wpx_bind. eapply wpx_mono; [apply try_reinit_reopens|]. intros ? w2 Hre. do 2 apply wpx_ret. split; [|done].
    apply (deleting_trans _ _ _ _ _ w1); [done|]. by apply (reopens_deleting l P k _ h).
Qed.

Lemma delete_before_spec l P before k m w :
  NoDup (h_id <$> l) → NoDup (disk_path <$> l) → (∀ h, h ∈ before → h ∈ l) → (∀ h, h ∈ l → opened w h) →
  wlp (delete_in_holders_before before k m) (λ _ w', deleting l P k (timestamp m) w w') w.
Proof.
  intros Hnd Hnp Hsub Hop. rw /delete_in_holders_before.
  apply (wpx_for_each _ _ _ (λ _ _ w', deleting l P k (timestamp m) w w')); [apply deleting_refl|].
  intros pre h rest n w1 Hl Hdel. rw /delete_before_step. apply wpx_bind.
  assert (h ∈ l) as Hin.
  { apply Hsub, list_elem_of_In, in_rev. rw Hl. apply in_or_app. right. by left. }
  eapply wpx_mono; [apply (delete_common_spec l P h k m false w1); try done; by apply (de_opened _ _ _ _ _ _ Hdel Hop)|].
  intros r w2 [Hdel2 _]. apply wpx_ret. by apply (deleting_trans _ _ _ _ _ w1).
Qed.
Lemma delete_common_ok h k m force w n w' :
  opened w h → delete_common h k m force w = Some (Ok n, w') → touches (at_path h) k w w' ∧
    (force = true → added (hrec w h k) (hrec w' h k) (Deleted (timestamp m))).
Proof.
  intros Ho. rw /delete_common. intros (r & w1 & Hd & Hrest)%bind_Some_inv.
  pose proof (wpx_elim _ _ _ _ _ _ (holder_delete_spec h k m force w Ho) Hd) as (Ht & _ & Hadd).
  destruct r as [n'|e].
  - injection Hrest as _ <-. split; [done|]. by apply Hadd.
  - apply bind_Some_inv in Hrest as (u & w2 & _ & Hrest). done.
Qed.

Lemma deleting_group g k ts w w' :
  group_ok g w → group_shape g w → deleting (holders_of g w) (λ _, False) k ts w w' →
  group_ok g w' ∧ group_shape g w' ∧ holders_of g w' = holders_of g w ∧
  gc_reinit_free (group_cell w' g) = gc_reinit_free (group_cell w g).
Proof.
  intros Hok Hsh [Dg Dd Df Do Dr Dm Da Dp].
  assert (group_cell w' g = group_cell w g) as Hcell by (by rw /group_cell Dg).
  assert (holders_of g w' = holders_of g w) as Hl by (by rw /holders_of Hcell).
  split_and!; [split|split|done|by rw Hcell]; rw ?Hl ?Hcell.
  - apply (go_ids _ _ Hok).
  - apply (go_paths _ _ Hok).
  - apply Dp, (go_opened _ _ Hok).
  - intros h k' Hin Hne. apply (go_covers _ _ Hok); [done|]. destruct (decide (k' = Key_from k)) as [->|Hk].
    + intros Hnf. apply Hne. apply (Da h Hin); [by intros []|done].
    + by rw -(Do (disk_path h) k' Hk).
  - apply (sh_dense _ _ Hsh).
  - intros h Hin. rw Df. by apply (sh_fresh _ _ Hsh).
  - apply (sh_partition _ _ Hsh).
Qed.

(** What a forced deletion that succeeded leaves behind. *)
Definition delete_done (g : Group) (k : BobKey) (ts : Z) (w w' : PearlWorld) : Prop :=
  (∃ h, h ∈ holders_of g w' ∧ gets_into_interval h ts = true ∧
     (hrec w' h k = Deleted ts ∨ ∃ t, rec_ts (hrec w h k) = Some t ∧ ts ≤ t)) ∧
  (∀ h, h ∈ holders_of g w' → marked ts (hrec w h k) (hrec w' h k) ∧
    ∀ k', Key_from k' ≠ Key_from k → hrec w' h k' = hrec w h k') ∧
  ∀ p k', p ∉ (disk_path <$> holders_of g w') → content p k' (pw_disk w') = content p k' (pw_disk w).

Lemma group_delete_run g k m config n w w' :
  group_ok g w → group_shape g w → period_ok g → 0 ≤ timestamp m →
  group_delete g k m config true w = Some (Ok n, w') →
  group_ok g w' ∧ group_shape g w' ∧ gc_reinit_free (group_cell w' g) = true ∧
  (∀ h, h ∈ holders_of g w → h ∈ holders_of g w') ∧ delete_done g k (timestamp m) w w'.
Proof.
  intros Hok Hsh Hp Hts. rw /group_delete /under_reinit_lock. intros (free & w0 & [= <- <-] & Hrun)%bind_Some_inv.
  destruct (gc_reinit_free (group_cell w g)) eqn:Hfree; [|done].
  apply bind_Some_inv in Hrun as (first & w3 & Hfirst & Hrun).
  apply bind_Some_inv in Hfirst as (r & w1 & Hact & Hfirst).
  pose proof (wpx_elim _ _ _ _ _ _ (actual_holder_spec g _ config w Hok Hsh Hp Hts) Hact) as
    (Hok1 & Hsh1 & Hc1 & Hd1 & Hf1 & Hin1 & Hres).
  destruct r as [[i h]|e]; [|by injection Hfirst as <- <-]. destruct (Hres i h eq_refl) as [Hi Hint].
  assert (h ∈ holders_of g w1) as Hin by (by apply (list_elem_of_lookup_2 _ i)).
  apply bind_Some_inv in Hfirst as (del & w2 & Hdel & Hfirst).
  injection Hfirst as <- <-. destruct del as [cnt|e]; [|done].
  apply bind_Some_inv in Hdel as (rd & w1' & Hcommon & Hdel). destruct rd as [cnt'|e]; [|done].
  destruct (delete_common_ok h k m true w1 cnt' w1' (go_opened _ _ Hok1 h Hin) Hcommon) as [Ht Hadd].
  apply bind_Some_inv in Hdel as ([] & w2' & Hpar & [= _ <-]).
  destruct (touched_group g i h k w1 w1' w2' Hok1 Hsh1 Hi Ht Hpar) as (Hok2 & Hsh2 & Hl2 & Hd2 & Hf2 & Hdisk2).
  apply bind_Some_inv in Hrun as (c & w3 & [= <- <-] & Hrun).
  apply bind_Some_inv in Hrun as (count & w4 & Hbefore & [= _ <-]).
  pose proof (wpx_elim _ _ _ _ _ _ (delete_before_spec (holders_of g w2') (λ _, False)
    (filter (λ h0, start_timestamp h0 < start_timestamp h) (holders_of g w2')) k m w2'
    (go_ids _ _ Hok2) (go_paths _ _ Hok2) ltac:(intros h0 Hh%list_elem_of_filter; apply Hh) (go_opened _ _ Hok2)) Hbefore) as Hde.
  simpl in Hde. destruct (deleting_group g k (timestamp m) w2' w4 Hok2 Hsh2 Hde) as (Hok4 & Hsh4 & Hl4 & Hf4).
  split_and!; [done|done|by rw Hf4 Hf2 Hf1|by intros h' Hh; rw Hl4 Hl2; apply Hin1|]. rw /delete_done Hl4 Hl2.
  assert (∀ h', hrec w2' h' k = hrec w1' h' k) as Hsame2 by (intros h'; by rw /hrec Hdisk2).
  assert (∀ h', hrec w1 h' k = hrec w h' k) as Hsame1 by (intros h'; by rw /hrec -(Hc1 (disk_path h') (Key_from k))).
  split_and!.
  - exists h. split_and!; [done|done|]. rw -Hl2 in Hin.
    destruct (Hadd eq_refl) as [[Hnew _]|[_ (ts & t & [= <-] & Hrt & Hle)]].
    + left. destruct (de_marked _ _ _ _ _ _ Hde h Hin) as [->|[-> _]]; [by rw Hsame2|done].
    + right. exists t. by rw -Hsame1.
  - intros h' Hin'. rw -Hl2 in Hin'. split.
    + apply (marked_trans _ _ (hrec w2' h' k)); [|by apply (de_marked _ _ _ _ _ _ Hde)].
      rw Hsame2 -Hsame1. destruct (decide (disk_path h' = disk_path h)) as [Heq|Hne].
      * rw /hrec Heq. by apply added_marked, Hadd.
      * left. apply (touches_other (at_path h) k w1 w1' h' k Ht). by left.
    + intros k' Hk. rw /hrec (de_other _ _ _ _ _ _ Hde) // Hdisk2 -(Hc1 (disk_path h') (Key_from k')).
      apply (to_content _ _ _ _ Ht). by right.
  - intros p k' Hp'. rw (de_frame _ _ _ _ _ _ Hde); [by rw Hl2|]. rw Hdisk2 -(Hc1 p k').
    apply (to_content _ _ _ _ Ht). left. intros ->. by apply Hp', list_elem_of_fmap_2.
Qed.

(** C21: After a forced deletion newer than every record of its key a [get] of the group
    answers that the key is not found, and no record of another key has changed. *)
Theorem group_delete_gone g k m config n w w' :
  group_ok g w → group_shape g w → period_ok g → step_small g → 0 ≤ timestamp m →
  group_delete g k m config true w = Some (Ok n, w') → records_older g w w' k (timestamp m) →
  (∀ h, h ∈ holders_of g w' → readable w' h k) →
  (∃ w'', group_get g k w' = Some (Err (key_not_found k), w'')) ∧
  ∀ h k', h ∈ holders_of g w' → Key_from k' ≠ Key_from k → hrec w' h k' = hrec w h k'.
Proof.
  intros Hok Hsh Hp Hstep Hts Hdel Hold Hread.
  destruct (group_delete_run g k m config n w w' Hok Hsh Hp Hts Hdel) as (Hok' & Hsh' & Hfree & _ & (h & Hin & Hint & Hrec) & Hall & _).
  split; [|intros h' k' Hin'; by apply Hall].
  assert (hrec w' h k = Deleted (timestamp m)) as Hdeleted.
  { destruct Hrec as [->|(t & Ht & Hle)]; [done|]. pose proof (proj2 (Hold h Hin) t Ht). lia. }
  assert (∀ h', h' ∈ holders_of g w' → rec_wf (hrec w' h' k) ∧
            ∀ t, rec_ts (hrec w' h' k) = Some t → t ≤ timestamp m ∧ (t = timestamp m → hrec w' h' k = Deleted (timestamp m))) as Hrecs.
  { intros h' Hin'. destruct (Hold h' Hin') as [Hwf Hlt]. destruct (proj1 (Hall h' Hin')) as [Heq|[Heq _]]; rw Heq.
    - split; [done|]. intros t Ht. specialize (Hlt t Ht). lia.
    - split; [by intros ts v|]. by intros t [= <-]. }
  assert (timely g (λ h, hrec w' h k) (holders_of g w')) as Htime.
  { apply (covering_timely g w' k h (timestamp m)); [done|done|by apply (sh_partition _ _ Hsh')|done|done|by rw Hdeleted|].
    intros h' t Hin' Ht. by apply (proj2 (Hrecs h' Hin') t). }
  assert (records_wf g w' k) as Hwf by (intros h' Hin'; by apply Hrecs).
  pose proof (group_get_run g k w' Hok' Hfree Hwf Htime) as Hget. rw /wpx in Hget.
  destruct (group_get g k w') as [[r w'']|]; [|by exfalso; apply Hget].
  destruct Hget as (_ & _ & Hnew). destruct (Hnew Hread) as (rc & [Hfrom Hmax] & Hres).
  destruct (Hmax h (timestamp m) Hin) as (t & Ht & Hle); [by rw Hdeleted|].
  destruct Hfrom as [->|(h' & Hin' & Heq)]; [done|]. subst rc.
  destruct (proj2 (Hrecs h' Hin') t Ht) as [Hle' Hsame]. rw (Hsame ltac:(lia)) in Hres.
  destruct r as [d|e]; [done|]. destruct Hres as [-> _]. by exists w''.
Qed.
End writes.
