(* ===== verification/PearlHistory.v ===== *)
(** * PearlHistory: a group as a map of keys to their newest operation

    The abstract specification of a group [bob-backend/src/pearl/group.rs]: a set of puts and
    deletions, of which a read sees the newest one of its key.  The directories, the
    intervals, the filters and the order of the operations are the group's own business. *)

From Corelib Require Import ssreflect.
From stdpp Require Import base option list strings gmap numbers.
From Stdlib Require Import Strings.Byte ZArith Lia.
From S2P Require Import Prelude Data Text Errors Options Node ClusterConfig NodeConfig Mapper Backend PearlUtils PearlWorld PearlHolder PearlGroup PearlLaws PearlReads PearlWrites.

(** ** Specification *)

Inductive GroupOp : Type :=
| GPut (key : BobKey) (data : BobData)
| GDelete (key : BobKey) (m : BobMeta).

Definition go_key (o : GroupOp) : BobKey := match o with GPut key _ | GDelete key _ => key end.
Definition go_ts (o : GroupOp) : Z :=
  match o with GPut _ data => timestamp (meta data) | GDelete _ m => timestamp m end.
Definition go_wf (o : GroupOp) : Prop :=
  match o with GPut _ data => data_wf data | GDelete _ m => 0 ≤ timestamp m end.

(** The newer of two operations. *)
Definition newer_op (best : option GroupOp) (o : GroupOp) : option GroupOp :=
  match best with
  | Some b => if go_ts b <? go_ts o then Some o else best
  | None => Some o
  end.

Section history.
Context {key_size : KeySize} `{ChronoLaws, Sha256, PearlLaws}.

Definition go_pearl_key (o : GroupOp) : list byte := Key_from (go_key o).

Definition newest_op (k : BobKey) (ops : list GroupOp) : option GroupOp :=
  foldl newer_op None (filter (λ o, go_pearl_key o = Key_from k) ops).

Definition spec_get (k : BobKey) (ops : list GroupOp) : result BobData Error :=
  match newest_op k ops with
  | Some (GPut _ data) => Ok data
  | _ => Err (key_not_found k)
  end.

(** ** Implementation *)

(** A local deletion is forced. *)
Definition group_apply (g : Group) (o : GroupOp) : M PearlWorld (result unit Error) :=
  match o with
  | GPut key data => group_put g key data StartTimestampConfig_default
  | GDelete key m => r ← group_delete g key m StartTimestampConfig_default true; mret (result_map (λ _, tt) r)
  end.

Definition apply_step (g : Group) (res : result unit Error) (o : GroupOp) : M PearlWorld (result unit Error) :=
  match res with Ok _ => group_apply g o | Err e => mret (Err e) end.

Definition group_apply_all (g : Group) (ops : list GroupOp) : M PearlWorld (result unit Error) :=
  for_each (apply_step g) (Ok tt) ops.

(** ** The invariant *)
#[local] Set Default Proof Using "Type*".

(** The record an operation leaves. *)
Definition go_rec (o : GroupOp) : Rec :=
  match o with
  | GPut _ data => Found (timestamp (meta data), to_serialized_bytes data)
  | GDelete _ m => Deleted (timestamp m)
  end.

Lemma go_rec_ts o : rec_ts (go_rec o) = Some (go_ts o).
Proof. by destruct o. Qed.

(** Every record is of an operation, and every operation left a record as new as it in a
    holder whose interval has its time. *)
Record history (g : Group) (ops : list GroupOp) (w : PearlWorld) : Prop := {
  hy_from : ∀ h k, partition_of g h → hrec w h k = NotFound ∨
    ∃ o, o ∈ ops ∧ go_pearl_key o = Key_from k ∧ hrec w h k = go_rec o;
  hy_left : ∀ o, o ∈ ops → ∃ h t, h ∈ holders_of g w ∧ gets_into_interval h (go_ts o) = true ∧
    rec_ts (hrec w h (go_key o)) = Some t ∧ go_ts o ≤ t;
}.

(** What one successful operation does to the records. *)
Record op_done (g : Group) (o : GroupOp) (w w' : PearlWorld) : Prop := {
  od_grows : ∀ h, h ∈ holders_of g w → h ∈ holders_of g w';
  od_record : ∀ h k, hrec w' h k = hrec w h k ∨
    (go_pearl_key o = Key_from k ∧ hrec w' h k = go_rec o ∧ ∀ t, rec_ts (hrec w h k) = Some t → t ≤ go_ts o);
  od_left : ∃ h t, h ∈ holders_of g w' ∧ gets_into_interval h (go_ts o) = true ∧
    rec_ts (hrec w' h (go_key o)) = Some t ∧ go_ts o ≤ t;
}.

Lemma history_step g o ops w w' : history g ops w → op_done g o w w' → history g (ops ++ [o]) w'.
Proof.
  intros [Hfrom Hleft] [Hgrows Hrec Hnew]. split.
  - intros h k Hp. destruct (Hrec h k) as [->|(Hk & -> & _)].
    + destruct (Hfrom h k Hp) as [?|(o' & Hin & Ho')]; [by left|right]. exists o'. split; [apply elem_of_app; by left|done].
    + right. exists o. split_and!; [apply elem_of_app; right; by left|done..].
  - intros o' [Hin|Hin]%elem_of_app.
    + destruct (Hleft o' Hin) as (h & t & Hh & Hint & Ht & Hle). destruct (Hrec h (go_key o')) as [Heq|(_ & Heq & Hold)].
      * exists h, t. rw Heq. split_and!; [by apply Hgrows|done..].
      * exists h, (go_ts o). rw Heq go_rec_ts. split_and!; [by apply Hgrows|done..|]. specialize (Hold t Ht). lia.
    + apply list_elem_of_singleton in Hin as ->. exact Hnew.
Qed.

Lemma added_rec old new r ts : rec_ts r = Some ts → added old new r →
  (new = old ∨ (new = r ∧ ∀ t, rec_ts old = Some t → t ≤ ts)) ∧ ∃ t, rec_ts new = Some t ∧ ts ≤ t.
Proof.
  intros Hr [[-> Hle]|[-> (ts' & t & Hr' & Ht & Hle)]].
  - split; [right; split; [done|intros t; by apply Hle]|]. by exists ts.
  - split; [by left|]. exists t. rw Hr in Hr'. injection Hr' as ->. done.
Qed.

(** Records are told apart by directory and key. *)
Lemma hrec_at w h h' k k' : disk_path h = disk_path h' → Key_from k = Key_from k' → hrec w h k = hrec w h' k'.
Proof. rw /hrec. by intros -> ->. Qed.

Lemma put_op_done g k d w w' :
  (∀ h, h ∈ holders_of g w → h ∈ holders_of g w') → put_done g k d w w' → op_done g (GPut k d) w w'.
Proof.
  intros Hgrows (h & Hin & Hint & Hadd & _ & Hframe).
  destruct (added_rec _ _ (Found (timestamp (meta d), to_serialized_bytes d)) (timestamp (meta d)) eq_refl Hadd)
    as [Hrec (t & Ht & Hle)]. split; [done| |by exists h, t].
  intros h' k'. destruct (decide (disk_path h' = disk_path h ∧ Key_from k' = Key_from k)) as [[Hp Hk]|Hother].
  - rw (hrec_at w' h' h k' k Hp Hk) (hrec_at w h' h k' k Hp Hk). destruct Hrec as [->|[-> Hold]]; [by left|by right].
  - left. apply Hframe. destruct (decide (disk_path h' = disk_path h)) as [Hp|]; [right|by left].
    intros Hk. by apply Hother.
Qed.

Lemma delete_op_done g k m w w' :
  (∀ h, h ∈ holders_of g w → h ∈ holders_of g w') → delete_done g k (timestamp m) w w' → op_done g (GDelete k m) w w'.
Proof.
  intros Hgrows ((h & Hin & Hint & Hleft) & Hall & Hframe). split; [done| |].
  - intros h' k'. destruct (decide (disk_path h' ∈ disk_path <$> holders_of g w')) as [Hl|Hl]; [|by left; apply Hframe].
    apply list_elem_of_fmap in Hl as (h0 & Hp & Hin0). destruct (Hall h0 Hin0) as [Hmark Hother].
    destruct (decide (Key_from k' = Key_from k)) as [Hk|Hk].
    + rw (hrec_at w' h' h0 k' k Hp Hk) (hrec_at w h' h0 k' k Hp Hk). destruct Hmark as [->|[-> Hold]]; [by left|by right].
    + left. rw (hrec_at w' h' h0 k' k' Hp eq_refl) (hrec_at w h' h0 k' k' Hp eq_refl). by apply Hother.
  - exists h. simpl. destruct Hleft as [->|(t & Ht & Hle)]; [by exists (timestamp m)|].
    destruct (proj1 (Hall h Hin)) as [->|[-> _]]; [by exists t|by exists (timestamp m)].
Qed.

(** ** The group *)

(** A group the operations keep: its holders, its lock and its records. *)
Record group_live (g : Group) (ops : list GroupOp) (w : PearlWorld) : Prop := {
  gl_ok : group_ok g w;
  gl_shape : group_shape g w;
  gl_free : gc_reinit_free (group_cell w g) = true;
  gl_history : history g ops w;
}.

Lemma group_apply_run g o w w' :
  group_ok g w → group_shape g w → period_ok g → pl_allow_duplicates (group_config g) = true → go_wf o →
  group_apply g o w = Some (Ok tt, w') →
  group_ok g w' ∧ group_shape g w' ∧ gc_reinit_free (group_cell w' g) = true ∧ op_done g o w w'.
Proof.
  intros Hok Hsh Hp Hdup Hwf Hrun. destruct o as [k d|k m]; simpl in Hwf, Hrun.
  - destruct (group_put_run g k d _ w w' Hok Hsh Hp (proj1 Hwf) Hdup Hrun) as (Hok' & Hsh' & _ & Hfree' & Hgrows & Hdone).
    split_and!; [done..|]. by apply put_op_done.
  - apply bind_Some_inv in Hrun as (r & w1 & Hdel & [= Hr <-]). destruct r as [n|e]; [|done].
    destruct (group_delete_run g k m _ n w w1 Hok Hsh Hp Hwf Hdel) as (Hok' & Hsh' & Hfree' & Hgrows & Hdone).
    split_and!; [done..|]. by apply delete_op_done.
Qed.

(** C18: A put or a forced deletion that succeeds leaves the group well-formed - different
    holders over different directories, named after their start and one period long, every
    record under filters that admit it, identifiers of holders fresh, the lock free - keeps
    every holder, and changes no record but those of its key, which stay or become its own. *)
Theorem group_stays_wf g o w w' :
  group_ok g w → group_shape g w → period_ok g → pl_allow_duplicates (group_config g) = true → go_wf o →
  group_apply g o w = Some (Ok tt, w') →
  group_ok g w' ∧ group_shape g w' ∧ gc_reinit_free (group_cell w' g) = true ∧ op_done g o w w'.
Proof. apply group_apply_run. Qed.

Lemma group_apply_live g ops o w w' :
  period_ok g → pl_allow_duplicates (group_config g) = true → go_wf o → group_live g ops w →
  group_apply g o w = Some (Ok tt, w') → group_live g (ops ++ [o]) w'.
Proof.
  intros Hp Hdup Hwf [Hok Hsh Hfree Hh] Hrun.
  destruct (group_apply_run g o w w' Hok Hsh Hp Hdup Hwf Hrun) as (Hok' & Hsh' & Hfree' & Hdone).
  split; [done..|]. by apply (history_step g _ _ w).
Qed.

Lemma group_apply_failed g ops e w : for_each (apply_step g) (Err e) ops w = Some (Err e, w).
Proof. induction ops as [|o ops IH]; [done|]. by rw /= (bind_run _ _ _ (Err e) w). Qed.

Lemma group_apply_all_live g ops done w w' :
  period_ok g → pl_allow_duplicates (group_config g) = true → Forall go_wf ops → group_live g done w →
  group_apply_all g ops w = Some (Ok tt, w') → group_live g (done ++ ops) w'.
Proof.
  intros Hp Hdup. revert done w. induction ops as [|o ops IH]; intros done w Hwf Hl Hrun.
  - move: Hrun => [= <-]. by rw app_nil_r.
  - apply list.Forall_cons in Hwf as [Ho Hwf]. apply bind_Some_inv in Hrun as (r & w1 & Ho1 & Hrun).
    change (for_each (apply_step g) r ops w1 = Some (Ok tt, w')) in Hrun.
    destruct r as [[]|e]; [|by rw group_apply_failed in Hrun].
    pose proof (group_apply_live g done o w w1 Hp Hdup Ho Hl Ho1) as Hl1.
    rw (cons_middle o) app_assoc. by apply (IH _ w1).
Qed.

(** ** Reading *)

(** The newest operation is one of them, and none is newer. *)
Lemma newest_op_from best l : match foldl newer_op best l with
  | Some b => (best = Some b ∨ b ∈ l) ∧ (∀ o, best = Some o ∨ o ∈ l → go_ts o ≤ go_ts b)
  | None => best = None ∧ l = []
  end.
Proof.
  revert best. induction l as [|o l IH]; intros best; simpl.
  - destruct best as [b|]; [|done]. split; [by left|]. intros o [[= ->]|Hin]; [lia|]. by apply not_elem_of_nil in Hin.
  - pose proof (IH (newer_op best o)) as Hb. destruct (foldl newer_op (newer_op best o) l) as [b|].
    + destruct Hb as [Hfrom Hmax]. assert (∀ o', newer_op best o = Some o' → best = Some o' ∨ o' = o) as Hstep.
      { intros o'. rw /newer_op. destruct best as [b'|]; [destruct (go_ts b' <? go_ts o)|]; intros [= <-]; auto. }
      assert (∃ o', newer_op best o = Some o' ∧ go_ts o ≤ go_ts o' ∧ ∀ b', best = Some b' → go_ts b' ≤ go_ts o') as (o' & Ho' & Hle & Hbest).
      { rw /newer_op. destruct best as [b'|]; [destruct (go_ts b' <? go_ts o) eqn:Hlt|]; eexists; (split; [done|]); split;
          try lia; intros b0; [intros [= <-]; lia..|done]. }
      pose proof (Hmax o' (or_introl Ho')) as Hmo. split.
      * destruct Hfrom as [Hnew|Hin]; [|by right; right]. destruct (Hstep b Hnew) as [?| ->]; [by left|by right; left].
      * intros o0 [Hb0|Hin]; [specialize (Hbest o0 Hb0); lia|]. apply elem_of_cons in Hin as [->|Hin]; [lia|]. apply Hmax. by right.
    + destruct Hb as [Hb _]. exfalso. move: Hb. rw /newer_op. destruct best as [b'|]; [by destruct (go_ts b' <? go_ts o)|done].
Qed.

Lemma newest_op_spec k ops : match newest_op k ops with
  | Some b => b ∈ ops ∧ go_pearl_key b = Key_from k ∧ ∀ o, o ∈ ops → go_pearl_key o = Key_from k → go_ts o ≤ go_ts b
  | None => ∀ o, o ∈ ops → go_pearl_key o ≠ Key_from k
  end.
Proof.
  rw /newest_op. pose proof (newest_op_from None (filter (λ o, go_pearl_key o = Key_from k) ops)) as Hb.
  destruct (foldl _ _ _) as [b|].
  - destruct Hb as [[?|Hin] Hmax]; [done|]. apply list_elem_of_filter in Hin as [Hk Hin]. split_and!; [done..|].
    intros o Ho Hko. apply Hmax. right. by apply list_elem_of_filter.
  - destruct Hb as [_ Hnil]. intros o Ho Hko.
    assert (o ∈ filter (λ o, go_pearl_key o = Key_from k) ops) as Hin by (by apply list_elem_of_filter).
    rw Hnil in Hin. by apply not_elem_of_nil in Hin.
Qed.

(** The operations on one key have different times. *)
Definition go_id (o : GroupOp) : list byte * Z := (go_pearl_key o, go_ts o).

Lemma go_id_inj ops o o' : NoDup (go_id <$> ops) → o ∈ ops → o' ∈ ops → go_id o = go_id o' → o = o'.
Proof.
  intros Hnd (i & Hi)%list_elem_of_lookup (j & Hj)%list_elem_of_lookup Heq.
  assert (i = j) as ->; [|congruence]. apply (NoDup_lookup _ i j (go_id o) Hnd); rw list_lookup_fmap; [by rw Hi|by rw Hj /= Heq].
Qed.

Section read.
Variables (g : Group) (ops : list GroupOp) (w : PearlWorld) (k : BobKey).
Hypothesis live : group_live g ops w.
Hypothesis wf : Forall go_wf ops.
Hypothesis distinct : NoDup (go_id <$> ops).

(** A record of the key is of one of its operations. *)
Lemma live_record h t : h ∈ holders_of g w → rec_ts (hrec w h k) = Some t →
  ∃ o, o ∈ ops ∧ go_pearl_key o = Key_from k ∧ hrec w h k = go_rec o ∧ go_ts o = t.
Proof.
  intros Hin Ht. destruct (hy_from _ _ _ (gl_history _ _ _ live) h k (sh_partition _ _ (gl_shape _ _ _ live) h Hin)) as
    [Hn|(o & Ho & Hk & Hr)]; [by rw Hn in Ht|].
  exists o. split_and!; [done..|]. rw Hr go_rec_ts in Ht. by injection Ht.
Qed.

Lemma live_wf : records_wf g w k.
Proof.
  intros h Hin ts v Hr. destruct (live_record h ts Hin) as (o & Ho & _ & Hrec & _); [by rw Hr|].
  rw Hr in Hrec. destruct o as [k' d|k' m]; [|done]. injection Hrec as -> ->. exists d. split_and!; [done..|].
  by apply (proj1 (list.Forall_forall _ _) wf _ Ho).
Qed.

(** The newest operation is a record of a holder whose interval has its time. *)
Lemma live_newest b : newest_op k ops = Some b →
  (∃ h, h ∈ holders_of g w ∧ gets_into_interval h (go_ts b) = true ∧ hrec w h k = go_rec b) ∧
  ∀ h t, h ∈ holders_of g w → rec_ts (hrec w h k) = Some t → t ≤ go_ts b ∧ (t = go_ts b → hrec w h k = go_rec b).
Proof.
  intros Hb. pose proof (newest_op_spec k ops) as Hspec. rw Hb in Hspec. destruct Hspec as (Hin & Hk & Hmax).
  assert (∀ h t, h ∈ holders_of g w → rec_ts (hrec w h k) = Some t →
            t ≤ go_ts b ∧ (t = go_ts b → hrec w h k = go_rec b)) as Hall.
  { intros h t Hh Ht. destruct (live_record h t Hh Ht) as (o & Ho & Hko & -> & <-). split; [by apply Hmax|].
    intros Heq. f_equal. apply (go_id_inj ops); [done..|]. by rw /go_id Heq Hk Hko. }
  split; [|done]. destruct (hy_left _ _ _ (gl_history _ _ _ live) b Hin) as (h & t & Hh & Hint & Ht & Hle).
  assert (hrec w h (go_key b) = hrec w h k) as Hsame by (by apply hrec_at). rw Hsame in Ht.
  exists h. split_and!; [done..|]. destruct (Hall h t Hh Ht) as [Hle' Heq]. apply Heq. lia.
Qed.

Lemma live_timely : step_small g → period_ok g → timely g (λ h, hrec w h k) (holders_of g w).
Proof.
  intros Hstep Hp. destruct (newest_op k ops) as [b|] eqn:Hb.
  - destruct (live_newest b Hb) as [(h & Hin & Hint & Hr) Hall].
    apply (covering_timely g w k h (go_ts b)); try done.
    + by apply (sh_partition _ _ (gl_shape _ _ _ live)).
    + by rw Hr go_rec_ts.
    + intros h' t Hin' Ht. by apply (Hall h' t).
  - intros h t Hin Ht. destruct (live_record h t Hin Ht) as (o & Ho & Hk & _).
    pose proof (newest_op_spec k ops) as Hspec. rw Hb in Hspec. by destruct (Hspec o Ho).
Qed.

Lemma live_get r : get_newest g w k r → r = spec_get k ops.
Proof.
  intros (rc & [Hfrom Hmax] & Hr). rw /spec_get. destruct (newest_op k ops) as [b|] eqn:Hb.
  - destruct (live_newest b Hb) as [(h & Hin & _ & Hrec) Hall].
    destruct (Hmax h (go_ts b) Hin) as (t & Ht & Hle); [by rw Hrec go_rec_ts|].
    destruct Hfrom as [->|(h' & Hin' & Heq)]; [done|]. subst rc.
    destruct (Hall h' t Hin' Ht) as [Hle' Hsame]. rw (Hsame ltac:(lia)) in Hr.
    destruct b as [kb d|kb m], r as [d'|e]; simpl in Hr; try done.
    + f_equal. symmetry. apply serialized_inj; congruence.
    + by destruct Hr.
    + by destruct Hr as [-> _].
  - destruct Hfrom as [->|(h & Hin & Heq)]; [by destruct r as [d|e]; [|destruct Hr as [-> _]]|].
    destruct (rec_ts rc) as [t|] eqn:Ht.
    + exfalso. subst rc. destruct (live_record h t Hin Ht) as (o & Ho & Hk & _).
      pose proof (newest_op_spec k ops) as Hspec. rw Hb in Hspec. by destruct (Hspec o Ho).
    + destruct rc; try done. by destruct r as [d|e]; [|destruct Hr as [-> _]].
Qed.
End read.

(** C4: A group implements the map of keys to their newest operations.  After any sequence of
    puts and forced deletions that succeeded on a group without records, with different
    times for one key and in any order of them, [get] of a group with readable holders
    returns the data of the newest operation of the key if it is a put, and that the key is
    not found if it is a deletion or there is none. *)
Theorem group_implements_map g ops w w' k :
  group_ok g w → group_shape g w → gc_reinit_free (group_cell w g) = true → period_ok g → step_small g →
  pl_allow_duplicates (group_config g) = true → (∀ h k, partition_of g h → hrec w h k = NotFound) →
  Forall go_wf ops → NoDup (go_id <$> ops) → group_apply_all g ops w = Some (Ok tt, w') →
  (∀ h, h ∈ holders_of g w' → readable w' h k) →
  ∃ w'', group_get g k w' = Some (spec_get k ops, w'').
Proof.
  intros Hok Hsh Hfree Hp Hstep Hdup Hempty Hwf Hnd Hrun Hread.
  assert (group_live g [] w) as Hl.
  { split; [done..|]. split; [intros h k' Hpart; left; by apply Hempty|]. intros o Ho. by apply not_elem_of_nil in Ho. }
  pose proof (group_apply_all_live g ops [] w w' Hp Hdup Hwf Hl Hrun) as Hl'. simpl in Hl'.
  pose proof (group_get_run g k w' (gl_ok _ _ _ Hl') (gl_free _ _ _ Hl') (live_wf g ops w' k Hl' Hwf Hnd)
    (live_timely g ops w' k Hl' Hwf Hnd Hstep Hp)) as Hget. rw /wpx in Hget.
  destruct (group_get g k w') as [[r w'']|]; [|by exfalso; apply Hget].
  exists w''. do 2 f_equal. apply (live_get g ops w' k Hl' Hwf Hnd). by apply Hget.
Qed.
End history.
