(* ===== verification/PearlSettings.v ===== *)
(** * PearlSettings: where the groups of a node are

    [bob-backend/src/pearl/settings.rs]: the directories of the groups, and the groups of
    aliens found on the disk. *)

From Corelib Require Import ssreflect.
From stdpp Require Import base option list strings gmap numbers.
From Stdlib Require Import Strings.Byte Strings.Ascii ZArith Lia.
From S2P Require Import Prelude Data Text Errors Options Node ClusterConfig NodeConfig Mapper Backend PearlUtils PearlWorld PearlHolder PearlGroup.

Definition DEFAULT_ALIEN_DISK_NAME : string := "alien_disk".

Section settings.
Context `{ConfigParsers, PearlCrate}.

(** [None]: the alien disk is not a disk of the mapper, or a field does not parse. *)
Definition Settings_new (config : NodeConfig) (mapper : Virtual) : option Settings :=
  pearl ← cfg_get_pearl config;
  alien_folder ←
    match pl_alien_disk pearl with
    | Some alien_disk =>
        disk ← get_disk mapper alien_disk;
        Some (dp_path disk +:+ "/" +:+ bs_alien_root_dir_name (pl_settings pearl) +:+ "/")
    | None => Some (bs_alien_root_dir_name (pl_settings pearl))
    end;
  period ← bs_period (pl_settings pearl);
  Some {| se_bob_prefix_path := bs_root_dir_name (pl_settings pearl);
          se_alien_folder := alien_folder;
          se_timestamp_period := period;
          se_config := pearl;
          se_mapper := mapper;
          se_holder_group_size := cfg_holder_group_size config |}.

Definition normal_path (s : Settings) (disk_path : string) (vdisk_id : VDiskId) : string :=
  path_push (disk_path +:+ "/" +:+ se_bob_prefix_path s +:+ "/") (fmt_dec vdisk_id +:+ "/").

Definition alien_path (s : Settings) (vdisk_id : VDiskId) (node_name : NodeName) : string :=
  path_push (se_alien_folder s) (node_name +:+ "/" +:+ fmt_dec vdisk_id +:+ "/").

(** The name of a directory as a node of the cluster; an error only skips it. *)
Definition try_parse_node_name (s : Settings) (file_name : string) : result string Error :=
  if existsb (λ node, bool_decide (node_name node = file_name)) (vm_nodes (se_mapper s)) then Ok file_name
  else Err (failed ("cannot find node with name: " +:+ fmt_debug_str file_name)).

Definition try_parse_vdisk_id (s : Settings) (file_name : string) : result VDiskId Error :=
  match parse_u32 file_name with
  | None => Err (failed ("cannot parse file name: " +:+ fmt_debug_str file_name))
  | Some vdisk_id =>
      if bool_decide (vdisk_id ∈ get_vdisks_ids (se_mapper s)) then Ok vdisk_id
      else Err (failed ("cannot find vdisk with id: " +:+ fmt_dec vdisk_id))
  end.

(** The largest timestamp; the last of equals, as [max_by] does. *)
Definition newer_data (best : option BobData) (d : BobData) : option BobData :=
  match best with
  | Some b => if timestamp (meta d) <? timestamp (meta b) then Some b else Some d
  | None => Some d
  end.
Definition choose_most_recent_data (records : list BobData) : option BobData := foldl newer_data None records.

Definition alien_group_step (s : Settings) (disk_name : DiskName) (owner_node_name node : NodeName) (path : string)
    (groups : list Group) (file_name : string) : M PearlWorld (list Group) :=
  match try_parse_vdisk_id s file_name with
  | Err _ => mret groups
  | Ok vdisk_id =>
      on_node ← expect (is_vdisk_on_node (se_mapper s) node vdisk_id);
      if (on_node : bool) then
        group ← Group_new s vdisk_id node disk_name (path_push path file_name) ("a" +:+ owner_node_name);
        mret (groups ++ [group])
      else mret groups
  end.

Definition alien_node_step (s : Settings) (disk_name : DiskName) (owner_node_name : NodeName)
    (res : result (list Group) Error) (file_name : string) : M PearlWorld (result (list Group) Error) :=
  match res with
  | Err e => mret (Err e)
  | Ok groups =>
      match try_parse_node_name s file_name with
      | Err _ => mret (Ok groups)
      | Ok node =>
          let path := path_push (se_alien_folder s) file_name in
          vdisks ← get_all_subdirectories path;
          match vdisks with
          | Err e => mret (Err e)
          | Ok vdisks => groups ← for_each (alien_group_step s disk_name owner_node_name node path) groups vdisks; mret (Ok groups)
          end
      end
  end.

Definition settings_collect_alien_groups (s : Settings) (disk_name : DiskName) (owner_node_name : NodeName)
    : M PearlWorld (result (list Group) Error) :=
  node_names ← get_all_subdirectories (se_alien_folder s);
  match node_names with
  | Err e => mret (Err e)
  | Ok node_names => for_each (alien_node_step s disk_name owner_node_name) (Ok []) node_names
  end.

Definition create_alien_group (s : Settings) (remote_node_name : NodeName) (vdisk_id : VDiskId) (node_name : NodeName)
    : M PearlWorld (result Group Error) :=
  let path := alien_path s vdisk_id remote_node_name in
  r ← check_or_create_directory path;
  match r with
  | Err e => mret (Err e)
  | Ok _ =>
      group ← Group_new s vdisk_id remote_node_name (default DEFAULT_ALIEN_DISK_NAME (pl_alien_disk (se_config s)))
        path ("a" +:+ node_name);
      mret (Ok group)
  end.
End settings.
