(* ===== verification/PearlDisk.v ===== *)
(** * PearlDisk: the groups of one disk

    [bob-backend/src/pearl/disk_controller.rs].  A controller serves requests while its
    disk is [Ready]; an error that looks like a lost disk closes and drops its groups.
    Metrics and the log of disk events are not modelled. *)

From Corelib Require Import ssreflect.
From stdpp Require Import base option list strings gmap numbers.
From Stdlib Require Import Strings.Byte ZArith Lia.
From S2P Require Import Prelude Data Text Errors Options Node ClusterConfig NodeConfig Mapper Backend PearlUtils PearlWorld PearlHolder PearlGroup PearlSettings.

Section disk.
Context {key_size : KeySize} `{ConfigParsers, Chrono, Sha256, PearlCrate}.

Definition read_state (dc : DiskController) : M PearlWorld GroupsState := gets (λ w, dcc_state (dc_cell w (dc_id dc))).
Definition read_groups (dc : DiskController) : M PearlWorld (list Group) := gets (λ w, dcc_groups (dc_cell w (dc_id dc))).
Definition write_state (dc : DiskController) (state : GroupsState) : M PearlWorld unit :=
  modify (λ w, let c := dc_cell w (dc_id dc) in put_dc_cell (dc_id dc)
    {| dcc_groups := dcc_groups c; dcc_state := state; dcc_blobs_count_cached := dcc_blobs_count_cached c |} w).
Definition write_groups (dc : DiskController) (groups : list Group) : M PearlWorld unit :=
  modify (λ w, let c := dc_cell w (dc_id dc) in put_dc_cell (dc_id dc)
    {| dcc_groups := groups; dcc_state := dcc_state c; dcc_blobs_count_cached := dcc_blobs_count_cached c |} w).
Definition store_blobs_count (dc : DiskController) (n : Z) : M PearlWorld unit :=
  modify (λ w, let c := dc_cell w (dc_id dc) in put_dc_cell (dc_id dc)
    {| dcc_groups := dcc_groups c; dcc_state := dcc_state c; dcc_blobs_count_cached := n |} w).

Definition is_work_dir_available (path : string) : M PearlWorld bool := peek (fs_exists path).

Definition dc_is_ready (dc : DiskController) : M PearlWorld bool :=
  state ← read_state dc; mret (bool_decide (state = DiskReady)).

(** ** States *)

Definition shutdown_group (_ : unit) (g : Group) : M PearlWorld unit :=
  holders ← read_holders g; close_holders (hf_iter holders).

Definition dc_shutdown (dc : DiskController) : M PearlWorld unit :=
  groups ← read_groups dc; for_each shutdown_group tt groups.

(** A transformation the code calls invalid is reported and made all the same. *)
Definition change_state (dc : DiskController) (new_state : GroupsState) : M PearlWorld unit :=
  state ← read_state dc;
  if bool_decide (state = new_state) then mret tt
  else
    _ ← match new_state with
        | DiskNotReady => _ ← dc_shutdown dc; write_groups dc []
        | _ => mret tt
        end;
    write_state dc new_state.

Definition process_error (dc : DiskController) (e : Error) : M PearlWorld Error :=
  _ ← (if is_possible_disk_disconnection e then change_state dc DiskNotReady else mret tt);
  mret e.

Definition normal_group (dc : DiskController) (groups : list Group) (vdisk_id : VDiskId) : M PearlWorld (list Group) :=
  group ← Group_new (dc_settings dc) vdisk_id (dc_node_name dc) (dp_name (dc_disk dc))
    (normal_path (dc_settings dc) (dp_path (dc_disk dc)) vdisk_id) (dc_node_name dc);
  mret (groups ++ [group]).

Definition collect_normal_groups (dc : DiskController) : M PearlWorld (list Group) :=
  for_each (normal_group dc) [] (dc_vdisks dc).

Definition collect_alien_groups (dc : DiskController) : M PearlWorld (result (list Group) Error) :=
  settings_collect_alien_groups (dc_settings dc) (dp_name (dc_disk dc)) (dc_node_name dc).

Definition get_groups (dc : DiskController) : M PearlWorld (result (list Group) Error) :=
  if dc_is_alien dc then collect_alien_groups dc
  else groups ← collect_normal_groups dc; mret (Ok groups).

Definition dc_init (dc : DiskController) : M PearlWorld (result unit Error) :=
  state ← read_state dc;
  match state with
  | DiskNotReady =>
      groups ← get_groups dc;
      match groups with
      | Err e => mret (Err e)
      | Ok groups =>
          _ ← write_groups dc groups;
          _ ← change_state dc DiskInitialized;
          mret (Ok tt)
      end
  | _ => mret (Ok tt)
  end.

(** The groups are run in place, up to the first that fails. *)
Fixpoint run_groups_go (done groups : list Group) : M PearlWorld (result unit Error * list Group) :=
  match groups with
  | [] => mret (Ok tt, done)
  | g :: rest =>
      r ← group_run g;
      match r.1 with
      | Ok _ => run_groups_go (done ++ [r.2]) rest
      | Err e => mret (Err e, done ++ r.2 :: rest)
      end
  end.

Definition run_groups (dc : DiskController) : M PearlWorld (result unit Error) :=
  groups ← read_groups dc;
  r ← run_groups_go [] groups;
  _ ← write_groups dc r.2;
  mret r.1.

Definition groups_run_initialized (dc : DiskController) : M PearlWorld (result unit Error) :=
  res ← run_groups dc;
  match res with
  | Err e =>
      available ← is_work_dir_available (dp_path (dc_disk dc));
      _ ← (if (available : bool) then mret tt else change_state dc DiskNotReady);
      mret (Err e)
  | Ok _ => _ ← change_state dc DiskReady; mret (Ok tt)
  end.

Definition groups_run (dc : DiskController) : M PearlWorld (result unit Error) :=
  state ← read_state dc;
  match state with
  | DiskInitialized => groups_run_initialized dc
  | DiskReady => mret (Ok tt)
  | DiskNotReady => mret (Err internal)
  end.

Definition dc_run (dc : DiskController) : M PearlWorld (result unit Error) :=
  r ← dc_init dc;
  match r with Err e => mret (Err e) | Ok _ => groups_run dc end.

Definition dc_stop (dc : DiskController) : M PearlWorld unit := change_state dc DiskNotReady.

(** One turn of [monitor_task], once the disk was ready for the first time. *)
Definition monitor_tick (dc : DiskController) : M PearlWorld unit :=
  available ← is_work_dir_available (dp_path (dc_disk dc));
  if (available : bool) then mret tt else change_state dc DiskNotReady.

Definition DiskController_new (disk : DiskPath) (vdisks : list VDiskId) (config : NodeConfig) (settings : Settings)
    (is_alien : bool) : M PearlWorld DiskController :=
  id ← fresh_id;
  let new_dc := {| dc_id := id; dc_disk := disk; dc_vdisks := vdisks; dc_node_name := cfg_name config;
                   dc_settings := settings; dc_is_alien := is_alien |} in
  _ ← modify (put_dc_cell id DcCell_new);
  r ← dc_init new_dc;
  _ ← expect (match r with Ok _ => Some tt | Err _ => None end);
  mret new_dc.

(** ** Finding groups *)

(** [iter().find(|g| g.can_process_operation(op))]; the outer [None] aborts. *)
Fixpoint find_single_group (groups : list Group) (op : Operation) : option (option Group) :=
  match groups with
  | [] => Some None
  | g :: rest =>
      can ← can_process_operation g op;
      if (can : bool) then Some (Some g) else find_single_group rest op
  end.

Definition find_all_step (op : Operation) (found : list Group) (g : Group) : option (list Group) :=
  can ← can_process_operation g op;
  Some (if (can : bool) then found ++ [g] else found).

Definition find_all_groups (dc : DiskController) (op : Operation) : M PearlWorld (list Group) :=
  groups ← read_groups dc;
  expect (ofold (find_all_step op) [] groups).

Definition vdisk_group (dc : DiskController) (vdisk_id : VDiskId) : M PearlWorld (result Group Error) :=
  groups ← read_groups dc;
  mret (ok_or (List.find (λ g, g_vdisk_id g =? vdisk_id) groups) (vdisk_not_found vdisk_id)).

Definition get_or_create_pearl (dc : DiskController) (op : Operation) : M PearlWorld (result Group Error) :=
  groups ← read_groups dc;
  found ← expect (find_single_group groups op);
  match found with
  | Some g => mret (Ok g)
  | None =>
      node_name ← expect (op_remote_node_name op);
      r ← create_alien_group (dc_settings dc) node_name (op_vdisk_id op) (dc_node_name dc);
      match r with
      | Err e => mret (Err e)
      | Ok group => _ ← write_groups dc (groups ++ [group]); mret (Ok group)
      end
  end.

Definition dc_can_process_operation (dc : DiskController) (op : Operation) : bool :=
  (dc_is_alien dc && is_data_alien op) || existsb (λ id, id =? op_vdisk_id op) (dc_vdisks dc).

(** ** Requests *)

Definition when_ready {A} (dc : DiskController) (m : M PearlWorld (result A Error)) : M PearlWorld (result A Error) :=
  state ← read_state dc;
  if bool_decide (state = DiskReady) then m else mret (Err dc_is_not_available).

(** The first group that can process the operation. *)
Definition on_group {A} (dc : DiskController) (op : Operation) (f : Group → M PearlWorld (result A Error))
    : M PearlWorld (result A Error) :=
  groups ← read_groups dc;
  found ← expect (find_single_group groups op);
  match found with
  | Some group => f group
  | None => mret (Err (vdisk_not_found (op_vdisk_id op)))
  end.

Definition processed {A} (dc : DiskController) (r : result A Error) : M PearlWorld (result A Error) :=
  match r with
  | Err e => e ← process_error dc e; mret (Err e)
  | Ok a => mret (Ok a)
  end.

Definition dc_put_alien (dc : DiskController) (op : Operation) (key : BobKey) (data : BobData) : M PearlWorld (result unit Error) :=
  when_ready dc (
    vdisk_group ← get_or_create_pearl dc op;
    match vdisk_group with
    | Ok group => r ← group_put group key data {| stc_round := false |}; processed dc r
    | Err _ => mret (Err (vdisk_not_found (op_vdisk_id op)))
    end).

Definition dc_put (dc : DiskController) (op : Operation) (key : BobKey) (data : BobData) : M PearlWorld (result unit Error) :=
  when_ready dc (on_group dc op (λ group,
    r ← group_put group key data StartTimestampConfig_default; processed dc r)).

Definition dc_get (dc : DiskController) (op : Operation) (key : BobKey) : M PearlWorld (result BobData Error) :=
  when_ready dc (on_group dc op (λ group, group_get group key)).

(** Data with the timestamp 0 is never newer than no data. *)
Definition get_alien_step (key : BobKey) (best : option BobData) (g : Group) : M PearlWorld (option BobData) :=
  r ← group_get g key;
  mret (match r with
        | Ok data => if from_option (λ d, timestamp (meta d)) 0 best <? timestamp (meta data) then Some data else best
        | Err _ => best
        end).

Definition dc_get_alien (dc : DiskController) (op : Operation) (key : BobKey) : M PearlWorld (result BobData Error) :=
  when_ready dc (
    groups ← find_all_groups dc op;
    best ← for_each (get_alien_step key) None groups;
    mret (ok_or best (key_not_found key))).

Definition dc_exist (dc : DiskController) (op : Operation) (keys : list BobKey) : M PearlWorld (result (list bool) Error) :=
  when_ready dc (on_group dc op (λ group, group_exist group keys)).

(** [for i in 0..r.len() { result[i] |= r[i] }]; [None] is an index out of range. *)
Fixpoint or_lists (res r : list bool) : option (list bool) :=
  match res, r with
  | _, [] => Some res
  | a :: res', b :: r' => l ← or_lists res' r'; Some (a || b :: l)
  | [], _ :: _ => None
  end.

Definition exist_alien_step (keys : list BobKey) (res : option (list bool)) (g : Group) : M PearlWorld (option (list bool)) :=
  r ← group_exist g keys;
  match r with
  | Ok r =>
      match res with
      | Some res => l ← expect (or_lists res r); mret (Some l)
      | None => mret (Some r)
      end
  | Err _ => mret res
  end.

Definition dc_exist_alien (dc : DiskController) (op : Operation) (keys : list BobKey) : M PearlWorld (result (list bool) Error) :=
  when_ready dc (
    groups ← find_all_groups dc op;
    res ← for_each (exist_alien_step keys) None groups;
    mret (Ok (default (replicate (length keys) false) res))).

Definition dc_delete (dc : DiskController) (op : Operation) (key : BobKey) (m : BobMeta) : M PearlWorld (result Z Error) :=
  when_ready dc (on_group dc op (λ group, group_delete group key m StartTimestampConfig_default true)).

Definition delete_alien_step (dc : DiskController) (key : BobKey) (m : BobMeta) (force_delete : bool)
    (s : Z * option Error) (g : Group) : M PearlWorld (Z * option Error) :=
  r ← group_delete g key m {| stc_round := false |} force_delete;
  match r with
  | Ok n => mret (wrap64 (s.1 + n), s.2)
  | Err e => e ← process_error dc e; mret (s.1, Some e)
  end.

Definition dc_delete_alien (dc : DiskController) (op : Operation) (key : BobKey) (m : BobMeta) (force_delete : bool)
    : M PearlWorld (result Z Error) :=
  when_ready dc (
    groups ← find_all_groups dc op;
    if force_delete && bool_decide (length groups = 0%nat) then
      r ← get_or_create_pearl dc op;
      match r with
      | Ok group => r ← group_delete group key m {| stc_round := false |} force_delete; processed dc r
      | Err _ => mret (Err (vdisk_not_found (op_vdisk_id op)))
      end
    else
      s ← for_each (delete_alien_step dc key m force_delete) (0, None) groups;
      mret (match s.2 with Some e => Err e | None => Ok s.1 end)).

Definition detach_groups (res : result unit Error) (g : Group) : M PearlWorld (result unit Error) :=
  match res with Err e => mret (Err e) | Ok _ => group_detach_all g end.

Definition dc_detach_all (dc : DiskController) : M PearlWorld (result unit Error) :=
  groups ← read_groups dc; for_each detach_groups (Ok tt) groups.

(** ** Maintenance and counters *)

Definition sum_groups (f : Group → M PearlWorld Z) (dc : DiskController) : M PearlWorld Z :=
  groups ← read_groups dc;
  for_each (λ acc g, n ← f g; mret (wrap64 (acc + n))) 0 groups.

Definition sum_when_ready (f : Group → M PearlWorld Z) (dc : DiskController) : M PearlWorld Z :=
  state ← read_state dc;
  if bool_decide (state = DiskReady) then sum_groups f dc else mret 0.

Definition dc_blobs_count (dc : DiskController) : M PearlWorld Z :=
  cnt ← sum_when_ready group_blobs_count dc;
  _ ← store_blobs_count dc cnt;
  mret cnt.
Definition dc_corrupted_blobs_count := sum_when_ready group_corrupted_blobs_count.
Definition dc_index_memory := sum_when_ready group_index_memory.
Definition dc_filter_memory_allocated := sum_groups group_filter_memory_allocated.
Definition dc_disk_used := sum_groups group_disk_used.

Definition dc_close_unneeded_active_blobs (dc : DiskController) (soft hard : Z) : M PearlWorld unit :=
  groups ← read_groups dc;
  for_each (λ _ g, group_close_unneeded_active_blobs g soft hard) tt groups.

(** The older of two candidates; the first of equals. *)
Definition older_holder (oldest candidate : option Holder) : option Holder :=
  match candidate with
  | Some h => if end_timestamp h <? from_option end_timestamp u64_max oldest then Some h else oldest
  | None => oldest
  end.

Definition dc_find_oldest_inactive_holder (dc : DiskController) : M PearlWorld (option Holder) :=
  groups ← read_groups dc;
  for_each (λ oldest g, h ← find_oldest_inactive_holder g; mret (older_holder oldest h)) None groups.

Definition less_modified (s : option Holder * Z) (candidate : option Holder) : M PearlWorld (option Holder * Z) :=
  match candidate with
  | Some h =>
      modification ← last_modification h;
      mret (if modification <? s.2 then (Some h, modification) else s)
  | None => mret s
  end.

Definition dc_find_least_modified_freeable_holder (dc : DiskController) : M PearlWorld (option Holder) :=
  groups ← read_groups dc;
  s ← for_each (λ s g, h ← find_least_modified_freeable_holder g; less_modified s h) (None, u64_max) groups;
  mret s.1.
End disk.
