(* ===== verification/PearlBackend.v ===== *)
(** * PearlBackend: the Pearl storage of a node

    [bob-backend/src/pearl/core.rs] and the offloading of filters of [pearl/utils.rs]: the
    controllers of the disks of a node and of its aliens behind the trait [BackendStorage].
    Futures that are awaited together run one after the other, in the order of the disks. *)

From Corelib Require Import ssreflect.
From stdpp Require Import base option list strings gmap numbers.
From Stdlib Require Import Strings.Byte ZArith Lia.
From S2P Require Import Prelude Data Text Errors Options Node ClusterConfig NodeConfig Mapper Backend PearlUtils PearlWorld PearlHolder PearlGroup PearlSettings PearlDisk.

Section pearl.
Context {key_size : KeySize} `{ConfigParsers, Chrono, Sha256, PearlCrate}.

(** ** Building *)

Definition read_disk (config : NodeConfig) (settings : Settings) (dcs : list DiskController) (disk : DiskPath)
    : M PearlWorld (list DiskController) :=
  let vdisks := get_vdisks_by_disk (se_mapper settings) (dp_name disk) in
  dc ← DiskController_new disk vdisks config settings false;
  mret (dcs ++ [dc]).

Definition read_group_from_disk (config : NodeConfig) (settings : Settings) : M PearlWorld (list DiskController) :=
  for_each (read_disk config settings) [] (vm_disks (se_mapper settings)).

Definition read_alien_directory (config : NodeConfig) (settings : Settings) : M PearlWorld DiskController :=
  pearl ← expect (cfg_get_pearl config);
  let disk_name := default DEFAULT_ALIEN_DISK_NAME (pl_alien_disk pearl) in
  DiskController_new {| dp_name := disk_name; dp_path := se_alien_folder settings |} [] config settings true.

(** The log of disk events opens, or the start fails: [logger]. *)
Definition Pearl_new (logger : result unit string) (mapper : Virtual) (config : NodeConfig) : M PearlWorld (result Pearl Error) :=
  settings ← expect (Settings_new config mapper);
  match logger with
  | Err e => mret (Err (disk_events_logger "disk events logger initialization failed" e))
  | Ok _ =>
      disk_controllers ← read_group_from_disk config settings;
      alien_disk_controller ← read_alien_directory config settings;
      mret (Ok {| p_disk_controllers := disk_controllers; p_alien_disk_controller := alien_disk_controller;
                  p_bloom_filter_memory_limit := cfg_bloom_filter_memory_limit config |})
  end.

Definition all_disk_controllers (p : Pearl) : list DiskController :=
  p_disk_controllers p ++ [p_alien_disk_controller p].

(** ** Running *)

Definition new_hooks (p : Pearl) : M PearlWorld unit := modify (set_hooks (Hooks_new (p_bloom_filter_memory_limit p))).

Definition run_step (res : result unit Error) (dc : DiskController) : M PearlWorld (result unit Error) :=
  r ← dc_run dc;
  mret (res ;? r).

Definition run_backend (p : Pearl) : M PearlWorld (result unit Error) :=
  _ ← new_hooks p;
  for_each run_step (Ok tt) (all_disk_controllers p).

Definition pearl_shutdown (p : Pearl) : M PearlWorld unit :=
  for_each (λ _ dc, dc_shutdown dc) tt (all_disk_controllers p).

(** ** The trait *)

Definition find_dc (p : Pearl) (op : Operation) : option DiskController :=
  List.find (λ dc, dc_can_process_operation dc op) (p_disk_controllers p).

Definition on_dc {A} (p : Pearl) (op : Operation) (f : DiskController → M PearlWorld (result A Error))
    : M PearlWorld (result A Error) :=
  match find_dc p op with
  | Some dc => f dc
  | None => mret (Err dc_is_not_available)
  end.

Definition on_alien_dc {A} (p : Pearl) (op : Operation) (f : DiskController → M PearlWorld (result A Error))
    : M PearlWorld (result A Error) :=
  if dc_can_process_operation (p_alien_disk_controller p) op then f (p_alien_disk_controller p)
  else mret (Err dc_is_not_available).

Definition pearl_put (p : Pearl) (op : Operation) (key : BobKey) (data : BobData) : M PearlWorld (result unit Error) :=
  on_dc p op (λ dc, dc_put dc op key data).
Definition pearl_put_alien (p : Pearl) (op : Operation) (key : BobKey) (data : BobData) : M PearlWorld (result unit Error) :=
  dc_put_alien (p_alien_disk_controller p) op key data.
Definition pearl_get (p : Pearl) (op : Operation) (key : BobKey) : M PearlWorld (result BobData Error) :=
  on_dc p op (λ dc, dc_get dc op key).
Definition pearl_get_alien (p : Pearl) (op : Operation) (key : BobKey) : M PearlWorld (result BobData Error) :=
  on_alien_dc p op (λ dc, dc_get_alien dc op key).
Definition pearl_exist (p : Pearl) (op : Operation) (keys : list BobKey) : M PearlWorld (result (list bool) Error) :=
  on_dc p op (λ dc, dc_exist dc op keys).
Definition pearl_exist_alien (p : Pearl) (op : Operation) (keys : list BobKey) : M PearlWorld (result (list bool) Error) :=
  on_alien_dc p op (λ dc, dc_exist_alien dc op keys).
Definition pearl_delete (p : Pearl) (op : Operation) (key : BobKey) (m : BobMeta) : M PearlWorld (result Z Error) :=
  on_dc p op (λ dc, dc_delete dc op key m).
Definition pearl_delete_alien (p : Pearl) (op : Operation) (key : BobKey) (m : BobMeta) (force_delete : bool)
    : M PearlWorld (result Z Error) :=
  on_alien_dc p op (λ dc, dc_delete_alien dc op key m force_delete).

Definition Pearl_storage (p : Pearl) : BackendStorage PearlWorld := {|
  st_put := pearl_put p; st_put_alien := pearl_put_alien p;
  st_get := pearl_get p; st_get_alien := pearl_get_alien p;
  st_exist := pearl_exist p; st_exist_alien := pearl_exist_alien p;
  st_delete := pearl_delete p; st_delete_alien := pearl_delete_alien p;
|}.

(** ** Active blobs and resources *)

Definition pearl_close_unneeded_active_blobs (p : Pearl) (soft hard : Z) : M PearlWorld unit :=
  for_each (λ _ dc, dc_close_unneeded_active_blobs dc soft hard) tt (all_disk_controllers p).

Definition close_oldest_active_blob (p : Pearl) : M PearlWorld (option Z) :=
  oldest ← for_each (λ oldest dc, h ← dc_find_oldest_inactive_holder dc; mret (older_holder oldest h))
             None (all_disk_controllers p);
  match oldest with
  | Some h =>
      memory ← active_index_memory h;
      _ ← close_active_blob h;
      mret (Some memory)
  | None => mret None
  end.

Definition free_least_used_resources (p : Pearl) : M PearlWorld (option Z) :=
  s ← for_each (λ s dc, h ← dc_find_least_modified_freeable_holder dc; less_modified s h)
        (None, u64_max) (all_disk_controllers p);
  match s.1 with
  | Some h => freed ← free_excess_resources h; mret (Some freed)
  | None => mret None
  end.

(** [collect_simple_holders] *)
Definition collect_holder (acc : list SimpleHolder) (h : Holder) : M PearlWorld (list SimpleHolder) :=
  let simple := SimpleHolder_from h in
  ready ← simple_is_ready simple;
  mret (if (ready : bool) then acc ++ [simple] else acc).

Definition collect_group (acc : list SimpleHolder) (g : Group) : M PearlWorld (list SimpleHolder) :=
  holders ← read_holders g; for_each collect_holder acc (hf_iter holders).

Definition collect_disk (acc : list SimpleHolder) (dc : DiskController) : M PearlWorld (list SimpleHolder) :=
  groups ← read_groups dc; for_each collect_group acc groups.

Definition collect_simple_holders (p : Pearl) : M PearlWorld (list SimpleHolder) :=
  for_each collect_disk [] (all_disk_controllers p).

(** One level of [Utils::offload_old_filters]: it stops when the limit is kept. *)
Fixpoint offload_level (level : nat) (limit : Z) (holders : list SimpleHolder) (current_size : Z) : M PearlWorld Z :=
  match holders with
  | [] => mret current_size
  | h :: rest =>
      if current_size <? limit then mret current_size
      else
        freed ← offload_filter h (saturating_sub current_size limit) level;
        offload_level level limit rest (saturating_sub current_size freed)
  end.

Definition simple_le (a b : SimpleHolder) : bool := sh_timestamp a <=? sh_timestamp b.

(** [Utils::offload_old_filters]; the answer, the memory left, is only logged. *)
Definition utils_offload_old_filters (holders : list SimpleHolder) (limit : Z) : M PearlWorld Z :=
  current_size ← for_each (λ acc h, n ← simple_filter_memory_allocated h; mret (wrap64 (acc + n))) 0 holders;
  if current_size <? limit then mret current_size
  else
    let holders := sort_by simple_le holders in
    current_size ← offload_level 0 limit holders current_size;
    offload_level 1 limit holders current_size.

Definition pearl_offload_old_filters (p : Pearl) (limit : Z) : M PearlWorld unit :=
  holders ← collect_simple_holders p;
  _ ← utils_offload_old_filters holders limit;
  mret tt.

Definition pearl_filter_memory_allocated (p : Pearl) : M PearlWorld Z :=
  for_each (λ memory dc, n ← dc_filter_memory_allocated dc; mret (wrap64 (memory + n))) 0 (all_disk_controllers p).

(** The group that is remounted is a clone: the step of timestamps it computes is dropped. *)
Definition remount_vdisk (p : Pearl) (vdisk_id : VDiskId) : M PearlWorld (result unit Error) :=
  match List.find (λ dc, existsb (λ vd, vd =? vdisk_id) (dc_vdisks dc)) (p_disk_controllers p) with
  | None => mret (Err (vdisk_not_found vdisk_id))
  | Some needed_dc =>
      group ← vdisk_group needed_dc vdisk_id;
      match group with
      | Err e => mret (Err e)
      | Ok group =>
          _ ← new_hooks p;
          r ← group_remount group;
          mret r.1
      end
  end.

(** ** [MetricsProducer] *)

Definition sum_disks (f : DiskController → M PearlWorld Z) (dcs : list DiskController) : M PearlWorld Z :=
  for_each (λ cnt dc, n ← f dc; mret (wrap64 (cnt + n))) 0 dcs.

Definition pearl_blobs_count (p : Pearl) : M PearlWorld (Z * Z) :=
  cnt ← sum_disks dc_blobs_count (p_disk_controllers p);
  alien_cnt ← dc_blobs_count (p_alien_disk_controller p);
  mret (cnt, alien_cnt).
Definition pearl_index_memory (p : Pearl) : M PearlWorld Z := sum_disks dc_index_memory (all_disk_controllers p).
Definition pearl_corrupted_blobs_count (p : Pearl) : M PearlWorld Z := sum_disks dc_corrupted_blobs_count (p_disk_controllers p).
Definition active_disks_count (p : Pearl) : M PearlWorld Z :=
  sum_disks (λ dc, ready ← dc_is_ready dc; mret (if (ready : bool) then 1 else 0)) (p_disk_controllers p).

(** [entry(n).and_modify(..).or_insert(u)] *)
Fixpoint add_disk_used (n : DiskPath) (u : Z) (m : list (DiskPath * Z)) : list (DiskPath * Z) :=
  match m with
  | [] => [(n, u)]
  | (n', s) :: rest => if bool_decide (n' = n) then (n', wrap64 (s + u)) :: rest else (n', s) :: add_disk_used n u rest
  end.

Definition disk_used_by_disk (p : Pearl) : M PearlWorld (list (DiskPath * Z)) :=
  for_each (λ m dc, u ← dc_disk_used dc; mret (add_disk_used (dc_disk dc) u m)) [] (all_disk_controllers p).
End pearl.
