(* ===== verification/PearlStates.v ===== *)
(** * PearlStates: interleavings on one holder and on one disk

    The tasks that open and close one holder [bob-backend/src/pearl/holder.rs] as a step
    relation over its [PearlSync] and its permit, and the tasks that change the state of
    one disk [pearl/disk_controller.rs] as a step relation the controller's operations
    refine. *)

From Corelib Require Import ssreflect.
From stdpp Require Import base option list relations strings gmap numbers.
From Stdlib Require Import Strings.Byte ZArith Lia.
From S2P Require Import Prelude Data Text Errors Options Node ClusterConfig NodeConfig Mapper Backend PearlUtils PearlWorld PearlHolder PearlGroup PearlSettings PearlDisk.

(** ** One holder *)

Section holder_tasks.
Context `{PearlCrate}.

(** Where a task that opens the holder is: a reopening that has not got the permit, one
    that has it, a task that creates the storage, and one that only has the permit to give
    back. *)
Inductive Opening : Type := OpWanting | OpHolding | OpCreating | OpReleasing.

Record HolderSystem : Type := {
  hs_sync : PearlSync;
  hs_free : bool;
  hs_tasks : list Opening;
}.

(** Right after [Holder::new] nobody else has the holder: [prepare_storage] has the permit
    and creates the storage. *)
Definition holder_start : HolderSystem :=
  {| hs_sync := PearlSync_default; hs_free := false; hs_tasks := [OpCreating] |}.

Inductive holder_step : HolderSystem → HolderSystem → Prop :=
(** A request meets an error and calls [try_reinit]. *)
| HsSpawn sync free tasks :
    holder_step {| hs_sync := sync; hs_free := free; hs_tasks := tasks |}
                {| hs_sync := sync; hs_free := free; hs_tasks := OpWanting :: tasks |}
(** [try_acquire] fails, *)
| HsRefused sync pre post :
    holder_step {| hs_sync := sync; hs_free := false; hs_tasks := pre ++ OpWanting :: post |}
                {| hs_sync := sync; hs_free := false; hs_tasks := pre ++ post |}
(** or takes the permit; *)
| HsAcquire sync pre post :
    holder_step {| hs_sync := sync; hs_free := true; hs_tasks := pre ++ OpWanting :: post |}
                {| hs_sync := sync; hs_free := false; hs_tasks := pre ++ OpHolding :: post |}
(** the old storage is taken out. *)
| HsReset sync sync' old free pre post :
    PearlSync_reset sync = Some (old, sync') →
    holder_step {| hs_sync := sync; hs_free := free; hs_tasks := pre ++ OpHolding :: post |}
                {| hs_sync := sync'; hs_free := free; hs_tasks := pre ++ OpCreating :: post |}
(** The creation fails, *)
| HsCreateFails sync free pre post :
    holder_step {| hs_sync := sync; hs_free := free; hs_tasks := pre ++ OpCreating :: post |}
                {| hs_sync := sync; hs_free := free; hs_tasks := pre ++ OpReleasing :: post |}
(** or the new storage is set. *)
| HsReady sync sync' storage free pre post :
    PearlSync_set_ready storage sync = Some (Ok tt, sync') →
    holder_step {| hs_sync := sync; hs_free := free; hs_tasks := pre ++ OpCreating :: post |}
                {| hs_sync := sync'; hs_free := free; hs_tasks := pre ++ OpReleasing :: post |}
| HsRelease sync free pre post :
    holder_step {| hs_sync := sync; hs_free := free; hs_tasks := pre ++ OpReleasing :: post |}
                {| hs_sync := sync; hs_free := true; hs_tasks := pre ++ post |}
(** [close_storage], at any moment. *)
| HsClose sync sync' old free tasks :
    PearlSync_reset sync = Some (old, sync') →
    holder_step {| hs_sync := sync; hs_free := free; hs_tasks := tasks |}
                {| hs_sync := sync'; hs_free := free; hs_tasks := tasks |}.

Definition has_permit (t : Opening) : bool := match t with OpWanting => false | _ => true end.

(** One task at most has the permit, nobody when it is free, and while a storage is being
    created there is none in place. *)
Record holder_inv (s : HolderSystem) : Prop := {
  hi_permit : (length (filter (λ t, has_permit t = true) (hs_tasks s)) + (if hs_free s then 1 else 0) = 1)%nat;
  hi_creating : OpCreating ∈ hs_tasks s → PearlSync_is_ready (hs_sync s) = false;
}.

Lemma filter_permit_app pre t post :
  length (filter (λ t, has_permit t = true) (pre ++ t :: post)) =
  ((if has_permit t then 1 else 0) + length (filter (λ t, has_permit t = true) (pre ++ post)))%nat.
Proof. rw !list.filter_app !length_app filter_cons. destruct (has_permit t); simpl; lia. Qed.

(** With one holder of the permit known, nobody else is creating. *)
Lemma permit_exclusive pre t post :
  has_permit t = true → length (filter (λ t, has_permit t = true) (pre ++ t :: post)) = 1%nat →
  OpCreating ∉ pre ++ post.
Proof.
  intros Ht Hlen Hin. rw filter_permit_app Ht in Hlen.
  assert (OpCreating ∈ filter (λ t, has_permit t = true) (pre ++ post)) as Hf by (by apply list_elem_of_filter).
  destruct (filter _ (pre ++ post)); [by apply not_elem_of_nil in Hf|]. simpl in Hlen. lia.
Qed.

Lemma reset_not_ready sync old sync' : PearlSync_reset sync = Some (old, sync') → PearlSync_is_ready sync' = false.
Proof. by intros [= _ <-]. Qed.

Lemma holder_step_inv s s' : holder_inv s → holder_step s s' → holder_inv s'.
Proof.
  intros [Hperm Hcr] Hstep.
  assert (∀ pre t post free, has_permit t = true →
    (length (filter (λ t, has_permit t = true) (pre ++ t :: post)) + (if free : bool then 1 else 0) = 1)%nat →
    OpCreating ∉ pre ++ post) as Hexcl.
  { intros pre t post free Ht Hlen. apply (permit_exclusive pre t post Ht). rw filter_permit_app Ht in Hlen |- *.
    destruct free; lia. }
  destruct Hstep; simpl in Hperm, Hcr; split; simpl;
    try (rw ?filter_permit_app /= in Hperm |- *; lia).
  - exact Hperm.
  - intros Hin. apply Hcr. by apply elem_of_cons in Hin as [?|?].
  - intros Hin. apply Hcr. set_solver.
  - intros Hin. apply Hcr. set_solver.
  - intros _. by apply (reset_not_ready sync old).
  - intros Hin. exfalso. apply (Hexcl pre OpCreating post free eq_refl Hperm). set_solver.
  - intros Hin. exfalso. apply (Hexcl pre OpCreating post free eq_refl Hperm). set_solver.
  - intros Hin. exfalso. by apply (Hexcl pre OpReleasing post free eq_refl Hperm).
  - intros Hin. by apply (reset_not_ready sync old).
Qed.

Lemma holder_reachable s : rtc holder_step holder_start s → holder_inv s.
Proof.
  intros Hr. assert (holder_inv holder_start) as H0' by (by split).
  revert H0'. induction Hr as [|s1 s2 s3 Hstep _ IH]; [done|]. intros Hi. by apply IH, (holder_step_inv s1).
Qed.

(** C12: Under any interleaving of requests that reopen a holder, and of closings, the storage
    a task has created finds none in its place: the [expect] on [set_ready] never aborts. *)
Theorem holder_set_ready_safe s storage :
  rtc holder_step holder_start s → OpCreating ∈ hs_tasks s →
  ∃ sync', PearlSync_set_ready storage (hs_sync s) = Some (Ok tt, sync').
Proof.
  intros Hr Hin. pose proof (hi_creating s (holder_reachable s Hr) Hin) as Hready.
  rw /PearlSync_set_ready (bind_run _ _ (hs_sync s) (hs_sync s) (hs_sync s)); [done|]. rw Hready. by eexists.
Qed.
End holder_tasks.

(** ** One disk *)

(** The states of a disk and its groups under [change_state]. *)
Record DiskView : Type := { dv_state : GroupsState; dv_groups : list Group }.

Definition change_view (new_state : GroupsState) (v : DiskView) : DiskView :=
  if bool_decide (dv_state v = new_state) then v
  else {| dv_state := new_state;
          dv_groups := match new_state with DiskNotReady => [] | _ => dv_groups v end |}.

(** Where [run] is: it has the permit of the monitor, has read the groups from the disk, is
    past [init], is running the groups, has run them. *)
Inductive RunPhase : Type := RunBegin | RunInited | RunCheck | RunGroups | RunDone.

(** [ds_requests]: the requests in flight, which saw the disk ready.  [ds_loaded]: the groups
    were read from the disk and not dropped since. *)
Record DiskSystem : Type := {
  ds_view : DiskView;
  ds_loaded : bool;
  ds_requests : nat;
  ds_run : option RunPhase;
}.

Definition disk_start : DiskSystem :=
  {| ds_view := {| dv_state := DiskNotReady; dv_groups := [] |}; ds_loaded := false; ds_requests := 0; ds_run := None |}.

Definition with_run (run : option RunPhase) (s : DiskSystem) : DiskSystem :=
  {| ds_view := ds_view s; ds_loaded := ds_loaded s; ds_requests := ds_requests s; ds_run := run |}.

Definition with_groups (groups : list Group) (loaded : bool) (s : DiskSystem) : DiskSystem :=
  {| ds_view := {| dv_state := dv_state (ds_view s); dv_groups := groups |}; ds_loaded := loaded;
     ds_requests := ds_requests s; ds_run := ds_run s |}.

Definition with_requests (n : nat) (s : DiskSystem) : DiskSystem :=
  {| ds_view := ds_view s; ds_loaded := ds_loaded s; ds_requests := n; ds_run := ds_run s |}.

Definition ds_change (new_state : GroupsState) (s : DiskSystem) : DiskSystem :=
  {| ds_view := change_view new_state (ds_view s);
     ds_loaded := match new_state with
                  | DiskNotReady => if bool_decide (dv_state (ds_view s) = DiskNotReady) then ds_loaded s else false
                  | _ => ds_loaded s
                  end;
     ds_requests := ds_requests s; ds_run := ds_run s |}.

Definition ds_state (s : DiskSystem) : GroupsState := dv_state (ds_view s).

(** [late]: a request that saw the disk ready may report it lost while the disk is being
    run again. *)
Inductive disk_step (late : bool) : DiskSystem → DiskSystem → Prop :=
| DsRun s : ds_run s = None → disk_step late s (with_run (Some RunBegin) s)
| DsInit s groups : ds_run s = Some RunBegin → ds_state s = DiskNotReady →
    disk_step late s (with_run (Some RunInited) (with_groups groups true s))
| DsInitFails s : ds_run s = Some RunBegin → disk_step late s (with_run None s)
| DsInitSkip s : ds_run s = Some RunBegin → ds_state s ≠ DiskNotReady → disk_step late s (with_run (Some RunCheck) s)
| DsInitState s : ds_run s = Some RunInited →
    disk_step late s (with_run (Some RunCheck) (ds_change DiskInitialized s))
(** Nothing is run when the controller is created. *)
| DsCreated s : ds_run s = Some RunCheck → disk_step late s (with_run None s)
| DsCheck s : ds_run s = Some RunCheck →
    disk_step late s (with_run (match ds_state s with DiskInitialized => Some RunGroups | _ => None end) s)
| DsGroups s groups : ds_run s = Some RunGroups → length groups = length (dv_groups (ds_view s)) →
    disk_step late s (with_run (Some RunDone) (with_groups groups (ds_loaded s) s))
| DsGroupsFail s groups (lost : bool) : ds_run s = Some RunGroups → length groups = length (dv_groups (ds_view s)) →
    let s1 := with_groups groups (ds_loaded s) s in
    disk_step late s (with_run None (if lost then ds_change DiskNotReady s1 else s1))
| DsReady s : ds_run s = Some RunDone → disk_step late s (with_run None (ds_change DiskReady s))
| DsStop s : ds_run s = None → disk_step late s (ds_change DiskNotReady s)
| DsRequest s : ds_state s = DiskReady → disk_step late s (with_requests (S (ds_requests s)) s)
| DsNewGroup s g : ds_requests s ≠ 0%nat →
    disk_step late s (with_groups (dv_groups (ds_view s) ++ [g]) (ds_loaded s) s)
| DsAnswer s n : ds_requests s = S n → disk_step late s (with_requests n s)
| DsLost s n : ds_requests s = S n → late = true ∨ ds_run s = None ∨ ds_state s = DiskReady →
    disk_step late s (with_requests n (ds_change DiskNotReady s)).

Record disk_inv (s : DiskSystem) : Prop := {
  di_loaded : ds_state s ≠ DiskNotReady → ds_loaded s = true;
  di_inited : ds_run s = Some RunInited → ds_loaded s = true ∧ ds_state s = DiskNotReady;
  di_groups : ds_run s = Some RunGroups ∨ ds_run s = Some RunDone → ds_state s = DiskInitialized;
}.

Lemma ds_state_change new s : ds_state (ds_change new s) = new.
Proof. rw /ds_state /ds_change /change_view /=. by case_bool_decide. Qed.

Lemma disk_step_inv s s' : disk_inv s → disk_step false s s' → disk_inv s'.
Proof.
  intros [Hl Hi Hg] Hstep.
  assert (ds_run s = Some RunInited ∨ ds_run s = Some RunDone → ds_loaded s = true) as Hload.
  { intros [Hr|Hr]; [by apply Hi|]. apply Hl. rw Hg; [by right|done]. }
  destruct Hstep; split; unfold with_run, with_groups, with_requests, ds_change, ds_state, change_view in *;
    repeat case_bool_decide; try case_match; simpl in *; try naive_solver congruence.
Qed.

Lemma disk_reachable s : rtc (disk_step false) disk_start s → disk_inv s.
Proof.
  intros Hr. assert (disk_inv disk_start) as H0' by (by split; [|intros ?|intros [?|?]]).
  revert H0'. induction Hr as [|s1 s2 s3 Hstep _ IH]; [done|]. intros Hi. by apply IH, (disk_step_inv s1).
Qed.

(** C11: A disk that is ready has the groups read from it, under any interleaving of runs,
    stops, checks of the disk and requests, as long as no request of before the disk was
    lost fails while the disk is being run again. *)
Theorem disk_ready_loaded s :
  rtc (disk_step false) disk_start s → ds_state s = DiskReady → ds_loaded s = true.
Proof. intros Hr Hs. apply (di_loaded s (disk_reachable s Hr)). by rw Hs. Qed.

(** Without that proviso the end of the run makes a transformation from [NotReady] to [Ready],
    which the code calls invalid and makes: the disk is ready and has no groups. *)
Lemma disk_ready_without_groups (g : Group) :
  ∃ s, rtc (disk_step true) disk_start s ∧ ds_state s = DiskReady ∧ dv_groups (ds_view s) = [] ∧
       ds_loaded s = false ∧ ds_requests s = 0%nat ∧ ds_run s = None.
Proof.
  eexists. split.
  { eapply rtc_l; [by apply DsRun|]. eapply rtc_l; [by apply (DsInit _ _ [g])|].
    eapply rtc_l; [by apply DsInitState|]. eapply rtc_l; [by apply DsCheck|].
    eapply rtc_l; [by apply (DsGroups _ _ [g])|]. eapply rtc_l; [by apply DsReady|].
    (* two requests are in flight, the first loses the disk *)
    eapply rtc_l; [by apply DsRequest|]. eapply rtc_l; [by apply DsRequest|].
    eapply rtc_l; [by eapply (DsLost _ _ 1); [|left]|].
    (* the disk is run again, and the second fails while the groups are run *)
    eapply rtc_l; [by apply DsRun|]. eapply rtc_l; [by apply (DsInit _ _ [g])|].
    eapply rtc_l; [by apply DsInitState|]. eapply rtc_l; [by apply DsCheck|].
    eapply rtc_l; [by apply (DsGroups _ _ [g])|]. eapply rtc_l; [by eapply (DsLost _ _ 0); [|left]|].
    eapply rtc_l; [by apply DsReady|]. apply rtc_refl. }
  done.
Qed.
