(* ===== verification/PearlRefine.v ===== *)
(** * PearlRefine: a disk controller refines its state machine

    The operations of a [DiskController] [bob-backend/src/pearl/disk_controller.rs], run one
    after the other, are executions of the step relation of [PearlStates]: what happens
    below, in the groups and the holders, never changes the state of the disk. *)

From Corelib Require Import ssreflect.
From stdpp Require Import base option list relations strings gmap numbers.
From Stdlib Require Import Strings.Byte ZArith Lia.
From S2P Require Import Prelude Data Text Errors Options Node ClusterConfig NodeConfig Mapper Backend PearlUtils PearlWorld PearlHolder PearlGroup PearlSettings PearlDisk PearlStates.

(** ** What does not touch the cells of the controllers *)

Class KeepsDcs `{PearlCrate} {A} (m : M PearlWorld A) : Prop :=
  keeps_dcs : ∀ w r w', m w = Some (r, w') → pw_dcs w' = pw_dcs w.
#[global] Hint Mode KeepsDcs - - ! : typeclass_instances.

Section keeps.
Context `{PearlCrate}.

#[global] Instance keeps_ret {A} (a : A) : KeepsDcs (mret a).
Proof. by intros w r w' [= _ <-]. Qed.

#[global] Instance keeps_bind {A B} (m : M PearlWorld A) (f : A → M PearlWorld B) :
  KeepsDcs m → (∀ a, KeepsDcs (f a)) → KeepsDcs (m ≫= f).
Proof.
  intros Hm Hf w r w' (a & w1 & H1 & H2)%bind_Some_inv. rw (keeps_dcs (m := f a) w1 r w' H2). by apply (keeps_dcs (m := m) w a).
Qed.

#[global] Instance keeps_gets {A} (f : PearlWorld → A) : KeepsDcs (gets f).
Proof. by intros w r w' [= _ <-]. Qed.

#[global] Instance keeps_peek {A} (f : Disk → A) : KeepsDcs (peek f).
Proof. apply _. Qed.

#[global] Instance keeps_expect {A} (o : option A) : KeepsDcs (expect o).
Proof. intros w r w'. rw /expect. destruct o; [by intros [= _ <-]|done]. Qed.

#[global] Instance keeps_ext {A} (f : Disk → A * Disk) : KeepsDcs (ext f).
Proof. intros w r w'. rw /ext. destruct (f (pw_disk w)). by intros [= _ <-]. Qed.

#[global] Instance keeps_on_sync {A} id (m : M PearlSync A) : KeepsDcs (on_sync id m).
Proof. intros w r w'. rw /on_sync. destruct (m _) as [[a s]|]; [by intros [= _ <-]|done]. Qed.

Lemma keeps_modify (f : PearlWorld → PearlWorld) : (∀ w, pw_dcs (f w) = pw_dcs w) → KeepsDcs (modify f).
Proof. intros Hf w r w' [= _ <-]. apply Hf. Qed.

#[global] Instance keeps_for_each {A B} (f : A → B → M PearlWorld A) a l :
  (∀ a b, KeepsDcs (f a b)) → KeepsDcs (for_each f a l).
Proof. intros Hf. revert a. induction l as [|b l IH]; intros a; simpl; apply _. Qed.

#[global] Instance keeps_try_loop {T E} (f : M PearlWorld (result T E)) n : KeepsDcs f → KeepsDcs (try_loop f n).
Proof.
  intros Hf. induction n as [|n IH]; simpl; [by intros w r w'|]. apply keeps_bind; [done|].
  intros [v|e]; [apply _|]. case_decide; apply _.
Qed.
End keeps.

(** Walks through an operation: its definition, its binds, its branches. *)
Ltac keeps_step :=
  match goal with
  | |- KeepsDcs (modify _) => apply keeps_modify; intros ?; reflexivity
  | |- KeepsDcs (_ ≫= _) => apply keeps_bind; [|intros ?]
  | |- KeepsDcs (for_each _ _ _) => apply keeps_for_each; intros ? ?
  | |- KeepsDcs (match ?x with _ => _ end) => destruct x
  | |- KeepsDcs _ => apply _
  end.
Ltac keeps := intros; repeat keeps_step.
Tactic Notation "keeps_def" reference(d) := intros; unfold d; keeps.

Section operations.
Context {key_size : KeySize} `{ConfigParsers, Chrono, Sha256, PearlCrate}.

#[local] Instance keeps_fresh : KeepsDcs fresh_id. Proof. keeps_def fresh_id. Qed.
#[local] Instance keeps_now : KeepsDcs get_current_timestamp. Proof. keeps_def get_current_timestamp. Qed.
#[local] Instance keeps_storage h : KeepsDcs (holder_storage h). Proof. keeps_def holder_storage. Qed.
#[local] Instance keeps_query {A} (f : PearlStorage → Disk → A) none h : KeepsDcs (holder_query f none h).
Proof. keeps_def holder_query. Qed.
#[local] Instance keeps_check_dir p : KeepsDcs (check_or_create_directory p). Proof. keeps_def check_or_create_directory. Qed.
#[local] Instance keeps_drop_lock p : KeepsDcs (drop_pearl_lock_file p). Proof. keeps_def drop_pearl_lock_file. Qed.
#[local] Instance keeps_update h : KeepsDcs (update_last_modification h). Proof. keeps_def update_last_modification. Qed.
#[local] Instance keeps_write_disk s k d : KeepsDcs (write_disk s k d). Proof. keeps_def write_disk. Qed.
#[local] Instance keeps_write h k d : KeepsDcs (holder_write h k d). Proof. keeps_def holder_write. Qed.
#[local] Instance keeps_read h k : KeepsDcs (holder_read h k). Proof. keeps_def holder_read. Qed.
#[local] Instance keeps_exist h k : KeepsDcs (holder_exist h k). Proof. keeps_def holder_exist. Qed.
#[local] Instance keeps_delete h k m f : KeepsDcs (holder_delete h k m f). Proof. keeps_def holder_delete. Qed.
#[local] Instance keeps_retries {T E} c (f : M PearlWorld (result T E)) : KeepsDcs f → KeepsDcs (with_retries c f).
Proof. intros Hf. rw /with_retries /try_multiple_times. keeps. Qed.
#[local] Instance keeps_build h : KeepsDcs (init_pearl_by_path h). Proof. keeps_def init_pearl_by_path. Qed.
#[local] Instance keeps_init_pearl h s : KeepsDcs (init_pearl h s). Proof. keeps_def init_pearl. Qed.
#[local] Instance keeps_init_holder h : KeepsDcs (init_holder h). Proof. keeps_def init_holder. Qed.
#[local] Instance keeps_create_storage h : KeepsDcs (create_and_prepare_storage h). Proof. keeps_def create_and_prepare_storage. Qed.
#[local] Instance keeps_init_free h b : KeepsDcs (set_init_free h b). Proof. keeps_def set_init_free. Qed.
#[local] Instance keeps_open h : KeepsDcs (open_storage h). Proof. keeps_def open_storage. Qed.
#[local] Instance keeps_reinit h : KeepsDcs (try_reinit h). Proof. keeps_def try_reinit. Qed.
#[local] Instance keeps_prepare h : KeepsDcs (prepare_storage h). Proof. keeps_def prepare_storage. Qed.
#[local] Instance keeps_close h : KeepsDcs (close_storage h). Proof. keeps_def close_storage. Qed.
#[local] Instance keeps_close_all l : KeepsDcs (close_holders l). Proof. keeps_def close_holders. Qed.

#[local] Instance keeps_read_holders g : KeepsDcs (read_holders g). Proof. keeps_def read_holders. Qed.
#[local] Instance keeps_write_holders g c : KeepsDcs (write_holders g c). Proof. keeps_def write_holders. Qed.
#[local] Instance keeps_reinit_free g b : KeepsDcs (set_reinit_free g b). Proof. keeps_def set_reinit_free. Qed.
#[local] Instance keeps_under_lock {A} g (m : M PearlWorld (result A Error)) : KeepsDcs m → KeepsDcs (under_reinit_lock g m).
Proof. intros Hm. rw /under_reinit_lock. keeps. Qed.
#[local] Instance keeps_create_holder g s h : KeepsDcs (create_pearl_holder g s h).
Proof. keeps_def create_pearl_holder. unfold Holder_new. keeps. Qed.
#[local] Instance keeps_create_by_ts g t c : KeepsDcs (create_pearl_by_timestamp g t c). Proof. keeps_def create_pearl_by_timestamp. Qed.
#[local] Instance keeps_create_init g t c : KeepsDcs (create_and_init_pearl g t c). Proof. keeps_def create_and_init_pearl. Qed.
#[local] Instance keeps_push g h : KeepsDcs (push_holder g h). Proof. keeps_def push_holder. Qed.
#[local] Instance keeps_write_pearl g t c : KeepsDcs (get_or_create_write_pearl g t c).
Proof. keeps_def get_or_create_write_pearl; unfold try_multiple_times; keeps. Qed.
#[local] Instance keeps_actual g t c : KeepsDcs (get_or_create_actual_holder g t c). Proof. keeps_def get_or_create_actual_holder. Qed.
#[local] Instance keeps_parents g i k : KeepsDcs (add_to_parents g i k). Proof. keeps_def add_to_parents. Qed.
#[local] Instance keeps_reinit_after e f h : KeepsDcs (reinit_after e f h). Proof. keeps_def reinit_after. Qed.
#[local] Instance keeps_put_common h k d : KeepsDcs (put_common h k d). Proof. keeps_def put_common. Qed.
#[local] Instance keeps_group_put g k d c : KeepsDcs (group_put g k d c). Proof. unfold group_put. apply keeps_under_lock. keeps. Qed.
#[local] Instance keeps_get_common h k : KeepsDcs (get_common h k). Proof. keeps_def get_common. Qed.
#[local] Instance keeps_get_step g k s h : KeepsDcs (get_step g k s h). Proof. keeps_def get_step. Qed.
#[local] Instance keeps_group_get g k : KeepsDcs (group_get g k). Proof. unfold group_get. apply keeps_under_lock. keeps. Qed.
#[local] Instance keeps_exist_step g k s h : KeepsDcs (exist_step g k s h). Proof. keeps_def exist_step. Qed.
#[local] Instance keeps_exist_key g c l k : KeepsDcs (exist_key g c l k). Proof. keeps_def exist_key. Qed.
#[local] Instance keeps_group_exist g ks : KeepsDcs (group_exist g ks). Proof. unfold group_exist. apply keeps_under_lock. keeps. Qed.
#[local] Instance keeps_delete_common h k m f : KeepsDcs (delete_common h k m f). Proof. keeps_def delete_common. Qed.
#[local] Instance keeps_delete_actual g i h k m : KeepsDcs (delete_in_actual_holder g i h k m). Proof. unfold delete_in_actual_holder. keeps. Qed.
#[local] Instance keeps_before_step k m n h : KeepsDcs (delete_before_step k m n h). Proof. keeps_def delete_before_step. Qed.
#[local] Instance keeps_delete_before l k m : KeepsDcs (delete_in_holders_before l k m). Proof. keeps_def delete_in_holders_before. Qed.
#[local] Instance keeps_group_delete g k m c f : KeepsDcs (group_delete g k m c f). Proof. unfold group_delete. apply keeps_under_lock. keeps. Qed.
#[local] Instance keeps_subdirs p : KeepsDcs (get_all_subdirectories p). Proof. keeps_def get_all_subdirectories. Qed.
#[local] Instance keeps_read_holder g l n : KeepsDcs (read_holder g l n). Proof. keeps_def read_holder. Qed.
#[local] Instance keeps_vdisk_dir g : KeepsDcs (read_vdisk_directory g). Proof. keeps_def read_vdisk_directory. Qed.
#[local] Instance keeps_simple_memory h : KeepsDcs (simple_filter_memory_allocated h).
Proof. keeps_def simple_filter_memory_allocated; unfold simple_storage; keeps. Qed.
#[local] Instance keeps_offload h n l : KeepsDcs (offload_filter h n l). Proof. keeps_def offload_filter; unfold simple_storage; keeps. Qed.
#[local] Instance keeps_over_limit l hs n : KeepsDcs (offload_over_limit l hs n).
Proof. revert n. induction hs as [|h hs IH]; intros n; simpl; keeps. Qed.
#[local] Instance keeps_prepared h : KeepsDcs (storage_prepared h). Proof. keeps_def storage_prepared. Qed.
#[local] Instance keeps_run_pearl r h : KeepsDcs (run_pearl r h). Proof. keeps_def run_pearl. Qed.
#[local] Instance keeps_run_pearls g : KeepsDcs (run_pearls g). Proof. keeps_def run_pearls. Qed.
#[local] Instance keeps_run_under g : KeepsDcs (run_under_reinit_lock g). Proof. unfold run_under_reinit_lock. keeps. Qed.
#[local] Instance keeps_step g : KeepsDcs (compute_safe_timestamp_step g). Proof. keeps_def compute_safe_timestamp_step. Qed.
#[local] Instance keeps_group_run g : KeepsDcs (group_run g). Proof. keeps_def group_run. Qed.
#[local] Instance keeps_detach_all g : KeepsDcs (group_detach_all g). Proof. keeps_def group_detach_all. Qed.
#[local] Instance keeps_group_new s v n d p o : KeepsDcs (Group_new s v n d p o). Proof. keeps_def Group_new. Qed.
#[local] Instance keeps_alien_group s n v m : KeepsDcs (create_alien_group s n v m). Proof. keeps_def create_alien_group. Qed.
#[local] Instance keeps_alien_step s d o n p l f : KeepsDcs (alien_group_step s d o n p l f). Proof. keeps_def alien_group_step. Qed.
#[local] Instance keeps_node_step s d o r f : KeepsDcs (alien_node_step s d o r f). Proof. keeps_def alien_node_step. Qed.
#[local] Instance keeps_aliens s d o : KeepsDcs (settings_collect_alien_groups s d o). Proof. keeps_def settings_collect_alien_groups. Qed.
#[local] Instance keeps_normal_group dc l v : KeepsDcs (normal_group dc l v). Proof. keeps_def normal_group. Qed.
#[local] Instance keeps_get_groups dc : KeepsDcs (get_groups dc).
Proof. keeps_def get_groups; unfold collect_alien_groups, collect_normal_groups; keeps. Qed.
#[local] Instance keeps_shutdown dc : KeepsDcs (dc_shutdown dc).
Proof. keeps_def dc_shutdown; unfold read_groups, shutdown_group; keeps. Qed.
#[local] Instance keeps_run_groups_go l l' : KeepsDcs (run_groups_go l l').
Proof. revert l. induction l' as [|g l' IH]; intros l; simpl; keeps. Qed.

(** ** One operation of a controller *)

(** What the step relation sees of a controller. *)
Definition view_of (dc : DiskController) (w : PearlWorld) : DiskView :=
  {| dv_state := dcc_state (dc_cell w (dc_id dc)); dv_groups := dcc_groups (dc_cell w (dc_id dc)) |}.

(** The step relation follows from one world to another: from any state in one phase that
    shows the first world, it reaches one in the other phase that shows the second, with as
    many requests in flight. *)
Definition run_follows (dc : DiskController) (from to : option RunPhase) (w w' : PearlWorld) : Prop := ∀ s,
  ds_run s = from → ds_view s = view_of dc w →
  ∃ s', rtc (disk_step false) s s' ∧ ds_run s' = to ∧ ds_requests s' = ds_requests s ∧ ds_view s' = view_of dc w'.

(** Outside of a run. *)
Definition follows (dc : DiskController) : PearlWorld → PearlWorld → Prop := run_follows dc None None.

Class DcRefines {A} (dc : DiskController) (m : M PearlWorld A) : Prop :=
  dc_refines : ∀ w r w', m w = Some (r, w') → follows dc w w'.

Lemma follows_same dc w w' : view_of dc w' = view_of dc w → follows dc w w'.
Proof. intros Hv s Hr Hs. exists s. rw Hv. by split; [apply rtc_refl|]. Qed.

Lemma run_follows_trans dc a b c w1 w2 w3 :
  run_follows dc a b w1 w2 → run_follows dc b c w2 w3 → run_follows dc a c w1 w3.
Proof.
  intros H12 H23 s Hr Hs. destruct (H12 s Hr Hs) as (s2 & Hs2 & Hr2 & Hq2 & Hv2).
  destruct (H23 s2 Hr2 Hv2) as (s3 & Hs3 & Hr3 & Hq3 & Hv3). exists s3. rw Hq3 Hq2. split_and!; [by etrans|done..].
Qed.

Lemma keeps_view {A} dc (m : M PearlWorld A) w r w' : KeepsDcs m → m w = Some (r, w') → view_of dc w' = view_of dc w.
Proof. intros Hk Hm. rw /view_of /dc_cell. by rw (keeps_dcs w r w' Hm). Qed.

Lemma keeps_refines {A} dc (m : M PearlWorld A) : KeepsDcs m → DcRefines dc m.
Proof. intros Hk w r w' Hm. by apply follows_same, (keeps_view dc m w r w'). Qed.

Lemma refines_bind {A B} dc (m : M PearlWorld A) (f : A → M PearlWorld B) :
  DcRefines dc m → (∀ a, DcRefines dc (f a)) → DcRefines dc (m ≫= f).
Proof.
  intros Hm Hf w r w' (a & w1 & Hm1 & Hf2)%bind_Some_inv. apply (run_follows_trans dc _ None _ w w1); [by apply (Hm w a)|by apply (Hf a w1 r)].
Qed.

Lemma refines_for_each {A B} dc (f : A → B → M PearlWorld A) a l :
  (∀ a b, DcRefines dc (f a b)) → DcRefines dc (for_each f a l).
Proof.
  intros Hf. revert a. induction l as [|b l IH]; intros a; simpl; [by apply keeps_refines, _|]. apply refines_bind; [done|]. apply IH.
Qed.

(** A run of [change_state] is [change_view]. *)
Lemma change_state_view dc new w r w' :
  change_state dc new w = Some (r, w') → view_of dc w' = change_view new (view_of dc w).
Proof.
  rw /change_state. intros (state & w0 & [= <- <-] & Hrun)%bind_Some_inv. rw /change_view /=. case_bool_decide as Heq.
  { by move: Hrun => [= _ <-]. }
  apply bind_Some_inv in Hrun as (u & w1 & Hdown & [= <- <-]). rw /view_of /dc_cell /= !lookup_insert_eq /=.
  destruct new; [|by move: Hdown => [= _ <-]|by move: Hdown => [= _ <-]].
  apply bind_Some_inv in Hdown as (u' & w2 & _ & [= <- <-]). by rw /dc_cell /= lookup_insert_eq.
Qed.

(** Outside of a run the controller may stop serving at any moment. *)
Lemma stop_refines dc : DcRefines dc (change_state dc DiskNotReady).
Proof.
  intros w r w' Hrun s Hr Hs. exists (ds_change DiskNotReady s). split_and!; [|done|done|].
  - apply rtc_once. by apply DsStop.
  - by rw /= Hs (change_state_view dc DiskNotReady w r w').
Qed.

(** *** Running the disk *)

(** One step of the relation. *)
Lemma run_follows_step dc from to w w' :
  (∀ s, ds_run s = from → ds_view s = view_of dc w →
     ∃ s', disk_step false s s' ∧ ds_run s' = to ∧ ds_requests s' = ds_requests s ∧ ds_view s' = view_of dc w') →
  run_follows dc from to w w'.
Proof.
  intros Hstep s Hr Hs. destruct (Hstep s Hr Hs) as (s' & H' & Hq). exists s'. by split; [apply rtc_once|].
Qed.

(** [init] loads the groups of a disk that is not ready, and leaves another one alone. *)
Lemma dc_init_follows dc w r w' : dc_init dc w = Some (r, w') →
  run_follows dc (Some RunBegin) (match r with Ok _ => Some RunCheck | Err _ => None end) w w'.
Proof.
  rw /dc_init. intros (state & w0 & [= <- <-] & Hrun)%bind_Some_inv.
  destruct (dcc_state (dc_cell w (dc_id dc))) eqn:Hstate.
  - apply bind_Some_inv in Hrun as (groups & w1 & Hg & Hrun). pose proof (keeps_view dc _ w groups w1 _ Hg) as Hv1.
    destruct groups as [groups|e]; last first.
    { move: Hrun => [= <- <-]. apply run_follows_step. intros s Hr Hs. exists (with_run None s). rw Hv1. by split; [apply DsInitFails|]. }
    apply bind_Some_inv in Hrun as (u & w2 & [= <- <-] & Hrun). apply bind_Some_inv in Hrun as (u' & w3 & Hch & [= <- <-]).
    intros s Hr Hs. exists (with_run (Some RunCheck) (ds_change DiskInitialized (with_run (Some RunInited) (with_groups groups true s)))).
    repeat split.
    + eapply rtc_l; [apply (DsInit _ _ groups Hr); by rw /ds_state Hs|]. apply rtc_once. by apply DsInitState.
    + rw (change_state_view dc DiskInitialized _ u' w3 Hch) /= Hs. f_equal.
      rw /view_of /dc_cell /= lookup_insert_eq /=. f_equal. by injection Hv1.
  - move: Hrun => [= <- <-]. apply run_follows_step. intros s Hr Hs. eexists. split; [apply DsInitSkip; [done|]|done].
    by rw /ds_state Hs /= Hstate.
  - move: Hrun => [= <- <-]. apply run_follows_step. intros s Hr Hs. eexists. split; [apply DsInitSkip; [done|]|done].
    by rw /ds_state Hs /= Hstate.
Qed.

Lemma run_groups_go_length done groups w r w' :
  run_groups_go done groups w = Some (r, w') → length r.2 = (length done + length groups)%nat.
Proof.
  revert done w. induction groups as [|g rest IH]; intros done w; simpl.
  - intros [= <- <-]. simpl. lia.
  - intros ([res g'] & w1 & _ & Hrun)%bind_Some_inv. simpl in Hrun. destruct res.
    + rw (IH _ _ Hrun) length_app /=. lia.
    + move: Hrun => [= <- _]. rw /= length_app /=. lia.
Qed.

(** The groups are run in place. *)
Lemma run_groups_view dc w r w' : run_groups dc w = Some (r, w') →
  ∃ groups, length groups = length (dv_groups (view_of dc w)) ∧
    view_of dc w' = {| dv_state := dv_state (view_of dc w); dv_groups := groups |}.
Proof.
  rw /run_groups. intros (groups & w0 & [= <- <-] & Hrun)%bind_Some_inv.
  apply bind_Some_inv in Hrun as ([res groups] & w1 & Hgo & Hrun). apply bind_Some_inv in Hrun as (u & w2 & [= <- <-] & [= <- <-]).
  exists groups. split; [by rw (run_groups_go_length _ _ _ _ _ Hgo)|].
  rw /view_of /dc_cell /= lookup_insert_eq /=. f_equal. rw -/(dc_cell w1 (dc_id dc)).
  by injection (keeps_view dc _ w _ w1 _ Hgo).
Qed.

Lemma groups_run_follows dc w r w' : groups_run dc w = Some (r, w') → run_follows dc (Some RunCheck) None w w'.
Proof.
  rw /groups_run. intros (state & w0 & [= <- <-] & Hrun)%bind_Some_inv.
  destruct (dcc_state (dc_cell w (dc_id dc))) eqn:Hstate; [|..].
  1,3: move: Hrun => [= _ <-]; apply run_follows_step; intros s Hr Hs; eexists;
    (split; [by apply DsCheck|]); by rw /ds_state Hs /= Hstate.
  apply (run_follows_trans dc _ (Some RunGroups) _ w w).
  { apply run_follows_step. intros s Hr Hs. eexists. split; [by apply DsCheck|]. by rw /ds_state Hs /= Hstate. }
  move: Hrun. rw /groups_run_initialized. intros (res & w1 & Hgroups & Hrun)%bind_Some_inv.
  destruct (run_groups_view dc w res w1 Hgroups) as (groups & Hlen & Hv1). destruct res as [v|e].
  - apply bind_Some_inv in Hrun as (u & w2 & Hch & [= <- <-]). apply (run_follows_trans dc _ (Some RunDone) _ w w1).
    + apply run_follows_step. intros s Hr Hs. eexists. split; [apply (DsGroups _ s groups Hr); by rw Hs|]. by rw Hv1 /= Hs.
    + apply run_follows_step. intros s Hr Hs. eexists. split; [by apply DsReady|].
      by rw (change_state_view dc DiskReady w1 u w2 Hch) /= Hs.
  - apply bind_Some_inv in Hrun as (available & w2 & [= <- <-] & Hrun). apply bind_Some_inv in Hrun as (u & w3 & Hch & [= <- <-]).
    apply run_follows_step. intros s Hr Hs. destruct (fs_exists _ _).
    + move: Hch => [= _ <-]. eexists. split; [apply (DsGroupsFail _ s groups false Hr); by rw Hs|]. by rw Hv1 /= Hs.
    + eexists. split; [apply (DsGroupsFail _ s groups true Hr); by rw Hs|].
      by rw (change_state_view dc DiskNotReady w1 u w3 Hch) Hv1 /= Hs.
Qed.

#[local] Instance dc_run_refines dc : DcRefines dc (dc_run dc).
Proof.
  intros w r w'. rw /dc_run. intros (res & w1 & Hi & Hrun)%bind_Some_inv.
  apply (run_follows_trans dc _ (Some RunBegin) _ w w).
  { apply run_follows_step. intros s Hr Hs. exists (with_run (Some RunBegin) s). by split; [apply DsRun|]. }
  apply (run_follows_trans dc _ (match res with Ok _ => Some RunCheck | Err _ => None end) _ w w1); [by apply (dc_init_follows dc w res)|].
  destruct res as [v|e].
  - by apply (groups_run_follows dc w1 r).
  - move: Hrun => [= _ <-]. intros s Hr Hs. exists s. by split; [apply rtc_refl|].
Qed.

(** *** Requests *)

#[local] Instance process_error_refines dc e : DcRefines dc (process_error dc e).
Proof.
  apply refines_bind; [|intros _; by apply keeps_refines, _]. destruct (is_possible_disk_disconnection e);
    [apply stop_refines|by apply keeps_refines, _].
Qed.

#[local] Instance processed_refines {A} dc (r : result A Error) : DcRefines dc (processed dc r).
Proof. destruct r; [by apply keeps_refines, _|]. apply refines_bind; [apply _|intros ?; by apply keeps_refines, _]. Qed.

#[local] Instance keeps_read_dc_groups dc : KeepsDcs (PearlDisk.read_groups dc). Proof. keeps_def read_groups. Qed.

(** A request is served by a ready disk only. *)
Lemma when_ready_refines {A} dc (m : M PearlWorld (result A Error)) :
  (∀ w r w', dcc_state (dc_cell w (dc_id dc)) = DiskReady → m w = Some (r, w') → follows dc w w') →
  DcRefines dc (when_ready dc m).
Proof.
  intros Hm w r w'. rw /when_ready. intros (state & w0 & [= <- <-] & Hrun)%bind_Some_inv.
  case_bool_decide as Hready; [by apply (Hm w r)|]. move: Hrun => [= _ <-]. by apply follows_same.
Qed.

Lemma on_group_refines {A} dc op (f : Group → M PearlWorld (result A Error)) :
  (∀ g, DcRefines dc (f g)) → DcRefines dc (on_group dc op f).
Proof.
  intros Hf. apply refines_bind; [by apply keeps_refines, _|]. intros groups.
  apply refines_bind; [by apply keeps_refines, _|]. intros [g|]; [done|by apply keeps_refines, _].
Qed.

(** A request of a ready disk may add a group for a node it had none for. *)
Lemma get_or_create_follows dc op w r w' :
  dcc_state (dc_cell w (dc_id dc)) = DiskReady → get_or_create_pearl dc op w = Some (r, w') → follows dc w w'.
Proof.
  intros Hready. rw /get_or_create_pearl. intros (groups & w0 & [= <- <-] & Hrun)%bind_Some_inv.
  apply bind_Some_inv in Hrun as (found & w1 & Hf & Hrun).
  pose proof (keeps_view dc _ w found w1 _ Hf) as Hv1. destruct found as [g|].
  { move: Hrun => [= _ <-]. by apply follows_same. }
  apply bind_Some_inv in Hrun as (name & w2 & Hn & Hrun).
  pose proof (keeps_view dc _ w1 name w2 _ Hn) as Hv2.
  apply bind_Some_inv in Hrun as (res & w3 & Hg & Hrun).
  pose proof (keeps_view dc _ w2 res w3 _ Hg) as Hv3. rw Hv2 Hv1 in Hv3. destruct res as [g|e].
  2:{ move: Hrun => [= _ <-]. by apply follows_same. }
  apply bind_Some_inv in Hrun as (u & w4 & [= <- <-] & [= <- <-]).
  assert (dcc_state (dc_cell w3 (dc_id dc)) = dcc_state (dc_cell w (dc_id dc))) as Hst3 by (by injection Hv3).
  intros s Hr Hs. pose (s1 := with_requests (S (ds_requests s)) s).
  pose (s2 := with_groups (dv_groups (ds_view s1) ++ [g]) (ds_loaded s1) s1).
  exists (with_requests (ds_requests s) s2). split_and!; [|done|done|].
  - eapply rtc_l; [apply DsRequest; by rw /ds_state Hs|]. eapply rtc_l; [by apply (DsNewGroup _ _ g)|].
    apply rtc_once. by apply DsAnswer.
  - rw /= Hs /view_of /dc_cell /= lookup_insert_eq /=. f_equal. by rw -/(dc_cell w3 (dc_id dc)).
Qed.

(** The first step is taken while the disk is ready. *)
Lemma follows_bind {A B} dc (m : M PearlWorld A) (f : A → M PearlWorld B) w r w' :
  (∀ a w1, m w = Some (a, w1) → follows dc w w1) → (∀ a, DcRefines dc (f a)) →
  (m ≫= f) w = Some (r, w') → follows dc w w'.
Proof.
  intros Hm Hf (a & w1 & Hm1 & Hf2)%bind_Some_inv. apply (run_follows_trans dc _ None _ w w1); [by apply (Hm a)|by apply (Hf a w1 r)].
Qed.

#[local] Instance keeps_find_all dc op : KeepsDcs (find_all_groups dc op). Proof. keeps_def find_all_groups. Qed.
#[local] Instance keeps_alien_get key best g : KeepsDcs (get_alien_step key best g). Proof. keeps_def get_alien_step. Qed.
#[local] Instance keeps_alien_exist keys res g : KeepsDcs (exist_alien_step keys res g). Proof. keeps_def exist_alien_step. Qed.
#[local] Instance keeps_detach res g : KeepsDcs (detach_groups res g). Proof. keeps_def detach_groups. Qed.

Lemma put_alien_refines dc op key data : DcRefines dc (dc_put_alien dc op key data).
Proof.
  apply when_ready_refines. intros w r w' Hready. apply follows_bind.
  - intros a w1. by apply get_or_create_follows.
  - intros [g|e]; [|by apply keeps_refines, _]. apply refines_bind; [by apply keeps_refines, _|]. intros res. apply _.
Qed.

Lemma put_refines dc op key data : DcRefines dc (dc_put dc op key data).
Proof.
  apply when_ready_refines. intros w r w' _. apply on_group_refines. intros g.
  apply refines_bind; [by apply keeps_refines, _|]. intros res. apply _.
Qed.

(** Reading only needs the groups. *)
Lemma read_refines {A} dc (m : M PearlWorld (result A Error)) : KeepsDcs m → DcRefines dc (when_ready dc m).
Proof. intros Hm. apply when_ready_refines. intros w r w' _. by apply keeps_refines. Qed.

Lemma delete_alien_refines dc op key m force : DcRefines dc (dc_delete_alien dc op key m force).
Proof.
  apply when_ready_refines. intros w r w' Hready (groups & w0 & Hfind & Hrun)%bind_Some_inv.
  pose proof (keeps_view dc _ w groups w0 _ Hfind) as Hv.
  assert (dcc_state (dc_cell w0 (dc_id dc)) = DiskReady) as Hready0 by (by injection Hv as -> _).
  apply (run_follows_trans dc _ None _ w w0); [by apply follows_same|]. destruct (force && _).
  - move: Hrun. apply follows_bind; [intros a w1; by apply get_or_create_follows|].
    intros [g|e]; [|by apply keeps_refines, _]. apply refines_bind; [by apply keeps_refines, _|]. intros res. apply _.
  - move: Hrun. apply refines_bind; [|intros s; destruct s.2; by apply keeps_refines, _].
    apply refines_for_each. intros s g. apply refines_bind; [by apply keeps_refines, _|].
    intros [n|e]; [by apply keeps_refines, _|]. apply refines_bind; [apply _|intros e'; by apply keeps_refines, _].
Qed.

(** ** The controller *)

(** What is asked of a controller. *)
Inductive DcOp : Type :=
| DoRun | DoStop | DoMonitor | DoDetachAll
| DoPut (op : Operation) (key : BobKey) (data : BobData)
| DoPutAlien (op : Operation) (key : BobKey) (data : BobData)
| DoGet (op : Operation) (key : BobKey)
| DoGetAlien (op : Operation) (key : BobKey)
| DoExist (op : Operation) (keys : list BobKey)
| DoExistAlien (op : Operation) (keys : list BobKey)
| DoDelete (op : Operation) (key : BobKey) (m : BobMeta)
| DoDeleteAlien (op : Operation) (key : BobKey) (m : BobMeta) (force_delete : bool).

Definition ignore {A} (m : M PearlWorld A) : M PearlWorld unit := _ ← m; mret tt.

Definition dc_exec (dc : DiskController) (o : DcOp) : M PearlWorld unit :=
  match o with
  | DoRun => ignore (dc_run dc)
  | DoStop => dc_stop dc
  | DoMonitor => monitor_tick dc
  | DoDetachAll => ignore (dc_detach_all dc)
  | DoPut op key data => ignore (dc_put dc op key data)
  | DoPutAlien op key data => ignore (dc_put_alien dc op key data)
  | DoGet op key => ignore (dc_get dc op key)
  | DoGetAlien op key => ignore (dc_get_alien dc op key)
  | DoExist op keys => ignore (dc_exist dc op keys)
  | DoExistAlien op keys => ignore (dc_exist_alien dc op keys)
  | DoDelete op key m => ignore (dc_delete dc op key m)
  | DoDeleteAlien op key m force_delete => ignore (dc_delete_alien dc op key m force_delete)
  end.

Lemma ignore_refines {A} dc (m : M PearlWorld A) : DcRefines dc m → DcRefines dc (ignore m).
Proof. intros Hm. apply refines_bind; [done|intros a; by apply keeps_refines, _]. Qed.

Lemma dc_exec_refines dc o : DcRefines dc (dc_exec dc o).
Proof.
  destruct o; simpl; try apply ignore_refines.
  - apply _.
  - apply stop_refines.
  - apply refines_bind; [by apply keeps_refines, _|]. intros [|]; [by apply keeps_refines, _|apply stop_refines].
  - apply keeps_refines. keeps_def dc_detach_all.
  - apply put_refines.
  - apply put_alien_refines.
  - apply when_ready_refines. intros w r w' _. apply on_group_refines. intros g. by apply keeps_refines, _.
  - apply read_refines. keeps.
  - apply when_ready_refines. intros w r w' _. apply on_group_refines. intros g. by apply keeps_refines, _.
  - apply read_refines. keeps.
  - apply when_ready_refines. intros w r w' _. apply on_group_refines. intros g. by apply keeps_refines, _.
  - apply delete_alien_refines.
Qed.

(** A controller that is created and then used. *)
Definition dc_life (disk : DiskPath) (vdisks : list VDiskId) (config : NodeConfig) (settings : Settings) (is_alien : bool)
    (ops : list DcOp) : M PearlWorld DiskController :=
  dc ← DiskController_new disk vdisks config settings is_alien;
  _ ← for_each (λ _ o, dc_exec dc o) tt ops;
  mret dc.

(** The controller is created with the groups of its disk. *)
Lemma dc_new_reached disk vdisks config settings is_alien w dc w' :
  DiskController_new disk vdisks config settings is_alien w = Some (dc, w') →
  ∃ s, rtc (disk_step false) disk_start s ∧ ds_run s = None ∧ ds_requests s = 0%nat ∧ ds_view s = view_of dc w'.
Proof.
  rw /DiskController_new. intros (id & w0 & _ & Hrun)%bind_Some_inv.
  apply bind_Some_inv in Hrun as (u & w1 & [= <- <-] & Hrun).
  apply bind_Some_inv in Hrun as (r & w2 & Hi & Hrun). apply bind_Some_inv in Hrun as (u' & w3 & Hok & [= <- <-]).
  destruct r as [v|e]; [|done]. move: Hok => [= _ <-].
  destruct (dc_init_follows _ _ _ _ Hi (with_run (Some RunBegin) disk_start)) as (s & Hs & Hr & Hq & Hv); [done| |].
  { by rw /view_of /dc_cell /= lookup_insert_eq. }
  exists (with_run None s). split_and!; [|done|by rw /= Hq|by rw /= Hv].
  eapply rtc_l; [by apply DsRun|]. etrans; [exact Hs|]. apply rtc_once. by apply DsCreated.
Qed.

(** C7: A controller refines the state machine of its disk: created, and asked anything in
    any order, it shows the state and the groups of a reachable state of [disk_step] with no
    run and no request in flight; when it is ready, that state has the groups read from the
    disk and not dropped since. *)
Theorem disk_controller_refines disk vdisks config settings is_alien ops w dc w' :
  dc_life disk vdisks config settings is_alien ops w = Some (dc, w') →
  ∃ s, rtc (disk_step false) disk_start s ∧ ds_run s = None ∧ ds_requests s = 0%nat ∧
    dcc_state (dc_cell w' (dc_id dc)) = ds_state s ∧ dcc_groups (dc_cell w' (dc_id dc)) = dv_groups (ds_view s) ∧
    (dcc_state (dc_cell w' (dc_id dc)) = DiskReady → ds_loaded s = true).
Proof.
  rw /dc_life. intros (dc' & w1 & Hnew & Hrun)%bind_Some_inv. apply bind_Some_inv in Hrun as (u & w2 & Hops & [= <- <-]).
  destruct (dc_new_reached _ _ _ _ _ _ _ _ Hnew) as (s1 & Hs1 & Hr1 & Hq1 & Hv1).
  destruct (refines_for_each dc' (λ _ o, dc_exec dc' o) tt ops (λ _ o, dc_exec_refines dc' o) w1 u w2 Hops s1 Hr1 Hv1)
    as (s & Hs & Hr & Hq & Hv).
  assert (rtc (disk_step false) disk_start s) as Hreach by (by etrans).
  exists s. rw /ds_state Hv Hq. split_and!; [done..|]. intros Hready. apply (di_loaded s (disk_reachable s Hreach)).
  rw /ds_state Hv /=. by rw Hready.
Qed.
End operations.
