(* ===== verification/PearlStop.v ===== *)
(** * PearlStop: a disk that is lost

    What [DiskController::stop], the monitor and a failed put do to a disk
    [bob-backend/src/pearl/disk_controller.rs]: every holder of the disk is closed, the
    groups are dropped, and requests are refused until the disk is run again. *)

From Corelib Require Import ssreflect.
From stdpp Require Import base option list relations strings gmap numbers.
From Stdlib Require Import Strings.Byte ZArith Lia.
From S2P Require Import Prelude Data Text Errors Options Node ClusterConfig NodeConfig Mapper Backend PearlUtils PearlWorld PearlHolder PearlGroup PearlLaws PearlReads PearlSettings PearlDisk PearlStates PearlRefine.

Section stop.
Context {key_size : KeySize} `{ConfigParsers, Chrono, Sha256, PearlLaws}.
#[local] Set Default Proof Using "Type*".

(** [w'] is [w] after holders were closed, those of [l] among them. *)
Record closing (l : list Holder) (w w' : PearlWorld) : Prop := {
  cl_groups : pw_groups w' = pw_groups w;
  cl_dcs : pw_dcs w' = pw_dcs w;
  cl_closed : ∀ h, h ∈ l → running w' (h_id h) = None;
  cl_stay : ∀ id, running w id = None → running w' id = None;
}.

Lemma closing_refl w : closing [] w w.
Proof. split; try done. intros h Hin. by apply not_elem_of_nil in Hin. Qed.

Lemma closing_trans l1 l2 w1 w2 w3 : closing l1 w1 w2 → closing l2 w2 w3 → closing (l1 ++ l2) w1 w3.
Proof.
  intros [G1 D1 C1 S1] [G2 D2 C2 S2]. split; [congruence..| |auto].
  intros h [Hin|Hin]%elem_of_app; auto.
Qed.

Lemma close_storage_closing h w : wp (close_storage h) (λ _ w', closing [h] w w') w.
Proof.
  rw /close_storage. apply wpx_bind, wpx_on_sync, reset_spec.
  set (w1 := with_sync w (h_id h) PearlSync_default).
  assert (closing [h] w w1) as Hc.
  { split; [done..| |].
    - intros h' ->%list_elem_of_singleton. by rw /running /w1 holder_cell_put decide_True.
    - intros id Hid. rw /running /w1 holder_cell_put. by case_decide. }
  destruct (PearlSync_get _) as [st|]; [|by apply wpx_ret].
  apply wpx_bind, wpx_ext, wpx_bind, wpx_ext, wpx_ret. by destruct Hc.
Qed.

Lemma close_holders_closing l w : wp (close_holders l) (λ _ w', closing l w w') w.
Proof.
  apply (wpx_for_each _ _ _ (λ pre _ w', closing pre w w')); [apply closing_refl|].
  intros pre h rest u w1 _ Hc. eapply wpx_mono; [apply close_storage_closing|].
  intros ? w2 Hc2. by apply (closing_trans _ _ _ w1).
Qed.

(** The holders of a list of groups. *)
Definition holders_of_all (w : PearlWorld) (groups : list Group) : list Holder := groups ≫= λ g, holders_of g w.

Lemma dc_shutdown_closing dc w :
  wp (dc_shutdown dc) (λ _ w', closing (holders_of_all w (dcc_groups (dc_cell w (dc_id dc)))) w w') w.
Proof.
  rw /dc_shutdown. apply wpx_bind, wpx_gets.
  apply (wpx_for_each _ _ _ (λ pre _ w', closing (holders_of_all w pre) w w')); [apply closing_refl|].
  intros pre g rest u w1 _ Hc. rw /shutdown_group. apply wpx_bind, wpx_gets.
  assert (hf_iter (gc_holders (group_cell w1 g)) = holders_of g w) as -> by (by rw /holders_of /group_cell (cl_groups _ _ _ Hc)).
  eapply wpx_mono; [apply close_holders_closing|]. intros ? w2 Hc2.
  rw /holders_of_all bind_app /= app_nil_r. by apply (closing_trans _ _ _ w1).
Qed.

(** A request answered without any effect. *)
Definition refused {A} (w : PearlWorld) (m : M PearlWorld (result A Error)) : Prop :=
  m w = Some (Err dc_is_not_available, w).

Definition refuses_requests (dc : DiskController) (w : PearlWorld) : Prop :=
  ∀ op key keys data m force,
    refused w (dc_put dc op key data) ∧ refused w (dc_put_alien dc op key data) ∧
    refused w (dc_get dc op key) ∧ refused w (dc_get_alien dc op key) ∧
    refused w (dc_exist dc op keys) ∧ refused w (dc_exist_alien dc op keys) ∧
    refused w (dc_delete dc op key m) ∧ refused w (dc_delete_alien dc op key m force).

Lemma when_ready_refused {A} dc (m : M PearlWorld (result A Error)) w :
  dcc_state (dc_cell w (dc_id dc)) ≠ DiskReady → refused w (when_ready dc m).
Proof. intros Hs. rw /refused /when_ready (bind_run _ _ w (dcc_state (dc_cell w (dc_id dc))) w); [done|]. by rw bool_decide_eq_false_2. Qed.

Lemma not_ready_refuses dc w : dcc_state (dc_cell w (dc_id dc)) ≠ DiskReady → refuses_requests dc w.
Proof. intros Hs op key keys data m force. split_and!; by apply when_ready_refused. Qed.

Lemma dc_cell_put dc c w : dc_cell (put_dc_cell (dc_id dc) c w) (dc_id dc) = c.
Proof. by rw /dc_cell /= lookup_insert_eq. Qed.

(** A put that fails for a lost disk stops the disk: it is the only way a request stops it. *)
Lemma stop_run dc w : ∃ w', dc_stop dc w = Some (tt, w') ∧
  (dcc_state (dc_cell w (dc_id dc)) ≠ DiskNotReady →
     closing (holders_of_all w (dcc_groups (dc_cell w (dc_id dc)))) w (set_dcs (pw_dcs w) w') ∧
     dcc_groups (dc_cell w' (dc_id dc)) = []) ∧
  dcc_state (dc_cell w' (dc_id dc)) = DiskNotReady.
Proof.
  rw /dc_stop /change_state (bind_run _ _ w (dcc_state (dc_cell w (dc_id dc))) w); [done|]. case_bool_decide as Hs; [by exists w|].
  destruct (wp_total _ _ _ (dc_shutdown_closing dc w)) as ([] & w1 & Hdown & [G1 D1 C1 S1]).
  set (w2 := put_dc_cell (dc_id dc) {| dcc_groups := []; dcc_state := dcc_state (dc_cell w1 (dc_id dc));
    dcc_blobs_count_cached := dcc_blobs_count_cached (dc_cell w1 (dc_id dc)) |} w1).
  set (w3 := put_dc_cell (dc_id dc) {| dcc_groups := dcc_groups (dc_cell w2 (dc_id dc)); dcc_state := DiskNotReady;
    dcc_blobs_count_cached := dcc_blobs_count_cached (dc_cell w2 (dc_id dc)) |} w2).
  exists w3. rw (bind_run _ _ w tt w2); [by rw (bind_run _ _ w tt w1)|].
  assert (dcc_groups (dc_cell w3 (dc_id dc)) = [] ∧ dcc_state (dc_cell w3 (dc_id dc)) = DiskNotReady) as [Hg Hst]
    by by rw /w3 dc_cell_put /w2 dc_cell_put.
  split_and!; [done| |done]. intros _. by split; [split|].
Qed.

(** C10: Stopping a disk - by the administrator, by the monitor that misses its directory, or
    by a put that fails as on a lost disk - always returns; every holder of every group of a
    disk that was served is closed and the groups are dropped; and every request is then
    refused with [DCIsNotAvailable] and no effect until the disk is run again. *)
Theorem stop_closes_disk dc w : ∃ w', dc_stop dc w = Some (tt, w') ∧
  dcc_state (dc_cell w' (dc_id dc)) = DiskNotReady ∧ refuses_requests dc w' ∧
  (dcc_state (dc_cell w (dc_id dc)) ≠ DiskNotReady →
     dcc_groups (dc_cell w' (dc_id dc)) = [] ∧
     ∀ g h, g ∈ dcc_groups (dc_cell w (dc_id dc)) → h ∈ holders_of g w → running w' (h_id h) = None).
Proof.
  destruct (stop_run dc w) as (w' & Hrun & Hclosed & Hstate). exists w'. split_and!; [done|done| |].
  - apply not_ready_refuses. by rw Hstate.
  - intros Hs. destruct (Hclosed Hs) as [Hc Hg]. split; [done|]. intros g h Hgin Hin.
    apply (cl_closed _ _ _ Hc). apply list_elem_of_bind. by exists g.
Qed.
End stop.
