(* ===== verification/PearlExample.v ===== *)
(** * PearlExample: a disk in memory

    An executable [PearlCrate] that keeps the newest record of every key and obeys
    [PearlLaws]: the theorems about holders, groups and disks hold of it, and are applied
    here to a group of three days. *)

From Corelib Require Import ssreflect.
From stdpp Require Import base option list relations strings gmap numbers.
From Stdlib Require Import Strings.Byte Strings.Ascii ZArith Lia.
From S2P Require Import Prelude Data Text Errors Options Node ClusterConfig NodeConfig Mapper Backend PearlUtils PearlWorld PearlHolder PearlGroup PearlLaws PearlReads PearlWrites PearlHistory PearlSettings PearlDisk PearlBackend PearlStates PearlRefine PearlStop.

(** ** The crate *)

(** A clock that stands, the directories and the records. *)
Record ToyDisk : Type := {
  td_now : Z;
  td_dirs : list string;
  td_records : string → list byte → Rec;
}.

Record ToyStorage : Type := { ts_dir : string; ts_duplicates : bool }.

Definition toy_with_dirs (dirs : list string) (d : ToyDisk) : ToyDisk :=
  {| td_now := td_now d; td_dirs := dirs; td_records := td_records d |}.

Definition toy_set (p : string) (k : list byte) (r : Rec) (d : ToyDisk) : ToyDisk :=
  {| td_now := td_now d; td_dirs := td_dirs d;
     td_records := λ p' k', if decide (p' = p ∧ k' = k) then r else td_records d p' k' |}.

(** The newer of two records; the new one of equals. *)
Definition newer_record (old r : Rec) : Rec :=
  match rec_ts old, rec_ts r with
  | Some t, Some ts => if t <=? ts then r else old
  | _, _ => r
  end.

Definition toy_write (s : ToyStorage) (k v : list byte) (ts : Z) (d : ToyDisk) : result unit AnyError * ToyDisk :=
  let old := td_records d (ts_dir s) k in
  (Ok tt, if ts_duplicates s || negb (is_found old) then toy_set (ts_dir s) k (newer_record old (Found (ts, v))) d else d).

Definition toy_delete (s : ToyStorage) (k : list byte) (ts : Z) (only_if_presented : bool) (d : ToyDisk)
    : result Z AnyError * ToyDisk :=
  let old := td_records d (ts_dir s) k in
  if only_if_presented && negb (is_found old) then (Ok 0, d)
  else (Ok 1, toy_set (ts_dir s) k (newer_record old (Deleted ts)) d).

(** The last part of the paths below [path]. *)
Definition toy_child (path dir : string) : option string :=
  let prefix := path_push path EmptyString in
  if is_prefix prefix dir then Some (String.substring (String.length prefix) (String.length dir) dir) else None.

Definition toy_read_dir (path : string) (d : ToyDisk) : result (list (result DirEntry string)) (IOErrorKind * string) :=
  Ok ((λ name, Ok {| de_file_name := Some name; de_is_dir := Some true; de_debug := name |})
        <$> omap (toy_child path) (td_dirs d)).

Definition toy_crate : PearlCrate := {|
  Disk := ToyDisk;
  PearlStorage := ToyStorage;
  Filter := unit;
  pe_now := λ d, (td_now d * nanos_per_sec, d);
  pe_coarse_now := λ d, (td_now d, d);
  fs_exists := λ p d, bool_decide (p ∈ td_dirs d);
  fs_create_dir_all := λ p d, (Ok tt, toy_with_dirs (p :: td_dirs d) d);
  fs_remove_file := λ _ d, (Ok tt, d);
  fs_remove_dir_all := λ p d, (Ok tt, toy_with_dirs (filter (λ p', p' ≠ p) (td_dirs d)) d);
  fs_read_dir := toy_read_dir;
  pe_build := λ b d, (Ok {| ts_dir := pb_work_dir b; ts_duplicates := pb_allow_duplicates b |}, d);
  pe_init := λ _ d, (Ok tt, d);
  pe_init_lazy := λ _ d, (Ok tt, d);
  pe_write := toy_write;
  pe_read := λ s k d, (Ok (rr_map snd (td_records d (ts_dir s) k)), d);
  pe_contains := λ s k d, (Ok (rr_map fst (td_records d (ts_dir s) k)), d);
  pe_delete := toy_delete;
  pe_close := λ _ d, (Ok tt, d);
  pe_fsyncdata := λ _ d, (Ok tt, d);
  pe_close_active_blob_in_background := λ _ d, d;
  pe_free_excess_resources := λ _ d, (0, d);
  pe_offload_buffer := λ _ _ _ d, (0, d);
  pe_blobs_count := λ _ _, 1;
  pe_corrupted_blobs_count := λ _ _, 0;
  pe_active_index_memory := λ _ _, 0;
  pe_inactive_index_memory := λ _ _, 0;
  pe_index_memory := λ _ _, 0;
  pe_records_count := λ _ _, 0;
  pe_has_active_blob := λ _ _, true;
  pe_records_count_in_active_blob := λ _ _, Some 0;
  pe_filter_memory_allocated := λ _ _, 0;
  pe_disk_used := λ _ _, 0;
  pe_check_filter := λ _ _ _, true;
  pe_get_filter := λ _ _, Some tt;
  HoldersContainer := list Holder;
  hf_new := λ _ _, [];
  hf_iter := λ c, c;
  hf_len := length;
  hf_get_child := λ c i, c !! i;
  hf_possible_childs_rev := λ c _, rev c;
  hf_add_to_parents := λ _ _ c, c;
  hf_push := λ _ h c, (length c, c ++ [h]);
  hf_extend := λ _ l c, c ++ l;
  hf_remove := λ i c, (c !! i, delete i c);
  hf_clear := λ _, [];
  hf_clear_and_get_values := λ c, (c, []);
  hf_reload := λ _ c, c;
  hf_filter_memory := λ _ _, 0;
|}.

Lemma newer_record_added old r : rec_ts r ≠ None → added old (newer_record old r) r.
Proof.
  rw /newer_record. destruct (rec_ts old) as [t|] eqn:Ho; destruct (rec_ts r) as [ts|] eqn:Hr; intros Hn; try done.
  - destruct (t <=? ts) eqn:Hle.
    + left. split; [done|]. rw Hr Ho. intros ? ? [= <-] [= <-]. lia.
    + right. split; [done|]. exists ts, t. split_and!; [done..|lia].
  - left. split; [done|]. by rw Ho.
Qed.

Lemma toy_set_same p k r d : td_records (toy_set p k r d) p k = r.
Proof. rw /toy_set /=. by case_decide as Hd; [|exfalso; apply Hd]. Qed.

Lemma toy_set_other p k r d p' k' : p' ≠ p ∨ k' ≠ k → td_records (toy_set p k r d) p' k' = td_records d p' k'.
Proof. rw /toy_set /=. intros Hne. case_decide as Hd; [|done]. destruct Hd. by destruct Hne. Qed.

#[refine] Definition toy_laws : @PearlLaws toy_crate := {|
  pe_dir := ts_dir : @PearlStorage toy_crate → string;
  content := λ p k (d : @Disk toy_crate), td_records d p k;
  duplicates := ts_duplicates : @PearlStorage toy_crate → bool;
  admits := λ _ _, true;
  covers := λ _ _ _, True;
  dense := λ _, True;
|}.
Proof.
  all: try done; simpl.
  - by intros b d s d' [= <- <-].
  - by intros s k d r d' [= <- <-].
  - by intros s k d r d' [= <- <-].
  - intros s k v ts d p k' Hne. destruct (_ || _); [by apply toy_set_other|done].
  - intros s k v ts d d' [= <-] Hnew.
    replace (ts_duplicates s || negb (is_found (td_records d (ts_dir s) k))) with true.
    + rw toy_set_same. by apply newer_record_added.
    + by destruct Hnew as [->| ->]; [|destruct (ts_duplicates s)].
  - intros s k ts b d p k' Hne. rw /toy_delete. destruct (_ && _); [done|by apply toy_set_other].
  - intros s k ts d n d'. rw /toy_delete /=. intros [= _ <-]. rw toy_set_same. by apply newer_record_added.
  - intros s k ts b d. rw /toy_delete. destruct (b && _) eqn:Hb; [by left|]. right. rw toy_set_same.
    split; [by apply newer_record_added|]. intros -> Hn. by rw Hn in Hb.
  - intros c k h _ Hin. apply list_elem_of_In, in_rev. rw rev_involutive. by apply list_elem_of_In.
  - by intros f h c n c' [= <- <-].
Defined.

(** ** A group of three days *)

#[local] Instance one_byte_keys : KeySize := 1%nat.
#[local] Existing Instances Parsers_example Chrono_example Chrono_example_laws Sha256_example toy_crate toy_laws.

Definition toy_virtual : Virtual := {|
  vm_local_node_name := "node_1"; vm_local_node_address := "10.0.0.1:20000"; vm_disks := [];
  vm_vdisks := ∅; vm_nodes := []; vm_distribution_func := Mod; vm_support_nodes_offset := 0;
|}.

Definition toy_settings : Settings := {|
  se_bob_prefix_path := "bob"; se_alien_folder := "alien"; se_timestamp_period := day_nanos;
  se_config := Pearl_get_testmode "/tmp/bob_events.csv" "disk_0"; se_mapper := toy_virtual;
  se_holder_group_size := 8;
|}.

Definition toy_group : Group := {|
  g_id := 0; g_settings := toy_settings; directory_path := "/disk_0/bob/1/"; g_vdisk_id := 1; g_node_name := "node_1";
  g_disk_name := "disk_0"; owner_node_identifier := "node_1"; safe_timestamp_step := Some (2 * 86400 + 1);
|}.

Definition toy_start : PearlWorld := {|
  pw_disk := {| td_now := 1690000000; td_dirs := []; td_records := λ _ _, NotFound |};
  pw_holders := ∅; pw_groups := ∅; pw_dcs := ∅; pw_hooks := Hooks_new None; pw_fresh := 1;
|}.

Definition after {A} (m : M PearlWorld A) (w : PearlWorld) : PearlWorld :=
  match m w with Some (_, w') => w' | None => w end.

Definition toy_data (b : byte) (ts : Z) : BobData := {| inner := [b]; meta := {| timestamp := ts |} |}.
Definition toy_put (k : BobKey) (b : byte) (ts : Z) : M PearlWorld (result unit Error) :=
  group_put toy_group k (toy_data b ts) StartTimestampConfig_default.

(** A key with two versions, in the holders of two days. *)
Definition toy_filled : PearlWorld :=
  after (_ ← toy_put [x03] x01 1690000000; toy_put [x03] x02 1690100000) toy_start.

(** The holder of a day. *)
Definition no_holder : Holder := {|
  h_id := 0; start_timestamp := 0; end_timestamp := 0; h_vdisk := 0; disk_path := EmptyString;
  h_config := se_config toy_settings;
|}.
Definition toy_holder (id : nat) (start : Z) : Holder :=
  match create_pearl_holder toy_group start "zzzzzzzzzz" (set_fresh id toy_start) with
  | Some (h, _) => h
  | None => no_holder
  end.

Definition day_one : Holder := toy_holder 1 1689984000.
Definition day_two : Holder := toy_holder 2 1690070400.
Definition day_three : Holder := toy_holder 3 1690156800.

Lemma toy_holders : holders_of toy_group toy_filled = [day_one; day_two].
Proof. vm_compute. reflexivity. Qed.

Lemma in_two {A} (a b x : A) : x ∈ [a; b] → x = a ∨ x = b.
Proof. intros Hin. apply elem_of_cons in Hin as [?|Hin]; [by left|]. apply elem_of_cons in Hin as [?|Hin]; [by right|by apply not_elem_of_nil in Hin]. Qed.

Lemma toy_days h : h ∈ holders_of toy_group toy_filled → h = day_one ∨ h = day_two.
Proof. rw toy_holders. apply in_two. Qed.

(** The holder is open over its own directory. *)
Definition toy_open (w : PearlWorld) (h : Holder) : Prop :=
  running w (h_id h) = Some {| ts_dir := disk_path h; ts_duplicates := pl_allow_duplicates (h_config h) |}.

Lemma toy_open_opened w h : toy_open w h → opened w h.
Proof. intros Hopen s Hrun. rw /toy_open Hrun in Hopen. by injection Hopen as ->. Qed.

Lemma toy_closed_opened w h : running w (h_id h) = None → opened w h.
Proof. intros Hnone s Hrun. by rw Hnone in Hrun. Qed.

Lemma toy_readable w h k : toy_open w h → readable w h k ∧ checkable w h k.
Proof. intros Hopen. by split; eexists. Qed.

Lemma toy_group_ok l w :
  holders_of toy_group w = l → (∀ h, h ∈ l → opened w h) → NoDup (h_id <$> l) → NoDup (disk_path <$> l) →
  group_ok toy_group w.
Proof. intros <- Hopen Hids Hpaths. split; [done|done|done|by intros h k _ _]. Qed.

Lemma toy_filled_open h : h ∈ holders_of toy_group toy_filled → toy_open toy_filled h.
Proof. intros [->| ->]%toy_days; vm_compute; reflexivity. Qed.

Lemma toy_two_days : NoDup (h_id <$> [day_one; day_two]) ∧ NoDup (disk_path <$> [day_one; day_two]).
Proof. split; apply (bool_decide_unpack _); vm_compute; exact I. Qed.

Lemma toy_filled_ok : group_ok toy_group toy_filled.
Proof.
  apply (toy_group_ok [day_one; day_two]); [exact toy_holders| |apply toy_two_days..].
  intros h Hin. apply toy_open_opened, toy_filled_open. by rw toy_holders.
Qed.

(** The values are serialized data. *)
Lemma toy_rec_wf b ts : u64 ts → rec_wf (Found (ts, to_serialized_bytes (toy_data b ts))).
Proof. intros Hu t v [= <- <-]. by exists (toy_data b ts). Qed.

Lemma toy_filled_records :
  hrec toy_filled day_one [x03] = Found (1690000000, to_serialized_bytes (toy_data x01 1690000000)) ∧
  hrec toy_filled day_two [x03] = Found (1690100000, to_serialized_bytes (toy_data x02 1690100000)).
Proof. vm_compute. split; reflexivity. Qed.

Lemma toy_filled_wf : records_wf toy_group toy_filled [x03].
Proof.
  destruct toy_filled_records as [H1 H2]. intros h [->| ->]%toy_days.
  - rw H1. apply toy_rec_wf. rw /u64. lia.
  - rw H2. apply toy_rec_wf. rw /u64. lia.
Qed.

Lemma toy_filled_timely : timely toy_group (λ h, hrec toy_filled h [x03]) (holders_of toy_group toy_filled).
Proof.
  destruct toy_filled_records as [H1 H2]. intros h t Hin Ht. exists day_two, 1690100000. split_and!.
  - rw toy_holders. by right; left.
  - by rw H2.
  - move: Ht. destruct (toy_days h Hin) as [->| ->]; [rw H1|rw H2]; by move=> [= <-].
  - by vm_compute.
Qed.

Lemma toy_filled_readable h : h ∈ holders_of toy_group toy_filled → readable toy_filled h [x03].
Proof. intros Hin. by apply toy_readable, toy_filled_open. Qed.

Lemma group_get_newest_witness :
  ∃ r w', group_get toy_group [x03] toy_filled = Some (r, w') ∧ get_newest toy_group toy_filled [x03] r.
Proof.
  apply (group_get_newest toy_group [x03] toy_filled); [exact toy_filled_ok|reflexivity|exact toy_filled_wf|exact toy_filled_timely|].
  exact toy_filled_readable.
Defined.

(** The same group with the holder of the second day closed. *)
Definition toy_half : PearlWorld := after (close_storage day_two) toy_filled.

Lemma toy_half_holders : holders_of toy_group toy_half = [day_one; day_two].
Proof. vm_compute. reflexivity. Qed.

Lemma same_disk_records w w' h k : pw_disk w' = pw_disk w → hrec w' h k = hrec w h k.
Proof. rw /hrec. by intros ->. Qed.

Lemma toy_half_records h k : hrec toy_half h k = hrec toy_filled h k.
Proof. apply same_disk_records. vm_compute. reflexivity. Qed.

Lemma toy_half_wf : records_wf toy_group toy_half [x03].
Proof.
  intros h Hin. rw (toy_half_records h [x03]). apply toy_filled_wf. move: Hin. by rw toy_half_holders toy_holders.
Qed.

Lemma timely_ext g rec rec' l : (∀ h, rec h = rec' h) → timely g rec l → timely g rec' l.
Proof.
  intros Heq Htime h t Hin Ht. rw -Heq in Ht. destruct (Htime h t Hin Ht) as (h' & t' & Hin' & Ht' & Hrest).
  exists h', t'. by rw -Heq.
Qed.

Lemma toy_half_timely : timely toy_group (λ h, hrec toy_half h [x03]) (holders_of toy_group toy_half).
Proof.
  rw toy_half_holders -toy_holders. apply (timely_ext _ (λ h, hrec toy_filled h [x03])); [|exact toy_filled_timely].
  intros h. symmetry. apply toy_half_records.
Qed.

Lemma toy_half_ok : group_ok toy_group toy_half.
Proof.
  apply (toy_group_ok [day_one; day_two]); [exact toy_half_holders| |apply toy_two_days..].
  intros h [->| ->]%in_two; [apply toy_open_opened|apply toy_closed_opened]; vm_compute; reflexivity.
Qed.

Lemma after_run {A} (m : M PearlWorld A) w r : fst <$> m w = Some r → m w = Some (r, after m w).
Proof. rw /after. by destruct (m w) as [[r' w']|]; [move=> [= ->]|]. Qed.

(** The value of the first day is answered: the second could not be read. *)
Lemma group_get_failures_witness :
  get_sound toy_group toy_half [x03] (Ok (toy_data x01 1690000000)).
Proof.
  apply (group_get_failures toy_group [x03] toy_half _ (after (group_get toy_group [x03]) toy_half));
    [exact toy_half_ok|reflexivity|exact toy_half_wf|exact toy_half_timely|].
  apply after_run. vm_compute. reflexivity.
Defined.

Lemma toy_serves k : k = [x03] ∨ k = [x04] → serves toy_group toy_filled k.
Proof.
  intros Hk h Hin. split; [|by apply toy_readable, toy_filled_open].
  destruct Hk as [->| ->]; [by apply toy_filled_wf|].
  replace (hrec toy_filled h [x04]) with (NotFound : Rec); [done|].
  by destruct (toy_days h Hin) as [->| ->]; vm_compute.
Qed.

Lemma group_exist_agrees_witness :
  ∃ bs w', group_exist toy_group [[x03]; [x04]] toy_filled = Some (Ok bs, w') ∧
    Forall2 (λ k b, ∃ r wg, group_get toy_group k toy_filled = Some (r, wg) ∧ b = is_ok r) [[x03]; [x04]] bs.
Proof.
  apply (group_exist_agrees toy_group [[x03]; [x04]] toy_filled); [exact toy_filled_ok|reflexivity|].
  intros k Hk. by apply toy_serves, in_two.
Defined.

(** *** Writes *)

Lemma toy_hash_plain : no_sep "_"%char "zzzzzzzzzz".
Proof. intros i c. do 10 (destruct i as [|i]; [by move=> [= <-]|]). done. Qed.

Lemma toy_partition h : h = day_one ∨ h = day_two → partition_of toy_group h.
Proof.
  intros [->| ->]; split; try (vm_compute; split; congruence); try (vm_compute; reflexivity);
    exists "zzzzzzzzzz"; (split; [vm_compute; reflexivity|exact toy_hash_plain]).
Qed.

Lemma toy_filled_shape : group_shape toy_group toy_filled.
Proof.
  split; [done|..]; intros h [->| ->]%toy_days.
  - apply (bool_decide_unpack _). vm_compute. exact I.
  - apply (bool_decide_unpack _). vm_compute. exact I.
  - apply toy_partition. by left.
  - apply toy_partition. by right.
Qed.

Lemma toy_period_ok : period_ok toy_group.
Proof. rw /period_ok /=. by vm_compute. Qed.

Lemma toy_step_small : step_small toy_group.
Proof. intros step [= <-]. lia. Qed.

Definition noon_three : Z := 1690200000.
Definition toy_third : PearlWorld := after (toy_put [x03] x03 noon_three) toy_filled.
Definition toy_deleted : PearlWorld :=
  after (group_delete toy_group [x03] {| timestamp := noon_three |} StartTimestampConfig_default true) toy_filled.

Lemma toy_third_run : toy_put [x03] x03 noon_three toy_filled = Some (Ok tt, toy_third).
Proof. apply (after_run (toy_put [x03] x03 noon_three) toy_filled). vm_compute. reflexivity. Qed.

Lemma toy_deleted_run :
  group_delete toy_group [x03] {| timestamp := noon_three |} StartTimestampConfig_default true toy_filled =
    Some (Ok 3, toy_deleted).
Proof. apply (after_run (group_delete toy_group [x03] {| timestamp := noon_three |} StartTimestampConfig_default true) toy_filled). vm_compute. reflexivity. Qed.

Lemma toy_third_holders : holders_of toy_group toy_third = [day_one; day_two; day_three].
Proof. vm_compute. reflexivity. Qed.

Lemma toy_deleted_holders : holders_of toy_group toy_deleted = [day_one; day_two; day_three].
Proof. vm_compute. reflexivity. Qed.

Lemma in_three {A} (a b c x : A) : x ∈ [a; b; c] → x = a ∨ x = b ∨ x = c.
Proof. intros Hin. apply elem_of_cons in Hin as [?|Hin]; [by left|right]. by apply in_two. Qed.

Lemma toy_filled_three : hrec toy_filled day_three [x03] = NotFound.
Proof. vm_compute. reflexivity. Qed.

(** Everything in the three days is older than the noon of the third. *)
Lemma toy_older w' : holders_of toy_group w' = [day_one; day_two; day_three] →
  records_older toy_group toy_filled w' [x03] noon_three.
Proof.
  intros Hl h. rw Hl. destruct toy_filled_records as [H1 H2]. intros [->|[->| ->]]%in_three.
  - rw H1. split; [apply toy_rec_wf; rw /u64; lia|]. intros t [= <-]. rw /noon_three. lia.
  - rw H2. split; [apply toy_rec_wf; rw /u64; lia|]. intros t [= <-]. rw /noon_three. lia.
  - rw toy_filled_three. split; [intros ts v|intros t]; discriminate.
Qed.

Lemma toy_data_wf : data_wf (toy_data x03 noon_three).
Proof. vm_compute. split; congruence. Qed.

Lemma group_put_get_witness :
  ∃ w'', group_get toy_group [x03] toy_third = Some (Ok (toy_data x03 noon_three), w'').
Proof.
  apply (group_put_get toy_group [x03] (toy_data x03 noon_three) StartTimestampConfig_default toy_filled toy_third);
    [exact toy_filled_ok|exact toy_filled_shape|exact toy_period_ok|exact toy_step_small|exact toy_data_wf|reflexivity|..].
  - exact toy_third_run.
  - apply toy_older, toy_third_holders.
  - intros h. rw toy_third_holders. intros [->|[->| ->]]%in_three; apply toy_readable; vm_compute; reflexivity.
Defined.

Lemma group_delete_gone_witness :
  (∃ w'', group_get toy_group [x03] toy_deleted = Some (Err (key_not_found [x03]), w'')) ∧
  ∀ h k', h ∈ holders_of toy_group toy_deleted → Key_from k' ≠ Key_from [x03] → hrec toy_deleted h k' = hrec toy_filled h k'.
Proof.
  apply (group_delete_gone toy_group [x03] {| timestamp := noon_three |} StartTimestampConfig_default 3 toy_filled toy_deleted);
    [exact toy_filled_ok|exact toy_filled_shape|exact toy_period_ok|exact toy_step_small|done|..].
  - exact toy_deleted_run.
  - apply toy_older, toy_deleted_holders.
  - intros h. rw toy_deleted_holders. intros [->|[->| ->]]%in_three; apply toy_readable; vm_compute; reflexivity.
Defined.

(** ** A holder and a disk *)

Definition toy_storage : PearlStorage := {| ts_dir := "/disk_0/bob/1/1689984000_zzzzzzzzzz"; ts_duplicates := true |}.

(** The holder was opened, and is opened again while a second request wants to. *)
Lemma holder_set_ready_safe_witness :
  ∃ sync', PearlSync_set_ready toy_storage (PearlSync_default : PearlSync) = Some (Ok tt, sync').
Proof.
  apply (holder_set_ready_safe
    {| hs_sync := PearlSync_default; hs_free := false; hs_tasks := [OpWanting; OpCreating] |} toy_storage); [|by right; left].
  eapply rtc_l; [by eapply (HsReady _ _ toy_storage _ [] [])|]. eapply rtc_l; [by eapply (HsRelease _ _ [] [])|].
  eapply rtc_l; [by eapply HsSpawn|]. eapply rtc_l; [by eapply (HsAcquire _ [] [])|].
  eapply rtc_l; [by eapply HsSpawn|]. apply rtc_once. by eapply (HsReset _ _ _ _ [OpWanting] []).
Defined.

Lemma disk_ready_loaded_witness : ∃ s, ds_state s = DiskReady ∧ dv_groups (ds_view s) = [toy_group] ∧ ds_loaded s = true.
Proof.
  assert (∃ s, rtc (disk_step false) disk_start s ∧ ds_state s = DiskReady ∧ dv_groups (ds_view s) = [toy_group]) as (s & Hs & Hr & Hg).
  { eexists. split.
    { eapply rtc_l; [by apply DsRun|]. eapply rtc_l; [by apply (DsInit _ _ [toy_group])|].
      eapply rtc_l; [by apply DsInitState|]. eapply rtc_l; [by apply DsCheck|].
      eapply rtc_l; [by apply (DsGroups _ _ [toy_group])|]. apply rtc_once. by apply DsReady. }
    done. }
  exists s. split_and!; [done|done|by apply (disk_ready_loaded s)].
Defined.

(** The life of a disk: it is run, a record is put and read, the disk is found lost. *)
Definition toy_op : Operation := {| op_vdisk_id := 1; op_disk_path := Some {| dp_name := "disk_0"; dp_path := "/disk_0" |}; op_remote_node_name := None |}.
Definition toy_life : list DcOp :=
  [DoRun; DoPut toy_op [x03] (toy_data x01 1690000000); DoGet toy_op [x03]; DoMonitor].

Definition toy_config : NodeConfig := NodeConfig_get_testmode "/tmp/bob_events.csv" "node_1" "disk_0" None.
Definition toy_disk_path : DiskPath := {| dp_name := "disk_0"; dp_path := "/disk_0" |}.
Definition toy_dc : DiskController := {|
  dc_id := 1; dc_disk := toy_disk_path; dc_vdisks := [1]; dc_node_name := cfg_name toy_config;
  dc_settings := toy_settings; dc_is_alien := false;
|}.
Definition toy_lived (ops : list DcOp) : PearlWorld := after (dc_life toy_disk_path [1] toy_config toy_settings false ops) toy_start.

Example toy_live : map (λ ops, dcc_state (dc_cell (toy_lived ops) 1)) [[]; [DoRun]; toy_life] = [DiskInitialized; DiskReady; DiskNotReady].
Proof. vm_compute. reflexivity. Qed.

Lemma toy_life_run : dc_life toy_disk_path [1] toy_config toy_settings false (take 3 toy_life) toy_start = Some (toy_dc, toy_lived (take 3 toy_life)).
Proof. apply (after_run (dc_life toy_disk_path [1] toy_config toy_settings false (take 3 toy_life)) toy_start). vm_compute. reflexivity. Qed.

Lemma disk_controller_refines_witness :
  let w' := toy_lived (take 3 toy_life) in
  ∃ s, rtc (disk_step false) disk_start s ∧ ds_run s = None ∧ ds_requests s = 0%nat ∧
    dcc_state (dc_cell w' (dc_id toy_dc)) = ds_state s ∧ dcc_groups (dc_cell w' (dc_id toy_dc)) = dv_groups (ds_view s) ∧
    (dcc_state (dc_cell w' (dc_id toy_dc)) = DiskReady → ds_loaded s = true).
Proof. exact (disk_controller_refines toy_disk_path [1] toy_config toy_settings false (take 3 toy_life) toy_start toy_dc _ toy_life_run). Defined.

Lemma group_stays_wf_witness :
  group_ok toy_group toy_third ∧ group_shape toy_group toy_third ∧ gc_reinit_free (group_cell toy_third toy_group) = true ∧
  op_done toy_group (GPut [x03] (toy_data x03 noon_three)) toy_filled toy_third.
Proof.
  apply (group_stays_wf toy_group (GPut [x03] (toy_data x03 noon_three)) toy_filled toy_third);
    [exact toy_filled_ok|exact toy_filled_shape|exact toy_period_ok|reflexivity|exact toy_data_wf|exact toy_third_run].
Defined.

(** A late put of an old version, a deletion, and a put of another key. *)
Definition toy_ops : list GroupOp :=
  [GPut [x03] (toy_data x02 1690100000); GPut [x03] (toy_data x01 1690000000); GPut [x04] (toy_data x09 1690000000);
   GDelete [x04] {| timestamp := noon_three |}; GDelete [x03] {| timestamp := 1690050000 |}].
Definition toy_done : PearlWorld := after (group_apply_all toy_group toy_ops) toy_start.

Example toy_spec : spec_get [x03] toy_ops = Ok (toy_data x02 1690100000) ∧ spec_get [x04] toy_ops = Err (key_not_found [x04]).
Proof. split; vm_compute; reflexivity. Qed.

Lemma toy_done_run : group_apply_all toy_group toy_ops toy_start = Some (Ok tt, toy_done).
Proof. apply (after_run (group_apply_all toy_group toy_ops) toy_start). vm_compute. reflexivity. Qed.

Lemma toy_done_holders : holders_of toy_group toy_done = [toy_holder 1 1690070400; toy_holder 2 1689984000; toy_holder 3 1690156800].
Proof. vm_compute. reflexivity. Qed.

Lemma toy_start_ok : group_ok toy_group toy_start ∧ group_shape toy_group toy_start.
Proof.
  assert (holders_of toy_group toy_start = []) as Hl by reflexivity.
  split; split; rw ?Hl; try done; try (by intros h Hin%not_elem_of_nil); constructor.
Qed.

Lemma toy_start_empty h k : partition_of toy_group h → hrec toy_start h k = NotFound.
Proof. reflexivity. Qed.

Lemma toy_ops_wf : Forall go_wf toy_ops.
Proof. repeat (apply list.Forall_cons; split); try apply Forall_nil_2; vm_compute; repeat split; congruence. Qed.

Lemma toy_ops_distinct : NoDup (go_id <$> toy_ops).
Proof. apply (bool_decide_unpack _). vm_compute. exact I. Qed.

Lemma group_implements_map_witness :
  ∃ w'', group_get toy_group [x03] toy_done = Some (spec_get [x03] toy_ops, w'').
Proof.
  apply (group_implements_map toy_group toy_ops toy_start toy_done [x03]);
    [apply toy_start_ok|apply toy_start_ok|reflexivity|exact toy_period_ok|exact toy_step_small|reflexivity|exact toy_start_empty
    |exact toy_ops_wf|exact toy_ops_distinct|exact toy_done_run|].
  intros h. rw toy_done_holders. intros [->|[->| ->]]%in_three; apply toy_readable; vm_compute; reflexivity.
Defined.

Lemma stop_closes_disk_witness : ∃ w', dc_stop toy_dc (toy_lived (take 3 toy_life)) = Some (tt, w') ∧
  dcc_state (dc_cell w' (dc_id toy_dc)) = DiskNotReady ∧ refuses_requests toy_dc w'.
Proof.
  destruct (stop_closes_disk toy_dc (toy_lived (take 3 toy_life))) as (w' & Hrun & Hs & Hr & _).
  exists w'. split; [exact Hrun|]. split; [exact Hs|exact Hr].
Defined.
