(* ===== verification/RestKey.v ===== *)
(** * RestKey: the keys of the REST server

    [DataKey] of [bob/src/api/mod.rs] (lines 1141 to 1204): a key in a path is a GUID, a
    hexadecimal string of bytes or a decimal number.  The crate [uuid] is a parameter. *)

From Corelib Require Import ssreflect.
From stdpp Require Import base list strings numbers.
From Stdlib Require Import Strings.Byte Strings.Ascii ZArith Lia.
From S2P Require Import Prelude Data Text Errors Access.

(** ** Responses of the REST server *)

Record StatusExt : Type := { se_status : Z; se_ok : bool; se_msg : string }.

Definition StatusExt_new (status : Z) (ok : bool) (msg : string) : StatusExt :=
  {| se_status := status; se_ok := ok; se_msg := msg |}.

Definition bad_request (message : string) : StatusExt := StatusExt_new 400 false message.

(** [Uuid::from_str] and [as_bytes]. *)
Class UuidCrate := {
  uuid_parse : string → result (list byte) string;
  uuid_length : ∀ s bytes, uuid_parse s = Ok bytes → length bytes = 16%nat;
}.

(** ** Strings *)

Fixpoint all_chars (p : ascii → bool) (s : string) : bool :=
  match s with EmptyString => true | String c s' => p c && all_chars p s' end.

Definition any_char (p : ascii → bool) (s : string) : bool := negb (all_chars (λ c, negb (p c)) s).

Definition starts_with_char (c : ascii) (s : string) : bool :=
  match s with String a _ => bool_decide (a = c) | EmptyString => false end.

Fixpoint ends_with_char (c : ascii) (s : string) : bool :=
  match s with
  | EmptyString => false
  | String a EmptyString => bool_decide (a = c)
  | String _ s' => ends_with_char c s'
  end.

Definition is_ascii_digit (c : ascii) : bool := bool_decide (is_Some (to_digit10 c)).
Definition is_ascii_hexdigit (c : ascii) : bool := bool_decide (is_Some (to_digit16 c)).

(** [rchunks(2)]: from the end, each chunk in order; the last may hold one byte. *)
Fixpoint rchunks2_go {A} (reversed : list A) : list (list A) :=
  match reversed with
  | b :: a :: l => [a; b] :: rchunks2_go l
  | [b] => [[b]]
  | [] => []
  end.
Definition rchunks2 {A} (l : list A) : list (list A) := rchunks2_go (reverse l).

(** ** [DataKey] *)

Section key.
Context {key_size : KeySize}.

Definition from_bytes (bytes : list byte) : result BobKey StatusExt :=
  if (BOB_KEY_SIZE <? length bytes)%nat && negb (forallb (λ b, byte_val b =? 0) (drop BOB_KEY_SIZE bytes))
  then Err (bad_request "Key overflow")
  else Ok (vec_resize BOB_KEY_SIZE x00 bytes).

(** [None] is an abort of an [expect]. *)
Definition from_hex (hex : string) : option (result BobKey StatusExt) :=
  if negb (all_chars is_ascii_hexdigit hex) then
    Some (Err (bad_request "Hex parse error: non hexadecimal symbol in parameter"))
  else
    bytes ← mapM (λ c, u8_from_str_radix16 (Stdlib.Strings.String.string_of_list_ascii c)) (rchunks2 (Stdlib.Strings.String.list_ascii_of_string hex));
    Some (from_bytes (reverse (byte_of_Z <$> bytes))).

Definition from_decimal (decimal : string) : result BobKey StatusExt :=
  number <-? result_map_err (λ e, bad_request ("Decimal parse error: " +:+ e)) (parse_int (2 ^ 128) decimal);
  from_bytes (to_le_bytes 16 number).

Context `{UuidCrate}.

Definition from_guid (guid : string) : result BobKey StatusExt :=
  bytes <-? result_map_err (λ e, bad_request ("GUID parse error: " +:+ e)) (uuid_parse guid);
  from_bytes bytes.

Definition DataKey_from_str (param : string) : option (result BobKey StatusExt) :=
  if starts_with_char "{" param && ends_with_char "}" param then
    guid ← str_slice param 1 (String.length param - 1);
    Some (from_guid guid)
  else if any_char (λ c, bool_decide (c = "-"%char)) param then Some (from_guid param)
  else if String.prefix "0x" param then from_hex (String.substring 2 (String.length param - 2) param)
  else if all_chars is_ascii_digit param then Some (from_decimal param)
  else Some (Err (StatusExt_new 400 false "Invalid key format")).
End key.

(** ** Lemmas *)

Section lemmas.
Context {key_size : KeySize}.

Lemma all_chars_app p s t : all_chars p (s +:+ t) = all_chars p s && all_chars p t.
Proof. induction s as [|c s IH]; [done|]. rw append_cons /= IH. by rw andb_assoc. Qed.

Lemma length_vec_resize n x v : length (vec_resize n x v) = n.
Proof. rw /vec_resize length_app length_take length_replicate. lia. Qed.

(** The bytes as a little-endian number: they fit exactly when it is below [256 ^ SIZE]. *)
Lemma from_bytes_spec bytes :
  from_bytes bytes = if from_le_bytes bytes <? 256 ^ Z.of_nat BOB_KEY_SIZE
                     then Ok (to_le_bytes BOB_KEY_SIZE (from_le_bytes bytes)) else Err (bad_request "Key overflow").
Proof.
  rw /from_bytes. destruct (Nat.ltb_spec BOB_KEY_SIZE (length bytes)) as [Hlt|Hle]; simpl.
  - pose proof (from_le_bytes_app (take BOB_KEY_SIZE bytes) (drop BOB_KEY_SIZE bytes)) as Happ.
    rw take_drop length_take Nat.min_l in Happ; first lia.
    pose proof (from_le_bytes_bounds (take BOB_KEY_SIZE bytes)) as Hb. rw length_take Nat.min_l in Hb; first lia.
    pose proof (from_le_bytes_bounds (drop BOB_KEY_SIZE bytes)) as Hb'.
    destruct (forallb (λ b, byte_val b =? 0) (drop BOB_KEY_SIZE bytes)) eqn:Hz; simpl.
    + assert (from_le_bytes (drop BOB_KEY_SIZE bytes) = 0) as Hz0.
      { revert Hz. clear. induction (drop BOB_KEY_SIZE bytes) as [|b l IH]; [done|]. simpl.
        intros [Hb Hl]%andb_true_iff. apply Z.eqb_eq in Hb. rw IH // Hb. lia. }
      rw Hz0 in Happ. assert (from_le_bytes bytes = from_le_bytes (take BOB_KEY_SIZE bytes)) as -> by lia.
      rw (proj2 (Z.ltb_lt _ _)); [lia|]. f_equal. rw /vec_resize.
      replace (BOB_KEY_SIZE - length bytes)%nat with 0%nat by lia. rw app_nil_r.
      rw -{1}(to_from_le_bytes (take BOB_KEY_SIZE bytes)). rw length_take. by rw Nat.min_l; first lia.
    + assert (0 < from_le_bytes (drop BOB_KEY_SIZE bytes)) as Hpos.
      { revert Hz. clear. induction (drop BOB_KEY_SIZE bytes) as [|b l IH]; [done|]. simpl.
        pose proof (from_le_bytes_bounds l). assert (0 ≤ byte_val b) by (rw /byte_val; lia).
        intros [Hb|Hl]%andb_false_iff; [apply Z.eqb_neq in Hb; lia|]. specialize (IH Hl). lia. }
      rw (proj2 (Z.ltb_ge _ _)); [|done]. nia.
  - pose proof (from_le_bytes_bounds bytes) as Hb.
    assert (256 ^ Z.of_nat (length bytes) ≤ 256 ^ Z.of_nat BOB_KEY_SIZE) by (apply Z.pow_le_mono_r; lia).
    rw (proj2 (Z.ltb_lt _ _)); [lia|]. f_equal. rw /vec_resize take_ge; first lia.
    set zs := replicate _ _. assert (length (bytes ++ zs) = BOB_KEY_SIZE) as Hlen.
    { rw length_app length_replicate. lia. }
    rw -{1}(to_from_le_bytes (bytes ++ zs)) Hlen from_le_bytes_app /zs from_le_bytes_zeros. f_equal. lia.
Qed.

(** ** Parsing the three forms of keys *)

(** A character that is not a hexadecimal digit does not parse in any chunk. *)
Lemma hexdigit_value c : is_ascii_hexdigit c = true → ∃ d, to_digit16 c = Some d ∧ 0 ≤ d < 16.
Proof.
  rw /is_ascii_hexdigit. intros [d Hd]%bool_decide_eq_true. exists d. split; [done|]. revert Hd. rw /to_digit16.
  repeat case_match; intros [= <-]; lia.
Qed.

Lemma hexdigit_not_sign c : is_ascii_hexdigit c = true → c ≠ "+"%char ∧ c ≠ "-"%char.
Proof. intros Hc. split; intros ->; by vm_compute in Hc. Qed.

Lemma parse_hex2 a b : is_ascii_hexdigit a = true → is_ascii_hexdigit b = true →
  is_Some (u8_from_str_radix16 (String a (String b EmptyString))).
Proof.
  intros Ha Hb. destruct (hexdigit_value a Ha) as (x & Hx & ?), (hexdigit_value b Hb) as (y & Hy & ?).
  rw /u8_from_str_radix16 decide_False; [by apply hexdigit_not_sign|]. rw /radix16_digits Hx /=.
  rw (proj2 (Z.ltb_lt _ _)); [lia|]. rw Hy /= (proj2 (Z.ltb_lt _ _)); [lia|]. by eexists.
Qed.

Lemma parse_hex1 a : is_ascii_hexdigit a = true → is_Some (u8_from_str_radix16 (String a EmptyString)).
Proof.
  intros Ha. destruct (hexdigit_value a Ha) as (x & Hx & ?). destruct (hexdigit_not_sign a Ha).
  rw /u8_from_str_radix16 decide_False; [naive_solver|]. rw /radix16_digits Hx /= (proj2 (Z.ltb_lt _ _)); [lia|]. by eexists.
Qed.

Lemma all_chars_list p s : all_chars p s = true → Forall (λ c, p c = true) (Stdlib.Strings.String.list_ascii_of_string s).
Proof. induction s as [|c s IH]; simpl; [constructor|]. intros [? ?]%andb_true_iff. constructor; auto. Qed.

Lemma rchunks_parse l :
  Forall (λ c, is_ascii_hexdigit c = true) l →
  is_Some (mapM (λ c, u8_from_str_radix16 (Stdlib.Strings.String.string_of_list_ascii c)) (rchunks2_go l)).
Proof.
  remember (length l) as n eqn:Hn. revert l Hn. induction n as [n IH] using lt_wf_ind. intros [|b [|a l]] -> Hl.
  - by eexists.
  - apply Forall_inv in Hl. simpl. destruct (parse_hex1 b Hl) as [x ->]. by eexists.
  - inversion_clear Hl as [|? ? Hb Hl']. inversion_clear Hl' as [|? ? Ha Hl2]. simpl.
    destruct (parse_hex2 a b Ha Hb) as [x ->]. simpl.
    destruct (IH (length l) ltac:(simpl; lia) l eq_refl Hl2) as [ys Hys]. simpl in Hys. rw Hys. by eexists.
Qed.

(** Hexadecimal pairs. *)
Lemma rchunks2_pairs {A} (l : list (A * A)) :
  rchunks2_go (reverse (l ≫= λ p, [p.1; p.2])) = reverse ((λ p, [p.1; p.2]) <$> l).
Proof.
  induction l as [|p l IH] using rev_ind; [done|].
  rw bind_app fmap_app !reverse_app.
  change (reverse ([p] ≫= λ p, [p.1; p.2])) with [p.2; p.1].
  change (reverse ((λ p, [p.1; p.2]) <$> [p])) with [[p.1; p.2]]. simpl. by rw IH.
Qed.

Definition hex_pair (b : byte) : ascii * ascii := (hex_digit (byte_val b / 16), hex_digit (byte_val b mod 16)).

Lemma key_string_list bytes :
  Stdlib.Strings.String.list_ascii_of_string (BobKey_to_string bytes) = (hex_pair <$> bytes) ≫= λ p, [p.1; p.2].
Proof. induction bytes as [|b l IH]; [done|]. rw fmap_cons bind_cons -IH. done. Qed.

Lemma hex_pair_digits b : is_ascii_hexdigit (hex_pair b).1 = true ∧ is_ascii_hexdigit (hex_pair b).2 = true.
Proof. by destruct b. Qed.

Lemma key_string_hexdigits bytes : all_chars is_ascii_hexdigit (BobKey_to_string bytes) = true.
Proof.
  induction bytes as [|b l IH]; [done|]. simpl BobKey_to_string. change (String.append ?a ?b) with (a +:+ b).
  rw all_chars_app IH andb_true_r. by destruct b.
Qed.

Lemma mapM_app_some {A B} (f : A → option B) l k l' k' :
  mapM f l = Some l' → mapM f k = Some k' → mapM f (l ++ k) = Some (l' ++ k').
Proof. intros Hl%mapM_Some_1 Hk%mapM_Some_1. apply mapM_Some_2. by apply Forall2_app. Qed.

(** The bytes a key is printed as are read back in order. *)
Lemma from_hex_printed bytes : from_hex (BobKey_to_string bytes) = Some (from_bytes bytes).
Proof.
  rw /from_hex key_string_hexdigits /= /rchunks2 key_string_list rchunks2_pairs.
  assert (mapM (λ c, u8_from_str_radix16 (Stdlib.Strings.String.string_of_list_ascii c))
            (reverse ((λ p, [p.1; p.2]) <$> (hex_pair <$> bytes))) = Some (reverse (byte_val <$> bytes))) as ->.
  { induction bytes as [|b l IH]; [done|]. rw !fmap_cons !reverse_cons. apply mapM_app_some; [done|].
    pose proof (fmt_02X_parse b) as Hb. rw /fmt_02X in Hb. rw /= Hb. done. }
  simpl. do 2 f_equal. rw fmap_reverse reverse_involutive -list_fmap_compose.
  rw -{2}(list_fmap_id bytes). apply list_fmap_ext. intros i b _. simpl. apply byte_of_Z_val.
Qed.

Lemma digit_not c s : all_chars is_ascii_digit s = true → is_ascii_digit c = false → any_char (λ a, bool_decide (a = c)) s = false.
Proof.
  rw /any_char. intros Hs Hc. induction s as [|a s IH]; [done|]. simpl in Hs |- *.
  apply andb_true_iff in Hs as [Ha Hs]. specialize (IH Hs). apply negb_false_iff in IH. rw IH.
  rw bool_decide_false; [by intros ->; congruence|done].
Qed.

Lemma decimal_form `{UuidCrate} s :
  all_chars is_ascii_digit s = true → DataKey_from_str s = Some (from_decimal s).
Proof.
  intros Hs. rw /DataKey_from_str (digit_not "-"%char s Hs) // Hs.
  destruct s as [|a s]; [done|]. simpl in Hs. apply andb_true_iff in Hs as [Ha Hs].
  assert (starts_with_char "{" (String a s) = false) as ->.
  { simpl. apply bool_decide_eq_false. intros ->. done. }
  assert (String.prefix "0x" (String a s) = false) as ->; [|done].
  destruct s as [|b s]; cbn [String.prefix]; [by destruct (ascii_dec _ _)|].
  simpl in Hs. apply andb_true_iff in Hs as [Hb _].
  destruct (ascii_dec _ a); [|done]. by destruct (ascii_dec _ b) as [<-|].
Qed.

Lemma substring_all n s : (String.length s ≤ n)%nat → String.substring 0 n s = s.
Proof.
  revert n. induction s as [|c s IH]; intros [|n] Hn; simpl in *; [done|done|lia|]. f_equal. apply IH. lia.
Qed.

Lemma hex_form `{UuidCrate} s : all_chars is_ascii_hexdigit s = true → DataKey_from_str ("0x" +:+ s) = from_hex s.
Proof.
  intros Hs. rw /DataKey_from_str.
  assert (any_char (λ c, bool_decide (c = "-"%char)) ("0x" +:+ s) = false) as ->.
  { rw /any_char all_chars_app. apply negb_false_iff. simpl. induction s as [|c s IH]; [done|]. simpl in Hs |- *.
    apply andb_true_iff in Hs as [Hc Hs]. rw (IH Hs) bool_decide_false; [by intros ->|done]. }
  change (starts_with_char "{" ("0x" +:+ s)) with false. change (String.prefix "0x" ("0x" +:+ s)) with (String.prefix "" s).
  change (String.length ("0x" +:+ s) - 2)%nat with (String.length s - 0)%nat. rw Nat.sub_0_r.
  change (String.substring 2 (String.length s) ("0x" +:+ s)) with (String.substring 0 (String.length s) s).
  rw substring_all; [lia|]. by destruct s.
Qed.

(** The slice between the braces of a GUID is inside the string and on character bounds. *)
Lemma utf8_head b l : utf8_valid (b :: l) = true → ¬ (128 ≤ byte_val b < 192).
Proof.
  rw /utf8_valid -/utf8_valid /in_bytes. intros Hv Hb.
  destruct ((0 <=? byte_val b) && (byte_val b <=? 127)) eqn:H1; [lia|].
  destruct l as [|c1 l]; [done|]. destruct ((194 <=? byte_val b) && (byte_val b <=? 223)) eqn:H2; [lia|].
  destruct l as [|c2 l]; [done|]. destruct ((224 <=? byte_val b) && (byte_val b <=? 239)) eqn:H3; [lia|].
  destruct l as [|c3 l]; [done|]. assert (240 <=? byte_val b = false) as Hf by lia. by rw Hf in Hv.
Qed.

Lemma ends_with_last c s : ends_with_char c s = true → ∃ t, s = t +:+ String c EmptyString.
Proof.
  induction s as [|a s IH]; [done|]. destruct s as [|b s].
  - simpl. intros ->%bool_decide_eq_true. by exists EmptyString.
  - intros Hs. destruct IH as [t Ht]; [done|]. exists (String a t). by rw Ht.
Qed.

Lemma get_app_at t c : String.get (String.length t) (t +:+ String c EmptyString) = Some c.
Proof. by induction t. Qed.

Lemma length_app_1 t c : String.length (t +:+ String c EmptyString) = S (String.length t).
Proof. induction t as [|a t IH]; [done|]. by rw append_cons /= IH. Qed.

Lemma byte_of_ascii c : byte_val (default x00 (Byte.of_N (N_of_ascii c))) = byte_of_char c.
Proof. by destruct c as [[] [] [] [] [] [] [] []]. Qed.

Lemma brace_slice param :
  starts_with_char "{" param = true → ends_with_char "}" param = true →
  utf8_valid (bytes_of_string param) = true →
  is_Some (str_slice param 1 (String.length param - 1)).
Proof.
  intros Hs (t & ->)%ends_with_last Hv. destruct t as [|a t]; [done|]. rw append_cons /= in Hs.
  apply bool_decide_eq_true in Hs as ->. rw append_cons in Hv |- *. rw /str_slice /= length_app_1 /=.
  assert (is_char_boundary (String "{" (t +:+ String "}" EmptyString)) 1 = true) as ->.
  { rw /is_char_boundary. destruct t as [|b t]; [done|]. rw append_cons in Hv |- *. simpl.
    change (bytes_of_string (String "{" (String b (t +:+ String "}" EmptyString)))) with
      (x7b :: default x00 (Byte.of_N (N_of_ascii b)) :: bytes_of_string (t +:+ String "}" EmptyString)) in Hv.
    change (utf8_valid (x7b :: ?l)) with (utf8_valid l) in Hv. apply utf8_head in Hv. rw byte_of_ascii in Hv.
    apply negb_true_iff, andb_false_iff. destruct (Z.leb_spec 128 (byte_of_char b)); [|by left].
    right. lia. }
  assert (is_char_boundary (String "{" (t +:+ String "}" EmptyString)) (S (String.length t)) = true) as ->.
  { rw /is_char_boundary /= get_app_at. by rw orb_true_r. }
  rw (proj2 (Nat.leb_le (String.length t) (S (String.length t))) ltac:(lia)). by eexists.
Qed.

(** A key of the right size, or a bad request. *)
Definition key_or_bad (r : result BobKey StatusExt) : Prop :=
  match r with Ok k => key_wf k | Err e => se_status e = 400 ∧ se_ok e = false end.

Lemma from_bytes_result bytes : key_or_bad (from_bytes bytes).
Proof. rw from_bytes_spec. case_match; [apply length_to_le_bytes|done]. Qed.

Lemma from_decimal_result s : key_or_bad (from_decimal s).
Proof. rw /from_decimal. destruct (parse_int _ _); [apply from_bytes_result|done]. Qed.

Lemma from_guid_result `{UuidCrate} s : key_or_bad (from_guid s).
Proof. rw /from_guid. destruct (uuid_parse s); [apply from_bytes_result|done]. Qed.

Lemma from_hex_result s : ∃ r, from_hex s = Some r ∧ key_or_bad r.
Proof.
  rw /from_hex. destruct (all_chars is_ascii_hexdigit s) eqn:Hall; simpl; [|by eexists].
  apply all_chars_list in Hall. rw /rchunks2.
  destruct (rchunks_parse (reverse (Stdlib.Strings.String.list_ascii_of_string s))) as [ys Hys].
  { by apply Forall_reverse. }
  rw Hys /=. eexists. split; [done|]. apply from_bytes_result.
Qed.

Lemma fmt_dec_digits fuel n s :
  0 ≤ n → all_chars is_ascii_digit s = true → all_chars is_ascii_digit (dec_go fuel n s) = true.
Proof.
  assert (∀ d, 0 ≤ d < 10 → is_ascii_digit (dec_digit d) = true) as Hd.
  { intros d Hd. rw /is_ascii_digit bool_decide_eq_true dec_digit_value //. }
  revert n s. induction fuel as [|fuel IH]; intros n s Hn Hs; simpl; [done|].
  pose proof (Z.mod_pos_bound n 10 ltac:(lia)). destruct (Z.ltb_spec n 10); simpl.
  - by rw Hd.
  - apply IH; [apply Z.div_pos; lia|]. rw /= Hd //.
Qed.

(** A key in a path of the REST server: parsing it never aborts, and gives a key of the
    right size or a bad request.  A decimal number is the little-endian key of its value
    when it fits and an overflow otherwise; "0x" before the text of a key reads back the
    key. *)
Theorem data_key_spec `{UuidCrate} :
  (∀ param, utf8_valid (bytes_of_string param) = true →
     ∃ r, DataKey_from_str param = Some r ∧
       match r with Ok k => key_wf k | Err e => se_status e = 400 ∧ se_ok e = false end) ∧
  (∀ n, 0 ≤ n < 10 ^ 20 →
     DataKey_from_str (fmt_dec n) =
       Some (if n <? 256 ^ Z.of_nat BOB_KEY_SIZE then Ok (to_le_bytes BOB_KEY_SIZE n) else Err (bad_request "Key overflow"))) ∧
  (∀ k, key_wf k → DataKey_from_str ("0x" +:+ BobKey_to_string k) = Some (Ok k)).
Proof.
  split_and!.
  - intros param Hv. rw /DataKey_from_str. destruct (starts_with_char "{" param && ends_with_char "}" param) eqn:Hb.
    { apply andb_true_iff in Hb as [Hs He]. destruct (brace_slice param Hs He Hv) as [guid ->]. eexists.
      split; [done|]. apply from_guid_result. }
    case_match; [eexists; split; [done|apply from_guid_result]|].
    case_match; [apply from_hex_result|].
    case_match; [eexists; split; [done|apply from_decimal_result]|by eexists].
  - intros n Hn. rw decimal_form; [apply fmt_dec_digits; [lia|done]|]. f_equal.
    rw /from_decimal /parse_int parse_fmt_dec_lt; [lia|lia|].
    cbn [ok_or result_bind result_map_err]. rw from_bytes_spec from_to_le_bytes Z.mod_small; [lia|done].
  - intros k Hk. rw hex_form; [apply key_string_hexdigits|]. rw from_hex_printed /from_bytes Hk Nat.ltb_irrefl /=.
    rw /vec_resize -Hk firstn_all Nat.sub_diag app_nil_r. done.
Qed.
End lemmas.

(** A crate that reads the hyphenated and the simple forms, for the examples: the digits are
    the bytes of the GUID, most significant first. *)
Definition uuid_digits (s : string) : list ascii :=
  filter (λ c, c ≠ "-"%char) (Stdlib.Strings.String.list_ascii_of_string s).

Definition uuid_read (s : string) : result (list byte) string :=
  if (length (uuid_digits s) =? 32)%nat && forallb is_ascii_hexdigit (uuid_digits s)
  then Ok (reverse (to_le_bytes 16 (foldl (λ n c, 16 * n + default 0 (to_digit16 c)) 0 (uuid_digits s))))
  else Err "invalid".

Lemma uuid_read_length s bytes : uuid_read s = Ok bytes → length bytes = 16%nat.
Proof.
  rw /uuid_read. case_match; [|done]. set v := to_le_bytes _ _.
  assert (length v = 16%nat) as Hv by apply length_to_le_bytes. clearbody v. intros [= <-]. by rw length_reverse.
Qed.

#[local] Instance uuid_example : UuidCrate := {| uuid_parse := uuid_read; uuid_length := uuid_read_length |}.

Example data_key_forms :
  let sz : KeySize := 2%nat in
  DataKey_from_str "258" = Some (Ok [x02; x01]) ∧
  DataKey_from_str "0x0102" = Some (Ok [x01; x02]) ∧
  DataKey_from_str "0x102" = Some (Ok [x01; x02]) ∧
  DataKey_from_str "65536" = Some (Err (bad_request "Key overflow")) ∧
  DataKey_from_str "" = Some (Err (bad_request "Decimal parse error: cannot parse integer from empty string")) ∧
  DataKey_from_str "{0a0b0000-0000-0000-0000-000000000000}" = Some (Ok [x0a; x0b]) ∧
  DataKey_from_str "0a0b0000-0000-0000-0000-000000000001" = Some (Err (bad_request "Key overflow")) ∧
  DataKey_from_str "key" = Some (Err (bad_request "Invalid key format")).
Proof. by vm_compute. Qed.

Lemma data_key_spec_witness :
  let sz : KeySize := 2%nat in
  DataKey_from_str (fmt_dec 258) = Some (Ok [x02; x01]) ∧ DataKey_from_str "0x0201" = Some (Ok [x02; x01]).
Proof.
  intros sz. split.
  - exact (proj1 (proj2 data_key_spec) 258 ltac:(lia)).
  - exact (proj2 (proj2 data_key_spec) [x02; x01] eq_refl).
Defined.
