(* ===== verification/Rest.v ===== *)
(** * Rest: the data requests of the REST server

    [bob/src/api/mod.rs]: responses, credentials and the four requests on [/data/:key]; and
    [bob/src/api/s3.rs].  The authenticator, the clock and the crates [http], [infer] and
    [chrono] are classes; the requests on disks and partitions are the file [RestAdmin]. *)

From Corelib Require Import ssreflect.
From stdpp Require Import base option list strings gmap sets numbers.
From Stdlib Require Import Strings.Byte ZArith Lia.
From S2P Require Import Prelude Data Text Errors Options Node ClusterConfig NodeConfig Mapper Backend Network Operations Quorum SimpleQuorum Access Server RestKey.

(** ** Crates and environment *)

(** [StatusCode::canonical_reason]; [infer::get] with [mime_type]; whether a string is a
    [HeaderValue]; [DateTime::parse_from_rfc2822] with [timestamp]. *)
Class HttpCrates := {
  canonical_reason : Z → option string;
  infer_mime : list byte → option string;
  header_value_ok : string → bool;
  parse_rfc2822 : string → option Z;
}.

(** The part of [Authenticator] the REST server uses, and [Utc::now().timestamp()]. *)
Class RestAuthenticator := {
  rest_credentials_type : AuthenticationType;
  check_rest : RequestCredentials → result Permissions AccessError;
}.
Class RestClock (W : Type) := utc_now : M W Z.

Definition Basic_rest `{AccessCrates} (b : Basic) : RestAuthenticator :=
  {| rest_credentials_type := AuthBasic; check_rest := check_credentials_rest b |}.
Definition Stub_rest : RestAuthenticator :=
  {| rest_credentials_type := AuthNone; check_rest := Stub_check_credentials |}.

(** ** Responses *)

Record Response : Type := {
  rs_status : Z;
  rs_headers : list (string * string);
  rs_body : list byte;
}.

Definition rest_internal (message : string) : StatusExt := StatusExt_new 500 false message.

Definition StatusExt_from_AuthError (error : AccessError) : StatusExt :=
  {| se_status := ae_status_code error; se_ok := false; se_msg := ae_msg error |}.

Definition StatusExt_from_StatusCode `{HttpCrates} (status : Z) : StatusExt :=
  {| se_status := status; se_ok := true; se_msg := default "Unknown" (canonical_reason status) |}.

(** An error of [std::io]: whether its kind is [NotFound], and its text. *)
Definition StatusExt_from_IoError (not_found : bool) (text : string) : StatusExt :=
  {| se_status := if not_found then 404 else 400; se_ok := false; se_msg := text |}.

Definition BobError_status (kind : Kind) : Z :=
  match kind with
  | DuplicateKey => 409
  | Internal => 500
  | VDiskIsNotReady => 500
  | KeyNotFound _ => 404
  | HolderTemporaryUnavailable => 503
  | _ => 400
  end.

Definition StatusExt_from_BobError (err : Error) : StatusExt :=
  {| se_status := BobError_status (ctx err); se_ok := false; se_msg := Error_display err |}.

Definition fmt_bool (b : bool) : string := if b then "true" else "false".

(** The message is not escaped. *)
Definition StatusExt_into_response (s : StatusExt) : Response :=
  let msg := "{ " +:+ quote +:+ "ok" +:+ quote +:+ ": " +:+ fmt_bool (se_ok s) +:+ ", "
             +:+ quote +:+ "msg" +:+ quote +:+ ": " +:+ quote +:+ se_msg s +:+ quote +:+ " }" in
  {| rs_status := se_status s; rs_headers := []; rs_body := bytes_of_string msg |}.

Definition AccessError_into_response (e : AccessError) : Response :=
  let body := "{" +:+ quote +:+ "error" +:+ quote +:+ ":" +:+ quote +:+ ae_msg e +:+ quote +:+ "}" in
  {| rs_status := ae_status_code e; rs_headers := [("content-type", "application/json")];
     rs_body := bytes_of_string body |}.

(** ** Access *)

(** What ends a request: the extractor of the credentials answers with the [AuthError]
    itself, a handler with its own type. *)
Inductive RestError : Type :=
| ByAuth (e : AccessError)
| ByStatus (s : StatusExt).

Definition rest_status (e : RestError) : Z :=
  match e with ByAuth e => ae_status_code e | ByStatus s => se_status s end.

Definition RestError_into_response (e : RestError) : Response :=
  match e with ByAuth e => AccessError_into_response e | ByStatus s => StatusExt_into_response s end.

Section access.
Context `{RestAuthenticator, AccessCrates} (utf8_error : list byte → string).

(** [CredentialsHolder::from_request]: a request whose credentials cannot be read is
    rejected before its handler runs. *)
Definition credentials_from_request (req : AccessRequest) : result RequestCredentials AccessError :=
  extract utf8_error rest_credentials_type req.

Definition rest_allowed (allowed : Permissions → bool) (creds : RequestCredentials) : result unit AccessError :=
  p <-? check_rest creds;
  if allowed p then Ok tt else Err AE_PermissionDenied.

(** A handler behind the extractor, then behind its check of the permission.  [wrap] is the
    error type of the handler. *)
Definition guarded {W A} (wrap : AccessError → RestError) (allowed : Permissions → bool) (req : AccessRequest)
    (handler : M W (result A RestError)) : M W (result A RestError) :=
  match credentials_from_request req with
  | Err e => mret (Err (ByAuth e))
  | Ok creds =>
      match rest_allowed allowed creds with
      | Err e => mret (Err (wrap e))
      | Ok _ => handler
      end
  end.
End access.

Definition by_status_ext (e : AccessError) : RestError := ByStatus (StatusExt_from_AuthError e).

(** The [?] of a handler. *)
Definition or_status {W A B} (r : result A StatusExt) (k : A → M W (result B RestError)) : M W (result B RestError) :=
  match r with Ok a => k a | Err s => mret (Err (ByStatus s)) end.

(** ** The requests on [/data/:key] *)

Section data.
Context {key_size : KeySize} {W : Type} `{BackendStorage W, ClusterOps W, Notified W, !HashOrder}.
Context `{HttpCrates, RestAuthenticator, AccessCrates, UuidCrate, RestClock W}.
Context (mapper : Virtual) (utf8_error : list byte → string).

(** [DataKey::from_str(&key)?.0] *)
Definition data_key {B} (param : string) (k : BobKey → M W (result B RestError)) : M W (result B RestError) :=
  key ← expect (DataKey_from_str param);
  or_status key k.

(** [i64 as u64] *)
Definition timestamp_now : M W Z := now ← utc_now; mret (wrap64 now).

Definition infer_data_type (data : BobData) : string := default "*/*" (infer_mime (inner data)).

(** The content type and the body. *)
Definition get_data (req : AccessRequest) (param : string) : M W (result (string * list byte) RestError) :=
  guarded utf8_error by_status_ext has_read req
    (data_key param (λ key,
       opts ← expect (BobGetOptions_from_grpc None);
       result ← Grinder_get mapper key opts;
       or_status (result_map_err StatusExt_from_BobError result) (λ data,
         let content_type := infer_data_type data in
         if header_value_ok content_type then mret (Ok (content_type, inner data)) else panic))).

Definition exist_data (req : AccessRequest) (param : string) : M W (result Z RestError) :=
  guarded utf8_error by_status_ext has_read req
    (data_key param (λ key,
       opts ← expect (BobGetOptions_from_grpc None);
       result ← Grinder_exist mapper [key] opts;
       or_status (result_map_err StatusExt_from_BobError result) (λ result,
         mret (match head result with
               | Some true => Ok 200
               | Some false => Ok 404
               | None => Err (ByStatus (StatusExt_new 500 false "Missing 'exist' result"))
               end)))).

(** A put may leave a task to the runtime, with either result. *)
Definition task_of {A E} (r : result (result A E * option (M W unit)) E) : result A E * option (M W unit) :=
  match r with Ok x => x | Err e => (Err e, None) end.

Definition put_data (req : AccessRequest) (param : string) (body : list byte)
    : M W (result StatusExt RestError * option (M W unit)) :=
  r ← guarded utf8_error by_status_ext has_write req
    (data_key param (λ key,
       now ← timestamp_now;
       let data := {| inner := body; meta := {| timestamp := now |} |} in
       res ← Grinder_put mapper key data (BobPutOptions_from_grpc None);
       mret (Ok (match res.1 with
                 | Ok _ => Ok (StatusExt_from_StatusCode 201)
                 | Err e => Err (ByStatus (StatusExt_from_BobError e))
                 end, res.2))));
  mret (task_of r).

Definition delete_data (req : AccessRequest) (param : string) : M W (result StatusExt RestError) :=
  guarded utf8_error by_status_ext has_write req
    (data_key param (λ key,
       now ← timestamp_now;
       res ← Grinder_delete mapper key {| timestamp := now |} (BobDeleteOptions_from_grpc None);
       mret (match res with
             | Ok _ => Ok (StatusExt_new 200 true "Done")
             | Err e => Err (ByStatus (rest_internal (Error_display e)))
             end))).

(** ** [s3.rs] *)

Inductive StatusS3 : Type :=
| S3StatusExt (s : StatusExt)
| S3Status (status : Z).

Definition StatusS3_from_Error (e : Error) : StatusS3 := S3StatusExt (StatusExt_from_BobError e).
Definition StatusS3_from_AuthError (e : AccessError) : StatusS3 := S3StatusExt (StatusExt_from_AuthError e).

Definition s3_status (s : StatusS3) : Z := match s with S3StatusExt s => se_status s | S3Status status => status end.

Definition StatusS3_into_response (s : StatusS3) : Response :=
  {| rs_status := s3_status s; rs_headers := []; rs_body := [] |}.

(** A header as a time: a header that is not visible ASCII aborts, one that is not a date
    is no header, and so is a time before 1970. *)
Definition header_time (req : AccessRequest) (name : string) : option (option Z) :=
  match ar_header req name with
  | None => Some None
  | Some (Err _) => None
  | Some (Ok s) => Some (x ← parse_rfc2822 s; if x <? 0 then None else Some x)
  end.

Record GetObjectHeaders : Type := {
  goh_content_type : option string;
  goh_if_modified_since : option Z;
  goh_if_unmodified_since : option Z;
}.

Definition GetObjectHeaders_from_request (req : AccessRequest) : option GetObjectHeaders :=
  let content_type := match ar_header req "response-content-type" with Some (Ok s) => Some s | _ => None end in
  if_modified_since ← header_time req "If-Modified-Since";
  if_unmodified_since ← header_time req "If-Unmodified-Since";
  Some {| goh_content_type := content_type; goh_if_modified_since := if_modified_since;
          goh_if_unmodified_since := if_unmodified_since |}.

Record GetObjectOutput : Type := { goo_data : BobData; goo_content_type : string }.

(** [None]: the [expect] on the header. *)
Definition GetObjectOutput_into_response (o : GetObjectOutput) : option Response :=
  if header_value_ok (goo_content_type o)
  then Some {| rs_status := 200;
               rs_headers := [("Content-Type", goo_content_type o);
                              ("Last-Modified", fmt_dec (timestamp (meta (goo_data o))))];
               rs_body := inner (goo_data o) |}
  else None.

(** The conditions of a request on the time of the data. *)
Definition check_conditions (if_modified_since if_unmodified_since : option Z) (last_modified : Z) : result unit StatusS3 :=
  match if_modified_since with
  | Some time => if last_modified <? time then Err (S3Status 304) else Ok tt
  | None => Ok tt
  end ;?
  match if_unmodified_since with
  | Some time => if time <? last_modified then Err (S3Status 412) else Ok tt
  | None => Ok tt
  end.

(** The error is the rejection of the extractor or the [StatusS3] of the handler. *)
Definition guarded_s3 {A} (allowed : Permissions → bool) (req : AccessRequest)
    (handler : M W (result A (AccessError + StatusS3))) : M W (result A (AccessError + StatusS3)) :=
  match credentials_from_request utf8_error req with
  | Err e => mret (Err (inl e))
  | Ok creds =>
      match rest_allowed allowed creds with
      | Err e => mret (Err (inr (StatusS3_from_AuthError e)))
      | Ok _ => handler
      end
  end.

Definition or_s3 {A B} (r : result A StatusS3) (k : A → M W (result B (AccessError + StatusS3)))
    : M W (result B (AccessError + StatusS3)) :=
  match r with Ok a => k a | Err s => mret (Err (inr s)) end.

Definition get_object (req : AccessRequest) (param : string) : M W (result GetObjectOutput (AccessError + StatusS3)) :=
  headers ← expect (GetObjectHeaders_from_request req);
  guarded_s3 has_read req
    (key ← expect (DataKey_from_str param);
     or_s3 (result_map_err S3StatusExt key) (λ key,
       opts ← expect (BobGetOptions_from_grpc None);
       data ← Grinder_get mapper key opts;
       or_s3 (result_map_err StatusS3_from_Error data) (λ data,
         let content_type := default (infer_data_type data) (goh_content_type headers) in
         let last_modified := timestamp (meta data) in
         or_s3 (check_conditions (goh_if_modified_since headers) (goh_if_unmodified_since headers) last_modified) (λ _,
           mret (Ok {| goo_data := data; goo_content_type := content_type |}))))).

Record CopyObjectHeaders : Type := {
  coh_if_modified_since : option Z;
  coh_if_unmodified_since : option Z;
  coh_source_key : option BobKey;
}.

Definition is_source_key_set (h : CopyObjectHeaders) : bool := bool_decide (is_Some (coh_source_key h)).

(** A source key that does not parse is no source key. *)
Definition CopyObjectHeaders_from_request (req : AccessRequest) : option CopyObjectHeaders :=
  source_key ← match ar_header req "x-amz-copy-source" with
               | Some (Ok key) => key ← DataKey_from_str key; Some (match key with Ok k => Some k | Err _ => None end)
               | _ => Some None
               end;
  if_modified_since ← header_time req "If-Modified-Since";
  if_unmodified_since ← header_time req "If-Unmodified-Since";
  Some {| coh_if_modified_since := if_modified_since; coh_if_unmodified_since := if_unmodified_since;
          coh_source_key := source_key |}.

Definition put_s3 (key : BobKey) (data : BobData) (status : Z)
    : M W (result (result StatusS3 (AccessError + StatusS3) * option (M W unit)) (AccessError + StatusS3)) :=
  res ← Grinder_put mapper key data (BobPutOptions_from_grpc None);
  mret (Ok (match res.1 with
            | Ok _ => Ok (S3StatusExt (StatusExt_from_StatusCode status))
            | Err e => Err (inr (StatusS3_from_Error e))
            end, res.2)).

Definition copy_object (key : BobKey) (headers : CopyObjectHeaders)
    : M W (result (result StatusS3 (AccessError + StatusS3) * option (M W unit)) (AccessError + StatusS3)) :=
  opts ← expect (BobGetOptions_from_grpc None);
  data ← Grinder_get mapper key opts;
  or_s3 (result_map_err StatusS3_from_Error data) (λ data,
    let last_modified := timestamp (meta data) in
    or_s3 (check_conditions (coh_if_modified_since headers) (coh_if_unmodified_since headers) last_modified) (λ _,
      now ← timestamp_now;
      put_s3 key {| inner := inner data; meta := {| timestamp := now |} |} 200)).

Definition put_object (req : AccessRequest) (param : string) (body : list byte)
    : M W (result StatusS3 (AccessError + StatusS3) * option (M W unit)) :=
  headers ← expect (CopyObjectHeaders_from_request req);
  r ← guarded_s3 has_write req
    (key ← expect (DataKey_from_str param);
     or_s3 (result_map_err S3StatusExt key) (λ key,
       if is_source_key_set headers then copy_object key headers
       else
         now ← timestamp_now;
         put_s3 key {| inner := body; meta := {| timestamp := now |} |} 201));
  mret (task_of r).
End data.

(** ** Lemmas *)

Section access_lemmas.
Context `{RestAuthenticator, AccessCrates} (utf8_error : list byte → string).

(** The credentials of the request do not give a permission that is allowed. *)
Definition refused (allowed : Permissions → bool) (req : AccessRequest) : Prop :=
  ∀ creds p, credentials_from_request utf8_error req = Ok creds → check_rest creds = Ok p → allowed p = false.

Definition granted (allowed : Permissions → bool) (req : AccessRequest) : Prop :=
  ∃ creds p, credentials_from_request utf8_error req = Ok creds ∧ check_rest creds = Ok p ∧ allowed p = true.

Definition refusal_statuses : list Z := [400; 401; 403; 500].

Lemma ae_refusal e : ae_status_code e ∈ refusal_statuses.
Proof. apply (bool_decide_unpack _). by destruct e. Qed.

(** Who refuses a request and with which error: the extractor ([true]) when the credentials
    cannot be read, else the handler, with the error of the authenticator or, for a sender
    that is known, with [PermissionDenied]. *)
Inductive refused_by (allowed : Permissions → bool) (req : AccessRequest) : bool → AccessError → Prop :=
| refused_unreadable e : credentials_from_request utf8_error req = Err e → refused_by allowed req true e
| refused_unknown creds e :
    credentials_from_request utf8_error req = Ok creds → check_rest creds = Err e → refused_by allowed req false e
| refused_denied creds p :
    credentials_from_request utf8_error req = Ok creds → check_rest creds = Ok p → allowed p = false →
    refused_by allowed req false AE_PermissionDenied.

Lemma refused_refused_by allowed req : refused allowed req → ∃ extractor e, refused_by allowed req extractor e.
Proof.
  intros Hr. destruct (credentials_from_request utf8_error req) as [creds|e] eqn:Hc; [|by exists true, e; constructor].
  destruct (check_rest creds) as [p|e] eqn:Hp; [|by exists false, e; econstructor].
  exists false, AE_PermissionDenied. by apply (refused_denied allowed req creds p Hc Hp), (Hr creds).
Qed.

Lemma guarded_refused_by {W A} wrap allowed req extractor e (handler : M W (result A RestError)) w :
  refused_by allowed req extractor e →
  guarded utf8_error wrap allowed req handler w = Some (Err (if extractor then ByAuth e else wrap e), w).
Proof.
  rw /guarded. by intros [e' ->|creds e' -> Hp|creds p -> Hp Ha]; [|rw /rest_allowed Hp|rw /rest_allowed Hp /= Ha].
Qed.

Lemma guarded_refused wrap allowed req :
  (∀ e, rest_status (wrap e) = ae_status_code e) → refused allowed req →
  ∃ e, rest_status e ∈ refusal_statuses ∧
    ∀ W A (handler : M W (result A RestError)) w, guarded utf8_error wrap allowed req handler w = Some (Err e, w).
Proof.
  intros Hwrap (x & e & He)%refused_refused_by. exists (if x then ByAuth e else wrap e). split.
  - destruct x; [|rw Hwrap]; apply (ae_refusal e).
  - intros. by apply guarded_refused_by.
Qed.

Lemma guarded_granted {W A} wrap allowed req (handler : M W (result A RestError)) w :
  granted allowed req → guarded utf8_error wrap allowed req handler w = handler w.
Proof. intros (creds & p & Hc & Hp & Ha). by rw /guarded Hc /rest_allowed Hp /= Ha. Qed.

Lemma guarded_s3_refused_by {W A} allowed req extractor e (handler : M W (result A (AccessError + StatusS3))) w :
  refused_by allowed req extractor e →
  guarded_s3 utf8_error allowed req handler w =
    Some (Err (if extractor then inl e else inr (StatusS3_from_AuthError e)), w).
Proof.
  rw /guarded_s3. by intros [e' ->|creds e' -> Hp|creds p -> Hp Ha]; [|rw /rest_allowed Hp|rw /rest_allowed Hp /= Ha].
Qed.

Lemma guarded_s3_granted {W A} allowed req (handler : M W (result A (AccessError + StatusS3))) w :
  granted allowed req → guarded_s3 utf8_error allowed req handler w = handler w.
Proof. intros (creds & p & Hc & Hp & Ha). by rw /guarded_s3 Hc /rest_allowed Hp /= Ha. Qed.
End access_lemmas.

Section data_lemmas.
Context {key_size : KeySize} {W : Type} `{BackendStorage W, ClusterOps W, Notified W, !HashOrder}.
Context `{HttpCrates, RestAuthenticator, AccessCrates, UuidCrate, RestClock W}.
Context (mapper : Virtual) (err : list byte → string) (req : AccessRequest).

Lemma data_key_run {B} param k (f : BobKey → M W (result B RestError)) w :
  DataKey_from_str param = Some (Ok k) → data_key param f w = f k w.
Proof using Type. intros Hk. by rw /data_key Hk. Qed.

Lemma timestamp_now_run {B} (f : Z → M W B) w now w1 :
  utc_now w = Some (now, w1) → (timestamp_now ≫= f) w = f (wrap64 now) w1.
Proof using Type. intros Hn. apply bind_run. by rw /timestamp_now (bind_run _ _ _ _ _ Hn). Qed.

Definition put_status (r : result unit Error) : result StatusExt RestError :=
  match r with Ok _ => Ok (StatusExt_from_StatusCode 201) | Err e => Err (ByStatus (StatusExt_from_BobError e)) end.

Lemma put_data_run param body k w now w1 :
  granted err has_write req → DataKey_from_str param = Some (Ok k) → utc_now w = Some (now, w1) →
  put_data mapper err req param body w =
  (r ← Grinder_put mapper k {| inner := body; meta := {| timestamp := wrap64 now |} |} (BobPutOptions_from_grpc None);
   mret (put_status r.1, r.2)) w1.
Proof using Type.
  intros Hg Hk Hn. rw /put_data. erewrite bind_cong; last first.
  { rw (guarded_granted err _ _ _ _ _ Hg) (data_key_run _ _ _ _ Hk) (timestamp_now_run _ _ _ _ Hn). reflexivity. }
  rw bind_assoc_run. apply bind_ext. by intros [[] bg] w2 _.
Qed.

Lemma delete_data_run param k w now w1 :
  granted err has_write req → DataKey_from_str param = Some (Ok k) → utc_now w = Some (now, w1) →
  delete_data mapper err req param w =
  (r ← Grinder_delete mapper k {| timestamp := wrap64 now |} (BobDeleteOptions_from_grpc None);
   mret (match r with
         | Ok _ => Ok (StatusExt_new 200 true "Done")
         | Err e => Err (ByStatus (rest_internal (Error_display e)))
         end)) w1.
Proof using Type.
  intros Hg Hk Hn. rw /delete_data (guarded_granted err _ _ _ _ _ Hg) (data_key_run _ _ _ _ Hk).
  by rw (timestamp_now_run _ _ _ _ Hn).
Qed.

(** The options of a request of the REST server: every copy of the data may answer. *)
Lemma rest_get_options : ∃ o, BobGetOptions_from_grpc None = Some o ∧ bgo_force_node o = false.
Proof using Type. by eexists. Qed.
End data_lemmas.

(** ** Theorems *)

Section theorems.
Context {key_size : KeySize} {W : Type} `{BackendStorage W, ClusterOps W, Notified W, !HashOrder}.
Context `{HttpCrates, RestAuthenticator, AccessCrates, UuidCrate, RestClock W}.
Context (mapper : Virtual) (err : list byte → string) (req : AccessRequest).


(** The copy of S3 copies nothing: whatever object the header names, [put_object] reads
    the data under the key of the request itself and writes it back under that key with
    the current time.  The body is not used either. *)
Theorem s3_copy_rewrites_itself param body headers k now d w w1 w2 :
  granted err has_write req → CopyObjectHeaders_from_request req = Some headers → is_source_key_set headers = true →
  DataKey_from_str param = Some (Ok k) →
  cluster_get k w = Some (Ok d, w1) →
  check_conditions (coh_if_modified_since headers) (coh_if_unmodified_since headers) (timestamp (meta d)) = Ok tt →
  utc_now w1 = Some (now, w2) →
  put_object mapper err req param body w =
  (r ← cluster_put k {| inner := inner d; meta := {| timestamp := wrap64 now |} |};
   mret (match r.1 with
         | Ok _ => Ok (S3StatusExt (StatusExt_from_StatusCode 200))
         | Err e => Err (inr (StatusS3_from_Error e))
         end, r.2)) w2.
Proof.
  intros Hg Hh Hs Hk Hd Hc Hn. rw /put_object (bind_run _ _ w headers w); [by rw /expect Hh|].
  erewrite bind_cong; last first.
  { rw (guarded_s3_granted err _ _ _ _ Hg) (bind_run _ _ w (Ok k) w); [by rw /expect Hk|]. cbn [or_s3 result_map_err].
    rw Hs /copy_object. rw (bind_run _ _ w {| bgo_force_node := false; bgo_get_source := SourceAll |} w); [done|].
    rw /Grinder_get. cbn [bgo_force_node]. rw (bind_run _ _ _ _ _ Hd). cbn [or_s3 result_map_err]. rw Hc. cbn [or_s3].
    rw (timestamp_now_run _ _ _ _ Hn). reflexivity. }
  rw /put_s3 /Grinder_put bind_assoc_run. apply bind_ext. by intros [[] bg] w3 _.
Qed.

(** With the permissions, a REST request makes the call of the grinder that the gRPC
    request with the same key and default options makes. *)
Theorem rest_requests_are_grpc `{Authenticator W} metadata param k now w w1 p :
  key_wf k → DataKey_from_str param = Some (Ok k) → utc_now w = Some (now, w1) →
  (∀ w, check_grpc (CredentialsHolder_from err credentials_type metadata) w = Some (Ok p, w)) →
  has_read p = true → has_write p = true → granted err has_read req → granted err has_write req →
  let gets := BobGetOptions_to_grpc {| bgo_force_node := false; bgo_get_source := SourceAll |} in
  let m := {| timestamp := wrap64 now |} in
  (∀ body, let d := {| inner := body; meta := m |} in
     let call := Grinder_put mapper k d (BobPutOptions_from_grpc None) in
     put_data mapper err req param body w = (r ← call; mret (put_status r.1, r.2)) w1 ∧
     Server_put mapper err metadata (put_message k d (BobPutOptions_to_grpc (BobPutOptions_from_grpc None))) w1 =
       (r ← call; mret (result_map_err Status_from_Error r.1, r.2)) w1) ∧
  (let call := Grinder_delete mapper k m (BobDeleteOptions_from_grpc None) in
     delete_data mapper err req param w =
       (r ← call; mret (match r with Ok _ => Ok (StatusExt_new 200 true "Done")
                        | Err e => Err (ByStatus (rest_internal (Error_display e))) end)) w1 ∧
     Server_delete mapper err metadata (delete_message k m (BobDeleteOptions_to_grpc (BobDeleteOptions_from_grpc None))) w1 =
       (r ← call; mret (result_map_err Status_from_Error r)) w1) ∧
  (let call := Grinder_get mapper k {| bgo_force_node := false; bgo_get_source := SourceAll |} in
     (∀ d w', call w = Some (Ok d, w') → header_value_ok (infer_data_type d) = true →
        get_data mapper err req param w = Some (Ok (infer_data_type d, inner d), w')) ∧
     (∀ e w', call w = Some (Err e, w') →
        get_data mapper err req param w = Some (Err (ByStatus (StatusExt_from_BobError e)), w')) ∧
     Server_get mapper err metadata (get_message k gets) w =
       (r ← call; mret (match r with
          | Ok d => Ok {| blob_data := inner d; blob_meta := Some (timestamp (meta d)) |}
          | Err e => Err (Status_from_Error e) end)) w) ∧
  (let call := Grinder_exist mapper [k] {| bgo_force_node := false; bgo_get_source := SourceAll |} in
     (∀ b l w', call w = Some (Ok (b :: l), w') →
        exist_data mapper err req param w = Some (Ok (if (b : bool) then 200 else 404), w')) ∧
     (∀ e w', call w = Some (Err e, w') →
        exist_data mapper err req param w = Some (Err (ByStatus (StatusExt_from_BobError e)), w')) ∧
     Server_exist mapper err metadata (exist_message [k] gets) w =
       (r ← call; mret (result_map_err Status_from_Error r)) w).
Proof.
  intros Hwf Hk Hn Hc Hpr Hpw Hr Hw gets m. split; [|split; [|split]].
  - intros body d call. split; [by apply put_data_run|by apply (Server_put_message mapper err metadata w1 w1 p)].
  - intros call. split; [by apply delete_data_run|by apply (Server_delete_message mapper err metadata w1 w1 p)].
  - intros call. split; [|split; [|by apply (Server_get_message mapper err metadata w w p)]].
    + intros d w' Hd Hv. rw /get_data (guarded_granted err _ _ _ _ _ Hr) (data_key_run _ _ _ _ Hk).
      rw (bind_run _ _ w {| bgo_force_node := false; bgo_get_source := SourceAll |} w) // (bind_run _ _ _ _ _ Hd).
      cbn [or_status result_map_err]. by rw Hv.
    + intros e w' Hd. rw /get_data (guarded_granted err _ _ _ _ _ Hr) (data_key_run _ _ _ _ Hk).
      by rw (bind_run _ _ w {| bgo_force_node := false; bgo_get_source := SourceAll |} w) // (bind_run _ _ _ _ _ Hd).
  - intros call. split; [|split; [|by apply (Server_exist_message mapper err metadata w w p); [..|repeat constructor]]].
    + intros b l w' Hd. rw /exist_data (guarded_granted err _ _ _ _ _ Hr) (data_key_run _ _ _ _ Hk).
      rw (bind_run _ _ w {| bgo_force_node := false; bgo_get_source := SourceAll |} w) // (bind_run _ _ _ _ _ Hd).
      by destruct b.
    + intros e w' Hd. rw /exist_data (guarded_granted err _ _ _ _ _ Hr) (data_key_run _ _ _ _ Hk).
      by rw (bind_run _ _ w {| bgo_force_node := false; bgo_get_source := SourceAll |} w) // (bind_run _ _ _ _ _ Hd).
Qed.
End theorems.

(** With the users of [Basic], the only requests that may change data are those with the
    name and the password of a user whose permissions include writing: a node of the
    cluster has no access by its name, nor has a token. *)
Theorem rest_basic_write `{AccessCrates} b err req :
  let auth := Basic_rest b in
  granted err has_write req →
  ∃ creds username password user,
    extract err AuthBasic req = Ok creds ∧ rc_kind creds = Some (CK_Basic username password) ∧
    um_inner (bs_users_storage b) !! username = Some user ∧
    has_write (Permissions_from_User user) = true ∧
    (u_password user = Some password ∨
     u_password user = None ∧
     u_password_hash user = Some (sha512 (bytes_of_string (password +:+ um_password_salt (bs_users_storage b))))).
Proof.
  intros auth (creds & p & Hc & Hp & Ha). exists creds. simpl in Hp.
  rw /check_credentials_rest /check_credentials_common in Hp.
  destruct (rc_kind creds) as [[username password|?|?]|] eqn:Hk; [|done..]. rw /get_user in Hp.
  destruct (um_inner (bs_users_storage b) !! username) as [user|] eqn:Hu; [|done]. simpl in Hp.
  exists username, password, user. rw /check_password in Hp.
  destruct (u_password user) as [q|] eqn:Hq; [|destruct (u_password_hash user) as [h|] eqn:Hh; [|done]].
  - case_bool_decide; [|done]. simplify_eq. by auto 10.
  - case_bool_decide; [|done]. simplify_eq. by auto 10.
Qed.

(** ** Witnesses *)

Section example.
#[local] Instance two_byte_keys : KeySize := 2%nat.

(** A cluster that is a list, newest first, and a clock that counts the puts. *)
Definition RestStore : Type := list (BobKey * BobData).

#[local] Instance no_storage : BackendStorage RestStore := {|
  st_put _ _ _ := mret (Err internal); st_put_alien _ _ _ := mret (Err internal);
  st_get _ _ := mret (Err internal); st_get_alien _ _ := mret (Err internal);
  st_exist _ _ := mret (Err internal); st_exist_alien _ _ := mret (Err internal);
  st_delete _ _ _ := mret (Err internal); st_delete_alien _ _ _ _ := mret (Err internal) |}.

Definition store_get (k : BobKey) (w : RestStore) : option BobData :=
  snd <$> List.find (λ p, bool_decide (p.1 = k)) w.

#[local] Instance store_cluster : ClusterOps RestStore := {|
  cluster_put k d := _ ← modify (cons (k, d)); mret (Ok tt, None);
  cluster_get k := d ← gets (store_get k); mret (ok_or d (key_not_found k));
  cluster_exist ks := gets (λ w, Ok ((λ k, bool_decide (is_Some (store_get k w))) <$> ks));
  cluster_delete k _ := _ ← modify (filter (λ p, p.1 ≠ k)); mret (Ok tt) |}.

#[local] Instance store_notified : Notified RestStore :=
  {| request_index_cleanup := mret tt; update_node_connection _ := mret tt |}.
#[local] Instance store_order : HashOrder := {| hash_order _ l := l; hash_order_perm _ l := reflexivity l |}.
#[local] Instance store_clock : RestClock RestStore := gets (λ w, 100 + Z.of_nat (length w)).

#[local] Instance http_example : HttpCrates := {|
  canonical_reason s := if s =? 200 then Some "OK" else if s =? 201 then Some "Created" else None;
  infer_mime _ := None;
  header_value_ok _ := true;
  parse_rfc2822 := parse_u64 |}.

Definition writer_user : User := {|
  u_username := "Writer"; u_password := Some "pass"; u_password_hash := None;
  u_perms := {| p_read := true; p_write := true; p_read_rest := false; p_write_rest := false |} |}.
Definition rest_users : Basic :=
  {| bs_users_storage := {| um_inner := {[ "Writer" := writer_user ]}; um_password_salt := "bob" |};
     bs_resolve_sleep_period_ms := 100 |}.
#[local] Instance rest_crates : AccessCrates := crates_example.
#[local] Instance rest_auth : RestAuthenticator := Basic_rest rest_users.
#[local] Existing Instance uuid_example.

Definition rest_request (user : string) (source : option string) : AccessRequest := {|
  ar_header h :=
    if bool_decide (h = "authorization") then Some (Ok ("Basic " +:+ user))
    else if bool_decide (h = "x-amz-copy-source") then Ok <$> source else None;
  ar_remote_addr := None |}.

Definition rest_mapper : Virtual := {|
  vm_local_node_name := "node"; vm_local_node_address := "127.0.0.1:20000"; vm_disks := []; vm_vdisks := ∅;
  vm_nodes := []; vm_distribution_func := Mod; vm_support_nodes_offset := 0 |}.

Definition no_text (l : list byte) : string := "".

#[local] Instance rest_grpc : Authenticator RestStore :=
  {| credentials_type := AuthBasic; check_grpc c := mret (check_credentials_common rest_users c) |}.

Definition writer_request : AccessRequest := rest_request "Writer:pass" None.
Definition copy_request : AccessRequest := rest_request "Writer:pass" (Some "258").
Definition one_body : BobData := {| inner := [x07]; meta := {| timestamp := 5 |} |}.

(** A put and a get; a wrong password; a copy of key 258 to key 1, which is not there. *)
Example rest_put_get :
  (r ← put_data rest_mapper no_text writer_request "258" [x2a];
   g ← get_data rest_mapper no_text writer_request "0x0201"; mret (r.1, g)) [] =
  Some ((Ok (StatusExt_new 201 true "Created"), Ok ("*/*", [x2a])),
        [([x02; x01], {| inner := [x2a]; meta := {| timestamp := 100 |} |})]).
Proof. by vm_compute. Qed.

Example rest_wrong_password w :
  put_data rest_mapper no_text (rest_request "Writer:word" None) "258" [x2a] w =
  Some ((Err (ByStatus (StatusExt_new 401 false "Unauthorized request")), None), w).
Proof. by vm_compute. Qed.

Example s3_copy_of_other_key :
  match put_object rest_mapper no_text copy_request "1" [] [([x02; x01], one_body)] with
  | Some ((Err (inr s), None), w) => s3_status s = 404 ∧ w = [([x02; x01], one_body)]
  | _ => False
  end.
Proof. by vm_compute. Qed.

Lemma writer_granted allowed :
  allowed (Permissions_from_User writer_user) = true → granted no_text allowed writer_request.
Proof. intros Ha. by exists {| rc_address := None; rc_kind := Some (CK_Basic "Writer" "pass") |}, (Permissions_from_User writer_user). Qed.


Lemma s3_copy_rewrites_itself_witness :
  put_object rest_mapper no_text copy_request "1" [] [([x01; x00], one_body)] =
  Some ((Ok (S3StatusExt (StatusExt_new 200 true "OK")), None),
        [([x01; x00], {| inner := [x07]; meta := {| timestamp := 101 |} |}); ([x01; x00], one_body)]).
Proof.
  rw (s3_copy_rewrites_itself rest_mapper no_text copy_request "1" []
        {| coh_if_modified_since := None; coh_if_unmodified_since := None; coh_source_key := Some [x02; x01] |}
        [x01; x00] 101 one_body [([x01; x00], one_body)] [([x01; x00], one_body)] [([x01; x00], one_body)]).
  - by exists {| rc_address := None; rc_kind := Some (CK_Basic "Writer" "pass") |}, (Permissions_from_User writer_user).
  - by vm_compute.
  - by vm_compute.
  - by vm_compute.
  - by vm_compute.
  - by vm_compute.
  - by vm_compute.
  - by vm_compute.
Defined.

Lemma rest_requests_are_grpc_witness :
  put_data rest_mapper no_text writer_request "258" [x2a] [] =
    Some ((Ok (StatusExt_new 201 true "Created"), None), [([x02; x01], {| inner := [x2a]; meta := {| timestamp := 100 |} |})]).
Proof.
  destruct (rest_requests_are_grpc rest_mapper no_text writer_request writer_request "258" [x02; x01] 100 [] []
              (Permissions_from_User writer_user)) as [Hput _].
  - by vm_compute.
  - by vm_compute.
  - by vm_compute.
  - intros w. by vm_compute.
  - by vm_compute.
  - by vm_compute.
  - by apply writer_granted.
  - by apply writer_granted.
  - rw (proj1 (Hput [x2a])). by vm_compute.
Defined.

Lemma rest_basic_write_witness :
  ∃ creds username password user,
    extract no_text AuthBasic writer_request = Ok creds ∧ rc_kind creds = Some (CK_Basic username password) ∧
    um_inner (bs_users_storage rest_users) !! username = Some user ∧
    has_write (Permissions_from_User user) = true ∧
    (u_password user = Some password ∨
     u_password user = None ∧
     u_password_hash user = Some (sha512 (bytes_of_string (password +:+ um_password_salt (bs_users_storage rest_users))))).
Proof. apply (rest_basic_write rest_users no_text writer_request). exact (writer_granted has_write eq_refl). Defined.
End example.
