(* ===== verification/RestAdmin.v ===== *)
(** * RestAdmin: the requests of the REST server on nodes, disks and partitions

    The rest of [bob/src/api/mod.rs]: what the node tells of the cluster, starting and
    stopping disk controllers, partitions of virtual disks, aliens and directories.  The
    handlers run on the storage of Pearl ([None]: a node whose backend has no disks).
    Futures that the code runs together run one after the other, in any order. *)

From Corelib Require Import ssreflect.
From stdpp Require Import base option list strings gmap sets numbers.
From Stdlib Require Import Strings.Byte ZArith Lia.
From S2P Require Import Prelude Data Text Errors Options Node ClusterConfig NodeConfig Mapper Backend Network Operations Quorum SimpleQuorum Access Server PearlUtils PearlWorld PearlHolder PearlGroup PearlDisk PearlBackend RestKey Rest.

(** ** The data of the responses *)

Inductive Action : Type := Attach | Detach.

Definition Action_debug (a : Action) : string := match a with Attach => "Attach" | Detach => "Detach" end.

Record ApiReplica : Type := { ar_node : string; ar_disk : string; ar_path : string }.
Record ApiVDisk : Type := { av_id : Z; av_replicas : list ApiReplica }.
Record ApiNode : Type := { an_name : string; an_address : string; an_vdisks : list ApiVDisk }.

Record VDiskPartitions : Type := {
  vp_vdisk_id : Z;
  vp_node_name : string;
  vp_disk_name : string;
  vp_partitions : list string;
}.

Record Partition : Type := {
  pt_vdisk_id : Z;
  pt_node_name : string;
  pt_disk_name : string;
  pt_timestamp : Z;
  pt_records_count : Z;
}.

Inductive Dir : Type := mkDir (name : string) (path : string) (children : list Dir).

Record DiskState : Type := { dk_name : string; dk_path : string; dk_is_active : bool }.

Record DiskSpaceMetrics : Type := { sm_total_space : Z; sm_used_space : Z; sm_free_space : Z }.

Record SpaceInfo : Type := {
  si_total_disk_space_bytes : Z;
  si_free_disk_space_bytes : Z;
  si_used_disk_space_bytes : Z;
  si_occupied_disk_space_bytes : Z;
  si_occupied_disk_space_by_disk : gmap string Z;
}.

Record NodeConfiguration : Type := { nc_blob_file_name_prefix : string; nc_root_dir_name : string }.

(** ** What the mapper tells *)

Definition collect_replicas_info (replicas : list NodeDisk) : list ApiReplica :=
  (λ r, {| ar_path := nd_disk_path r; ar_disk := nd_disk_name r; ar_node := nd_node_name r |}) <$> replicas.

Definition data_vdisk_to_scheme (disk : VDisk) : ApiVDisk :=
  {| av_id := vd_id disk; av_replicas := collect_replicas_info (vd_replicas disk) |}.

Section mapper.
Context `{!HashOrder} (mapper : Virtual).

Definition collect_disks_info : list ApiVDisk :=
  data_vdisk_to_scheme <$> hash_order (snd <$> map_to_list (vm_vdisks mapper)).

Definition get_vdisk_by_id (id : Z) : option ApiVDisk := data_vdisk_to_scheme <$> get_vdisk mapper id.

Definition node_status : ApiNode :=
  {| an_name := vm_local_node_name mapper; an_address := vm_local_node_address mapper; an_vdisks := collect_disks_info |}.

(** The virtual disks of a node, each with its replicas on the node. *)
Definition vdisks_of_node (name : NodeName) (vdisks : list ApiVDisk) : list ApiVDisk :=
  omap (λ vd, if existsb (λ r, bool_decide (ar_node r = name)) (av_replicas vd)
              then Some {| av_id := av_id vd; av_replicas := filter (λ r, ar_node r = name) (av_replicas vd) |}
              else None) vdisks.

Definition api_nodes : list ApiNode :=
  let vdisks := collect_disks_info in
  (λ n, {| an_name := node_name n; an_address := node_address n; an_vdisks := vdisks_of_node (node_name n) vdisks |})
    <$> vm_nodes mapper.

Definition DistributionFunc_debug (f : DistributionFunc) : string := match f with Mod => "Mod" end.
End mapper.

(** ** Directories *)

Section dirs.
Context `{PearlCrate}.

(** The entries up to the first that cannot be read. *)
Fixpoint entries_until_error (entries : list (result DirEntry string)) : list DirEntry :=
  match entries with
  | Ok e :: rest => e :: entries_until_error rest
  | _ => []
  end.

(** A child that cannot be listed (a file, a name that is not UTF-8) is left out.  The
    outer [None]: not finished within the fuel. *)
Fixpoint list_children (list_dir : string → option (result Dir StatusExt)) (root : string) (entries : list DirEntry)
    : option (list Dir) :=
  match entries with
  | [] => Some []
  | e :: rest =>
      dir ← match de_file_name e with
            | Some name => list_dir (path_push root name)
            | None => Some (Err (rest_internal ("failed to get filename for " +:+ de_debug e)))
            end;
      children ← list_children list_dir root rest;
      Some (match dir with Ok dir => dir :: children | Err _ => children end)
  end.

Fixpoint create_directory (fuel : nat) (d : Disk) (root_path : string) : option (result Dir StatusExt) :=
  match fuel with
  | O => None
  | S fuel =>
      match path_file_name root_path with
      | None => Some (Err (rest_internal ("failed to get filename for " +:+ fmt_debug_str root_path)))
      | Some name =>
          match fs_read_dir root_path d with
          | Ok read_dir =>
              children ← list_children (create_directory fuel d) root_path (entries_until_error read_dir);
              Some (Ok (mkDir name root_path children))
          | Err e => Some (Err (rest_internal ("read path " +:+ fmt_debug_str root_path +:+ " failed: " +:+ e.2)))
          end
      end
  end.
End dirs.

(** ** The handlers *)

Section handlers.
Context {key_size : KeySize} `{ConfigParsers, Chrono, Sha256, PearlCrate}.
Context `{HttpCrates, RestAuthenticator, AccessCrates, !HashOrder}.
Context (utf8_error : list byte → string) (mapper : Virtual) (config : NodeConfig) (inner : option Pearl).
(** [hw_counter().update_space_metrics()] *)
Context (update_space_metrics : M PearlWorld DiskSpaceMetrics).

Abbreviation Handler A := (M PearlWorld (result A RestError)).

Definition not_acceptable_backend : StatusExt := StatusExt_new 406 false "only pearl backend supports partitions".

(** [disk_controllers()]: the normal ones and the one of aliens. *)
Definition disk_controllers {A} (k : list DiskController → DiskController → Handler A) : Handler A :=
  match inner with
  | Some p => k (p_disk_controllers p) (p_alien_disk_controller p)
  | None => mret (Err (ByStatus not_acceptable_backend))
  end.

Definition read_guard {A} (req : AccessRequest) (h : Handler A) : Handler A := guarded utf8_error by_status_ext has_rest_read req h.
Definition write_guard {A} (req : AccessRequest) (h : Handler A) : Handler A := guarded utf8_error by_status_ext has_rest_write req h.
(** The handlers that answer with an [AuthError]. *)
Definition read_guard_auth {A} (req : AccessRequest) (h : Handler A) : Handler A := guarded utf8_error ByAuth has_rest_read req h.
Definition write_guard_auth {A} (req : AccessRequest) (h : Handler A) : Handler A := guarded utf8_error ByAuth has_rest_write req h.

Definition fmt_vdisks (vdisks : list VDiskId) : string := join ", " ((λ v, "#" +:+ fmt_dec v) <$> vdisks).

Definition serves_vdisk (vdisk_id : VDiskId) (dc : DiskController) : bool := existsb (λ vd, vd =? vdisk_id) (dc_vdisks dc).

(** Only the normal groups. *)
Definition find_group (vdisk_id : VDiskId) : M PearlWorld (result Group StatusExt) :=
  match inner with
  | None => mret (Err not_acceptable_backend)
  | Some p =>
      let dcs := p_disk_controllers p in
      match List.find (serves_vdisk vdisk_id) dcs with
      | None =>
          let available := join ", " ((λ dc, "DC: " +:+ dp_name (dc_disk dc) +:+ ", vdisks: " +:+ fmt_vdisks (dc_vdisks dc)) <$> dcs) in
          mret (Err (StatusExt_new 404 false ("Disk Controller with vdisk #" +:+ fmt_dec vdisk_id
                       +:+ " not found, available dcs: " +:+ available)))
      | Some needed_dc =>
          group ← vdisk_group needed_dc vdisk_id;
          mret (result_map_err (λ _, StatusExt_new 404 false
                  ("VDiskGroup #" +:+ fmt_dec vdisk_id +:+ " is missing on disk controller '" +:+ dp_name (dc_disk needed_dc)
                   +:+ "', available vdisks: " +:+ fmt_vdisks (dc_vdisks needed_dc))) group)
      end
  end.

Definition with_group {A} (vdisk_id : VDiskId) (k : Group → Handler A) : Handler A :=
  group ← find_group vdisk_id; or_status group k.

(** *** Without credentials *)

Definition api_status : M PearlWorld ApiNode := mret (node_status mapper).

Definition add_used (m : gmap string Z) (dc : DiskController) : M PearlWorld (gmap string Z) :=
  used ← dc_disk_used dc; mret (<[dp_name (dc_disk dc) := used]> m).

Definition get_space_info : Handler SpaceInfo :=
  space ← update_space_metrics;
  disk_controllers (λ dcs adc,
    map ← for_each add_used ∅ dcs;
    adc_space ← dc_disk_used adc;
    let name := dp_name (dc_disk adc) in
    let map := <[name := match map !! name with Some s => wrap64 (s + adc_space) | None => adc_space end]> map in
    mret (Ok {| si_total_disk_space_bytes := sm_total_space space;
                si_free_disk_space_bytes := sm_free_space space;
                si_used_disk_space_bytes := sm_used_space space;
                si_occupied_disk_space_bytes := foldl (λ s p, wrap64 (s + p.2)) 0 (map_to_list map);
                si_occupied_disk_space_by_disk := map |})).

Definition api_alien : string := "alien".

(** *** Reading *)

Definition nodes_handler (req : AccessRequest) : Handler (list ApiNode) := read_guard_auth req (mret (Ok (api_nodes mapper))).

Definition disk_state (disks : list DiskState) (dc : DiskController) : M PearlWorld (list DiskState) :=
  is_active ← dc_is_ready dc;
  mret (disks ++ [{| dk_name := dp_name (dc_disk dc); dk_path := dp_path (dc_disk dc); dk_is_active := is_active |}]).

Definition disks_list (req : AccessRequest) : Handler (list DiskState) :=
  read_guard req (disk_controllers (λ dcs adc, disks ← for_each disk_state [] (dcs ++ [adc]); mret (Ok disks))).

Definition distribution_function (req : AccessRequest) : Handler string :=
  read_guard_auth req (mret (Ok (DistributionFunc_debug (vm_distribution_func mapper)))).

Definition get_node_configuration (req : AccessRequest) : Handler NodeConfiguration :=
  read_guard_auth req
    (pearl ← expect (cfg_pearl config);
     mret (Ok {| nc_blob_file_name_prefix := pl_blob_file_name_prefix pearl;
                 nc_root_dir_name := bs_root_dir_name (pl_settings pearl) |})).

Definition vdisks_handler (req : AccessRequest) : Handler (list ApiVDisk) :=
  read_guard_auth req (mret (Ok (collect_disks_info mapper))).

Definition vdisk_by_id (req : AccessRequest) (vdisk_id : VDiskId) : Handler ApiVDisk :=
  read_guard req (or_status (ok_or (get_vdisk_by_id mapper vdisk_id) (StatusExt_new 404 false "vdisk not found")) (λ v, mret (Ok v))).

Definition vdisk_records_count (req : AccessRequest) (vdisk_id : VDiskId) : Handler Z :=
  read_guard req (with_group vdisk_id (λ group,
    pearls ← read_holders group;
    sum ← for_each (λ sum pearl, n ← records_count pearl; mret (wrap64 (sum + n))) 0 (hf_iter pearls);
    mret (Ok sum))).

Definition partitions (req : AccessRequest) (vdisk_id : VDiskId) : Handler VDiskPartitions :=
  read_guard req (with_group vdisk_id (λ group,
    pearls ← read_holders group;
    mret (Ok {| vp_vdisk_id := g_vdisk_id group; vp_node_name := g_node_name group; vp_disk_name := g_disk_name group;
                vp_partitions := get_id <$> hf_iter pearls |}))).

Definition partition_by_id (req : AccessRequest) (vdisk_id : VDiskId) (partition_id : string) : Handler Partition :=
  read_guard req (with_group vdisk_id (λ group,
    pearls ← read_holders group;
    match List.find (λ pearl, bool_decide (get_id pearl = partition_id)) (hf_iter pearls) with
    | Some p =>
        n ← records_count p;
        mret (Ok {| pt_vdisk_id := g_vdisk_id group; pt_node_name := g_node_name group; pt_disk_name := g_disk_name group;
                    pt_timestamp := start_timestamp p; pt_records_count := n |})
    | None =>
        mret (Err (ByStatus (StatusExt_new 404 false
          ("partition with id: " +:+ partition_id +:+ " in vdisk " +:+ fmt_dec vdisk_id +:+ " not found"))))
    end)).

(** A directory tree is read with [fuel] levels; [None] of the fuel is an abort here. *)
Definition get_alien_directory (fuel : nat) (req : AccessRequest) : Handler Dir :=
  read_guard req (disk_controllers (λ _ adc,
    dir ← peek (λ d, create_directory fuel d (dp_path (dc_disk adc)));
    dir ← expect dir;
    or_status dir (λ dir, mret (Ok dir)))).

Definition replica_directory (fuel : nat) (result : result (list Dir) StatusExt) (r : ApiReplica)
    : M PearlWorld (Prelude.result (list Dir) StatusExt) :=
  match result with
  | Err e => mret (Err e)
  | Ok result =>
      dir ← peek (λ d, create_directory fuel d (ar_path r));
      dir ← expect dir;
      mret (result_map (λ dir, result ++ [dir]) dir)
  end.

Definition get_local_replica_directories (fuel : nat) (req : AccessRequest) (vdisk_id : VDiskId) : Handler (list Dir) :=
  read_guard req
    (or_status (ok_or (get_vdisk_by_id mapper vdisk_id) (StatusExt_new 404 false ("VDisk " +:+ fmt_dec vdisk_id +:+ " not found")))
      (λ vdisk,
        let local := filter (λ r, ar_node r = vm_local_node_name mapper) (av_replicas vdisk) in
        dirs ← for_each (replica_directory fuel) (Ok []) local;
        or_status dirs (λ dirs, mret (Ok dirs)))).

(** *** Changing the storage *)

(** [dc.run(NoopHooks)]: the hooks of the backend see nothing of it. *)
Definition with_noop_hooks {A} (m : M PearlWorld A) : M PearlWorld A :=
  hooks ← gets pw_hooks;
  _ ← modify (set_hooks (Hooks_new None));
  r ← m;
  _ ← modify (set_hooks hooks);
  mret r.

Definition named_controllers (disk_name : string) (dcs : list DiskController) (adc : DiskController) : list DiskController :=
  filter (λ dc, dp_name (dc_disk dc) = disk_name) (dcs ++ [adc]).

Definition stop_all_disk_controllers (req : AccessRequest) (disk_name : string) : Handler StatusExt :=
  write_guard req (disk_controllers (λ dcs adc,
    _ ← for_each (λ _ dc, dc_stop dc) tt (hash_order (named_controllers disk_name dcs adc));
    mret (Ok (StatusExt_new 200 true "Disk controllers are stopped")))).

Definition start_step (err_string : string) (dc : DiskController) : M PearlWorld string :=
  res ← with_noop_hooks (dc_run dc);
  mret (match res with Ok _ => err_string | Err e => err_string +:+ Error_display e +:+ newline end).

Definition start_all_disk_controllers (req : AccessRequest) (disk_name : string) : Handler StatusExt :=
  write_guard req (disk_controllers (λ dcs adc,
    match named_controllers disk_name dcs adc with
    | [] => mret (Err (ByStatus (StatusExt_new 404 false ("Disk Controller with name '" +:+ disk_name +:+ "' not found"))))
    | target_dcs =>
        err_msg ← for_each start_step EmptyString (hash_order target_dcs);
        mret (if bool_decide (err_msg = EmptyString)
              then Ok (StatusExt_new 200 true ("all disk controllers for disk '" +:+ disk_name +:+ "' successfully started"))
              else Err (ByStatus (StatusExt_new 500 false err_msg)))
    end)).

Definition inner_close_unneeded_active_blobs (soft hard : Z) : M PearlWorld unit :=
  match inner with Some p => pearl_close_unneeded_active_blobs p soft hard | None => mret tt end.

Definition finalize_outdated_blobs (req : AccessRequest) : Handler StatusExt :=
  write_guard_auth req
    (_ ← inner_close_unneeded_active_blobs 1 1; mret (Ok (StatusExt_new 200 true "Successfully removed outdated blobs"))).

(** An error is answered with the status 200. *)
Definition change_partition_state (req : AccessRequest) (vdisk_id : VDiskId) (ts : Z) (action : Action) : Handler StatusExt :=
  write_guard req (with_group vdisk_id (λ group,
    error ← match action with
            | Attach => attach group ts
            | Detach => r ← detach group ts; mret (result_map (λ _, tt) r)
            end;
    mret (match error with
          | Err err => Err (ByStatus (StatusExt_new 200 false (Error_display err)))
          | Ok _ => Ok (StatusExt_new 200 true ("partitions with timestamp " +:+ fmt_dec ts +:+ " on vdisk " +:+ fmt_dec vdisk_id
                                                +:+ " is successfully " +:+ Action_debug action +:+ "ed"))
          end))).

Definition inner_remount_vdisk (vdisk_id : VDiskId) : M PearlWorld (result unit Error) :=
  match inner with Some p => remount_vdisk p vdisk_id | None => mret (Ok tt) end.

Definition remount_vdisks_group (req : AccessRequest) (vdisk_id : VDiskId) : Handler StatusExt :=
  write_guard req
    (r ← inner_remount_vdisk vdisk_id;
     mret (match r with
           | Ok _ => Ok (StatusExt_new 200 true ("vdisk " +:+ fmt_dec vdisk_id +:+ " successfully restarted"))
           | Err e => Err (ByStatus (StatusExt_new 200 false (Error_display e)))
           end)).

Definition drop_step (ts : Z) (vdisk_id : VDiskId) (s : string * bool) (holder : Holder) : M PearlWorld (string * bool) :=
  r ← holder_drop_directory holder;
  mret (match r with
        | Err err => (s.1 +:+ "partitions with timestamp " +:+ fmt_dec ts +:+ " delete failed on vdisk " +:+ fmt_dec vdisk_id
                      +:+ ", error: " +:+ Error_display err +:+ newline, true)
        | Ok _ => (s.1 +:+ "partitions deleted with timestamp " +:+ fmt_dec ts +:+ newline, s.2)
        end).

Definition drop_directories (holders : list Holder) (ts : Z) (vdisk_id : VDiskId) : Handler StatusExt :=
  s ← for_each (drop_step ts vdisk_id) (EmptyString, false) holders;
  mret (if (s.2 : bool) then Err (ByStatus (StatusExt_new 500 true s.1)) else Ok (StatusExt_new 200 true s.1)).

Definition delete_partition (req : AccessRequest) (vdisk_id : VDiskId) (ts : Z) : Handler StatusExt :=
  write_guard req (with_group vdisk_id (λ group,
    pearls ← detach group ts;
    match pearls with
    | Ok holders => drop_directories holders ts vdisk_id
    | Err _ => mret (Err (ByStatus (StatusExt_new 400 true
                 ("partitions with timestamp " +:+ fmt_dec ts +:+ " not found on vdisk " +:+ fmt_dec vdisk_id +:+ " or it is active"))))
    end)).

Definition detach_alien_partitions (req : AccessRequest) : Handler StatusExt :=
  write_guard req (disk_controllers (λ _ adc,
    r ← dc_detach_all adc;
    or_status (result_map_err StatusExt_from_BobError r) (λ _, mret (Ok (StatusExt_new 200 true EmptyString))))).

(** *** The routes *)

(** The requests behind a permission; the parameters of the paths are parsed. *)
Inductive AdminRequest : Type :=
| GetNodes
| GetDisksList
| GetDistrFunc
| GetConfiguration
| PostDiskStop (disk_name : string)
| PostDiskStart (disk_name : string)
| GetVDisks
| DeleteOutdatedBlobs
| GetVDisk (vdisk_id : VDiskId)
| GetRecordsCount (vdisk_id : VDiskId)
| GetPartitions (vdisk_id : VDiskId)
| GetPartition (vdisk_id : VDiskId) (partition_id : string)
| PostPartition (vdisk_id : VDiskId) (ts : Z) (action : Action)
| PostRemount (vdisk_id : VDiskId)
| DeletePartition (vdisk_id : VDiskId) (ts : Z)
| PostAlienDetach
| GetAlienDir (fuel : nat)
| GetReplicaDirs (fuel : nat) (vdisk_id : VDiskId).

Inductive AdminResponse : Type :=
| RNodes (l : list ApiNode)
| RDisks (l : list DiskState)
| RText (s : string)
| RConfiguration (c : NodeConfiguration)
| RStatus (s : StatusExt)
| RVDisks (l : list ApiVDisk)
| RVDisk (v : ApiVDisk)
| RCount (n : Z)
| RPartitions (p : VDiskPartitions)
| RPartition (p : Partition)
| RDirs (l : list Dir).

Definition answer {A} (f : A → AdminResponse) (h : Handler A) : Handler AdminResponse := r ← h; mret (result_map f r).

Definition admin_routes (req : AccessRequest) (r : AdminRequest) : Handler AdminResponse :=
  match r with
  | GetNodes => answer RNodes (nodes_handler req)
  | GetDisksList => answer RDisks (disks_list req)
  | GetDistrFunc => answer RText (distribution_function req)
  | GetConfiguration => answer RConfiguration (get_node_configuration req)
  | PostDiskStop disk_name => answer RStatus (stop_all_disk_controllers req disk_name)
  | PostDiskStart disk_name => answer RStatus (start_all_disk_controllers req disk_name)
  | GetVDisks => answer RVDisks (vdisks_handler req)
  | DeleteOutdatedBlobs => answer RStatus (finalize_outdated_blobs req)
  | GetVDisk vdisk_id => answer RVDisk (vdisk_by_id req vdisk_id)
  | GetRecordsCount vdisk_id => answer RCount (vdisk_records_count req vdisk_id)
  | GetPartitions vdisk_id => answer RPartitions (partitions req vdisk_id)
  | GetPartition vdisk_id partition_id => answer RPartition (partition_by_id req vdisk_id partition_id)
  | PostPartition vdisk_id ts action => answer RStatus (change_partition_state req vdisk_id ts action)
  | PostRemount vdisk_id => answer RStatus (remount_vdisks_group req vdisk_id)
  | DeletePartition vdisk_id ts => answer RStatus (delete_partition req vdisk_id ts)
  | PostAlienDetach => answer RStatus (detach_alien_partitions req)
  | GetAlienDir fuel => answer (λ d, RDirs [d]) (get_alien_directory fuel req)
  | GetReplicaDirs fuel vdisk_id => answer RDirs (get_local_replica_directories fuel req vdisk_id)
  end.
End handlers.

(** ** Computations that only read *)

Class ReadOnly {W A} (m : M W A) : Prop := read_only : ∀ w a w', m w = Some (a, w') → w' = w.

Section read_only.
Context {W : Type}.

#[export] Instance ro_ret {A} (a : A) : ReadOnly (W := W) (mret a). Proof. by intros w b w' [= _ <-]. Qed.
#[export] Instance ro_bind {A B} (m : M W A) (f : A → M W B) : ReadOnly m → (∀ a, ReadOnly (f a)) → ReadOnly (m ≫= f).
Proof.
  intros Hm Hf w b w'. rw /mbind /M_bind. destruct (m w) as [[a w1]|] eqn:Ha; [|done].
  intros Hb. apply Hm in Ha as ->. by apply (Hf a) in Hb.
Qed.
#[export] Instance ro_expect {A} (o : option A) : ReadOnly (W := W) (expect o).
Proof. intros w a w'. rw /expect. case_match; [by intros [= _ <-]|done]. Qed.
#[export] Instance ro_gets {A} (f : W → A) : ReadOnly (gets f). Proof. by intros w a w' [= _ <-]. Qed.
#[export] Instance ro_for_each {A B} (f : A → B → M W A) a l : (∀ a b, ReadOnly (f a b)) → ReadOnly (for_each f a l).
Proof. intros Hf. revert a. induction l as [|b l IH]; intros a; simpl; [apply ro_ret|apply ro_bind; [apply Hf|apply IH]]. Qed.
#[export] Instance ro_or_status {A B} (r : result A StatusExt) (k : A → M W (result B RestError)) :
  (∀ a, ReadOnly (k a)) → ReadOnly (or_status r k).
Proof. intros Hk. rw /or_status. case_match; [apply Hk|apply ro_ret]. Qed.
#[export] Instance ro_guarded `{RestAuthenticator, AccessCrates} {A} err wrap allowed req (h : M W (result A RestError)) :
  ReadOnly h → ReadOnly (guarded err wrap allowed req h).
Proof. intros Hh. rw /guarded. repeat case_match; [apply Hh|apply ro_ret|apply ro_ret]. Qed.
#[export] Instance ro_answer {A B} (f : A → B) (h : M W (result A RestError)) :
  ReadOnly h → ReadOnly (r ← h; mret (result_map f r)).
Proof. intros Hh. apply ro_bind; [done|]. intros. apply ro_ret. Qed.
#[export] Instance ro_if {A} (b : bool) (m m' : M W A) : ReadOnly m → ReadOnly m' → ReadOnly (if b then m else m').
Proof. by destruct b. Qed.
End read_only.

(** Unfold, and take each [match] apart. *)
Ltac read_only :=
  repeat (first [typeclasses eauto | progress intros | apply ro_bind | apply ro_for_each | apply ro_or_status | apply ro_guarded
                | case_match]).

Section theorems.
Context {key_size : KeySize} `{ConfigParsers, Chrono, Sha256, PearlCrate}.
Context `{HttpCrates, RestAuthenticator, AccessCrates, !HashOrder}.
Context (err : list byte → string) (mapper : Virtual) (config : NodeConfig) (inner : option Pearl).

(** The permission a request needs, and whether it only reads. *)
Definition reads (r : AdminRequest) : bool :=
  match r with
  | PostDiskStop _ | PostDiskStart _ | DeleteOutdatedBlobs | PostPartition _ _ _ | PostRemount _ | DeletePartition _ _
  | PostAlienDetach => false
  | _ => true
  end.
Definition needed (r : AdminRequest) : Permissions → bool := if reads r then has_rest_read else has_rest_write.

#[local] Instance ro_holder_query {A} (f : PearlStorage → Disk → A) none h : ReadOnly (holder_query f none h).
Proof using Type. rw /holder_query /holder_storage. read_only. Qed.

#[local] Instance ro_find_group vdisk_id : ReadOnly (find_group inner vdisk_id).
Proof using Type. rw /find_group /vdisk_group /read_groups. read_only. Qed.

(** The requests on nodes, disks and partitions: without the permission for reading, or
    for writing, over REST a request is answered with 400, 401, 403 or 500 and has no
    effect; and a request that needs only the permission to read has no effect on the
    node's storage even when it is served. *)
Theorem admin_requests_guarded req r w :
  (refused err (needed r) req →
     ∃ e, rest_status e ∈ refusal_statuses ∧ admin_routes err mapper config inner req r w = Some (Err e, w)) ∧
  (reads r = true → ∀ a w', admin_routes err mapper config inner req r w = Some (a, w') → w' = w).
Proof.
  split.
  - intros Hr. assert (∀ A (f : A → AdminResponse) wrap h,
      (∀ e, rest_status (wrap e) = ae_status_code e) →
      ∃ e, rest_status e ∈ refusal_statuses ∧
        answer f (guarded err wrap (needed r) req h) w = Some (Err e, w)) as Hg.
    { intros A f wrap h Hwrap. destruct (guarded_refused err wrap (needed r) req Hwrap Hr) as (e & He & Hg).
      exists e. split; [done|]. by rw /answer (bind_run _ _ _ _ _ (Hg _ _ _ _)). }
    destruct r; by apply Hg.
  - intros Hr. assert (ReadOnly (admin_routes err mapper config inner req r)) as Ho; [|by apply Ho].
    destruct r; try done; apply ro_answer; apply ro_guarded.
    all: rw ?/with_group ?/disk_controllers ?/disk_state ?/read_holders ?/records_count ?/replica_directory ?/dc_is_ready ?/read_state; read_only.
Qed.

(** The listing of a directory. *)
Lemma list_children_ext list_dir list_dir' root entries :
  (∀ e name, e ∈ entries → de_file_name e = Some name → list_dir (path_push root name) = list_dir' (path_push root name)) →
  list_children list_dir root entries = list_children list_dir' root entries.
Proof using Type.
  induction entries as [|e rest IH]; [done|]. intros Hl. simpl. rw IH; [intros x n Hx; apply Hl; by right|].
  destruct (de_file_name e) as [name|] eqn:Hn; [|done]. rw (Hl e name) //. by left.
Qed.

Lemma list_children_total list_dir root entries :
  (∀ e name, e ∈ entries → de_file_name e = Some name → is_Some (list_dir (path_push root name))) →
  is_Some (list_children list_dir root entries).
Proof using Type.
  induction entries as [|e rest IH]; [by eexists|]. intros Hl. simpl.
  destruct IH as [children Hc]; [intros x n Hx; apply Hl; by right|]. rw Hc.
  destruct (de_file_name e) as [name|] eqn:Hn; [|by eexists].
  destruct (Hl e name) as [r Hr]; [by left|done|]. rw Hr. by eexists.
Qed.

Lemma entries_until_error_elem e entries : e ∈ entries_until_error entries → Ok e ∈ entries.
Proof using Type.
  induction entries as [|[x|] rest IH]; simpl; [by intros ?%elem_of_nil| |by intros ?%elem_of_nil].
  intros [->|He]%elem_of_cons; [by left|right; by apply IH].
Qed.

(** Listing a directory ends when the directories under it are a tree ([height] bounds
    the levels): fuel above the height gives an answer, and more fuel gives the same. *)
Theorem create_directory_total d (height : string → nat) :
  (∀ p entries e name, fs_read_dir p d = Ok entries → Ok e ∈ entries → de_file_name e = Some name →
     (height (path_push p name) < height p)%nat) →
  ∀ fuel p, (height p < fuel)%nat →
    ∃ r, ∀ fuel', (height p < fuel')%nat → create_directory fuel' d p = Some r.
Proof using Type.
  intros Hh. induction fuel as [|fuel IH]; intros p Hp; [lia|].
  destruct (path_file_name p) as [name|] eqn:Hn; last first.
  { exists (Err (rest_internal ("failed to get filename for " +:+ fmt_debug_str p))).
    intros [|fuel'] Hf; [lia|]. by rw /= Hn. }
  destruct (fs_read_dir p d) as [entries|[k e]] eqn:Hd; last first.
  { exists (Err (rest_internal ("read path " +:+ fmt_debug_str p +:+ " failed: " +:+ e))).
    intros [|fuel'] Hf; [lia|]. by rw /= Hn Hd. }
  assert (∀ e n, e ∈ entries_until_error entries → de_file_name e = Some n → (height (path_push p n) < height p)%nat) as Hlt.
  { intros e n He%entries_until_error_elem Hen. by eapply Hh. }
  destruct (list_children_total (create_directory fuel d) p (entries_until_error entries)) as [children Hc].
  { intros e n He Hen. destruct (IH (path_push p n)) as [r Hr]; [specialize (Hlt e n He Hen); lia|]. exists r. apply Hr.
    specialize (Hlt e n He Hen); lia. }
  exists (Ok (mkDir name p children)). intros [|fuel'] Hf; [lia|]. rw /= Hn Hd.
  rw (list_children_ext (create_directory fuel' d) (create_directory fuel d)); last by rw Hc.
  intros e n He Hen. specialize (Hlt e n He Hen). destruct (IH (path_push p n)) as [r Hr]; [lia|].
  rw !Hr //; lia.
Qed.
End theorems.
