(* ===== verification/RestPartition.v ===== *)
(** * RestPartition: deleting a partition over REST

    [delete_partition] of [bob/src/api/mod.rs], down to [Group::detach]
    [bob-backend/src/pearl/group.rs] and the removal of the directories: which holders are
    taken out of the group, what happens to them, and what is answered. *)

From Corelib Require Import ssreflect.
From stdpp Require Import base option list relations strings gmap numbers.
From Stdlib Require Import Strings.Byte ZArith Lia.
From S2P Require Import Prelude Data Text Errors Options Node ClusterConfig NodeConfig Mapper Backend Network Operations Quorum SimpleQuorum Access Server PearlUtils PearlWorld PearlHolder PearlGroup PearlLaws PearlReads PearlWrites PearlSettings PearlDisk PearlBackend PearlStates PearlRefine PearlStop PearlExample RestKey Rest RestAdmin.

(** What the code relies on of a container with removals: the children are in slots, and a
    removal empties its slot. *)
Class SlotLaws `{PearlCrate} := {
  slots : HoldersContainer → list (option Holder);
  slots_iter : ∀ c, hf_iter c = omap id (slots c);
  slots_len : ∀ c, hf_len c = length (slots c);
  slots_get : ∀ c i, hf_get_child c i = mjoin (slots c !! i);
  slots_remove : ∀ c i h, mjoin (slots c !! i) = Some h →
    (hf_remove i c).1 = Some h ∧ slots (hf_remove i c).2 = <[i := None]> (slots c);
}.

(** The holders a request takes: of that start, and not of the present. *)
Definition detachable (ts now : Z) (h : Holder) : bool := (start_timestamp h =? ts) && negb (gets_into_interval h now).

Section partition.
Context {key_size : KeySize} `{ConfigParsers, Chrono, Sha256, PearlLaws, !SlotLaws}.
#[local] Set Default Proof Using "Type*".

(** *** Emptying slots *)

Definition emptied (ts now : Z) (o : option Holder) : option Holder :=
  match o with Some h => if detachable ts now h then None else Some h | None => None end.

Definition taken (ts now : Z) (l : list (option Holder)) : list Holder := filter (λ h, detachable ts now h = true) (omap id l).

Lemma omap_emptied ts now (l : list (option Holder)) : omap id (emptied ts now <$> l) = filter (λ h, detachable ts now h ≠ true) (omap id l).
Proof.
  induction l as [|[h|] l IH]; [done| |done]. rw fmap_cons. cbn [omap list_omap emptied id].
  rw filter_cons. case_decide as Hd.
  - apply not_true_is_false in Hd. rw Hd /=. by f_equal.
  - destruct (detachable ts now h); [exact IH|discriminate Hd].
Qed.

(** What a deletion never touches: the disks, the hooks and the counter of handles *)
Definition rest_of_world (w w' : PearlWorld) : Prop :=
  pw_dcs w' = pw_dcs w ∧ pw_hooks w' = pw_hooks w ∧ pw_fresh w' = pw_fresh w.

Definition with_slots (g : Group) (w : PearlWorld) (l : list (option Holder)) (w' : PearlWorld) : Prop :=
  slots (gc_holders (group_cell w' g)) = l ∧ pw_disk w' = pw_disk w ∧ pw_holders w' = pw_holders w ∧ rest_of_world w w' ∧
  ∀ id, id ≠ g_id g → pw_groups w' !! id = pw_groups w !! id.

Lemma detach_step_spec g ts now w l i o removed w1 :
  with_slots g w l w1 → l !! i = Some o →
  wp (detach_step g ts now removed i)
     (λ r w2, with_slots g w (<[i := emptied ts now o]> l) w2 ∧ r = removed ++ taken ts now [o]) w1.
Proof.
  intros (Hl & Hd & Hh & Hrest & Hg) Ho. rw /detach_step. apply wpx_bind, wpx_gets. rw slots_get Hl Ho.
  assert (mjoin (Some o) = o) as -> by done.
  assert (∀ r, with_slots g w l w1 → emptied ts now o = o → r = removed →
    wp (mret r) (λ r w2, with_slots g w (<[i := emptied ts now o]> l) w2 ∧ r = removed ++ []) w1) as Hsame.
  { intros r Hw He ->. apply wpx_ret. split; [|by rw app_nil_r]. by rw He list_insert_id. }
  destruct o as [h|]; [|by apply Hsame]. rw /taken. cbn [omap list_omap id]. rw filter_cons filter_nil.
  change ((start_timestamp h =? ts) && negb (gets_into_interval h now)) with (detachable ts now h).
  case_decide as Hdet; last first.
  { apply not_true_is_false in Hdet. rw Hdet. apply Hsame; [done|by rw /= Hdet|done]. }
  rw Hdet.
  destruct (slots_remove (gc_holders (group_cell w1 g)) i h) as [H1' H2']; [by rw Hl Ho|].
  destruct (hf_remove i (gc_holders (group_cell w1 g))) as [child c]. simpl in H1', H2'. subst child.
  apply wpx_bind, wpx_modify, wpx_bind, (wpx_expect _ _ h); [done|]. apply wpx_ret. split; [|done]. rw /= Hdet.
  rw /with_slots group_cell_put /=. split_and!; [by rw H2' Hl|done|done|done|]. intros id Hid. by rw lookup_insert_ne; auto.
Qed.

Lemma detach_loop_spec g ts now w rest pre removed w1 :
  with_slots g w (pre ++ rest) w1 →
  wp (for_each (detach_step g ts now) removed (seq (length pre) (length rest)))
     (λ r w2, with_slots g w (pre ++ (emptied ts now <$> rest)) w2 ∧ r = removed ++ taken ts now rest) w1.
Proof.
  revert pre removed w1. induction rest as [|o rest IH]; intros pre removed w1 Hw; simpl.
  { apply wpx_ret. split; [done|]. by rw app_nil_r. }
  apply wpx_bind. eapply wpx_mono; [apply (detach_step_spec g ts now w _ _ o _ _ Hw); by apply list_lookup_middle|].
  intros r w2 [Hw2 ->]. rw insert_app_r_alt // Nat.sub_diag /= in Hw2.
  replace (pre ++ emptied ts now o :: rest) with ((pre ++ [emptied ts now o]) ++ rest) in Hw2 by (by rw -app_assoc).
  replace (S (length pre)) with (length (pre ++ [emptied ts now o])) by (rw length_app /=; lia).
  eapply wpx_mono; [by apply IH|]. intros r w3 [Hw3 ->].
  rw -!app_assoc /= in Hw3. split; [done|]. rw -app_assoc. f_equal.
  by rw /taken -list.filter_app -omap_app.
Qed.

Lemma wpx_current_timestamp_bind {B} (f : Z → M PearlWorld B) Q w now w1 :
  get_current_timestamp w = Some (now, w1) → wp (f now) Q w1 → wp (get_current_timestamp ≫= f) Q w.
Proof. intros Ht Hf. by rw /wpx (bind_run _ _ _ _ _ Ht). Qed.

Lemma current_timestamp_world w now w1 : get_current_timestamp w = Some (now, w1) →
  pw_groups w1 = pw_groups w ∧ pw_holders w1 = pw_holders w ∧ rest_of_world w w1.
Proof.
  rw /get_current_timestamp. intros (a & w2 & Ha & Hb)%bind_Some_inv. rw ext_run in Ha. simplify_eq.
  by apply expect_inv in Hb as [_ ->].
Qed.

(** *** Closing holders, exactly *)

(** The disk after [h] is closed, once the holders of [pre] were: what its storage, if it runs
    and was not closed with them, does to it *)
Definition close_disk (w : PearlWorld) (pre : list Holder) (h : Holder) (d : Disk) : Disk :=
  match running w (h_id h) with
  | Some st => if decide (h_id h ∈ h_id <$> pre) then d else (pe_close st (pe_fsyncdata st d).2).2
  | None => d
  end.
Fixpoint closed_disk (w : PearlWorld) (pre l : list Holder) (d : Disk) : Disk :=
  match l with [] => d | h :: l => closed_disk w (pre ++ [h]) l (close_disk w pre h d) end.

Lemma closed_disk_snoc w pre l h d : closed_disk w pre (l ++ [h]) d = close_disk w (pre ++ l) h (closed_disk w pre l d).
Proof. revert pre d. induction l as [|h' l IH]; intros pre d; simpl; [by rw app_nil_r|]. by rw IH -app_assoc. Qed.

(** [w'] is [w] with the holders of [l] closed, and no other change. *)
Record only_closed (l : list Holder) (w w' : PearlWorld) : Prop := {
  oc_groups : pw_groups w' = pw_groups w;
  oc_rest : rest_of_world w w';
  oc_closed : ∀ h, h ∈ l → running w' (h_id h) = None;
  oc_others : ∀ id, id ∉ h_id <$> l → pw_holders w' !! id = pw_holders w !! id;
  oc_disk : pw_disk w' = closed_disk w [] l (pw_disk w);
}.

Lemma close_storage_exact pre h w w1 : only_closed pre w w1 → wp (close_storage h) (λ _ w', only_closed (pre ++ [h]) w w') w1.
Proof.
  intros [Hg Hr Hc Ho Hd]. rw /close_storage. apply wpx_bind, wpx_on_sync, reset_spec.
  assert (∀ d, d = closed_disk w [] (pre ++ [h]) (pw_disk w) →
    only_closed (pre ++ [h]) w (set_disk d (with_sync w1 (h_id h) PearlSync_default))) as Hdone.
  { intros d Hdisk. split; [done|done| | |done].
    - intros h' Hin. rw /running. change (holder_cell (set_disk d ?x)) with (holder_cell x).
      rw holder_cell_put. case_decide as He; [done|]. apply elem_of_app in Hin as [Hin|Hin%list_elem_of_singleton]; [by apply Hc|by subst].
    - intros id Hid. rw fmap_app /= in Hid. rw /= lookup_insert_ne; [intros <-; apply Hid, elem_of_app; right; by left|].
      apply Ho. intros Hin. apply Hid, elem_of_app. by left. }
  rw closed_disk_snoc -Hd /close_disk in Hdone. cbn [app] in Hdone.
  assert (PearlSync_get (hc_storage (holder_cell w1 (h_id h))) =
          if decide (h_id h ∈ h_id <$> pre) then None else running w (h_id h)) as ->.
  { case_decide as Hin.
    - apply list_elem_of_fmap in Hin as (h' & -> & Hin). by apply Hc.
    - by rw /running /holder_cell (Ho _ Hin). }
  destruct (running w (h_id h)) as [st|] eqn:Hrun; [|case_decide; apply wpx_ret; by apply (Hdone (pw_disk w1))].
  case_decide; [apply wpx_ret; by apply (Hdone (pw_disk w1))|].
  apply wpx_bind, wpx_ext, wpx_bind, wpx_ext, wpx_ret. by apply Hdone.
Qed.

Lemma close_holders_exact l w : wp (close_holders l) (λ _ w', only_closed l w w') w.
Proof.
  apply (wpx_for_each _ _ _ (λ pre _ w', only_closed pre w w')).
  - split; [done|done| |done|done]. by intros h ?%elem_of_nil.
  - intros pre h rest u w1 _ Hc. by apply close_storage_exact.
Qed.

(** [Group::detach]: the holders of that start leave the group, closed, except one that is
    of the present; nothing else changes. *)
Lemma detach_spec g ts w now w1 :
  get_current_timestamp w = Some (now, w1) →
  wp (detach g ts) (λ r w',
    holders_of g w' = filter (λ h, detachable ts now h ≠ true) (holders_of g w) ∧
    (∀ id, id ≠ g_id g → pw_groups w' !! id = pw_groups w !! id) ∧ rest_of_world w w' ∧
    let gone := filter (λ h, detachable ts now h = true) (holders_of g w) in
    (∀ h, h ∈ gone → running w' (h_id h) = None) ∧
    (∀ id, id ∉ h_id <$> gone → pw_holders w' !! id = pw_holders w !! id) ∧
    pw_disk w' = closed_disk w [] gone (pw_disk w1) ∧
    match r with Err _ => gone = [] | Ok removed => removed = gone ∧ gone ≠ [] end) w.
Proof.
  intros Ht. rw /detach. eapply wpx_current_timestamp_bind; [done|]. apply current_timestamp_world in Ht as (Hgr & Hho & Hrw).
  assert (group_cell w1 g = group_cell w g) as Hcell by (by rw /group_cell Hgr).
  apply wpx_bind, wpx_gets, wpx_bind. rw slots_len.
  eapply wpx_mono; [apply (detach_loop_spec g ts now w1 (slots (gc_holders (group_cell w1 g))) [])|].
  { by split_and!. }
  intros r w2 [(Hs & Hd & Hh & Hrw2 & Hg) ->]. cbn [app] in Hs.
  assert (∀ w', gc_holders (group_cell w' g) = gc_holders (group_cell w2 g) →
    holders_of g w' = filter (λ h, detachable ts now h ≠ true) (holders_of g w)) as Hiter.
  { intros w' Hw'. rw /holders_of Hw' !slots_iter Hs omap_emptied. by rw Hcell. }
  assert (taken ts now (slots (gc_holders (group_cell w1 g))) = filter (λ h, detachable ts now h = true) (holders_of g w)) as Htaken.
  { by rw /taken /holders_of slots_iter Hcell. }
  assert (rest_of_world w w2) as Hrw3 by (destruct Hrw as (? & ? & ?), Hrw2 as (? & ? & ?); split_and!; congruence).
  assert (∀ l d, closed_disk w2 [] l d = closed_disk w [] l d) as Hcd.
  { intros l. generalize ([] : list Holder). induction l as [|h l IH]; intros pre d; [done|]. simpl. rw IH.
    by rw /close_disk /running /holder_cell Hh Hho. }
  rw Hgr in Hg. cbn [app]. rw Htaken. destruct (filter (λ h, detachable ts now h = true) (holders_of g w)) as [|h hs] eqn:Hgone.
  - apply wpx_ret. split; [by apply Hiter|]. split_and!; [done|done|by intros h ?%elem_of_nil|by intros id _; rw Hh Hho|by rw Hd|done].
  - apply wpx_bind. eapply wpx_mono; [apply close_holders_exact|]. intros u w3 [Cg Cr Cc Co Cd]. apply wpx_ret.
    split; [apply Hiter; by rw /group_cell Cg|]. split; [by rw Cg|]. split.
    { destruct Hrw3 as (? & ? & ?), Cr as (? & ? & ?). split_and!; congruence. }
    split; [done|]. split; [intros id Hid; by rw Co // Hh Hho|]. split; [by rw Cd Hd Hcd|done].
Qed.

(** *** Removing the directories *)

Definition rest_code (r : result StatusExt RestError) : Z :=
  match r with Ok s => se_status s | Err e => rest_status e end.

(** The disk after the directories of the holders are removed, one after the other, and whether
    every removal succeeded *)
Definition removed_disk (l : list Holder) (d : Disk) : Disk := foldl (λ d h, (fs_remove_dir_all (disk_path h) d).2) d l.
Fixpoint all_removed (l : list Holder) (d : Disk) : bool :=
  match l with
  | [] => true
  | h :: l => let '(r, d) := fs_remove_dir_all (disk_path h) d in is_ok r && all_removed l d
  end.

Lemma all_removed_snoc l h d : all_removed (l ++ [h]) d = all_removed l d && is_ok (fs_remove_dir_all (disk_path h) (removed_disk l d)).1.
Proof.
  revert d. induction l as [|h' l IH]; intros d; simpl.
  - destruct (fs_remove_dir_all _ d) as [r d']. by rw andb_true_r.
  - destruct (fs_remove_dir_all (disk_path h') d) as [r d'] eqn:Hr. by rw IH andb_assoc.
Qed.

Lemma drop_directories_spec holders ts vdisk_id w :
  wp (drop_directories holders ts vdisk_id) (λ r w',
    w' = set_disk (removed_disk holders (pw_disk w)) w ∧ rest_code r = if all_removed holders (pw_disk w) then 200 else 500) w.
Proof.
  rw /drop_directories. apply wpx_bind.
  eapply wpx_mono; [apply (wpx_for_each _ _ _ (λ pre s w', w' = set_disk (removed_disk pre (pw_disk w)) w ∧
    s.2 = negb (all_removed pre (pw_disk w))))|].
  - by destruct w.
  - intros pre h rest s w1 _ [-> Hs]. rw /drop_step /holder_drop_directory /Utils_drop_directory.
    apply wpx_bind, wpx_bind, wpx_ext, wpx_ret, wpx_ret. cbn [pw_disk set_disk].
    rw all_removed_snoc {3}/removed_disk foldl_app /=. split; [done|].
    destruct (fs_remove_dir_all (disk_path h) (removed_disk pre (pw_disk w))) as [[[]|[k e]] d]; simpl.
    + by rw Hs andb_true_r.
    + by rw andb_false_r.
  - intros s w1 [-> Hs]. apply wpx_ret. split; [done|]. rw Hs. by destruct (all_removed holders (pw_disk w)).
Qed.

(** *** The request *)

(** Two computations that run alike *)
Lemma wpx_same {W A} (P : Prop) (m m' : M W A) (Q : A → W → Prop) w : m w = m' w → wpx P m' Q w → wpx P m Q w.
Proof. by rw /wpx => ->. Qed.

Context `{HttpCrates, RestAuthenticator, AccessCrates, !HashOrder} (err : list byte → string) (p : option Pearl).

(** C16: Deleting a partition takes exactly the holders of the given start that the present does
    not fall into.  They leave the group, every other holder stays in its place; they are closed,
    and no other holder of the node is touched; the disk is changed by closing their storages and
    then removing their directories one after the other, and by nothing else; other groups,
    the disks, the hooks and the rest of the node stay as they are.  The answer is 200 when every
    removal succeeded and 500 otherwise; when there is no holder to take it is 400. *)
Theorem delete_partition_spec req vdisk_id ts w g now w1 :
  granted err has_rest_write req → find_group p vdisk_id w = Some (Ok g, w) → get_current_timestamp w = Some (now, w1) →
  let gone := filter (λ h, detachable ts now h = true) (holders_of g w) in
  let closed := closed_disk w [] gone (pw_disk w1) in
  ∃ r w', delete_partition err p req vdisk_id ts w = Some (r, w') ∧
    holders_of g w' = filter (λ h, detachable ts now h ≠ true) (holders_of g w) ∧
    (∀ h, h ∈ gone → running w' (h_id h) = None) ∧
    (∀ id, id ∉ h_id <$> gone → pw_holders w' !! id = pw_holders w !! id) ∧
    (∀ id, id ≠ g_id g → pw_groups w' !! id = pw_groups w !! id) ∧ rest_of_world w w' ∧
    pw_disk w' = removed_disk gone closed ∧
    rest_code r = if bool_decide (gone = []) then 400 else if all_removed gone closed then 200 else 500.
Proof.
  intros Hg Hf Ht gone closed. apply wp_total. rw /delete_partition /write_guard.
  eapply wpx_same; [rw (guarded_granted err _ _ _ _ _ Hg) /with_group (bind_run _ _ _ _ _ Hf); reflexivity|]. cbn [or_status].
  apply wpx_bind. eapply wpx_mono; [by apply (detach_spec g ts w now w1)|].
  cbv zeta. fold gone. intros r w2 (Hh & Ho & Hrw & Hc & Hid & Hd & Hr). destruct r as [holders|e].
  - destruct Hr as [-> Hne]. eapply wpx_mono; [apply drop_directories_spec|]. intros r w3 [-> Hcode].
    rw bool_decide_false // Hcode Hd. by split_and!.
  - apply wpx_ret. rw bool_decide_true //. split_and!; [done..| |done]. by rw Hd /closed Hr.
Qed.
End partition.

(** ** Witness

    The disk in memory, with a container of slots. *)

#[local] Instance slot_one_byte_keys : KeySize := 1%nat.
#[local] Existing Instances Parsers_example Chrono_example Chrono_example_laws Sha256_example.

Definition slot_crate_over (read_dir : string → ToyDisk → result (list (result DirEntry string)) (IOErrorKind * string))
    : PearlCrate := {|
  Disk := ToyDisk; PearlStorage := ToyStorage; Filter := unit;
  pe_now := @pe_now toy_crate; pe_coarse_now := @pe_coarse_now toy_crate; fs_exists := @fs_exists toy_crate;
  fs_create_dir_all := @fs_create_dir_all toy_crate; fs_remove_file := @fs_remove_file toy_crate;
  fs_remove_dir_all := @fs_remove_dir_all toy_crate; fs_read_dir := read_dir;
  pe_build := @pe_build toy_crate; pe_init := @pe_init toy_crate; pe_init_lazy := @pe_init_lazy toy_crate;
  pe_write := @pe_write toy_crate; pe_read := @pe_read toy_crate; pe_contains := @pe_contains toy_crate;
  pe_delete := @pe_delete toy_crate; pe_close := @pe_close toy_crate; pe_fsyncdata := @pe_fsyncdata toy_crate;
  pe_close_active_blob_in_background := @pe_close_active_blob_in_background toy_crate;
  pe_free_excess_resources := @pe_free_excess_resources toy_crate; pe_offload_buffer := @pe_offload_buffer toy_crate;
  pe_blobs_count := @pe_blobs_count toy_crate; pe_corrupted_blobs_count := @pe_corrupted_blobs_count toy_crate;
  pe_active_index_memory := @pe_active_index_memory toy_crate; pe_inactive_index_memory := @pe_inactive_index_memory toy_crate;
  pe_index_memory := @pe_index_memory toy_crate; pe_records_count := @pe_records_count toy_crate;
  pe_has_active_blob := @pe_has_active_blob toy_crate;
  pe_records_count_in_active_blob := @pe_records_count_in_active_blob toy_crate;
  pe_filter_memory_allocated := @pe_filter_memory_allocated toy_crate; pe_disk_used := @pe_disk_used toy_crate;
  pe_check_filter := @pe_check_filter toy_crate; pe_get_filter := @pe_get_filter toy_crate;
  HoldersContainer := list (option Holder);
  hf_new := λ _ _, [];
  hf_iter := omap id;
  hf_len := length;
  hf_get_child := λ c i, mjoin (c !! i);
  hf_possible_childs_rev := λ c _, rev (omap id c);
  hf_add_to_parents := λ _ _ c, c;
  hf_push := λ _ h c, (length c, c ++ [Some h]);
  hf_extend := λ _ l c, c ++ (Some <$> l);
  hf_remove := λ i c, (mjoin (c !! i), <[i := None]> c);
  hf_clear := λ _, [];
  hf_clear_and_get_values := λ c, (omap id c, []);
  hf_reload := λ _ c, c;
  hf_filter_memory := λ _ _, 0;
|}.
Definition slot_crate : PearlCrate := slot_crate_over toy_read_dir.

Lemma omap_Some_id {A} (l : list A) : omap id (Some <$> l) = l.
Proof. induction l as [|a l IH]; [done|]. rw fmap_cons. cbn [omap list_omap id]. by rw IH. Qed.

Lemma omap_id_full {A} (c : list (option A)) : Forall is_Some c → c = Some <$> omap id c.
Proof. induction 1 as [|o c [a ->] _ IH]; [done|]. cbn [omap list_omap id]. by rw fmap_cons -IH. Qed.

#[refine] Definition slot_laws : @PearlLaws slot_crate := {|
  pe_dir := ts_dir : @PearlStorage slot_crate → string;
  content := λ p k (d : @Disk slot_crate), td_records d p k;
  duplicates := ts_duplicates : @PearlStorage slot_crate → bool;
  admits := λ _ _, true;
  covers := λ _ _ _, True;
  dense := Forall is_Some : @HoldersContainer slot_crate → Prop;
|}.
Proof.
  all: try done.
  - exact (@law_build _ toy_laws).
  - exact (@law_read _ toy_laws).
  - exact (@law_contains _ toy_laws).
  - exact (@law_write_frame _ toy_laws).
  - exact (@law_write _ toy_laws).
  - exact (@law_delete_frame _ toy_laws).
  - exact (@law_delete _ toy_laws).
  - exact (@law_delete_any _ toy_laws).
  - intros c i Hc. simpl. rw {1}(omap_id_full c Hc) list_lookup_fmap. by destruct (omap id c !! i).
  - intros c k h _ Hin. simpl. apply list_elem_of_In, in_rev. rw rev_involutive. by apply list_elem_of_In.
  - intros f h c n c' [= <- <-]. simpl. split_and!; [by rw omap_app| |done|done].
    intros Hd. split; [apply Forall_app; split; [done|by repeat constructor]|]. rw {1}(omap_id_full c Hd). by rw length_fmap.
  - intros f l c. simpl. split; [by rw omap_app omap_Some_id|]. intros Hd. apply Forall_app. split; [done|].
    apply Forall_fmap, Forall_true. intros x. by eexists.
Defined.

#[local] Existing Instances slot_crate slot_laws.

#[refine] Definition slot_slots : @SlotLaws slot_crate := {| slots := id |}.
Proof. all: try done. Defined.
#[local] Existing Instance slot_slots.
#[local] Existing Instances http_example store_order rest_crates.
#[local] Instance open_auth : RestAuthenticator := Stub_rest.

Definition slot_dc : DiskController := {|
  dc_id := 0; dc_disk := {| dp_name := "disk_0"; dp_path := "/disk_0" |}; dc_vdisks := [1]; dc_node_name := "node_1";
  dc_settings := toy_settings; dc_is_alien := false |}.
Definition slot_pearl : Pearl := {|
  p_disk_controllers := [slot_dc]; p_alien_disk_controller := slot_dc; p_bloom_filter_memory_limit := None |}.
Definition slot_start : PearlWorld :=
  put_dc_cell 0 {| dcc_groups := [toy_group]; dcc_state := DiskReady; dcc_blobs_count_cached := 0 |}
    {| pw_disk := {| td_now := 1690000000; td_dirs := []; td_records := λ _ _, NotFound |};
       pw_holders := ∅; pw_groups := ∅; pw_dcs := ∅; pw_hooks := Hooks_new None; pw_fresh := 1 |}.
Definition slot_put (b : byte) (ts : Z) : M PearlWorld (result unit Error) :=
  group_put toy_group [x03] (toy_data b ts) StartTimestampConfig_default.
(** Two partitions: the present falls into the first. *)
Definition slot_filled : PearlWorld :=
  match (_ ← slot_put x01 1690000000; slot_put x02 1690100000) slot_start with Some (_, w) => w | None => slot_start end.

Definition any_request : AccessRequest := {| ar_header _ := None; ar_remote_addr := None |}.
Definition slot_delete (ts : Z) := delete_partition no_text (Some slot_pearl) any_request 1 ts slot_filled.

Example delete_active_refused :
  match slot_delete 1689984000 with
  | Some (r, w) => (rest_code r, start_timestamp <$> holders_of toy_group w) = (400, [1689984000; 1690070400])
  | None => False
  end.
Proof. vm_compute. reflexivity. Qed.

Example delete_other :
  match slot_delete 1690070400 with
  | Some (r, w) => (rest_code r, start_timestamp <$> holders_of toy_group w) = (200, [1689984000])
  | None => False
  end.
Proof. vm_compute. reflexivity. Qed.

Lemma delete_partition_spec_witness :
  ∃ r w', slot_delete 1690070400 = Some (r, w') ∧
    holders_of toy_group w' =
      filter (λ h, detachable 1690070400 1690000000 h ≠ true) (holders_of toy_group slot_filled).
Proof.
  destruct (delete_partition_spec no_text (Some slot_pearl) any_request 1 1690070400 slot_filled toy_group 1690000000 slot_filled)
    as (r & w' & Hr & Hh & _).
  - by exists RequestCredentials_default, perm_all.
  - vm_compute. reflexivity.
  - vm_compute. reflexivity.
  - exists r, w'. split; [exact Hr|exact Hh].
Defined.

Lemma wrong_password_refused allowed : @refused rest_auth rest_crates no_text allowed (rest_request "Writer:word" None).
Proof. intros creds q [= <-] Hc. by vm_compute in Hc. Qed.

Lemma admin_requests_guarded_witness :
  ∃ e, rest_status e ∈ refusal_statuses ∧
    admin_routes (H4 := rest_auth) no_text toy_virtual toy_config (Some slot_pearl)
      (rest_request "Writer:word" None) (DeletePartition 1 1690070400) slot_filled = Some (Err e, slot_filled).
Proof.
  apply (proj1 (admin_requests_guarded (H4 := rest_auth) no_text toy_virtual toy_config (Some slot_pearl)
                  (rest_request "Writer:word" None) (DeletePartition 1 1690070400) slot_filled)).
  exact (wrong_password_refused has_rest_write).
Defined.

(** A directory with a directory and a file. *)
Definition two_levels (path : string) (_ : ToyDisk) : result (list (result DirEntry string)) (IOErrorKind * string) :=
  let entry name is_dir := Ok {| de_file_name := Some name; de_is_dir := Some is_dir; de_debug := name |} in
  if bool_decide (path = "/d") then Ok [entry "a" true; entry "f" false]
  else if bool_decide (path = "/d/a") then Ok []
  else Err (IOAnotherKind, "not a directory").
Definition two_levels_crate : PearlCrate := slot_crate_over two_levels.
Definition two_levels_height (path : string) : nat := if bool_decide (path = "/d") then 1%nat else 0%nat.

Definition two_levels_disk : ToyDisk := {| td_now := 0; td_dirs := []; td_records := λ _ _, NotFound |}.

Lemma create_directory_total_witness :
  ∃ r, ∀ fuel', (1 < fuel')%nat → @create_directory two_levels_crate fuel' two_levels_disk "/d" = Some r.
Proof.
  refine (@create_directory_total two_levels_crate two_levels_disk two_levels_height _ 2%nat "/d" _).
  - intros path entries e name. cbn [fs_read_dir two_levels_crate slot_crate_over]. rw /two_levels.
    case_bool_decide as Hp; [|case_bool_decide; by intros [= <-] ?%elem_of_nil].
    subst path. intros [= <-] [[= ->]|[[= ->]|[]%elem_of_nil]%elem_of_cons]%elem_of_cons [= <-]; vm_compute; lia.
  - vm_compute. lia.
Defined.

Example two_levels_listed :
  @create_directory two_levels_crate 3 two_levels_disk "/d" =
  Some (Ok (mkDir "d" "/d" [mkDir "a" "/d/a" []])).
Proof. vm_compute. reflexivity. Qed.
