(* ===== verification/Cleaner.v ===== *)
(** * Cleaner: the periodic tasks of a node that keep its memory within limits

    [bob/src/cleaner.rs] and [bob/src/counter.rs].  A turn of a task is a definition; the
    intervals between turns and the lock of the cleaner are not modelled, the gauges of the
    counter are the list it would publish. *)

From Corelib Require Import ssreflect.
From stdpp Require Import base option list strings gmap numbers.
From Stdlib Require Import Strings.Byte ZArith Lia.
From S2P Require Import Prelude Data Text Errors Options Node ClusterConfig NodeConfig Mapper Backend PearlUtils PearlWorld PearlHolder PearlGroup PearlDisk PearlBackend.

(** ** The cleaner *)

Record Cleaner : Type := {
  cn_old_blobs_check_timeout : Z;
  cn_soft_open_blobs : option Z;
  cn_hard_open_blobs : option Z;
  cn_bloom_filter_memory_limit : option Z;
  cn_index_memory_limit : option Z;
  cn_index_memory_limit_soft : option Z;
}.

Definition Cleaner_new (old_blobs_check_timeout : Z)
    (soft_open_blobs hard_open_blobs bloom_filter_memory_limit index_memory_limit index_memory_limit_soft : option Z) : Cleaner := {|
  cn_old_blobs_check_timeout := old_blobs_check_timeout;
  cn_soft_open_blobs := soft_open_blobs;
  cn_hard_open_blobs := hard_open_blobs;
  cn_bloom_filter_memory_limit := bloom_filter_memory_limit;
  cn_index_memory_limit := index_memory_limit;
  cn_index_memory_limit_soft :=
    match index_memory_limit_soft with Some l => Some l | None => (λ l, wrap64 (l * 10) / 9) <$> index_memory_limit end;
|}.

(** The cleaner [Grinder::new] makes; [None]: the interval does not parse. *)
Definition Grinder_cleaner `{ConfigParsers} (config : NodeConfig) : option Cleaner :=
  interval ← cleanup_interval config;
  Some (Cleaner_new interval (open_blobs_soft config) (hard_open_blobs config) (cfg_bloom_filter_memory_limit config)
          (cfg_index_memory_limit config) (cfg_index_memory_limit_soft config)).

(** [while memory > limit]: free something, or leave the loop when there is nothing to free.
    [None] inside: not finished within the fuel. *)
Fixpoint free_while {W} (sub : Z → Z → Z) (free : M W (option Z)) (limit : Z) (fuel : nat) (memory : Z) : M W (option Z) :=
  if limit <? memory then
    match fuel with
    | O => mret None
    | S fuel =>
        r ← free;
        match r with
        | Some freed => free_while sub free limit fuel (sub memory freed)
        | None => mret (Some memory)
        end
    end
  else mret (Some memory).

Definition wrapping_sub (a b : Z) : Z := wrap64 (a - b).

Section cleaner.
Context {key_size : KeySize} `{ConfigParsers, Chrono, Sha256, PearlCrate} (inner : option Pearl).

(** The calls of [Backend]; a storage without disks has the answers of the trait. *)
Definition on_inner {A} (f : Pearl → M PearlWorld A) (default : A) : M PearlWorld A :=
  match inner with Some p => f p | None => mret default end.

Definition backend_index_memory := on_inner pearl_index_memory 0.
Definition backend_close_oldest_active_blob := on_inner close_oldest_active_blob None.
Definition backend_free_least_used_holder_resources := on_inner free_least_used_resources None.
Definition backend_close_unneeded_active_blobs (soft hard : Z) := on_inner (λ p, pearl_close_unneeded_active_blobs p soft hard) tt.
Definition backend_offload_old_filters (limit : Z) := on_inner (λ p, pearl_offload_old_filters p limit) tt.

Definition index_cleanup_by_active_count_limit (soft hard : Z) : M PearlWorld unit := backend_close_unneeded_active_blobs soft hard.

(** The answer is the memory left, for the log. *)
Definition index_cleanup_by_memory_limit (limit : Z) (fuel : nat) : M PearlWorld (option Z) :=
  baseline_memory ← backend_index_memory;
  free_while saturating_sub backend_close_oldest_active_blob limit fuel baseline_memory.

(** A turn of [fast_cleaner_task]. *)
Definition fast_cleaner_turn (limit : Z) (fuel : nat) : M PearlWorld (option Z) :=
  baseline_memory ← backend_index_memory;
  free_while wrapping_sub backend_free_least_used_holder_resources limit fuel baseline_memory.

(** A turn of [task]. *)
Definition cleaner_turn (soft hard bloom_filter_memory_limit index_memory_limit : option Z) (fuel : nat) : M PearlWorld unit :=
  _ ← (if bool_decide (is_Some soft) || bool_decide (is_Some hard)
       then index_cleanup_by_active_count_limit (default 1 soft) (default 10 hard) else mret tt);
  _ ← match index_memory_limit with
      | Some limit => left ← index_cleanup_by_memory_limit limit fuel; _ ← expect left; mret tt
      | None => mret tt
      end;
  match bloom_filter_memory_limit with Some limit => backend_offload_old_filters limit | None => mret tt end.

(** What the two tasks of a cleaner do in a turn. *)
Definition Cleaner_turn (c : Cleaner) (fuel : nat) : M PearlWorld unit :=
  cleaner_turn (cn_soft_open_blobs c) (cn_hard_open_blobs c) (cn_bloom_filter_memory_limit c) (cn_index_memory_limit_soft c) fuel.
Definition Cleaner_fast_turn (c : Cleaner) (fuel : nat) : M PearlWorld unit :=
  match cn_index_memory_limit c with
  | Some limit => left ← fast_cleaner_turn limit fuel; _ ← expect left; mret tt
  | None => mret tt
  end.

(** ** The counter

    Its state is the pair of cached counts; a turn gives the gauges. *)

Definition Counter_turn (cached : Z * Z) : M PearlWorld (list (string * Z) * (Z * Z)) :=
  blobs ← on_inner pearl_blobs_count (0, 0);
  corrupted_blobs ← on_inner pearl_corrupted_blobs_count 0;
  active_disks ← on_inner active_disks_count 0;
  index_memory ← backend_index_memory;
  disk_used ← on_inner disk_used_by_disk [];
  let total := foldl (λ s p, wrap64 (s + p.2)) 0 disk_used in
  let gauges :=
    [("backend.blob_count", blobs.1); ("backend.alien_count", blobs.2); ("backend.corrupted_blob_count", corrupted_blobs);
     ("backend.active_disks", active_disks); ("backend.index_memory", index_memory); ("backend.used_disk", total)]
    ++ ((λ p, ("backend.used_disk." +:+ dp_name p.1, p.2)) <$> disk_used) in
  if bool_decide (blobs = cached) then mret (gauges, cached)
  else bf_ram ← on_inner pearl_filter_memory_allocated 0; mret (gauges ++ [("backend.bloom_filters_ram", bf_ram)], blobs).
End cleaner.

(** ** The loops *)

Section loops.
Context {W : Type} (sub : Z → Z → Z) (free : M W (option Z)) (limit : Z).

(** What the [while] of the code does, without a bound on its turns: [left] is the memory it
    counts when it ends in the last world. *)
Inductive cleans : Z → W → Z → W → Prop :=
| cleans_within memory w : memory ≤ limit → cleans memory w memory w
| cleans_nothing memory w w' : limit < memory → free w = Some (None, w') → cleans memory w memory w'
| cleans_freed memory w freed w1 left w' :
    limit < memory → free w = Some (Some freed, w1) → cleans (sub memory freed) w1 left w' → cleans memory w left w'.

(** In the end the memory counted is within the limit, or there was nothing left to free. *)
Lemma cleans_end memory w left w' : cleans memory w left w' → left ≤ limit ∨ ∃ w0, free w0 = Some (None, w').
Proof. induction 1 as [memory w Hle|memory w w' Hlt Hf|memory w freed w1 left w' Hlt Hf _ IH]; [by left|right; by exists w|done]. Qed.

(** With a measure that every turn of the loop makes smaller it ends, within as much fuel. *)
Lemma free_while_cleans (P : Z → W → Prop) (measure : Z → W → nat) fuel memory w :
  (∀ w, is_Some (free w)) → P memory w →
  (∀ memory w freed w', P memory w → limit < memory → free w = Some (Some freed, w') →
     P (sub memory freed) w' ∧ (measure (sub memory freed) w' < measure memory w)%nat) →
  (measure memory w < fuel)%nat →
  ∃ left w', free_while sub free limit fuel memory w = Some (Some left, w') ∧ cleans memory w left w'.
Proof.
  intros Ha Hp Hm. revert memory w Hp. induction fuel as [|fuel IH]; intros memory w Hp Hf; [lia|]. simpl.
  destruct (Z.ltb_spec limit memory) as [Hlt|Hle]; [|exists memory, w; split; [done|by constructor]].
  destruct (Ha w) as [[[freed|] w1] Hw]; rw (bind_run _ _ _ _ _ Hw).
  - destruct (Hm memory w freed w1 Hp Hlt Hw) as [Hp' Hlt']. destruct (IH _ _ Hp' ltac:(lia)) as (left & w' & Hr & Hc).
    exists left, w'. split; [done|by eapply cleans_freed].
  - exists memory, w1. split; [done|by constructor].
Qed.

(** More fuel does not change what a loop does that has ended. *)
Lemma free_while_more fuel fuel' memory w left w' :
  (fuel ≤ fuel')%nat → free_while sub free limit fuel memory w = Some (Some left, w') →
  free_while sub free limit fuel' memory w = Some (Some left, w').
Proof.
  revert fuel' memory w. induction fuel as [|fuel IH]; intros fuel' memory w Hle; destruct fuel' as [|fuel']; try lia; simpl; [by destruct (limit <? memory)..|].
  destruct (limit <? memory); [|done]. rw /mbind /M_bind. destruct (free w) as [[[freed|] w1]|]; [|done..]. apply IH. lia.
Qed.
End loops.

(** The soft limit the cleaner chooses is above the limit, not below it. *)
Lemma default_soft_limit_above t soft hard bloom l :
  9 ≤ l < 2 ^ 60 →
  ∃ s, cn_index_memory_limit_soft (Cleaner_new t soft hard bloom (Some l) None) = Some s ∧ l < s.
Proof.
  intros Hl. exists (wrap64 (l * 10) / 9). split; [done|]. rw /wrap64 Z.mod_small; [lia|].
  pose proof (Z.div_mod (l * 10) 9). pose proof (Z.mod_pos_bound (l * 10) 9). lia.
Qed.

(** What can be freed, as a list of amounts. *)
Definition free_next : M (list Z) (option Z) := λ w, match w with [] => Some (None, []) | x :: l => Some (Some x, l) end.

(** The subtraction of [fast_cleaner_task] wraps: when more is freed than was counted, the
    loop goes on and frees everything there is. *)
Example fast_cleaner_overshoot :
  free_while wrapping_sub free_next 50 10 100 [150; 10; 10; 10] = Some (Some (2 ^ 64 - 80), []) ∧
  free_while saturating_sub free_next 50 10 100 [150; 10; 10; 10] = Some (Some 0, [10; 10; 10]).
Proof. vm_compute. split; reflexivity. Qed.
