(* ===== verification/CleanerTurns.v ===== *)
(** * CleanerTurns: the turns of the cleaner come to an end

    The two loops of [bob/src/cleaner.rs] over the Pearl storage: what is assumed of the crate
    about the memory it reports, the search of the holder to clean, why the loops end, and the
    whole turns of the tasks. *)

From Corelib Require Import ssreflect.
From stdpp Require Import base option list strings gmap numbers.
From Stdlib Require Import Strings.Byte ZArith Lia.
From S2P Require Import Prelude Data Text Errors Options Node ClusterConfig NodeConfig Mapper Backend PearlUtils PearlWorld PearlHolder PearlGroup PearlDisk PearlBackend PearlLaws PearlHistory PearlReads PearlExample Cleaner.

(** ** What is assumed of the crate

    The clock goes forward and does not touch the storages; the index of an active blob takes
    memory; what a storage frees is gone, and freeing it adds to no other. *)
Class CleanerLaws `{PearlCrate} : Prop := {
  clock_u64 d : u64 (pe_coarse_now d).1;
  clock_forward d : (pe_coarse_now d).1 ≤ (pe_coarse_now (pe_coarse_now d).2).1;
  clock_keeps_active s d : pe_has_active_blob s (pe_coarse_now d).2 = pe_has_active_blob s d;
  clock_keeps_inactive s d : pe_inactive_index_memory s (pe_coarse_now d).2 = pe_inactive_index_memory s d;
  active_has_index s d : pe_has_active_blob s d = true → 1 ≤ pe_active_index_memory s d;
  freed_is_gone s d : pe_inactive_index_memory s (pe_free_excess_resources s d).2 ≤ 0;
  freed_adds_none s s' d : pe_inactive_index_memory s' (pe_free_excess_resources s d).2 ≤ pe_inactive_index_memory s' d;
}.

(** ** Computations that always return *)

Definition total {W A} (m : M W A) : Prop := ∀ w, is_Some (m w).
(** ... and change nothing. *)
Definition reads {W A} (m : M W A) : Prop := ∀ w, ∃ a, m w = Some (a, w).

Create HintDb total.

Section total.
Context {W : Type}.

Lemma total_ret {A} (a : A) : total (mret a : M W A).
Proof. intros w. by eexists. Qed.
Lemma total_gets {A} (f : W → A) : total (gets f).
Proof. intros w. by eexists. Qed.
Lemma total_bind {A B} (m : M W A) (f : A → M W B) : total m → (∀ a, total (f a)) → total (m ≫= f).
Proof. intros Hm Hf w. destruct (Hm w) as [[a w'] Ha]. rw (bind_run _ _ _ _ _ Ha). apply Hf. Qed.
Lemma total_for_each {A B} (f : A → B → M W A) a l : (∀ a b, total (f a b)) → total (for_each f a l).
Proof. intros Hf. revert a. induction l as [|b l IH]; intros a; [apply total_ret|]. apply total_bind; [apply Hf|apply IH]. Qed.

Lemma reads_ret {A} (a : A) : reads (mret a : M W A).
Proof. intros w. by exists a. Qed.
Lemma reads_gets {A} (f : W → A) : reads (gets f).
Proof. intros w. by eexists. Qed.
Lemma reads_bind {A B} (m : M W A) (f : A → M W B) : reads m → (∀ a, reads (f a)) → reads (m ≫= f).
Proof. intros Hm Hf w. destruct (Hm w) as [a Ha]. rw (bind_run _ _ _ _ _ Ha). apply Hf. Qed.
Lemma reads_for_each {A B} (f : A → B → M W A) a l : (∀ a b, reads (f a b)) → reads (for_each f a l).
Proof. intros Hf. revert a. induction l as [|b l IH]; intros a; [apply reads_ret|]. apply reads_bind; [apply Hf|apply IH]. Qed.
Lemma reads_total {A} (m : M W A) : reads m → total m.
Proof. intros Hm w. destruct (Hm w) as [a ->]. by eexists. Qed.
End total.

#[export] Hint Resolve total_ret total_gets total_bind total_for_each reads_ret reads_gets reads_bind reads_for_each : total.

Section turns.
Context {key_size : KeySize} `{ConfigParsers, Chrono, Sha256, PearlCrate}.

Lemma total_ext {A} (f : Disk → A * Disk) : total (ext f).
Proof. intros w. rw /ext. destruct (f (pw_disk w)). by eexists. Qed.

Lemma reads_query {A} (f : PearlStorage → Disk → A) none h : reads (holder_query f none h).
Proof. rw /holder_query /holder_storage. apply reads_bind; [auto with total|]. intros [s|]; rw /peek; auto with total. Qed.

Lemma total_query {A} (f : PearlStorage → Disk → A) none h : total (holder_query f none h).
Proof. apply reads_total, reads_query. Qed.

Lemma total_close_active_blob h : total (close_active_blob h).
Proof. rw /close_active_blob /holder_storage. apply total_bind; [auto with total|]. intros [s|]; [apply total_ext|auto with total]. Qed.

Lemma total_free_excess h : total (free_excess_resources h).
Proof. rw /free_excess_resources /holder_storage. apply total_bind; [auto with total|]. intros [s|]; [apply total_ext|auto with total]. Qed.

#[local] Hint Resolve total_ext reads_query total_query total_close_active_blob total_free_excess : total.

(** *** The memory of the indexes *)

Lemma index_memory_reads inner : reads (backend_index_memory inner).
Proof.
  rw /backend_index_memory /on_inner. destruct inner as [p|]; [|auto with total].
  apply reads_for_each. intros cnt dc. apply reads_bind; [|auto with total].
  rw /dc_index_memory /sum_when_ready /read_state. apply reads_bind; [auto with total|]. intros state.
  case_match; [|auto with total]. rw /sum_groups /read_groups. apply reads_bind; [auto with total|]. intros groups.
  apply reads_for_each. intros acc g. apply reads_bind; [|auto with total]. rw /group_index_memory /sum_holders /read_holders.
  apply reads_bind; [auto with total|]. intros holders. apply reads_for_each. intros acc' h. apply reads_bind; [apply reads_query|auto with total].
Qed.

(** *** The other parts of a turn *)

Lemma total_group_close g soft hard : total (group_close_unneeded_active_blobs g soft hard).
Proof.
  rw /group_close_unneeded_active_blobs /read_holders. apply total_bind; [auto with total|]. intros holders. apply total_bind.
  - apply total_for_each. intros s h. rw /outdated_step. apply total_bind; [apply total_query|]. intros [|]; [|auto with total].
    apply total_bind; [rw /is_outdated; auto with total|]. intros [|]; [|auto with total].
    apply total_bind; [|auto with total]. rw /no_modifications_recently /last_modification. auto with total.
  - intros [open close]. apply total_bind.
    { apply total_for_each. intros acc h. rw /collect_small. apply total_bind; [apply total_query|auto with total]. }
    intros is_small. apply total_bind.
    { generalize (saturating_sub hard (open - Z.of_nat (length close))) as n, (rev (sort_by (priority_le is_small) (imap pair close))) as l.
      intros n l. induction l as [|[i h] l IH]; simpl; [auto with total|]. case_match; auto with total. }
    intros rest. apply total_bind; [|auto with total].
    generalize (saturating_sub soft (open - Z.of_nat (length close))) as n. intros n.
    induction rest as [|[i h] l IH]; simpl; [auto with total|]. case_match; auto with total.
Qed.

Lemma total_active_count inner soft hard : total (index_cleanup_by_active_count_limit inner soft hard).
Proof.
  rw /index_cleanup_by_active_count_limit /backend_close_unneeded_active_blobs /on_inner. destruct inner as [p|]; [|auto with total].
  apply total_for_each. intros _ dc. rw /dc_close_unneeded_active_blobs /read_groups. apply total_bind; [auto with total|].
  intros groups. apply total_for_each. intros _ g. apply total_group_close.
Qed.

Lemma total_offload_level level limit holders size : total (offload_level level limit holders size).
Proof.
  revert size. induction holders as [|h holders IH]; intros size; simpl; [auto with total|]. case_match; [auto with total|].
  apply total_bind; [|auto]. rw /offload_filter /simple_storage. apply total_bind; [auto with total|]. intros [s|]; auto with total.
Qed.

Lemma total_offload inner limit : total (backend_offload_old_filters inner limit).
Proof.
  rw /backend_offload_old_filters /on_inner. destruct inner as [p|]; [|auto with total].
  rw /pearl_offload_old_filters. apply total_bind.
  - apply total_for_each. intros acc dc. rw /collect_disk /read_groups. apply total_bind; [auto with total|]. intros groups.
    apply total_for_each. intros acc' g. rw /collect_group /read_holders. apply total_bind; [auto with total|]. intros holders.
    apply total_for_each. intros acc'' h. rw /collect_holder /simple_is_ready. auto with total.
  - intros holders. apply total_bind; [|auto with total]. rw /utils_offload_old_filters. apply total_bind.
    + apply total_for_each. intros acc h. apply total_bind; [|auto with total]. rw /simple_filter_memory_allocated /simple_storage.
      apply total_bind; [auto with total|]. intros [s|]; rw /peek; auto with total.
    + intros size. case_match; [auto with total|]. apply total_bind; intros; apply total_offload_level.
Qed.

(** ** The search of a holder

    Between its steps only the clock goes on. *)

Context `{!CleanerLaws}.
#[local] Set Default Proof Using "Type*".

Definition clock (w : PearlWorld) : Z := (pe_coarse_now (pw_disk w)).1.

Record ticked (w w' : PearlWorld) : Prop := {
  tk_clock : clock w ≤ clock w';
  tk_world : w' = set_disk (pw_disk w') w;
  tk_active : ∀ s, pe_has_active_blob s (pw_disk w') = pe_has_active_blob s (pw_disk w);
  tk_inactive : ∀ s, pe_inactive_index_memory s (pw_disk w') = pe_inactive_index_memory s (pw_disk w);
}.

#[local] Instance ticked_preorder : PreOrder ticked.
Proof.
  split.
  - intros w. split; [done|by destruct w|done|done].
  - intros w1 w2 w3 [Hc12 H12 Ha12 Hi12] [Hc23 H23 Ha23 Hi23].
    split; [lia|by rw H23 {1}H12|intros s; by rw Ha23|intros s; by rw Hi23].
Qed.

Lemma ticked_clock w : ticked w (set_disk (pe_coarse_now (pw_disk w)).2 w).
Proof. split; [apply clock_forward|done|intros s; apply clock_keeps_active|intros s; apply clock_keeps_inactive]. Qed.

(** A holder with an active blob, and one with something to free *)
Definition active (w : PearlWorld) (h : Holder) : Prop :=
  ∃ s, PearlSync_get (hc_storage (holder_cell w (h_id h))) = Some s ∧ pe_has_active_blob s (pw_disk w) = true.
Definition excess (w : PearlWorld) (h : Holder) : bool :=
  match PearlSync_get (hc_storage (holder_cell w (h_id h))) with
  | Some s => 0 <? pe_inactive_index_memory s (pw_disk w)
  | None => false
  end.
(** The holders the search goes through *)
Definition walk (p : Pearl) (w : PearlWorld) : list Holder :=
  all_disk_controllers p ≫= λ dc, dcc_groups (dc_cell w (dc_id dc)) ≫= λ g, hf_iter (gc_holders (group_cell w g)).

Lemma ticked_active w w' h : ticked w w' → active w h → active w' h.
Proof. intros [_ Hw Ha _] (s & Hs & Hact). exists s. rw Ha {1}Hw. done. Qed.
Lemma ticked_excess w w' h : ticked w w' → excess w' h = excess w h.
Proof. intros [_ Hw _ Hi]. rw /excess {1}Hw /=. destruct (PearlSync_get _) as [s|]; [by rw Hi|done]. Qed.

(** The holder is out of date by [period] at the time [t]. *)
Definition stale (t period : Z) (h : Holder) : Prop := 0 ≤ period ≤ t ∧ end_timestamp h < t - period.

(** A loop between whose steps only the clock goes on, with an invariant; what an element makes
    true of the accumulator ([found]) stays true. *)
Lemma each_ticked {A B} (I : A → PearlWorld → Prop) (found : A → Prop) (good : B → Prop) (f : A → B → M PearlWorld A) (l : list B) a w :
  (∀ a b w', b ∈ l → ticked w w' → I a w' →
     wp (f a b) (λ a' w'', ticked w' w'' ∧ I a' w'' ∧ (found a → found a') ∧ (good b → found a')) w') → I a w →
  wp (for_each f a l) (λ a' w', ticked w w' ∧ I a' w' ∧ ∀ b, b ∈ l → good b → found a') w.
Proof.
  intros Hf HI. eapply wpx_mono; [apply (wpx_for_each _ _ _ (λ before a w', ticked w w' ∧ I a w' ∧ ∀ b, b ∈ before → good b → found a))|done].
  - split; [done|]. split; [done|]. by intros b ?%elem_of_nil.
  - intros before b rest a' w' Hl (Ht & HI' & Hfound). eapply wpx_mono; [apply Hf; [|done|done]|].
    + rw Hl. apply elem_of_app. right. by left.
    + intros a'' w'' (Ht' & HI'' & Hkeep & Hgood). split; [by transitivity w'|]. split; [done|].
      intros c [Hc|Hc%list_elem_of_singleton]%elem_of_app Hgc; [by apply Hkeep, (Hfound c)|subst; by apply Hgood].
Qed.

(** A comparison with the clock *)
Lemma wp_clock {A} (f : Z → A) (Q : A → PearlWorld → Prop) w :
  (∀ w', ticked w w' → Q (f (clock w)) w') → wp (ts ← ext pe_coarse_now; mret (f ts)) Q w.
Proof.
  intros HQ. apply wpx_bind. pose proof (ticked_clock w) as Ht. specialize (HQ _ Ht). rw {1}/wpx /ext. rw /clock in HQ.
  destruct (pe_coarse_now (pw_disk w)) as [ts d]. by apply wpx_ret.
Qed.

(** A stale holder stays so, and the two comparisons of the code say it. *)
Lemma stale_outdated t period h w : stale t period h → t ≤ clock w →
  (end_timestamp h <? clock w) = true ∧ (end_timestamp h <? wrap64 (clock w - period)) = true.
Proof.
  intros [Hp He] Ht. pose proof (clock_u64 (pw_disk w)) as Hu. rw /u64 in Hu. rw /clock in Ht |- *.
  rw wrap64_small; [lia|]. rw !Z.ltb_lt. lia.
Qed.

Definition group_walk (w : PearlWorld) (g : Group) : list Holder := hf_iter (gc_holders (group_cell w g)).
Definition dc_walk (w : PearlWorld) (dc : DiskController) : list Holder := dcc_groups (dc_cell w (dc_id dc)) ≫= group_walk w.

Lemma ticked_groups w w' g dc : ticked w w' →
  group_walk w' g = group_walk w g ∧ dcc_groups (dc_cell w' (dc_id dc)) = dcc_groups (dc_cell w (dc_id dc)) ∧ dc_walk w' dc = dc_walk w dc.
Proof. intros [_ Hw _ _]. rw Hw. done. Qed.

(** No holder with [P] is stale, by the period of its group. *)
Definition nothing_stale (P : PearlWorld → Holder → Prop) (p : Pearl) (w : PearlWorld) : Prop :=
  ∀ dc g h, dc ∈ all_disk_controllers p → g ∈ dcc_groups (dc_cell w (dc_id dc)) → h ∈ group_walk w g →
    P w h → ¬ stale (clock w) (inactive_period g) h.

(** *** The oldest holder with an active blob *)

Definition finds (P : PearlWorld → Holder → Prop) (r : option Holder) (w : PearlWorld) : Prop := ∀ h, r = Some h → P w h.

(** A holder to close; one that ends at the end of time is never taken. *)
Definition closable (w : PearlWorld) (h : Holder) : Prop := active w h ∧ end_timestamp h < u64_max.

Lemma ticked_closable w w' h : ticked w w' → closable w h → closable w' h.
Proof. intros Ht [Ha He]. split; [by apply (ticked_active w)|done]. Qed.
Lemma ticked_finds_closable w w' r : ticked w w' → finds closable r w → finds closable r w'.
Proof. intros Ht Hr x Hx. by apply (ticked_closable w), Hr. Qed.

Lemma older_finds r r' w : finds closable r w → finds closable r' w →
  finds closable (older_holder r r') w ∧ (is_Some r → is_Some (older_holder r r')) ∧ (is_Some r' → is_Some (older_holder r r')).
Proof.
  intros Hr Hr'. rw /older_holder. destruct r' as [h|]; [|split; [done|]; split; [done|]; by intros []].
  case_match eqn:Hlt; [split; [done|]; split; intros _; by eexists|]. split; [done|]. split; [done|]. intros _.
  destruct r as [x|]; [by eexists|]. destruct (Hr' h eq_refl) as [_ He]. apply Z.ltb_ge in Hlt. simpl in Hlt. lia.
Qed.

Lemma oldest_step_spec t period r h w : t ≤ clock w → finds closable r w →
  wp (oldest_step period r h) (λ r' w', ticked w w' ∧ finds closable r' w' ∧ (is_Some r → is_Some r') ∧
    (closable w h ∧ stale t period h → is_Some r')) w.
Proof.
  intros Htime Hr. assert (∀ w', ticked w w' → finds closable r w') as Hkeep by (intros w' Ht; by apply (ticked_finds_closable w)).
  rw /oldest_step /has_active_blob /holder_query /holder_storage. apply wpx_bind, wpx_bind, wpx_gets.
  destruct (PearlSync_get _) as [s|] eqn:Hs.
  2:{ apply wpx_ret, wpx_ret. split; [done|]. split; [by apply Hkeep|]. split; [done|]. intros [[(s & Hs' & _) _] _]. by rw Hs in Hs'. }
  apply wpx_gets. destruct (pe_has_active_blob s (pw_disk w)) eqn:Ha.
  2:{ apply wpx_ret. split; [done|]. split; [by apply Hkeep|]. split; [done|]. intros [[(s' & Hs' & Ha') _] _]. rw Hs in Hs'.
      injection Hs' as <-. by rw Ha in Ha'. }
  assert (active w h) as Hh by by exists s.
  apply wpx_bind, wp_clock. intros w1 Ht1. destruct (end_timestamp h <? clock w) eqn:Hout.
  2:{ apply wpx_ret. split; [done|]. split; [by apply Hkeep|]. split; [done|]. intros [_ Hst].
      destruct (stale_outdated _ _ _ w Hst Htime) as [Hout' _]. by rw Hout in Hout'. }
  apply wpx_bind, wp_clock. intros w2 Ht2. assert (ticked w w2) as Ht12 by by transitivity w1.
  apply wpx_ret. split; [done|]. pose proof (tk_clock _ _ Ht1). case_match eqn:Hc.
  - apply andb_true_iff in Hc as [_ Hend%Z.ltb_lt]. split; [|split; intros _; by eexists]. intros x [= <-].
    split; [by apply (ticked_active w)|]. destruct r as [y|]; simpl in Hend; [|done]. destruct (Hr y eq_refl) as [_ Hy]. lia.
  - split; [by apply Hkeep|]. split; [done|]. intros [[_ He] Hst]. destruct (stale_outdated t period h w1 Hst ltac:(lia)) as [_ Hold].
    rw Hold /= in Hc. destruct r as [y|]; [by eexists|]. apply Z.ltb_ge in Hc. simpl in Hc. lia.
Qed.

Lemma group_oldest_spec t g w : t ≤ clock w →
  wp (find_oldest_inactive_holder g) (λ r w', ticked w w' ∧ finds closable r w' ∧
    ∀ h, h ∈ group_walk w g → closable w h ∧ stale t (inactive_period g) h → is_Some r) w.
Proof.
  intros Htime. rw /find_oldest_inactive_holder /read_holders. apply wpx_bind, wpx_gets.
  apply (each_ticked (finds closable) is_Some); [|by intros h]. intros r h w1 _ Ht1 Hr. pose proof (tk_clock _ _ Ht1).
  eapply wpx_mono; [apply (oldest_step_spec t); [lia|done]|]. intros r' w2 (Ht2 & Hr' & Hkeep & Hgood).
  split; [done|]. split; [done|]. split; [done|]. intros [Hc Hst]. apply Hgood. split; [by apply (ticked_closable w)|done].
Qed.

Lemma dc_oldest_spec t dc w : t ≤ clock w →
  wp (dc_find_oldest_inactive_holder dc) (λ r w', ticked w w' ∧ finds closable r w' ∧
    ∀ g, g ∈ dcc_groups (dc_cell w (dc_id dc)) → (∃ h, h ∈ group_walk w g ∧ closable w h ∧ stale t (inactive_period g) h) → is_Some r) w.
Proof.
  intros Htime. rw /dc_find_oldest_inactive_holder /read_groups. apply wpx_bind, wpx_gets.
  apply (each_ticked (finds closable) is_Some); [|by intros h]. intros r g w1 _ Ht1 Hr. pose proof (tk_clock _ _ Ht1).
  apply wpx_bind. eapply wpx_mono; [apply (group_oldest_spec t); lia|]. intros r' w2 (Ht2 & Hr' & Hgood). apply wpx_ret.
  destruct (older_finds r r' w2) as (Hold & Hkeep & Hnew); [by apply (ticked_finds_closable w1)|done|].
  split; [done|]. split; [done|]. split; [done|]. intros (h & Hin & Hc & Hst). apply Hnew, (Hgood h).
  - by rw (proj1 (ticked_groups _ _ g dc Ht1)).
  - split; [by apply (ticked_closable w)|done].
Qed.

(** What is closed frees some memory; when nothing is, no holder to close is stale. *)
Lemma oldest_spec p w :
  wp (close_oldest_active_blob p) (λ r w', match r with Some freed => 1 ≤ freed | None => ticked w w' ∧ nothing_stale closable p w end) w.
Proof.
  rw /close_oldest_active_blob. apply wpx_bind. eapply wpx_mono.
  { apply (each_ticked (finds closable) is_Some (λ dc, ∃ g h, g ∈ dcc_groups (dc_cell w (dc_id dc)) ∧ h ∈ group_walk w g ∧ closable w h ∧
      stale (clock w) (inactive_period g) h)); [|by intros h].
    intros r dc w1 _ Ht1 Hr. pose proof (tk_clock _ _ Ht1). apply wpx_bind.
    eapply wpx_mono; [apply (dc_oldest_spec (clock w)); lia|]. intros r' w2 (Ht2 & Hr' & Hgood). apply wpx_ret.
    destruct (older_finds r r' w2) as (Hold & Hkeep & Hnew); [by apply (ticked_finds_closable w1)|done|].
    split; [done|]. split; [done|]. split; [done|]. intros (g & h & Hg & Hin & Hc & Hst).
    destruct (ticked_groups _ _ g dc Ht1) as (Hgw & Hdg & _). apply Hnew, (Hgood g); [by rw Hdg|]. exists h. rw Hgw.
    split; [done|]. split; [by apply (ticked_closable w)|done]. }
  intros [h|] w1 (Ht & Hh & Hgood).
  - destruct (Hh h eq_refl) as [(s & Hs & Ha) _].
    rw /active_index_memory /holder_query /holder_storage. apply wpx_bind, wpx_bind, wpx_gets. rw Hs. apply wpx_gets.
    apply wpx_bind. destruct (total_close_active_blob h w1) as [[[] w2] Hc]. rw {1}/wpx Hc. apply wpx_ret. by apply active_has_index.
  - apply wpx_ret. split; [done|]. intros dc g h Hdc Hg Hin Hc Hst. destruct (Hgood dc Hdc) as [? [=]]. by exists g, h.
Qed.

(** *** The holder with something to free *)

Definition modified (w : PearlWorld) (h : Holder) : Z := hc_last_modification (holder_cell w (h_id h)).
(** One that is modified at the end of time is never taken. *)
Definition freeable (w : PearlWorld) (h : Holder) : Prop := excess w h = true ∧ modified w h < u64_max.

(** The choice of a search among [L] so far *)
Definition chosen (L : list Holder) (s : option Holder * Z) (w : PearlWorld) : Prop :=
  finds (λ w h, freeable w h ∧ h ∈ L) s.1 w ∧ s.2 ≤ u64_max ∧ (s.1 = None → s.2 = u64_max).

Lemma ticked_freeable w w' h : ticked w w' → freeable w h → freeable w' h.
Proof. intros Ht [He Hm]. split; [by rw (ticked_excess w)|]. destruct Ht as [_ Hw _ _]. by rw Hw. Qed.
Lemma ticked_chosen L s w w' : ticked w w' → chosen L s w → chosen L s w'.
Proof. intros Ht [Hf Hn]. split; [|done]. intros x Hx. destruct (Hf x Hx) as [Hfree Hin]. split; [by apply (ticked_freeable w)|done]. Qed.

Lemma chosen_start L w : chosen L (None, u64_max) w.
Proof. split; [by intros h|done]. Qed.

Lemma freeable_step_spec t L period s h w : t ≤ clock w → h ∈ L → chosen L s w →
  wp (freeable_step period s h) (λ s' w', ticked w w' ∧ chosen L s' w' ∧ (is_Some s.1 → is_Some s'.1) ∧
    (freeable w h ∧ stale t period h → is_Some s'.1)) w.
Proof.
  intros Htime Hin Hs. assert (∀ w', ticked w w' → chosen L s w') as Hkeep by (intros w' Ht; by apply (ticked_chosen L s w)).
  rw /freeable_step /is_outdated. apply wpx_bind, wp_clock. intros w1 Ht1. destruct (end_timestamp h <? clock w) eqn:Hout.
  2:{ apply wpx_ret. split; [done|]. split; [by apply Hkeep|]. split; [done|]. intros [_ Hst].
      destruct (stale_outdated _ _ _ w Hst Htime) as [Hout' _]. by rw Hout in Hout'. }
  pose proof (tk_clock _ _ Ht1). apply wpx_bind, wp_clock. intros w2 Ht2. assert (ticked w w2) as Ht12 by by transitivity w1.
  destruct (end_timestamp h <? wrap64 (clock w1 - period)) eqn:Hold.
  2:{ apply wpx_ret. split; [done|]. split; [by apply Hkeep|]. split; [done|]. intros [_ Hst].
      destruct (stale_outdated t period h w1 Hst ltac:(lia)) as [_ Hold']. by rw Hold in Hold'. }
  rw /last_modification. apply wpx_bind, wpx_gets. rw /has_excess_resources /holder_query /holder_storage. apply wpx_bind, wpx_bind, wpx_gets.
  pose proof (Hkeep w2 Ht12) as (Hf2 & Hmax2 & Hn2).
  destruct (PearlSync_get _) as [st|] eqn:Hst; [apply wpx_gets|apply wpx_ret]; apply wpx_ret; (split; [done|]); last first.
  { split; [by split|]. split; [done|]. intros [Hfree _]. apply (ticked_freeable _ _ _ Ht12) in Hfree as [He _]. by rw /excess Hst in He. }
  case_match eqn:Hc.
  - apply andb_true_iff in Hc as [He Hm%Z.ltb_lt]. split; [|split; intros _; by eexists]. split; [|split; [simpl; lia|done]].
    intros x [= <-]. split; [|done]. split; [by rw /excess Hst|]. rw /modified. lia.
  - split; [by split|]. split; [done|]. intros [Hfree _]. apply (ticked_freeable _ _ _ Ht12) in Hfree as [He Hm]. rw /excess Hst in He.
    rw He /= in Hc. apply Z.ltb_ge in Hc. destruct s as [[y|] n]; [by eexists|]. specialize (Hn2 eq_refl). simpl in Hn2, Hc. rw /modified in Hm. lia.
Qed.

Lemma less_modified_spec L s r w : chosen L s w → finds (λ w h, freeable w h ∧ h ∈ L) r w →
  wp (less_modified s r) (λ s' w', w' = w ∧ chosen L s' w' ∧ (is_Some s.1 → is_Some s'.1) ∧ (is_Some r → is_Some s'.1)) w.
Proof.
  intros Hs Hr. rw /less_modified. destruct r as [h|]; [|apply wpx_ret; split; [done|split; [done|split; [done|by intros []]]]].
  destruct (Hr h eq_refl) as [[He Hm] Hin]. rw /last_modification. apply wpx_bind, wpx_gets, wpx_ret. split; [done|]. rw /modified in Hm.
  destruct Hs as (Hf & Hmax & Hn). case_match eqn:Hc.
  - apply Z.ltb_lt in Hc. split; [|split; intros _; by eexists]. split; [by intros x [= <-]|]. split; [simpl; lia|done].
  - split; [by split|]. split; [done|]. intros _. destruct s as [[y|] n]; [by eexists|]. specialize (Hn eq_refl). simpl in Hn, Hc.
    apply Z.ltb_ge in Hc. lia.
Qed.

Lemma group_freeable_spec t (L : list Holder) g w : t ≤ clock w → (∀ h, h ∈ group_walk w g → h ∈ L) →
  wp (find_least_modified_freeable_holder g) (λ r w', ticked w w' ∧ finds (λ w h, freeable w h ∧ h ∈ L) r w' ∧
    ∀ h, h ∈ group_walk w g → freeable w h ∧ stale t (inactive_period g) h → is_Some r) w.
Proof.
  intros Htime Hin. rw /find_least_modified_freeable_holder /read_holders. apply wpx_bind, wpx_gets, wpx_bind. eapply wpx_mono.
  { apply (each_ticked (chosen L) (λ s, is_Some s.1) (λ h, freeable w h ∧ stale t (inactive_period g) h)); [|apply chosen_start].
    intros s h w1 Hh Ht1 Hs. pose proof (tk_clock _ _ Ht1).
    eapply wpx_mono; [apply (freeable_step_spec t L); [lia|by apply Hin|done]|]. intros s' w2 (Ht2 & Hs' & Hkeep & Hgood).
    split; [done|]. split; [done|]. split; [done|]. intros [Hfree Hst]. apply Hgood. split; [by apply (ticked_freeable w)|done]. }
  intros s w1 (Ht & [Hs _] & Hgood). apply wpx_ret. split; [done|]. split; [done|]. intros h Hh. by apply Hgood.
Qed.

Lemma dc_freeable_spec t (L : list Holder) dc w : t ≤ clock w → (∀ h, h ∈ dc_walk w dc → h ∈ L) →
  wp (dc_find_least_modified_freeable_holder dc) (λ r w', ticked w w' ∧ finds (λ w h, freeable w h ∧ h ∈ L) r w' ∧
    ∀ g, g ∈ dcc_groups (dc_cell w (dc_id dc)) → (∃ h, h ∈ group_walk w g ∧ freeable w h ∧ stale t (inactive_period g) h) → is_Some r) w.
Proof.
  intros Htime Hin. rw /dc_find_least_modified_freeable_holder /read_groups. apply wpx_bind, wpx_gets, wpx_bind. eapply wpx_mono.
  { apply (each_ticked (chosen L) (λ s, is_Some s.1) (λ g, ∃ h, h ∈ group_walk w g ∧ freeable w h ∧ stale t (inactive_period g) h));
      [|apply chosen_start].
    intros s g w1 Hg Ht1 Hs. pose proof (tk_clock _ _ Ht1). destruct (ticked_groups _ _ g dc Ht1) as (Hgw & _ & _).
    apply wpx_bind. eapply wpx_mono; [apply (group_freeable_spec t L); [lia|]|].
    - intros h Hh. rw Hgw in Hh. apply Hin. rw /dc_walk. apply list_elem_of_bind. by exists g.
    - intros r w2 (Ht2 & Hr & Hgood). eapply wpx_mono; [apply (less_modified_spec L); [by apply (ticked_chosen L _ w1)|done]|].
      intros s' w3 (-> & Hs' & Hkeep & Hnew). split; [done|]. split; [done|]. split; [done|].
      intros (h & Hh & Hfree & Hst). apply Hnew, (Hgood h); [by rw Hgw|]. split; [by apply (ticked_freeable w)|done]. }
  intros s w1 (Ht & [Hs _] & Hgood). apply wpx_ret. split; [done|]. split; [done|]. intros g Hg. by apply Hgood.
Qed.

(** The holders with something to free, by the places where the search meets them *)
Definition excesses (p : Pearl) (w : PearlWorld) : nat := length (filter (λ h, excess w h = true) (walk p w)).

Lemma filter_fewer {A} (P Q : A → Prop) `{∀ x, Decision (P x), ∀ x, Decision (Q x)} (l : list A) a :
  (∀ x, Q x → P x) → a ∈ l → P a → ¬ Q a → (length (filter Q l) < length (filter P l))%nat.
Proof using Type.
  intros Hsub Hin Hp Hq. assert (∀ l, (length (filter Q l) ≤ length (filter P l))%nat) as Hle.
  { intros k. induction k as [|x k IH]; [done|]. rw !filter_cons. destruct (decide (Q x)) as [Hx|Hx].
    - rw (decide_True (P := P x)); [by apply Hsub|]. simpl. lia.
    - case_decide; simpl; lia. }
  induction l as [|x l IH]; [by apply elem_of_nil in Hin|]. rw !filter_cons. apply elem_of_cons in Hin as [<-|Hin].
  - rw decide_False // decide_True //=. specialize (Hle l). lia.
  - specialize (IH Hin). destruct (decide (Q x)) as [Hx|Hx]; [rw (decide_True (P := P x)); [by apply Hsub|]|case_decide]; simpl; lia.
Qed.

(** What is freed leaves fewer such holders; when nothing is, none of them is stale. *)
Lemma least_used_spec p w :
  wp (free_least_used_resources p) (λ r w', match r with Some _ => (excesses p w' < excesses p w)%nat | None => ticked w w' ∧ nothing_stale freeable p w end) w.
Proof.
  rw /free_least_used_resources. apply wpx_bind. eapply wpx_mono.
  { apply (each_ticked (chosen (walk p w)) (λ s, is_Some s.1) (λ dc, ∃ g h, g ∈ dcc_groups (dc_cell w (dc_id dc)) ∧ h ∈ group_walk w g ∧
      freeable w h ∧ stale (clock w) (inactive_period g) h)); [|apply chosen_start].
    intros s dc w1 Hdc Ht1 Hs. pose proof (tk_clock _ _ Ht1). destruct (ticked_groups _ _ toy_group dc Ht1) as (_ & Hdg & Hdw).
    apply wpx_bind. eapply wpx_mono; [apply (dc_freeable_spec (clock w) (walk p w)); [lia|]|].
    - intros h Hh. rw Hdw in Hh. rw /walk. apply list_elem_of_bind. by exists dc.
    - intros r w2 (Ht2 & Hr & Hgood). eapply wpx_mono; [apply (less_modified_spec (walk p w)); [by apply (ticked_chosen _ _ w1)|done]|].
      intros s' w3 (-> & Hs' & Hkeep & Hnew). split; [done|]. split; [done|]. split; [done|].
      intros (g & h & Hg & Hin & Hfree & Hst). apply Hnew, (Hgood g); [by rw Hdg|]. exists h.
      rw (proj1 (ticked_groups _ _ g dc Ht1)). split; [done|]. split; [by apply (ticked_freeable w)|done]. }
  intros [[h|] n] w1 (Ht & [Hs _] & Hgood); last first.
  { apply wpx_ret. split; [done|]. intros dc g h Hdc Hg Hin Hfree Hst. destruct (Hgood dc Hdc) as [? [=]]. by exists g, h. }
  destruct (Hs h eq_refl) as [[He _] Hin]. cbn [fst].
    rw /free_excess_resources /holder_storage. apply wpx_bind, wpx_bind, wpx_gets. rw /excess in He.
    destruct (PearlSync_get _) as [st|] eqn:Hst; [|done]. rw /wpx /ext.
    pose proof (freed_is_gone st (pw_disk w1)) as Hgone. pose proof (λ s, freed_adds_none st s (pw_disk w1)) as Hnone.
    destruct (pe_free_excess_resources st (pw_disk w1)) as [freed d]. simpl in Hgone, Hnone |- *.
    rw /excesses. assert (walk p (set_disk d w1) = walk p w) as -> by (rw (tk_world _ _ Ht); done).
    apply (filter_fewer _ _ _ h); [|done|..].
    + intros x. rw -(ticked_excess w w1 x Ht) /excess /=. change (holder_cell (set_disk d w1) (h_id x)) with (holder_cell w1 (h_id x)).
      destruct (PearlSync_get (hc_storage (holder_cell w1 (h_id x)))) as [s|]; [|done]. specialize (Hnone s). rw !Z.ltb_lt. lia.
    + by rw -(ticked_excess w w1 h Ht) /excess Hst.
    + rw /excess. change (holder_cell (set_disk d w1) (h_id h)) with (holder_cell w1 (h_id h)). rw Hst /= Z.ltb_lt. lia.
Qed.

(** ** The turns *)

(** The three parts of a turn of [task], each as the code says; the loop on the memory runs
    to its end. *)
Definition counts_cleaned (inner : option Pearl) (soft hard : option Z) (w w' : PearlWorld) : Prop :=
  match soft, hard with
  | None, None => w' = w
  | _, _ => index_cleanup_by_active_count_limit inner (default 1 soft) (default 10 hard) w = Some (tt, w')
  end.
Definition memory_cleaned (inner : option Pearl) (sub : Z → Z → Z) (free : M PearlWorld (option Z))
    (P : PearlWorld → Holder → Prop) (limit : option Z) (w w' : PearlWorld) : Prop :=
  match limit with
  | Some limit => ∃ memory left, backend_index_memory inner w = Some (memory, w) ∧ cleans sub free limit memory w left w' ∧
      (left ≤ limit ∨ ∃ p w0, inner = Some p ∧ ticked w0 w' ∧ nothing_stale P p w0)
  | None => w' = w
  end.
Definition filters_cleaned (inner : option Pearl) (limit : option Z) (w w' : PearlWorld) : Prop :=
  match limit with Some limit => backend_offload_old_filters inner limit w = Some (tt, w') | None => w' = w end.

(** A backend without disks counts no memory. *)
Lemma loop_left inner sub free P limit memory w left w' : 0 ≤ limit →
  backend_index_memory inner w = Some (memory, w) → cleans sub free limit memory w left w' →
  (∀ p w0, inner = Some p → free w0 = Some (None, w') → ticked w0 w' ∧ nothing_stale P p w0) →
  left ≤ limit ∨ ∃ p w0, inner = Some p ∧ ticked w0 w' ∧ nothing_stale P p w0.
Proof.
  intros Hl Hm Hc Hnone. destruct inner as [p|].
  - destruct (cleans_end _ _ _ _ _ _ _ Hc) as [Hle|[w0 Hw0]]; [by left|]. right. exists p, w0. split; [done|]. by apply Hnone.
  - injection Hm as <-. inversion Hc; subst; [by left|lia|lia].
Qed.

Lemma slow_loop_ends inner limit memory w : 0 ≤ limit → backend_index_memory inner w = Some (memory, w) → ∃ left w',
  cleans saturating_sub (backend_close_oldest_active_blob inner) limit memory w left w' ∧
  (left ≤ limit ∨ ∃ p w0, inner = Some p ∧ ticked w0 w' ∧ nothing_stale closable p w0) ∧
  ∀ fuel, (S (Z.to_nat (memory - limit)) ≤ fuel)%nat →
    free_while saturating_sub (backend_close_oldest_active_blob inner) limit fuel memory w = Some (Some left, w').
Proof.
  intros Hl Hm. destruct (free_while_cleans saturating_sub (backend_close_oldest_active_blob inner) limit (λ _ _, True)
    (λ m _, Z.to_nat (m - limit)) (S (Z.to_nat (memory - limit))) memory w) as (left & w' & Hr & Hc).
  - intros w1. rw /backend_close_oldest_active_blob /on_inner. destruct inner as [p|]; [|by eexists].
    destruct (wp_total _ _ _ (oldest_spec p w1)) as (r & w2 & Hr & _). by rw Hr.
  - done.
  - intros m w1 freed w2 _ Hlt Hf. split; [done|]. rw /backend_close_oldest_active_blob /on_inner in Hf. destruct inner as [p|]; [|done].
    pose proof (wpx_elim _ _ _ _ _ _ (oldest_spec p w1) Hf) as Hpos. simpl in Hpos. rw /saturating_sub. lia.
  - lia.
  - exists left, w'. split; [done|]. split; [|intros fuel Hfuel; by eapply free_while_more].
    eapply loop_left; [done..|]. intros p w0 -> Hf. exact (wpx_elim _ _ _ _ _ _ (oldest_spec p w0) Hf).
Qed.

Lemma fast_loop_ends inner limit memory w : 0 ≤ limit → backend_index_memory inner w = Some (memory, w) → ∃ enough left w',
  cleans wrapping_sub (backend_free_least_used_holder_resources inner) limit memory w left w' ∧
  (left ≤ limit ∨ ∃ p w0, inner = Some p ∧ ticked w0 w' ∧ nothing_stale freeable p w0) ∧
  ∀ fuel, (enough ≤ fuel)%nat →
    free_while wrapping_sub (backend_free_least_used_holder_resources inner) limit fuel memory w = Some (Some left, w').
Proof.
  intros Hl Hm. set (measure := λ (m : Z) w, match inner with Some p => excesses p w | None => 0%nat end). exists (S (measure memory w)).
  destruct (free_while_cleans wrapping_sub (backend_free_least_used_holder_resources inner) limit (λ _ _, True)
    measure (S (measure memory w)) memory w) as (left & w' & Hr & Hc).
  - intros w1. rw /backend_free_least_used_holder_resources /on_inner. destruct inner as [p|]; [|by eexists].
    destruct (wp_total _ _ _ (least_used_spec p w1)) as (r & w2 & Hr & _). by rw Hr.
  - done.
  - intros m w1 freed w2 _ Hlt Hf. split; [done|]. rw /backend_free_least_used_holder_resources /on_inner in Hf. rw /measure.
    destruct inner as [p|]; [|done]. exact (wpx_elim _ _ _ _ _ _ (least_used_spec p w1) Hf).
  - lia.
  - exists left, w'. split; [done|]. split; [|intros fuel Hfuel; by eapply free_while_more].
    eapply loop_left; [done..|]. intros p w0 -> Hf. exact (wpx_elim _ _ _ _ _ _ (least_used_spec p w0) Hf).
Qed.

(** More fuel does not change a turn that ended. *)
Lemma turns_more inner c fuel fuel' w w' : (fuel ≤ fuel')%nat →
  (Cleaner_turn inner c fuel w = Some (tt, w') → Cleaner_turn inner c fuel' w = Some (tt, w')) ∧
  (Cleaner_fast_turn inner c fuel w = Some (tt, w') → Cleaner_fast_turn inner c fuel' w = Some (tt, w')).
Proof.
  intros Hle. rw /Cleaner_turn /Cleaner_fast_turn /cleaner_turn. split.
  - intros Hr. apply bind_Some_inv in Hr as ([] & w1 & H1' & Hr). apply bind_Some_inv in Hr as ([] & w2 & H2' & Hr).
    rw (bind_run _ _ _ _ _ H1') (bind_run _ _ w1 tt w2) //. destruct (cn_index_memory_limit_soft c) as [l|]; [|done].
    apply bind_Some_inv in H2' as (left & w3 & Hloop & H2'). apply bind_Some_inv in H2' as (l' & w4 & [-> ->]%expect_inv & [= ->]).
    apply bind_Some_inv in Hloop as (memory & w5 & Hm & Hloop).
    rw /index_cleanup_by_memory_limit (bind_run _ _ w1 (Some l') w2) // (bind_run _ _ _ _ _ Hm). by apply (free_while_more _ _ _ fuel).
  - destruct (cn_index_memory_limit c) as [l|]; [|done]. intros Hr.
    apply bind_Some_inv in Hr as (left & w3 & Hloop & Hr). apply bind_Some_inv in Hr as (l' & w4 & [-> ->]%expect_inv & [= ->]).
    apply bind_Some_inv in Hloop as (memory & w5 & Hm & Hloop).
    rw /fast_cleaner_turn (bind_run _ _ w (Some l') w') // (bind_run _ _ _ _ _ Hm). by apply (free_while_more _ _ _ fuel).
Qed.

End turns.

(** ** Witness: two holders on one disk

    The clock stands still.  Each holder has an active blob with an index of 100 bytes, and 60 bytes
    it can do without; what was closed or freed is noted among the directories. *)

Module Meter.
#[local] Existing Instances Parsers_example Chrono_example Chrono_example_laws Sha256_example.
#[local] Instance one_byte_keys : KeySize := 1%nat.

Definition noted (note : string) (s : ToyStorage) (d : ToyDisk) : bool := bool_decide (note +:+ ts_dir s ∈ td_dirs d).
Definition note (note : string) (s : ToyStorage) (d : ToyDisk) : ToyDisk := toy_with_dirs ((note +:+ ts_dir s) :: td_dirs d) d.
Definition inactive_memory (s : ToyStorage) (d : ToyDisk) : Z := if noted "freed:" s d then 0 else 60.
Definition active_memory (s : ToyStorage) (d : ToyDisk) : Z := if noted "closed:" s d then 0 else 100.

Definition meter_crate : PearlCrate := {|
  Disk := ToyDisk; PearlStorage := ToyStorage; Filter := unit;
  pe_now := @pe_now toy_crate; pe_coarse_now d := (1700000000, d); fs_exists := @fs_exists toy_crate;
  fs_create_dir_all := @fs_create_dir_all toy_crate; fs_remove_file := @fs_remove_file toy_crate;
  fs_remove_dir_all := @fs_remove_dir_all toy_crate; fs_read_dir := @fs_read_dir toy_crate;
  pe_build := @pe_build toy_crate; pe_init := @pe_init toy_crate; pe_init_lazy := @pe_init_lazy toy_crate;
  pe_write := @pe_write toy_crate; pe_read := @pe_read toy_crate; pe_contains := @pe_contains toy_crate;
  pe_delete := @pe_delete toy_crate; pe_close := @pe_close toy_crate; pe_fsyncdata := @pe_fsyncdata toy_crate;
  pe_close_active_blob_in_background := note "closed:";
  pe_free_excess_resources s d := (inactive_memory s d, note "freed:" s d);
  pe_offload_buffer := @pe_offload_buffer toy_crate;
  pe_blobs_count := @pe_blobs_count toy_crate; pe_corrupted_blobs_count := @pe_corrupted_blobs_count toy_crate;
  pe_active_index_memory := active_memory; pe_inactive_index_memory := inactive_memory;
  pe_index_memory s d := active_memory s d + inactive_memory s d;
  pe_records_count := @pe_records_count toy_crate;
  pe_has_active_blob s d := negb (noted "closed:" s d);
  pe_records_count_in_active_blob := @pe_records_count_in_active_blob toy_crate;
  pe_filter_memory_allocated := @pe_filter_memory_allocated toy_crate; pe_disk_used := @pe_disk_used toy_crate;
  pe_check_filter := @pe_check_filter toy_crate; pe_get_filter := @pe_get_filter toy_crate;
  HoldersContainer := @HoldersContainer toy_crate; hf_new := @hf_new toy_crate; hf_iter := @hf_iter toy_crate;
  hf_len := @hf_len toy_crate; hf_get_child := @hf_get_child toy_crate;
  hf_possible_childs_rev := @hf_possible_childs_rev toy_crate; hf_add_to_parents := @hf_add_to_parents toy_crate;
  hf_push _ h c := (length c, c ++ [h]); hf_extend _ l c := c ++ l; hf_remove := @hf_remove toy_crate;
  hf_clear := @hf_clear toy_crate; hf_clear_and_get_values := @hf_clear_and_get_values toy_crate;
  hf_reload _ c := c; hf_filter_memory := @hf_filter_memory toy_crate;
|}.
#[local] Existing Instance meter_crate.

Lemma note_noted n s d : noted n s (note n s d) = true.
Proof. apply bool_decide_eq_true. by left. Qed.
Lemma noted_note n n' s s' d : noted n s d = true → noted n s (note n' s' d) = true.
Proof. rw /noted !bool_decide_eq_true. intros Hin. by right. Qed.

#[local] Instance meter_laws : CleanerLaws.
Proof.
  split; cbn; [intros d; rw /u64; lia|done|done|done|..].
  - intros s d. rw /active_memory. by destruct (noted "closed:" s d).
  - intros s d. by rw /inactive_memory note_noted.
  - intros s s' d. rw /inactive_memory. destruct (noted "freed:" s' d) eqn:Hn; [by rw noted_note|]. by case_match.
Qed.

Definition meter_dc (id : nat) : DiskController := {|
  dc_id := id; dc_disk := {| dp_name := "disk_0"; dp_path := "/disk_0" |}; dc_vdisks := [1]; dc_node_name := "node_1";
  dc_settings := toy_settings; dc_is_alien := false |}.
Definition meter_pearl : Pearl := {|
  p_disk_controllers := [meter_dc 0]; p_alien_disk_controller := meter_dc 1; p_bloom_filter_memory_limit := None |}.
Definition open_over (dir : string) : HolderCell := {|
  hc_storage := {| ps_state := Running ({| ts_dir := dir; ts_duplicates := true |} : @PearlStorage meter_crate) |};
  hc_last_modification := 1690000000; hc_init_free := true |}.
Definition meter_start : PearlWorld := {|
  pw_disk := {| td_now := 1700000000; td_dirs := []; td_records := λ _ _, NotFound |} : @Disk meter_crate;
  pw_holders := {[ h_id day_one := open_over "one"; h_id day_two := open_over "two" ]};
  pw_groups := {[ g_id toy_group := {| gc_holders := [day_one; day_two] : @HoldersContainer meter_crate; gc_reinit_free := true |} ]};
  pw_dcs := {[ 0%nat := {| dcc_groups := [toy_group]; dcc_state := DiskReady; dcc_blobs_count_cached := 0 |} ]};
  pw_hooks := Hooks_new None; pw_fresh := 3 |}.

(** The limit of 225 bytes makes a soft limit of 250. *)
Definition meter_cleaner : Cleaner := Cleaner_new 0 None None None (Some 225) None.

Definition slow_end : PearlWorld :=
  match Cleaner_turn (Some meter_pearl) meter_cleaner 9 meter_start with Some (_, w) => w | None => meter_start end.
Definition fast_end : PearlWorld :=
  match Cleaner_fast_turn (Some meter_pearl) meter_cleaner 9 meter_start with Some (_, w) => w | None => meter_start end.

End Meter.
