(* ===== verification/LinkManager.v ===== *)
(** * LinkManager: the tasks that keep the connections of a node

    [bob/src/link_manager.rs]: the checker that pings every node in turn, the queue of nodes
    whose ping was received, and the task that serves the queue.  The factory of clients and
    the ping are the class [LinkNet]; a check of a node is atomic, and the tasks interleave
    between checks.  The calls to nodes are in the file [Network]. *)

From Corelib Require Import ssreflect.
From stdpp Require Import base option list relations strings gmap numbers.
From Stdlib Require Import Strings.Byte Strings.Ascii ZArith Lia.
From S2P Require Import Prelude Data Text Errors Options Node.

(** [Factory::produce], the ping of a client, and [{:?}] of its error. *)
Class LinkNet (W : Type) := {
  Client : Type;
  net_produce : Node → M W (result Client string);
  net_ping : Client → M W (result unit Error);
  debug_error : Error → string;
}.

Section links.
Context {W : Type} `{LinkNet W}.

(** The connections, and the queue once the checker was spawned. *)
Record LinkWorld : Type := {
  lw_conns : gmap NodeName (NodeConn Client);
  lw_queue : option (list string);
  lw_net : W;
}.

Definition link_conn (name : NodeName) (w : LinkWorld) : NodeConn Client := default conn_init (lw_conns w !! name).
Definition put_conn (name : NodeName) (c : NodeConn Client) (w : LinkWorld) : LinkWorld :=
  {| lw_conns := <[name := c]> (lw_conns w); lw_queue := lw_queue w; lw_net := lw_net w |}.
Definition set_queue (q : option (list string)) (w : LinkWorld) : LinkWorld :=
  {| lw_conns := lw_conns w; lw_queue := q; lw_net := lw_net w |}.
Definition on_net {A} (m : M W A) : M LinkWorld A := λ w,
  match m (lw_net w) with
  | Some (a, n) => Some (a, {| lw_conns := lw_conns w; lw_queue := lw_queue w; lw_net := n |})
  | None => None
  end.

(** *** [Node::check] and [Node::ping] *)

Definition link_ping (node : Node) (conn : Client) : M LinkWorld (result unit string) :=
  r ← on_net (net_ping conn);
  match r with
  | Err e => _ ← modify (λ w, put_conn (node_name node) (clear_connection (link_conn (node_name node) w)) w); mret (Err (debug_error e))
  | Ok _ => mret (Ok tt)
  end.

Definition link_check (node : Node) : M LinkWorld (result unit string) :=
  c ← gets (link_conn (node_name node));
  match get_connection c with
  | Some conn => link_ping node conn
  | None =>
      client ← on_net (net_produce node);
      match client with
      | Err e => mret (Err e)
      | Ok client =>
          r ← link_ping node client;
          match r with
          | Err e => mret (Err e)
          | Ok _ => _ ← modify (λ w, put_conn (node_name node) (set_connection client (link_conn (node_name node) w)) w); mret (Ok tt)
          end
      end
  end.

(** *** The checker *)

Definition FAST_PING_PERIOD_MS : Z := 100.
Definition FAST_PING_DURATION_SEC : Z := 60.

(** [{:<10}] *)
Definition pad_to_10 (s : string) : string :=
  s +:+ Stdlib.Strings.String.string_of_list_ascii (replicate (10 - String.length s) " "%char).

Definition check_step (log_in_this_iter : bool) (s : Z * string) (node : Node) : M LinkWorld (Z * string) :=
  r ← link_check node;
  let mark m := if log_in_this_iter then s.2 +:+ m +:+ pad_to_10 (node_name node) +:+ " " else s.2 in
  mret (match r with Err _ => (s.1 + 1, mark "[-]") | Ok _ => (s.1, mark "[+]") end).

(** A turn: the next number of the turn, the gauge of available nodes, the line of the log. *)
Definition checker_turn (nodes : list Node) (log_iteration_div i : Z) : M LinkWorld (Z * Z * option string) :=
  let i := wrap64 (i + 1) mod log_iteration_div in
  let log_in_this_iter := i =? 0 in
  s ← for_each (check_step log_in_this_iter) (0, "Node status: ") nodes;
  mret (i, wrap64 (Z.of_nat (length nodes) - s.1), if log_in_this_iter then Some s.2 else None).

(** [checker]: it stops before the first turn whose clock says so; [None] of the fuel: still
    running. *)
Fixpoint checker (should_stop : M LinkWorld bool) (nodes : list Node) (log_iteration_div i : Z) (fuel : nat)
    : M LinkWorld (option Z) :=
  stop ← should_stop;
  if (stop : bool) then mret (Some i)
  else
    match fuel with
    | O => mret None
    | S fuel =>
        r ← checker_turn nodes log_iteration_div i;
        checker should_stop nodes log_iteration_div r.1.1 fuel
    end.

(** The fast checker's period and the turns between its lines in the log, in milliseconds. *)
Definition fast_log_iteration_div (period_ms : Z) : Z := Z.max (period_ms / FAST_PING_PERIOD_MS) 1.
Definition fast_period (period_ms : Z) : Z := Z.min FAST_PING_PERIOD_MS period_ms.

(** *** The queue *)

Definition queue_capacity (nodes : list Node) : nat := length nodes * 2.

(** A channel without room aborts. *)
Definition spawn_checker (nodes : list Node) : M LinkWorld unit :=
  if bool_decide (queue_capacity nodes = 0%nat) then panic else modify (set_queue (Some [])).

Definition find_node (nodes : list Node) (name : string) : option Node := List.find (λ n, bool_decide (node_name n = name)) nodes.

(** When the queue is full the ping is forgotten. *)
Definition update_node_connection (nodes : list Node) (name : string) : M LinkWorld unit :=
  match find_node nodes name with
  | None => mret tt
  | Some node =>
      available ← gets (λ w, connection_available (link_conn (node_name node) w));
      if (available : bool) then mret tt
      else
        queue ← gets lw_queue;
        match queue with
        | Some q => if (length q <? queue_capacity nodes)%nat then modify (set_queue (Some (q ++ [name]))) else mret tt
        | None => mret tt
        end
  end.

(** A turn of [priority_nodes_checker]: [false] when there is nothing to receive. *)
Definition priority_turn (nodes : list Node) : M LinkWorld bool :=
  queue ← gets lw_queue;
  match queue with
  | Some (name :: rest) =>
      _ ← modify (set_queue (Some rest));
      _ ← match find_node nodes name with
          | Some node =>
              available ← gets (λ w, connection_available (link_conn (node_name node) w));
              if (available : bool) then mret tt else _ ← link_check node; mret tt
          | None => mret tt
          end;
      mret true
  | _ => mret false
  end.

(** *** The tasks together *)

Inductive link_step (nodes : list Node) : LinkWorld → LinkWorld → Prop :=
| step_check node r w w' : node ∈ nodes → link_check node w = Some (r, w') → link_step nodes w w'
| step_pinged name w w' : update_node_connection nodes name w = Some (tt, w') → link_step nodes w w'
| step_priority b w w' : priority_turn nodes w = Some (b, w') → link_step nodes w w'.

Definition link_start (net : W) : LinkWorld := {| lw_conns := ∅; lw_queue := Some []; lw_net := net |}.

(** ** Lemmas *)

Definition link_available (w : LinkWorld) (name : NodeName) : bool := nc_available (link_conn name w).

Record links_ok (nodes : list Node) (w : LinkWorld) : Prop := {
  lo_conns : ∀ name, conn_ok (link_conn name w);
  lo_queue : ∀ q, lw_queue w = Some q → (length q ≤ queue_capacity nodes)%nat ∧ ∀ name, name ∈ q → is_Some (find_node nodes name);
}.

Lemma link_conn_put name c w name' : link_conn name' (put_conn name c w) = if decide (name' = name) then c else link_conn name' w.
Proof.
  rw /link_conn /=. case_decide as Hd; [subst; by rw lookup_insert_eq|]. by rw lookup_insert_ne; [by intros ->|].
Qed.

Lemma wlp_on_net {A} (m : M W A) (Q : A → LinkWorld → Prop) w :
  (∀ a w', lw_conns w' = lw_conns w → lw_queue w' = lw_queue w → Q a w') → wlp (on_net m) Q w.
Proof. intros HQ. rw /wpx /on_net. destruct (m (lw_net w)) as [[a n]|]; [by apply HQ|done]. Qed.

(** What a step may do to the connection of one node. *)
Definition conn_becomes (name : NodeName) (c : NodeConn Client) (w w' : LinkWorld) : Prop :=
  lw_queue w' = lw_queue w ∧ ∀ name', link_conn name' w' = if decide (name' = name) then c else link_conn name' w.

Lemma conn_becomes_put name c w w1 :
  lw_conns w1 = lw_conns w → lw_queue w1 = lw_queue w → conn_becomes name c w (put_conn name c w1).
Proof. intros Hc Hq. split; [done|]. intros name'. rw link_conn_put. case_decide; [done|]. by rw /link_conn Hc. Qed.

Lemma conn_stays name w w' : lw_conns w' = lw_conns w → lw_queue w' = lw_queue w → conn_becomes name (link_conn name w) w w'.
Proof. intros Hc Hq. split; [done|]. intros name'. rw /link_conn Hc. by case_decide as Hd; [rw Hd|]. Qed.

Lemma link_ping_spec node conn w :
  wlp (link_ping node conn) (λ r w', if is_ok r then lw_conns w' = lw_conns w ∧ lw_queue w' = lw_queue w
                                     else conn_becomes (node_name node) conn_init w w') w.
Proof.
  rw /link_ping. apply wpx_bind, wlp_on_net. intros [[]|e] w1 Hc Hq; [by apply wpx_ret|].
  apply wpx_bind, wpx_modify, wpx_ret. by apply conn_becomes_put.
Qed.

(** A check touches the connection of one node, and says whether it is available. *)
Lemma link_check_spec node w :
  (∀ name, conn_ok (link_conn name w)) →
  wlp (link_check node) (λ r w', ∃ c, conn_becomes (node_name node) c w w' ∧ conn_ok c ∧ nc_available c = is_ok r) w.
Proof.
  intros Hok. rw /link_check. apply wpx_bind, wpx_gets. specialize (Hok (node_name node)).
  rw /get_connection. destruct (nc_conn (link_conn (node_name node) w)) as [conn|] eqn:Hconn.
  - eapply wpx_mono; [apply link_ping_spec|]. intros r w1 Hr. cbv beta in Hr. destruct (is_ok r).
    + destruct Hr as [Hc Hq]. eexists. split; [by apply conn_stays|]. split; [done|]. apply Hok. by rw Hconn.
    + eexists. split; [exact Hr|]. by split; [apply conn_ok_init|].
  - assert (nc_available (link_conn (node_name node) w) = false) as Hna.
    { destruct (nc_available _) eqn:Ha; [|done]. apply Hok in Ha as [? ?]. congruence. }
    apply wpx_bind, wlp_on_net. intros [client|e] w1 Hc Hq; last first.
    { apply wpx_ret. eexists. split; [by apply conn_stays|]. by split. }
    apply wpx_bind. eapply wpx_mono; [apply link_ping_spec|]. intros [[]|e] w2 Hr; simpl in Hr.
    + destruct Hr as [Hc2 Hq2]. apply wpx_bind, wpx_modify, wpx_ret. eexists.
      split; [apply conn_becomes_put; congruence|]. by split; [apply conn_ok_set|].
    + apply wpx_ret. exists conn_init. split; [|by split; [apply conn_ok_init|]].
      destruct Hr as [Hq2 Hr]. split; [congruence|]. intros name'. rw Hr. case_decide; [done|]. by rw /link_conn Hc.
Qed.

Lemma conn_becomes_ok nodes name c w w' : conn_becomes name c w w' → conn_ok c → links_ok nodes w → links_ok nodes w'.
Proof.
  intros [Hq Hl] Hc [Hok Hqueue]. split; [|by rw Hq]. intros name'. rw Hl. by case_decide.
Qed.

Lemma link_check_ok nodes node r w w' : link_check node w = Some (r, w') → links_ok nodes w → links_ok nodes w'.
Proof.
  intros Hrun Hw. pose proof (link_check_spec node w (lo_conns _ _ Hw)) as Hs. rw /wpx Hrun in Hs.
  destruct Hs as (c & Hb & Hc & _). by apply (conn_becomes_ok nodes _ _ _ _ Hb).
Qed.

Lemma set_queue_ok nodes q w :
  links_ok nodes w → (length q ≤ queue_capacity nodes)%nat → (∀ name, name ∈ q → is_Some (find_node nodes name)) →
  links_ok nodes (set_queue (Some q) w).
Proof. intros [Hok _] Hlen Hin. split; [exact Hok|]. by intros q' [= <-]. Qed.

Lemma link_step_ok nodes w w' : link_step nodes w w' → links_ok nodes w → links_ok nodes w'.
Proof.
  intros [node r w1 w2 _ Hrun|name w1 w2 Hrun|b w1 w2 Hrun] Hw.
  - by eapply link_check_ok.
  - move: Hrun. rw /update_node_connection. destruct (find_node nodes name) as [node|] eqn:Hf; [|by intros [= <-]].
    rw (bind_run _ _ w1 (connection_available (link_conn (node_name node) w1)) w1) //. case_match; [by intros [= <-]|].
    rw (bind_run _ _ w1 (lw_queue w1) w1) //. destruct (lw_queue w1) as [q|] eqn:Hq; [|by intros [= <-]].
    destruct (Nat.ltb_spec (length q) (queue_capacity nodes)) as [Hlt|]; [|by intros [= <-]]. intros [= <-].
    destruct (lo_queue _ _ Hw q Hq) as [Hlen Hin]. apply set_queue_ok; [done|rw length_app /=; lia|].
    intros name' [Hn| ->%list_elem_of_singleton]%elem_of_app; [by apply Hin|by rw Hf].
  - move: Hrun. rw /priority_turn (bind_run _ _ w1 (lw_queue w1) w1) //.
    destruct (lw_queue w1) as [[|name rest]|] eqn:Hq; [by intros [= _ <-]| |by intros [= _ <-]].
    destruct (lo_queue _ _ Hw _ Hq) as [Hlen Hin]. simpl in Hlen.
    assert (links_ok nodes (set_queue (Some rest) w1)) as Hw1.
    { apply set_queue_ok; [done|lia|]. intros name' Hn. apply Hin. by right. }
    rw (bind_run _ _ w1 tt (set_queue (Some rest) w1)) //.
    intros (u & w3 & Hmid & Hret)%bind_Some_inv. injection Hret as _ <-. move: Hmid.
    destruct (find_node nodes name) as [node|]; [|by intros [= _ <-]].
    rw (bind_run _ _ _ (connection_available (link_conn (node_name node) (set_queue (Some rest) w1))) (set_queue (Some rest) w1)) //.
    case_match; [by intros [= _ <-]|]. intros (r & w4 & Hc & Hret)%bind_Some_inv. injection Hret as _ <-. by apply (link_check_ok nodes _ _ _ _ Hc).
Qed.

Lemma links_ok_start nodes net : links_ok nodes (link_start net).
Proof.
  split.
  - intros name. rw /link_conn lookup_empty. apply conn_ok_init.
  - intros q [= <-]. split; [simpl; lia|]. by intros name ?%elem_of_nil.
Qed.

(** C27: However checks, received pings and the serving of the queue interleave: the flag of
    every node says whether it has a connection, and the queue holds names of nodes of the
    cluster only and never more of them than its capacity, twice the number of nodes in
    all (a name may be in it more than once: pings are not merged). *)
Theorem link_manager_invariant nodes net w : rtc (link_step nodes) (link_start net) w → links_ok nodes w.
Proof.
  intros Hr. pose proof (links_ok_start nodes net) as H0. revert H0.
  induction Hr as [|w1 w2 w3 Hs _ IH]; [done|]. intros Hw. by apply IH, (link_step_ok nodes w1).
Qed.

(** The nodes that have a connection. *)
Definition available_nodes (nodes : list Node) (w : LinkWorld) : list Node := filter (λ n, link_available w (node_name n) = true) nodes.

Lemma checked_step l pre node log s w :
  (∀ name, conn_ok (link_conn name w)) → node_name node ∉ node_name <$> pre →
  s.1 = Z.of_nat (length pre) - Z.of_nat (length (available_nodes pre w)) → l = pre ++ [node] →
  wlp (check_step log s node) (λ s' w', (∀ name, conn_ok (link_conn name w')) ∧
    s'.1 = Z.of_nat (length l) - Z.of_nat (length (available_nodes l w'))) w.
Proof.
  intros Hok Hnin Hs ->. rw /check_step. apply wpx_bind. eapply wpx_mono; [by apply link_check_spec|].
  intros r w1 (c & [Hq Hl] & Hc & Hr). apply wpx_ret. split; [intros name; rw Hl; by case_decide|].
  assert (available_nodes pre w1 = available_nodes pre w) as Hpre.
  { rw /available_nodes. clear -Hl Hnin. induction pre as [|n pre IH]; [done|].
    rw fmap_cons in Hnin. apply not_elem_of_cons in Hnin as [Hne Hnin]. rw !filter_cons IH //.
    assert (link_available w1 (node_name n) = link_available w (node_name n)) as ->; [|done].
    rw /link_available Hl decide_False //. }
  rw /available_nodes list.filter_app !length_app -/(available_nodes pre w1) Hpre filter_cons filter_nil.
  assert (link_available w1 (node_name node) = is_ok r) as -> by (by rw /link_available Hl decide_True).
  destruct r as [[]|e]; simpl; lia.
Qed.

(** After a turn of the checker the gauge of available nodes is the number of nodes of
    the cluster with a connection: a node has one exactly when its check succeeded. *)
Theorem checker_turn_gauge nodes div i w :
  NoDup (node_name <$> nodes) → (∀ name, conn_ok (link_conn name w)) → Z.of_nat (length nodes) < 2 ^ 64 →
  wlp (checker_turn nodes div i) (λ r w', r.1.2 = Z.of_nat (length (available_nodes nodes w')) ∧
    ∀ name, conn_ok (link_conn name w')) w.
Proof.
  intros Hnd Hok Hlen. rw /checker_turn. apply wpx_bind.
  eapply wpx_mono; [apply (wpx_for_each _ _ _ (λ pre s w', (∀ name, conn_ok (link_conn name w')) ∧
    s.1 = Z.of_nat (length pre) - Z.of_nat (length (available_nodes pre w')))); [by split|]|].
  - intros pre node rest s w1 Hl [Hok1 Hs]. apply (checked_step _ pre); [done| |done|done].
    rw Hl fmap_app fmap_cons in Hnd. apply list.NoDup_app in Hnd as (_ & Hd & _). intros Hin. apply (Hd _ Hin). by left.
  - intros s w1 [Hok1 Hs]. apply wpx_ret. split; [|done]. simpl. rw Hs /wrap64.
    pose proof (length_filter (λ n, link_available w1 (node_name n) = true) nodes) as Hle.
    rw -/(available_nodes nodes w1) in Hle. rw Z.mod_small; lia.
Qed.
End links.

(** ** Witnesses

    A network that answers pings from a script, and never after it. *)

#[local] Instance script_net : LinkNet (list bool) := {|
  Client := Z;
  net_produce node := mret (Ok (node_index node));
  net_ping _ := λ w, match w with
                     | true :: l => Some (Ok tt, l)
                     | false :: l => Some (Err timeout, l)
                     | [] => Some (Err timeout, [])
                     end;
  debug_error := Error_display;
|}.

Definition link_nodes : list Node :=
  [{| node_index := 0; node_name := "a"; node_address := "a:1" |}; {| node_index := 1; node_name := "b"; node_address := "b:1" |}].

(** One node answers; the ping of the other one is received, and it is checked again. *)
Definition link_first : LinkWorld :=
  match checker_turn link_nodes 1 0 (link_start [true; false; true]) with Some (_, w) => w | None => link_start [] end.
Definition link_second : LinkWorld :=
  match update_node_connection link_nodes "b" link_first with Some (_, w) => w | None => link_first end.

Example link_log :
  match checker_turn link_nodes 1 0 (link_start [true; false; true]) with
  | Some ((_, cnt, line), _) => (cnt, line) = (1, Some "Node status: [+]a          [-]b          ")
  | None => False
  end.
Proof. vm_compute. reflexivity. Qed.

Lemma checker_turn_gauge_witness :
  NoDup (node_name <$> link_nodes) ∧
  wlp (checker_turn link_nodes 1 0) (λ r w', r.1.2 = Z.of_nat (length (available_nodes link_nodes w')) ∧
    ∀ name, conn_ok (link_conn name w')) (link_start [true; false; true]).
Proof.
  assert (NoDup (node_name <$> link_nodes)) as Hnd by (apply (bool_decide_unpack _); vm_compute; exact I).
  split; [exact Hnd|]. apply checker_turn_gauge; [exact Hnd|exact (lo_conns _ _ (links_ok_start link_nodes _))|].
  vm_compute. reflexivity.
Defined.

Definition node_a : Node := {| node_index := 0; node_name := "a"; node_address := "a:1" |}.
Definition node_b : Node := {| node_index := 1; node_name := "b"; node_address := "b:1" |}.
Definition checked (node : Node) (w : LinkWorld) : LinkWorld := match link_check node w with Some (_, w') => w' | None => w end.

Lemma checked_a : link_check node_a (link_start [true; false; true]) = Some (Ok tt, checked node_a (link_start [true; false; true])).
Proof. reflexivity. Qed.
Lemma checked_b :
  link_check node_b (checked node_a (link_start [true; false; true])) = Some (Err (Error_display timeout), link_first).
Proof. reflexivity. Qed.
Lemma pinged_b : update_node_connection link_nodes "b" link_first = Some (tt, link_second).
Proof. reflexivity. Qed.

Lemma link_manager_invariant_witness : links_ok link_nodes link_second ∧ lw_queue link_second = Some ["b"].
Proof.
  split; [|vm_compute; reflexivity]. apply (link_manager_invariant link_nodes [true; false; true]).
  apply (rtc_l _ _ (checked node_a (link_start [true; false; true]))).
  { refine (step_check _ node_a _ _ _ _ checked_a). by left. }
  apply (rtc_l _ _ link_first).
  { refine (step_check _ node_b _ _ _ _ checked_b). by right; left. }
  apply rtc_once. exact (step_pinged _ "b" _ _ pinged_b).
Defined.
