(* ===== verification/ConfigGen.v ===== *)
(** * ConfigGen: the generator of cluster configurations

    [bob-apps/bin/config_cluster_generator/center.rs] (racks, nodes and disks with the
    counters of their use, and the choice of the disks of a virtual disk), [utils.rs]
    ([ceil]) and [bob-apps/bin/ccg.rs] (the commands [new] and [expand]).  Reading the
    arguments and the files is not modelled; the values of the arguments are.

    The unstable sort and the order of hash maps are parameters.  [create_vdisk] runs in
    [M Center]: an error leaves what it has already counted. *)

From Corelib Require Import ssreflect.
From stdpp Require Import base option list strings gmap sets numbers sorting.
From Stdlib Require Import Strings.Ascii ZArith Lia.
From S2P Require Import Prelude Data Text Errors Options Node ClusterConfig NodeConfig Mapper Backend.

(** [sort_unstable_by_key]: any sorted permutation. *)
Class UnstableSort := {
  sort_unstable : ∀ {A : Type}, (A → nat) → list A → list A;
  sort_unstable_perm : ∀ {A : Type} (key : A → nat) l, sort_unstable key l ≡ₚ l;
  sort_unstable_sorted : ∀ {A : Type} (key : A → nat) l,
    StronglySorted (λ a b, (key a ≤ key b)%nat) (sort_unstable key l);
}.

(** [Iterator::min_by_key]: the first of the least elements; a key may abort. *)
Fixpoint min_go {A} (best : Z * A) (l : list (Z * A)) : Z * A :=
  match l with
  | [] => best
  | b :: l' => if b.1 <? best.1 then min_go b l' else min_go best l'
  end.

Definition min_by_key {A} (key : A → option Z) (l : list A) : option (option A) :=
  keys ← mapM key l;
  Some (match zip keys l with [] => None | b :: l' => Some (min_go b l').2 end).

(** [Iterator::min] of keys. *)
Definition min_key {A} (key : A → option Z) (l : list A) : option (option Z) :=
  keys ← mapM key l;
  Some (match keys with [] => None | k :: l' => Some (fold_left Z.min l' k) end).

(** [Iterator::find] with a predicate that may abort. *)
Fixpoint find_opt {A} (p : A → option bool) (l : list A) : option (option A) :=
  match l with
  | [] => Some None
  | a :: l' => b ← p a; if b : bool then Some (Some a) else find_opt p l'
  end.

(** ** [Counter] *)

Record Counter : Type := {
  racks_used_count : gmap string Z;
  nodes_used_count : gmap string Z;
  disks_used_count : gmap string (gmap string Z);
}.

Definition Counter_default : Counter :=
  {| racks_used_count := ∅; nodes_used_count := ∅; disks_used_count := ∅ |}.

Definition add_rack (rack : string) (c : Counter) : Counter :=
  {| racks_used_count := <[rack := 0]> (racks_used_count c);
     nodes_used_count := nodes_used_count c; disks_used_count := disks_used_count c |}.
Definition add_node (node : string) (c : Counter) : Counter :=
  {| racks_used_count := racks_used_count c;
     nodes_used_count := <[node := 0]> (nodes_used_count c); disks_used_count := disks_used_count c |}.
Definition add_disk (node disk : string) (c : Counter) : Counter :=
  let disks := default ∅ (disks_used_count c !! node) in
  {| racks_used_count := racks_used_count c; nodes_used_count := nodes_used_count c;
     disks_used_count := <[node := <[disk := default 0 (disks !! disk)]> disks]> (disks_used_count c) |}.

(** The [expect]s are [None]. *)
Definition inc_rack_used_count (rack : string) (c : Counter) : option Counter :=
  n ← racks_used_count c !! rack;
  Some {| racks_used_count := <[rack := wrap64 (n + 1)]> (racks_used_count c);
          nodes_used_count := nodes_used_count c; disks_used_count := disks_used_count c |}.
Definition inc_node_used_count (node : string) (c : Counter) : option Counter :=
  n ← nodes_used_count c !! node;
  Some {| racks_used_count := racks_used_count c;
          nodes_used_count := <[node := wrap64 (n + 1)]> (nodes_used_count c);
          disks_used_count := disks_used_count c |}.
Definition inc_disk_used_count (node disk : string) (c : Counter) : option Counter :=
  disks ← disks_used_count c !! node;
  n ← disks !! disk;
  Some {| racks_used_count := racks_used_count c; nodes_used_count := nodes_used_count c;
          disks_used_count := <[node := <[disk := wrap64 (n + 1)]> disks]> (disks_used_count c) |}.
Definition rack_used_count (c : Counter) (rack : string) : option Z := racks_used_count c !! rack.
Definition disk_used_count (c : Counter) (node disk : string) : option Z :=
  disks ← disks_used_count c !! node; disks !! disk.

(** ** [Rack], [Node], [Disk] and [Center] *)

Record GDisk : Type := { gd_name : string; gd_is_old : bool }.
Record GNode : Type := { gn_name : string; gn_disks : list GDisk; gn_is_old : bool }.
Record GRack : Type := { gr_name : string; gr_nodes : list GNode; gr_is_old : bool }.
Record Center : Type := { racks : list GRack; counter : Counter }.

Definition Center_new : Center := {| racks := []; counter := Counter_default |}.

Definition Node_disks_count (n : GNode) : nat := length (gn_disks n).
Definition Rack_disks_count (r : GRack) : nat :=
  fold_left (λ acc n, (acc + Node_disks_count n)%nat) (gr_nodes r) 0%nat.
Definition disks_count (c : Center) : nat :=
  fold_left (λ acc r, (acc + Rack_disks_count r)%nat) (racks c) 0%nat.

Definition count_node (c : Counter) (node : GNode) : Counter :=
  fold_left (λ c disk, add_disk (gn_name node) (gd_name disk) c) (gn_disks node)
    (add_node (gn_name node) c).

Definition Center_push (c : Center) (item : GRack) : Center :=
  {| counter := fold_left count_node (gr_nodes item) (add_rack (gr_name item) (counter c));
     racks := racks c ++ [item] |}.

Definition rack_push_node (node : GNode) (r : GRack) : GRack :=
  {| gr_name := gr_name r; gr_nodes := gr_nodes r ++ [node]; gr_is_old := gr_is_old r |}.

Definition center_node (node : ClusterNode) : GNode :=
  {| gn_name := cn_name node;
     gn_disks := (λ d, {| gd_name := dp_name d; gd_is_old := true |}) <$> cn_disks node;
     gn_is_old := true |}.

(** The loops of [from_cluster_config]: the names of racks, the racks of nodes, and the
    nodes put into their racks. *)
Fixpoint map_rack_nodes (rack : string) (l : list string) (m : gmap string string)
    : result (gmap string string) string :=
  match l with
  | [] => Ok m
  | node :: l' =>
      match m !! node with
      | None => map_rack_nodes rack l' (<[node := rack]> m)
      | Some _ =>
          Err ("Center::from_cluster_config: config contains duplicate nodes in racks [rack: " +:+ rack
               +:+ ", node: " +:+ node +:+ "]")
      end
  end.

Fixpoint map_racks (l : list Rack) (rs : gmap string GRack) (node_rack_map : gmap string string)
    : result (gmap string GRack * gmap string string) string :=
  match l with
  | [] => Ok (rs, node_rack_map)
  | rack :: l' =>
      match rs !! rack_name rack with
      | None =>
          m <-? map_rack_nodes (rack_name rack) (rack_nodes rack) node_rack_map;
          map_racks l'
            (<[rack_name rack := {| gr_name := rack_name rack; gr_nodes := []; gr_is_old := true |}]> rs) m
      | Some _ =>
          Err ("Center::from_cluster_config: config contains duplicate racks [" +:+ rack_name rack +:+ "]")
      end
  end.

Fixpoint fill_racks (l : list GNode) (node_rack_map : gmap string string) (rs : gmap string GRack)
    : result (gmap string GRack) string :=
  match l with
  | [] => Ok rs
  | node :: l' =>
      rack_name <-? ok_or (node_rack_map !! gn_name node)
        ("Center::from_cluster_config: not found rack for node [node_name: " +:+ gn_name node +:+ "]");
      rack <-? ok_or (rs !! rack_name)
        ("Center::from_cluster_config: rack not found [rack_name: " +:+ rack_name +:+ "]");
      fill_racks l' node_rack_map (<[rack_name := rack_push_node node rack]> rs)
  end.

Definition from_cluster_config `{!HashOrder} (config : Cluster) (use_racks : bool) : result Center string :=
  let nodes := center_node <$> cl_nodes config in
  if negb use_racks || bool_decide (cl_racks config = []) then
    Ok (Center_push Center_new {| gr_name := "unknown"; gr_nodes := nodes; gr_is_old := true |})
  else
    maps <-? map_racks (cl_racks config) ∅ ∅;
    rs <-? fill_racks nodes maps.2 maps.1;
    let center := fold_left Center_push (hash_order (map_to_list rs)).*2 Center_new in
    if bool_decide (disks_count center = 0%nat) then
      Err "Center::from_cluster_config: config should contain disks"
    else Ok center.

(** ** The choice of racks and disks *)

Definition iter_disks (c : Center) : list (GRack * GNode * GDisk) :=
  racks c ≫= λ r, gr_nodes r ≫= λ n, (λ d, (r, n, d)) <$> gn_disks n.

Definition node_disks (nodes : list GNode) : list (GNode * GDisk) :=
  nodes ≫= λ n, (λ d, (n, d)) <$> gn_disks n.

Definition used (c : Counter) (p : GNode * GDisk) : option Z := disk_used_count c (gn_name p.1) (gd_name p.2).
Definition used3 (c : Counter) (p : GRack * GNode * GDisk) : option Z := used c (p.1.2, p.2).

Definition replica_of (p : GNode * GDisk) : Replica := {| rep_node := gn_name p.1; rep_disk := gd_name p.2 |}.

Definition min_used_disk (c : Counter) (r : GRack) : option (result (GNode * GDisk) string) :=
  m ← min_by_key (used c) (node_disks (gr_nodes r));
  Some (ok_or m "Empty disks list").

(** Nodes that hold no replica yet. *)
Definition free_nodes (replicas : list string) (nodes : list GNode) : list GNode :=
  filter (λ n, gn_name n ∉ replicas) nodes.

(** [unwrap_or] evaluates the fallback first. *)
Definition Rack_next_disk (c : Counter) (replicas : list string) (r : GRack)
    : option (result (GNode * GDisk) string) :=
  m ← min_by_key (used c) (node_disks (free_nodes replicas (gr_nodes r)));
  fallback ← min_used_disk c r;
  Some (p <-? fallback; Ok (default p m)).

Definition Rack_next_disk_from_list (c : Counter) (replicas : list string) (list : list Replica) (r : GRack)
    : option (result (GNode * GDisk) string) :=
  let disks := node_disks (free_nodes replicas (gr_nodes r)) in
  min ← min_key (used c) disks;
  match min with
  | None => Some (Err "Empty disks list")
  | Some min =>
      found ← find_opt (λ p, k ← used c p; Some ((min =? k) && bool_decide (replica_of p ∈ list))) disks;
      Some (ok_or found "Can't find disk")
  end.

(** The [expect]s of an empty center are [None]. *)
Definition Center_next_disk (c : Center) : option (GRack * GNode * GDisk) :=
  m ← min_by_key (used3 (counter c)) (iter_disks c); m.

Definition Center_next_disk_from_list (c : Center) (list : list Replica)
    : option (result (GRack * GNode * GDisk) string) :=
  min ← min_key (used3 (counter c)) (iter_disks c);
  min ← min;
  found ← find_opt (λ p, k ← used3 (counter c) p;
                         Some ((k =? min) && bool_decide (replica_of (p.1.2, p.2) ∈ list))) (iter_disks c);
  Some (ok_or found "Can't find disk").

Definition rack_by_name (c : Center) (name : string) : result GRack string :=
  ok_or (List.find (λ x, bool_decide (gr_name x = name)) (racks c)) ("Rack with name " +:+ name +:+ " not found").

Definition rack_used (c : Center) (rack : GRack) : option Z := rack_used_count (counter c) (gr_name rack).

Definition next_rack (c : Center) : option GRack :=
  m ← min_by_key (rack_used c) (racks c); m.

Definition next_rack_from_list (c : Center) (list : list string) : option (result GRack string) :=
  if bool_decide (list = []) then Some (Err "Empty list")
  else
    min ← min_key (rack_used c) (racks c);
    min ← min;
    found ← find_opt (λ rack, k ← rack_used c rack;
                              Some ((k =? min) && bool_decide (gr_name rack ∈ list))) (racks c);
    Some (ok_or found "Can't find rack").

Definition REPLICA_IN_FIRST_RACK : nat := 2.

Definition should_place_in_first_rack (vdisk : ConfigVDisk) : bool :=
  (length (cv_replicas vdisk) =? REPLICA_IN_FIRST_RACK)%nat.

Definition get_used_nodes_names (replicas : list Replica) : list string := rep_node <$> replicas.

(** ** Virtual disks *)

Definition count_replica (rack node disk : string) : M Center unit := λ c,
  k ← inc_rack_used_count rack (counter c);
  k ← inc_node_used_count node k;
  k ← inc_disk_used_count node disk k;
  Some (tt, {| racks := racks c; counter := k |}).

Definition push_replica_to_vdisk (vdisk : ConfigVDisk) (rack : GRack) (p : GNode * GDisk) : M Center ConfigVDisk :=
  _ ← count_replica (gr_name rack) (gn_name p.1) (gd_name p.2);
  mret (push_replica (replica_of p) vdisk).

(** The rack of the next replica of a new virtual disk. *)
Definition choose_rack (c : Center) (first_rack : string) (vdisk : ConfigVDisk) : option GRack :=
  if should_place_in_first_rack vdisk then
    match rack_by_name c first_rack with Ok r => Some r | Err _ => next_rack c end
  else next_rack c.

(** The [while] loop; [fuel] bounds the replicas that are missing. *)
Fixpoint create_replicas (fuel : nat) (replicas_count : nat) (first_rack : string) (vdisk : ConfigVDisk)
    : M Center (result ConfigVDisk string) :=
  if (length (cv_replicas vdisk) <? replicas_count)%nat then
    match fuel with
    | O => panic
    | S fuel =>
        c ← gets (λ c, c);
        let banned_nodes := get_used_nodes_names (cv_replicas vdisk) in
        rack ← expect (choose_rack c first_rack vdisk);
        next ← expect (Rack_next_disk (counter c) banned_nodes rack);
        match next with
        | Err e => mret (Err e)
        | Ok p => vdisk ← push_replica_to_vdisk vdisk rack p; create_replicas fuel replicas_count first_rack vdisk
        end
    end
  else mret (Ok vdisk).

Definition create_vdisk (id : Z) (replicas_count : nat) : M Center (result ConfigVDisk string) :=
  c ← gets (λ c, c);
  first_rack ← expect (next_rack c);
  next ← expect (Rack_next_disk (counter c) [] first_rack);
  match next with
  | Err e => mret (Err e)
  | Ok p =>
      vdisk ← push_replica_to_vdisk (ConfigVDisk_new id) first_rack p;
      create_replicas replicas_count replicas_count (gr_name first_rack) vdisk
  end.

(** The racks that hold a replica of the old virtual disk. *)
Definition preferred_racks (c : Center) (old_vdisk : ConfigVDisk) : list string :=
  gr_name <$> filter (λ rack, Exists (λ r, rep_node r ∈ gn_name <$> gr_nodes rack) (cv_replicas old_vdisk)) (racks c).

Definition choose_rack_from (c : Center) (preferred : list string) : option GRack :=
  r ← next_rack_from_list c preferred;
  match r with Ok x => Some x | Err _ => next_rack c end.

Definition choose_disk_from (c : Counter) (banned_nodes : list string) (list : list Replica) (rack : GRack)
    : option (result (GNode * GDisk) string) :=
  r ← Rack_next_disk_from_list c banned_nodes list rack;
  match r with Ok x => Some (Ok x) | Err _ => Rack_next_disk c banned_nodes rack end.

Fixpoint move_replicas (fuel : nat) (preferred : list string) (old_vdisk vdisk : ConfigVDisk)
    : M Center (result ConfigVDisk string) :=
  if (length (cv_replicas vdisk) <? length (cv_replicas old_vdisk))%nat then
    match fuel with
    | O => panic
    | S fuel =>
        c ← gets (λ c, c);
        let banned_nodes := get_used_nodes_names (cv_replicas vdisk) in
        rack ← expect (choose_rack_from c preferred);
        next ← expect (choose_disk_from (counter c) banned_nodes (cv_replicas old_vdisk) rack);
        match next with
        | Err e => mret (Err e)
        | Ok p => vdisk ← push_replica_to_vdisk vdisk rack p; move_replicas fuel preferred old_vdisk vdisk
        end
    end
  else mret (Ok vdisk).

Definition choose_first (c : Center) (old_vdisk : ConfigVDisk) : option (GRack * GNode * GDisk) :=
  r ← Center_next_disk_from_list c (cv_replicas old_vdisk);
  match r with Ok x => Some x | Err _ => Center_next_disk c end.

Definition create_vdisk_from_another (old_vdisk : ConfigVDisk) : M Center (result ConfigVDisk string) :=
  c ← gets (λ c, c);
  '(rack, node, disk) ← expect (choose_first c old_vdisk);
  vdisk ← push_replica_to_vdisk (ConfigVDisk_new (cv_id old_vdisk)) rack (node, disk);
  let preferred := preferred_racks c old_vdisk in
  move_replicas (length (cv_replicas old_vdisk)) preferred old_vdisk vdisk.

(** ** Validation and expansion *)

Definition age (is_old : bool) : nat := if is_old then 0%nat else 1%nat.

Fixpoint mark_disk (node : string) (disks : list (string * string)) (d : GDisk) (old_node : bool) : GDisk * bool :=
  match disks with
  | [] => (d, old_node)
  | (new_node, new_disk) :: rest =>
      if bool_decide (node = new_node ∧ gd_name d = new_disk) then
        ({| gd_name := gd_name d; gd_is_old := false |}, old_node)
      else mark_disk node rest d true
  end.

Fixpoint mark_disks (node : string) (disks : list (string * string)) (l : list GDisk) (old_node : bool)
    : list GDisk * bool :=
  match l with
  | [] => ([], old_node)
  | d :: l' =>
      let (d', old) := mark_disk node disks d old_node in
      let (l'', old') := mark_disks node disks l' old in (d' :: l'', old')
  end.

Section expand.
Context `{!UnstableSort, !HashOrder}.

Definition Node_mark_new (disks : list (string * string)) (n : GNode) : GNode :=
  let (l, old_node) := mark_disks (gn_name n) disks (gn_disks n) false in
  {| gn_name := gn_name n; gn_is_old := if negb old_node then false else gn_is_old n;
     gn_disks := sort_unstable (λ d, age (gd_is_old d)) l |}.

Definition Rack_mark_new (disks : list (string * string)) (r : GRack) : GRack :=
  {| gr_name := gr_name r; gr_is_old := gr_is_old r;
     gr_nodes := sort_unstable (λ n, age (gn_is_old n)) (Node_mark_new disks <$> gr_nodes r) |}.

Definition Center_mark_new (disks : list (string * string)) (new_racks : list string) (c : Center) : Center :=
  {| counter := counter c;
     racks := sort_unstable (λ r, age (gr_is_old r))
       ((λ r, Rack_mark_new disks
                {| gr_name := gr_name r; gr_nodes := gr_nodes r;
                   gr_is_old := if bool_decide (gr_name r ∈ new_racks) then false else gr_is_old r |})
          <$> racks c) |}.

(** [windows(2).any(|pair| pair[0] == pair[1])] *)
Fixpoint equal_neighbours (l : list string) : bool :=
  match l with
  | x :: ((y :: _) as l') => bool_decide (x = y) || equal_neighbours l'
  | _ => false
  end.

Definition Center_validate (c : Center) : result unit string :=
  if equal_neighbours (merge_sort String.le (gr_name <$> racks c)) then Err "config contains duplicates racks names"
  else if equal_neighbours (merge_sort String.le (gn_name <$> (racks c ≫= gr_nodes))) then
    Err "config contains duplicates nodes names"
  else Ok tt.

Definition config_disks (nodes : list ClusterNode) : list (ClusterNode * DiskPath) :=
  nodes ≫= λ node, (λ disk, (node, disk)) <$> cn_disks node.

Definition get_new_disks (old_nodes new_nodes : list ClusterNode) : list (string * string) :=
  let old_disks := config_disks old_nodes in
  (λ p, (cn_name p.1, dp_name p.2)) <$>
    filter (λ p, Exists (λ old, cn_name p.1 = cn_name old.1 ∧ cn_address p.1 = cn_address old.1 ∧
                                p.2 = old.2) old_disks) (config_disks new_nodes).

Definition get_new_racks (old_racks new_racks : list Rack) : list string :=
  rack_name <$> filter (λ rack, ¬ Exists (λ old, rack_name rack = rack_name old) old_racks) new_racks.

Definition node_disk_pairs (c : Center) : gset (string * string) :=
  list_to_set ((λ p, (gn_name p.1.2, gd_name p.2)) <$> iter_disks c).

Definition fmt_debug_list (l : list string) : string := "[" +:+ join ", " l +:+ "]".

Definition check_expand_configs (old new : Center) (use_racks : bool) : result unit string :=
  let old_racks : gset string := list_to_set (gr_name <$> racks old) in
  let new_racks : gset string := list_to_set (gr_name <$> racks new) in
  if use_racks && bool_decide (¬ old_racks ⊆ new_racks) then
    Err ("some racks was removed from config, check_expand_configs: ERR [" +:+
         fmt_debug_list (fmt_debug_str <$> hash_order (elements (old_racks ∖ new_racks))) +:+ "]")
  else
    let old_pairs := node_disk_pairs old in
    let new_pairs := node_disk_pairs new in
    if bool_decide (¬ old_pairs ⊆ new_pairs) then
      Err ("some nodes or disks was removed from config, check_expand_configs: ERR [" +:+
           fmt_debug_list ((λ p : string * string, "(" +:+ fmt_debug_str p.1 +:+ ", " +:+ fmt_debug_str p.2 +:+ ")")
                             <$> hash_order (elements (old_pairs ∖ new_pairs))) +:+ "]")
    else Ok tt.

(** ** [ccg.rs] *)

Definition ceil (a b : Z) : option Z :=
  if b =? 0 then None else Some (if 0 <? a mod b then a / b + 1 else a / b).

Definition vdisks_extend (vdisks : list ConfigVDisk) (c : Cluster) : Cluster :=
  {| cl_nodes := cl_nodes c; cl_vdisks := cl_vdisks c ++ vdisks; cl_racks := cl_racks c;
     cl_distribution_func := cl_distribution_func c |}.

(** The outer [None] is an abort. *)
Fixpoint create_vdisks (fuel : nat) (vdisks_count replicas_count : nat) (vdisks : list ConfigVDisk)
    : M Center (result (list ConfigVDisk) string) :=
  if (length vdisks <? vdisks_count)%nat then
    match fuel with
    | O => panic
    | S fuel =>
        vdisk ← create_vdisk (Z.of_nat (length vdisks) mod 2 ^ 32) replicas_count;
        match vdisk with
        | Err e => mret (Err e)
        | Ok vdisk => create_vdisks fuel vdisks_count replicas_count (vdisks ++ [vdisk])
        end
    end
  else mret (Ok vdisks).

Definition new_vdisks_count (replicas_count : nat) (total_vdisks vdisks_per_disk : option nat) (center : Center)
    : option nat :=
  match vdisks_per_disk with
  | Some vdpd =>
      n ← ceil (wrap64 (Z.of_nat vdpd * Z.of_nat (disks_count center))) (Z.of_nat replicas_count);
      Some (Z.to_nat n)
  | None => total_vdisks
  end.

Definition simple_gen (config : Cluster) (replicas_count : nat) (total_vdisks vdisks_per_disk : option nat)
    (use_racks : bool) : option (result Cluster string) :=
  match (center <-? from_cluster_config config use_racks; Center_validate center;? Ok center) with
  | Err e => Some (Err e)
  | Ok center =>
      vdisks_count ← new_vdisks_count replicas_count total_vdisks vdisks_per_disk center;
      res ← create_vdisks vdisks_count vdisks_count replicas_count [] center;
      Some (result_map (λ vdisks, vdisks_extend vdisks config) res.1)
  end.

Fixpoint move_vdisks (l : list ConfigVDisk) (vdisks : list ConfigVDisk) : M Center (result (list ConfigVDisk) string) :=
  match l with
  | [] => mret (Ok vdisks)
  | old_vdisk :: l' =>
      vdisk ← create_vdisk_from_another old_vdisk;
      match vdisk with
      | Err e => mret (Err e)
      | Ok vdisk => move_vdisks l' (vdisks ++ [vdisk])
      end
  end.

(** The checks of [simple_expand]; the center that is marked. *)
Definition expand_center (config hardware_config : Cluster) (use_racks : bool) : result Center string :=
  center <-? from_cluster_config hardware_config use_racks;
  Center_validate center;?
  (old_center <-? from_cluster_config config use_racks;
   Center_validate old_center;?
   check_expand_configs old_center center use_racks;?
   let new_disks := get_new_disks (cl_nodes config) (cl_nodes hardware_config) in
   let new_racks := if negb use_racks then [] else get_new_racks (cl_racks config) (cl_racks hardware_config) in
   Ok (Center_mark_new new_disks new_racks center)).

Definition simple_expand (config hardware_config : Cluster) (use_racks : bool) : option (result Cluster string) :=
  match expand_center config hardware_config use_racks with
  | Err e => Some (Err e)
  | Ok center =>
      res ← move_vdisks (cl_vdisks config) [] center;
      Some (result_map (λ vdisks, vdisks_extend vdisks hardware_config) res.1)
  end.

(** The values of the arguments, [-r], [-d] and [-p]. *)
Definition get_replicas_count (replicas : string) : result nat string :=
  result_map_err (λ e, "get replicas count: " +:+ e) (result_map Z.to_nat (parse_int (2 ^ 64) replicas)).

Definition get_vdisks_total_and_per_disk (vdisks_count vdisks_per_disk : option string)
    : result (option nat * option nat) string :=
  match vdisks_count, vdisks_per_disk with
  | Some s, _ =>
      result_map (λ n, (Some (Z.to_nat n), None))
        (result_map_err (λ e, "get vdisks count: " +:+ e) (parse_int (2 ^ 64) s))
  | None, Some s =>
      result_map (λ n, (None, Some (Z.to_nat n)))
        (result_map_err (λ e, "get vdisks per disk: " +:+ e) (parse_int (2 ^ 64) s))
  | None, None => Err "No -p or -d argument specified"
  end.

Definition generate_config (replicas : string) (vdisks_count vdisks_per_disk : option string) (use_racks : bool)
    (input : Cluster) : option (result Cluster string) :=
  match get_replicas_count replicas, get_vdisks_total_and_per_disk vdisks_count vdisks_per_disk with
  | Ok replicas_count, Ok (total_vdisks, vdisks_per_disk) =>
      simple_gen input replicas_count total_vdisks vdisks_per_disk use_racks
  | Err e, _ => Some (Err e)
  | _, Err e => Some (Err e)
  end.
End expand.
