(* ===== verification/GenPlacement.v ===== *)
(** * GenPlacement: the generator of configurations chooses disks

    Lemmas about [ConfigGen.v]: the choices never abort in a center whose counter knows its
    racks, nodes and disks; they pick a least used disk of the nodes that hold no replica
    yet; a virtual disk gets its replicas, on distinct nodes when the racks have enough. *)

From Corelib Require Import ssreflect.
From stdpp Require Import base option list strings gmap sets numbers sorting.
From Stdlib Require Import Strings.Ascii ZArith Lia.
From S2P Require Import Prelude Data Text Errors Options Node ClusterConfig NodeConfig Mapper Backend ConfigGen.

(** ** First minimum, minimum and search *)

Section choice.
Context {A : Type}.
Implicit Types (key : A → option Z) (l : list A).

Lemma min_go_in (best : Z * A) (l : list (Z * A)) : min_go best l = best ∨ min_go best l ∈ l.
Proof.
  revert best. induction l as [|b l IH]; intros best; simpl; [by left|].
  case_match; [destruct (IH b) as [->|?]|destruct (IH best) as [->|?]]; set_solver.
Qed.

Lemma min_go_le (best : Z * A) (l : list (Z * A)) :
  (min_go best l).1 ≤ best.1 ∧ ∀ b, b ∈ l → (min_go best l).1 ≤ b.1.
Proof.
  revert best. induction l as [|b l IH]; intros best; simpl; [split; [lia|by intros ? ?%elem_of_nil]|].
  destruct (Z.ltb_spec b.1 best.1); [destruct (IH b) as [H1 H2]|destruct (IH best) as [H1 H2]];
    (split; [lia|]); intros x [->|?]%elem_of_cons; auto; lia.
Qed.

Lemma mapM_keys key l :
  (∀ a, a ∈ l → is_Some (key a)) → ∃ ks, mapM key l = Some ks ∧ Forall2 (λ a k, key a = Some k) l ks.
Proof.
  intros Hl. destruct (mapM key l) as [ks|] eqn:Hm.
  - exists ks. split; [done|]. by apply mapM_Some_1.
  - apply mapM_None_1 in Hm. apply Exists_exists in Hm as (a & Ha & Hn).
    destruct (Hl a Ha) as [? ?]. congruence.
Qed.

Lemma Forall2_zip_l (P : A → Z → Prop) l ks a : Forall2 P l ks → a ∈ l → ∃ k, (k, a) ∈ zip ks l ∧ P a k.
Proof. induction 1; intros Ha; [by apply elem_of_nil in Ha|]. simpl. set_solver. Qed.

Lemma Forall2_zip_r (P : A → Z → Prop) l ks a k : Forall2 P l ks → (k, a) ∈ zip ks l → a ∈ l ∧ P a k.
Proof. induction 1; simpl; intros Ha; [by apply elem_of_nil in Ha|]. set_solver. Qed.

(** [a] is a least element of [l]. *)
Definition least key l (a : A) : Prop :=
  a ∈ l ∧ ∃ k, key a = Some k ∧ ∀ b k', b ∈ l → key b = Some k' → k ≤ k'.

Lemma min_by_key_total key l :
  (∀ a, a ∈ l → is_Some (key a)) →
  (l = [] ∧ min_by_key key l = Some None) ∨ ∃ a, min_by_key key l = Some (Some a) ∧ least key l a.
Proof.
  intros Hl. destruct (mapM_keys key l Hl) as (ks & Hm & Hks). rw /min_by_key Hm /=.
  destruct (zip ks l) as [|b z] eqn:Hz.
  { left. split; [|done]. destruct Hks; [done|]. by simpl in Hz. }
  right. eexists. split; [done|]. destruct (min_go b z) as [k a] eqn:Hg.
  assert ((k, a) ∈ zip ks l) as Hin.
  { rw Hz -Hg. destruct (min_go_in b z) as [->|]; set_solver. }
  pose proof (Forall2_zip_r _ _ _ _ _ Hks Hin) as [Ha Hk]. split; [done|]. exists k. split; [done|].
  intros a' k' Ha' Hk'. destruct (Forall2_zip_l _ _ _ _ Hks Ha') as (k2 & Hin2 & Hk2).
  assert (k2 = k') as -> by congruence. rw Hz in Hin2.
  pose proof (min_go_le b z) as [H1 H2]. rw Hg /= in H1, H2.
  apply elem_of_cons in Hin2 as [<-|Hin2]; [done|]. by apply (H2 (k', a')).
Qed.

Lemma min_key_total key l : (∀ a, a ∈ l → is_Some (key a)) →
  (l = [] ∧ min_key key l = Some None) ∨ ∃ k, min_key key l = Some (Some k) ∧ l ≠ [].
Proof.
  intros Hl. destruct (mapM_keys key l Hl) as (ks & Hm & Hks). rw /min_key Hm /=.
  destruct Hks as [|a k l ks]; [by left|]. right. by eexists.
Qed.

Lemma find_opt_total (p : A → option bool) l :
  (∀ a, a ∈ l → is_Some (p a)) → ∃ r, find_opt p l = Some r ∧ ∀ a, r = Some a → a ∈ l ∧ p a = Some true.
Proof.
  induction l as [|a l IH]; intros Hl; simpl; [by exists None|].
  destruct (Hl a) as [b Hb]; [set_solver|]. rw Hb /=. destruct b.
  - exists (Some a). split; [done|]. intros ? [= <-]. split; [set_solver|done].
  - destruct IH as (r & Hr & Hin); [intros; apply Hl; set_solver|]. exists r. split; [done|].
    intros x Hx. destruct (Hin x Hx). split; [set_solver|done].
Qed.
End choice.

(** ** The counter knows the racks, nodes and disks *)

Definition covers_node (k : Counter) (n : GNode) : Prop :=
  is_Some (nodes_used_count k !! gn_name n) ∧
  ∀ d, d ∈ gn_disks n → is_Some (disk_used_count k (gn_name n) (gd_name d)).
Definition covers_rack (k : Counter) (r : GRack) : Prop :=
  is_Some (racks_used_count k !! gr_name r) ∧ ∀ n, n ∈ gr_nodes r → covers_node k n.
Definition covers (k : Counter) (rs : list GRack) : Prop := ∀ r, r ∈ rs → covers_rack k r.
Definition center_ok (c : Center) : Prop := covers (counter c) (racks c) ∧ racks c ≠ [].

(** Counters only come to know more. *)
Record knows_more (k k' : Counter) : Prop := {
  km_racks : ∀ r, is_Some (racks_used_count k !! r) → is_Some (racks_used_count k' !! r);
  km_nodes : ∀ n, is_Some (nodes_used_count k !! n) → is_Some (nodes_used_count k' !! n);
  km_disks : ∀ n d, is_Some (disk_used_count k n d) → is_Some (disk_used_count k' n d);
}.

#[export] Instance knows_more_pre : PreOrder knows_more.
Proof.
  split; [by constructor|]. intros k1 k2 k3 [] []. constructor; eauto.
Qed.

Lemma covers_more k k' rs : knows_more k k' → covers k rs → covers k' rs.
Proof.
  intros [Hr Hn Hd] Hc r Hin. destruct (Hc r Hin) as [H1 H2]. split; [by apply Hr|].
  intros n Hn'. destruct (H2 n Hn') as [H3 H4]. split; eauto.
Qed.

Lemma is_Some_insert {B} (m : gmap string B) i j x : is_Some (m !! j) → is_Some (<[i := x]> m !! j).
Proof. intros ?. apply lookup_insert_is_Some'. by right. Qed.

Lemma add_rack_more r k : knows_more k (add_rack r k).
Proof. constructor; simpl; eauto using is_Some_insert. Qed.
Lemma add_node_more n k : knows_more k (add_node n k).
Proof. constructor; simpl; eauto using is_Some_insert. Qed.

Lemma set_disk_known k n d x :
  let k' := {| racks_used_count := racks_used_count k; nodes_used_count := nodes_used_count k;
               disks_used_count := <[n := <[d := x]> (default ∅ (disks_used_count k !! n))]> (disks_used_count k) |} in
  knows_more k k' ∧ ∀ n' d', disk_used_count k' n' d' =
    if decide (n' = n ∧ d' = d) then Some x else disk_used_count k n' d'.
Proof.
  intros k'. assert (∀ n' d', disk_used_count k' n' d' =
    if decide (n' = n ∧ d' = d) then Some x else disk_used_count k n' d') as Heq.
  { intros n' d'. rw /disk_used_count /=. destruct (decide (n' = n)) as [->|Hn].
    - rw lookup_insert_eq /=. destruct (decide (d' = d)) as [->|Hd].
      + by rw lookup_insert_eq decide_True.
      + rw lookup_insert_ne //. rw decide_False; first naive_solver. by destruct (disks_used_count k !! n).
    - rw lookup_insert_ne //. rw decide_False //. naive_solver. }
  split; [|done]. constructor; [done|done|]. intros n' d' Hs. rw Heq. by case_decide.
Qed.

Lemma add_disk_more n d k : knows_more k (add_disk n d k) ∧ is_Some (disk_used_count (add_disk n d k) n d).
Proof.
  pose proof (set_disk_known k n d (default 0 (default ∅ (disks_used_count k !! n) !! d))) as [H1 H2].
  split; [done|]. rw /add_disk H2 decide_True //.
Qed.

(** Counting one replica of a known disk. *)
Lemma inc_disk_run k n d x :
  disk_used_count k n d = Some x →
  ∃ k', inc_disk_used_count n d k = Some k' ∧ knows_more k k' ∧
    racks_used_count k' = racks_used_count k ∧ nodes_used_count k' = nodes_used_count k ∧
    ∀ n' d', disk_used_count k' n' d' =
      if decide (n' = n ∧ d' = d) then Some (wrap64 (x + 1)) else disk_used_count k n' d'.
Proof.
  intros Hx. pose proof (set_disk_known k n d (wrap64 (x + 1))) as [H1 H2].
  rw /inc_disk_used_count. rw /disk_used_count in Hx. destruct (disks_used_count k !! n) as [m|] eqn:Hm; [|done].
  simpl in Hx |- *. rw Hx /=. eexists. by split_and!.
Qed.

(** What [count_replica] does to the counter. *)
Record counted (rack node disk : string) (k k' : Counter) : Prop := {
  ct_more : knows_more k k';
  ct_rack : ∀ r x, racks_used_count k !! r = Some x →
    racks_used_count k' !! r = Some (if decide (r = rack) then wrap64 (x + 1) else x);
  ct_disk : ∀ n d x, disk_used_count k n d = Some x →
    disk_used_count k' n d = Some (if decide (n = node ∧ d = disk) then wrap64 (x + 1) else x);
}.

Lemma count_replica_run c r n d :
  covers (counter c) (racks c) → r ∈ racks c → n ∈ gr_nodes r → d ∈ gn_disks n →
  ∃ k', count_replica (gr_name r) (gn_name n) (gd_name d) c = Some (tt, {| racks := racks c; counter := k' |}) ∧
    counted (gr_name r) (gn_name n) (gd_name d) (counter c) k'.
Proof.
  intros Hc Hr Hn Hd. destruct (Hc r Hr) as [[x Hx] Hns]. destruct (Hns n Hn) as [[y Hy] Hds].
  destruct (Hds d Hd) as [z Hz]. rw /count_replica /inc_rack_used_count Hx /= /inc_node_used_count /= Hy /=.
  set k1 := Build_Counter _ _ _.
  destruct (inc_disk_run k1 (gn_name n) (gd_name d) z Hz) as (k' & -> & Hk & Hr' & Hn' & Hd'). simpl.
  exists k'. split; [done|]. constructor.
  - transitivity k1; [|done]. constructor; simpl; eauto using is_Some_insert.
  - intros r' x' Hx'. rw Hr' /=. destruct (decide (r' = gr_name r)) as [->|].
    + rw lookup_insert_eq. congruence.
    + by rw lookup_insert_ne.
  - intros n' d' x' Hx'. rw Hd'. case_decide as Hnd; [|done]. destruct Hnd as [-> ->]. congruence.
Qed.

(** ** The choice of a disk in a rack *)

Lemma elem_node_disks p nodes : p ∈ node_disks nodes ↔ p.1 ∈ nodes ∧ p.2 ∈ gn_disks p.1.
Proof.
  destruct p as [n d]. rw /node_disks list_elem_of_bind /=. split.
  - intros (n' & (d' & [= -> ->] & Hd)%list_elem_of_fmap & Hn). done.
  - intros [Hn Hd]. exists n. split; [by apply list_elem_of_fmap_2|done].
Qed.

Lemma elem_iter_disks c p :
  p ∈ iter_disks c ↔ p.1.1 ∈ racks c ∧ p.1.2 ∈ gr_nodes p.1.1 ∧ p.2 ∈ gn_disks p.1.2.
Proof.
  destruct p as [[r n] d]. rw /iter_disks list_elem_of_bind /=. setoid_rewrite list_elem_of_bind. split.
  - intros (r' & (n' & (d' & [= -> -> ->] & Hd)%list_elem_of_fmap & Hn) & Hr). done.
  - intros (Hr & Hn & Hd). exists r. split; [|done]. exists n. split; [by apply list_elem_of_fmap_2|done].
Qed.

Lemma elem_free_nodes banned nodes n : n ∈ free_nodes banned nodes ↔ gn_name n ∉ banned ∧ n ∈ nodes.
Proof. rw /free_nodes. by rw list_elem_of_filter. Qed.

(** A least used disk of the free nodes, or of all nodes when the free ones have none. *)
Definition well_chosen (k : Counter) (banned : list string) (r : GRack) (p : GNode * GDisk) : Prop :=
  least (used k) (node_disks (free_nodes banned (gr_nodes r))) p ∨
  node_disks (free_nodes banned (gr_nodes r)) = [] ∧ least (used k) (node_disks (gr_nodes r)) p.

(** A disk of the nodes of the rack; of its free nodes when they have one. *)
Definition in_rack (banned : list string) (r : GRack) (p : GNode * GDisk) : Prop :=
  p ∈ node_disks (gr_nodes r) ∧
  (p ∈ node_disks (free_nodes banned (gr_nodes r)) ∨ node_disks (free_nodes banned (gr_nodes r)) = []).

Lemma free_disk_in banned nodes p : p ∈ node_disks (free_nodes banned nodes) → p ∈ node_disks nodes.
Proof. rw !elem_node_disks elem_free_nodes. naive_solver. Qed.

Lemma well_chosen_in_rack k banned r p : well_chosen k banned r p → in_rack banned r p.
Proof. intros [[Hp _]|[He [Hp _]]]; (split; [|auto]); eauto using free_disk_in. Qed.

Lemma used_known k r p : covers_rack k r → p ∈ node_disks (gr_nodes r) → is_Some (used k p).
Proof. intros [_ Hn] [H1 H2]%elem_node_disks. by apply Hn. Qed.

Lemma Rack_next_disk_spec k banned r :
  covers_rack k r →
  ∃ res, Rack_next_disk k banned r = Some res ∧
    match res with Ok p => well_chosen k banned r p | Err _ => node_disks (gr_nodes r) = [] end.
Proof.
  intros Hc. rw /Rack_next_disk /min_used_disk.
  destruct (min_by_key_total (used k) (node_disks (gr_nodes r))) as [[He Hm]|(p & Hm & Hp)];
    [intros p Hp; by eapply used_known| |]; rw Hm;
    (destruct (min_by_key_total (used k) (node_disks (free_nodes banned (gr_nodes r))))
       as [[He' Hm']|(p' & Hm' & Hp')];
     [intros q Hq; eapply used_known; [done|by eapply free_disk_in]| |]; rw Hm' /=;
     eexists; (split; [done|])); simpl; rw /well_chosen; auto.
Qed.

Lemma Rack_next_disk_from_list_spec k banned list r :
  covers_rack k r →
  ∃ res, Rack_next_disk_from_list k banned list r = Some res ∧
    ∀ p, res = Ok p → p ∈ node_disks (free_nodes banned (gr_nodes r)) ∧ replica_of p ∈ list.
Proof.
  intros Hc. rw /Rack_next_disk_from_list.
  assert (∀ p, p ∈ node_disks (free_nodes banned (gr_nodes r)) → is_Some (used k p)) as Hu.
  { intros p Hp. eapply used_known; [done|by eapply free_disk_in]. }
  destruct (min_key_total (used k) _ Hu) as [[He ->]|(m & -> & _)]; simpl; [by eexists|].
  edestruct (find_opt_total (A := GNode * GDisk)) as (found & -> & Hf); simpl.
  { intros p Hp. simpl. destruct (Hu p Hp) as [x ->]. by eexists. }
  eexists. split; [done|]. intros p Hp. destruct found as [q|]; [|done]. injection Hp as <-.
  destruct (Hf q eq_refl) as [Hin Hq]. split; [done|]. destruct (used k q); [|done]. simpl in Hq.
  injection Hq as [_ Hl%bool_decide_eq_true]%andb_true_iff. done.
Qed.

Lemma choose_disk_from_spec k banned list r :
  covers_rack k r →
  ∃ res, choose_disk_from k banned list r = Some res ∧
    match res with Ok p => in_rack banned r p | Err _ => node_disks (gr_nodes r) = [] end.
Proof.
  intros Hc. rw /choose_disk_from.
  destruct (Rack_next_disk_from_list_spec k banned list r Hc) as ([p|e] & -> & Hp); simpl.
  - eexists. split; [done|]. destruct (Hp p eq_refl). split; [by eapply free_disk_in|by left].
  - destruct (Rack_next_disk_spec k banned r Hc) as (res & -> & Hres). eexists. split; [done|].
    destruct res; [by eapply well_chosen_in_rack|done].
Qed.

(** ** The choice of a rack *)

Lemma rack_known c r : center_ok c → r ∈ racks c → is_Some (rack_used c r).
Proof. intros [Hc _] Hr. apply (Hc r Hr). Qed.

Lemma next_rack_spec c : center_ok c → ∃ r, next_rack c = Some r ∧ least (rack_used c) (racks c) r.
Proof.
  intros Hc. rw /next_rack.
  destruct (min_by_key_total (rack_used c) (racks c)) as [[He _]|(r & -> & Hr)];
    [intros; by apply rack_known|by destruct Hc|]. by exists r.
Qed.

Lemma rack_by_name_in c name r : rack_by_name c name = Ok r → r ∈ racks c ∧ gr_name r = name.
Proof.
  rw /rack_by_name. destruct (List.find _ _) as [x|] eqn:Hf; [|done]. intros [= <-].
  apply List.find_some in Hf as [Hin Hn%bool_decide_eq_true]. by apply list_elem_of_In in Hin.
Qed.

Lemma choose_rack_spec c first v : center_ok c → ∃ r, choose_rack c first v = Some r ∧ r ∈ racks c.
Proof.
  intros Hc. destruct (next_rack_spec c Hc) as (r & Hr & Hin & _). rw /choose_rack Hr.
  case_match; [|by eexists]. destruct (rack_by_name c first) as [x|] eqn:Hx; [|by eexists].
  apply rack_by_name_in in Hx as [? _]. by eexists.
Qed.

Lemma choose_rack_from_spec c preferred :
  center_ok c → ∃ r, choose_rack_from c preferred = Some r ∧ r ∈ racks c.
Proof.
  intros Hc. destruct (next_rack_spec c Hc) as (r & Hr & Hin & _).
  rw /choose_rack_from /next_rack_from_list Hr. case_bool_decide; [by eexists|].
  destruct (min_key_total (rack_used c) (racks c)) as [[He _]|(m & -> & _)];
    [intros; by apply rack_known|by destruct Hc|]. simpl.
  edestruct (find_opt_total (A := GRack)) as (found & -> & Hf); simpl.
  { intros x Hx. simpl. destruct (rack_known c x Hc Hx) as [n ->]. by eexists. }
  destruct found as [x|]; simpl; [|by eexists]. exists x. split; [done|]. by apply Hf.
Qed.

Lemma choose_first_spec c v :
  center_ok c → iter_disks c ≠ [] → ∃ p, choose_first c v = Some p ∧ p ∈ iter_disks c.
Proof.
  intros Hc Hne. assert (∀ p, p ∈ iter_disks c → is_Some (used3 (counter c) p)) as Hu.
  { intros p (H1 & H2 & H3)%elem_iter_disks. by apply (proj1 Hc p.1.1 H1). }
  rw /choose_first /Center_next_disk_from_list /Center_next_disk.
  destruct (min_key_total _ _ Hu) as [[? _]|(m & -> & _)]; [done|]. simpl.
  edestruct (find_opt_total (A := GRack * GNode * GDisk)) as (found & -> & Hf); simpl.
  { intros p Hp. simpl. destruct (Hu p Hp) as [n ->]. by eexists. }
  destruct found as [x|]; simpl; [exists x; split; [done|]; by apply Hf|].
  destruct (min_by_key_total _ _ Hu) as [[? _]|(p & -> & Hp & _)]; [done|]. by exists p.
Qed.

(** ** Virtual disks *)

(** Every replica is a disk of the center. *)
Definition placed (rs : list GRack) (v : ConfigVDisk) : Prop :=
  ∀ rep, rep ∈ cv_replicas v → ∃ r p, r ∈ rs ∧ p ∈ node_disks (gr_nodes r) ∧ rep = replica_of p.

(** Every rack has [n] nodes with disks. *)
Definition enough_nodes (n : nat) (rs : list GRack) : Prop :=
  ∀ r, r ∈ rs → ∃ names, NoDup names ∧ (n ≤ length names)%nat ∧
    ∀ x, x ∈ names → ∃ m, m ∈ gr_nodes r ∧ gn_name m = x ∧ gn_disks m ≠ [].

Record filling (n : nat) (rs : list GRack) (v : ConfigVDisk) : Prop := {
  fl_placed : placed rs v;
  fl_distinct : enough_nodes n rs → NoDup (rep_node <$> cv_replicas v);
}.

Lemma enough_free n rs r banned :
  enough_nodes n rs → r ∈ rs → (length banned < n)%nat → node_disks (free_nodes banned (gr_nodes r)) ≠ [].
Proof.
  intros He Hr Hlen. destruct (He r Hr) as (names & Hnd & Hn & Hnames).
  assert (∃ x, x ∈ names ∧ x ∉ banned) as (x & Hx & Hb).
  { destruct (decide (Exists (λ x, x ∉ banned) names)) as [(x & ? & ?)%Exists_exists|Hno]; [by exists x|].
    apply not_Exists_Forall in Hno; [|apply _]. rw Forall_forall in Hno.
    assert (names ⊆+ banned) as ?%submseteq_length; [|lia].
    apply NoDup_submseteq; [done|]. intros y Hy. by apply dec_stable, Hno. }
  destruct (Hnames x Hx) as (m & Hm & Hname & Hd). destruct (gn_disks m) as [|d l] eqn:Hds; [done|].
  intros Hnil. assert ((m, d) ∈ node_disks (free_nodes banned (gr_nodes r))) as Hin; [|rw Hnil in Hin; set_solver].
  apply elem_node_disks. simpl. rw elem_free_nodes Hname Hds. set_solver.
Qed.

Lemma filling_push n rs v r p :
  filling n rs v → r ∈ rs → (length (cv_replicas v) < n)%nat →
  in_rack (get_used_nodes_names (cv_replicas v)) r p → filling n rs (push_replica (replica_of p) v).
Proof.
  intros [Hp Hd] Hr Hlen [Hin Hfree]. constructor.
  - intros rep [?|Hrep]%elem_of_app; [auto|]. apply list_elem_of_singleton in Hrep as ->. eauto.
  - intros He. simpl. rw fmap_app. apply list.NoDup_app. split; [auto|]. split; [|apply NoDup_singleton].
    intros x Hx Hx'. apply list_elem_of_singleton in Hx' as ->.
    destruct Hfree as [Hf|Hnil].
    + apply elem_node_disks in Hf as [Hf _]. apply elem_free_nodes in Hf as [Hf _]. by apply Hf.
    + apply (enough_free n rs r) in Hnil; [done|done|done|]. by rw /get_used_nodes_names length_fmap.
Qed.

(** The center keeps its racks and what its counter knows. *)
Definition same_center (c c' : Center) : Prop := racks c' = racks c ∧ center_ok c'.

Lemma push_wp P v r p c (Q : ConfigVDisk → Center → Prop) :
  center_ok c → r ∈ racks c → p ∈ node_disks (gr_nodes r) →
  (∀ k', counted (gr_name r) (gn_name p.1) (gd_name p.2) (counter c) k' →
     same_center c {| racks := racks c; counter := k' |} →
     Q (push_replica (replica_of p) v) {| racks := racks c; counter := k' |}) →
  wpx P (push_replica_to_vdisk v r p) Q c.
Proof.
  intros [Hc Hne] Hr [Hn Hd]%elem_node_disks HQ. rw /push_replica_to_vdisk.
  destruct (count_replica_run c r p.1 p.2 Hc Hr Hn Hd) as (k' & Hrun & Hk).
  apply wpx_bind. rw /wpx Hrun. apply HQ; [done|]. split; [done|]. split; [|done].
  eapply covers_more; [apply Hk|done].
Qed.

(** What a function that creates a virtual disk ensures. *)
Definition vdisk_made (id : Z) (n : nat) (c : Center) (res : result ConfigVDisk string) (c' : Center) : Prop :=
  same_center c c' ∧
  match res with
  | Ok v => cv_id v = id ∧ length (cv_replicas v) = n ∧ filling n (racks c) v
  | Err _ => ∃ r, r ∈ racks c ∧ node_disks (gr_nodes r) = []
  end.

Lemma create_replicas_made fuel n first v c :
  center_ok c → filling n (racks c) v → (length (cv_replicas v) ≤ n)%nat → (n ≤ length (cv_replicas v) + fuel)%nat →
  wp (create_replicas fuel n first v) (vdisk_made (cv_id v) n c) c.
Proof.
  revert v c. induction fuel as [|fuel IH]; intros v c Hc Hf Hle Hfuel; simpl;
    destruct (Nat.ltb_spec (length (cv_replicas v)) n); [lia| |..].
  1,3: apply wpx_ret; split; [done|]; split_and!; [done|lia|done].
  wp_step. wp_step. apply wpx_bind. destruct (choose_rack_spec c first v Hc) as (r & Hrack & Hr).
  eapply wpx_expect; [done|]. apply wpx_bind.
  destruct (Rack_next_disk_spec (counter c) (get_used_nodes_names (cv_replicas v)) r) as (res & Hres & Hp);
    [by apply Hc|]. eapply wpx_expect; [done|].
  destruct res as [p|e]; [|apply wpx_ret; split; [done|by exists r]].
  apply well_chosen_in_rack in Hp. apply wpx_bind. apply push_wp; [done|done|by apply Hp|].
  intros k' _ Hsame. eapply wpx_mono; [apply IH|].
  - apply Hsame.
  - by eapply filling_push.
  - rw /= length_app /=. lia.
  - rw /= length_app /=. lia.
  - intros res c' [[Hr1 Hr2] Hres']. split; [|done]. by split.
Qed.

Lemma filling_new n id c r p :
  r ∈ racks c → (0 < n)%nat → p ∈ node_disks (gr_nodes r) →
  filling n (racks c) (push_replica (replica_of p) (ConfigVDisk_new id)).
Proof.
  intros Hr Hn Hp. apply filling_push with (r := r); [|done|done|].
  - constructor; [by intros ? ?%elem_of_nil|constructor].
  - split; [done|]. left. apply elem_node_disks in Hp. apply elem_node_disks. rw elem_free_nodes. set_solver.
Qed.

(** [create_vdisk] makes at least one replica. *)
Lemma create_vdisk_made id n c :
  center_ok c → wp (create_vdisk id n) (vdisk_made id (Nat.max 1 n) c) c.
Proof.
  intros Hc. rw /create_vdisk. wp_step. wp_step. destruct (next_rack_spec c Hc) as (r & Hrack & Hr & _).
  apply wpx_bind. eapply wpx_expect; [done|]. apply wpx_bind.
  destruct (Rack_next_disk_spec (counter c) [] r) as (res & Hres & Hp); [by apply Hc|].
  eapply wpx_expect; [done|]. destruct res as [p|e]; [|apply wpx_ret; split; [done|by exists r]].
  apply well_chosen_in_rack in Hp. apply wpx_bind. apply push_wp; [done|done|by apply Hp|].
  intros k' _ Hsame.
  pose proof (filling_new (Nat.max 1 n) id c r p Hr ltac:(lia) (proj1 Hp)) as Hf.
  assert (create_replicas n n (gr_name r) (push_replica (replica_of p) (ConfigVDisk_new id)) =
          create_replicas n (Nat.max 1 n) (gr_name r) (push_replica (replica_of p) (ConfigVDisk_new id))) as Heq.
  { destruct n; [done|]. by replace (Nat.max 1 (S n)) with (S n) by lia. }
  rw Heq. eapply wpx_mono; [apply create_replicas_made|].
  - apply Hsame.
  - done.
  - simpl. lia.
  - simpl. lia.
  - intros res c' [[Hr1 Hr2] Hres']. split; [|done]. by split.
Qed.

Lemma move_replicas_made fuel preferred old v c :
  let n := length (cv_replicas old) in
  center_ok c → filling n (racks c) v → (length (cv_replicas v) ≤ n)%nat → (n ≤ length (cv_replicas v) + fuel)%nat →
  wp (move_replicas fuel preferred old v) (vdisk_made (cv_id v) n c) c.
Proof.
  intros n. revert v c. induction fuel as [|fuel IH]; intros v c Hc Hf Hle Hfuel; simpl;
    fold n; destruct (Nat.ltb_spec (length (cv_replicas v)) n); [lia| |..].
  1,3: apply wpx_ret; split; [done|]; split_and!; [done|lia|done].
  wp_step. wp_step. apply wpx_bind. destruct (choose_rack_from_spec c preferred Hc) as (r & Hrack & Hr).
  eapply wpx_expect; [done|]. apply wpx_bind.
  destruct (choose_disk_from_spec (counter c) (get_used_nodes_names (cv_replicas v)) (cv_replicas old) r)
    as (res & Hres & Hp); [by apply Hc|]. eapply wpx_expect; [done|].
  destruct res as [p|e]; [|apply wpx_ret; split; [done|by exists r]].
  apply wpx_bind. apply push_wp; [done|done|by apply Hp|].
  intros k' _ Hsame. eapply wpx_mono; [apply IH|].
  - apply Hsame.
  - by eapply filling_push.
  - rw /= length_app /=. lia.
  - rw /= length_app /=. lia.
  - intros res c' [[Hr1 Hr2] Hres']. split; [|done]. by split.
Qed.

Lemma create_vdisk_from_another_made old c :
  center_ok c → iter_disks c ≠ [] → cv_replicas old ≠ [] →
  wp (create_vdisk_from_another old) (vdisk_made (cv_id old) (length (cv_replicas old)) c) c.
Proof.
  intros Hc Hne Hold. rw /create_vdisk_from_another. wp_step. wp_step.
  destruct (choose_first_spec c old Hc Hne) as ([[r n] d] & Hfirst & (Hr & Hn & Hd)%elem_iter_disks).
  simpl in Hr, Hn, Hd. apply wpx_bind. eapply wpx_expect; [done|].
  assert ((n, d) ∈ node_disks (gr_nodes r)) as Hp by by apply elem_node_disks.
  apply wpx_bind. apply push_wp; [done|done|done|]. intros k' _ Hsame.
  assert (0 < length (cv_replicas old))%nat as Hpos by (destruct (cv_replicas old); simpl; [done|lia]).
  eapply wpx_mono; [apply move_replicas_made|].
  - apply Hsame.
  - by eapply filling_new.
  - simpl. lia.
  - simpl. lia.
  - intros res c' [[Hr1 Hr2] Hres']. split; [|done]. by split.
Qed.
