(* ===== verification/GenConfig.v ===== *)
(** * GenConfig: what the generator of configurations makes

    Theorems about [ConfigGen.v]: a configuration generated or expanded for valid hardware
    passes the validation of the cluster, its virtual disks have the replicas asked for on
    distinct nodes, and single replicas are spread evenly. *)

From Corelib Require Import ssreflect.
From stdpp Require Import base option list strings gmap sets numbers sorting.
From Stdlib Require Import Strings.Ascii ZArith Lia.
From S2P Require Import Prelude Data Text Errors Options Node ClusterConfig NodeConfig Mapper Backend ConfigGen GenPlacement.

(** ** The center of a configuration *)

Definition empty_rack (name : string) : GRack := {| gr_name := name; gr_nodes := []; gr_is_old := true |}.

Lemma map_rack_nodes_ok rack l m :
  NoDup l → (∀ x, x ∈ l → m !! x = None) →
  ∃ m', map_rack_nodes rack l m = Ok m' ∧
    ∀ x, m' !! x = if decide (x ∈ l) then Some rack else m !! x.
Proof.
  revert m. induction l as [|n l IH]; intros m Hnd Hm; simpl.
  - exists m. split; [done|]. intros x. by destruct (decide (x ∈ [])) as [?%elem_of_nil|].
  - apply list.NoDup_cons in Hnd as [Hn Hnd]. rw Hm; first set_solver.
    destruct (IH (<[n := rack]> m)) as (m' & Hrun & Hm'); [done| |].
    { intros x Hx. rw lookup_insert_ne; first by intros ->. apply Hm. set_solver. }
    exists m'. split; [done|]. intros x. rw Hm'. destruct (decide (x = n)) as [->|Hx].
    + rw (decide_False (P := n ∈ l)) //. rw lookup_insert_eq decide_True //. set_solver.
    + rw lookup_insert_ne //. repeat case_decide; set_solver.
Qed.

(** The racks by name, and the rack of every node. *)
Definition racks_mapped (l : list Rack) (rs : gmap string GRack) (m : gmap string string) : Prop :=
  (∀ k, rs !! k = if decide (k ∈ rack_name <$> l) then Some (empty_rack k) else None) ∧
  (∀ rack x, rack ∈ l → x ∈ rack_nodes rack → m !! x = Some (rack_name rack)).

Lemma map_racks_ok l rs m :
  NoDup (rack_name <$> l) → (∀ k, k ∈ rack_name <$> l → rs !! k = None) →
  NoDup (l ≫= rack_nodes) → (∀ x, x ∈ l ≫= rack_nodes → m !! x = None) →
  ∃ rs' m', map_racks l rs m = Ok (rs', m') ∧
    (∀ k, rs' !! k = if decide (k ∈ rack_name <$> l) then Some (empty_rack k) else rs !! k) ∧
    (∀ x, x ∉ l ≫= rack_nodes → m' !! x = m !! x) ∧
    (∀ rack x, rack ∈ l → x ∈ rack_nodes rack → m' !! x = Some (rack_name rack)).
Proof.
  revert rs m. induction l as [|rack l IH]; intros rs m Hnd Hrs Hnodes Hm; simpl.
  - exists rs, m. split; [done|]. split; [intros k; by destruct (decide (k ∈ [])) as [?%elem_of_nil|]|].
    split; [done|]. by intros ? ? ?%elem_of_nil.
  - rw fmap_cons in Hnd, Hrs. rw bind_cons in Hnodes, Hm.
    apply list.NoDup_cons in Hnd as [Hn Hnd]. apply list.NoDup_app in Hnodes as (Hnd1 & Hdisj & Hnd2).
    rw Hrs; first set_solver. destruct (map_rack_nodes_ok (rack_name rack) (rack_nodes rack) m Hnd1)
      as (m1 & Hrun1 & Hm1); [set_solver|]. rw Hrun1 /=.
    destruct (IH (<[rack_name rack := empty_rack (rack_name rack)]> rs) m1) as (rs' & m' & Hrun & Hrs' & Hm' & Hin).
    + done.
    + intros k Hk. rw lookup_insert_ne; first (by intros <-). set_solver.
    + done.
    + intros x Hx. rw Hm1 decide_False; [|by apply Hm; set_solver]. intros Hx'. by apply (Hdisj x).
    + exists rs', m'. split; [done|]. split_and!.
      * intros k. rw Hrs'. destruct (decide (k = rack_name rack)) as [->|Hk].
        -- rw decide_False // lookup_insert_eq decide_True //. set_solver.
        -- rw lookup_insert_ne //. repeat case_decide; set_solver.
      * intros x Hx. rw Hm'; first set_solver. rw Hm1 decide_False //. set_solver.
      * intros rack' x [->|Hr]%elem_of_cons Hx; [|by apply Hin].
        rw Hm'; first (intros Hx'; by apply (Hdisj x)). by rw Hm1 decide_True.
Qed.

Lemma map_values_insert {A} (m : gmap string A) k x y :
  m !! k = Some x → ∃ l, (map_to_list m).*2 ≡ₚ x :: l ∧ (map_to_list (<[k := y]> m)).*2 ≡ₚ y :: l.
Proof.
  intros Hk. exists (map_to_list (delete k m)).*2. split.
  - by rw -(map_to_list_delete m k x Hk).
  - rw -insert_delete_eq. rw map_to_list_insert //. apply lookup_delete_eq.
Qed.

(** Putting the nodes into their racks keeps the names of racks and adds the nodes. *)
Lemma fill_racks_ok l m rs :
  (∀ n, n ∈ l → ∃ k, m !! gn_name n = Some k ∧ is_Some (rs !! k)) →
  ∃ rs', fill_racks l m rs = Ok rs' ∧
    (map_to_list rs').*2 ≫= gr_nodes ≡ₚ ((map_to_list rs).*2 ≫= gr_nodes) ++ l ∧
    (∀ k r, rs !! k = Some r → ∃ r', rs' !! k = Some r' ∧ gr_name r' = gr_name r ∧
       ∀ n, n ∈ gr_nodes r ∨ n ∈ l ∧ m !! gn_name n = Some k → n ∈ gr_nodes r') ∧
    (∀ k, is_Some (rs' !! k) → is_Some (rs !! k)).
Proof.
  revert rs. induction l as [|n l IH]; intros rs Hl; simpl.
  - exists rs. split; [done|]. rw app_nil_r. split_and!; [done| |done]. intros k r Hk. exists r. set_solver.
  - destruct (Hl n) as (k & Hk & [r Hr]); [set_solver|]. rw Hk /= Hr /=.
    destruct (IH (<[k := rack_push_node n r]> rs)) as (rs' & Hrun & Hperm & Hgrow & Hdom).
    { intros n' Hn'. destruct (Hl n') as (k' & Hk' & ?); [set_solver|]. exists k'. eauto using is_Some_insert. }
    exists rs'. split; [done|]. split_and!.
    + rw Hperm. destruct (map_values_insert rs k r (rack_push_node n r) Hr) as (rest & -> & ->).
      rw !bind_cons /=. solve_Permutation.
    + intros k' r' Hr'. destruct (decide (k' = k)) as [->|Hne].
      * destruct (Hgrow k (rack_push_node n r)) as (r'' & Hk'' & Hn'' & Hin); [by rw lookup_insert_eq|].
        exists r''. split; [done|]. assert (r' = r) as -> by congruence. split; [done|].
        intros n' Hn'. apply Hin. simpl. set_solver.
      * destruct (Hgrow k' r') as (r'' & Hk'' & Hn'' & Hin); [by rw lookup_insert_ne|].
        exists r''. split; [done|]. split; [done|]. intros n' [?|[[->|?]%elem_of_cons Hm]]; apply Hin; [by left| |by right].
        congruence.
    + intros k' Hk'. apply Hdom in Hk'. apply lookup_insert_is_Some in Hk' as [<-|[_ ?]]; [by eexists|done].
Qed.

Lemma count_node_covers k n : knows_more k (count_node k n) ∧ covers_node (count_node k n) n.
Proof.
  rw /count_node /covers_node.
  assert (∀ l k, knows_more k (fold_left (λ c d, add_disk (gn_name n) (gd_name d) c) l k) ∧
    ∀ d, d ∈ l → is_Some (disk_used_count (fold_left (λ c d, add_disk (gn_name n) (gd_name d) c) l k)
                            (gn_name n) (gd_name d))) as Hdisks.
  { clear k. induction l as [|d l IH]; intros k; simpl; [split; [done|by intros ? ?%elem_of_nil]|].
    destruct (add_disk_more (gn_name n) (gd_name d) k) as [H1 H2]. destruct (IH (add_disk (gn_name n) (gd_name d) k))
      as [H3 H4]. split; [by etransitivity|]. intros d' [->|?]%elem_of_cons; [by apply (km_disks _ _ H3)|by apply H4]. }
  destruct (Hdisks (gn_disks n) (add_node (gn_name n) k)) as [H1 H2]. split_and!; [|apply (km_nodes _ _ H1)|done].
  - etransitivity; [apply add_node_more|done].
  - rw /add_node lookup_insert_eq. by eexists.
Qed.

Lemma count_nodes_cover l k :
  knows_more k (fold_left count_node l k) ∧ ∀ n, n ∈ l → covers_node (fold_left count_node l k) n.
Proof.
  revert k. induction l as [|n l IH]; intros k; simpl; [split; [done|by intros ? ?%elem_of_nil]|].
  destruct (count_node_covers k n) as [H1 H2]. destruct (IH (count_node k n)) as [H3 H4].
  split; [by etransitivity|]. intros n' [->|?]%elem_of_cons; [|by apply H4].
  destruct H2 as [H5 H6], H3. split; eauto.
Qed.

Lemma Center_push_covers c r :
  covers (counter c) (racks c) → covers (counter (Center_push c r)) (racks (Center_push c r)).
Proof.
  intros Hc. destruct (count_nodes_cover (gr_nodes r) (add_rack (gr_name r) (counter c))) as [H1 H2].
  intros r' [Hr|Hr]%elem_of_app.
  - eapply covers_more; [|done|done]. simpl. etransitivity; [apply add_rack_more|done].
  - apply list_elem_of_singleton in Hr as ->. split; [|done]. apply (km_racks _ _ H1).
    rw /add_rack lookup_insert_eq. by eexists.
Qed.

Lemma push_all_covers l c :
  covers (counter c) (racks c) →
  let c' := fold_left Center_push l c in covers (counter c') (racks c') ∧ racks c' = racks c ++ l.
Proof.
  revert c. induction l as [|r l IH]; intros c Hc; simpl; [by rw app_nil_r|].
  destruct (IH (Center_push c r)) as [H1 H2]; [by apply Center_push_covers|]. split; [done|]. rw H2 /=. by rw -app_assoc.
Qed.

Lemma node_disks_app a b : node_disks (a ++ b) = node_disks a ++ node_disks b.
Proof. apply bind_app. Qed.

Lemma disks_count_eq c : disks_count c = length (node_disks (racks c ≫= gr_nodes)).
Proof.
  assert (∀ (l : list GNode) acc, fold_left (λ acc n, (acc + Node_disks_count n)%nat) l acc =
    (acc + length (node_disks l))%nat) as Hnodes.
  { induction l as [|n l IH]; intros acc; simpl; [lia|]. rw IH length_app length_fmap /Node_disks_count. lia. }
  rw /disks_count. assert (∀ l acc, fold_left (λ acc r, (acc + Rack_disks_count r)%nat) l acc =
    (acc + length (node_disks (l ≫= gr_nodes)))%nat) as ->; [|done].
  induction l as [|r l IH]; intros acc; [simpl; lia|]. rw bind_cons node_disks_app length_app.
  cbn [fold_left]. rw IH /Rack_disks_count Hnodes. lia.
Qed.

Lemma disks_count_config config c :
  racks c ≫= gr_nodes ≡ₚ center_node <$> cl_nodes config → disks_count c = length (cl_nodes config ≫= cn_disks).
Proof.
  intros Hc. rw disks_count_eq.
  assert (node_disks (racks c ≫= gr_nodes) ≡ₚ node_disks (center_node <$> cl_nodes config)) as ->.
  { rw /node_disks. by rw Hc. }
  clear. induction (cl_nodes config) as [|x l IH]; [done|].
  rw fmap_cons bind_cons. change (center_node x :: (center_node <$> l)) with ([center_node x] ++ (center_node <$> l)).
  rw node_disks_app !length_app IH. f_equal. rw !length_fmap /=. lia.
Qed.

(** ** Valid hardware *)

(** The nodes and racks of a configuration are valid, it has no virtual disks yet, and
    every node is in a rack when racks are used. *)
Record hardware_ok `{UriParser} (c : Cluster) (use_racks : bool) : Prop := {
  hw_nodes : cl_nodes c ≠ [];
  hw_vdisks : cl_vdisks c = [];
  hw_rack_each : Forall rack_ok (cl_racks c);
  hw_node_each : Forall node_ok (cl_nodes c);
  hw_node_names : NoDup (cn_name <$> cl_nodes c);
  hw_addresses : NoDup (cn_address <$> cl_nodes c);
  hw_rack_names : NoDup (rack_name <$> cl_racks c);
  hw_rack_nodes : NoDup (cl_racks c ≫= rack_nodes);
  hw_racked : ∀ name, name ∈ cl_racks c ≫= rack_nodes → name ∈ cn_name <$> cl_nodes c;
  hw_all_racked : use_racks = true → cl_racks c ≠ [] →
    ∀ node, node ∈ cl_nodes c → cn_name node ∈ cl_racks c ≫= rack_nodes;
}.

Definition with_disks (nodes : list ClusterNode) : list ClusterNode := filter (λ n, cn_disks n ≠ []) nodes.

(** [n] nodes with disks: in the cluster, or in every rack when racks are used. *)
Definition hardware_for (n : nat) (c : Cluster) (use_racks : bool) : Prop :=
  if negb use_racks || bool_decide (cl_racks c = []) then (n ≤ length (with_disks (cl_nodes c)))%nat
  else ∀ rack, rack ∈ cl_racks c →
    (n ≤ length (with_disks (filter (λ node, cn_name node ∈ rack_nodes rack) (cl_nodes c))))%nat.

(** The names of the racks of a center. *)
Definition center_rack_names (config : Cluster) (use_racks : bool) : list string :=
  if negb use_racks || bool_decide (cl_racks config = []) then ["unknown"] else rack_name <$> cl_racks config.

(** The racks of a center with the nodes they are to have. *)
Definition rack_groups (config : Cluster) (use_racks : bool) : list (string * list string) :=
  if negb use_racks || bool_decide (cl_racks config = []) then [("unknown", cn_name <$> cl_nodes config)]
  else (λ rack, (rack_name rack, rack_nodes rack)) <$> cl_racks config.

Record center_for (n : nat) (config : Cluster) (use_racks : bool) (c : Center) : Prop := {
  cf_ok : center_ok c;
  cf_nodes : racks c ≫= gr_nodes ≡ₚ center_node <$> cl_nodes config;
  cf_names : NoDup (gr_name <$> racks c);
  cf_racks : ∀ x, x ∈ gr_name <$> racks c ↔ x ∈ center_rack_names config use_racks;
  cf_groups : ∀ g, g ∈ rack_groups config use_racks → ∃ r, r ∈ racks c ∧ gr_name r = g.1 ∧
    ∀ node, node ∈ cl_nodes config → cn_name node ∈ g.2 → center_node node ∈ gr_nodes r;
  cf_enough : enough_nodes n (racks c);
}.

(** Nodes with disks, counted as nodes of a center. *)
Lemma enough_from (nodes : list GNode) (l : list ClusterNode) n :
  NoDup (cn_name <$> l) → (n ≤ length (with_disks l))%nat → (∀ x, x ∈ l → center_node x ∈ nodes) →
  ∃ names, NoDup names ∧ (n ≤ length names)%nat ∧
    ∀ x, x ∈ names → ∃ m, m ∈ nodes ∧ gn_name m = x ∧ gn_disks m ≠ [].
Proof.
  intros Hnd Hn Hin. exists (cn_name <$> with_disks l). split_and!.
  - eapply sublist_NoDup; [done|]. apply fmap_sublist, sublist_filter.
  - by rw length_fmap.
  - intros x (node & -> & [Hd Hx]%list_elem_of_filter)%list_elem_of_fmap. exists (center_node node).
    split; [auto|]. split; [done|]. rw /center_node /=. by destruct (cn_disks node).
Qed.

Lemma center_ok_new rs l :
  racks (fold_left Center_push rs Center_new) = l → l ≠ [] → center_ok (fold_left Center_push rs Center_new).
Proof.
  intros <- Hne. split; [|done]. apply (push_all_covers rs Center_new). by intros ? ?%elem_of_nil.
Qed.

Section centers.
Context `{UriParser, !HashOrder}.

Lemma center_single n config use_racks :
  hardware_ok config use_racks → hardware_for n config use_racks →
  negb use_racks || bool_decide (cl_racks config = []) = true →
  ∃ c, from_cluster_config config use_racks = Ok c ∧ center_for n config use_racks c.
Proof.
  intros Hhw Hn Hr. rw /from_cluster_config Hr. eexists. split; [done|]. rw /hardware_for Hr in Hn. constructor.
  - eapply (center_ok_new [_]); done.
  - by rw /= app_nil_r.
  - apply NoDup_singleton.
  - intros x. by rw /center_rack_names Hr.
  - intros g. rw /rack_groups Hr. intros ->%list_elem_of_singleton. eexists. split; [by apply list_elem_of_singleton|].
    split; [done|]. intros node Hnode _. by apply list_elem_of_fmap_2.
  - intros r ->%list_elem_of_singleton. apply (enough_from _ (cl_nodes config)); [apply Hhw|done|].
    intros x Hx. by apply list_elem_of_fmap_2.
Qed.

Lemma elem_values {A} (m : gmap string A) x : x ∈ (map_to_list m).*2 ↔ ∃ k, m !! k = Some x.
Proof.
  rw list_elem_of_fmap. setoid_rewrite elem_of_map_to_list'. split.
  - intros ([k y] & -> & Hk). by exists k.
  - intros [k Hk]. by exists (k, x).
Qed.

Lemma bind_nil {A B} (f : A → list B) l : (∀ x, x ∈ l → f x = []) → l ≫= f = [].
Proof. induction l as [|x l IH]; intros Hl; [done|]. rw bind_cons (Hl x); [set_solver|]. apply IH. set_solver. Qed.

(** The racks with their nodes. *)
Record filled (config : Cluster) (rs : gmap string GRack) : Prop := {
  fd_names : ∀ k r, rs !! k = Some r → gr_name r = k;
  fd_dom : ∀ k, is_Some (rs !! k) ↔ k ∈ rack_name <$> cl_racks config;
  fd_nodes : (map_to_list rs).*2 ≫= gr_nodes ≡ₚ center_node <$> cl_nodes config;
  fd_in : ∀ rack r node, rack ∈ cl_racks config → rs !! rack_name rack = Some r →
    node ∈ cl_nodes config → cn_name node ∈ rack_nodes rack → center_node node ∈ gr_nodes r;
}.

Lemma racks_filled config :
  hardware_ok config true → cl_racks config ≠ [] →
  ∃ maps rs, map_racks (cl_racks config) ∅ ∅ = Ok maps ∧
    fill_racks (center_node <$> cl_nodes config) maps.2 maps.1 = Ok rs ∧ filled config rs.
Proof.
  intros Hhw Hne.
  destruct (map_racks_ok (cl_racks config) ∅ ∅) as (rs & m & -> & Hrs & _ & Hm);
    [apply Hhw|done|apply Hhw|done|].
  destruct (fill_racks_ok (center_node <$> cl_nodes config) m rs) as (rs' & Hfill & Hperm & Hgrow & Hdom).
  { intros ? (node & -> & Hnode)%list_elem_of_fmap. simpl.
    pose proof (hw_all_racked _ _ Hhw eq_refl Hne node Hnode) as (rack & Hx & Hrack)%list_elem_of_bind.
    exists (rack_name rack). split; [by apply Hm|]. rw Hrs decide_True; [by apply list_elem_of_fmap_2|by eexists]. }
  assert (∀ k, k ∈ rack_name <$> cl_racks config → ∃ r, rs' !! k = Some r ∧ gr_name r = k ∧
            ∀ node, node ∈ cl_nodes config → m !! cn_name node = Some k → center_node node ∈ gr_nodes r) as Hrack.
  { intros k Hk. destruct (Hgrow k (empty_rack k)) as (r & Hr & Hname & Hin); [by rw Hrs decide_True|].
    exists r. split_and!; [done|done|]. intros node Hnode Hmk. apply Hin. right. by split; [apply list_elem_of_fmap_2|]. }
  assert (∀ k, is_Some (rs' !! k) → k ∈ rack_name <$> cl_racks config) as Hkeys.
  { intros k [x Hx]%Hdom. rw Hrs in Hx. by case_decide. }
  exists (rs, m), rs'. split; [done|]. split; [done|]. constructor.
  - intros k r Hk. destruct (Hrack k) as (r' & Hr' & Hname & _); [apply Hkeys; by eexists|]. congruence.
  - intros k. split; [apply Hkeys|]. intros Hk. destruct (Hrack k Hk) as (r & -> & _). by eexists.
  - rw Hperm. assert ((map_to_list rs).*2 ≫= gr_nodes = []) as ->; [|done].
    apply bind_nil. intros r [k Hk]%elem_values. rw Hrs in Hk. by case_decide; simplify_eq.
  - intros rack r node Hin Hr Hnode Hx. destruct (Hrack (rack_name rack)) as (r' & Hr' & _ & Hnd);
      [by apply list_elem_of_fmap_2|]. assert (r' = r) as -> by congruence. apply Hnd; [done|]. by apply Hm.
Qed.

Lemma filled_enough n config rs l :
  hardware_ok config true → filled config rs → l ≡ₚ (map_to_list rs).*2 →
  (∀ rack, rack ∈ cl_racks config →
    (n ≤ length (with_disks (filter (λ node, cn_name node ∈ rack_nodes rack) (cl_nodes config))))%nat) →
  enough_nodes n l.
Proof.
  intros Hhw Hf Hl Hn r Hr. rw Hl in Hr. apply elem_values in Hr as [k Hk].
  assert (k ∈ rack_name <$> cl_racks config) as (rack & -> & Hrack)%list_elem_of_fmap.
  { apply (fd_dom _ _ Hf). by eexists. }
  apply (enough_from _ (filter (λ node, cn_name node ∈ rack_nodes rack) (cl_nodes config))); [|by apply Hn|].
  - eapply sublist_NoDup; [apply (hw_node_names _ _ Hhw)|]. apply fmap_sublist, sublist_filter.
  - intros x [Hx Hx']%list_elem_of_filter. by eapply (fd_in _ _ Hf).
Qed.

Lemma filled_names config rs : filled config rs → NoDup (gr_name <$> (map_to_list rs).*2).
Proof.
  intros Hf. assert (gr_name <$> (map_to_list rs).*2 = (map_to_list rs).*1) as ->; [|apply NoDup_fst_map_to_list].
  assert (∀ k r, (k, r) ∈ map_to_list rs → gr_name r = k) as Hk.
  { intros k r Hkr%elem_of_map_to_list. by apply (fd_names _ _ Hf). }
  revert Hk. clear. induction (map_to_list rs) as [|[k r] l IH]; intros Hk; [done|]. rw !fmap_cons /=.
  rw (Hk k r); [set_solver|]. f_equal. apply IH. intros; apply Hk. set_solver.
Qed.

Lemma center_racked n config use_racks :
  hardware_ok config use_racks → hardware_for n config use_racks → cl_nodes config ≫= cn_disks ≠ [] →
  negb use_racks || bool_decide (cl_racks config = []) = false →
  ∃ c, from_cluster_config config use_racks = Ok c ∧ center_for n config use_racks c.
Proof.
  intros Hhw Hn Hd Hr. pose proof Hr as Hr0. rw /from_cluster_config Hr. rw /hardware_for Hr in Hn.
  apply orb_false_iff in Hr as [->%negb_false_iff Hne%bool_decide_eq_false].
  destruct (racks_filled config Hhw Hne) as (maps & rs & -> & Hfill & Hf). simpl. rw Hfill /=. set c := fold_left _ _ _.
  destruct (push_all_covers (hash_order (map_to_list rs)).*2 Center_new) as [_ Heq];
    [by intros ? ?%elem_of_nil|]. fold c in Heq.
  assert (racks c ≡ₚ (map_to_list rs).*2) as Hracks by (rw Heq /= hash_order_perm //).
  pose proof (filled_enough n config rs (racks c) Hhw Hf Hracks Hn) as Henough.
  assert (racks c ≠ []) as Hcne.
  { destruct (cl_racks config) as [|rack l] eqn:Hl; [done|].
    destruct (proj2 (fd_dom _ _ Hf (rack_name rack))) as [r Hr]; [rw Hl fmap_cons; set_solver|].
    assert (r ∈ racks c) as Hin by (rw Hracks; apply elem_values; by eexists). intros Hnil. rw Hnil in Hin. set_solver. }
  assert (center_ok c) as Hc by by apply (center_ok_new _ (racks c)).
  assert (racks c ≫= gr_nodes ≡ₚ center_node <$> cl_nodes config) as Hnodes by (rw Hracks; apply Hf).
  exists c. split; [|constructor; [done|done| | | |done]].
  - rw bool_decide_false; [|done]. rw (disks_count_config config) // length_zero_iff_nil. done.
  - rw Hracks. by eapply filled_names.
  - intros x. rw Hracks /center_rack_names Hr0 -(fd_dom _ _ Hf) list_elem_of_fmap. setoid_rewrite elem_values. split.
    + intros (r & -> & k & Hk). rw (fd_names _ _ Hf k r Hk). by eexists.
    + intros [r Hx]. exists r. split; [by rw (fd_names _ _ Hf x r Hx)|by exists x].
  - intros g. rw /rack_groups Hr0. intros (rack & -> & Hrack)%list_elem_of_fmap. simpl.
    destruct (proj2 (fd_dom _ _ Hf (rack_name rack))) as [r Hr']; [by apply list_elem_of_fmap_2|].
    exists r. rw Hracks elem_values. split; [by eexists|]. split; [by apply (fd_names _ _ Hf)|].
    intros node Hnode Hx. by eapply (fd_in _ _ Hf).
Qed.

Lemma center_of_config n config use_racks :
  hardware_ok config use_racks → hardware_for n config use_racks → cl_nodes config ≫= cn_disks ≠ [] →
  ∃ c, from_cluster_config config use_racks = Ok c ∧ center_for n config use_racks c.
Proof.
  intros Hhw Hn Hd. destruct (negb use_racks || bool_decide (cl_racks config = [])) eqn:Hr;
    [by apply center_single|by apply center_racked].
Qed.

Lemma hardware_disks n config use_racks :
  hardware_for n config use_racks → (0 < n)%nat → cl_nodes config ≫= cn_disks ≠ [].
Proof.
  intros Hn Hpos. assert (∃ node, node ∈ cl_nodes config ∧ cn_disks node ≠ []) as (node & Hnode & Hd).
  { rw /hardware_for in Hn. assert (∃ l, (n ≤ length (with_disks l))%nat ∧ ∀ x, x ∈ l → x ∈ cl_nodes config) as (l & Hl & Hin).
    - destruct (negb use_racks || bool_decide (cl_racks config = [])) eqn:Hr; [by exists (cl_nodes config)|].
      apply orb_false_iff in Hr as [_ Hr%bool_decide_eq_false]. destruct (cl_racks config) as [|rack l]; [done|].
      eexists. split; [apply (Hn rack); set_solver|]. by intros x [_ ?]%list_elem_of_filter.
    - destruct (with_disks l) as [|node l'] eqn:Hw; [simpl in Hl; lia|]. exists node.
      assert (node ∈ with_disks l) as [Hd Hx]%list_elem_of_filter by (rw Hw; set_solver). auto. }
  intros Hnil. destruct (cn_disks node) as [|d l] eqn:Hl; [done|].
  assert (d ∈ cl_nodes config ≫= cn_disks) as Hin by (apply list_elem_of_bind; exists node; rw Hl; set_solver).
  rw Hnil in Hin. by apply elem_of_nil in Hin.
Qed.
End centers.

(** ** Validation of a center *)

Lemma equal_neighbours_NoDup l : StronglySorted String.le l → equal_neighbours l = false ↔ NoDup l.
Proof.
  induction 1 as [|x l Hs IH Hx]; [by split; [constructor|]|]. destruct l as [|y l].
  { split; [intros _; apply NoDup_singleton|done]. }
  cbn [equal_neighbours]. rw orb_false_iff bool_decide_eq_false IH (list.NoDup_cons x). apply and_iff_compat_r.
  rw elem_of_cons. split; [|naive_solver]. intros Hne [Heq|Hin]; [done|]. apply Hne.
  inversion_clear Hs as [|? ? _ Hy]. rw !Forall_forall in Hx, Hy. apply (anti_symm String.le).
  - apply Hx. set_solver.
  - by apply Hy.
Qed.

Lemma sorted_neighbours l : equal_neighbours (merge_sort String.le l) = false ↔ NoDup l.
Proof.
  rw equal_neighbours_NoDup; [by apply StronglySorted_merge_sort; apply _|]. by rw merge_sort_Permutation.
Qed.

(** The names of racks are distinct, and those of nodes over all racks. *)
Lemma Center_validate_Ok c :
  Center_validate c = Ok tt ↔ NoDup (gr_name <$> racks c) ∧ NoDup (gn_name <$> (racks c ≫= gr_nodes)).
Proof.
  rw /Center_validate -!sorted_neighbours. repeat case_match; naive_solver.
Qed.

(** ** The virtual disks *)

Lemma enough_no_empty n rs r : enough_nodes n rs → (0 < n)%nat → r ∈ rs → node_disks (gr_nodes r) ≠ [].
Proof.
  intros He Hn Hr Hnil. apply (enough_free n rs r [] He Hr); [done|].
  destruct (node_disks (free_nodes [] (gr_nodes r))) as [|p l] eqn:Hl; [done|].
  assert (p ∈ node_disks (gr_nodes r)) as Hp by (apply (free_disk_in []); rw Hl; set_solver). rw Hnil in Hp. set_solver.
Qed.

(** A virtual disk with [n] replicas on distinct nodes of the racks. *)
Definition good_vdisk (rs : list GRack) (id : Z) (n : nat) (v : ConfigVDisk) : Prop :=
  cv_id v = id ∧ length (cv_replicas v) = n ∧ placed rs v ∧ NoDup (rep_node <$> cv_replicas v).

Lemma made_good id n c m w :
  wp m (vdisk_made id n c) w → enough_nodes n (racks c) → (0 < n)%nat →
  wp m (λ res c', same_center c c' ∧ ∃ v, res = Ok v ∧ good_vdisk (racks c) id n v) w.
Proof.
  intros Hm He Hn. eapply wpx_mono; [done|]. intros [v|e] c' [Hsame Hres]; (split; [done|]).
  - destruct Hres as (Hid & Hlen & [Hp Hd]). exists v. split; [done|]. split_and!; [done|done|done|auto].
  - destruct Hres as (r & Hr & Hnil). by apply (enough_no_empty n (racks c) r) in Hnil.
Qed.

Lemma create_vdisks_good fuel count n vs c :
  center_ok c → enough_nodes n (racks c) → (0 < n)%nat → (length vs ≤ count)%nat → (count ≤ length vs + fuel)%nat →
  (∀ i v, vs !! i = Some v → good_vdisk (racks c) (Z.of_nat i mod 2 ^ 32) n v) →
  wp (create_vdisks fuel count n vs) (λ res c', same_center c c' ∧ ∃ vs', res = Ok vs' ∧ length vs' = count ∧
    ∀ i v, vs' !! i = Some v → good_vdisk (racks c) (Z.of_nat i mod 2 ^ 32) n v) c.
Proof.
  revert vs c. induction fuel as [|fuel IH]; intros vs c Hc He Hn Hle Hf Hvs; simpl;
    destruct (Nat.ltb_spec (length vs) count); [lia| |..].
  1,3: apply wpx_ret; split; [done|]; exists vs; split_and!; [done|lia|done].
  apply wpx_bind. eapply wpx_mono.
  { eapply (made_good _ n); [|done|done]. replace n with (Nat.max 1 n) at 2 by lia. by apply create_vdisk_made. }
  intros res c' [[Hr Hc'] (v & -> & Hv)]. eapply wpx_mono; [apply IH|].
  - done.
  - by rw Hr.
  - done.
  - rw length_app /=. lia.
  - rw length_app /=. lia.
  - intros i u [Hi|[? Hi]]%lookup_app_Some; rw Hr; [by apply Hvs|].
    apply list_lookup_singleton_Some in Hi as [Hi <-]. by replace i with (length vs) by lia.
  - intros res' c'' [[Hr' Hc''] Hres]. rw Hr in Hres, Hr'. done.
Qed.

Lemma move_vdisks_good olds vs c :
  center_ok c → iter_disks c ≠ [] →
  (∀ old, old ∈ olds → cv_replicas old ≠ [] ∧ enough_nodes (length (cv_replicas old)) (racks c)) →
  wp (move_vdisks olds vs) (λ res c', ∃ vs', res = Ok (vs ++ vs') ∧
    Forall2 (λ old v, good_vdisk (racks c) (cv_id old) (length (cv_replicas old)) v) olds vs') c.
Proof.
  revert vs c. induction olds as [|old olds IH]; intros vs c Hc Hne Holds; simpl.
  - apply wpx_ret. exists []. by rw app_nil_r.
  - destruct (Holds old) as [Hr He]; [set_solver|]. apply wpx_bind. eapply wpx_mono.
    { eapply made_good; [by apply create_vdisk_from_another_made|done|].
      destruct (cv_replicas old); simpl; [done|lia]. }
    intros res c' [[Hrc Hc'] (v & -> & Hv)]. eapply wpx_mono; [apply IH|].
    + done.
    + by rw /iter_disks Hrc.
    + rw Hrc. intros old' Hold'. apply Holds. set_solver.
    + intros res' c'' (vs' & -> & Hvs'). exists (v :: vs'). rw -app_assoc. split; [done|].
      rw Hrc in Hvs'. by constructor.
Qed.

(** ** From the center back to the configuration *)

Lemma placed_disk config use_racks n c v rep :
  center_for n config use_racks c → placed (racks c) v → rep ∈ cv_replicas v →
  ∃ node disk, node ∈ cl_nodes config ∧ disk ∈ cn_disks node ∧ rep = {| rep_node := cn_name node; rep_disk := dp_name disk |}.
Proof.
  intros Hc Hp Hrep. destruct (Hp rep Hrep) as (r & [gn gd] & Hr & [Hn Hd]%elem_node_disks & ->). simpl in Hn, Hd.
  assert (gn ∈ center_node <$> cl_nodes config) as (node & -> & Hnode)%list_elem_of_fmap.
  { rw -(cf_nodes _ _ _ _ Hc). apply list_elem_of_bind. by exists r. }
  simpl in Hd. apply list_elem_of_fmap in Hd as (disk & -> & Hdisk). by exists node, disk.
Qed.

Lemma center_names_ok `{UriParser} config use_racks n c :
  hardware_ok config use_racks → center_for n config use_racks c → Center_validate c = Ok tt.
Proof.
  intros Hhw Hc. apply Center_validate_Ok. split; [apply Hc|]. rw (cf_nodes _ _ _ _ Hc) -list_fmap_compose.
  apply (hw_node_names _ _ Hhw).
Qed.

(** Virtual disks for valid hardware make a valid configuration. *)
Lemma extended_ok `{UriParser} config use_racks vs :
  hardware_ok config use_racks → vs ≠ [] →
  cv_id <$> vs ≡ₚ seqZ 0 (Z.of_nat (length vs)) →
  (∀ v, v ∈ vs → cv_replicas v ≠ [] ∧ NoDup (rep_node <$> cv_replicas v)) →
  (∀ v rep, v ∈ vs → rep ∈ cv_replicas v → ∃ node disk, node ∈ cl_nodes config ∧ disk ∈ cn_disks node ∧
     rep = {| rep_node := cn_name node; rep_disk := dp_name disk |}) →
  cluster_ok (vdisks_extend vs config).
Proof.
  intros Hhw Hne Hids Hvs Hreps.
  constructor; simpl; try apply Hhw; rw (hw_vdisks _ _ Hhw); try done.
  - apply Forall_forall. intros v Hv. destruct (Hvs v Hv) as [Hr Hnd]. split_and!; [done| |by apply NoDup_fmap_1 in Hnd].
    apply Forall_forall. intros rep Hrep. destruct (Hreps v rep Hv Hrep) as (node & disk & Hn & Hd & ->).
    pose proof (hw_node_each _ _ Hhw) as Hnode. rw Forall_forall in Hnode. destruct (Hnode node Hn) as ([Hname _] & _ & Hdisks & _).
    rw Forall_forall in Hdisks. by destruct (Hdisks disk Hd) as [[? _] _].
  - intros v rep Hv Hrep. destruct (Hreps v rep Hv Hrep) as (node & disk & Hn & Hd & ->). by exists node, disk.
Qed.

Lemma seq_ids vs :
  Z.of_nat (length vs) ≤ 2 ^ 32 → (∀ i v, vs !! i = Some v → cv_id v = Z.of_nat i mod 2 ^ 32) →
  cv_id <$> vs = seqZ 0 (Z.of_nat (length vs)).
Proof.
  intros Hlen Hvs. apply list_eq. intros i. rw list_lookup_fmap. destruct (vs !! i) as [v|] eqn:Hi.
  - simpl. rw (Hvs i v Hi). apply lookup_lt_Some in Hi as Hlt. rw lookup_seqZ_lt; first lia.
    rw Z.mod_small; first lia. done.
  - simpl. symmetry. apply lookup_seqZ_ge. apply lookup_ge_None in Hi. lia.
Qed.

Lemma ids_typed vs : Z.of_nat (length vs) ≤ 2 ^ 32 → cv_id <$> vs ≡ₚ seqZ 0 (Z.of_nat (length vs)) →
  Forall u32 (cv_id <$> vs).
Proof. intros Hlen ->. apply Forall_forall. intros x Hx%elem_of_seqZ. rw /u32. lia. Qed.

(** ** Theorems *)

Section theorems.
Context `{UriParser, !HashOrder}.

(** The number of virtual disks asked for. *)
Definition planned_count (config : Cluster) (n : nat) (total per_disk : option nat) : option nat :=
  match per_disk with
  | Some p => Z.to_nat <$> ceil (wrap64 (Z.of_nat p * Z.of_nat (length (cl_nodes config ≫= cn_disks)))) (Z.of_nat n)
  | None => total
  end.

Lemma new_count_planned n config use_racks c total per_disk :
  center_for n config use_racks c → new_vdisks_count n total per_disk c = planned_count config n total per_disk.
Proof.
  intros Hc. rw /new_vdisks_count /planned_count (disks_count_config config c (cf_nodes _ _ _ _ Hc)).
  by destruct per_disk; [destruct (ceil _ _)|].
Qed.

Lemma simple_gen_good config n total per_disk count use_racks :
  hardware_ok config use_racks → hardware_for n config use_racks → (0 < n)%nat →
  planned_count config n total per_disk = Some count → (0 < count)%nat → Z.of_nat count ≤ 2 ^ 32 →
  ∃ vs, simple_gen config n total per_disk use_racks = Some (Ok (vdisks_extend vs config)) ∧
    length vs = count ∧
    (∀ v, v ∈ vs → length (cv_replicas v) = n ∧ NoDup (rep_node <$> cv_replicas v)) ∧
    validate (vdisks_extend vs config) = Ok tt.
Proof.
  intros Hhw Hn Hpos Hcount Hc0 Hc32.
  destruct (center_of_config n config use_racks Hhw Hn (hardware_disks _ _ _ Hn Hpos)) as (c & Hfrom & Hc).
  rw /simple_gen Hfrom /= (center_names_ok _ _ _ _ Hhw Hc) /= (new_count_planned _ _ _ _ _ _ Hc) Hcount /=.
  destruct (wp_total _ _ _ (create_vdisks_good count count n [] c (cf_ok _ _ _ _ Hc) (cf_enough _ _ _ _ Hc) Hpos
              ltac:(simpl; lia) ltac:(simpl; lia) ltac:(done))) as (res & c' & -> & _ & vs & -> & Hlen & Hvs).
  exists vs. simpl. split; [done|]. split; [done|].
  assert (∀ v, v ∈ vs → ∃ i, good_vdisk (racks c) (Z.of_nat i mod 2 ^ 32) n v) as Hin.
  { intros v [i Hi]%list_elem_of_lookup. exists i. by apply Hvs. }
  split; [intros v Hv; by destruct (Hin v Hv) as (i & _ & ? & _ & ?)|].
  assert (cv_id <$> vs ≡ₚ seqZ 0 (Z.of_nat (length vs))) as Hids.
  { rw seq_ids; [lia| |done]. intros i v Hi. by apply (Hvs i v Hi). }
  apply Cluster_validate_Ok.
  - rw /cluster_typed /= (hw_vdisks _ _ Hhw) app_nil_l. apply ids_typed; [lia|done].
  - apply (extended_ok _ use_racks); [done|intros ->; simpl in Hlen; lia| done| |].
    + intros v Hv. destruct (Hin v Hv) as (i & _ & Hl & _ & ?). split; [|done]. intros Hnil. rw Hnil in Hl. simpl in Hl. lia.
    + intros v rep Hv Hrep. destruct (Hin v Hv) as (i & _ & _ & Hp & _). by eapply placed_disk.
Qed.

(** C13: The generator of configurations, given valid hardware with enough nodes (in every
    rack, when racks are used), neither fails nor aborts: the configuration it makes has
    the nodes and racks of the hardware and the number of virtual disks asked for, each
    with its replicas on distinct nodes, and passes the validation of the cluster. *)
Theorem simple_gen_valid config n total per_disk count use_racks :
  hardware_ok config use_racks → hardware_for n config use_racks → (0 < n)%nat →
  planned_count config n total per_disk = Some count → (0 < count)%nat → Z.of_nat count ≤ 2 ^ 32 →
  ∃ vs, simple_gen config n total per_disk use_racks = Some (Ok (vdisks_extend vs config)) ∧
    length vs = count ∧
    (∀ v, v ∈ vs → length (cv_replicas v) = n ∧ NoDup (rep_node <$> cv_replicas v)) ∧
    validate (vdisks_extend vs config) = Ok tt.
Proof. apply simple_gen_good. Qed.

(** ** Marking what is new only reorders racks, nodes and disks *)

Definition node_same (n n' : GNode) : Prop :=
  gn_name n' = gn_name n ∧ gd_name <$> gn_disks n' ≡ₚ gd_name <$> gn_disks n.
Definition rack_same (r r' : GRack) : Prop :=
  gr_name r' = gr_name r ∧
  (∀ n', n' ∈ gr_nodes r' → ∃ n, n ∈ gr_nodes r ∧ node_same n n') ∧
  (∀ n, n ∈ gr_nodes r → ∃ n', n' ∈ gr_nodes r' ∧ node_same n n').
Definition racks_same (rs rs' : list GRack) : Prop :=
  (∀ r', r' ∈ rs' → ∃ r, r ∈ rs ∧ rack_same r r') ∧ (∀ r, r ∈ rs → ∃ r', r' ∈ rs' ∧ rack_same r r').

Lemma mark_disk_name node disks d old : gd_name (mark_disk node disks d old).1 = gd_name d.
Proof. revert old. induction disks as [|[n x] l IH]; intros old; simpl; [done|]. by case_bool_decide. Qed.

Lemma mark_disks_names node disks l old : gd_name <$> (mark_disks node disks l old).1 = gd_name <$> l.
Proof.
  revert old. induction l as [|d l IH]; intros old; cbn [mark_disks]; [done|].
  pose proof (mark_disk_name node disks d old) as Hd. destruct (mark_disk node disks d old) as [d' old'].
  specialize (IH old'). destruct (mark_disks node disks l old') as [l' old'']. cbn [fst] in IH, Hd |- *. by rw !fmap_cons Hd IH.
Qed.

Context `{!UnstableSort}.

Lemma Node_mark_same disks n : node_same n (Node_mark_new disks n).
Proof.
  rw /Node_mark_new. pose proof (mark_disks_names (gn_name n) disks (gn_disks n) false) as Hl.
  destruct (mark_disks _ _ _ _) as [l old]. split; [done|]. rw /= sort_unstable_perm. by rw -Hl.
Qed.

Lemma Rack_mark_same disks r r' :
  gr_name r' = gr_name r → gr_nodes r' = gr_nodes r → rack_same r (Rack_mark_new disks r').
Proof.
  intros Hname Hnodes. split; [done|]. rw /Rack_mark_new /= Hnodes. setoid_rewrite sort_unstable_perm. split.
  - intros ? (n & -> & Hn)%list_elem_of_fmap. exists n. split; [done|]. apply Node_mark_same.
  - intros n Hn. exists (Node_mark_new disks n). split; [by apply list_elem_of_fmap_2|]. apply Node_mark_same.
Qed.

Lemma Center_mark_same disks new_racks c : racks_same (racks c) (racks (Center_mark_new disks new_racks c)).
Proof.
  rw /Center_mark_new /racks_same /=. setoid_rewrite sort_unstable_perm. split.
  - intros ? (r & -> & Hr)%list_elem_of_fmap. exists r. split; [done|]. by apply Rack_mark_same.
  - intros r Hr. eexists. split; [by apply list_elem_of_fmap_2|]. by apply Rack_mark_same.
Qed.

Lemma node_same_disk n n' d : node_same n n' →
  (d ∈ gn_disks n' → ∃ d', d' ∈ gn_disks n ∧ gd_name d' = gd_name d) ∧
  (d ∈ gn_disks n → ∃ d', d' ∈ gn_disks n' ∧ gd_name d' = gd_name d).
Proof.
  intros [_ Hp]. split; intros Hd%(list_elem_of_fmap_2 gd_name); [rw Hp in Hd|rw -Hp in Hd];
    apply list_elem_of_fmap in Hd as (d' & ? & ?); by exists d'.
Qed.

Lemma same_center_ok k rs rs' : racks_same rs rs' → covers k rs → rs ≠ [] → covers k rs' ∧ rs' ≠ [].
Proof.
  intros [Hb Hf] Hc Hne. split.
  - intros r' Hr'. destruct (Hb r' Hr') as (r & Hr & Hrn & Hn & _). destruct (Hc r Hr) as [Hck Hcn]. split; [by rw Hrn|].
    intros n' Hn'. destruct (Hn n' Hn') as (n & Hin & Hsame). destruct (Hcn n Hin) as [H3 H4].
    pose proof Hsame as [Hname _]. split; [by rw Hname|]. intros d Hd. rw Hname.
    destruct (proj1 (node_same_disk _ _ d Hsame) Hd) as (d' & Hd' & <-). by apply H4.
  - destruct rs as [|r rs]; [done|]. destruct (Hf r) as (r' & Hr' & _); [set_solver|]. intros ->. set_solver.
Qed.

Lemma same_enough n rs rs' : racks_same rs rs' → enough_nodes n rs → enough_nodes n rs'.
Proof.
  intros [Hb _] He r' Hr'. destruct (Hb r' Hr') as (r & Hr & _ & _ & Hn).
  destruct (He r Hr) as (names & Hnd & Hlen & Hnames). exists names. split; [done|]. split; [done|].
  intros x Hx. destruct (Hnames x Hx) as (m & Hm & Hname & Hd). destruct (Hn m Hm) as (m' & Hm' & Hname' & Hp).
  exists m'. split; [done|]. split; [congruence|]. intros Hnil. rw Hnil in Hp. 
  symmetry in Hp. apply Permutation_nil_r in Hp. by apply fmap_nil_inv in Hp.
Qed.

Lemma same_placed rs rs' v : racks_same rs rs' → placed rs' v → placed rs v.
Proof.
  intros [Hb _] Hp rep Hrep. destruct (Hp rep Hrep) as (r' & [n' d'] & Hr' & [Hn' Hd']%elem_node_disks & ->).
  destruct (Hb r' Hr') as (r & Hr & _ & Hn & _). destruct (Hn n' Hn') as (n & Hin & Hsame).
  destruct (proj1 (node_same_disk _ _ d' Hsame) Hd') as (d & Hd & Hname).
  exists r, (n, d). split; [done|]. split; [by apply elem_node_disks|]. destruct Hsame as [Hnn _].
  rw /replica_of /=. simpl in Hnn. congruence.
Qed.

Lemma enough_iter n c : enough_nodes n (racks c) → (0 < n)%nat → racks c ≠ [] → iter_disks c ≠ [].
Proof.
  intros He Hn Hne. destruct (racks c) as [|r rs] eqn:Hrs; [done|].
  destruct (node_disks (gr_nodes r)) as [|p l] eqn:Hl.
  { by apply (enough_no_empty n (r :: rs) r) in Hl; [|..|set_solver]. }
  assert ((r, p.1, p.2) ∈ iter_disks c) as Hin; [|by intros Hnil; rw Hnil in Hin; apply elem_of_nil in Hin].
  apply elem_iter_disks. rw Hrs /=. split; [set_solver|]. apply elem_node_disks. rw Hl. set_solver.
Qed.

(** ** Expansion *)

Definition without_vdisks (c : Cluster) : Cluster :=
  {| cl_nodes := cl_nodes c; cl_vdisks := []; cl_racks := cl_racks c; cl_distribution_func := cl_distribution_func c |}.

(** The new hardware has the racks and disks of the old. *)
Record expandable (old new : Cluster) (use_racks : bool) : Prop := {
  ex_racks : use_racks = true →
    ∀ x, x ∈ center_rack_names old use_racks → x ∈ center_rack_names new use_racks;
  ex_disks : ∀ node disk, node ∈ cl_nodes old → disk ∈ cn_disks node →
    ∃ node' disk', node' ∈ cl_nodes new ∧ disk' ∈ cn_disks node' ∧ cn_name node' = cn_name node ∧ dp_name disk' = dp_name disk;
}.

Lemma hardware_for_0 config use_racks : hardware_for 0 config use_racks.
Proof. rw /hardware_for. case_match; [lia|]. intros. lia. Qed.

Lemma elem_pairs n config use_racks c x :
  center_for n config use_racks c →
  x ∈ node_disk_pairs c ↔ ∃ node disk, node ∈ cl_nodes config ∧ disk ∈ cn_disks node ∧ x = (cn_name node, dp_name disk).
Proof.
  intros Hc. rw /node_disk_pairs elem_of_list_to_set list_elem_of_fmap. split.
  - intros ([[r gn] gd] & -> & (Hr & Hn & Hd)%elem_iter_disks). simpl in Hr, Hn, Hd.
    assert (gn ∈ center_node <$> cl_nodes config) as (node & -> & Hnode)%list_elem_of_fmap.
    { rw -(cf_nodes _ _ _ _ Hc). apply list_elem_of_bind. by exists r. }
    simpl in Hd. apply list_elem_of_fmap in Hd as (disk & -> & Hdisk). by exists node, disk.
  - intros (node & disk & Hnode & Hdisk & ->).
    assert (center_node node ∈ racks c ≫= gr_nodes) as (r & Hn & Hr)%list_elem_of_bind.
    { rw (cf_nodes _ _ _ _ Hc). by apply list_elem_of_fmap_2. }
    exists (r, center_node node, {| gd_name := dp_name disk; gd_is_old := true |}). split; [done|].
    apply elem_iter_disks. split_and!; [done|done|]. rw /= list_elem_of_fmap. by exists disk.
Qed.

Lemma check_expand_Ok old new use_racks c_old c_new n n' :
  center_for n old use_racks c_old → center_for n' new use_racks c_new → expandable old new use_racks →
  check_expand_configs c_old c_new use_racks = Ok tt.
Proof.
  intros Ho Hn [Hr Hd]. rw /check_expand_configs.
  assert (use_racks = true → (list_to_set (gr_name <$> racks c_old) : gset string) ⊆ list_to_set (gr_name <$> racks c_new)) as Hracks.
  { intros Hu x. rw !elem_of_list_to_set (cf_racks _ _ _ _ Ho) (cf_racks _ _ _ _ Hn). by apply Hr. }
  assert (node_disk_pairs c_old ⊆ node_disk_pairs c_new) as Hdisks.
  { intros x. rw (elem_pairs _ _ _ _ _ Ho) (elem_pairs _ _ _ _ _ Hn). intros (node & disk & Hnode & Hdisk & ->).
    destruct (Hd node disk Hnode Hdisk) as (node' & disk' & ? & ? & <- & <-). by exists node', disk'. }
  destruct use_racks; simpl; repeat case_bool_decide; naive_solver.
Qed.

(** The marked center of an expansion. *)
Lemma expand_center_Ok old new use_racks :
  hardware_ok new use_racks → hardware_ok (without_vdisks old) use_racks → expandable old new use_racks →
  cl_nodes old ≫= cn_disks ≠ [] →
  ∃ c c', expand_center old new use_racks = Ok c' ∧ center_for 0 new use_racks c ∧
    from_cluster_config new use_racks = Ok c ∧ racks_same (racks c) (racks c') ∧ center_ok c'.
Proof.
  intros Hnew Hold Hex Hd.
  assert (cl_nodes new ≫= cn_disks ≠ []) as Hd'.
  { destruct (cl_nodes old ≫= cn_disks) as [|d l] eqn:Hl; [done|].
    assert (d ∈ cl_nodes old ≫= cn_disks) as (node & Hdisk & Hnode)%list_elem_of_bind by (rw Hl; set_solver).
    destruct (ex_disks _ _ _ Hex node d Hnode Hdisk) as (node' & disk' & ? & ? & _).
    intros Hnil. assert (disk' ∈ cl_nodes new ≫= cn_disks) as Hin by (apply list_elem_of_bind; by exists node').
    rw Hnil in Hin. by apply elem_of_nil in Hin. }
  destruct (center_of_config 0 new use_racks Hnew (hardware_for_0 _ _) Hd') as (c & Hfrom & Hc).
  destruct (center_of_config 0 _ use_racks Hold (hardware_for_0 _ _) Hd) as (co & Hfrom_o & Hco).
  change (from_cluster_config (without_vdisks old) use_racks) with (from_cluster_config old use_racks) in Hfrom_o.
  assert (check_expand_configs co c use_racks = Ok tt) as Hcheck.
  { eapply check_expand_Ok; [exact Hco|exact Hc|]. destruct Hex. by constructor. }
  rw /expand_center Hfrom /= (center_names_ok _ _ _ _ Hnew Hc) /= Hfrom_o /= (center_names_ok _ _ _ _ Hold Hco) /= Hcheck /=.
  set disks := get_new_disks _ _. set rs := if negb use_racks then [] else _.
  exists c, (Center_mark_new disks rs c). pose proof (Center_mark_same disks rs c) as Hsame.
  split_and!; [done|done|done|done|]. destruct (cf_ok _ _ _ _ Hc) as [Hcov Hne]. by eapply same_center_ok.
Qed.

Lemma moved_good_vdisk new use_racks c c' id n v :
  center_for 0 new use_racks c → racks_same (racks c) (racks c') → good_vdisk (racks c') id n v →
  good_vdisk (racks c) id n v.
Proof. intros Hc Hsame (? & ? & Hp & ?). split_and!; [done|done| |done]. by eapply same_placed. Qed.

Lemma valid_replicas c v : cluster_ok c → v ∈ cl_vdisks c → (0 < length (cv_replicas v))%nat.
Proof.
  intros Hok Hv. pose proof (ok_vdisk_each _ Hok) as Hall. rw Forall_forall in Hall.
  destruct (Hall v Hv) as [Hne _]. destruct (cv_replicas v); simpl; [done|lia].
Qed.

Lemma valid_disks c : cluster_ok c → cl_nodes c ≫= cn_disks ≠ [].
Proof.
  intros Hok Hnil. pose proof (ok_vdisks _ Hok). destruct (cl_vdisks c) as [|v l] eqn:Hl; [done|].
  assert (v ∈ cl_vdisks c) as Hv by (rw Hl; set_solver). pose proof (valid_replicas c v Hok Hv) as Hpos.
  destruct (cv_replicas v) as [|rep reps] eqn:Hr; [simpl in Hpos; lia|].
  destruct (ok_replicas _ Hok v rep) as (node & disk & Hnode & _ & Hdisk & _); [done|rw Hr; set_solver|].
  assert (disk ∈ cl_nodes c ≫= cn_disks) as Hin by (apply list_elem_of_bind; by exists node).
  rw Hnil in Hin. by apply elem_of_nil in Hin.
Qed.

(** The virtual disks of a valid configuration moved to valid hardware. *)
Lemma moved_config_ok new use_racks old c vs :
  hardware_ok new use_racks → center_for 0 new use_racks c → cluster_ok old →
  Forall2 (λ old v, good_vdisk (racks c) (cv_id old) (length (cv_replicas old)) v) (cl_vdisks old) vs →
  cv_id <$> vs = cv_id <$> cl_vdisks old ∧ cluster_ok (vdisks_extend vs new).
Proof.
  intros Hnew Hc Hok Hgood.
  assert (cv_id <$> vs = cv_id <$> cl_vdisks old) as Hids.
  { clear -Hgood. induction Hgood as [|? ? ? ? (? & _)]; [done|]. rw !fmap_cons. by f_equal. }
  split; [done|].
  assert (∀ v, v ∈ vs → ∃ o, o ∈ cl_vdisks old ∧ good_vdisk (racks c) (cv_id o) (length (cv_replicas o)) v) as Hin.
  { intros v [i Hi]%list_elem_of_lookup. destruct (Forall2_lookup_r _ _ _ _ _ Hgood Hi) as (o & Ho & Hv).
    exists o. split; [by eapply list_elem_of_lookup_2|done]. }
  apply (extended_ok _ use_racks); [done| | | |].
  - intros ->. apply Forall2_nil_inv_r in Hgood. by apply (ok_vdisks _ Hok).
  - rw Hids. erewrite <- Forall2_length; [|done]. apply Hok.
  - intros v Hv. destruct (Hin v Hv) as (o & Ho & _ & Hl & _ & ?). split; [|done]. intros Hnil. rw Hnil in Hl.
    pose proof (valid_replicas _ _ Hok Ho). simpl in Hl. lia.
  - intros v rep Hv Hrep. destruct (Hin v Hv) as (o & _ & _ & _ & Hp & _). by eapply placed_disk.
Qed.

(** C14: Expanding a valid configuration to valid hardware that has the old racks and disks
    and nodes enough neither fails nor aborts: every virtual disk keeps its id and number
    of replicas, has them on distinct nodes of the new hardware, and the configuration made
    passes the validation of the cluster. *)
Theorem simple_expand_valid old new use_racks :
  hardware_ok new use_racks → hardware_ok (without_vdisks old) use_racks →
  cluster_typed old → validate old = Ok tt → expandable old new use_racks →
  (∀ v, v ∈ cl_vdisks old → hardware_for (length (cv_replicas v)) new use_racks) →
  ∃ vs, simple_expand old new use_racks = Some (Ok (vdisks_extend vs new)) ∧
    Forall2 (λ old v, cv_id v = cv_id old ∧ length (cv_replicas v) = length (cv_replicas old) ∧
                      NoDup (rep_node <$> cv_replicas v)) (cl_vdisks old) vs ∧
    validate (vdisks_extend vs new) = Ok tt.
Proof.
  intros Hnew Hold Hty Hvalid Hex Hn. apply Cluster_validate_Ok in Hvalid as Hok; [|done].
  destruct (expand_center_Ok old new use_racks Hnew Hold Hex (valid_disks _ Hok))
    as (c & c' & Hrun & Hc & Hfrom & Hsame & Hc').
  assert (∀ v, v ∈ cl_vdisks old → enough_nodes (length (cv_replicas v)) (racks c')) as Henough.
  { intros v Hv. eapply same_enough; [done|]. pose proof (Hn v Hv) as Hnv.
    destruct (center_of_config _ new use_racks Hnew Hnv (hardware_disks _ _ _ Hnv (valid_replicas _ _ Hok Hv)))
      as (c2 & Hfrom2 & Hc2). rw Hfrom in Hfrom2. injection Hfrom2 as <-. apply Hc2. }
  assert (iter_disks c' ≠ []) as Hiter.
  { pose proof (ok_vdisks _ Hok). destruct (cl_vdisks old) as [|v l] eqn:Hl; [done|].
    eapply (enough_iter (length (cv_replicas v))); [apply Henough; set_solver| |apply Hc'].
    apply (valid_replicas old); [done|rw Hl; set_solver]. }
  assert (∀ v, v ∈ cl_vdisks old → cv_replicas v ≠ [] ∧ enough_nodes (length (cv_replicas v)) (racks c')) as Hall.
  { intros v Hv. split; [|by apply Henough]. pose proof (valid_replicas _ _ Hok Hv). by destruct (cv_replicas v); [simpl in *; lia|]. }
  destruct (wp_total _ _ _ (move_vdisks_good (cl_vdisks old) [] c' Hc' Hiter Hall))
    as (res & c'' & Hmove & vs & -> & Hvs).
  assert (Forall2 (λ old v, good_vdisk (racks c) (cv_id old) (length (cv_replicas old)) v) (cl_vdisks old) vs) as Hgood.
  { eapply Forall2_impl; [done|]. intros. by eapply moved_good_vdisk. }
  destruct (moved_config_ok new use_racks old c vs Hnew Hc Hok Hgood) as [Hids Hvs_ok].
  exists vs. rw /simple_expand Hrun /= Hmove. split; [done|]. split.
  { eapply Forall2_impl; [done|]. by intros ? ? (? & ? & _ & ?). }
  apply Cluster_validate_Ok; [|done]. rw /cluster_typed /= (hw_vdisks _ _ Hnew) app_nil_l. rw Hids. apply Hty.
Qed.

(** [get_new_disks] lists the disks that both configurations have, not the new ones. *)
Lemma get_new_disks_common old new x :
  x ∈ get_new_disks old new ↔ ∃ node disk old_node, node ∈ new ∧ disk ∈ cn_disks node ∧
    old_node ∈ old ∧ disk ∈ cn_disks old_node ∧ cn_name node = cn_name old_node ∧
    cn_address node = cn_address old_node ∧ x = (cn_name node, dp_name disk).
Proof.
  assert (∀ l (p : ClusterNode * DiskPath), p ∈ config_disks l ↔ p.1 ∈ l ∧ p.2 ∈ cn_disks p.1) as Hdisks.
  { intros l [node disk]. rw /config_disks list_elem_of_bind /=. split.
    - by intros (n & (d & [= -> ->] & Hd)%list_elem_of_fmap & Hn).
    - intros [Hn Hd]. exists node. split; [by apply list_elem_of_fmap_2|done]. }
  rw /get_new_disks list_elem_of_fmap. setoid_rewrite list_elem_of_filter. setoid_rewrite Exists_exists.
  setoid_rewrite Hdisks. split.
  - intros ([node disk] & -> & ([on od] & [Hn Hd] & Hname & Haddr & Heq) & Hin & Hdin). simpl in *. subst.
    by exists node, od, on.
  - intros (node & disk & on & ? & ? & ? & ? & ? & ? & ->). exists (node, disk). split; [done|].
    split; [|done]. by exists (on, disk).
Qed.
End theorems.

(** ** Examples: what the generator does outside these hypotheses *)

#[local, refine] Instance insertion_sort_unstable : UnstableSort :=
  {| sort_unstable A key := @merge_sort A (λ a b, (key a ≤ key b)%nat) (λ a b, Nat.le_dec (key a) (key b)) |}.
Proof.
  - intros. apply merge_sort_Permutation.
  - intros A key l. apply StronglySorted_merge_sort; [intros a b c; lia|intros a b; lia].
Defined.
#[local] Instance order_kept : HashOrder := {| hash_order A l := l; hash_order_perm A l := Permutation_refl l |}.

Definition hw_disk (d : string) : DiskPath := {| dp_name := d; dp_path := "/" +:+ d |}.
Definition hw_node (name : string) (disks : list string) : ClusterNode :=
  {| cn_name := name; cn_address := name +:+ ":20000"; cn_disks := hw_disk <$> disks |}.
Definition hw_config (nodes : list ClusterNode) (rs : list Rack) : Cluster :=
  {| cl_nodes := nodes; cl_vdisks := []; cl_racks := rs; cl_distribution_func := Mod |}.
Definition hw_racks : Cluster :=
  hw_config [hw_node "n1" ["a"; "b"]; hw_node "n2" ["a"]; hw_node "n3" ["a"]; hw_node "n4" ["a"]]
    [{| rack_name := "r1"; rack_nodes := ["n1"; "n2"] |}; {| rack_name := "r2"; rack_nodes := ["n3"; "n4"] |}].

(** More replicas than nodes: the virtual disk holds one disk twice, and the cluster
    refuses the configuration made. *)
Example too_few_nodes :
  match simple_gen (hw_config [hw_node "n1" ["a"]] []) 2 (Some 1%nat) None false with
  | Some (Ok c') =>
      cv_replicas <$> cl_vdisks c' = [[{| rep_node := "n1"; rep_disk := "a" |}; {| rep_node := "n1"; rep_disk := "a" |}]] ∧
      is_err (@validate _ (@Cluster_validate uri_example) c') = true
  | _ => False
  end.
Proof. by vm_compute. Qed.

(** No replicas asked for: the count per disk aborts, the total makes one replica. *)
Example no_replicas :
  simple_gen hw_racks 0 None (Some 1%nat) false = None ∧
  match simple_gen hw_racks 0 (Some 1%nat) None false with
  | Some (Ok c') => (length ∘ cv_replicas) <$> cl_vdisks c' = [1%nat]
  | _ => False
  end.
Proof. by vm_compute. Qed.

(** The added disk is not new, the old ones are; a node all of whose disks are listed is
    still old. *)
Example new_disks_inverted :
  let old := [hw_node "n1" ["a"; "b"]] in
  let new := [hw_node "n1" ["a"; "b"; "c"]] in
  get_new_disks old new = [("n1", "a"); ("n1", "b")] ∧
  gn_is_old (Node_mark_new (get_new_disks old old) (center_node (hw_node "n1" ["a"; "b"]))) = true.
Proof. by vm_compute. Qed.

(** ** Witnesses *)

#[local] Existing Instance uri_example.

#[local] Ltac decided := by apply (bool_decide_unpack _).

Lemma hw_node_ok name disks :
  name_ok name → Forall name_ok disks → NoDup disks → node_ok (hw_node name disks).
Proof.
  intros Hname Hdisks Hnd. split_and!; [done|by eexists _, _| |].
  - apply Forall_fmap. eapply Forall_impl; [done|]. intros d Hd. split; [done|]. by split.
  - rw /hw_node /= -list_fmap_compose. by rw (list_fmap_id disks).
Qed.

#[local] Ltac each_node := repeat (apply Forall_cons; split); try apply Forall_nil_2; apply hw_node_ok; decided.

Lemma hw_config_ok nodes rs use_racks :
  nodes ≠ [] → Forall node_ok nodes → NoDup (cn_name <$> nodes) → NoDup (cn_address <$> nodes) →
  Forall rack_ok rs → NoDup (rack_name <$> rs) → NoDup (rs ≫= rack_nodes) →
  (∀ x, x ∈ rs ≫= rack_nodes → x ∈ cn_name <$> nodes) →
  (use_racks = true → rs ≠ [] → ∀ x, x ∈ cn_name <$> nodes → x ∈ rs ≫= rack_nodes) →
  hardware_ok (hw_config nodes rs) use_racks.
Proof.
  intros. constructor; simpl; try done. intros Hu Hne node Hnode. auto using list_elem_of_fmap_2.
Qed.

Lemma hw_racks_ok use_racks : hardware_ok hw_racks use_racks.
Proof.
  apply hw_config_ok; [done|each_node|decided|decided| |decided|decided|..].
  - repeat (apply Forall_cons; split); try apply Forall_nil_2; split; decided.
  - intros x Hx. simpl in *. set_solver.
  - intros _ _ x Hx. simpl in *. set_solver.
Qed.

Lemma simple_gen_valid_witness :
  hardware_ok hw_racks true ∧ hardware_for 2 hw_racks true ∧
  ∃ vs, simple_gen hw_racks 2 None (Some 4%nat) true = Some (Ok (vdisks_extend vs hw_racks)) ∧ length vs = 10%nat ∧
    validate (vdisks_extend vs hw_racks) = Ok tt.
Proof.
  pose proof (hw_racks_ok true) as Hhw.
  assert (hardware_for 2 hw_racks true) as Hn.
  { intros rack. rw !elem_of_cons. intros [->|[->|?%elem_of_nil]]; [vm_compute; lia..|done]. }
  split; [done|]. split; [done|].
  destruct (simple_gen_valid hw_racks 2 None (Some 4%nat) 10 true Hhw Hn ltac:(lia) ltac:(by vm_compute) ltac:(lia) ltac:(lia))
    as (vs & Hrun & Hlen & _ & Hv). exists vs. split; [exact Hrun|split; [exact Hlen|exact Hv]].
Defined.

Definition old_hardware : list ClusterNode := [hw_node "n1" ["a"]; hw_node "n2" ["a"]].
Definition old_config : Cluster :=
  {| cl_nodes := old_hardware; cl_racks := []; cl_distribution_func := Mod;
     cl_vdisks := [{| cv_id := 0; cv_replicas := [{| rep_node := "n1"; rep_disk := "a" |}; {| rep_node := "n2"; rep_disk := "a" |}] |}] |}.
Definition new_hardware : Cluster := hw_config [hw_node "n1" ["a"; "b"]; hw_node "n2" ["a"]; hw_node "n3" ["a"]] [].

Lemma plain_hardware_ok nodes use_racks :
  nodes ≠ [] → Forall node_ok nodes → NoDup (cn_name <$> nodes) → NoDup (cn_address <$> nodes) →
  hardware_ok (hw_config nodes []) use_racks.
Proof. intros. apply hw_config_ok; try done; try constructor. by intros ? ?%elem_of_nil. Qed.

Lemma simple_expand_valid_witness :
  validate old_config = Ok tt ∧
  ∃ vs, simple_expand old_config new_hardware false = Some (Ok (vdisks_extend vs new_hardware)) ∧ length vs = 1%nat ∧
    validate (vdisks_extend vs new_hardware) = Ok tt.
Proof.
  assert (hardware_ok new_hardware false) as Hnew.
  { apply plain_hardware_ok; [done|each_node|decided..]. }
  assert (hardware_ok (without_vdisks old_config) false) as Hold.
  { apply plain_hardware_ok; [done|each_node|decided..]. }
  assert (validate old_config = Ok tt) as Hv by by vm_compute.
  assert (cluster_typed old_config) as Hty by (rw /cluster_typed /u32 /= list.Forall_singleton; lia).
  assert (expandable old_config new_hardware false) as Hex.
  { constructor; [done|]. intros node disk Hnode Hdisk. exists (if decide (cn_name node = "n1") then hw_node "n1" ["a"; "b"] else hw_node "n2" ["a"]), disk.
    rw /= /old_hardware !elem_of_cons in Hnode. destruct Hnode as [->|[->|?%elem_of_nil]]; [..|done]; simpl in *; set_solver. }
  split; [done|].
  destruct (simple_expand_valid old_config new_hardware false Hnew Hold Hty Hv Hex) as (vs & Hrun & Hvs & Hok).
  { intros v ->%list_elem_of_singleton. vm_compute. lia. }
  exists vs. split; [exact Hrun|]. split; [by apply Forall2_length in Hvs|exact Hok].
Defined.
