(* ===== verification/GenBalance.v ===== *)
(** * GenBalance: single replicas are spread evenly

    With one replica per virtual disk the greedy choice of [ConfigGen.v] keeps the racks,
    and the disks of every rack, within one virtual disk of each other. *)

From Corelib Require Import ssreflect.
From stdpp Require Import base option list strings gmap sets numbers sorting.
From Stdlib Require Import Strings.Ascii ZArith Lia.
From S2P Require Import Prelude Data Text Errors Options Node ClusterConfig NodeConfig Mapper Backend ConfigGen GenPlacement GenConfig.

(** Virtual disks with a replica on a disk, and on one of some nodes. *)
Definition on_disk (vs : list ConfigVDisk) (rep : Replica) : nat :=
  length (filter (λ v, rep ∈ cv_replicas v) vs).
Definition on_nodes (vs : list ConfigVDisk) (names : list string) : nat :=
  length (filter (λ v, Exists (λ rep, rep_node rep ∈ names) (cv_replicas v)) vs).

Definition rack_names (r : GRack) : list string := gn_name <$> gr_nodes r.

Lemma on_disk_app vs v rep :
  on_disk (vs ++ [v]) rep = (on_disk vs rep + if decide (rep ∈ cv_replicas v) then 1 else 0)%nat.
Proof. rw /on_disk filter_app length_app filter_cons. by case_decide. Qed.

Lemma on_nodes_app vs v names :
  on_nodes (vs ++ [v]) names =
  (on_nodes vs names + if decide (Exists (λ rep, rep_node rep ∈ names) (cv_replicas v)) then 1 else 0)%nat.
Proof. rw /on_nodes filter_app length_app filter_cons. by case_decide. Qed.

(** The counter holds these numbers, and they differ by at most one. *)
Record spread (vs : list ConfigVDisk) (c : Center) : Prop := {
  sp_rack : ∀ r, r ∈ racks c → rack_used c r = Some (Z.of_nat (on_nodes vs (rack_names r)));
  sp_disk : ∀ r p, r ∈ racks c → p ∈ node_disks (gr_nodes r) →
    used (counter c) p = Some (Z.of_nat (on_disk vs (replica_of p)));
  sp_racks : ∀ r r', r ∈ racks c → r' ∈ racks c →
    (on_nodes vs (rack_names r) ≤ S (on_nodes vs (rack_names r')))%nat;
  sp_disks : ∀ r p p', r ∈ racks c → p ∈ node_disks (gr_nodes r) → p' ∈ node_disks (gr_nodes r) →
    (on_disk vs (replica_of p) ≤ S (on_disk vs (replica_of p')))%nat;
}.

(** Distinct names of racks, and of nodes over all racks. *)
Definition named (c : Center) : Prop :=
  NoDup (gr_name <$> racks c) ∧ NoDup (gn_name <$> (racks c ≫= gr_nodes)).

Lemma NoDup_fmap_inj {A B} (f : A → B) l x y : NoDup (f <$> l) → x ∈ l → y ∈ l → f x = f y → x = y.
Proof.
  intros Hnd [i Hx]%list_elem_of_lookup [j Hy]%list_elem_of_lookup Hf.
  assert (i = j) as ->; [|congruence]. eapply (NoDup_lookup (f <$> l)); [done|..].
  - rw list_lookup_fmap Hx. done.
  - rw list_lookup_fmap Hy /=. by rw Hf.
Qed.

(** A name of a node is in one rack only. *)
Lemma rack_of_name c r r' n :
  named c → r ∈ racks c → r' ∈ racks c → n ∈ rack_names r → n ∈ rack_names r' → r = r'.
Proof.
  intros [_ Hnd] Hr Hr' Hn Hn'. revert Hnd Hr Hr'. induction (racks c) as [|x l IH]; intros Hnd Hr Hr'; [by apply elem_of_nil in Hr|].
  rw bind_cons fmap_app in Hnd. apply list.NoDup_app in Hnd as (_ & Hdisj & Hnd).
  assert (∀ y, y ∈ l → n ∈ rack_names y → n ∈ gn_name <$> (l ≫= gr_nodes)) as Hin.
  { intros y Hy (m & -> & Hm)%list_elem_of_fmap. apply list_elem_of_fmap_2, list_elem_of_bind. by exists y. }
  apply elem_of_cons in Hr as [->|Hr], Hr' as [->|Hr']; [done| | |by apply IH]; exfalso; eapply Hdisj; eauto.
Qed.

Lemma on_nodes_le vs names : (on_nodes vs names ≤ length vs)%nat.
Proof. apply length_filter. Qed.
Lemma on_disk_le vs rep : (on_disk vs rep ≤ length vs)%nat.
Proof. apply length_filter. Qed.

Definition single (id : Z) (p : GNode * GDisk) : ConfigVDisk := push_replica (replica_of p) (ConfigVDisk_new id).

Lemma single_disk vs id p rep :
  on_disk (vs ++ [single id p]) rep = (on_disk vs rep + if decide (rep = replica_of p) then 1 else 0)%nat.
Proof.
  rw on_disk_app. f_equal. rw /single /=. apply decide_ext. by rw list_elem_of_singleton.
Qed.

Lemma single_nodes vs id c r r' p :
  named c → r ∈ racks c → r' ∈ racks c → p ∈ node_disks (gr_nodes r) →
  on_nodes (vs ++ [single id p]) (rack_names r') =
  (on_nodes vs (rack_names r') + if decide (gr_name r' = gr_name r) then 1 else 0)%nat.
Proof.
  intros Hc Hr Hr' [Hp _]%elem_node_disks. rw on_nodes_app. f_equal. apply decide_ext.
  assert (gn_name p.1 ∈ rack_names r) as Hin by by apply list_elem_of_fmap_2.
  rw /single /= Exists_cons Exists_nil /replica_of /=. split.
  - intros [Hn|[]]. f_equal. by eapply rack_of_name.
  - intros Hname. left. assert (r' = r) as ->; [|done]. by eapply (NoDup_fmap_inj gr_name (racks c)); [apply Hc|..].
Qed.

Lemma wrap_count n m : (n ≤ m)%nat → Z.of_nat m < 2 ^ 64 - 1 → wrap64 (Z.of_nat n + 1) = Z.of_nat (n + 1).
Proof. intros. rw /wrap64 Z.mod_small; lia. Qed.

Lemma replica_of_inj_name p p' : replica_of p = replica_of p' ↔ gn_name p.1 = gn_name p'.1 ∧ gd_name p.2 = gd_name p'.2.
Proof. rw /replica_of. split; [by intros [= -> ->]|]. by intros [-> ->]. Qed.

(** Counting a replica keeps the counter exact. *)
Lemma spread_counted vs id c r p k' :
  named c → spread vs c → Z.of_nat (length vs) < 2 ^ 64 - 1 → r ∈ racks c → p ∈ node_disks (gr_nodes r) →
  counted (gr_name r) (gn_name p.1) (gd_name p.2) (counter c) k' →
  let c' := {| racks := racks c; counter := k' |} in
  (∀ x, x ∈ racks c → rack_used c' x = Some (Z.of_nat (on_nodes (vs ++ [single id p]) (rack_names x)))) ∧
  (∀ x q, x ∈ racks c → q ∈ node_disks (gr_nodes x) →
     used k' q = Some (Z.of_nat (on_disk (vs ++ [single id p]) (replica_of q)))).
Proof.
  intros Hnm Hs Hlen Hr Hp [_ Hrack Hdisk] c'. split.
  - intros x Hx. rw /rack_used /rack_used_count /= (Hrack _ _ (sp_rack _ _ Hs x Hx)).
    rw (single_nodes vs id c r x p) //. case_decide.
    + f_equal. apply (wrap_count _ (length vs)); [apply on_nodes_le|done].
    + by rw Nat.add_0_r.
  - intros x q Hx Hq. rw /used (Hdisk _ _ _ (sp_disk _ _ Hs x q Hx Hq)) single_disk.
    destruct (decide (replica_of q = replica_of p)) as [Heq|Hne].
    + rw decide_True; [by apply replica_of_inj_name|]. f_equal. apply (wrap_count _ (length vs)); [apply on_disk_le|done].
    + rw decide_False; [by rw -replica_of_inj_name|]. by rw Nat.add_0_r.
Qed.

(** Adding to a least element keeps the difference. *)
Lemma least_count {A} (key : A → option Z) (count : A → nat) l a b :
  least key l a → (∀ x, x ∈ l → key x = Some (Z.of_nat (count x))) → b ∈ l → (count a ≤ count b)%nat.
Proof.
  intros [Ha (k & Hk & Hle)] Hc Hb. rw (Hc a Ha) in Hk. injection Hk as <-. specialize (Hle b _ Hb (Hc b Hb)). lia.
Qed.

Lemma spread_push vs id c r p k' :
  named c → spread vs c → Z.of_nat (length vs) < 2 ^ 64 - 1 →
  least (rack_used c) (racks c) r → least (used (counter c)) (node_disks (gr_nodes r)) p →
  counted (gr_name r) (gn_name p.1) (gd_name p.2) (counter c) k' →
  spread (vs ++ [single id p]) {| racks := racks c; counter := k' |}.
Proof.
  intros Hnm Hs Hlen Hr Hp Hk. pose proof (proj1 Hr) as Hrin. pose proof (proj1 Hp) as Hpin.
  destruct (spread_counted vs id c r p k' Hnm Hs Hlen Hrin Hpin Hk) as [H1 H2].
  constructor; [exact H1|exact H2|..]; simpl.
  - intros x y Hx Hy. rw !(single_nodes vs id c r _ p) //.
    pose proof (sp_racks _ _ Hs x y Hx Hy).
    pose proof (least_count _ (λ x, on_nodes vs (rack_names x)) _ _ y Hr (sp_rack _ _ Hs) Hy) as Hle.
    destruct (decide (gr_name x = gr_name r)) as [Hxr|]; [|case_decide; lia].
    assert (x = r) as -> by (eapply (NoDup_fmap_inj gr_name (racks c)); [apply Hnm|..]; done).
    simpl in Hle. case_decide; lia.
  - intros x q q' Hx Hq Hq'. rw !single_disk. pose proof (sp_disks _ _ Hs x q q' Hx Hq Hq').
    destruct (decide (replica_of q = replica_of p)) as [Heq|]; [|case_decide; lia].
    assert (x = r) as ->.
    { apply elem_node_disks in Hq as [Hq _], Hpin as [Hpin _]. apply replica_of_inj_name in Heq as [Heq _].
      eapply (rack_of_name c); [done|done|done|..]; [by apply list_elem_of_fmap_2|].
      rw Heq. by apply list_elem_of_fmap_2. }
    pose proof (least_count _ (λ q, on_disk vs (replica_of q)) _ _ q' Hp (λ x, sp_disk _ _ Hs r x Hrin) Hq') as Hle.
    simpl in Hle. rw Heq. case_decide; lia.
Qed.

Lemma free_nodes_nil nodes : free_nodes [] nodes = nodes.
Proof. rw /free_nodes. induction nodes as [|n l IH]; [done|]. rw filter_cons_True; [by apply not_elem_of_nil|]. by rw IH. Qed.

Lemma create_vdisk_spread vs id c :
  center_ok c → named c → enough_nodes 1 (racks c) → spread vs c → Z.of_nat (length vs) < 2 ^ 64 - 1 →
  wp (create_vdisk id 1) (λ res c', same_center c c' ∧ ∃ v, res = Ok v ∧ spread (vs ++ [v]) c') c.
Proof.
  intros Hc Hnm He Hs Hlen. rw /create_vdisk. wp_step. wp_step.
  destruct (next_rack_spec c Hc) as (r & Hrack & Hr). apply wpx_bind. eapply wpx_expect; [done|]. apply wpx_bind.
  destruct (Rack_next_disk_spec (counter c) [] r) as (res & Hres & Hp); [by apply Hc, Hr|].
  eapply wpx_expect; [done|]. destruct res as [p|e].
  2: { exfalso. by eapply (enough_no_empty 1 (racks c) r); [..|done]; [|lia|apply Hr]. }
  assert (least (used (counter c)) (node_disks (gr_nodes r)) p) as Hleast.
  { destruct Hp as [Hp|[_ Hp]]; [|done]. by rw free_nodes_nil in Hp. }
  apply wpx_bind. apply push_wp; [done|apply Hr|apply Hleast|]. intros k' Hk Hsame. apply wpx_ret. split; [done|].
  eexists. split; [done|]. by eapply spread_push.
Qed.

Lemma create_vdisks_spread fuel count vs c :
  center_ok c → named c → enough_nodes 1 (racks c) → spread vs c → Z.of_nat count < 2 ^ 64 - 1 →
  (length vs ≤ count)%nat → (count ≤ length vs + fuel)%nat →
  wp (create_vdisks fuel count 1 vs) (λ res c', racks c' = racks c ∧ ∃ vs', res = Ok vs' ∧ spread vs' c') c.
Proof.
  revert vs c. induction fuel as [|fuel IH]; intros vs c Hc Hnm He Hs Hb Hle Hf; simpl;
    destruct (Nat.ltb_spec (length vs) count); [lia| |..].
  1,3: apply wpx_ret; split; [done|]; by exists vs.
  apply wpx_bind. eapply wpx_mono; [apply (create_vdisk_spread vs); try done; lia|].
  intros res c' [[Hr Hc'] (v & -> & Hv)]. eapply wpx_mono; [apply (IH (vs ++ [v]) c')|]; try done.
  - by rw /named Hr.
  - by rw Hr.
  - rw length_app /=. lia.
  - rw length_app /=. lia.
  - intros res' c'' [Hr' Hres]. by rw Hr' Hr.
Qed.

(** ** The center of a configuration *)

Definition zero_counts (k : Counter) : Prop :=
  (∀ r x, racks_used_count k !! r = Some x → x = 0) ∧ (∀ n d x, disk_used_count k n d = Some x → x = 0).

Lemma add_disk_zero n d k : zero_counts k → zero_counts (add_disk n d k).
Proof.
  intros [Hr Hd]. split; [done|]. intros n' d' x.
  pose proof (set_disk_known k n d (default 0 (default ∅ (disks_used_count k !! n) !! d))) as [_ Heq].
  rw /add_disk Heq. case_decide; [|apply Hd]. intros [= <-]. specialize (Hd n d). rw /disk_used_count in Hd.
  destruct (disks_used_count k !! n) as [m|]; simpl in *; [|done]. destruct (m !! d); [by apply Hd|done].
Qed.

Lemma count_nodes_zero l k : zero_counts k → zero_counts (fold_left count_node l k).
Proof.
  revert k. induction l as [|n l IH]; intros k Hk; simpl; [done|]. apply IH. rw /count_node.
  assert (zero_counts (add_node (gn_name n) k)) as Hz by (destruct Hk; by split).
  revert Hz. generalize (add_node (gn_name n) k). clear. intros k Hk. revert k Hk.
  induction (gn_disks n) as [|d l IH]; intros k Hk; simpl; [done|]. by apply IH, add_disk_zero.
Qed.

Lemma push_all_zero l c : zero_counts (counter c) → zero_counts (counter (fold_left Center_push l c)).
Proof.
  revert c. induction l as [|r l IH]; intros c Hc; simpl; [done|]. apply IH. simpl. apply count_nodes_zero.
  destruct Hc as [Hr Hd]. split; [|done]. intros x y. rw /add_rack /=. 
  intros [[_ <-]|[_ ?]]%lookup_insert_Some; [done|by eapply Hr].
Qed.

Lemma from_config_zero `{!HashOrder} config use_racks c :
  from_cluster_config config use_racks = Ok c → zero_counts (counter c).
Proof.
  assert (zero_counts (counter Center_new)) as Hnew.
  { split; [done|]. by intros n d x. }
  rw /from_cluster_config. case_match.
  { intros [= <-]. by apply (push_all_zero [_] Center_new). }
  destruct (map_racks _ _ _) as [maps|]; simpl; [|done]. destruct (fill_racks _ _ _) as [rs|]; simpl; [|done].
  case_match; [by intros|]. intros [= <-]. by apply push_all_zero.
Qed.

Lemma spread_zero c : center_ok c → zero_counts (counter c) → spread [] c.
Proof.
  intros [Hc _] [Hr Hd]. constructor; [| |intros; apply Nat.le_0_l|intros; apply Nat.le_0_l].
  - intros r Hin. destruct (Hc r Hin) as [[x Hx] _]. rw /rack_used /rack_used_count Hx. by rw (Hr _ _ Hx).
  - intros r p Hin [Hn Hp]%elem_node_disks. destruct (Hc r Hin) as [_ Hns]. destruct (Hns p.1 Hn) as [_ Hds].
    destruct (Hds p.2 Hp) as [x Hx]. rw /used Hx. by rw (Hd _ _ _ Hx).
Qed.

Lemma center_named `{UriParser} n config use_racks c :
  hardware_ok config use_racks → center_for n config use_racks c → named c.
Proof. intros Hhw Hc. apply Center_validate_Ok. by eapply center_names_ok. Qed.

Lemma groups_distinct `{UriParser} config use_racks g g' :
  hardware_ok config use_racks → g ∈ rack_groups config use_racks → g' ∈ rack_groups config use_racks →
  g.1 = g'.1 → g = g'.
Proof.
  intros Hhw. rw /rack_groups. case_match.
  - by intros ->%list_elem_of_singleton ->%list_elem_of_singleton.
  - intros (r & -> & Hr)%list_elem_of_fmap (r' & -> & Hr')%list_elem_of_fmap Hname. simpl in Hname.
    assert (r = r') as ->; [|done]. eapply (NoDup_fmap_inj rack_name); [apply (hw_rack_names _ _ Hhw)|done..].
Qed.

Lemma node_rack_name node r : center_node node ∈ gr_nodes r → cn_name node ∈ rack_names r.
Proof. intros Hin. apply list_elem_of_fmap. by exists (center_node node). Qed.

(** The racks of the center have exactly the nodes of their groups. *)
Lemma group_rack `{UriParser} n config use_racks c g :
  hardware_ok config use_racks → center_for n config use_racks c → g ∈ rack_groups config use_racks →
  ∃ r, r ∈ racks c ∧ (∀ x, x ∈ rack_names r ↔ x ∈ g.2) ∧
    ∀ node, node ∈ cl_nodes config → cn_name node ∈ g.2 → center_node node ∈ gr_nodes r.
Proof.
  intros Hhw Hc Hg. destruct (cf_groups _ _ _ _ Hc g Hg) as (r & Hr & Hname & Hin). exists r.
  split; [done|]. split; [|done]. intros x. split.
  - intros (gn & -> & Hgn)%list_elem_of_fmap.
    assert (gn ∈ center_node <$> cl_nodes config) as (node & -> & Hnode)%list_elem_of_fmap.
    { rw -(cf_nodes _ _ _ _ Hc). apply list_elem_of_bind. by exists r. }
    assert (∃ g', g' ∈ rack_groups config use_racks ∧ cn_name node ∈ g'.2) as (g' & Hg' & Hx).
    { rw /rack_groups. destruct (negb use_racks || bool_decide (cl_racks config = [])) eqn:Hcase.
      - eexists. split; [by apply list_elem_of_singleton|]. by apply list_elem_of_fmap_2.
      - apply orb_false_iff in Hcase as [Hu%negb_false_iff Hne%bool_decide_eq_false].
        pose proof (hw_all_racked _ _ Hhw Hu Hne node Hnode) as (rack & Hx & Hrack)%list_elem_of_bind.
        exists (rack_name rack, rack_nodes rack). split; [|done]. apply list_elem_of_fmap. by exists rack. }
    destruct (cf_groups _ _ _ _ Hc g' Hg') as (r' & Hr' & Hname' & Hin').
    assert (r = r') as <-.
    { eapply (rack_of_name c r r' (cn_name node)); [by eapply center_named|done|done|..].
      - by apply node_rack_name.
      - by apply node_rack_name, Hin'. }
    assert (g = g') as ->; [|done]. eapply groups_distinct; [done|done|done|congruence].
  - intros Hx. assert (x ∈ cn_name <$> cl_nodes config) as (node & -> & Hnode)%list_elem_of_fmap.
    { rw /rack_groups in Hg. case_match; [by apply list_elem_of_singleton in Hg as ->|].
      apply list_elem_of_fmap in Hg as (rack & -> & Hrack). apply (hw_racked _ _ Hhw), list_elem_of_bind. by exists rack. }
    by apply node_rack_name, Hin.
Qed.

(** ** Theorem *)

Section balanced.
Context `{UriParser, !HashOrder}.

Lemma on_nodes_ext vs l l' : (∀ x, x ∈ l ↔ x ∈ l') → on_nodes vs l = on_nodes vs l'.
Proof.
  intros Hl. rw /on_nodes. f_equal. apply list_filter_iff. intros v. rw !Exists_exists. by setoid_rewrite Hl.
Qed.

(** C15: With one replica per virtual disk the generated configuration is balanced: any two
    racks (or the cluster, when racks are not used) hold numbers of virtual disks that
    differ by at most one, and so do any two disks of the nodes of one rack. *)
Theorem simple_gen_balanced config total per_disk count use_racks :
  hardware_ok config use_racks → hardware_for 1 config use_racks →
  planned_count config 1 total per_disk = Some count → Z.of_nat count ≤ 2 ^ 32 →
  ∃ vs, simple_gen config 1 total per_disk use_racks = Some (Ok (vdisks_extend vs config)) ∧
    (∀ g g', g ∈ rack_groups config use_racks → g' ∈ rack_groups config use_racks →
       (on_nodes vs g.2 ≤ S (on_nodes vs g'.2))%nat) ∧
    (∀ g node node' disk disk', g ∈ rack_groups config use_racks →
       node ∈ cl_nodes config → cn_name node ∈ g.2 → disk ∈ cn_disks node →
       node' ∈ cl_nodes config → cn_name node' ∈ g.2 → disk' ∈ cn_disks node' →
       (on_disk vs {| rep_node := cn_name node; rep_disk := dp_name disk |} ≤
        S (on_disk vs {| rep_node := cn_name node'; rep_disk := dp_name disk' |}))%nat).
Proof.
  intros Hhw Hn Hcount H32. pose proof (hardware_disks _ _ _ Hn ltac:(lia)) as Hd.
  destruct (center_of_config 1 config use_racks Hhw Hn Hd) as (c & Hfrom & Hc).
  rw /simple_gen Hfrom /= (center_names_ok _ _ _ _ Hhw Hc) /= (new_count_planned _ _ _ _ _ _ Hc) Hcount /=.
  pose proof (spread_zero c (cf_ok _ _ _ _ Hc) (from_config_zero _ _ _ Hfrom)) as Hzero.
  destruct (wp_total _ _ _ (create_vdisks_spread count count [] c (cf_ok _ _ _ _ Hc) (center_named _ _ _ _ Hhw Hc)
    (cf_enough _ _ _ _ Hc) Hzero ltac:(lia) ltac:(simpl; lia) ltac:(simpl; lia)))
    as (res & c' & -> & Hr & vs & -> & Hs). exists vs. split; [done|]. split.
  - intros g g' Hg Hg'. destruct (group_rack _ _ _ _ _ Hhw Hc Hg) as (r & Hrin & Hx & _).
    destruct (group_rack _ _ _ _ _ Hhw Hc Hg') as (r' & Hrin' & Hx' & _).
    rw -(on_nodes_ext vs _ _ Hx) -(on_nodes_ext vs _ _ Hx'). apply (sp_racks _ _ Hs); by rw Hr.
  - intros g node node' disk disk' Hg Hnode Hname Hdisk Hnode' Hname' Hdisk'.
    destruct (group_rack _ _ _ _ _ Hhw Hc Hg) as (r & Hrin & _ & Hin).
    assert (∀ m d, m ∈ cl_nodes config → cn_name m ∈ g.2 → d ∈ cn_disks m →
      (center_node m, {| gd_name := dp_name d; gd_is_old := true |}) ∈ node_disks (gr_nodes r)) as Hall.
    { intros m d Hm Hmn Hdm. apply elem_node_disks. split; [by apply Hin|]. apply list_elem_of_fmap. by exists d. }
    rw -Hr in Hrin. exact (sp_disks _ _ Hs r _ _ Hrin (Hall _ _ Hnode Hname Hdisk) (Hall _ _ Hnode' Hname' Hdisk')).
Qed.
End balanced.

#[local] Existing Instance uri_example.
#[local] Existing Instance order_kept.

Lemma simple_gen_balanced_witness :
  hardware_ok hw_racks true ∧ hardware_for 1 hw_racks true ∧
  ∃ vs, simple_gen hw_racks 1 (Some 7%nat) None true = Some (Ok (vdisks_extend vs hw_racks)) ∧
    (on_nodes vs ["n1"; "n2"] ≤ S (on_nodes vs ["n3"; "n4"]))%nat.
Proof.
  pose proof (hw_racks_ok true) as Hhw.
  assert (hardware_for 1 hw_racks true) as Hn.
  { intros rack. rw !elem_of_cons. intros [->|[->|?%elem_of_nil]]; [vm_compute; lia..|done]. }
  split; [exact Hhw|]. split; [exact Hn|].
  destruct (simple_gen_balanced hw_racks (Some 7%nat) None 7 true Hhw Hn eq_refl ltac:(lia)) as (vs & Hrun & Hb & _).
  exists vs. split; [exact Hrun|].
  assert (("r1", ["n1"; "n2"]) ∈ rack_groups hw_racks true ∧ ("r2", ["n3"; "n4"]) ∈ rack_groups hw_racks true) as [H1 H2].
  { split; apply (bool_decide_unpack _); vm_compute; exact I. }
  exact (Hb _ _ H1 H2).
Defined.
