(* ===== verification/Float.v ===== *)
(** * Float: the type [f64]

    Numbers of the metrics pass through [f64].  It is the binary64 of the Standard Library's
    specification of floating point: conversions from and to [u64] ([as]), arithmetic,
    [str::parse::<f64>], and the bounds of the integers that survive. *)

From Corelib Require Import ssreflect.
From stdpp Require Import base option list strings numbers.
From Stdlib Require Import Floats.SpecFloat Strings.Ascii ZArith Lia.
From S2P Require Import Prelude Data Text.

Definition f64 : Type := spec_float.

Definition f64_prec : Z := 53.
Definition f64_emax : Z := 1024.

(** [z as f64] for an integer *)
Definition f64_of_Z (z : Z) : f64 := binary_normalize f64_prec f64_emax z 0 false.

(** [x as u64]: toward zero, saturating; NaN is 0. *)
Definition f64_to_u64 (x : f64) : Z :=
  match x with
  | S754_nan | S754_zero _ => 0
  | S754_infinity s => if s then 0 else u64_max
  | S754_finite true _ _ => 0
  | S754_finite false m e => Z.min u64_max (Z.shiftl (Zpos m) e)
  end.

Definition f64_add : f64 → f64 → f64 := SFadd f64_prec f64_emax.
Definition f64_mul : f64 → f64 → f64 := SFmul f64_prec f64_emax.
Definition f64_div : f64 → f64 → f64 := SFdiv f64_prec f64_emax.

(** [Duration::as_secs_f64] of a duration in nanoseconds *)
Definition as_secs_f64 (nanos : Z) : f64 :=
  f64_add (f64_of_Z (nanos / 1000000000)) (f64_div (f64_of_Z (nanos mod 1000000000)) (f64_of_Z 1000000000)).

(** ** [str::parse::<f64>] *)

(** The digits at the front: their value after [acc], how many there are, and the rest. *)
Fixpoint take_digits (acc : Z) (n : nat) (s : string) : Z * nat * string :=
  match s with
  | String c s' => match to_digit10 c with Some d => take_digits (10 * acc + d) (S n) s' | None => (acc, n, s) end
  | EmptyString => (acc, n, s)
  end.

Definition take_sign (s : string) : bool * string :=
  match s with
  | String c s' => if bool_decide (c = "-"%char) then (true, s') else if bool_decide (c = "+"%char) then (false, s') else (false, s)
  | EmptyString => (false, s)
  end.

(** [mantissa] times ten to the [exponent], rounded to the nearest *)
Definition f64_of_decimal (negative : bool) (mantissa exponent : Z) : f64 :=
  match mantissa with
  | Zpos m =>
      if 0 <=? exponent then
        match mantissa * 10 ^ exponent with
        | Zpos p => binary_round f64_prec f64_emax negative p 0
        | _ => S754_zero negative
        end
      else
        let '(q, e, l) := SFdiv_core_binary f64_prec f64_emax (Zpos m) 0 (10 ^ (- exponent)) 0 in
        binary_round_aux f64_prec f64_emax negative q e l
  | _ => S754_zero negative
  end.

Definition ascii_lower (c : ascii) : ascii :=
  let b := byte_of_char c in if (65 <=? b) && (b <=? 90) then ascii_of_N (Z.to_N (b + 32)) else c.
Fixpoint str_lower (s : string) : string :=
  match s with EmptyString => EmptyString | String c s' => String (ascii_lower c) (str_lower s') end.

(** The exponent, after the mantissa *)
Definition parse_exponent (s : string) : option Z :=
  match s with
  | EmptyString => Some 0
  | String c s' =>
      if bool_decide (ascii_lower c = "e"%char) then
        let '(negative, digits) := take_sign s' in
        match take_digits 0 0 digits with
        | (e, S _, EmptyString) => Some (if negative then - e else e)
        | _ => None
        end
      else None
  end.

Definition parse_f64 (s : string) : option f64 :=
  let '(negative, s) := take_sign s in
  if bool_decide (str_lower s = "inf") || bool_decide (str_lower s = "infinity") then Some (S754_infinity negative)
  else if bool_decide (str_lower s = "nan") then Some S754_nan
  else
    let '(int, ni, rest) := take_digits 0 0 s in
    let '(mantissa, nf, rest) :=
      match rest with
      | String c rest' => if bool_decide (c = "."%char) then take_digits int 0 rest' else (int, O, rest)
      | EmptyString => (int, O, rest)
      end in
    match (ni + nf)%nat with
    | O => None
    | S _ => e ← parse_exponent rest; Some (f64_of_decimal negative mantissa (e - Z.of_nat nf))
    end.

Example parse_f64_forms :
  parse_f64 "12" = Some (f64_of_Z 12) ∧ parse_f64 "-1.5e1" = Some (SFopp (f64_of_Z 15)) ∧
  parse_f64 "+.5" = Some (f64_div (f64_of_Z 1) (f64_of_Z 2)) ∧ parse_f64 "Inf" = Some (S754_infinity false) ∧
  parse_f64 "." = None ∧ parse_f64 "1e" = None ∧ parse_f64 "0.1" = Some (f64_div (f64_of_Z 1) (f64_of_Z 10)).
Proof. repeat split. Qed.

(** ** Integers up to 2^53 survive *)

Lemma digits2_bounds p : 2 ^ (Zpos (digits2_pos p) - 1) ≤ Zpos p < 2 ^ Zpos (digits2_pos p).
Proof.
  induction p as [p IH|p IH|]; cbn [digits2_pos]; [| |by vm_compute].
  - rw !Pos2Z.inj_succ Z.pow_succ_r; [lia|]. replace (Z.succ (Zpos (digits2_pos p)) - 1) with (Z.succ (Zpos (digits2_pos p) - 1)) by lia.
    rw Z.pow_succ_r; [lia|]. lia.
  - rw !Pos2Z.inj_succ Z.pow_succ_r; [lia|]. replace (Z.succ (Zpos (digits2_pos p)) - 1) with (Z.succ (Zpos (digits2_pos p) - 1)) by lia.
    rw Z.pow_succ_r; [lia|]. lia.
Qed.

(** The number of digits is the only bound of this form. *)
Lemma digits2_unique p d : 0 < d → 2 ^ (d - 1) ≤ Zpos p < 2 ^ d → Zpos (digits2_pos p) = d.
Proof.
  intros Hd [Hl Hu]. destruct (digits2_bounds p) as [Hl' Hu'].
  assert (d - 1 < Zpos (digits2_pos p)) as H1 by (apply (Z.pow_lt_mono_r_iff 2); lia).
  assert (Zpos (digits2_pos p) - 1 < d) as H2 by (apply (Z.pow_lt_mono_r_iff 2); lia). lia.
Qed.

Lemma iter_xO p n : Zpos (Pos.iter xO p n) = Zpos p * 2 ^ Zpos n.
Proof.
  induction n as [|n IH] using Pos.peano_ind; [simpl; lia|].
  rw Pos.iter_succ Pos2Z.inj_succ Z.pow_succ_r; [lia|]. lia.
Qed.

(** A mantissa of exactly 53 digits is kept. *)
Lemma round_canonical p e :
  Zpos (digits2_pos p) = f64_prec → -1074 ≤ e ≤ 971 →
  binary_round_aux f64_prec f64_emax false (Zpos p) e loc_Exact = S754_finite false p e.
Proof.
  intros Hd He. rw /binary_round_aux /shr_fexp /= Hd /fexp /emin /f64_prec /f64_emax.
  replace (Z.max (53 + e - 53) (3 - 1024 - 53) - e) with 0 by lia. simpl. rw Hd /f64_prec.
  replace (Z.max (53 + e - 53) (3 - 1024 - 53) - e) with 0 by lia. simpl.
  case_match; [done|lia].
Qed.

Lemma f64_of_Z_small p :
  Zpos p < 2 ^ 53 →
  ∃ m e, f64_of_Z (Zpos p) = S754_finite false m e ∧ Z.shiftl (Zpos m) e = Zpos p ∧ e ≤ 0.
Proof.
  intros Hp. pose proof (digits2_bounds p) as [Hl Hu]. set (d := Zpos (digits2_pos p)) in *.
  assert (1 ≤ d ≤ 53) as Hd.
  { split; [lia|]. assert (d - 1 < 53); [|lia]. apply (Z.pow_lt_mono_r_iff 2); lia. }
  rw /f64_of_Z /binary_normalize /binary_round -/d Z.add_0_r.
  assert (fexp f64_prec f64_emax d = d - 53) as -> by (rw /fexp /emin /f64_prec /f64_emax; lia).
  rw /shl_align Z.sub_0_r. destruct (d - 53) as [|n|n] eqn:Hn; [|lia|].
  - exists p, 0. rw round_canonical; [rw -/d /f64_prec; lia|lia|]. by rw Z.shiftl_0_r.
  - exists (Pos.iter xO p n), (Zneg n). rw round_canonical.
    + apply digits2_unique; [done|]. rw iter_xO /f64_prec.
      replace (53 - 1) with ((d - 1) + Zpos n) by lia. replace 53 with (d + Zpos n) by lia.
      rw (Z.pow_add_r 2 (d - 1)); [lia|lia|]. rw (Z.pow_add_r 2 d); [lia|lia|]. clearbody d. nia.
    + lia.
    + split; [done|]. rw Z.shiftl_div_pow2; [lia|]. rw iter_xO Z.div_mul; [lia|done].
Qed.

(** An integer below 2^53 survives the way through [f64]. *)
Theorem f64_exact z : 0 ≤ z < 2 ^ 53 → f64_to_u64 (f64_of_Z z) = z.
Proof.
  intros Hz. destruct z as [|p|p]; [done| |lia].
  destruct (f64_of_Z_small p) as (m & e & -> & Hs & _); [lia|]. rw /f64_to_u64 Hs /u64_max. lia.
Qed.

Lemma f64_to_u64_range x : u64 (f64_to_u64 x).
Proof.
  rw /u64. destruct x as [s|s| |[] m e]; rw /f64_to_u64 /u64_max; try case_match; try lia.
  pose proof (Z.shiftl_nonneg (Zpos m) e). lia.
Qed.
