(* ===== verification/Metrics.v ===== *)
(** * Metrics: how a node counts

    [bob-common/src/metrics/collector], [exporters/global_exporter] and
    [bob-common/src/interval_logger.rs]: the recorder every task calls, the bounded channel
    to the accumulator, its snapshots, and the processor of rates.  The crate of Prometheus
    is the class [PrometheusCrate].  The channels are queues of bounded length; clocks stand
    still within a step and move between steps. *)

From Corelib Require Import ssreflect.
From stdpp Require Import base option list relations strings gmap numbers.
From Stdlib Require Import Strings.Ascii ZArith Lia.
From S2P Require Import Prelude Data Text Float.

(** ** Snapshots *)

Record CounterEntry : Type := { ce_sum : Z; ce_timestamp : Z }.
Record GaugeEntry : Type := { ge_value : Z; ge_timestamp : Z }.
Record TimeEntry : Type := { te_summary_time : Z; te_measurements_amount : Z; te_timestamp : Z; te_mean : option Z }.

Definition CounterEntry_new (timestamp : Z) : CounterEntry := {| ce_sum := 0; ce_timestamp := timestamp |}.
Definition GaugeEntry_new (value timestamp : Z) : GaugeEntry := {| ge_value := value; ge_timestamp := timestamp |}.
Definition TimeEntry_new (timestamp : Z) : TimeEntry :=
  {| te_summary_time := 0; te_measurements_amount := 1; te_timestamp := timestamp; te_mean := None |}.

Record MetricInner : Type := { mi_key : string; mi_value : Z; mi_timestamp : Z }.
Inductive Metric : Type :=
| Metric_Gauge (m : MetricInner)
| Metric_Counter (m : MetricInner)
| Metric_Time (m : MetricInner).

Definition MetricInner_with_timestamp (timestamp : Z) (m : MetricInner) : MetricInner :=
  {| mi_key := mi_key m; mi_value := mi_value m; mi_timestamp := timestamp |}.
Definition Metric_map (f : MetricInner → MetricInner) (m : Metric) : Metric :=
  match m with
  | Metric_Gauge m => Metric_Gauge (f m)
  | Metric_Counter m => Metric_Counter (f m)
  | Metric_Time m => Metric_Time (f m)
  end.
Definition with_timestamp (timestamp : Z) : Metric → Metric := Metric_map (MetricInner_with_timestamp timestamp).

Record MetricsSnapshot : Type := {
  counters_map : gmap string CounterEntry;
  gauges_map : gmap string GaugeEntry;
  times_map : gmap string TimeEntry;
}.
Definition MetricsSnapshot_default : MetricsSnapshot := {| counters_map := ∅; gauges_map := ∅; times_map := ∅ |}.

Definition process_counter (m : MetricInner) (s : MetricsSnapshot) : MetricsSnapshot :=
  let entry := default (CounterEntry_new (mi_timestamp m)) (counters_map s !! mi_key m) in
  {| counters_map := <[mi_key m := {| ce_sum := wrap64 (ce_sum entry + mi_value m); ce_timestamp := mi_timestamp m |}]> (counters_map s);
     gauges_map := gauges_map s; times_map := times_map s |}.

Definition process_gauge (m : MetricInner) (s : MetricsSnapshot) : MetricsSnapshot :=
  {| counters_map := counters_map s;
     gauges_map := <[mi_key m := GaugeEntry_new (mi_value m) (mi_timestamp m)]> (gauges_map s);
     times_map := times_map s |}.

Definition process_time (m : MetricInner) (s : MetricsSnapshot) : MetricsSnapshot :=
  let entry := default (TimeEntry_new (mi_timestamp m)) (times_map s !! mi_key m) in
  {| counters_map := counters_map s; gauges_map := gauges_map s;
     times_map := <[mi_key m := {| te_summary_time := wrap64 (te_summary_time entry + mi_value m);
                                   te_measurements_amount := wrap64 (te_measurements_amount entry + 1);
                                   te_timestamp := mi_timestamp m; te_mean := te_mean entry |}]> (times_map s) |}.

Definition moment_entry (entry : TimeEntry) : TimeEntry := {|
  te_mean := if te_measurements_amount entry =? 0 then None else Some (te_summary_time entry / te_measurements_amount entry);
  te_measurements_amount := 0; te_summary_time := 0; te_timestamp := te_timestamp entry;
|}.
(** The new snapshot, which is also what is returned. *)
Definition update_and_get_moment_snapshot (s : MetricsSnapshot) : MetricsSnapshot :=
  {| counters_map := counters_map s; gauges_map := gauges_map s; times_map := moment_entry <$> times_map s |}.

(** ** The interval logger *)

Section interval_logger.
Context {E : Type} `{Countable E, !HashOrder}.

(** Instants and intervals in milliseconds; the level of the log is left out. *)
Record IntervalLogger : Type := {
  il_errors : gmap E Z;
  il_interval : Z;
  il_last_timestamp : Z;
}.

Definition IntervalLogger_new (now interval_ms : Z) : IntervalLogger :=
  {| il_errors := ∅; il_interval := interval_ms; il_last_timestamp := now - interval_ms - 1 |}.

(** The logger afterwards, and the lines logged. *)
Definition report_error (now : Z) (action : E) (l : IntervalLogger) : IntervalLogger * list (E * Z) :=
  let errors := match il_errors l !! action with
                | Some count => <[action := wrap64 (count + 1)]> (il_errors l)
                | None => <[action := 1]> (il_errors l)
                end in
  if il_interval l <? now - il_last_timestamp l then
    ({| il_errors := (λ count, if 0 <? count then 0 else count) <$> errors; il_interval := il_interval l; il_last_timestamp := now |},
     filter (λ e, 0 < e.2) (hash_order (map_to_list errors)))
  else ({| il_errors := errors; il_interval := il_interval l; il_last_timestamp := il_last_timestamp l |}, []).
End interval_logger.
Arguments IntervalLogger E {_ _}.

(** ** Channels *)

Record Channel (A : Type) : Type := { ch_queue : list A; ch_capacity : Z; ch_closed : bool }.
Arguments ch_queue {A}. Arguments ch_capacity {A}. Arguments ch_closed {A}.

Inductive TrySendError : Type := TrySend_Full | TrySend_Closed.

Definition channel {A} (capacity : Z) : Channel A := {| ch_queue := []; ch_capacity := capacity; ch_closed := false |}.
Definition try_send {A} (a : A) (c : Channel A) : result (Channel A) TrySendError :=
  if ch_closed c then Err TrySend_Closed
  else if Z.of_nat (length (ch_queue c)) <? ch_capacity c
  then Ok {| ch_queue := ch_queue c ++ [a]; ch_capacity := ch_capacity c; ch_closed := false |}
  else Err TrySend_Full.

(** ** The accumulator *)

Record MetricsAccumulator : Type := { ac_snapshot : MetricsSnapshot; ac_readable_snapshot : MetricsSnapshot }.
Definition MetricsAccumulator_new : MetricsAccumulator :=
  {| ac_snapshot := MetricsSnapshot_default; ac_readable_snapshot := MetricsSnapshot_default |}.

Definition MAX_METRICS_PER_PERIOD : Z := 100000.

Definition process_metric (m : Metric) (s : MetricsSnapshot) : MetricsSnapshot :=
  match m with
  | Metric_Counter counter => process_counter counter s
  | Metric_Gauge gauge => process_gauge gauge s
  | Metric_Time time => process_time time s
  end.

(** What [recv] gave, at the timestamp of the turn: the snapshot, and whether the turn is full.
    [None]: the senders are dropped, and the task returns. *)
Definition receive_one (timestamp metrics_received : Z) (om : option Metric) (s : MetricsSnapshot)
    : option (MetricsSnapshot * bool) :=
  m ← with_timestamp timestamp <$> om;
  Some (process_metric m s, metrics_received + 1 =? MAX_METRICS_PER_PERIOD).

(** The [while let] of a turn.  [received] has what each [recv] gives before its timeout; at
    its end the next [recv] times out.  The second half of the answer is what stays in the
    channel. *)
Fixpoint receive_loop (timestamp metrics_received : Z) (received : list (option Metric)) (s : MetricsSnapshot)
    : option (MetricsSnapshot * list (option Metric)) :=
  match received with
  | [] => Some (s, [])
  | om :: rest =>
      '(s, full) ← receive_one timestamp metrics_received om s;
      if (full : bool) then Some (s, rest) else receive_loop timestamp (metrics_received + 1) rest s
  end.

Definition publish (a : MetricsAccumulator) : MetricsAccumulator :=
  let s := update_and_get_moment_snapshot (ac_snapshot a) in {| ac_snapshot := s; ac_readable_snapshot := s |}.

(** One turn of [run]. *)
Definition accumulator_turn (timestamp : Z) (received : list (option Metric)) (a : MetricsAccumulator)
    : option (MetricsAccumulator * list (option Metric)) :=
  '(s, rest) ← receive_loop timestamp 0 received (ac_snapshot a);
  Some (publish {| ac_snapshot := s; ac_readable_snapshot := ac_readable_snapshot a |}, rest).

(** ** Rates *)

(** Instants in nanoseconds. *)
Record RateMessage : Type := { counter_name : string; counter_inc_value : Z; rm_timestamp : Z }.

Definition RATE_INTERVAL_SECS : Z := 5.

Definition rate_process_counter (k : string) (v : Z) (counters_map : gmap string Z) : gmap string Z :=
  <[k := wrap64 (default 0 (counters_map !! k) + v)]> counters_map.

(** The gauges [commit_rates] sets, and the map afterwards. *)
Definition commit_rates `{!HashOrder} (counters_map : gmap string Z) : list (string * f64) * gmap string Z :=
  ((λ kv, (kv.1 +:+ "_rate", f64_of_Z (kv.2 / RATE_INTERVAL_SECS))) <$> hash_order (map_to_list counters_map),
   (λ _, 0) <$> counters_map).

(** The state of the task: the counters, and the base once the first message came. *)
Record RateTask : Type := { rt_counters_map : gmap string Z; rt_base_ts : option Z }.
Definition RateTask_new : RateTask := {| rt_counters_map := ∅; rt_base_ts := None |}.

(** One message. *)
Definition rate_processor_receive `{!HashOrder} (msg : RateMessage) (t : RateTask) : list (string * f64) * RateTask :=
  let k := counter_name msg in let v := counter_inc_value msg in let ts := rm_timestamp msg in
  match rt_base_ts t with
  | None => ([], {| rt_counters_map := rate_process_counter k v (rt_counters_map t); rt_base_ts := Some ts |})
  | Some base_ts =>
      if (base_ts <? ts) && (RATE_INTERVAL_SECS * 1000000000 <? ts - base_ts) then
        let '(gauges, counters_map) := commit_rates (rt_counters_map t) in
        (gauges, {| rt_counters_map := rate_process_counter k v counters_map; rt_base_ts := Some ts |})
      else ([], {| rt_counters_map := rate_process_counter k v (rt_counters_map t); rt_base_ts := Some base_ts |})
  end.

(** [rate_processor_task] over the messages it receives, with the gauges it sets. *)
Fixpoint rate_processor_task `{!HashOrder} (msgs : list RateMessage) (t : RateTask) : list (string * f64) * RateTask :=
  match msgs with
  | [] => ([], t)
  | msg :: msgs =>
      let '(gauges, t) := rate_processor_receive msg t in
      let '(gauges', t) := rate_processor_task msgs t in (gauges ++ gauges', t)
  end.

(** ** Recorders *)

(** The trait of the crate [metrics]; units and descriptions are left out. *)
Inductive GaugeValue : Type := GV_Absolute (v : f64) | GV_Increment (v : f64) | GV_Decrement (v : f64).

Record Recorder (W : Type) : Type := {
  rec_register_gauge : string → M W unit;
  rec_register_counter : string → M W unit;
  rec_register_histogram : string → M W unit;
  rec_increment_counter : string → Z → M W unit;
  rec_update_gauge : string → GaugeValue → M W unit;
  rec_record_histogram : string → f64 → M W unit;
}.
Arguments rec_register_gauge {W}. Arguments rec_register_counter {W}. Arguments rec_register_histogram {W}.
Arguments rec_increment_counter {W}. Arguments rec_update_gauge {W}. Arguments rec_record_histogram {W}.

(** A call of a recorder, as data. *)
Inductive RecorderCall : Type :=
| RegisterGauge (key : string)
| RegisterCounter (key : string)
| RegisterHistogram (key : string)
| IncrementCounter (key : string) (value : Z)
| UpdateGauge (key : string) (value : GaugeValue)
| RecordHistogram (key : string) (value : f64).

Definition run_call {W} (r : Recorder W) (c : RecorderCall) : M W unit :=
  match c with
  | RegisterGauge key => rec_register_gauge r key
  | RegisterCounter key => rec_register_counter r key
  | RegisterHistogram key => rec_register_histogram r key
  | IncrementCounter key value => rec_increment_counter r key value
  | UpdateGauge key value => rec_update_gauge r key value
  | RecordHistogram key value => rec_record_histogram r key value
  end.

(** The recorder of the crate [metrics_exporter_prometheus]: its state and what a call does to it. *)
Class PrometheusCrate := { Prometheus : Type; prometheus_call : RecorderCall → Prometheus → Prometheus }.

Inductive PushMetricError : Type := PME_Closed | PME_NoCapacity.
#[global] Instance push_metric_error_eq : EqDecision PushMetricError.
Proof. solve_decision. Defined.
#[global] Program Instance push_metric_error_countable : Countable PushMetricError :=
  inj_countable' (λ e, match e with PME_Closed => true | PME_NoCapacity => false end) (λ b, if b then PME_Closed else PME_NoCapacity) _.
Next Obligation. by intros []. Qed.

Definition PushMetricError_display (e : PushMetricError) : string :=
  match e with
  | PME_Closed => "Can't send metric to thread, channel is closed"
  | PME_NoCapacity => "Can't send metric to thread, channel is full"
  end.

Section recorders.
Context `{!HashOrder, PrometheusCrate}.

(** Where the task of the accumulator is: at the tick of its interval, in the [while let] of a
    turn with the timestamp of the turn and the metrics it received so far, or at its end. *)
Inductive AccumulatorTurn : Type := Between | Receiving (timestamp metrics_received : Z) | Returned.

(** What the recorders and their two tasks share. *)
Record MetricsWorld : Type := {
  mw_tx : Channel Metric;
  mw_error_logger : IntervalLogger PushMetricError;
  mw_log : list string;
  mw_rates : Channel RateMessage;
  mw_is_active : bool;
  mw_accumulator : MetricsAccumulator;
  mw_turn : AccumulatorTurn;
  mw_rate_task : RateTask;
  mw_prometheus : Prometheus;
  mw_now : Z;
}.

Definition set_tx (c : Channel Metric) (w : MetricsWorld) : MetricsWorld :=
  {| mw_tx := c; mw_error_logger := mw_error_logger w; mw_log := mw_log w; mw_rates := mw_rates w; mw_is_active := mw_is_active w;
     mw_accumulator := mw_accumulator w; mw_turn := mw_turn w; mw_rate_task := mw_rate_task w; mw_prometheus := mw_prometheus w; mw_now := mw_now w |}.
Definition set_errors (l : IntervalLogger PushMetricError) (lines : list string) (w : MetricsWorld) : MetricsWorld :=
  {| mw_tx := mw_tx w; mw_error_logger := l; mw_log := mw_log w ++ lines; mw_rates := mw_rates w; mw_is_active := mw_is_active w;
     mw_accumulator := mw_accumulator w; mw_turn := mw_turn w; mw_rate_task := mw_rate_task w; mw_prometheus := mw_prometheus w; mw_now := mw_now w |}.
Definition set_rates (c : Channel RateMessage) (active : bool) (w : MetricsWorld) : MetricsWorld :=
  {| mw_tx := mw_tx w; mw_error_logger := mw_error_logger w; mw_log := mw_log w; mw_rates := c; mw_is_active := active;
     mw_accumulator := mw_accumulator w; mw_turn := mw_turn w; mw_rate_task := mw_rate_task w; mw_prometheus := mw_prometheus w; mw_now := mw_now w |}.
Definition set_accumulator (a : MetricsAccumulator) (turn : AccumulatorTurn) (w : MetricsWorld) : MetricsWorld :=
  {| mw_tx := mw_tx w; mw_error_logger := mw_error_logger w; mw_log := mw_log w; mw_rates := mw_rates w; mw_is_active := mw_is_active w;
     mw_accumulator := a; mw_turn := turn; mw_rate_task := mw_rate_task w; mw_prometheus := mw_prometheus w; mw_now := mw_now w |}.
Definition set_rate_task (t : RateTask) (w : MetricsWorld) : MetricsWorld :=
  {| mw_tx := mw_tx w; mw_error_logger := mw_error_logger w; mw_log := mw_log w; mw_rates := mw_rates w; mw_is_active := mw_is_active w;
     mw_accumulator := mw_accumulator w; mw_turn := mw_turn w; mw_rate_task := t; mw_prometheus := mw_prometheus w; mw_now := mw_now w |}.
Definition set_prometheus (p : Prometheus) (w : MetricsWorld) : MetricsWorld :=
  {| mw_tx := mw_tx w; mw_error_logger := mw_error_logger w; mw_log := mw_log w; mw_rates := mw_rates w; mw_is_active := mw_is_active w;
     mw_accumulator := mw_accumulator w; mw_turn := mw_turn w; mw_rate_task := mw_rate_task w; mw_prometheus := p; mw_now := mw_now w |}.
Definition set_now (now : Z) (w : MetricsWorld) : MetricsWorld :=
  {| mw_tx := mw_tx w; mw_error_logger := mw_error_logger w; mw_log := mw_log w; mw_rates := mw_rates w; mw_is_active := mw_is_active w;
     mw_accumulator := mw_accumulator w; mw_turn := mw_turn w; mw_rate_task := mw_rate_task w; mw_prometheus := mw_prometheus w; mw_now := now |}.

(** *** [MetricsRecorder] *)

Definition BUFFER_SIZE : Z := 1048576.
Definition RATE_BUFFER_SIZE : Z := 10000000.
Definition ERROR_LOG_INTERVAL_MS : Z := 5000.

(** [report_error] of the logger in the world, whose clock is in nanoseconds. *)
Definition log_push_error (e : PushMetricError) : M MetricsWorld unit :=
  modify (λ w, let '(l, lines) := report_error (mw_now w / 1000000) e (mw_error_logger w) in
    set_errors l ((λ ec, PushMetricError_display ec.1 +:+ " [" +:+ fmt_dec ec.2 +:+ " times]") <$> lines) w).

Definition push_metric (m : Metric) : M MetricsWorld unit :=
  tx ← gets mw_tx;
  match try_send m tx with
  | Ok tx => modify (set_tx tx)
  | Err TrySend_Closed => log_push_error PME_Closed
  | Err TrySend_Full => log_push_error PME_NoCapacity
  end.

Definition recorder_increment_counter (key : string) (value : Z) : M MetricsWorld unit :=
  push_metric (Metric_Counter {| mi_key := key; mi_value := value; mi_timestamp := -1 |}).
Definition recorder_update_gauge (key : string) (value : GaugeValue) : M MetricsWorld unit :=
  match value with
  | GV_Absolute val => push_metric (Metric_Gauge {| mi_key := key; mi_value := f64_to_u64 val; mi_timestamp := -1 |})
  | _ => mret tt
  end.
Definition recorder_record_histogram (key : string) (value : f64) : M MetricsWorld unit :=
  push_metric (Metric_Time {| mi_key := key; mi_value := f64_to_u64 value; mi_timestamp := -1 |}).

Definition MetricsRecorder : Recorder MetricsWorld := {|
  rec_register_gauge key := recorder_update_gauge key (GV_Absolute (f64_of_Z 0));
  rec_register_counter key := recorder_increment_counter key 0;
  rec_register_histogram key := recorder_record_histogram key (f64_of_Z 0);
  rec_increment_counter := recorder_increment_counter;
  rec_update_gauge := recorder_update_gauge;
  rec_record_histogram := recorder_record_histogram;
|}.

Definition PrometheusRecorder : Recorder MetricsWorld :=
  let call c := modify (λ w, set_prometheus (prometheus_call c (mw_prometheus w)) w) in {|
  rec_register_gauge key := call (RegisterGauge key);
  rec_register_counter key := call (RegisterCounter key);
  rec_register_histogram key := call (RegisterHistogram key);
  rec_increment_counter key value := call (IncrementCounter key value);
  rec_update_gauge key value := call (UpdateGauge key value);
  rec_record_histogram key value := call (RecordHistogram key value);
|}.

(** *** [GlobalRecorder] *)

Definition RateProcessor_process (key : string) (value : Z) : M MetricsWorld unit :=
  active ← gets mw_is_active;
  if (active : bool) then
    w ← gets id;
    match try_send {| counter_name := key; counter_inc_value := value; rm_timestamp := mw_now w |} (mw_rates w) with
    | Ok rates => modify (set_rates rates true)
    | Err TrySend_Full => mret tt
    | Err TrySend_Closed => modify (set_rates (mw_rates w) false)
    end
  else mret tt.

(** [for rec in self.recorders.iter()] *)
Definition to_recorders {W} (recorders : list (Recorder W)) (f : Recorder W → M W unit) : M W unit :=
  for_each (λ _ r, f r) tt recorders.

Definition GlobalRecorder (recorders : list (Recorder MetricsWorld)) : Recorder MetricsWorld := {|
  rec_register_gauge key := to_recorders recorders (λ r, rec_register_gauge r key);
  rec_register_counter key := to_recorders recorders (λ r, rec_register_counter r key);
  rec_register_histogram key := to_recorders recorders (λ r, rec_register_histogram r key);
  rec_increment_counter key value :=
    _ ← RateProcessor_process key value;
    to_recorders recorders (λ r, rec_increment_counter r key value);
  rec_update_gauge key value := to_recorders recorders (λ r, rec_update_gauge r key value);
  rec_record_histogram key value := to_recorders recorders (λ r, rec_record_histogram r key value);
|}.

(** [GlobalRecorder::new] refuses an empty list. *)
Definition GlobalRecorder_new (recorders : list (Recorder MetricsWorld)) : option (Recorder MetricsWorld) :=
  match recorders with [] => None | _ => Some (GlobalRecorder recorders) end.

(** The recorders [install_global] makes, with the one of Prometheus when it is enabled, and
    the world it starts from. *)
Definition install_global (prometheus_enabled : bool) : option (Recorder MetricsWorld) :=
  let recorders := [MetricsRecorder] ++ if prometheus_enabled then [PrometheusRecorder] else [] in
  if bool_decide (recorders = []) then None else GlobalRecorder_new recorders.

Definition metrics_start (now : Z) (p : Prometheus) : MetricsWorld := {|
  mw_tx := channel BUFFER_SIZE; mw_error_logger := IntervalLogger_new (now / 1000000) ERROR_LOG_INTERVAL_MS; mw_log := [];
  mw_rates := channel RATE_BUFFER_SIZE; mw_is_active := true; mw_accumulator := MetricsAccumulator_new; mw_turn := Between;
  mw_rate_task := RateTask_new; mw_prometheus := p; mw_now := now;
|}.

(** *** The tasks as steps

    What the tasks of the node do to the metrics, one call, one message or one [await] at a
    time, in any order.  A step is labelled with what happened to the collector. *)

Inductive CollectorEvent : Type :=
| Handed (m : Metric)
| Ticked (timestamp : Z)
| Received
| TimedOut.

(** [interval.tick], and the timestamp of the turn. *)
Definition accumulator_tick (timestamp : Z) (w : MetricsWorld) : MetricsWorld :=
  set_accumulator (mw_accumulator w) (Receiving timestamp 0) w.

(** [recv] gave [om] and left [rest] in the channel; the receiver goes with the task. *)
Definition accumulator_receive (timestamp metrics_received : Z) (om : option Metric) (rest : list Metric) (w : MetricsWorld) : MetricsWorld :=
  let a := mw_accumulator w in
  let tx closed := {| ch_queue := rest; ch_capacity := ch_capacity (mw_tx w); ch_closed := closed |} in
  match receive_one timestamp metrics_received om (ac_snapshot a) with
  | None => set_accumulator a Returned (set_tx (tx true) w)
  | Some (s, full) =>
      let a := {| ac_snapshot := s; ac_readable_snapshot := ac_readable_snapshot a |} in
      set_accumulator (if (full : bool) then publish a else a) (if full then Between else Receiving timestamp (metrics_received + 1))
        (set_tx (tx (ch_closed (mw_tx w))) w)
  end.

(** Nothing came in [METRICS_RECV_TIMEOUT]. *)
Definition accumulator_timeout (w : MetricsWorld) : MetricsWorld := set_accumulator (publish (mw_accumulator w)) Between w.

(** The task of the rates receives [msg] and sets the gauges through the global recorder. *)
Definition rate_task_step (g : Recorder MetricsWorld) (msg : RateMessage) (rest : list RateMessage) : M MetricsWorld (list (string * f64)) :=
  w ← gets id;
  let '(gauges, t) := rate_processor_receive msg (mw_rate_task w) in
  _ ← modify (λ w, set_rate_task t (set_rates {| ch_queue := rest; ch_capacity := ch_capacity (mw_rates w); ch_closed := ch_closed (mw_rates w) |} (mw_is_active w) w));
  _ ← for_each (λ _ kv, rec_update_gauge g kv.1 (GV_Absolute kv.2)) tt gauges;
  mret gauges.

(** What a call hands to the collector. *)
Definition pushed (c : RecorderCall) : list Metric :=
  let m key value := {| mi_key := key; mi_value := value; mi_timestamp := -1 |} in
  match c with
  | RegisterGauge key => [Metric_Gauge (m key 0)]
  | RegisterCounter key => [Metric_Counter (m key 0)]
  | RegisterHistogram key => [Metric_Time (m key 0)]
  | IncrementCounter key value => [Metric_Counter (m key value)]
  | UpdateGauge key (GV_Absolute v) => [Metric_Gauge (m key (f64_to_u64 v))]
  | UpdateGauge _ _ => []
  | RecordHistogram key v => [Metric_Time (m key (f64_to_u64 v))]
  end.

(** The sender lives in the recorder, which is installed for good: [recv] always gives a metric. *)
Inductive metrics_step (g : Recorder MetricsWorld) (w : MetricsWorld) : list CollectorEvent → MetricsWorld → Prop :=
| ms_call c w' : run_call g c w = Some (tt, w') → metrics_step g w (Handed <$> pushed c) w'
| ms_tick timestamp : mw_turn w = Between → metrics_step g w [Ticked timestamp] (accumulator_tick timestamp w)
| ms_receive timestamp n m rest :
    mw_turn w = Receiving timestamp n → ch_queue (mw_tx w) = m :: rest →
    metrics_step g w [Received] (accumulator_receive timestamp n (Some m) rest w)
| ms_timeout timestamp n : mw_turn w = Receiving timestamp n → metrics_step g w [TimedOut] (accumulator_timeout w)
| ms_rate msg rest gauges w' :
    ch_queue (mw_rates w) = msg :: rest → rate_task_step g msg rest w = Some (gauges, w') →
    metrics_step g w (Handed <$> (gauges ≫= λ kv, pushed (UpdateGauge kv.1 (GV_Absolute kv.2)))) w'
| ms_time now : mw_now w ≤ now → metrics_step g w [] (set_now now w).

Inductive metrics_run (g : Recorder MetricsWorld) (w : MetricsWorld) : list CollectorEvent → MetricsWorld → Prop :=
| mr_refl : metrics_run g w [] w
| mr_step events w1 l w2 : metrics_run g w events w1 → metrics_step g w1 l w2 → metrics_run g w (events ++ l) w2.
End recorders.

(** ** What a snapshot says of the metrics received *)

(** The counter [key] after the metrics [l]: the sum of its increments. *)
Definition counter_total (key : string) (l : list Metric) : Z :=
  foldr (λ m acc, match m with Metric_Counter c => if decide (mi_key c = key) then mi_value c + acc else acc | _ => acc end) 0 l.
Definition is_counter (key : string) (m : Metric) : bool :=
  match m with Metric_Counter c => bool_decide (mi_key c = key) | _ => false end.
Definition counted (key : string) (l : list Metric) : option Z :=
  if existsb (is_counter key) l then Some (wrap64 (counter_total key l)) else None.

(** The gauge [key]: its last value. *)
Definition gauge_of (key : string) (m : Metric) : option Z :=
  match m with Metric_Gauge g => if decide (mi_key g = key) then Some (mi_value g) else None | _ => None end.
Definition last_gauge (key : string) (l : list Metric) : option Z := list.last (omap (gauge_of key) l).

(** The durations of the timer [key]. *)
Definition time_of (key : string) (m : Metric) : option Z :=
  match m with Metric_Time t => if decide (mi_key t = key) then Some (mi_value t) else None | _ => None end.
Definition durations (key : string) (l : list Metric) : list Z := omap (time_of key) l.

Definition counter_value (s : MetricsSnapshot) (key : string) : option Z := ce_sum <$> counters_map s !! key.
Definition gauge_value (s : MetricsSnapshot) (key : string) : option Z := ge_value <$> gauges_map s !! key.

(** [s] is what the metrics [l] amount to. *)
Definition records (l : list Metric) (s : MetricsSnapshot) : Prop :=
  ∀ key, counter_value s key = counted key l ∧ gauge_value s key = last_gauge key l.

Lemma records_default : records [] MetricsSnapshot_default.
Proof. intros key. split; done. Qed.

Lemma counter_total_app key l l' : counter_total key (l ++ l') = counter_total key l + counter_total key l'.
Proof. induction l as [|[|c|] l IH]; simpl; [lia|done| |done]. case_decide; lia. Qed.

Lemma records_process l s ts m : records l s → records (l ++ [m]) (process_metric (with_timestamp ts m) s).
Proof.
  intros Hr key. specialize (Hr key) as [Hc Hg]. rw /counted /last_gauge existsb_app counter_total_app omap_app /=.
  destruct m as [m|m|m]; simpl.
  - rw /counter_value /gauge_value /= orb_false_r Z.add_0_r. split; [done|].
    destruct (decide (mi_key m = key)) as [<-|Hne]; simpl.
    + by rw lookup_insert_eq last_snoc.
    + by rw lookup_insert_ne // app_nil_r.
  - rw /counter_value /gauge_value /= app_nil_r. split; [|done]. rw bool_decide_decide.
    destruct (decide (mi_key m = key)) as [<-|Hne]; simpl.
    + rw lookup_insert_eq orb_true_r /=. f_equal. rw /counter_value /counted in Hc.
      destruct (counters_map s !! mi_key m) as [e|] eqn:He; simpl in Hc |- *.
      * destruct (existsb _ l); [|done]. injection Hc as ->. rw /wrap64 Zplus_mod_idemp_l. f_equal. lia.
      * destruct (existsb _ l) eqn:Hex; [done|]. assert (counter_total (mi_key m) l = 0) as ->; [|f_equal; lia].
        clear -Hex. induction l as [|[|c|] l IH]; simpl in *; [done|by apply IH| |by apply IH].
        rw bool_decide_decide in Hex. case_decide; [done|by apply IH].
    + rw lookup_insert_ne // orb_false_r Z.add_0_r. done.
  - rw /counter_value /gauge_value /= orb_false_r Z.add_0_r app_nil_r. done.
Qed.

Lemma records_moment l s : records l s → records l (update_and_get_moment_snapshot s).
Proof. done. Qed.

(** ** The timers of a turn *)

Definition time_sums (s : MetricsSnapshot) (key : string) : option (Z * Z) :=
  (λ e, (te_summary_time e, te_measurements_amount e)) <$> times_map s !! key.

Definition process_all (timestamp : Z) (l : list Metric) (s : MetricsSnapshot) : MetricsSnapshot :=
  foldl (λ s m, process_metric (with_timestamp timestamp m) s) s l.

Definition sum_list_Z (l : list Z) : Z := foldr Z.add 0 l.

Lemma process_time_sums ts m s key :
  time_sums (process_metric (with_timestamp ts m) s) key =
  match time_of key m with
  | Some d => let p := default (0, 1) (time_sums s key) in Some (wrap64 (p.1 + d), wrap64 (p.2 + 1))
  | None => time_sums s key
  end.
Proof.
  destruct m as [m|m|m]; [done|done|]. rw /time_sums /=. case_decide as Hk; [subst; rw lookup_insert_eq|by rw lookup_insert_ne].
  by destruct (times_map s !! mi_key m).
Qed.

Lemma durations_cons key m l :
  durations key (m :: l) = match time_of key m with Some d => d :: durations key l | None => durations key l end.
Proof. done. Qed.

Lemma durations_length key l : (length (durations key l) ≤ length l)%nat.
Proof. induction l as [|m l IH]; [done|]. rw durations_cons. case_match; simpl; lia. Qed.

Lemma process_all_sums ts l s key :
  time_sums (process_all ts l s) key =
  match durations key l with
  | [] => time_sums s key
  | ds => let p := default (0, 1) (time_sums s key) in Some (wrap64 (p.1 + sum_list_Z ds), wrap64 (p.2 + Z.of_nat (length ds)))
  end.
Proof.
  revert s. induction l as [|m l IH]; intros s; [done|]. cbn [process_all foldl]. rw IH process_time_sums durations_cons.
  destruct (time_of key m) as [d|]; [|done]. destruct (durations key l) as [|d' ds]; cbn [sum_list_Z foldr length]; simpl.
  - by rw !Z.add_0_r.
  - rw /wrap64 !Zplus_mod_idemp_l. do 2 f_equal; f_equal; lia.
Qed.

Lemma receive_loop_all ts n l s :
  n + Z.of_nat (length l) ≤ MAX_METRICS_PER_PERIOD → receive_loop ts n (Some <$> l) s = Some (process_all ts l s, []).
Proof.
  revert n s. induction l as [|m l IH]; intros n s Hn; [done|]. simpl in Hn |- *.
  destruct (Z.eqb_spec (n + 1) MAX_METRICS_PER_PERIOD); [|apply IH; lia]. by destruct l; [|simpl in Hn; lia].
Qed.

(** The loop of a turn takes a part of what is there, in order, and at most the bound. *)
Lemma receive_loop_part ts n received s s' rest :
  n < MAX_METRICS_PER_PERIOD → receive_loop ts n received s = Some (s', rest) →
  ∃ l, received = (Some <$> l) ++ rest ∧ s' = process_all ts l s ∧ n + Z.of_nat (length l) ≤ MAX_METRICS_PER_PERIOD.
Proof.
  revert n s. induction received as [|[m|] received IH]; intros n s Hn; simpl; [|case_match eqn:Heq|done].
  - intros [= <- <-]. exists []. split_and!; [done|done|simpl; lia].
  - intros [= <- <-]. apply Z.eqb_eq in Heq. exists [m]. split_and!; [done|done|simpl; lia].
  - intros Hr. apply Z.eqb_neq in Heq. destruct (IH (n + 1) _ ltac:(lia) Hr) as (l & -> & -> & Hl).
    exists (m :: l). split_and!; [done|done|simpl; lia].
Qed.

(** Nothing was measured for the timer since the last turn, or ever. *)
Definition idle (s : MetricsSnapshot) (key : string) : Prop := time_sums s key = None ∨ time_sums s key = Some (0, 0).

(** The means a turn publishes.  A timer that was published before gets the mean of the durations
    received in the turn, none when there were none; a new timer is divided by one more than
    their number, since its entry starts with one measurement. *)
Theorem timer_means timestamp l a key :
  Z.of_nat (length l) ≤ MAX_METRICS_PER_PERIOD →
  idle (ac_snapshot a) key →
  let ds := durations key l in
  let new := bool_decide (time_sums (ac_snapshot a) key = None) in
  ∃ a', accumulator_turn timestamp (Some <$> l) a = Some (a', []) ∧
    (te_mean <$> times_map (ac_readable_snapshot a') !! key =
       match ds with
       | [] => if new then None else Some None
       | _ => Some (Some (wrap64 (sum_list_Z ds) / (Z.of_nat (length ds) + if new then 1 else 0)))
       end) ∧
    idle (ac_snapshot a') key.
Proof.
  intros Hl Hs ds new. rw /accumulator_turn (receive_loop_all timestamp 0 l); [lia|]. eexists. split; [done|].
  assert (Z.of_nat (length ds) ≤ Z.of_nat (length l)) as Hds.
  { apply inj_le, durations_length. }
  pose proof (process_all_sums timestamp l (ac_snapshot a) key) as Hsum. fold ds in Hsum.
  revert Hs Hsum. unfold new, idle. generalize (time_sums (ac_snapshot a) key). intros s0 Hs Hsum.
  rw /time_sums /= !lookup_fmap. rw /time_sums in Hsum.
  destruct (times_map (process_all timestamp l (ac_snapshot a)) !! key) as [e|]; simpl in Hsum |- *; last first.
  { destruct ds; [|done]. by subst s0; split; [|left]. }
  split; [|by right]. f_equal.
  destruct Hs as [->| ->]; destruct ds as [|d ds']; try done; injection Hsum as -> ->; [| |].
  all: rw /MAX_METRICS_PER_PERIOD in Hl.
  - rw (wrap64_small (1 + _)); [simpl in Hds; lia|]. rw bool_decide_true //= Z.add_0_l.
    replace (1 + Z.of_nat (S (length ds'))) with (Z.of_nat (S (length ds')) + 1) by lia. done.
  - done.
  - rw (wrap64_small (0 + _)); [simpl in Hds; lia|]. by rw bool_decide_false //= !Z.add_0_l Z.add_0_r.
Qed.

(** ** What happened to the metrics *)

(** The turns of the accumulator with the metrics each received, the turn it is in, the
    metrics in the channel and those lost. *)
Record CollectorLog : Type := {
  cl_turns : list (Z * list Metric);
  cl_current : option (Z * list Metric);
  cl_waiting : list Metric;
  cl_lost : list Metric;
}.
Definition log_start : CollectorLog := {| cl_turns := []; cl_current := None; cl_waiting := []; cl_lost := [] |}.

(** A metric is lost when [BUFFER_SIZE] others wait, and then only.  A turn ends when nothing
    comes in time or with its last metric. *)
Definition log_event (l : CollectorLog) (e : CollectorEvent) : CollectorLog :=
  match e with
  | Handed m =>
      if Z.of_nat (length (cl_waiting l)) <? BUFFER_SIZE
      then {| cl_turns := cl_turns l; cl_current := cl_current l; cl_waiting := cl_waiting l ++ [m]; cl_lost := cl_lost l |}
      else {| cl_turns := cl_turns l; cl_current := cl_current l; cl_waiting := cl_waiting l; cl_lost := cl_lost l ++ [m] |}
  | Ticked ts => {| cl_turns := cl_turns l; cl_current := Some (ts, []); cl_waiting := cl_waiting l; cl_lost := cl_lost l |}
  | Received =>
      match cl_current l, cl_waiting l with
      | Some (ts, c), m :: rest =>
          if Z.of_nat (length c) + 1 =? MAX_METRICS_PER_PERIOD
          then {| cl_turns := cl_turns l ++ [(ts, c ++ [m])]; cl_current := None; cl_waiting := rest; cl_lost := cl_lost l |}
          else {| cl_turns := cl_turns l; cl_current := Some (ts, c ++ [m]); cl_waiting := rest; cl_lost := cl_lost l |}
      | _, _ => l
      end
  | TimedOut =>
      match cl_current l with
      | Some t => {| cl_turns := cl_turns l ++ [t]; cl_current := None; cl_waiting := cl_waiting l; cl_lost := cl_lost l |}
      | None => l
      end
  end.
Definition log_of (events : list CollectorEvent) : CollectorLog := foldl log_event log_start events.

Definition turns_metrics (turns : list (Z * list Metric)) : list Metric := mjoin turns.*2.
Definition cl_received (l : CollectorLog) : list Metric := turns_metrics (cl_turns l) ++ default [] (snd <$> cl_current l).
Definition handed (events : list CollectorEvent) : list Metric :=
  omap (λ e, match e with Handed m => Some m | _ => None end) events.

Lemma handed_app e e' : handed (e ++ e') = handed e ++ handed e'.
Proof. apply omap_app. Qed.
Lemma handed_calls l : handed (Handed <$> l) = l.
Proof. induction l as [|m l IH]; [done|]. rw fmap_cons. simpl. by f_equal. Qed.

(** The whole turns, one after the other. *)
Fixpoint run_turns (turns : list (Z * list Metric)) (a : MetricsAccumulator) : option MetricsAccumulator :=
  match turns with
  | [] => Some a
  | (timestamp, l) :: turns =>
      '(a, rest) ← accumulator_turn timestamp (Some <$> l) a;
      match rest with [] => run_turns turns a | _ => None end
  end.

Lemma run_turns_app t1 t2 a a1 : run_turns t1 a = Some a1 → run_turns (t1 ++ t2) a = run_turns t2 a1.
Proof.
  revert a. induction t1 as [|[ts l] t1 IH]; intros a; simpl; [by intros [= ->]|].
  destruct (accumulator_turn ts (Some <$> l) a) as [[a' [|]]|]; simpl; [apply IH|done..].
Qed.

(** The accumulator within a turn. *)
Definition mid_turn (current : option (Z * list Metric)) (a : MetricsAccumulator) : MetricsAccumulator :=
  match current with
  | None => a
  | Some (ts, l) => {| ac_snapshot := process_all ts l (ac_snapshot a); ac_readable_snapshot := ac_readable_snapshot a |}
  end.

Lemma whole_turn ts l a :
  Z.of_nat (length l) ≤ MAX_METRICS_PER_PERIOD →
  accumulator_turn ts (Some <$> l) a = Some (publish (mid_turn (Some (ts, l)) a), []).
Proof. intros Hl. by rw /accumulator_turn receive_loop_all. Qed.

Lemma run_turns_end turns t a0 a :
  run_turns turns a0 = Some a → Z.of_nat (length t.2) ≤ MAX_METRICS_PER_PERIOD →
  run_turns (turns ++ [t]) a0 = Some (publish (mid_turn (Some t) a)).
Proof. intros Hr Hl. destruct t as [ts l]. rw (run_turns_app _ _ _ _ Hr) /= whole_turn //. Qed.

(** ** What a published snapshot says *)

(** The mean of a timer over the durations [ds] of a turn when [earlier] were measured in the
    turns before: the first mean is over one measurement more than there were. *)
Definition mean_of (ds earlier : list Z) : option (option Z) :=
  match ds, earlier with
  | [], [] => None
  | [], _ :: _ => Some None
  | _, [] => Some (Some (wrap64 (sum_list_Z ds) / (Z.of_nat (length ds) + 1)))
  | _, _ :: _ => Some (Some (wrap64 (sum_list_Z ds) / Z.of_nat (length ds)))
  end.

Definition timer_mean (s : MetricsSnapshot) (key : string) : option (option Z) := te_mean <$> times_map s !! key.

(** [s] is what the accumulator publishes after [turns]: the sums and the last values of all
    that was received, and the means of the last turn. *)
Definition published (turns : list (Z * list Metric)) (s : MetricsSnapshot) : Prop :=
  records (turns_metrics turns) s ∧
  (turns = [] → ∀ key, timer_mean s key = None) ∧
  (∀ before ts l key, turns = before ++ [(ts, l)] →
     timer_mean s key = mean_of (durations key l) (durations key (turns_metrics before))).

Lemma turns_metrics_snoc turns ts l : turns_metrics (turns ++ [(ts, l)]) = turns_metrics turns ++ l.
Proof. by rw /turns_metrics fmap_app join_app /= app_nil_r. Qed.

Lemma durations_app key l l' : durations key (l ++ l') = durations key l ++ durations key l'.
Proof. apply omap_app. Qed.

Lemma records_process_all ts l l' s : records l s → records (l ++ l') (process_all ts l' s).
Proof.
  revert l s. induction l' as [|m l' IH]; intros l s Hs; [by rw app_nil_r|].
  change (m :: l') with ([m] ++ l'). rw app_assoc. by apply (IH (l ++ [m])), records_process.
Qed.

(** Every whole turn publishes what was received so far. *)
Lemma run_turns_published turns a :
  Forall (λ t, Z.of_nat (length t.2) ≤ MAX_METRICS_PER_PERIOD) turns → run_turns turns MetricsAccumulator_new = Some a →
  ac_snapshot a = ac_readable_snapshot a ∧ published turns (ac_readable_snapshot a) ∧
  ∀ key, idle (ac_snapshot a) key ∧ (time_sums (ac_snapshot a) key = None ↔ durations key (turns_metrics turns) = []).
Proof.
  revert a. induction turns as [|[ts l] turns IH] using rev_ind; intros a Hall Hr.
  { injection Hr as <-. split; [done|]. split; [|intros key; split; [by left|done]].
    split; [apply records_default|]. split; [done|]. by intros [] ????. }
  apply Forall_app in Hall as [Hall [Hl _]%list.Forall_cons]. simpl in Hl.
  destruct (run_turns turns MetricsAccumulator_new) as [a0|] eqn:Hr0; last first.
  { exfalso. clear -Hr Hr0. revert Hr Hr0. generalize MetricsAccumulator_new. induction turns as [|[ts' l'] turns IH]; intros a0; [done|].
    simpl. destruct (accumulator_turn ts' (Some <$> l') a0) as [[a' [|]]|]; simpl; [apply IH|done..]. }
  rw (run_turns_end turns (ts, l) _ a0 Hr0) // in Hr. injection Hr as <-.
  destruct (IH a0 Hall eq_refl) as (Heq & (Hrec & _ & _) & Hidle). clear IH.
  assert (∀ key, timer_mean (ac_readable_snapshot (publish (mid_turn (Some (ts, l)) a0))) key =
            mean_of (durations key l) (durations key (turns_metrics turns)) ∧
          idle (ac_snapshot (publish (mid_turn (Some (ts, l)) a0))) key) as Hmean.
  { intros key. destruct (Hidle key) as [Hid Hnone]. destruct (timer_means ts l a0 key Hl Hid) as (a' & Ht & Hm & Hi).
    rw whole_turn // in Ht. injection Ht as <-. split; [|exact Hi]. rw /timer_mean Hm /mean_of.
    destruct (durations key (turns_metrics turns)); [rw bool_decide_true; [by apply Hnone|]|rw bool_decide_false; [by intros ?%Hnone|]];
      destruct (durations key l); rw ?Z.add_0_r; done. }
  split; [done|]. split; [split; [|split]|].
  - rw turns_metrics_snoc. rw -Heq in Hrec. by apply records_moment, records_process_all.
  - by intros [_ ?]%app_eq_nil.
  - intros before ts' l' key [<- [= <- <-]]%app_inj_tail. apply Hmean.
  - intros key. destruct (Hmean key) as [Hm Hi]. split; [exact Hi|]. rw turns_metrics_snoc durations_app.
    assert (time_sums (ac_snapshot (publish (mid_turn (Some (ts, l)) a0))) key = None ↔
            timer_mean (ac_readable_snapshot (publish (mid_turn (Some (ts, l)) a0))) key = None) as ->.
    { rw /timer_mean /time_sums /=. by destruct (_ !! key). }
    rw Hm /mean_of. destruct (durations key l), (durations key (turns_metrics turns)); simpl; split; try done.
Qed.

(** ** Nothing is lost while the channel has room *)

Lemma sublist_same_length {A} (l k : list A) : l `sublist_of` k → length l = length k → l = k.
Proof.
  induction 1 as [|x l k Hs IH|x l k Hs IH]; [done| |]; simpl; intros [= Hl]; [by rw IH|].
  apply sublist_length in Hs. lia.
Qed.

Section collected.
Context `{!HashOrder, PrometheusCrate}.

(** The channel and the accumulator are where the log says. *)
Definition collected (l : CollectorLog) (w : MetricsWorld) : Prop :=
  ch_queue (mw_tx w) = cl_waiting l ∧
  ∃ a, run_turns (cl_turns l) MetricsAccumulator_new = Some a ∧ mw_accumulator w = mid_turn (cl_current l) a ∧
    mw_turn w = match cl_current l with None => Between | Some (ts, c) => Receiving ts (Z.of_nat (length c)) end.

(** No turn is over full; the metrics received and waiting are those handed over, in order,
    but for the lost ones, which came when the channel was full. *)
Record log_ok (events : list CollectorEvent) (l : CollectorLog) : Prop := {
  lo_turns : Forall (λ t, Z.of_nat (length t.2) ≤ MAX_METRICS_PER_PERIOD) (cl_turns l);
  lo_current : ∀ t, cl_current l = Some t → Z.of_nat (length t.2) < MAX_METRICS_PER_PERIOD;
  lo_waiting : Z.of_nat (length (cl_waiting l)) ≤ BUFFER_SIZE;
  lo_order : cl_received l ++ cl_waiting l `sublist_of` handed events;
  lo_all : handed events ≡ₚ (cl_received l ++ cl_waiting l) ++ cl_lost l;
  lo_lost : ∀ m, m ∈ cl_lost l → ∃ before after, events = before ++ Handed m :: after ∧
    Z.of_nat (length (cl_waiting (log_of before))) = BUFFER_SIZE;
}.

Definition tx_ok (c : Channel Metric) : Prop := ch_capacity c = BUFFER_SIZE ∧ ch_closed c = false.
Definition collector_ok (events : list CollectorEvent) (w : MetricsWorld) : Prop :=
  tx_ok (mw_tx w) ∧ collected (log_of events) w ∧ log_ok events (log_of events).

(** Only the channel and the accumulator matter. *)
Lemma collector_frame events w w' :
  mw_tx w' = mw_tx w → mw_accumulator w' = mw_accumulator w → mw_turn w' = mw_turn w →
  collector_ok events w → collector_ok events w'.
Proof. rw /collector_ok /collected. by intros -> -> ->. Qed.

Lemma log_of_snoc events e : log_of (events ++ [e]) = log_event (log_of events) e.
Proof. by rw /log_of foldl_app. Qed.

Lemma cl_received_snoc l : cl_received l = turns_metrics (cl_turns l) ++ default [] (snd <$> cl_current l).
Proof. done. Qed.

Lemma lost_before events e m :
  (∃ before after, events = before ++ Handed m :: after ∧ Z.of_nat (length (cl_waiting (log_of before))) = BUFFER_SIZE) →
  ∃ before after, events ++ [e] = before ++ Handed m :: after ∧ Z.of_nat (length (cl_waiting (log_of before))) = BUFFER_SIZE.
Proof. intros (before & after & -> & Hb). exists before, (after ++ [e]). by rw -app_assoc. Qed.

(** A metric is handed over. *)
Lemma log_handed events m : log_ok events (log_of events) → log_ok (events ++ [Handed m]) (log_of (events ++ [Handed m])).
Proof.
  intros [Ht Hc Hw Ho Ha Hl]. rw log_of_snoc /=. destruct (Z.ltb_spec (Z.of_nat (length (cl_waiting (log_of events)))) BUFFER_SIZE) as [Hlt|Hge];
    split; rw ?handed_app; try done; cbn [cl_turns cl_current cl_waiting cl_lost].
  - rw length_app /=. lia.
  - rw /cl_received /= app_assoc. by apply sublist_app.
  - rw {1}Ha /cl_received /=. solve_Permutation.
  - intros m' Hm'. by apply lost_before, Hl.
  - by apply sublist_inserts_r.
  - rw {1}Ha /cl_received /=. solve_Permutation.
  - intros m' [Hm'|Hm'%list_elem_of_singleton]%elem_of_app; [by apply lost_before, Hl|subst].
    exists events, []. split; [done|lia].
Qed.

(** The metrics received and waiting stay in order when one moves. *)
Lemma log_moved events e l' :
  handed [e] = [] → log_ok events (log_of events) →
  Forall (λ t, Z.of_nat (length t.2) ≤ MAX_METRICS_PER_PERIOD) (cl_turns l') →
  (∀ t, cl_current l' = Some t → Z.of_nat (length t.2) < MAX_METRICS_PER_PERIOD) →
  Z.of_nat (length (cl_waiting l')) ≤ BUFFER_SIZE → cl_lost l' = cl_lost (log_of events) →
  cl_received l' ++ cl_waiting l' = cl_received (log_of events) ++ cl_waiting (log_of events) →
  log_ok (events ++ [e]) l'.
Proof.
  intros He [_ _ _ Ho Ha Hl] Ht Hc Hw Hlost Hmove. split; rw ?handed_app ?He ?app_nil_r ?Hmove ?Hlost; try done.
  intros m Hm. by apply lost_before, Hl.
Qed.

Lemma push_metric_ok events m w : collector_ok events w → wp (push_metric m) (λ _ w', collector_ok (events ++ [Handed m]) w') w.
Proof.
  intros ([Hcap Hcl] & (Hq & a & Hrun & Ha & Hturn) & Hlog). pose proof (log_handed _ m Hlog) as Hlog'.
  rw /push_metric. apply wpx_bind, wpx_gets. rw /try_send Hcl Hcap Hq. revert Hlog'. rw /collector_ok log_of_snoc /=.
  destruct (Z.ltb_spec (Z.of_nat (length (cl_waiting (log_of events)))) BUFFER_SIZE) as [Hlt|Hge]; intros Hlog'.
  - apply wpx_modify. split; [by split|]. split; [|exact Hlog']. split; [done|]. by exists a.
  - rw /log_push_error. apply wpx_modify. destruct (report_error _ _ _). split; [by split|]. split; [|exact Hlog']. split; [done|]. by exists a.
Qed.

Lemma recorder_ok events c w : collector_ok events w → wp (run_call MetricsRecorder c) (λ _ w', collector_ok (events ++ (Handed <$> pushed c)) w') w.
Proof.
  intros Hw. destruct c as [| | | |key [v|v|v]|]; try by apply push_metric_ok.
  all: apply wpx_ret; by rw app_nil_r.
Qed.

Lemma prometheus_ok events c w : collector_ok events w → wp (run_call PrometheusRecorder c) (λ _ w', collector_ok events w') w.
Proof. intros Hw. destruct c; apply wpx_modify; by eapply collector_frame. Qed.

Lemma rate_process_ok events key value w :
  collector_ok events w → wp (RateProcessor_process key value) (λ _ w', collector_ok events w') w.
Proof.
  intros Hw. rw /RateProcessor_process. apply wpx_bind, wpx_gets. destruct (mw_is_active w); [|by apply wpx_ret].
  apply wpx_bind, wpx_gets. simpl. destruct (try_send _ _) as [rates|[]]; [apply wpx_modify|by apply wpx_ret|apply wpx_modify].
  all: by eapply collector_frame.
Qed.

Lemma recorders_ok enabled events c w :
  collector_ok events w →
  wp (to_recorders ([MetricsRecorder] ++ if (enabled : bool) then [PrometheusRecorder] else []) (λ r, run_call r c))
     (λ _ w', collector_ok (events ++ (Handed <$> pushed c)) w') w.
Proof.
  intros Hw. rw /to_recorders. simpl. apply wpx_bind. eapply wpx_mono; [by apply recorder_ok|]. intros [] w1 Hw1.
  destruct enabled; [|by apply wpx_ret]. simpl. apply wpx_bind. eapply wpx_mono; [by apply prometheus_ok|].
  intros [] w2 Hw2. by apply wpx_ret.
Qed.

Lemma global_call recorders c :
  run_call (GlobalRecorder recorders) c =
  match c with
  | IncrementCounter key value => _ ← RateProcessor_process key value; to_recorders recorders (λ r, run_call r c)
  | _ => to_recorders recorders (λ r, run_call r c)
  end.
Proof. by destruct c. Qed.

Lemma global_ok enabled g events c w :
  install_global enabled = Some g → collector_ok events w → wp (run_call g c) (λ _ w', collector_ok (events ++ (Handed <$> pushed c)) w') w.
Proof.
  intros [= <-] Hw. rw global_call. case_match; try by apply recorders_ok.
  apply wpx_bind. eapply wpx_mono; [by apply rate_process_ok|]. intros [] w1 Hw1. by apply recorders_ok.
Qed.

Definition gauge_pushes (gauges : list (string * f64)) : list Metric := gauges ≫= λ kv, pushed (UpdateGauge kv.1 (GV_Absolute kv.2)).

Lemma rate_task_ok enabled g events msg rest w :
  install_global enabled = Some g → collector_ok events w →
  wp (rate_task_step g msg rest) (λ gauges w', collector_ok (events ++ (Handed <$> gauge_pushes gauges)) w') w.
Proof.
  intros Hg Hw. rw /rate_task_step. apply wpx_bind, wpx_gets. cbv beta delta [id].
  destruct (rate_processor_receive msg (mw_rate_task w)) as [gauges t]. apply wpx_bind, wpx_modify, wpx_bind.
  eapply wpx_mono; [apply (wpx_for_each _ _ gauges (λ done _ w', collector_ok (events ++ (Handed <$> gauge_pushes done)) w'))|].
  - rw /= app_nil_r. by eapply collector_frame.
  - intros done kv rem [] w1 _ Hw1. eapply wpx_mono; [by apply (global_ok enabled g (events ++ (Handed <$> gauge_pushes done)) (UpdateGauge kv.1 (GV_Absolute kv.2)))|].
    intros [] w2 Hw2. by rw /gauge_pushes bind_app fmap_app app_assoc.
  - intros [] w1 Hw1. by apply wpx_ret.
Qed.

(** A turn of the accumulator that got a metric. *)
Lemma receive_ok events ts n m rest w :
  collector_ok events w → mw_turn w = Receiving ts n → ch_queue (mw_tx w) = m :: rest →
  collector_ok (events ++ [Received]) (accumulator_receive ts n (Some m) rest w).
Proof.
  intros (Htx & (Hq & a & Hrun & Ha & Hturn) & Hlog) Hts Hqueue. rw Hqueue in Hq. symmetry in Hq. pose proof Hlog as [Ht Hc Hw _ _ _].
  destruct (cl_current (log_of events)) as [[ts' c]|] eqn:Hcur; rw Hts in Hturn; [|done]. injection Hturn as <- ->.
  specialize (Hc (ts, c) eq_refl). simpl in Hc. rw Hq /= in Hw.
  assert (process_metric (with_timestamp ts m) (process_all ts c (ac_snapshot a)) = process_all ts (c ++ [m]) (ac_snapshot a)) as Hproc.
  { by rw /process_all foldl_app. }
  rw /accumulator_receive /receive_one /= Ha /= Hproc /collector_ok log_of_snoc /= Hcur Hq.
  destruct (Z.eqb_spec (Z.of_nat (length c) + 1) MAX_METRICS_PER_PERIOD) as [Hfull|Hmore]; (split; [exact Htx|]); split.
  - split; [done|]. exists (publish (mid_turn (Some (ts, c ++ [m])) a)). split; [|done].
    apply (run_turns_end _ (ts, c ++ [m])); [done|]. rw length_app /=. lia.
  - apply log_moved; rw ?Hcur ?Hq; cbn [cl_turns cl_current cl_waiting cl_lost]; try done; [|lia|].
    + apply Forall_app. split; [done|]. apply list.Forall_singleton. rw length_app /=. lia.
    + by rw /cl_received /= Hcur turns_metrics_snoc /= app_nil_r -!app_assoc.
  - split; [done|]. exists a. split; [done|]. split; [done|]. by rw /= length_app Nat2Z.inj_add.
  - apply log_moved; rw ?Hcur ?Hq; cbn [cl_turns cl_current cl_waiting cl_lost]; try done; [|lia|].
    + intros t [= <-]. rw length_app /=. lia.
    + by rw /cl_received /= Hcur /= -!app_assoc.
Qed.

Lemma timeout_ok events ts n w :
  collector_ok events w → mw_turn w = Receiving ts n → collector_ok (events ++ [TimedOut]) (accumulator_timeout w).
Proof.
  intros (Htx & (Hq & a & Hrun & Ha & Hturn) & Hlog) Hts. pose proof Hlog as [Ht Hc Hw _ _ _].
  destruct (cl_current (log_of events)) as [[ts' c]|] eqn:Hcur; rw Hts in Hturn; [|done]. injection Hturn as <- ->.
  specialize (Hc (ts, c) eq_refl). simpl in Hc. rw /accumulator_timeout Ha /collector_ok log_of_snoc /= Hcur.
  split; [exact Htx|]. split.
  - split; [done|]. exists (publish (mid_turn (Some (ts, c)) a)). split; [|done]. apply (run_turns_end _ (ts, c)); [done|simpl; lia].
  - apply log_moved; cbn [cl_turns cl_current cl_waiting cl_lost]; try done.
    + apply Forall_app. split; [done|]. apply list.Forall_singleton. simpl. lia.
    + by rw /cl_received /= Hcur turns_metrics_snoc /= app_nil_r.
Qed.

Lemma tick_ok events ts w : collector_ok events w → mw_turn w = Between → collector_ok (events ++ [Ticked ts]) (accumulator_tick ts w).
Proof.
  intros (Htx & (Hq & a & Hrun & Ha & Hturn) & Hlog) Hts. pose proof Hlog as [Ht Hc Hw _ _ _].
  destruct (cl_current (log_of events)) as [[ts' c]|] eqn:Hcur; rw Hts in Hturn; [done|].
  rw /collector_ok log_of_snoc /=. split; [exact Htx|]. split.
  - split; [done|]. exists a. split; [done|]. split; [|done]. rw /accumulator_tick Ha. by destruct a.
  - apply log_moved; cbn [cl_turns cl_current cl_waiting cl_lost]; try done.
    + by intros t [= <-].
    + by rw /cl_received /= Hcur.
Qed.

Lemma step_ok enabled g events l w w' :
  install_global enabled = Some g → collector_ok events w → metrics_step g w l w' → collector_ok (events ++ l) w'.
Proof.
  intros Hg Hw Hs. destruct Hs as [c w' Hr|ts Ht|ts n m rest Ht Hq|ts n Ht|msg rest gauges w' Hq Hr|now Hn].
  - apply (wpx_elim _ _ _ _ _ _ (global_ok enabled g events c w Hg Hw) Hr).
  - by apply tick_ok.
  - by apply receive_ok.
  - by eapply timeout_ok.
  - apply (wpx_elim _ _ _ _ _ _ (rate_task_ok enabled g events msg rest w Hg Hw) Hr).
  - rw app_nil_r. by eapply collector_frame.
Qed.

Lemma run_ok enabled g now p events w :
  install_global enabled = Some g → metrics_run g (metrics_start now p) events w → collector_ok events w.
Proof.
  intros Hg Hr. remember (metrics_start now p) as w0 eqn:Hw0. induction Hr as [|events w1 l w2 _ IH Hs]; subst.
  - split; [done|]. split; [split; [done|]; by exists MetricsAccumulator_new|]. split; try done. by intros m ?%elem_of_nil.
  - by eapply step_ok; [|apply IH|].
Qed.

Lemma waiting_at_most events : Z.of_nat (length (cl_waiting (log_of events))) ≤ Z.of_nat (length (handed events)).
Proof.
  induction events as [|e events IH] using rev_ind; [done|]. rw log_of_snoc handed_app length_app.
  destruct (log_of events) as [turns current waiting lost]. simpl in IH.
  destruct e as [m|ts| |]; simpl; [destruct (Z.ltb _ _); simpl; rw ?length_app /=; lia|lia| |].
  - destruct current as [[ts c]|], waiting as [|m rest]; simpl in IH |- *; try lia. destruct (Z.eqb _ _); simpl; lia.
  - destruct current; simpl; lia.
Qed.

(** C34: However the tasks of a node interleave, recorders never abort, and the accumulator goes by
    whole turns, each with what it received, at most [MAX_METRICS_PER_PERIOD] metrics.  The
    metrics received and waiting are those handed over, in order, but for the lost ones, each
    of which came when the channel was full: up to the capacity of the channel none is lost.
    What is published after those turns has the sums of the counters and the last values of
    the gauges received in them, and for each timer the mean over the last turn, taken over
    one measurement too many in the first turn that had the timer; the snapshot not yet
    published has the sums and last values of all that was received. *)
Theorem metrics_collected enabled g now p events w :
  install_global enabled = Some g → metrics_run g (metrics_start now p) events w →
  let l := log_of events in
  (∀ c, ∃ w', run_call g c w = Some (tt, w')) ∧
  collected l w ∧ log_ok events l ∧
  records (cl_received l) (ac_snapshot (mw_accumulator w)) ∧
  published (cl_turns l) (ac_readable_snapshot (mw_accumulator w)) ∧
  (Z.of_nat (length (handed events)) ≤ BUFFER_SIZE → handed events = cl_received l ++ cl_waiting l).
Proof.
  intros Hg Hr l. pose proof (run_ok enabled g now p events w Hg Hr) as Hw. pose proof Hw as (_ & Hcol & Hlog). fold l in Hcol, Hlog.
  split; [|split; [exact Hcol|split; [exact Hlog|]]].
  - intros c. destruct (wp_total _ _ _ (global_ok enabled g events c w Hg Hw)) as ([] & w' & Hc & _). by exists w'.
  - destruct Hcol as (_ & a & Hrun & -> & _). destruct (run_turns_published _ a (lo_turns _ _ Hlog) Hrun) as (Heq & Hpub & _).
    split; [|split].
    + rw /cl_received. destruct (cl_current l) as [[ts c]|]; simpl; [|rw app_nil_r Heq; apply Hpub].
      apply records_process_all. rw Heq. apply Hpub.
    + by destruct (cl_current l) as [[ts c]|].
    + intros Hlen. destruct (cl_lost l) as [|m lost] eqn:Hl.
      { symmetry. apply sublist_same_length; [apply Hlog|]. by rw (lo_all _ _ Hlog) Hl app_nil_r. }
      exfalso. destruct (lo_lost _ _ Hlog m) as (before & after & Hev & Hfull); [rw Hl; by left|].
      enough (Z.of_nat (length (cl_waiting (log_of before))) ≤ Z.of_nat (length (handed before))) as Hle.
      { rw Hev handed_app length_app /= in Hlen. lia. }
      clear. apply waiting_at_most.
Qed.
End collected.

(** ** Rates *)

(** The counters since the last commit. *)
Definition rate_total (key : string) (msgs : list RateMessage) : Z :=
  foldr (λ m acc, if decide (counter_name m = key) then counter_inc_value m + acc else acc) 0 msgs.
(** [m] has the totals of [msgs], for the keys of [known] and those in [msgs]. *)
Definition rate_counts (known : gmap string Z) (msgs : list RateMessage) (m : gmap string Z) : Prop :=
  ∀ key, m !! key = if bool_decide (is_Some (known !! key)) || existsb (λ x, bool_decide (counter_name x = key)) msgs
                    then Some (wrap64 (default 0 (known !! key) + rate_total key msgs)) else None.

Lemma rate_total_app key l l' : rate_total key (l ++ l') = rate_total key l + rate_total key l'.
Proof. induction l as [|x l IH]; simpl; [lia|]. case_decide; lia. Qed.
Lemma rate_total_absent key l : existsb (λ x, bool_decide (counter_name x = key)) l = false → rate_total key l = 0.
Proof. induction l as [|x l IH]; simpl; [done|]. rw bool_decide_decide. case_decide; [done|apply IH]. Qed.

Lemma rate_process_counter_counts known msgs m k v ts :
  rate_counts known msgs m →
  rate_counts known (msgs ++ [{| counter_name := k; counter_inc_value := v; rm_timestamp := ts |}]) (rate_process_counter k v m).
Proof.
  intros Hm key. specialize (Hm key). rw /rate_process_counter rate_total_app existsb_app /= orb_false_r.
  destruct (decide (k = key)) as [->|Hne].
  - rw lookup_insert_eq Hm (bool_decide_true (key = key)) // !orb_true_r. destruct (_ || existsb _ msgs) eqn:Hc; f_equal; simpl.
    + rw /wrap64 Zplus_mod_idemp_l. f_equal. lia.
    + apply orb_false_iff in Hc as [Hk Hex]. apply bool_decide_eq_false, eq_None_not_Some in Hk. rw Hk (rate_total_absent _ _ Hex) /=.
      rw /wrap64. f_equal. lia.
  - rw lookup_insert_ne // Hm (bool_decide_false (k = key)) // Z.add_0_r. by rw ?orb_false_r ?Z.add_0_r.
Qed.

(** Within the interval the task only counts; the message that ends it sets, for every counter
    seen so far, the gauge of its rate over the interval, and starts the next count. *)
Theorem rate_window `{!HashOrder} base msgs known :
  (∀ x, x ∈ msgs → rm_timestamp x ≤ base + RATE_INTERVAL_SECS * 1000000000) →
  (∀ key v, known !! key = Some v → u64 v) →
  ∃ m, rate_processor_task msgs {| rt_counters_map := known; rt_base_ts := Some base |} =
         ([], {| rt_counters_map := m; rt_base_ts := Some base |}) ∧
    rate_counts known msgs m ∧
    ∀ last, base + RATE_INTERVAL_SECS * 1000000000 < rm_timestamp last →
      ∃ gauges, rate_processor_receive last {| rt_counters_map := m; rt_base_ts := Some base |} =
          (gauges, {| rt_counters_map := rate_process_counter (counter_name last) (counter_inc_value last) ((λ _, 0) <$> m);
                      rt_base_ts := Some (rm_timestamp last) |}) ∧
        gauges ≡ₚ (λ kv, (kv.1 +:+ "_rate", f64_of_Z (kv.2 / RATE_INTERVAL_SECS))) <$> map_to_list m.
Proof.
  intros Hts Hknown.
  assert (∃ m, rate_processor_task msgs {| rt_counters_map := known; rt_base_ts := Some base |} =
     ([], {| rt_counters_map := m; rt_base_ts := Some base |}) ∧ rate_counts known msgs m) as (m & Hrun & Hm).
  { enough (∀ pre m, rate_counts known pre m → ∃ m', rate_processor_task msgs {| rt_counters_map := m; rt_base_ts := Some base |} =
       ([], {| rt_counters_map := m'; rt_base_ts := Some base |}) ∧ rate_counts known (pre ++ msgs) m') as He.
    { apply (He [] known). intros key. rw /= orb_false_r Z.add_0_r. destruct (known !! key) as [v|] eqn:Hk; [|done].
      rw bool_decide_true /= ?wrap64_small; [by eexists|by eapply Hknown|done]. }
    induction msgs as [|x rest IH]; intros pre m Hm; [exists m; by rw app_nil_r|].
    specialize (IH ltac:(intros y Hy; apply Hts; by right)). simpl. rw /rate_processor_receive /=.
    destruct (_ && _) eqn:Hc; [specialize (Hts x ltac:(by left)); apply andb_true_iff in Hc as [_ ?%Z.ltb_lt]; lia|].
    destruct (IH (pre ++ [x]) (rate_process_counter (counter_name x) (counter_inc_value x) m)) as (m' & Hrun & Hm').
    - destruct x as [k v ts]. by apply rate_process_counter_counts.
    - exists m'. rw Hrun. by rw -app_assoc in Hm'. }
  exists m. split_and!; [done|done|]. intros x Hx. rw /rate_processor_receive /=.
  assert ((base <? rm_timestamp x) && (RATE_INTERVAL_SECS * 1000000000 <? rm_timestamp x - base) = true) as ->.
  { apply andb_true_iff. rw !Z.ltb_lt. rw /RATE_INTERVAL_SECS in Hx |- *. lia. }
  eexists. split; [done|]. by rw hash_order_perm.
Qed.

(** ** Examples *)

#[local] Instance in_order : HashOrder := {| hash_order A l := l; hash_order_perm A l := Permutation_refl l |}.
#[local] Instance call_list : PrometheusCrate := {| Prometheus := list RecorderCall; prometheus_call c l := l ++ [c] |}.

(** The first mean of a timer is too small: one duration of 10 gives 5. *)
Example first_mean :
  let m := Metric_Time {| mi_key := "t"; mi_value := 10; mi_timestamp := -1 |} in
  let mean o := (λ a : MetricsAccumulator * _, te_mean <$> times_map (ac_readable_snapshot a.1) !! "t") <$> o in
  mean (accumulator_turn 7 [Some m] MetricsAccumulator_new) = Some (Some (Some 5)) ∧
  mean ('(a, _) ← accumulator_turn 7 [Some m] MetricsAccumulator_new; accumulator_turn 8 [Some m] a) = Some (Some (Some 10)).
Proof. by split; vm_compute. Qed.

Definition example_recorder : Recorder MetricsWorld := GlobalRecorder [MetricsRecorder; PrometheusRecorder].
Definition after_call (c : RecorderCall) (w : MetricsWorld) : MetricsWorld :=
  match run_call example_recorder c w with Some (_, w) => w | None => w end.
Definition example_calls : MetricsWorld :=
  after_call (RecordHistogram "t" (f64_of_Z 10)) (after_call (IncrementCounter "put_count" 3)
    (after_call (IncrementCounter "put_count" 2) (metrics_start 0 []))).
Definition counter_metric (value : Z) : Metric := Metric_Counter {| mi_key := "put_count"; mi_value := value; mi_timestamp := -1 |}.
Definition timer_metric : Metric := Metric_Time {| mi_key := "t"; mi_value := 10; mi_timestamp := -1 |}.
Definition example_ticked : MetricsWorld := accumulator_tick 100 example_calls.
Definition example_first : MetricsWorld :=
  accumulator_receive 100 0 (Some (counter_metric 2)) [counter_metric 3; timer_metric] example_ticked.
Definition example_second : MetricsWorld := accumulator_receive 100 1 (Some (counter_metric 3)) [timer_metric] example_first.
Definition example_third : MetricsWorld := accumulator_receive 100 2 (Some timer_metric) [] example_second.
Definition example_turn : MetricsWorld := accumulator_timeout example_third.

Definition example_events : list CollectorEvent :=
  ((((((([] ++ (Handed <$> pushed (IncrementCounter "put_count" 2))) ++ (Handed <$> pushed (IncrementCounter "put_count" 3))) ++
    (Handed <$> pushed (RecordHistogram "t" (f64_of_Z 10)))) ++ [Ticked 100]) ++ [Received]) ++ [Received]) ++ [Received]) ++ [TimedOut].

Lemma call_step events w c :
  is_Some (run_call example_recorder c w) → metrics_run example_recorder (metrics_start 0 []) events w →
  metrics_run example_recorder (metrics_start 0 []) (events ++ (Handed <$> pushed c)) (after_call c w).
Proof. intros [[[] w'] Hc] Hr. apply (mr_step _ _ _ w); [done|]. apply ms_call. by rw /after_call Hc. Qed.

Lemma example_run : metrics_run example_recorder (metrics_start 0 []) example_events example_turn.
Proof.
  rw /example_events /example_turn. refine (mr_step _ _ _ _ _ _ _ (ms_timeout _ _ 100 3 _)); [|by vm_compute].
  refine (mr_step _ _ _ _ _ _ _ (ms_receive _ _ _ _ _ _ _ _)); [|by vm_compute..].
  refine (mr_step _ _ _ _ _ _ _ (ms_receive _ _ _ _ _ _ _ _)); [|by vm_compute..].
  refine (mr_step _ _ _ _ _ _ _ (ms_receive _ _ _ _ _ _ _ _)); [|by vm_compute..].
  refine (mr_step _ _ _ _ _ _ _ (ms_tick _ _ _ _)); [|by vm_compute].
  do 3 (apply call_step; [vm_compute; by eexists|]). apply mr_refl.
Qed.

(** Two increments and a duration of 10, in one turn. *)
Lemma metrics_collected_witness :
  let s := ac_readable_snapshot (mw_accumulator example_turn) in
  published [(100, [counter_metric 2; counter_metric 3; timer_metric])] s ∧
  counter_value s "put_count" = Some 5 ∧ timer_mean s "t" = Some (Some 5).
Proof.
  destruct (metrics_collected true example_recorder 0 [] _ _ eq_refl example_run) as (_ & _ & _ & _ & Hpub & _).
  intros s. split; [|split; vm_compute; reflexivity].
  assert (cl_turns (log_of example_events) = [(100, [counter_metric 2; counter_metric 3; timer_metric])]) as Hturns
    by (vm_compute; reflexivity).
  rw -Hturns. exact Hpub.
Defined.
