(* ===== verification/MetricsExport.v ===== *)
(** * MetricsExport: names, reports and the connection to Graphite

    [bob-common/src/metrics/mod.rs] (names of the metrics, what is registered at the start,
    the prefix of the reports), [bob/src/api/metric_models.rs] (the answer of GET /metrics)
    and [exporters/graphite_exporter]: the text of a report and the socket that connects
    again by itself.  The network is the class [TcpNet]. *)

From Corelib Require Import ssreflect.
From stdpp Require Import base option list relations strings gmap numbers.
From Stdlib Require Import Strings.Ascii Strings.Byte ZArith Lia.
From S2P Require Import Prelude Data Text Errors Options Node ClusterConfig NodeConfig Float Metrics.

(** ** Names *)

Definition GRINDER_PUT_COUNTER : string := "cluster_grinder.put_count".
Definition GRINDER_PUT_ERROR_COUNT_COUNTER : string := "cluster_grinder.put_error_count".
Definition GRINDER_GET_COUNTER : string := "cluster_grinder.get_count".
Definition GRINDER_GET_ERROR_COUNT_COUNTER : string := "cluster_grinder.get_error_count".
Definition GRINDER_EXIST_COUNTER : string := "cluster_grinder.exist_count".
Definition GRINDER_EXIST_ERROR_COUNT_COUNTER : string := "cluster_grinder.exist_error_count".
Definition GRINDER_EXIST_ERROR_KEYS_COUNT_COUNTER : string := "cluster_grinder.exist_error_keys_count".
Definition GRINDER_EXIST_KEYS_COUNT_COUNTER : string := "cluster_grinder.exist_keys_count".
Definition GRINDER_DELETE_COUNTER : string := "cluster_grinder.delete_count".
Definition GRINDER_DELETE_ERROR_COUNT_COUNTER : string := "cluster_grinder.delete_error_count".
Definition CLIENT_PUT_COUNTER : string := "client.put_count".
Definition CLIENT_PUT_ERROR_COUNT_COUNTER : string := "client.put_error_count".
Definition CLIENT_GET_COUNTER : string := "client.get_count".
Definition CLIENT_GET_ERROR_COUNT_COUNTER : string := "client.get_error_count".
Definition CLIENT_EXIST_COUNTER : string := "client.exist_count".
Definition CLIENT_EXIST_ERROR_COUNT_COUNTER : string := "client.exist_error_count".
Definition CLIENT_EXIST_ERROR_KEYS_COUNT_COUNTER : string := "client.exist_error_keys_count".
Definition CLIENT_EXIST_KEYS_COUNT_COUNTER : string := "client.exist_keys_count".
Definition CLIENT_DELETE_COUNTER : string := "client.delete_count".
Definition CLIENT_DELETE_ERROR_COUNT_COUNTER : string := "client.delete_error_count".
Definition AVAILABLE_NODES_COUNT : string := "link_manager.nodes_number".
Definition BACKEND_STATE : string := "backend.backend_state".
Definition BLOBS_COUNT : string := "backend.blob_count".
Definition ALIEN_BLOBS_COUNT : string := "backend.alien_count".
Definition PEARL_COUNTERS : list string :=
  ["pearl.get_count"; "pearl.put_count"; "pearl.get_error_count"; "pearl.put_error_count";
   "pearl.delete_count"; "pearl.delete_error_count"; "pearl.exist_count"; "pearl.exist_error_count"].

Definition init_grinder : list RecorderCall := RegisterCounter <$>
  [GRINDER_GET_COUNTER; GRINDER_PUT_COUNTER; GRINDER_EXIST_COUNTER; GRINDER_DELETE_COUNTER; GRINDER_EXIST_KEYS_COUNT_COUNTER;
   GRINDER_GET_ERROR_COUNT_COUNTER; GRINDER_PUT_ERROR_COUNT_COUNTER; GRINDER_EXIST_ERROR_COUNT_COUNTER;
   GRINDER_DELETE_ERROR_COUNT_COUNTER; GRINDER_EXIST_ERROR_KEYS_COUNT_COUNTER].
Definition init_client : list RecorderCall := RegisterCounter <$>
  [CLIENT_EXIST_COUNTER; CLIENT_EXIST_ERROR_COUNT_COUNTER; CLIENT_EXIST_ERROR_KEYS_COUNT_COUNTER; CLIENT_EXIST_KEYS_COUNT_COUNTER;
   CLIENT_DELETE_COUNTER; CLIENT_DELETE_ERROR_COUNT_COUNTER; CLIENT_GET_COUNTER; CLIENT_GET_ERROR_COUNT_COUNTER;
   CLIENT_PUT_COUNTER; CLIENT_PUT_ERROR_COUNT_COUNTER].
Definition init_backend : list RecorderCall := RegisterGauge <$> [BACKEND_STATE; BLOBS_COUNT; ALIEN_BLOBS_COUNT].
Definition init_link_manager : list RecorderCall := [RegisterGauge AVAILABLE_NODES_COUNT].
Definition init_pearl : list RecorderCall := (λ name, IncrementCounter name 0) <$> PEARL_COUNTERS.

(** The names of the metrics of a [BobClient]. *)
Record PrefixedNames : Type := {
  pn_put_count : string; pn_put_timer : string; pn_put_error_count : string;
  pn_get_count : string; pn_get_timer : string; pn_get_error_count : string;
  pn_exist_count : string; pn_exist_timer : string; pn_exist_error_count : string;
  pn_delete_count : string; pn_delete_timer : string; pn_delete_error_count : string;
}.
Definition PrefixedNames_new (prefix : string) : PrefixedNames := {|
  pn_put_count := prefix +:+ ".put_count"; pn_put_timer := prefix +:+ ".put_timer"; pn_put_error_count := prefix +:+ ".put_error_count";
  pn_get_count := prefix +:+ ".get_count"; pn_get_timer := prefix +:+ ".get_timer"; pn_get_error_count := prefix +:+ ".get_error_count";
  pn_exist_count := prefix +:+ ".exist_count"; pn_exist_timer := prefix +:+ ".exist_timer"; pn_exist_error_count := prefix +:+ ".exist_error_count";
  pn_delete_count := prefix +:+ ".delete_count"; pn_delete_timer := prefix +:+ ".delete_timer"; pn_delete_error_count := prefix +:+ ".delete_error_count";
|}.

(** The four requests a client counts and times. *)
Inductive ClientRequest : Type := CR_Put | CR_Get | CR_Exist | CR_Delete.
Definition client_count (n : PrefixedNames) (r : ClientRequest) : RecorderCall :=
  IncrementCounter (match r with CR_Put => pn_put_count n | CR_Get => pn_get_count n | CR_Exist => pn_exist_count n | CR_Delete => pn_delete_count n end) 1.
Definition client_error_count (n : PrefixedNames) (r : ClientRequest) : RecorderCall :=
  IncrementCounter (match r with CR_Put => pn_put_error_count n | CR_Get => pn_get_error_count n
                    | CR_Exist => pn_exist_error_count n | CR_Delete => pn_delete_error_count n end) 1.
Definition client_timer_stop (n : PrefixedNames) (elapsed_nanos : Z) (r : ClientRequest) : RecorderCall :=
  RecordHistogram (match r with CR_Put => pn_put_timer n | CR_Get => pn_get_timer n | CR_Exist => pn_exist_timer n
                   | CR_Delete => pn_delete_timer n end) (f64_of_Z elapsed_nanos).

Definition CLIENTS_METRICS_DIR : string := "clients".
(** What [init_counters] makes besides the recorder: the names of the clients, and the calls
    that register metrics, in order. *)
Definition init_counters (local_address : string) : PrefixedNames * list RecorderCall :=
  (PrefixedNames_new (CLIENTS_METRICS_DIR +:+ "." +:+ str_replace "." "_" local_address),
   init_grinder ++ init_client ++ init_backend ++ init_link_manager ++ init_pearl).

(** ** The prefix of the reports *)

Fixpoint str_map (f : ascii → ascii) (s : string) : string :=
  match s with EmptyString => EmptyString | String c s' => String (f c) (str_map f s') end.

(** A substituted text, with ['_'] for spaces and dots *)
Definition sanitize (s : string) : string :=
  str_map (λ c, if bool_decide (c = " "%char) || bool_decide (c = "."%char) then "_"%char else c) s.

Definition resolve_prefix_pattern (pattern node_name local_address : string) (metrics : MetricsConfig) : string :=
  let pats_subs := [(LOCAL_ADDRESS, local_address); (NODE_NAME, node_name)] ++
                   match mc_name metrics with Some name => [(METRICS_NAME, name)] | None => [] end in
  foldl (λ pattern ps, str_replace ps.1 (sanitize ps.2) pattern) pattern pats_subs.

(** *** The exporter to start *)

(** Durations in nanoseconds. *)
Record GraphiteBuilder : Type := { gb_address : string; gb_interval : Z; gb_prefix : string }.
Definition GraphiteBuilder_new : GraphiteBuilder :=
  {| gb_address := "127.0.0.1:2003"; gb_interval := 1000000000; gb_prefix := "node.127_0_0_1" |}.
Definition gb_set_interval (interval : Z) (b : GraphiteBuilder) : GraphiteBuilder :=
  {| gb_address := gb_address b; gb_interval := interval; gb_prefix := gb_prefix b |}.
Definition gb_set_prefix (prefix : string) (b : GraphiteBuilder) : GraphiteBuilder :=
  {| gb_address := gb_address b; gb_interval := gb_interval b; gb_prefix := prefix |}.
Definition gb_set_address (address : string) (b : GraphiteBuilder) : GraphiteBuilder :=
  {| gb_address := address; gb_interval := gb_interval b; gb_prefix := gb_prefix b |}.

(** What [build_graphite] builds the exporter from; [None] aborts. *)
Definition build_graphite (node_name local_address : string) (metrics : MetricsConfig) : option GraphiteBuilder :=
  let prefix_pattern := default (NODE_NAME +:+ "." +:+ LOCAL_ADDRESS) (mc_prefix metrics) in
  let prefix := resolve_prefix_pattern prefix_pattern node_name local_address metrics in
  address ← mc_graphite metrics;
  Some (gb_set_prefix prefix (gb_set_interval 1000000000 (gb_set_address address GraphiteBuilder_new))).

(** ** The answer of GET /metrics *)

Record MetricsEntryModel : Type := { me_value : Z; me_timestamp : Z }.
Definition entry_of_counter (e : CounterEntry) : MetricsEntryModel := {| me_value := ce_sum e; me_timestamp := ce_timestamp e |}.
Definition entry_of_gauge (e : GaugeEntry) : MetricsEntryModel := {| me_value := ge_value e; me_timestamp := ge_timestamp e |}.
Definition entry_of_time (e : TimeEntry) : MetricsEntryModel :=
  {| me_value := default 0 (te_mean e); me_timestamp := te_timestamp e |}.
(** Collected from the three maps in this order: a later entry replaces one of the same name. *)
Definition MetricsSnapshotModel_from (s : MetricsSnapshot) : gmap string MetricsEntryModel :=
  (entry_of_time <$> times_map s) ∪ ((entry_of_gauge <$> gauges_map s) ∪ (entry_of_counter <$> counters_map s)).

(** ** The text of a report *)

(** [{}] of an [i64] *)
Definition fmt_i64 (z : Z) : string := if z <? 0 then "-" +:+ fmt_dec (- z) else fmt_dec z.
Definition newline : string := String (ascii_of_N 10) EmptyString.

Definition graphite_line (prefix key : string) (value ts : Z) : string :=
  prefix +:+ "." +:+ key +:+ " " +:+ fmt_dec value +:+ " " +:+ fmt_i64 ts +:+ newline.

Section report.
Context `{!HashOrder}.

Definition flush_entries {A} (value : A → Z) (m : gmap string A) (res_string prefix : string) (ts : Z) : string :=
  foldl (λ res kv, res +:+ graphite_line prefix kv.1 (value kv.2) ts) res_string (hash_order (map_to_list m)).
Definition flush_counters : gmap string CounterEntry → string → string → Z → string := flush_entries ce_sum.
Definition flush_gauges : gmap string GaugeEntry → string → string → Z → string := flush_entries ge_value.
Definition flush_times : gmap string TimeEntry → string → string → Z → string := flush_entries (λ e, default 0 (te_mean e)).

(** What one turn of [send_metrics] sends. *)
Definition metrics_report (s : MetricsSnapshot) (prefix : string) (ts : Z) : string :=
  let res_string := flush_counters (counters_map s) EmptyString prefix ts in
  let res_string := flush_gauges (gauges_map s) res_string prefix ts in
  flush_times (times_map s) res_string prefix ts.
End report.

(** ** A report is read back *)

(** The entries of a report, in its order. *)
Definition report_entries `{!HashOrder} (s : MetricsSnapshot) : list (string * Z) :=
  (prod_map id ce_sum <$> hash_order (map_to_list (counters_map s))) ++
  (prod_map id ge_value <$> hash_order (map_to_list (gauges_map s))) ++
  (prod_map id (λ e, default 0 (te_mean e)) <$> hash_order (map_to_list (times_map s))).

(** A line of the plaintext protocol of Graphite: a path, a value and a time. *)
Definition parse_graphite (line : string) : option (string * Z * Z) :=
  match split_whitespace line with
  | [path; value; time] => v ← parse_u64 value; t ← parse_u64 time; Some (path, v, t)
  | _ => None
  end.

Definition line_body (prefix : string) (ts : Z) (kv : string * Z) : string :=
  (prefix +:+ "." +:+ kv.1) +:+ " " +:+ fmt_dec kv.2 +:+ " " +:+ fmt_i64 ts.

Lemma graphite_line_body prefix ts k v : graphite_line prefix k v ts = line_body prefix ts (k, v) +:+ newline.
Proof. by rw /graphite_line /line_body !append_assoc. Qed.

Definition report_text (prefix : string) (ts : Z) (entries : list (string * Z)) : string :=
  foldr (λ kv acc, (line_body prefix ts kv +:+ newline) +:+ acc) EmptyString entries.

Lemma report_text_app prefix ts l l' : report_text prefix ts (l ++ l') = report_text prefix ts l +:+ report_text prefix ts l'.
Proof. induction l as [|kv l IH]; [done|]. by rw /= IH !append_assoc. Qed.

Lemma flush_entries_text `{!HashOrder} {A} (value : A → Z) m res prefix ts :
  flush_entries value m res prefix ts = res +:+ report_text prefix ts (prod_map id value <$> hash_order (map_to_list m)).
Proof.
  rw /flush_entries. generalize (hash_order (map_to_list m)). intros l. revert res.
  induction l as [|[k a] l IH]; intros res; [by rw append_nil_r|]. cbn [foldl]. rw IH graphite_line_body append_assoc. done.
Qed.

Lemma metrics_report_text `{!HashOrder} s prefix ts : metrics_report s prefix ts = report_text prefix ts (report_entries s).
Proof. rw /metrics_report /flush_times /flush_gauges /flush_counters !flush_entries_text /report_entries !report_text_app. by rw append_assoc. Qed.

Lemma plain_append s t : plain (s +:+ t) = plain s && plain t.
Proof. induction s as [|c s IH]; [done|]. rw append_cons /= IH. by destruct (plain_char c). Qed.

(** No white space, and no newline, in the parts of a line. *)
Lemma plain_no_newline s : plain s = true → no_sep (ascii_of_N 10) s.
Proof.
  induction s as [|c s IH]; intros Hs i x; [by destruct i|]. simpl in Hs. apply andb_true_iff in Hs as [Hc Hs].
  destruct i as [|i]; simpl; [|by apply (IH Hs i)]. intros [= <-] ->. done.
Qed.

Lemma no_sep_append sep s t : no_sep sep s → no_sep sep t → no_sep sep (s +:+ t).
Proof.
  intros Hs Ht. induction s as [|c s IH]; [done|]. intros [|i] x; rw append_cons /=; [apply (Hs 0%nat)|].
  apply IH. intros j y. apply (Hs (S j)).
Qed.

(** The parts of a line. *)
Section lines.
Context (prefix : string) (ts : Z).
Context (Hprefix : plain prefix = true) (Hts : 0 ≤ ts < 2 ^ 63).

Lemma line_parses k v : plain k = true → u64 v → parse_graphite (line_body prefix ts (k, v)) = Some (prefix +:+ "." +:+ k, v, ts).
Proof using Hprefix Hts.
  intros Hk Hv. rw /u64 in Hv. rw /parse_graphite /line_body /=. rw /fmt_i64. destruct (Z.ltb_spec ts 0); [lia|].
  rw split_whitespace_word; [by rw !plain_append Hprefix Hk|by destruct prefix|].
  rw split_whitespace_word; [apply fmt_dec_plain; lia|apply fmt_dec_plain; lia|].
  rw split_whitespace_one; [apply fmt_dec_plain; lia|apply fmt_dec_plain; lia|].
  rw /parse_u64 !parse_fmt_dec_lt; [lia..|done].
Qed.

Lemma line_no_newline k v : plain k = true → 0 ≤ v → no_sep (ascii_of_N 10) (line_body prefix ts (k, v)).
Proof using Hprefix Hts.
  intros Hk Hv. rw /line_body /fmt_i64 /=. destruct (Z.ltb_spec ts 0); [lia|].
  assert (no_sep (ascii_of_N 10) " ") as Hsp by (intros [|[|i]] c; [by intros [= <-]|done|done]).
  repeat apply no_sep_append; try done; apply plain_no_newline; try done; apply fmt_dec_plain; lia.
Qed.

Lemma report_split entries :
  Forall (λ kv, plain kv.1 = true ∧ u64 kv.2) entries →
  split_char (ascii_of_N 10) (report_text prefix ts entries) = (line_body prefix ts <$> entries) ++ [EmptyString].
Proof using Hprefix Hts.
  rw /split_char. induction 1 as [|[k v] entries [Hk Hv] _ IH]; [done|]. rw /u64 /= in Hk Hv |- *.
  rw append_assoc split_go_app; [apply line_no_newline; [done|lia]|]. simpl. by rw IH.
Qed.
End lines.

(** ** The prefix has no white space *)

Lemma any_char_append f s t : any_char f (s +:+ t) = any_char f s || any_char f t.
Proof. induction s as [|c s IH]; [done|]. by rw append_cons /= IH orb_assoc. Qed.

Lemma any_char_replace f from to s skip :
  any_char f to = false → any_char f s = false → any_char f (replace_go from to s skip) = false.
Proof.
  intros Hto. revert skip. induction s as [|c s IH]; intros skip Hs; [done|]. simpl in Hs. apply orb_false_iff in Hs as [Hc Hs].
  destruct skip as [|skip]; [|by apply IH]. cbn [replace_go]. case_match; [by rw any_char_append Hto IH|]. by rw /= Hc IH.
Qed.

(** What is left of a match is a part of the pattern. *)
Lemma any_char_replaced f x from to s q :
  any_char f (String x from) = false → any_char f q = false → is_prefix q s = true →
  any_char f (replace_go (String x from) to s (String.length q)) = false → any_char f s = false.
Proof.
  intros Hf. revert q. induction s as [|c s IH]; intros q Hq Hp Hr; [done|]. destruct q as [|y q]; simpl in Hr |- *.
  - destruct (bool_decide (x = c) && is_prefix from s) eqn:Hfrom.
    + apply andb_true_iff in Hfrom as [Hx%bool_decide_eq_true Hfrom]. subst c. simpl in Hf. apply orb_false_iff in Hf as [-> Hf].
      rw any_char_append Nat.sub_0_r in Hr. apply orb_false_iff in Hr as [_ Hr]. by apply (IH from).
    + simpl in Hr. apply orb_false_iff in Hr as [-> Hr]. by apply (IH EmptyString).
  - simpl in Hq, Hp. apply orb_false_iff in Hq as [Hy Hq]. apply andb_true_iff in Hp as [->%bool_decide_eq_true Hp].
    rw Hy. by apply (IH q).
Qed.

Lemma any_char_str_replaced f x from to s :
  any_char f (String x from) = false → any_char f (str_replace (String x from) to s) = false → any_char f s = false.
Proof. intros Hf Hr. by apply (any_char_replaced f x from to s EmptyString). Qed.

Definition not_plain (c : ascii) : bool := negb (plain_char c).
Lemma plain_any_char s : plain s = negb (any_char not_plain s).
Proof. induction s as [|c s IH]; [done|]. rw /= IH negb_orb /not_plain. by rw negb_involutive. Qed.

(** Printable ASCII and spaces. *)
Definition printable (s : string) : Prop := any_char (λ c, not_plain c && negb (bool_decide (c = " "%char))) s = false.

Lemma sanitize_plain s : printable s → any_char not_plain (sanitize s) = false.
Proof.
  rw /printable. induction s as [|c s IH]; [done|]. simpl. intros [Hc Hs]%orb_false_iff. rw IH // orb_false_r.
  destruct (bool_decide (c = " "%char)) eqn:Hsp; [done|]. simpl in Hc |- *. rw andb_true_r in Hc. by case_match.
Qed.

Lemma checked_prefix_plain m pref : mc_prefix m = Some pref → mc_check_prefix m = Ok tt → any_char not_plain pref = false.
Proof.
  rw /mc_check_prefix. intros ->. set (checked := if bool_decide (is_Some (mc_name m)) then _ else _). intros Hok.
  assert (any_char not_plain checked = false) as Hc.
  { rw /check_graphite_prefix in Hok. destruct (any_char (λ c, negb (valid_prefix_char c)) checked) eqn:Hv; [by rw orb_true_r in Hok|].
    clear Hok. induction checked as [|c s IH]; [done|]. simpl in Hv |- *. apply orb_false_iff in Hv as [Hc Hs]. rw IH // orb_false_r.
    rw /not_plain /plain_char. rw negb_false_iff /valid_prefix_char in Hc. destruct (33 <=? byte_of_char c) eqn:H1, (byte_of_char c <? 128) eqn:H2; lia. }
  assert (any_char not_plain (foldl (λ acc field, str_replace field FIELD_PLACEHOLDER acc) pref [LOCAL_ADDRESS; NODE_NAME]) = false) as Hf.
  { subst checked. destruct (bool_decide _); [|done]. by eapply any_char_str_replaced; [|exact Hc]. }
  cbn [foldl] in Hf. assert (any_char not_plain (str_replace LOCAL_ADDRESS FIELD_PLACEHOLDER pref) = false) as Hl.
  { by eapply any_char_str_replaced; [|exact Hf]. }
  by eapply any_char_str_replaced; [|exact Hl].
Qed.

Lemma resolved_plain pattern node_name local_address m :
  any_char not_plain pattern = false → printable node_name → printable local_address → (∀ name, mc_name m = Some name → printable name) →
  plain (resolve_prefix_pattern pattern node_name local_address m) = true.
Proof.
  intros Hp Hn Ha Hm. rw plain_any_char negb_true_iff /resolve_prefix_pattern foldl_app /=.
  assert (any_char not_plain (str_replace NODE_NAME (sanitize node_name) (str_replace LOCAL_ADDRESS (sanitize local_address) pattern)) = false) as Hb.
  { repeat apply any_char_replace; try done; by apply sanitize_plain. }
  destruct (mc_name m) as [name|]; [|done]. simpl. apply any_char_replace; [|done]. by apply sanitize_plain, Hm.
Qed.

(** Reports to Graphite can be read back: with a validated prefix and printable names, the
    exporter starts with a prefix without white space, and every report splits into one line
    for every counter, gauge and timer of the snapshot, each with its path, its value and the
    time. *)
Theorem graphite_report_parses `{!HashOrder} m node_name local_address address s ts :
  mc_check_prefix m = Ok tt → mc_graphite m = Some address →
  printable node_name → printable local_address → (∀ name, mc_name m = Some name → printable name) →
  0 ≤ ts < 2 ^ 63 → Forall (λ kv, plain kv.1 = true ∧ u64 kv.2) (report_entries s) →
  ∃ b, build_graphite node_name local_address m = Some b ∧ gb_address b = address ∧ plain (gb_prefix b) = true ∧
    ∃ lines, split_char (ascii_of_N 10) (metrics_report s (gb_prefix b) ts) = lines ++ [EmptyString] ∧
      parse_graphite <$> lines = (λ kv, Some (gb_prefix b +:+ "." +:+ kv.1, kv.2, ts)) <$> report_entries s.
Proof.
  intros Hc Ha Hn Hl Hm Hts Hs. rw /build_graphite Ha /=. eexists. split; [done|].
  assert (plain (resolve_prefix_pattern (default (NODE_NAME +:+ "." +:+ LOCAL_ADDRESS) (mc_prefix m)) node_name local_address m) = true) as Hp.
  { apply resolved_plain; try done. destruct (mc_prefix m) as [pref|] eqn:Hpref; [|done]. by eapply checked_prefix_plain. }
  split; [done|]. split; [done|]. eexists. rw metrics_report_text. split; [by apply report_split|]. rw -list_fmap_compose.
  apply list_fmap_ext. intros i [k v] Hi. apply (Forall_lookup_1 _ _ _ _ Hs) in Hi as [Hk Hv]. simpl. by rw line_parses.
Qed.

#[local] Existing Instance in_order.

Definition example_snapshot : MetricsSnapshot := {|
  counters_map := {[ "cluster_grinder.put_count" := {| ce_sum := 5; ce_timestamp := 7 |} ]};
  gauges_map := {[ BLOBS_COUNT := {| ge_value := 2; ge_timestamp := 7 |} ]}; times_map := ∅ |}.
Definition example_metrics : MetricsConfig := {|
  mc_name := Some "bob"; mc_prometheus_addr := EmptyString; mc_graphite_enabled := true; mc_graphite := Some "127.0.0.1:2003";
  mc_prometheus_enabled := false; mc_prefix := Some "{metrics_name}.{node_name}" |}.

Lemma example_entries : report_entries example_snapshot = [("cluster_grinder.put_count", 5); (BLOBS_COUNT, 2)].
Proof. reflexivity. Qed.

Lemma graphite_report_parses_witness :
  ∃ lines, gb_prefix <$> build_graphite "node 1" "127.0.0.1" example_metrics = Some "bob.node_1" ∧
    split_char (ascii_of_N 10) (metrics_report example_snapshot "bob.node_1" 1700000000) = lines ++ [EmptyString] ∧
    parse_graphite <$> lines =
      [Some ("bob.node_1.cluster_grinder.put_count", 5, 1700000000); Some ("bob.node_1.backend.blob_count", 2, 1700000000)].
Proof.
  assert (gb_prefix <$> build_graphite "node 1" "127.0.0.1" example_metrics = Some "bob.node_1") as Hb by reflexivity.
  destruct (graphite_report_parses example_metrics "node 1" "127.0.0.1" "127.0.0.1:2003" example_snapshot 1700000000)
    as (b & Hbuild & _ & _ & lines & Hsplit & Hlines); [done|done|by vm_compute|by vm_compute|intros name [= <-]; by vm_compute|done| |].
  - rw example_entries. repeat constructor; done.
  - rw Hbuild in Hb. injection Hb as Hb. rw Hb in Hsplit Hlines. exists lines. split; [by rw Hbuild /= Hb|]. split; [exact Hsplit|].
    rw example_entries in Hlines. exact Hlines.
Defined.
