(* ===== verification/GraphiteSocket.v ===== *)
(** * GraphiteSocket: the connection to Graphite

    [bob-common/src/metrics/exporters/graphite_exporter/retry_socket.rs] and the tasks of
    [send.rs].  The socket holds a stream, or the receiver of a task that connects.  The
    network is the class [TcpNet]; the connecting tasks and the sender interleave as the
    steps of [socket_step]. *)

From Corelib Require Import ssreflect.
From stdpp Require Import base option list relations strings gmap numbers.
From Stdlib Require Import Strings.Ascii Strings.Byte ZArith Lia.
From S2P Require Import Prelude Data Text Errors Options Node ClusterConfig NodeConfig Float Metrics MetricsExport.

(** [std::io::Error], by its kind. *)
Inductive IoKind : Type := IO_BrokenPipe | IO_NotConnected | IO_Other | IO_Kind (n : nat).
#[global] Instance io_kind_eq : EqDecision IoKind.
Proof. solve_decision. Defined.
Record TcpError : Type := { te_kind : IoKind; te_text : string }.

(** An open stream; its calls always return. *)
Class TcpNet (W : Type) := {
  TcpStream : Type;
  tcp_write_all : TcpStream → list byte → W → result unit TcpError * W;
  tcp_flush : TcpStream → W → result unit TcpError * W;
}.

Definition MIN_RECONNECT_DELAY_MS : Z := 50.
Definition MAX_RECONNECT_DELAY_MS : Z := 10000.

Section socket.
Context {W : Type} `{TcpNet W}.

(** A task that connects, with the channel it sends the stream through: it tries again after a
    delay, has sent the stream, was dropped without sending, or its stream was taken. *)
Inductive ConnectTask : Type :=
| CT_Connecting (delay : Z)
| CT_Sent (s : TcpStream)
| CT_Dropped
| CT_Taken.

Inductive SocketState : Type :=
| SS_Socket (s : TcpStream)
| SS_Task (id : nat).

Record SocketWorld : Type := { sw_socket : SocketState; sw_tasks : list ConnectTask; sw_net : W }.

Definition set_socket (s : SocketState) (w : SocketWorld) : SocketWorld :=
  {| sw_socket := s; sw_tasks := sw_tasks w; sw_net := sw_net w |}.
Definition set_task (id : nat) (t : ConnectTask) (w : SocketWorld) : SocketWorld :=
  {| sw_socket := sw_socket w; sw_tasks := <[id := t]> (sw_tasks w); sw_net := sw_net w |}.

(** [spawn_task]: the receiver of the new task, whose number is that of the tasks before it. *)
Definition spawn_task : M SocketWorld nat := λ w,
  Some (length (sw_tasks w), {| sw_socket := sw_socket w; sw_tasks := sw_tasks w ++ [CT_Connecting MIN_RECONNECT_DELAY_MS]; sw_net := sw_net w |}).

Definition RetrySocket_new (net : W) : SocketWorld :=
  {| sw_socket := SS_Task 0; sw_tasks := [CT_Connecting MIN_RECONNECT_DELAY_MS]; sw_net := net |}.

(** One turn of the loop of a task: [connect] gave a stream or failed. *)
Definition connect_turn (stream : option TcpStream) (delay : Z) : ConnectTask :=
  match stream with
  | Some s => CT_Sent s
  | None => CT_Connecting (Z.min MAX_RECONNECT_DELAY_MS (Z.shiftl delay 1))
  end.

Definition not_connected : TcpError :=
  {| te_kind := IO_NotConnected; te_text := "Not connected, connection establishment task is in progress" |}.
Definition unreachable_code : TcpError := {| te_kind := IO_Other; te_text := "This code is unreachable" |}.

Definition check_connection : M SocketWorld (result unit TcpError) :=
  socket ← gets sw_socket;
  match socket with
  | SS_Socket _ => mret (Ok tt)
  | SS_Task id =>
      tasks ← gets sw_tasks;
      match tasks !! id with
      | Some (CT_Sent stream) => _ ← modify (λ w, set_socket (SS_Socket stream) (set_task id CT_Taken w)); mret (Ok tt)
      | Some (CT_Connecting _) => mret (Err not_connected)
      | _ => id ← spawn_task; _ ← modify (set_socket (SS_Task id)); mret (Err not_connected)
      end
  end.

(** [write_all] and [flush]: the call of the stream behind the check. *)
Definition on_stream (call : TcpStream → W → result unit TcpError * W) : M SocketWorld (result unit TcpError) :=
  r ← check_connection;
  match r with
  | Err e => mret (Err e)
  | Ok _ =>
      socket ← gets sw_socket;
      match socket with
      | SS_Socket stream =>
          r ← (λ w, let '(r, net) := call stream (sw_net w) in Some (r, {| sw_socket := sw_socket w; sw_tasks := sw_tasks w; sw_net := net |}));
          match r with
          | Ok _ => mret (Ok tt)
          | Err e =>
              if decide (te_kind e = IO_BrokenPipe) then id ← spawn_task; _ ← modify (set_socket (SS_Task id)); mret (Err e)
              else mret (Err e)
          end
      | SS_Task _ => mret (Err unreachable_code)
      end
  end.
Definition socket_write_all (buf : list byte) : M SocketWorld (result unit TcpError) := on_stream (λ s, tcp_write_all s buf).
Definition socket_flush : M SocketWorld (result unit TcpError) := on_stream tcp_flush.

(** One report in [tcp_sender_task]; a report that cannot be written is dropped. *)
Definition tcp_sender_turn (data : string) : M SocketWorld unit :=
  r ← socket_write_all (bytes_of_string data);
  match r with
  | Err _ => mret tt
  | Ok _ => _ ← socket_flush; mret tt
  end.
Definition tcp_sender_task (reports : list string) : M SocketWorld unit := for_each (λ _ data, tcp_sender_turn data) tt reports.

(** The socket of [spawn_tcp_sender_task]; [None]: the address does not parse. *)
Definition spawn_tcp_sender_task `{ConfigParsers} (address : string) (net : W) : option SocketWorld :=
  match parse_socket_addr address with Ok _ => Some (RetrySocket_new net) | Err _ => None end.

(** What happens to the socket, one step at a time: a turn of a task, a task that is dropped,
    a report. *)
Inductive socket_step (w : SocketWorld) : SocketWorld → Prop :=
| ss_turn id delay stream : sw_tasks w !! id = Some (CT_Connecting delay) → socket_step w (set_task id (connect_turn stream delay) w)
| ss_drop id delay : sw_tasks w !! id = Some (CT_Connecting delay) → socket_step w (set_task id CT_Dropped w)
| ss_report data w' : tcp_sender_turn data w = Some (tt, w') → socket_step w w'.

(** ** What the socket does *)

Definition pending (t : ConnectTask) : bool := match t with CT_Connecting _ | CT_Sent _ => true | _ => false end.
Definition delay_ok (t : ConnectTask) : Prop :=
  match t with CT_Connecting d => MIN_RECONNECT_DELAY_MS ≤ d ≤ MAX_RECONNECT_DELAY_MS | _ => True end.

(** Without a connection one task, and only that of the socket, can bring one; with a
    connection no task is left. *)
Record socket_ok (w : SocketWorld) : Prop := {
  so_task id : sw_socket w = SS_Task id → ∃ t, sw_tasks w !! id = Some t ∧ t ≠ CT_Taken;
  so_pending id t : sw_tasks w !! id = Some t → pending t = true → sw_socket w = SS_Task id;
  so_delays id t : sw_tasks w !! id = Some t → delay_ok t;
}.

Lemma socket_ok_new net : socket_ok (RetrySocket_new net).
Proof.
  split; simpl.
  - intros id [= <-]. by eexists.
  - by intros [|id] t [= <-].
  - intros [|id] t; [intros [= <-]; rw /delay_ok /MIN_RECONNECT_DELAY_MS /MAX_RECONNECT_DELAY_MS; lia|done].
Qed.

(** A new task takes the place of the stream, or of the task that was dropped. *)
Definition reconnecting (w : SocketWorld) (net : W) : SocketWorld :=
  {| sw_socket := SS_Task (length (sw_tasks w)); sw_tasks := sw_tasks w ++ [CT_Connecting MIN_RECONNECT_DELAY_MS]; sw_net := net |}.

Lemma reconnecting_ok w net :
  (∀ id t, sw_tasks w !! id = Some t → pending t = false) → (∀ id t, sw_tasks w !! id = Some t → delay_ok t) →
  socket_ok (reconnecting w net).
Proof.
  intros Hp Hd. split; simpl.
  - intros id [= <-]. rw lookup_app_r // Nat.sub_diag. by eexists.
  - intros id t Hl Ht. apply lookup_app_Some in Hl as [Hl|[Hlen Hl]]; [by rw (Hp _ _ Hl) in Ht|].
    apply list_lookup_singleton_Some in Hl as [Hl _]. f_equal. lia.
  - intros id t Hl. apply lookup_app_Some in Hl as [Hl|[_ Hl]]; [by eapply Hd|].
    apply list_lookup_singleton_Some in Hl as [_ <-]. rw /delay_ok /MIN_RECONNECT_DELAY_MS /MAX_RECONNECT_DELAY_MS. lia.
Qed.

(** The call of a stream that is in place: a broken pipe starts a new task. *)
Definition stream_call (call : TcpStream → W → result unit TcpError * W) (s : TcpStream) (w : SocketWorld) : result unit TcpError * SocketWorld :=
  let '(r, net) := call s (sw_net w) in
  (r, match r with
      | Err e => if decide (te_kind e = IO_BrokenPipe) then reconnecting w net
                 else {| sw_socket := SS_Socket s; sw_tasks := sw_tasks w; sw_net := net |}
      | Ok _ => {| sw_socket := SS_Socket s; sw_tasks := sw_tasks w; sw_net := net |}
      end).

(** The answer of a call and the world after it, by the state of the socket: a stream is
    called, one that has been sent is taken first; a task at work is left alone, and one that
    was dropped is replaced. *)
Definition call_outcome (call : TcpStream → W → result unit TcpError * W) (w : SocketWorld) : result unit TcpError * SocketWorld :=
  match sw_socket w with
  | SS_Socket s => stream_call call s w
  | SS_Task id =>
      match sw_tasks w !! id with
      | Some (CT_Sent s) => stream_call call s (set_task id CT_Taken w)
      | Some (CT_Connecting _) => (Err not_connected, w)
      | _ => (Err not_connected, reconnecting w (sw_net w))
      end
  end.

Lemma stream_call_run call s w :
  sw_socket w = SS_Socket s →
  (socket ← gets sw_socket;
   match socket with
   | SS_Socket stream =>
       r ← (λ w, let '(r, net) := call stream (sw_net w) in Some (r, {| sw_socket := sw_socket w; sw_tasks := sw_tasks w; sw_net := net |}));
       match r with
       | Ok _ => mret (Ok tt)
       | Err e =>
           if decide (te_kind e = IO_BrokenPipe) then id ← spawn_task; _ ← modify (set_socket (SS_Task id)); mret (Err e)
           else mret (Err e)
       end
   | SS_Task _ => mret (Err unreachable_code)
   end) w = Some (stream_call call s w).
Proof.
  intros Hs. rw /gets /mbind /M_bind /= Hs /stream_call. destruct (call s (sw_net w)) as [[[]|e] net]; [|case_decide]; by rw /= ?Hs.
Qed.

Lemma check_connection_run w :
  check_connection w = Some (match sw_socket w with
    | SS_Socket _ => (Ok tt, w)
    | SS_Task id =>
        match sw_tasks w !! id with
        | Some (CT_Sent s) => (Ok tt, set_socket (SS_Socket s) (set_task id CT_Taken w))
        | Some (CT_Connecting _) => (Err not_connected, w)
        | _ => (Err not_connected, reconnecting w (sw_net w))
        end
    end).
Proof. rw /check_connection /gets /modify /mbind /M_bind /=. destruct (sw_socket w) as [s|id]; [done|]. by destruct (sw_tasks w !! id) as [[]|]. Qed.

(** Every call returns, and never with the error of the branch the code calls unreachable. *)
Lemma on_stream_spec call w : on_stream call w = Some (call_outcome call w).
Proof.
  rw /on_stream /call_outcome. pose proof (check_connection_run w) as Hc. destruct (sw_socket w) as [s|id] eqn:Hs.
  - rw (bind_run _ _ _ _ _ Hc). by apply stream_call_run.
  - destruct (sw_tasks w !! id) as [[d|s| |]|]; rw (bind_run _ _ _ _ _ Hc); try done. by rw (stream_call_run call s).
Qed.

Lemma stream_call_ok call s w :
  (∀ id t, sw_tasks w !! id = Some t → pending t = false) → (∀ id t, sw_tasks w !! id = Some t → delay_ok t) →
  socket_ok (stream_call call s w).2.
Proof.
  intros Hp Hd. rw /stream_call. destruct (call s (sw_net w)) as [r net]. simpl.
  assert (socket_ok {| sw_socket := SS_Socket s; sw_tasks := sw_tasks w; sw_net := net |}) as Hs.
  { split; simpl; [done| |done]. intros id t Hl Ht. by rw (Hp _ _ Hl) in Ht. }
  destruct r as [|e]; [done|]. case_decide; [by apply reconnecting_ok|done].
Qed.

Lemma call_outcome_ok call w : socket_ok w → socket_ok (call_outcome call w).2.
Proof.
  intros Hw. pose proof Hw as [Ht Hp Hd]. rw /call_outcome. destruct (sw_socket w) as [s|id] eqn:Hs.
  - apply stream_call_ok; [|done]. intros i t Hl. destruct (pending t) eqn:Hpt; [|done]. by specialize (Hp i t Hl Hpt).
  - destruct (Ht id eq_refl) as (t & Hl & Hne). rw Hl. destruct t as [d|s| |]; [done| | |done].
    + apply stream_call_ok; simpl; intros i t Hi; apply list_lookup_insert_Some in Hi as [(<- & <- & _)|[Hne' Hi]]; try done.
      * destruct (pending t) eqn:Hpt; [|done]. specialize (Hp i t Hi Hpt). congruence.
      * by eapply Hd.
    + apply reconnecting_ok; [|done]. intros i t Hi. destruct (pending t) eqn:Hpt; [|done]. specialize (Hp i t Hi Hpt).
      injection Hp as <-. rw Hi in Hl. by injection Hl as ->.
Qed.

Definition socket_reports (data : string) (w : SocketWorld) : SocketWorld :=
  match call_outcome (λ s, tcp_write_all s (bytes_of_string data)) w with
  | (Err _, w) => w
  | (Ok _, w) => (call_outcome tcp_flush w).2
  end.

Lemma tcp_sender_turn_run data w : tcp_sender_turn data w = Some (tt, socket_reports data w).
Proof.
  rw /tcp_sender_turn /socket_write_all /socket_reports /mbind /M_bind on_stream_spec.
  destruct (call_outcome (λ s, tcp_write_all s (bytes_of_string data)) w) as [[[]|e] w1]; [|done].
  rw /socket_flush on_stream_spec. by destruct (call_outcome tcp_flush w1).
Qed.

Lemma socket_reports_ok data w : socket_ok w → socket_ok (socket_reports data w).
Proof.
  intros Hw. rw /socket_reports. pose proof (call_outcome_ok (λ s, tcp_write_all s (bytes_of_string data)) w Hw) as Ho.
  destruct (call_outcome _ w) as [[[]|e] w1]; [by apply call_outcome_ok|done].
Qed.

Lemma task_turn_ok id delay t w :
  socket_ok w → sw_tasks w !! id = Some (CT_Connecting delay) → t ≠ CT_Taken → delay_ok t → socket_ok (set_task id t w).
Proof.
  intros [Ht Hp Hd] Hl Hne Hdelay. split; simpl.
  - intros i Hi. destruct (decide (i = id)) as [->|Hid].
    + exists t. split; [|done]. apply list_lookup_insert_eq. by eapply lookup_lt_Some.
    + rw list_lookup_insert_ne //. by apply Ht.
  - intros i t' Hi Hpt. apply list_lookup_insert_Some in Hi as [(<- & _ & _)|[_ Hi]]; [by eapply (Hp id (CT_Connecting delay))|by eapply Hp].
  - intros i t' Hi. apply list_lookup_insert_Some in Hi as [(<- & <- & _)|[_ Hi]]; [done|by eapply Hd].
Qed.

Lemma socket_step_ok w w' : socket_ok w → socket_step w w' → socket_ok w'.
Proof.
  intros Hw Hs. destruct Hs as [id delay stream Hl|id delay Hl|data w' Hr].
  - eapply task_turn_ok; [done|done|by destruct stream|]. pose proof (so_delays w Hw id _ Hl) as Hd. simpl in Hd.
    destruct stream; [done|]. simpl. rw Z.shiftl_mul_pow2 //. rw /MIN_RECONNECT_DELAY_MS /MAX_RECONNECT_DELAY_MS in Hd |- *. lia.
  - by eapply task_turn_ok.
  - rw tcp_sender_turn_run in Hr. injection Hr as <-. by apply socket_reports_ok.
Qed.

(** C38: However connections, failures and reports interleave: the sender never aborts; without a
    connection there is the task of the socket, and no other, to bring one (or it was dropped,
    and the next report replaces it), with a delay within its bounds; with a connection no task is
    left; and a report is written exactly when a stream is in place or has been sent. *)
Theorem retry_socket_correct net w :
  rtc socket_step (RetrySocket_new net) w →
  socket_ok w ∧
  (∀ reports, ∃ w', tcp_sender_task reports w = Some (tt, w') ∧ socket_ok w') ∧
  ∀ data, socket_write_all (bytes_of_string data) w = Some (call_outcome (λ s, tcp_write_all s (bytes_of_string data)) w).
Proof.
  intros Hr. assert (socket_ok w) as Hw.
  { pose proof (socket_ok_new net) as Hn. revert Hn. induction Hr as [|w1 w2 w3 Hs _ IH]; [done|]. intros Hw1. by apply IH, (socket_step_ok w1). }
  split; [done|]. split; [|intros; apply on_stream_spec]. intros reports. clear Hr. revert w Hw.
  induction reports as [|data reports IH]; intros w Hw; [by exists w|]. rw /tcp_sender_task /=.
  rw (bind_run _ _ _ _ _ (tcp_sender_turn_run data w)). by apply IH, socket_reports_ok.
Qed.
End socket.

(** A validated configuration with Graphite enabled starts the exporter: neither [expect] of
    the address aborts. *)
Lemma graphite_starts {W} `{TcpNet W, ConfigParsers} m node_name local_address (net : W) :
  mc_graphite_enabled m = true → mc_check_unset m = Ok tt → mc_check_graphite_addr m = Some (Ok tt) →
  ∃ b, build_graphite node_name local_address m = Some b ∧ spawn_tcp_sender_task (gb_address b) net = Some (RetrySocket_new net).
Proof.
  rw /mc_check_unset /mc_check_graphite_addr /build_graphite. intros -> _ Hc. simpl in Hc.
  destruct (mc_graphite m) as [addr|]; [|done]. eexists. split; [done|]. rw /spawn_tcp_sender_task /=. simpl in Hc. by destruct (parse_socket_addr addr).
Qed.

(** *** A network that writes down what it is sent *)

#[local] Instance wire_net : TcpNet (list (list byte)) :=
  {| TcpStream := unit; tcp_write_all _ data net := (Ok tt, net ++ [data]); tcp_flush _ net := (Ok tt, net) |}.

Definition wire_connected : SocketWorld (W := list (list byte)) := set_task 0 (connect_turn (Some tt) 100)
  (set_task 0 (connect_turn None 50) (RetrySocket_new [])).

Lemma wire_connects : rtc socket_step (RetrySocket_new (W := list (list byte)) []) wire_connected.
Proof.
  eapply rtc_l; [by apply (@ss_turn _ wire_net _ 0 50 None)|].
  eapply rtc_l; [apply (@ss_turn _ wire_net _ 0 100 (Some tt)); reflexivity|].
  apply rtc_refl.
Qed.

Lemma retry_socket_correct_witness :
  socket_ok wire_connected ∧
  ∃ w', tcp_sender_task ["one"; "two"] wire_connected = Some (tt, w') ∧ sw_net w' = [bytes_of_string "one"; bytes_of_string "two"].
Proof.
  destruct (retry_socket_correct [] wire_connected wire_connects) as (Hok & Hall & _). split; [done|].
  destruct (Hall ["one"; "two"]) as (w' & Hr & _). exists w'. split; [done|]. by injection Hr as <-.
Defined.
