(* ===== verification/HwMetrics.v ===== *)
(** * HwMetrics: the metrics of the hardware

    [bob/src/hw_metrics_collector.rs]: load of the processor, disks, memory, descriptors and
    space, as read from [/proc], [df], [lsof], [statvfs] and the crate [sysinfo].  What is read
    is an argument; a turn of the task answers with the gauges it sets. *)

From Corelib Require Import ssreflect.
From stdpp Require Import base option list relations strings gmap numbers.
From Stdlib Require Import Floats.SpecFloat Strings.Ascii ZArith Lia.
From S2P Require Import Prelude Data Text Errors Options Node Float Metrics MetricsExport.

(** ** Lines and words *)

(** [str::lines] *)
Fixpoint strip_cr (s : string) : string :=
  match s with
  | EmptyString => EmptyString
  | String c EmptyString => if bool_decide (c = ascii_of_N 13) then EmptyString else s
  | String c s' => String c (strip_cr s')
  end.
Fixpoint drop_last_empty (l : list string) : list string :=
  match l with
  | [] => []
  | [x] => if bool_decide (x = EmptyString) then [] else [x]
  | x :: l => x :: drop_last_empty l
  end.
Definition str_lines (s : string) : list string := strip_cr <$> drop_last_empty (split_char (ascii_of_N 10) s).

(** [trim] *)
Definition blank (s : string) : bool := bool_decide (split_whitespace s = []).
Fixpoint trim_end (s : string) : string :=
  if blank s then EmptyString else match s with EmptyString => EmptyString | String c s' => String c (trim_end s') end.
Fixpoint trim_start_go (s : string) (skip : nat) : string :=
  match s with
  | EmptyString => EmptyString
  | String _ s' => match skip with
      | S k => trim_start_go s' k
      | O => match ws_prefix s with O => s | S k => trim_start_go s' k end
      end
  end.
Definition str_trim (s : string) : string := trim_end (trim_start_go s 0).

(** The byte positions of [rfind]. *)
Fixpoint rfind_go (p : ascii → bool) (s : string) (i : nat) (found : option nat) : option nat :=
  match s with EmptyString => found | String c s' => rfind_go p s' (S i) (if p c then Some i else found) end.

(** [CommandError] *)
Inductive CommandError : Type := CE_Unavailable | CE_Primary (msg : string).

(** [file_contents] of a file that could be read, or not *)
Definition file_contents (path : string) (contents : option string) : result (list string) string :=
  match contents with Some c => Ok (str_lines c) | None => Err ("Can't read file " +:+ path) end.

(** ** The processor *)

Definition CPU_STAT_FILE : string := "/proc/stat".
Definition DISK_STAT_FILE : string := "/proc/diskstats".
Definition CPU_IOWAIT_COLUMN : nat := 5.

Record CPUStatCollector : Type := { cpu_procfs_avl : bool }.
Definition CPUStatCollector_new : CPUStatCollector := {| cpu_procfs_avl := true |}.

Fixpoint starts_with (p s : string) : bool :=
  match p, s with
  | EmptyString, _ => true
  | String a p', String b s' => bool_decide (a = b) && starts_with p' s'
  | _, _ => false
  end.

Definition stat_cpu_line (contents : option string) : result string string :=
  lines <-? file_contents CPU_STAT_FILE contents;
  match List.find (starts_with "cpu") lines with
  | Some line => Ok line
  | None => Err ("Can't find cpu stat line in " +:+ CPU_STAT_FILE)
  end.

(** The loop over the columns from the second on: the sum and the column of iowait. *)
Fixpoint cpu_columns (i : nat) (parts : list string) (sum f_iowait : f64) : option (f64 * f64) :=
  match parts with
  | [] => Some (sum, f_iowait)
  | part :: parts =>
      val ← parse_f64 part;
      cpu_columns (S i) parts (f64_add sum val) (if Nat.eqb i CPU_IOWAIT_COLUMN then val else f_iowait)
  end.

Definition iowait (contents : option string) (c : CPUStatCollector) : result f64 CommandError * CPUStatCollector :=
  if negb (cpu_procfs_avl c) then (Err CE_Unavailable, c)
  else
    let r : result f64 string :=
      line <-? stat_cpu_line contents;
      let parts := split_whitespace line in
      if Nat.ltb CPU_IOWAIT_COLUMN (length parts) then
        match cpu_columns 1 (drop 1 parts) (f64_of_Z 0) (f64_of_Z 0) with
        | Some (sum, f_iowait) => Ok (f64_div (f64_mul f_iowait (f64_of_Z 100)) sum)
        | None => Err ("Can't parse " +:+ CPU_STAT_FILE)
        end
      else Err ("CPU stat format in " +:+ CPU_STAT_FILE +:+ " changed") in
    match r with
    | Ok x => (Ok x, c)
    | Err e => (Err (CE_Primary e), {| cpu_procfs_avl := false |})
    end.

(** ** Disks *)

Record DiskStats : Type := { ds_reads : Z; ds_writes : Z; ds_io_time : Z; ds_extended : bool }.

Definition DiskStats_sub (a b : DiskStats) : DiskStats := {|
  ds_reads := wrap64 (ds_reads a - ds_reads b); ds_writes := wrap64 (ds_writes a - ds_writes b);
  ds_io_time := wrap64 (ds_io_time a - ds_io_time b); ds_extended := ds_extended a && ds_extended b;
|}.

(** [DiffContainer] of [DiskStats]: the last value, and [diff]. *)
Definition stats_diff (new : DiskStats) (last : option DiskStats) : option DiskStats * option DiskStats :=
  ((λ last, DiskStats_sub new last) <$> last, Some new).

Record DiskStatsContainer : Type := { dsc_prefix : string; dsc_stats : option DiskStats }.

(** Instants in nanoseconds. *)
Record DiskStatCollector : Type := {
  disk_procfs_avl : bool;
  disk_metric_data : gmap string DiskStatsContainer;
  upd_timestamp : Z;
}.

Definition HW_DISKS_FOLDER : string := "hardware.disks".

(** [dev_name], from the output of [df]; [None] inside: a slice that is not at a boundary. *)
Definition dev_name_of (raw_dev_name : string) : option (result string string) :=
  match rfind_go (λ c, bool_decide (c = "/"%char)) raw_dev_name 0 None,
        rfind_go (λ c, negb (bool_decide (is_Some (to_digit10 c)))) raw_dev_name 0 None with
  | Some slash_ind, Some non_digit_ind =>
      if nth_byte raw_dev_name non_digit_ind <? 128
      then Some (Ok (String.substring (slash_ind + 1) (non_digit_ind - slash_ind) raw_dev_name))
      else None
  | _, _ => Some (Err "Error occured in dev_name getter")
  end.
Definition dev_name (df : result string string) : option (result string string) :=
  match df with
  | Err e => Some (Err e)
  | Ok output =>
      match drop 1 (str_lines output) with
      | line :: _ =>
          match split_whitespace line with
          | raw_dev_name :: _ => dev_name_of raw_dev_name
          | [] => Some (Err "Error occured in dev_name getter")
          end
      | [] => Some (Err "Error occured in dev_name getter")
      end
  end.

(** [df path] gives the output of the command. *)
Definition DiskStatCollector_new (disks : list (string * string)) (df : string → result string string) (now : Z) : option DiskStatCollector :=
  data ← ofold (λ data d,
    name ← dev_name (df d.1);
    Some match name with
         | Ok dev => <[dev := {| dsc_prefix := HW_DISKS_FOLDER +:+ "." +:+ d.2; dsc_stats := None |}]> data
         | Err _ => data
         end) ∅ disks;
  Some {| disk_procfs_avl := true; disk_metric_data := data; upd_timestamp := now |}.

Definition cant_parse : string := "Can't parse " +:+ DISK_STAT_FILE +:+ " values to unsigned int".

(** [parse_stat_line]; [None]: an index out of the line. *)
Definition parse_stat_line (parts : list string) : option (result DiskStats CommandError) :=
  let extended := Nat.leb 12 (length parts) in
  r ← parts !! 3%nat;
  w ← parts !! 7%nat;
  match parse_u64 r, parse_u64 w with
  | Some r_ios, Some w_ios =>
      if extended then
        t ← parts !! 12%nat;
        Some match parse_u64 t with
             | Some io_time => Ok {| ds_reads := r_ios; ds_writes := w_ios; ds_io_time := io_time; ds_extended := true |}
             | None => Err (CE_Primary cant_parse)
             end
      else Some (Ok {| ds_reads := r_ios; ds_writes := w_ios; ds_io_time := 0; ds_extended := false |})
  | _, _ => Some (Err (CE_Primary cant_parse))
  end.

Definition gauge (name : string) (v : f64) : RecorderCall := UpdateGauge name (GV_Absolute v).

(** The gauges of a difference over [elapsed] seconds. *)
Definition diff_gauges (prefix : string) (elapsed : f64) (diff : DiskStats) : list RecorderCall :=
  gauge (prefix +:+ "_iops") (f64_div (f64_of_Z (wrap64 (ds_reads diff + ds_writes diff))) elapsed) ::
  (if ds_extended diff then [gauge (prefix +:+ "_util") (f64_div (f64_div (f64_of_Z (ds_io_time diff)) elapsed) (f64_of_Z 10))] else []).

(** The loop over the lines: the answer, the gauges set so far and the collector. *)
Fixpoint stat_lines (elapsed : f64) (lines : list string) (gauges : list RecorderCall) (c : DiskStatCollector)
    : option (result unit CommandError * list RecorderCall * DiskStatCollector) :=
  match lines with
  | [] => Some (Ok tt, gauges, c)
  | i :: lines =>
      let lsp := split_whitespace i in
      if Nat.leb 8 (length lsp) then
        dev ← lsp !! 2%nat;
        match disk_metric_data c !! dev with
        | Some ds =>
            new_ds ← parse_stat_line lsp;
            match new_ds with
            | Err e => Some (Err e, gauges, c)
            | Ok new_ds =>
                let '(diff, last) := stats_diff new_ds (dsc_stats ds) in
                let c := {| disk_procfs_avl := disk_procfs_avl c; upd_timestamp := upd_timestamp c;
                            disk_metric_data := <[dev := {| dsc_prefix := dsc_prefix ds; dsc_stats := last |}]> (disk_metric_data c) |} in
                stat_lines elapsed lines
                  (gauges ++ match diff with Some diff => diff_gauges (dsc_prefix ds) elapsed diff | None => [] end) c
            end
        | None => stat_lines elapsed lines gauges c
        end
      else Some (Err (CE_Primary ("Not enough diskstat info in " +:+ DISK_STAT_FILE +:+ " for metrics calculation")), gauges,
                 {| disk_procfs_avl := false; disk_metric_data := disk_metric_data c; upd_timestamp := upd_timestamp c |})
  end.

Definition DIFFCONTAINER_THRESHOLD : Z := 500000000.

Definition diskstats (contents : option string) (c : DiskStatCollector) : result (list string) CommandError * DiskStatCollector :=
  if negb (disk_procfs_avl c) then (Err CE_Unavailable, c)
  else match file_contents DISK_STAT_FILE contents with
       | Ok lines => (Ok lines, c)
       | Err e => (Err (CE_Primary e), {| disk_procfs_avl := false; disk_metric_data := disk_metric_data c; upd_timestamp := upd_timestamp c |})
       end.

Definition collect_and_send_metrics (contents : option string) (now : Z) (c : DiskStatCollector)
    : option (result unit CommandError * list RecorderCall * DiskStatCollector) :=
  let '(r, c) := diskstats contents c in
  match r with
  | Err e => Some (Err e, [], c)
  | Ok lines =>
      let elapsed := now - upd_timestamp c in
      if DIFFCONTAINER_THRESHOLD <? elapsed then
        stat_lines (as_secs_f64 elapsed) lines []
          {| disk_procfs_avl := disk_procfs_avl c; disk_metric_data := disk_metric_data c; upd_timestamp := now |}
      else Some (Ok tt, [], c)
  end.

(** ** Descriptors *)

Definition CACHED_TIMES : Z := 10.

Record DescrCounter : Type := { dc_value : Z; dc_cached_times : Z; dc_lsof_enabled : bool }.
Definition DescrCounter_new : DescrCounter := {| dc_value := 0; dc_cached_times := 0; dc_lsof_enabled := true |}.

(** The ways [lsof] piped into [wc] can end. *)
Inductive LsofRun : Type :=
| Lsof_NotSpawned
| Lsof_NoStdout
| Lsof_Wc (output : result string string).

Definition count_descriptors_by_lsof (run : LsofRun) (d : DescrCounter) : option Z * DescrCounter :=
  if negb (dc_lsof_enabled d) then (None, d)
  else
    let disabled := {| dc_value := dc_value d; dc_cached_times := dc_cached_times d; dc_lsof_enabled := false |} in
    match run with
    | Lsof_Wc (Ok output) =>
        match parse_u64 (str_trim output) with
        | Some count => (Some (wrap64 (count - 5)), d)
        | None => (None, disabled)
        end
    | _ => (None, disabled)
    end.

(** [fds]: the entries of [/proc/self/fd], when it can be read. *)
Definition count_descriptors (run : LsofRun) (fds : option Z) (d : DescrCounter) : Z * DescrCounter :=
  let '(r, d) := count_descriptors_by_lsof run d in
  match r with
  | Some descr => (descr, d)
  | None => (match fds with Some n => wrap64 (n - 4) | None => 0 end, d)
  end.

Definition descr_amount (run : LsofRun) (fds : option Z) (d : DescrCounter) : Z * DescrCounter :=
  if dc_cached_times d =? 0 then
    let d := {| dc_value := dc_value d; dc_cached_times := CACHED_TIMES; dc_lsof_enabled := dc_lsof_enabled d |} in
    let '(value, d) := count_descriptors run fds d in
    (value, {| dc_value := value; dc_cached_times := dc_cached_times d; dc_lsof_enabled := dc_lsof_enabled d |})
  else
    (dc_value d, {| dc_value := dc_value d; dc_cached_times := dc_cached_times d - 1; dc_lsof_enabled := dc_lsof_enabled d |}).

(** ** Space *)

Record Statvfs : Type := { f_bsize : Z; f_blocks : Z; f_bavail : Z; f_bfree : Z }.
Record DiskSpaceMetrics : Type := { dsm_total_space : Z; dsm_used_space : Z; dsm_free_space : Z }.

(** The mount points in the order of the map, with what [statvfs] answers for each. *)
Definition space (stats : list (option Statvfs)) : DiskSpaceMetrics :=
  foldl (λ m stat, match stat with
    | Some s => {| dsm_total_space := wrap64 (dsm_total_space m + wrap64 (f_bsize s * f_blocks s));
                   dsm_free_space := wrap64 (dsm_free_space m + wrap64 (f_bsize s * f_bavail s));
                   dsm_used_space := wrap64 (dsm_used_space m + wrap64 (wrap64 (f_blocks s - f_bfree s) * f_bsize s)) |}
    | None => m
    end) {| dsm_total_space := 0; dsm_used_space := 0; dsm_free_space := 0 |} stats.

Definition bytes_to_mb (bytes : Z) : Z := bytes / 1024 / 1024.

Definition update_space_metrics_from_disks (stats : list (option Statvfs)) : list RecorderCall * DiskSpaceMetrics :=
  let m := space stats in
  ([gauge "hardware.total_space" (f64_of_Z (bytes_to_mb (dsm_total_space m)));
    gauge "hardware.used_space" (f64_of_Z (bytes_to_mb (dsm_used_space m)));
    gauge "hardware.free_space" (f64_of_Z (bytes_to_mb (dsm_free_space m)))], m).

(** ** The collector *)

(** [collect_used_disks]: the mount points of the system, each with the first configured disk on
    the same device.  [dev] is the device of a path; one without metadata aborts. *)
Fixpoint find_disk_on (dev : string → option Z) (mount_point : string) (disks : list DiskPath) : option (option DiskPath) :=
  match disks with
  | [] => Some None
  | dp :: disks =>
      dp_md ← dev (dp_path dp);
      p_md ← dev mount_point;
      if p_md =? dp_md then Some (Some dp) else find_disk_on dev mount_point disks
  end.
Definition collect_used_disks (dev : string → option Z) (mount_points : list string) (disks : list DiskPath) : option (gmap string string) :=
  ofold (λ m mount_point,
    found ← find_disk_on dev mount_point disks;
    Some match found with Some dp => <[mount_point := dp_name dp]> m | None => m end) ∅ mount_points.

(** What one turn of the task reads. *)
Record HwReadings : Type := {
  hr_proc_stat : option string;
  hr_process : option (f64 * Z * Z);     (* cpu_usage, memory, virtual_memory *)
  hr_statvfs : list (option Statvfs);
  hr_available_memory : Z;
  hr_used_swap : Z;
  hr_lsof : LsofRun;
  hr_fds : option Z;
  hr_diskstats : option string;
  hr_now : Z;
}.

Record HwState : Type := { hw_cpu : CPUStatCollector; hw_descr : DescrCounter; hw_disk_stats : DiskStatCollector }.

Definition hw_turn (total_mem : Z) (r : HwReadings) (s : HwState) : option (list RecorderCall * HwState) :=
  let '(io, cpu) := iowait (hr_proc_stat r) (hw_cpu s) in
  let cpu_gauges := match io with Ok x => [gauge "hardware.cpu_iowait" x] | Err _ => [] end in
  let proc_gauges := match hr_process r with
    | Some (cpu_usage, bob_ram, bob_virtual_ram) =>
        [gauge "hardware.bob_cpu_load" cpu_usage; gauge "hardware.bob_ram" (f64_of_Z bob_ram);
         gauge "hardware.bob_virtual_ram" (f64_of_Z bob_virtual_ram)]
    | None => []
    end in
  let '(space_gauges, _) := update_space_metrics_from_disks (hr_statvfs r) in
  let used_mem := wrap64 (total_mem - hr_available_memory r) in
  let '(descr, descr_counter) := descr_amount (hr_lsof r) (hr_fds r) (hw_descr s) in
  '(_, disk_gauges, disk_stats) ← collect_and_send_metrics (hr_diskstats r) (hr_now r) (hw_disk_stats s);
  Some (cpu_gauges ++ proc_gauges ++ space_gauges ++
        [gauge "hardware.used_ram" (f64_of_Z used_mem); gauge "hardware.available_ram" (f64_of_Z (hr_available_memory r));
         gauge "hardware.used_swap" (f64_of_Z (hr_used_swap r)); gauge "hardware.descr_amount" (f64_of_Z descr)] ++ disk_gauges,
        {| hw_cpu := cpu; hw_descr := descr_counter; hw_disk_stats := disk_stats |}).

(** ** What the readings give *)

(** A line of [/proc/diskstats] that the collector can read. *)
Definition readable_line (line : string) : Prop :=
  let n := length (split_whitespace line) in (8 ≤ n)%nat ∧ n ≠ 12%nat.

Lemma parse_stat_line_readable parts : (8 ≤ length parts)%nat → length parts ≠ 12%nat → ∃ r, parse_stat_line parts = Some r.
Proof.
  intros Hl Hne. rw /parse_stat_line. destruct (lookup_lt_is_Some_2 parts 3) as [a ->]; [lia|].
  destruct (lookup_lt_is_Some_2 parts 7) as [b ->]; [lia|]. cbn [mbind option_bind]. destruct (parse_u64 a), (parse_u64 b); try by eexists.
  destruct (Nat.leb_spec 12 (length parts)); [|by eexists]. destruct (lookup_lt_is_Some_2 parts 12) as [d ->]; [lia|].
  simpl. by eexists.
Qed.

(** A line of twelve columns aborts the task: the check is for twelve, and the thirteenth is read. *)
Example twelve_columns :
  parse_stat_line (split_whitespace "8 0 sda 1 2 3 4 5 6 7 8 9") = None ∧
  parse_stat_line (split_whitespace "8 0 sda 1 2 3 4 5 6 7 8 9 10") =
    Some (Ok {| ds_reads := 1; ds_writes := 5; ds_io_time := 10; ds_extended := true |}).
Proof. by split; vm_compute. Qed.

(** The partition of an NVMe disk keeps its ['p'], so its device is never found. *)
Example nvme_name :
  dev_name_of "/dev/sda1" = Some (Ok "sda") ∧ dev_name_of "/dev/nvme0n1p2" = Some (Ok "nvme0n1p") ∧ dev_name_of "tmpfs" = Some (Err "Error occured in dev_name getter").
Proof. by split_and!; vm_compute. Qed.

(** No file of statistics aborts the collector, unless a line has exactly twelve columns. *)
Lemma stat_lines_total elapsed lines gauges c :
  (∀ line, line ∈ lines → length (split_whitespace line) ≠ 12%nat) → ∃ r, stat_lines elapsed lines gauges c = Some r.
Proof.
  revert gauges c. induction lines as [|line lines IH]; intros gauges c Hl; [by eexists|]. cbn [stat_lines].
  assert (∀ l, l ∈ lines → length (split_whitespace l) ≠ 12%nat) as Hrest by (intros; apply Hl; by right).
  destruct (Nat.leb_spec 8 (length (split_whitespace line))) as [Hlen|]; [|by eexists].
  destruct (lookup_lt_is_Some_2 (split_whitespace line) 2) as [dev ->]; [lia|]. cbn [mbind option_bind].
  destruct (disk_metric_data c !! dev) as [ds|]; [|by apply IH].
  destruct (parse_stat_line_readable (split_whitespace line)) as [[s|e] ->]; [done|apply Hl; by left| |by eexists].
  by apply IH.
Qed.

Lemma collect_total contents now c :
  (∀ text line, contents = Some text → line ∈ str_lines text → length (split_whitespace line) ≠ 12%nat) →
  ∃ r, collect_and_send_metrics contents now c = Some r.
Proof.
  intros Hl. rw /collect_and_send_metrics /diskstats. destruct (disk_procfs_avl c); simpl; [|by eexists].
  destruct contents as [text|]; simpl; [|by eexists]. case_match; [|by eexists]. apply stat_lines_total. intros. by eapply Hl.
Qed.

(** *** The gauges of a turn *)

(** The device of a line and its numbers. *)
Definition line_reads (line : string) (p : string * DiskStats) : Prop :=
  (8 ≤ length (split_whitespace line))%nat ∧ split_whitespace line !! 2%nat = Some p.1 ∧
  parse_stat_line (split_whitespace line) = Some (Ok p.2).

(** What a line sets: the rates since the last numbers of its device. *)
Definition line_gauges (c : DiskStatCollector) (elapsed : f64) (p : string * DiskStats) : list RecorderCall :=
  match disk_metric_data c !! p.1 with
  | Some ds => match dsc_stats ds with Some last => diff_gauges (dsc_prefix ds) elapsed (DiskStats_sub p.2 last) | None => [] end
  | None => []
  end.

(** The new numbers of the known devices. *)
Definition with_stats (parsed : list (string * DiskStats)) (c : DiskStatCollector) (m : gmap string DiskStatsContainer) : Prop :=
  ∀ dev, m !! dev = (λ ds, {| dsc_prefix := dsc_prefix ds;
                              dsc_stats := match (list_to_map parsed : gmap string DiskStats) !! dev with
                                           | Some s => Some s | None => dsc_stats ds end |}) <$> disk_metric_data c !! dev.

Lemma bind_cong_in {A B} (f g : A → list B) (l : list A) : (∀ a, a ∈ l → f a = g a) → l ≫= f = l ≫= g.
Proof. induction l as [|a l IH]; intros Hfg; [done|]. rw !bind_cons IH; [intros; apply Hfg; by right|]. rw Hfg //. by left. Qed.

Lemma stat_lines_spec elapsed lines parsed gauges c :
  Forall2 line_reads lines parsed → NoDup parsed.*1 →
  ∃ c', stat_lines elapsed lines gauges c = Some (Ok tt, gauges ++ (parsed ≫= line_gauges c elapsed), c') ∧
    disk_procfs_avl c' = disk_procfs_avl c ∧ upd_timestamp c' = upd_timestamp c ∧ with_stats parsed c (disk_metric_data c').
Proof.
  intros Hl. revert gauges c. induction Hl as [|line [dev s] lines parsed (Hlen & Hdev & Hs) _ IH]; intros gauges c Hnd.
  { exists c. rw app_nil_r. split_and!; try done. intros dev. rw lookup_empty. by destruct (disk_metric_data c !! dev) as [[]|]. }
  rw fmap_cons in Hnd. apply list.NoDup_cons in Hnd as [Hnin Hnd]. simpl in Hdev, Hs, Hnin. cbn [stat_lines].
  destruct (Nat.leb_spec 8 (length (split_whitespace line))); [|lia]. rw Hdev bind_cons. cbn [mbind option_bind].
  destruct (disk_metric_data c !! dev) as [ds|] eqn:Hds.
  - rw Hs. cbn [mbind option_bind stats_diff]. match goal with |- context [stat_lines elapsed lines ?g1 ?c1] => set g1' := g1; set c1' := c1 end.
    destruct (IH g1' c1' Hnd) as (c' & -> & Ha & Hu & Hm). exists c'. split_and!; [|done|done|].
    + assert (g1' ++ (parsed ≫= line_gauges c1' elapsed) = gauges ++ line_gauges c elapsed (dev, s) ++ (parsed ≫= line_gauges c elapsed)) as ->; [|done].
      rw /g1' -app_assoc. f_equal. f_equal; [by rw /line_gauges /= Hds; destruct (dsc_stats ds)|]. apply bind_cong_in.
      intros q Hq. rw /line_gauges /= lookup_insert_ne //. intros ->. apply Hnin, list_elem_of_fmap. by exists q.
    + intros d. rw Hm /=. destruct (decide (d = dev)) as [->|Hne]; [|by rw !lookup_insert_ne].
      by rw !lookup_insert_eq Hds /= (not_elem_of_list_to_map_1 _ _ Hnin).
  - destruct (IH gauges c Hnd) as (c' & -> & Ha & Hu & Hm). exists c'. split_and!; [assert (line_gauges c elapsed (dev, s) = []) as -> by (by rw /line_gauges /= Hds); done|done|done|].
    intros d. rw Hm /=. destruct (decide (d = dev)) as [->|Hne]; [by rw Hds|]. by rw lookup_insert_ne.
Qed.

(** A turn over readable statistics, half a second or more after the last: every disk of the
    node has the gauges of its reads, writes and busy time since its last numbers, whatever
    wrapped around in between, disks seen for the first time only have their numbers kept, and
    nothing else is set. *)
Theorem disk_rates contents now c parsed :
  disk_procfs_avl c = true → DIFFCONTAINER_THRESHOLD < now - upd_timestamp c →
  Forall2 line_reads (str_lines contents) parsed → NoDup parsed.*1 →
  ∃ c', collect_and_send_metrics (Some contents) now c =
      Some (Ok tt, parsed ≫= line_gauges c (as_secs_f64 (now - upd_timestamp c)), c') ∧
    disk_procfs_avl c' = true ∧ upd_timestamp c' = now ∧ with_stats parsed c (disk_metric_data c').
Proof.
  intros Ha Ht Hl Hnd. rw /collect_and_send_metrics /diskstats Ha /=. destruct (Z.ltb_spec DIFFCONTAINER_THRESHOLD (now - upd_timestamp c)); [|lia].
  set (c1 := {| disk_procfs_avl := _ |}). destruct (stat_lines_spec (as_secs_f64 (now - upd_timestamp c)) _ _ [] c1 Hl Hnd) as (c' & -> & Hav & Hu & Hm).
  exists c'. split_and!; [done|by rw Hav|by rw Hu|done].
Qed.

(** Space: of what the file systems report, used and free space fit into the total. *)
Lemma space_within stats :
  Forall (λ s, match s with Some s => 0 ≤ f_bsize s ∧ 0 ≤ f_bavail s ≤ f_bfree s ∧ f_bfree s ≤ f_blocks s | None => True end) stats →
  foldr (λ s acc, match s with Some s => f_bsize s * f_blocks s + acc | None => acc end) 0 stats < 2 ^ 64 →
  dsm_used_space (space stats) + dsm_free_space (space stats) ≤ dsm_total_space (space stats).
Proof.
  intros Hs. rw /space.
  enough (∀ m, 0 ≤ dsm_used_space m → 0 ≤ dsm_free_space m → dsm_used_space m + dsm_free_space m ≤ dsm_total_space m →
    dsm_total_space m + foldr (λ s acc, match s with Some s => f_bsize s * f_blocks s + acc | None => acc end) 0 stats < 2 ^ 64 →
    let m' := foldl (λ m stat, match stat with
    | Some s => {| dsm_total_space := wrap64 (dsm_total_space m + wrap64 (f_bsize s * f_blocks s));
                   dsm_free_space := wrap64 (dsm_free_space m + wrap64 (f_bsize s * f_bavail s));
                   dsm_used_space := wrap64 (dsm_used_space m + wrap64 (wrap64 (f_blocks s - f_bfree s) * f_bsize s)) |}
    | None => m end) m stats in dsm_used_space m' + dsm_free_space m' ≤ dsm_total_space m') as He.
  { intros Hsum. apply He; simpl; lia. }
  induction Hs as [|[s|] stats Hs Hrest IH]; intros m Hu Hf Hle Hsum; [done| |by apply IH]. cbn [foldl foldr] in Hsum |- *.
  destruct Hs as (Hb & Hav & Hfree).
  assert (0 ≤ foldr (λ s acc, match s with Some s => f_bsize s * f_blocks s + acc | None => acc end) 0 stats) as Hpos.
  { clear -Hrest. induction Hrest as [|[s|] stats Hs _ IH]; simpl; [done|nia|done]. }
  assert (f_bsize s * f_bavail s + (f_blocks s - f_bfree s) * f_bsize s ≤ f_bsize s * f_blocks s) as Hone by nia.
  assert (0 ≤ f_bsize s * f_bavail s) as H1 by nia. assert (0 ≤ (f_blocks s - f_bfree s) * f_bsize s) as H2 by nia.
  destruct (decide (f_bsize s = 0)) as [Hz|Hnz].
  - rw Hz !Z.mul_0_l !Z.mul_0_r /= !(wrap64_small 0) // !Z.add_0_r !wrap64_small; [lia|lia|lia|]. destruct m. apply IH; simpl in *; [done..|]. nia.
  - assert (f_blocks s ≤ f_bsize s * f_blocks s) as H3 by nia.
    rw (wrap64_small (f_blocks s - f_bfree s)); [lia|]. rw !(wrap64_small (_ * _)); [lia..|].
    rw !wrap64_small; [lia..|]. apply IH; simpl; lia.
Qed.

(** The descriptors are counted at one call; the ten calls after it give the cached value, and
    the eleventh counts again. *)
Lemma descr_period run fds d readings :
  dc_cached_times d = 0 → Z.of_nat (length readings) ≤ CACHED_TIMES →
  let '(value, d1) := descr_amount run fds d in
  let d2 := foldl (λ d r, (descr_amount r.1 r.2 d).2) d1 readings in
  dc_value d2 = value ∧ dc_cached_times d2 = CACHED_TIMES - Z.of_nat (length readings).
Proof.
  intros Hz Hn. destruct (descr_amount run fds d) as [value d1] eqn:Hd.
  assert (dc_value d1 = value ∧ dc_cached_times d1 = CACHED_TIMES) as Hd1.
  { revert Hd. rw /descr_amount Hz /=. destruct (count_descriptors run fds _) as [v d0] eqn:Hc. intros [= <- <-]. split; [done|]. simpl.
    rw /count_descriptors /count_descriptors_by_lsof /= in Hc. destruct (dc_lsof_enabled d); simpl in Hc; [|by injection Hc as _ <-].
    destruct run as [| |[output|e]]; try by injection Hc as _ <-. destruct (parse_u64 (str_trim output)); by injection Hc as _ <-. }
  clear Hd. induction readings as [|r readings IH] using rev_ind; [by rw Z.sub_0_r|]. rw length_app /= in Hn. rw foldl_app length_app.
  destruct IH as [Hv Ht]; [lia|]. cbn [foldl]. revert Hv Ht. generalize (foldl (λ d r, (descr_amount r.1 r.2 d).2) d1 readings). intros d' Hv Ht.
  rw /descr_amount Ht. destruct (Z.eqb_spec (CACHED_TIMES - Z.of_nat (length readings)) 0) as [He|]; [lia|].
  simpl. split; [done|lia].
Qed.

Definition example_diskstats : string :=
  "   8  0 sda 110 0 0 0 230 0 0 0 0 40 9" +:+ newline +:+ "   8 16 sdb 7 0 0 0 8" +:+ newline.
Definition example_collector : DiskStatCollector := {|
  disk_procfs_avl := true; upd_timestamp := 0;
  disk_metric_data := {[ "sda" := {| dsc_prefix := "hardware.disks.d1";
     dsc_stats := Some {| ds_reads := 100; ds_writes := 200; ds_io_time := 20; ds_extended := true |} |} ]} |}.

Lemma disk_rates_witness :
  ∃ c', collect_and_send_metrics (Some example_diskstats) 2000000000 example_collector =
    Some (Ok tt, [gauge "hardware.disks.d1_iops" (f64_of_Z 20); gauge "hardware.disks.d1_util" (f64_of_Z 1)], c').
Proof.
  destruct (disk_rates example_diskstats 2000000000 example_collector
    [("sda", {| ds_reads := 110; ds_writes := 230; ds_io_time := 40; ds_extended := true |});
     ("sdb", {| ds_reads := 7; ds_writes := 8; ds_io_time := 0; ds_extended := false |})]) as (c' & Hc & _).
  - reflexivity.
  - reflexivity.
  - assert (str_lines example_diskstats = ["   8  0 sda 110 0 0 0 230 0 0 0 0 40 9"; "   8 16 sdb 7 0 0 0 8"]) as -> by reflexivity.
    apply Forall2_cons; [|apply Forall2_cons; [|apply Forall2_nil_2]].
    all: split; [apply Nat.leb_le; reflexivity|split; reflexivity].
  - apply (bool_decide_unpack _). vm_compute. exact I.
  - exists c'. rw Hc. reflexivity.
Defined.
