(* ===== verification/RecoveryTool.v ===== *)
(** * RecoveryTool: the tool that validates and repairs blobs

    [bob-apps/bin/blob_recovery_tool]: walking a disk, the commands, the confirmation of the
    user, keys of fixed sizes and the values of the command line.  The crate [pearl], the
    parser [clap] and the file system are the classes and arguments below; logs are left out. *)

From Corelib Require Import ssreflect.
From stdpp Require Import base option list relations strings gmap numbers.
From Stdlib Require Import Strings.Ascii Strings.Byte ZArith Lia.
From S2P Require Import Prelude Data Text Errors Options Node ClusterConfig NodeConfig Access PearlUtils HwMetrics.

(** ** Keys of a fixed size *)

Definition sized_le_cmp_keys (n : nat) (x y : list byte) : option comparison :=
  if (n mod usize_size =? 0)%nat then
    cmp_loop (λ i,
      x_part ← usize_part x (i * usize_size) ((i + 1) * usize_size);
      y_part ← usize_part y (i * usize_size) ((i + 1) * usize_size);
      Some (x_part, y_part)) (reverse (seq 0 (n / usize_size)))
  else cmp_loop (λ i, xb ← x !! i; yb ← y !! i; Some (byte_val xb, byte_val yb)) (reverse (seq 0 n)).

(** A key of size [n] from bytes, and the default key. *)
Definition sized_key_from (n : nat) (t : list byte) : list byte := vec_resize n x00 t.
Definition sized_key_default (n : nat) : list byte := replicate n x00.

(** ** Files *)

(** What reading a directory gives. *)
Inductive Entry : Type :=
| E_File (name : string)
| E_Dir (name : string) (contents : DirContents)
| E_Other (name : string)
| E_NoType (name : string)
with DirContents : Type :=
| DC_Unreadable
| DC_End
| DC_Error (rest : DirContents)                (* an entry that could not be read *)
| DC_Entry (entry : Entry) (rest : DirContents).

Section walk.
Context {W : Type}.

(** [for_each_file_recursive_inner]: the function runs on every file, with its path and the
    path of its directory below the root. *)
Fixpoint for_each_entry (function : string → string → M W unit) (path relative : string) (contents : DirContents) : M W (result unit string) :=
  match contents with
  | DC_Unreadable => mret (Err "read_dir")
  | DC_End => mret (Ok tt)
  | DC_Error rest => for_each_entry function path relative rest
  | DC_Entry entry rest =>
      r ← (fix visit (entry : Entry) : M W (result unit string) :=
             match entry with
             | E_File name => _ ← function (path_push path name) relative; mret (Ok tt)
             | E_Dir name inner => for_each_entry function (path_push path name) (path_push relative name) inner
             | E_Other _ | E_NoType _ => mret (Ok tt)
             end) entry;
      match r with
      | Err e => mret (Err e)
      | Ok _ => for_each_entry function path relative rest
      end
  end.
Definition for_each_file_recursive (path : string) (contents : DirContents) (function : string → string → M W unit) : M W (result unit string) :=
  for_each_entry function path EmptyString contents.
End walk.

(** The files of a directory with their relative paths, in the order of the walk; [None]: some directory
    cannot be read. *)
Fixpoint files_below (path relative : string) (contents : DirContents) : option (list (string * string)) :=
  match contents with
  | DC_Unreadable => None
  | DC_End => Some []
  | DC_Error rest => files_below path relative rest
  | DC_Entry entry rest =>
      here ← match entry with
             | E_File name => Some [(path_push path name, relative)]
             | E_Dir name inner => files_below (path_push path name) (path_push relative name) inner
             | E_Other _ | E_NoType _ => Some []
             end;
      below ← files_below path relative rest;
      Some (here ++ below)
  end.

(** ** The parts of the file system and of the crate [pearl] the commands use *)

Class PearlTools (W : Type) := {
  pt_is_file : string → W → bool;
  pt_read_dir : string → W → DirContents;
  pt_exists : string → W → bool;
  pt_remove_file : string → M W (result unit string);
  pt_create_dir_all : string → M W (result unit string);
  pt_validate_blob : string → M W (result unit string);
  (** The size of the keys, [None] for the key of the node. *)
  pt_validate_index : option nat → string → M W (result unit string);
  pt_recovery_blob : string → string → Z → bool → M W (result unit string);
  pt_move_and_recover_blob : string → string → Z → M W (result unit string);
  pt_migrate_blob : string → string → Z → Z → M W (result unit string);
}.

Section commands.
Context {W : Type} `{PearlTools W}.

(** [get_backup_path]: [path] itself, then numbers after the suffix.  [None] inside: not found
    within the fuel. *)
Fixpoint backup_path_go (exists_ : string → bool) (path suffix : string) (fuel : nat) (i : Z) : option string :=
  match fuel with
  | O => None
  | S fuel =>
      let p := if 0 <? i then path +:+ suffix +:+ "." +:+ fmt_dec i else path in
      if negb (exists_ p) then Some p else backup_path_go exists_ path suffix fuel (i + 1)
  end.
Definition get_backup_path (exists_ : string → bool) (fuel : nat) (path suffix : string) : option string :=
  backup_path_go exists_ path suffix fuel 0.

(** [ask_confirmation] over the lines the user enters, the rest of the lines with it.  [None]:
    the input ended, and the loop goes on for ever. *)
Fixpoint ask_confirmation (input : list string) : option (bool * list string) :=
  match input with
  | [] => None
  | buf :: input =>
      let cmd := str_trim buf in
      if bool_decide (cmd = "y") || bool_decide (cmd = "Y") then Some (true, input)
      else if bool_decide (cmd = "n") || bool_decide (cmd = "N") then Some (false, input)
      else ask_confirmation input
  end.

(** [to_str().unwrap()] *)
Definition path_to_str (path : string) : M W string :=
  expect (if utf8_valid (bytes_of_string path) then Some path else None).

(** [validate_files_recursive] and [process_files_recursive]: the paths on which the function failed.
    The walk reads the directories as they are at its start. *)
Definition process_files_recursive (path : string) (extension : string) (function : string → string → M W (result unit string))
    : M W (result (list string) string) := λ w,
  let step (p relative : string) : M (list string * W) unit := λ s,
    '(path_string, w) ← path_to_str p s.2;
    if ends_with extension path_string then
      '(r, w) ← function p relative w;
      Some (tt, (match r with Ok _ => s.1 | Err _ => s.1 ++ [path_string] end, w))
    else Some (tt, (s.1, w)) in
  '(r, (result, w)) ← for_each_file_recursive path (pt_read_dir path w) step ([], w);
  Some (result_map (λ _, result) r, w).
Definition validate_files_recursive (path : string) (suffix : string) (function : string → M W (result unit string))
    : M W (result (list string) string) :=
  process_files_recursive path suffix (λ p _, function p).

(** *** The commands *)

Record RecoveryBlobCommand : Type := { rb_input : string; rb_output : string; rb_validate_every : Z; rb_skip_wrong_record : bool }.
Record ValidateBlobCommand : Type := {
  vb_path : string; vb_blob_suffix : string; vb_backup_suffix : string; vb_validate_every : Z; vb_fix : bool; vb_skip_confirmation : bool }.
Record ValidateIndexCommand : Type := {
  vi_path : string; vi_index_suffix : string; vi_delete : bool; vi_skip_confirmation : bool; vi_key_size : option Z }.
Record MigrateCommand : Type := {
  mg_input_path : string; mg_output_path : string; mg_blob_suffix : string; mg_validate_every : Z; mg_target_version : Z }.
Record GetBlobInfoCommand : Type := { gb_path : string; gb_full : bool }.
Record GetIndexInfoCommand : Type := { gi_path : string }.

Inductive MainCommand : Type :=
| MC_Recovery (c : RecoveryBlobCommand)
| MC_Validate (c : ValidateBlobCommand)
| MC_ValidateIndex (c : ValidateIndexCommand)
| MC_Migrate (c : MigrateCommand)
| MC_GetBlobInfo (c : GetBlobInfoCommand)
| MC_GetIndexInfo (c : GetIndexInfoCommand).

Definition RecoveryBlobCommand_run (c : RecoveryBlobCommand) : M W (result unit string) :=
  pt_recovery_blob (rb_input c) (rb_output c) (rb_validate_every c) (rb_skip_wrong_record c).

(** The confirmation, unless it is skipped; [input] is what the user enters. *)
Definition confirmed (skip : bool) (input : list string) : M W bool :=
  if skip then mret true else r ← expect (ask_confirmation input); mret (fst r).

Definition ValidateBlobCommand_run (fuel : nat) (input : list string) (c : ValidateBlobCommand) : M W (result unit string) :=
  is_file ← gets (pt_is_file (vb_path c));
  if (is_file : bool) then
    r ← pt_validate_blob (vb_path c);
    mret r
  else
    r ← validate_files_recursive (vb_path c) (vb_blob_suffix c) pt_validate_blob;
    match r with
    | Err e => mret (Err e)
    | Ok result =>
        if vb_fix c && negb (bool_decide (result = [])) then
          go ← confirmed (vb_skip_confirmation c) input;
          if (go : bool) then
            _ ← for_each (λ _ path,
              exists_ ← gets (λ w p, pt_exists p w);
              backup_path ← expect (get_backup_path exists_ fuel path (vb_backup_suffix c));
              _ ← pt_move_and_recover_blob path backup_path (vb_validate_every c);
              mret tt) tt result;
            mret (Ok tt)
          else mret (Ok tt)
        else mret (Ok tt)
    end.

Definition ValidateIndexCommand_run (input : list string) (c : ValidateIndexCommand) : M W (result unit string) :=
  let size : option (option nat) :=
    match vi_key_size c with
    | None => Some None
    | Some n => if decide (n ∈ [4; 8; 16; 32]) then Some (Some (Z.to_nat n)) else None
    end in
  match size with
  | None => mret (Err "Key size is not supported")
  | Some size =>
      let validate_index_fn := pt_validate_index size in
      is_file ← gets (pt_is_file (vi_path c));
      if (is_file : bool) then validate_index_fn (vi_path c)
      else
        r ← validate_files_recursive (vi_path c) (vi_index_suffix c) validate_index_fn;
        match r with
        | Err e => mret (Err e)
        | Ok result =>
            if vi_delete c && negb (bool_decide (result = [])) then
              go ← confirmed (vi_skip_confirmation c) input;
              if (go : bool) then
                _ ← for_each (λ _ path, _ ← pt_remove_file path; mret tt) tt result;
                mret (Ok tt)
              else mret (Ok tt)
            else mret (Ok tt)
        end
  end.

Definition MigrateCommand_run (c : MigrateCommand) : M W (result unit string) :=
  is_file ← gets (pt_is_file (mg_input_path c));
  if (is_file : bool) then pt_migrate_blob (mg_input_path c) (mg_output_path c) (mg_validate_every c) (mg_target_version c)
  else
    r ← process_files_recursive (mg_input_path c) (mg_blob_suffix c) (λ path relative_path,
      let output_dir := path_push (mg_output_path c) relative_path in
      r ← pt_create_dir_all output_dir;
      match r with
      | Err e => mret (Err e)
      | Ok _ =>
          name ← expect (path_file_name path);
          pt_migrate_blob path (path_push output_dir name) (mg_validate_every c) (mg_target_version c)
      end);
    mret (result_map (λ _, tt) r).
End commands.

(** ** The command line *)

(** An argument of a subcommand, as given to [clap]. *)
Record Arg : Type := {
  arg_name : string; arg_short : string; arg_long : string;
  arg_takes_value : bool; arg_required : bool; arg_default_value : option string;
}.

Definition INPUT_OPT : string := "input blob".
Definition OUTPUT_OPT : string := "output blob".
Definition VALIDATE_EVERY_OPT : string := "record cache".
Definition DISK_PATH_OPT : string := "disk path".
Definition SUFFIX_OPT : string := "suffix".
Definition BACKUP_SUFFIX_OPT : string := "backup suffix".
Definition FIX_OPT : string := "fix".
Definition NO_CONFIRM_OPT : string := "no confirm".
Definition DELETE_OPT : string := "index delete".
Definition TARGET_VERSION_OPT : string := "target version".
Definition SKIP_WRONG_OPT : string := "skip wrong".
Definition KEY_SIZE_OPT : string := "key size".
Definition FULL_BLOB_INFO_OPT : string := "full blob info".

(** The three shapes of the tables: a value that must be given, one with a default, a flag. *)
Definition required_arg (name short long : string) : Arg :=
  {| arg_name := name; arg_short := short; arg_long := long; arg_takes_value := true; arg_required := true; arg_default_value := None |}.
Definition default_arg (name short long default : string) : Arg :=
  {| arg_name := name; arg_short := short; arg_long := long; arg_takes_value := true; arg_required := false; arg_default_value := Some default |}.
Definition flag_arg (name short long : string) : Arg :=
  {| arg_name := name; arg_short := short; arg_long := long; arg_takes_value := false; arg_required := false; arg_default_value := None |}.

Definition RecoveryBlobCommand_subcommand : list Arg :=
  [required_arg INPUT_OPT "i" "input"; required_arg OUTPUT_OPT "o" "output"; default_arg VALIDATE_EVERY_OPT "c" "cache-size" "100";
   flag_arg SKIP_WRONG_OPT "" "skip-wrong-record"].
Definition ValidateBlobCommand_subcommand : list Arg :=
  [required_arg DISK_PATH_OPT "p" "path"; default_arg SUFFIX_OPT "s" "suffix" "blob";
   default_arg BACKUP_SUFFIX_OPT "b" "backup-suffix" ".backup"; flag_arg FIX_OPT "f" "fix"; flag_arg NO_CONFIRM_OPT "" "no-confirm";
   default_arg VALIDATE_EVERY_OPT "c" "cache-size" "100"].
Definition ValidateIndexCommand_subcommand : list Arg :=
  [required_arg DISK_PATH_OPT "p" "path"; default_arg SUFFIX_OPT "s" "suffix" "index"; flag_arg DELETE_OPT "d" "delete";
   flag_arg NO_CONFIRM_OPT "" "no-confirm";
   {| arg_name := KEY_SIZE_OPT; arg_short := ""; arg_long := "key-size"; arg_takes_value := true; arg_required := false; arg_default_value := None |}].
Definition MigrateCommand_subcommand : list Arg :=
  [required_arg INPUT_OPT "i" "input"; required_arg OUTPUT_OPT "o" "output"; default_arg SUFFIX_OPT "s" "suffix" "blob";
   default_arg VALIDATE_EVERY_OPT "c" "cache-size" "100"; default_arg TARGET_VERSION_OPT "t" "target-version" "1"].
Definition GetBlobInfoCommand_subcommand : list Arg := [required_arg INPUT_OPT "i" "input"; flag_arg FULL_BLOB_INFO_OPT "f" "full"].
Definition GetIndexInfoCommand_subcommand : list Arg := [required_arg INPUT_OPT "i" "input"].

Definition subcommands : list (string * list Arg) :=
  [("recovery", RecoveryBlobCommand_subcommand); ("validate-blob", ValidateBlobCommand_subcommand);
   ("validate-index", ValidateIndexCommand_subcommand); ("migrate", MigrateCommand_subcommand);
   ("blob-info", GetBlobInfoCommand_subcommand); ("index-info", GetIndexInfoCommand_subcommand)].

(** [ArgMatches] of a subcommand: its values, defaults included, and the flags that are present. *)
Record ArgMatches : Type := { value_of : string → option string; is_present : string → bool }.

(** [parse()?] of an unsigned number *)
Definition parse_arg (bound : Z) (s : string) : result Z string := ok_or (parse_uint bound s) "invalid digit found in string".

(** [None]: an [expect] of [from_matches] fails. *)
Definition RecoveryBlobCommand_from_matches (m : ArgMatches) : option (result RecoveryBlobCommand string) :=
  input ← value_of m INPUT_OPT;
  output ← value_of m OUTPUT_OPT;
  every ← value_of m VALIDATE_EVERY_OPT;
  Some (every <-? parse_arg (2 ^ 64) every;
        Ok {| rb_input := input; rb_output := output; rb_skip_wrong_record := is_present m SKIP_WRONG_OPT; rb_validate_every := every |}).
Definition ValidateBlobCommand_from_matches (m : ArgMatches) : option (result ValidateBlobCommand string) :=
  path ← value_of m DISK_PATH_OPT;
  blob_suffix ← value_of m SUFFIX_OPT;
  backup_suffix ← value_of m BACKUP_SUFFIX_OPT;
  every ← value_of m VALIDATE_EVERY_OPT;
  Some (every <-? parse_arg (2 ^ 64) every;
        Ok {| vb_path := path; vb_blob_suffix := blob_suffix; vb_backup_suffix := backup_suffix; vb_fix := is_present m FIX_OPT;
              vb_skip_confirmation := is_present m NO_CONFIRM_OPT; vb_validate_every := every |}).
Definition ValidateIndexCommand_from_matches (m : ArgMatches) : option (result ValidateIndexCommand string) :=
  path ← value_of m DISK_PATH_OPT;
  index_suffix ← value_of m SUFFIX_OPT;
  Some (key_size <-? match value_of m KEY_SIZE_OPT with
                     | None => Ok None
                     | Some s => result_map Some (parse_arg (2 ^ 64) s)
                     end;
        Ok {| vi_path := path; vi_index_suffix := index_suffix; vi_delete := is_present m DELETE_OPT;
              vi_skip_confirmation := is_present m NO_CONFIRM_OPT; vi_key_size := key_size |}).
Definition MigrateCommand_from_matches (m : ArgMatches) : option (result MigrateCommand string) :=
  input ← value_of m INPUT_OPT;
  output ← value_of m OUTPUT_OPT;
  suffix ← value_of m SUFFIX_OPT;
  every ← value_of m VALIDATE_EVERY_OPT;
  match parse_arg (2 ^ 64) every with
  | Err e => Some (Err e)
  | Ok every =>
      version ← value_of m TARGET_VERSION_OPT;
      Some (version <-? parse_arg (2 ^ 32) version;
            Ok {| mg_input_path := input; mg_output_path := output; mg_blob_suffix := suffix; mg_validate_every := every; mg_target_version := version |})
  end.
Definition GetBlobInfoCommand_from_matches (m : ArgMatches) : option (result GetBlobInfoCommand string) :=
  path ← value_of m INPUT_OPT; Some (Ok {| gb_path := path; gb_full := is_present m FULL_BLOB_INFO_OPT |}).
Definition GetIndexInfoCommand_from_matches (m : ArgMatches) : option (result GetIndexInfoCommand string) :=
  path ← value_of m INPUT_OPT; Some (Ok {| gi_path := path |}).

(** [MainCommand::from_matches] of the name of the subcommand and its matches *)
Definition MainCommand_from_matches (name : string) (m : ArgMatches) : option (result MainCommand string) :=
  if bool_decide (name = "recovery") then result_map MC_Recovery <$> RecoveryBlobCommand_from_matches m
  else if bool_decide (name = "validate-blob") then result_map MC_Validate <$> ValidateBlobCommand_from_matches m
  else if bool_decide (name = "validate-index") then result_map MC_ValidateIndex <$> ValidateIndexCommand_from_matches m
  else if bool_decide (name = "migrate") then result_map MC_Migrate <$> MigrateCommand_from_matches m
  else if bool_decide (name = "blob-info") then result_map MC_GetBlobInfo <$> GetBlobInfoCommand_from_matches m
  else if bool_decide (name = "index-info") then result_map MC_GetIndexInfo <$> GetIndexInfoCommand_from_matches m
  else Some (Err "Unknown command").

(** What [clap] promises of the matches of a table: required values are given, others have their
    defaults when not given. *)
Definition clap_matches (args : list Arg) (m : ArgMatches) : Prop :=
  Forall (λ a, arg_takes_value a = true → arg_required a = true ∨ is_Some (arg_default_value a) → is_Some (value_of m (arg_name a))) args.

(** ** Theorems *)

(** Take what a table promises of each of its arguments. *)
Ltac clap_values :=
  repeat match goal with
  | H : Forall _ (_ :: _) |- _ => apply Forall_cons_1 in H as [? H]
  | H : _ = true → _ ∨ is_Some _ → is_Some _ |- _ =>
      first [destruct (H eq_refl (or_introl eq_refl)) as [? ?] | destruct (H eq_refl (or_intror (ex_intro _ _ eq_refl))) as [? ?] | idtac]; clear H
  | H : value_of _ _ = Some _ |- _ => cbn in H; rw ?H; clear H
  end.

(** Every [expect] of the command line is safe: matches of the table of a subcommand give a
    command or an error of a number. *)
Lemma from_matches_total name args m :
  (name, args) ∈ subcommands → clap_matches args m → ∃ r, MainCommand_from_matches name m = Some r.
Proof.
  rw /subcommands !elem_of_cons. intros Hin Hm. destruct_or! Hin; [..|by apply elem_of_nil in Hin]; injection Hin as -> ->.
  all: rw /clap_matches in Hm.
  - change (MainCommand_from_matches _ m) with (result_map MC_Recovery <$> RecoveryBlobCommand_from_matches m).
    rw /RecoveryBlobCommand_from_matches /RecoveryBlobCommand_subcommand in Hm |- *. clap_values. by eexists.
  - change (MainCommand_from_matches _ m) with (result_map MC_Validate <$> ValidateBlobCommand_from_matches m).
    rw /ValidateBlobCommand_from_matches /ValidateBlobCommand_subcommand in Hm |- *. clap_values. by eexists.
  - change (MainCommand_from_matches _ m) with (result_map MC_ValidateIndex <$> ValidateIndexCommand_from_matches m).
    rw /ValidateIndexCommand_from_matches /ValidateIndexCommand_subcommand in Hm |- *. clap_values. by eexists.
  - change (MainCommand_from_matches _ m) with (result_map MC_Migrate <$> MigrateCommand_from_matches m).
    rw /MigrateCommand_from_matches /MigrateCommand_subcommand in Hm |- *. clap_values. cbn [mbind option_bind].
    case_match; by eexists.
  - change (MainCommand_from_matches _ m) with (result_map MC_GetBlobInfo <$> GetBlobInfoCommand_from_matches m).
    rw /GetBlobInfoCommand_from_matches /GetBlobInfoCommand_subcommand in Hm |- *. clap_values. by eexists.
  - change (MainCommand_from_matches _ m) with (result_map MC_GetIndexInfo <$> GetIndexInfoCommand_from_matches m).
    rw /GetIndexInfoCommand_from_matches /GetIndexInfoCommand_subcommand in Hm |- *. clap_values. by eexists.
Qed.

(** The comparison of keys of a fixed size is that of their little-endian numbers. *)
Lemma sized_le_cmp_keys_spec n x y :
  length x = n → length y = n → sized_le_cmp_keys n x y = Some (Z.compare (from_le_bytes x) (from_le_bytes y)).
Proof.
  intros Hx Hy. rw /sized_le_cmp_keys. destruct (Nat.eqb_spec (n mod usize_size) 0) as [Hm|].
  - assert (n = (n / usize_size * usize_size)%nat) as Hn.
    { pose proof (Nat.div_mod_eq n 8). rw /usize_size in Hm |- *. lia. }
    by apply (@le_cmp_keys_words n).
  - by apply (@le_cmp_keys_bytes n).
Qed.

(** *** The walk *)

Scheme entry_mut := Induction for Entry Sort Prop
with contents_mut := Induction for DirContents Sort Prop.

Lemma for_each_app {W A B} (f : A → B → M W A) a l k w :
  for_each f a (l ++ k) w = (a' ← for_each f a l; for_each f a' k) w.
Proof.
  revert a w. induction l as [|b l IH]; intros a w; [done|]. simpl. rw /mbind /M_bind. destruct (f a b w) as [[a' w']|]; [|done].
  by rw IH /mbind /M_bind.
Qed.

(** The walk runs the function on the files below the root, in their order. *)
Lemma for_each_entry_files {W} (function : string → string → M W unit) contents path relative files w :
  files_below path relative contents = Some files →
  for_each_entry function path relative contents w =
    (_ ← for_each (λ _ f, function f.1 f.2) tt files; mret (Ok tt)) w.
Proof.
  revert path relative files w.
  apply (contents_mut
    (λ entry, ∀ path relative files w,
       match entry with
       | E_File name => Some [(path_push path name, relative)]
       | E_Dir name inner => files_below (path_push path name) (path_push relative name) inner
       | E_Other _ | E_NoType _ => Some []
       end = Some files →
       match entry with
       | E_File name => _ ← function (path_push path name) relative; mret (Ok tt)
       | E_Dir name inner => for_each_entry function (path_push path name) (path_push relative name) inner
       | E_Other _ | E_NoType _ => mret (Ok tt)
       end w = (_ ← for_each (λ _ f, function f.1 f.2) tt files; mret (Ok tt : result unit string)) w)
    (λ contents, ∀ path relative files w, files_below path relative contents = Some files →
       for_each_entry function path relative contents w =
         (_ ← for_each (λ _ f, function f.1 f.2) tt files; mret (Ok tt)) w)); clear.
  - intros name path relative files w [= <-]. simpl. rw /mbind /M_bind. by destruct (function _ _ w) as [[[] w']|].
  - intros name inner IH path relative files w Hf. by apply IH.
  - by intros name path relative files w [= <-].
  - by intros name path relative files w [= <-].
  - done.
  - by intros path relative files w [= <-].
  - intros rest IH path relative files w Hf. by apply IH.
  - intros entry IHe rest IHr path relative files w Hf. cbn [files_below] in Hf. cbn [for_each_entry].
    destruct (match entry with E_File _ => _ | _ => _ end) as [here|] eqn:Hhere; [|done]. cbn [mbind option_bind] in Hf.
    destruct (files_below path relative rest) as [below|] eqn:Hbelow; [|done]. injection Hf as <-.
    assert ((fix visit (entry : Entry) : M W (result unit string) :=
             match entry with
             | E_File name => _ ← function (path_push path name) relative; mret (Ok tt)
             | E_Dir name inner => for_each_entry function (path_push path name) (path_push relative name) inner
             | E_Other _ | E_NoType _ => mret (Ok tt)
             end) entry w = (_ ← for_each (λ _ f, function f.1 f.2) tt here; mret (Ok tt : result unit string)) w) as Hv.
    { rw -(IHe _ _ _ _ Hhere). by destruct entry. }
    transitivity ((r ← (_ ← for_each (λ _ f, function f.1 f.2) tt here; mret (Ok tt : result unit string));
                   match r with Err e => mret (Err e) | Ok _ => for_each_entry function path relative rest end) w).
    { rw /mbind /M_bind in Hv |- *. by rw Hv. }
    rw /mbind /M_bind for_each_app /mbind /M_bind. destruct (for_each _ tt here w) as [[[] w']|]; [|done].
    change (for_each_entry function path relative rest w' = (_ ← for_each (λ _ f, function f.1 f.2) tt below; mret (Ok tt)) w').
    by apply IHr.
Qed.

(** *** Validation and repair *)

Section commands_spec.
Context {W : Type} `{PearlTools W}.

(** The files of a disk with a suffix, and whether their paths are text. *)
Definition targets (suffix : string) (files : list (string * string)) : list string := filter (λ p, ends_with suffix p = true) files.*1.
Definition text_paths (files : list (string * string)) : Prop := Forall (λ f, utf8_valid (bytes_of_string f.1) = true) files.

(** A validator that only reads: the documented behaviour of the validation of [pearl]. *)
Definition reads_only (validate : string → M W (result unit string)) (valid : string → bool) (w : W) : Prop :=
  ∀ p, ∃ r, validate p w = Some (r, w) ∧ is_ok r = valid p.

Lemma validate_files_spec path suffix validate valid files w :
  files_below path EmptyString (pt_read_dir path w) = Some files → text_paths files → reads_only validate valid w →
  validate_files_recursive path suffix validate w = Some (Ok (filter (λ p, valid p = false) (targets suffix files)), w).
Proof.
  intros Hf Ht Hv. rw /validate_files_recursive /process_files_recursive /for_each_file_recursive.
  match goal with |- context [for_each_entry ?s _ _ _] => set (step := s) end.
  rw (for_each_entry_files step _ _ _ _ _ Hf).
  assert (∀ p relative acc, utf8_valid (bytes_of_string p) = true →
    step p relative (acc, w) = Some (tt, (acc ++ (if ends_with suffix p && negb (valid p) then [p] else []), w))) as Hstep.
  { intros p relative acc Hu. rw /step /path_to_str Hu /=. destruct (ends_with suffix p); simpl; [|by rw app_nil_r].
    destruct (Hv p) as (r & -> & <-). simpl. destruct r; simpl; [by rw app_nil_r|done]. }
  enough (∀ acc, for_each (λ _ f, step f.1 f.2) tt files (acc, w) = Some (tt, (acc ++ filter (λ p, valid p = false) (targets suffix files), w))) as He.
  { rw /mbind /M_bind (He []). done. }
  clear Hf. induction Ht as [|f files Hu _ IH]; intros acc; [by rw app_nil_r|].
  cbn [for_each]. rw (bind_run _ _ _ _ _ (Hstep f.1 f.2 acc Hu)) IH -app_assoc. do 4 f_equal.
  rw /targets fmap_cons !filter_cons. destruct (ends_with suffix f.1) eqn:He, (valid f.1) eqn:Hva; repeat case_decide; try congruence; try done.
  - rw filter_cons decide_False //. by rw Hva.
  - by rw filter_cons decide_True.
Qed.

Definition key_size_of (c : ValidateIndexCommand) : option (option nat) :=
  match vi_key_size c with
  | None => Some None
  | Some n => if decide (n ∈ [4; 8; 16; 32]) then Some (Some (Z.to_nat n)) else None
  end.

(** The user agreed, or was not to be asked; [None]: the input ended without an answer. *)
Definition agreed (skip : bool) (input : list string) : option bool := if skip then Some true else fst <$> ask_confirmation input.

Lemma confirmed_run skip input (w : W) : confirmed skip input w = (λ go, (go, w)) <$> agreed skip input.
Proof. rw /confirmed /agreed. destruct skip; [done|]. rw /expect /mbind /M_bind. by destruct (ask_confirmation input). Qed.

(** The command that validates the indices of a disk removes exactly the files with the suffix
    of an index that are not valid, each once and in the order of the walk, when it is asked
    to and the user agreed; otherwise it changes nothing.  A key size the tool does not know
    is refused before anything is read. *)
Theorem validate_index_removes c input size files valid w :
  key_size_of c = Some size → pt_is_file (vi_path c) w = false →
  files_below (vi_path c) EmptyString (pt_read_dir (vi_path c) w) = Some files → text_paths files →
  reads_only (pt_validate_index size) valid w →
  let bad := filter (λ p, valid p = false) (targets (vi_index_suffix c) files) in
  ValidateIndexCommand_run input c w =
    if vi_delete c && negb (bool_decide (bad = [])) then
      match agreed (vi_skip_confirmation c) input with
      | Some true => (_ ← for_each (λ _ p, _ ← pt_remove_file p; mret tt) tt bad; mret (Ok tt)) w
      | Some false => Some (Ok tt, w)
      | None => None
      end
    else Some (Ok tt, w).
Proof.
  intros Hsize Hfile Hf Ht Hv bad. rw /ValidateIndexCommand_run. fold (key_size_of c). rw Hsize.
  rw (bind_run _ _ w false w); [by rw /gets Hfile|]. rw (bind_run _ _ _ _ _ (validate_files_spec _ _ _ _ _ _ Hf Ht Hv)). fold bad.
  destruct (vi_delete c && negb (bool_decide (bad = []))); [|done].
  pose proof (confirmed_run (vi_skip_confirmation c) input w) as Hc. destruct (agreed (vi_skip_confirmation c) input) as [[]|]; simpl in Hc.
  - by rw (bind_run _ _ _ _ _ Hc).
  - by rw (bind_run _ _ _ _ _ Hc).
  - by rw /mbind /M_bind Hc.
Qed.

(** The walk of the migration writes every file with the suffix to the same place below the
    output, after its directory was made. *)
Theorem migrate_keeps_places c files w :
  pt_is_file (mg_input_path c) w = false →
  files_below (mg_input_path c) EmptyString (pt_read_dir (mg_input_path c) w) = Some files → text_paths files →
  (∀ dir w, ∃ w', pt_create_dir_all dir w = Some (Ok tt, w')) →
  (∀ a b e v w, ∃ r w', pt_migrate_blob a b e v w = Some (r, w')) →
  Forall (λ f, is_Some (path_file_name f.1)) files →
  ∃ w', MigrateCommand_run c w = Some (Ok tt, w') ∧
    for_each (λ _ f, if ends_with (mg_blob_suffix c) f.1 then
        let dir := path_push (mg_output_path c) f.2 in
        _ ← pt_create_dir_all dir;
        name ← expect (path_file_name f.1);
        _ ← pt_migrate_blob f.1 (path_push dir name) (mg_validate_every c) (mg_target_version c); mret tt
      else mret tt) tt files w = Some (tt, w').
Proof.
  intros Hfile Hf Ht Hdir Hmig Hnames. rw /MigrateCommand_run (bind_run _ _ w false w); [by rw /gets Hfile|].
  rw /process_files_recursive /for_each_file_recursive. match goal with |- context [for_each_entry ?s _ _ _] => set (step := s) end.
  match goal with |- context [for_each ?s tt files w] => set (reference := s) end.
  enough (∀ files acc w, text_paths files → Forall (λ f, is_Some (path_file_name f.1)) files →
    ∃ acc' w', for_each (λ _ f, step f.1 f.2) tt files (acc, w) = Some (tt, (acc', w')) ∧ for_each reference tt files w = Some (tt, w')) as He.
  { destruct (He files [] w Ht Hnames) as (acc' & w' & Hs & Hr). exists w'. split; [|done].
    rw /mbind /M_bind (for_each_entry_files step _ _ _ _ _ Hf) /mbind /M_bind Hs. done. }
  clear -Hdir Hmig. intros files. induction files as [|f files IH]; intros acc w Ht Hn; [by exists acc, w|].
  apply Forall_cons_1 in Ht as [Hu Ht]. apply Forall_cons_1 in Hn as [[name Hname] Hn].
  assert (∃ acc1 w1, step f.1 f.2 (acc, w) = Some (tt, (acc1, w1)) ∧ reference tt f w = Some (tt, w1)) as (acc1 & w1 & Hs & Hr).
  { rw /step /reference /path_to_str Hu /=. destruct (ends_with (mg_blob_suffix c) f.1); [|by eexists _, _].
    destruct (Hdir (path_push (mg_output_path c) f.2) w) as [w1 Hd]. rw !(bind_run _ _ _ _ _ Hd) Hname.
    destruct (Hmig f.1 (path_push (path_push (mg_output_path c) f.2) name) (mg_validate_every c) (mg_target_version c) w1) as (r & w2 & Hm).
    rw /expect /mbind /M_bind /option_bind /= Hm. by eexists _, _. }
  destruct (IH acc1 w1 Ht Hn) as (acc2 & w2 & Hs2 & Hr2). exists acc2, w2. cbn [for_each].
  by rw (bind_run _ _ _ _ _ Hs) (bind_run _ _ _ _ _ Hr).
Qed.
End commands_spec.

(** *** Backups and confirmation *)

Definition backup_name (path suffix : string) (i : nat) : string :=
  if 0 <? Z.of_nat i then path +:+ suffix +:+ "." +:+ fmt_dec (Z.of_nat i) else path.

Lemma append_eq_nil s t : s +:+ t = s → t = EmptyString.
Proof. intros He. apply (append_inj_l s). by rw append_nil_r. Qed.

Lemma backup_name_inj path suffix i j :
  Z.of_nat i < 2 ^ 31 → Z.of_nat j < 2 ^ 31 → backup_name path suffix i = backup_name path suffix j → i = j.
Proof.
  intros Hi Hj. rw /backup_name. destruct (Z.ltb_spec 0 (Z.of_nat i)), (Z.ltb_spec 0 (Z.of_nat j)); [| | |lia].
  - intros He%append_inj_l%append_inj_l%append_inj_l. apply (f_equal (parse_uint (10 ^ 20))) in He.
    rw !parse_fmt_dec_lt in He; [lia..|]. injection He as He. lia.
  - intros He%append_eq_nil. destruct suffix; done.
  - intros He%eq_sym%append_eq_nil. destruct suffix; done.
Qed.

Lemma backup_path_go_spec exists_ path suffix fuel i :
  match backup_path_go exists_ path suffix fuel (Z.of_nat i) with
  | Some p => exists_ p = false ∧ ∃ j, (i ≤ j)%nat ∧ p = backup_name path suffix j ∧ ∀ k, (i ≤ k < j)%nat → exists_ (backup_name path suffix k) = true
  | None => ∀ k, (i ≤ k < i + fuel)%nat → exists_ (backup_name path suffix k) = true
  end.
Proof.
  revert i. induction fuel as [|fuel IH]; intros i; cbn [backup_path_go]; [lia|].
  fold (backup_name path suffix i). destruct (exists_ (backup_name path suffix i)) eqn:He; simpl.
  - replace (Z.of_nat i + 1) with (Z.of_nat (S i)) by lia. specialize (IH (S i)). case_match.
    + destruct IH as (Hp & j & Hj & -> & Hk). split; [done|]. exists j. split; [lia|]. split; [done|]. intros k Hik.
      destruct (decide (k = i)) as [->|]; [done|]. apply Hk. lia.
    + intros k Hk. destruct (decide (k = i)) as [->|]; [done|]. apply IH. lia.
  - split; [done|]. exists i. split; [done|]. split; [done|]. lia.
Qed.

(** A backup never overwrites a file: among fewer than 2^31 files the search ends, with the first free
    name; the blob itself is there, so that is the suffix with a number. *)
Theorem backup_path_free (files : gset string) path suffix fuel :
  Z.of_nat (size files) < 2 ^ 31 - 1 → path ∈ files → (size files < fuel)%nat →
  ∃ i, get_backup_path (λ p, bool_decide (p ∈ files)) fuel path suffix = Some (path +:+ suffix +:+ "." +:+ fmt_dec (Z.of_nat i)) ∧
    (1 ≤ i)%nat ∧ (path +:+ suffix +:+ "." +:+ fmt_dec (Z.of_nat i)) ∉ files ∧
    ∀ k, (1 ≤ k < i)%nat → (path +:+ suffix +:+ "." +:+ fmt_dec (Z.of_nat k)) ∈ files.
Proof.
  intros Hsize Hin Hfuel. pose proof (backup_path_go_spec (λ p, bool_decide (p ∈ files)) path suffix fuel 0) as Hs.
  rw /get_backup_path. change (Z.of_nat 0) with 0 in Hs. assert (∀ k, (1 ≤ k)%nat → backup_name path suffix k = path +:+ suffix +:+ "." +:+ fmt_dec (Z.of_nat k)) as Hname.
  { intros k Hk. rw /backup_name. destruct (Z.ltb_spec 0 (Z.of_nat k)); [done|lia]. }
  destruct (backup_path_go _ path suffix fuel 0) as [p|].
  - destruct Hs as (Hp%bool_decide_eq_false & j & _ & -> & Hk). destruct j as [|j]; [done|]. exists (S j).
    rw (Hname (S j)) in Hp |- *; [lia|]. split_and!; [done|lia|done|]. intros k Hkj. rw -Hname; [lia|].
    by apply (bool_decide_eq_true_1 _), Hk; lia.
  - exfalso. set (names := backup_name path suffix <$> seq 0 (S (size files))).
    assert (NoDup names) as Hnd.
    { apply NoDup_fmap_2_strong; [|apply NoDup_seq]. intros a b Ha%elem_of_seq Hb%elem_of_seq. apply backup_name_inj; lia. }
    assert (size (list_to_set names : gset string) ≤ size files)%nat as Hle.
    { apply subseteq_size. intros p Hp%elem_of_list_to_set. apply list_elem_of_fmap in Hp as (k & -> & Hk%elem_of_seq).
      apply (bool_decide_eq_true_1 _), Hs. lia. }
    rw size_list_to_set // length_fmap length_seq in Hle. lia.
Qed.

(** The question is asked until a line answers it; when the input ends before, it is asked for
    ever. *)
Lemma ask_confirmation_spec input :
  match ask_confirmation input with
  | Some (b, rest) => ∃ pre line, input = pre ++ line :: rest ∧ ask_confirmation pre = None ∧
      str_trim line ∈ (if b then ["y"; "Y"] else ["n"; "N"])
  | None => Forall (λ line, str_trim line ∉ ["y"; "Y"; "n"; "N"]) input
  end.
Proof.
  induction input as [|line input IH]; [by constructor|]. cbn [ask_confirmation].
  destruct (bool_decide (str_trim line = "y") || bool_decide (str_trim line = "Y")) eqn:Hy.
  { exists [], line. split_and!; [done|done|]. apply orb_true_iff in Hy as [->%bool_decide_eq_true| ->%bool_decide_eq_true]; set_solver. }
  destruct (bool_decide (str_trim line = "n") || bool_decide (str_trim line = "N")) eqn:Hn.
  { exists [], line. split_and!; [done|done|]. apply orb_true_iff in Hn as [->%bool_decide_eq_true| ->%bool_decide_eq_true]; set_solver. }
  destruct (ask_confirmation input) as [[b rest]|].
  - destruct IH as (pre & answer & -> & Hpre & Ha). exists (line :: pre), answer. split_and!; [done| |done].
    cbn [ask_confirmation]. by rw Hy Hn.
  - constructor; [|done]. apply orb_false_iff in Hy as [?%bool_decide_eq_false ?%bool_decide_eq_false].
    apply orb_false_iff in Hn as [?%bool_decide_eq_false ?%bool_decide_eq_false]. set_solver.
Qed.

(** *** A disk in memory *)

(** A directory, which of its files are valid, and the files removed so far. *)
Record ToyDisk : Type := { td_contents : DirContents; td_valid : string → bool; td_removed : list string }.
#[local] Instance toy_tools : PearlTools ToyDisk := {|
  pt_is_file _ _ := false;
  pt_read_dir _ w := td_contents w;
  pt_exists p w := negb (bool_decide (p ∈ td_removed w));
  pt_remove_file p w := Some (Ok tt, {| td_contents := td_contents w; td_valid := td_valid w; td_removed := td_removed w ++ [p] |});
  pt_create_dir_all _ w := Some (Ok tt, w);
  pt_validate_blob p w := Some (if td_valid w p then Ok tt else Err "corrupted", w);
  pt_validate_index _ p w := Some (if td_valid w p then Ok tt else Err "corrupted", w);
  pt_recovery_blob _ _ _ _ w := Some (Ok tt, w);
  pt_move_and_recover_blob _ _ _ w := Some (Ok tt, w);
  pt_migrate_blob _ _ _ _ w := Some (Ok tt, w);
|}.

Definition toy_disk : ToyDisk := {|
  td_contents := DC_Entry (E_Dir "a" (DC_Entry (E_File "0.index") (DC_Entry (E_File "0.blob") DC_End)))
                   (DC_Error (DC_Entry (E_File "1.index") DC_End));
  td_valid p := bool_decide (p = "/d/1.index"); td_removed := [];
|}.
Definition toy_command : ValidateIndexCommand :=
  {| vi_path := "/d"; vi_index_suffix := "index"; vi_delete := true; vi_skip_confirmation := false; vi_key_size := Some 8 |}.

Lemma validate_index_removes_witness :
  td_removed ∘ snd <$> ValidateIndexCommand_run ["maybe"; "y"] toy_command toy_disk = Some ["/d/a/0.index"] ∧
  td_removed ∘ snd <$> ValidateIndexCommand_run ["no"; "N"] toy_command toy_disk = Some [].
Proof.
  assert (files_below "/d" EmptyString (td_contents toy_disk) =
    Some [("/d/a/0.index", "a"); ("/d/a/0.blob", "a"); ("/d/1.index", EmptyString)]) as Hf by reflexivity.
  assert (reads_only (pt_validate_index (Some 8%nat)) (td_valid toy_disk) toy_disk) as Hv.
  { intros p. eexists. split; [reflexivity|]. by destruct (td_valid toy_disk p). }
  assert (text_paths [("/d/a/0.index", "a"); ("/d/a/0.blob", "a"); ("/d/1.index", EmptyString)]) as Ht by (repeat constructor).
  assert (pt_is_file (vi_path toy_command) toy_disk = false) as Hfile by reflexivity.
  assert (key_size_of toy_command = Some (Some 8%nat)) as Hsize by (apply (bool_decide_unpack _); vm_compute; exact I).
  split.
  - rw (validate_index_removes toy_command ["maybe"; "y"] _ _ _ toy_disk Hsize Hfile Hf Ht Hv). reflexivity.
  - rw (validate_index_removes toy_command ["no"; "N"] _ _ _ toy_disk Hsize Hfile Hf Ht Hv). reflexivity.
Defined.

Lemma backup_path_free_witness :
  ∃ i, get_backup_path (λ p, bool_decide (p ∈ ({["/d/0.blob"; "/d/0.blob.backup.1"]} : gset string))) 4 "/d/0.blob" ".backup" =
    Some ("/d/0.blob" +:+ ".backup" +:+ "." +:+ fmt_dec (Z.of_nat i)) ∧ (1 ≤ i)%nat.
Proof.
  destruct (backup_path_free {["/d/0.blob"; "/d/0.blob.backup.1"]} "/d/0.blob" ".backup" 4) as (i & Hb & Hi & _);
    [reflexivity|set_solver|apply Nat.ltb_lt; reflexivity|]. by exists i.
Defined.
