(* ===== verification/GrpcTools.v ===== *)
(** * GrpcTools: what the command-line clients share

    [bob-apps/bin/bobc.rs] and [bobp.rs] build requests in the same way: an optional basic
    authorization, keys from numbers.  Their gRPC client, the files and the clock are the
    classes [ToolClient] and [ToolFiles]. *)

From Corelib Require Import ssreflect.
From stdpp Require Import base option list relations strings gmap numbers.
From Stdlib Require Import Strings.Ascii Strings.Byte ZArith Lia.
From S2P Require Import Prelude Data Text Errors Options Node ClusterConfig NodeConfig Network RecoveryTool.

(** A request with the value of its header [authorization]. *)
Record Request (T : Type) : Type := { rq_authorization : option string; rq_message : T }.
Arguments rq_authorization {T}. Arguments rq_message {T}.

(** The generated client, connected to a node, and the seconds since the epoch. *)
Class ToolClient (W : Type) := {
  tc_put : Request PutRequest → M W (result unit Status);
  tc_get : Request GetRequest → M W (result (list byte) Status);
  tc_exist : Request ExistRequest → M W (result (list bool) Status);
  tc_delete : Request DeleteRequest → M W (result unit Status);
  tc_now : M W Z;
}.

(** Files; a path with whether it is a directory for every entry of a directory, [None] when it
    cannot be read. *)
Class ToolFiles (W : Type) := {
  tf_read : string → M W (result (list byte) string);
  tf_write : string → list byte → M W (result unit string);
  tf_read_dir : string → W → option (list (string * bool));
}.

Class Base64Encode := base64_encode : list byte → string.

(** [request_creator] and [get_request_creator] *)
Definition request_creator `{Base64Encode} {T} (user password : option string) (message : T) : Request T :=
  let do_auth := bool_decide (is_Some user) && bool_decide (is_Some password) in
  let credentials := default EmptyString user +:+ ":" +:+ default EmptyString password in
  let authorization := "Basic " +:+ base64_encode (bytes_of_string credentials) in
  {| rq_authorization := if do_auth then Some authorization else None; rq_message := message |}.

(** [get_key] and [get_proper_key] *)
Definition get_key (k : Z) (key_size : nat) : list byte := vec_resize key_size x00 (to_le_bytes 8 k).

(** [value_or_default]: the value, or the empty string, parsed; [None] aborts. *)
Definition value_or_default {T} (parse : string → option T) (m : ArgMatches) (key : string) : option T :=
  parse (default EmptyString (value_of m key)).

(** [256_u64.pow(key_size as u32) - 1], for a size below 8 *)
Definition max_key (key_size : nat) : Z := 256 ^ Z.of_nat key_size - 1.

Lemma to_le_bytes_split n m k : to_le_bytes (n + m) k = to_le_bytes n k ++ to_le_bytes m (k / 256 ^ Z.of_nat n).
Proof.
  revert k. induction n as [|n IH]; intros k; simpl; [by rw Z.pow_0_r Z.div_1_r|]. f_equal. rw IH. f_equal. f_equal.
  rw Nat2Z.inj_succ Z.pow_succ_r; [lia|]. by rw Z.div_div; [lia|lia|].
Qed.

(** The key of a number: its little-endian bytes, as many as the size of keys. *)
Lemma get_key_le k n : 0 ≤ k < 2 ^ 64 → get_key k n = to_le_bytes n k.
Proof.
  intros Hk. rw /get_key /vec_resize length_to_le_bytes. destruct (decide (n ≤ 8)%nat) as [Hn|Hn].
  - replace (n - 8)%nat with 0%nat by lia. rw app_nil_r. replace 8%nat with (n + (8 - n))%nat by lia.
    rw to_le_bytes_split take_app_length' //. by rw length_to_le_bytes.
  - rw take_ge; [rw length_to_le_bytes; lia|]. replace n with (8 + (n - 8))%nat at 2 by lia.
    rw to_le_bytes_split (Z.div_small k); [done|]. by rw to_le_bytes_zero.
Qed.

Lemma get_key_fits k n : 0 ≤ k < 2 ^ 64 → (8 ≤ n)%nat ∨ k ≤ max_key n → length (get_key k n) = n ∧ from_le_bytes (get_key k n) = k.
Proof.
  intros Hk Hn. rw get_key_le // length_to_le_bytes from_to_le_bytes. split; [done|]. apply Z.mod_small. split; [lia|].
  destruct Hn as [Hn|Hn]; [|rw /max_key in Hn; lia]. eapply Z.lt_le_trans; [apply Hk|].
  change (2 ^ 64) with (256 ^ Z.of_nat 8). apply Z.pow_le_mono_r; lia.
Qed.
