(* ===== verification/Bobc.v ===== *)
(** * Bobc: the command-line client

    [bob-apps/bin/bobc.rs]: patterns of keys and files, and the commands put, get, exist and
    delete.  The regular expressions are those of the class [RegexCrate]; what is logged is
    left out. *)

From Corelib Require Import ssreflect.
From stdpp Require Import base option list relations strings gmap numbers.
From Stdlib Require Import Strings.Ascii Strings.Byte ZArith Lia.
From S2P Require Import Prelude Data Text Errors Options Node ClusterConfig NodeConfig PearlUtils Network RecoveryTool GrpcTools.

(** The crate [regex]: [escape], and the first group of the first match of a pattern in a text. *)
Class RegexCrate := { regex_escape : string → string; regex_captures : string → string → option string }.

(** ** Patterns of keys *)

Inductive KeyPattern : Type :=
| KP_Single (key : Z)
| KP_Range (first last : Z)
| KP_Multiple (keys : list Z).

(** [keypattern_iter_next]: the key, and the index afterwards. *)
Definition keypattern_iter_next (keyp : KeyPattern) (index : Z) : option Z * Z :=
  match keyp with
  | KP_Single val => if index =? 0 then (Some val, index + 1) else (None, index)
  | KP_Multiple vec => (vec !! Z.to_nat index, wrap64 (index + 1))
  | KP_Range first last =>
      let val := wrap64 (first + index) in
      (if val <=? last then Some val else None, wrap64 (index + 1))
  end.

(** The keys of an iterator from [index] on; [None]: not at its end within the fuel. *)
Fixpoint keys_from (keyp : KeyPattern) (fuel : nat) (index : Z) : option (list Z) :=
  match fuel with
  | O => None
  | S fuel =>
      match keypattern_iter_next keyp index with
      | (Some key, index) => keys ← keys_from keyp fuel index; Some (key :: keys)
      | (None, _) => Some []
      end
  end.
Definition pattern_keys (keyp : KeyPattern) (fuel : nat) : option (list Z) := keys_from keyp fuel 0.

Inductive ParseError : Type := PE_FilePattern | PE_KeyPattern.

(** [parse_key_pattern]; [None]: the [unwrap] of an element of a list. *)
Definition parse_key_pattern (key_arg_cont : string) : option (result KeyPattern ParseError) :=
  match parse_u64 key_arg_cont with
  | Some key => Some (Ok (KP_Single key))
  | None =>
      if str_contains "-" key_arg_cont then
        Some match split_char "-"%char key_arg_cont with
             | [s0; s1] =>
                 v0 <-? ok_or (parse_u64 s0) PE_KeyPattern;
                 v1 <-? ok_or (parse_u64 s1) PE_KeyPattern;
                 if v1 <=? v0 then Err PE_KeyPattern else Ok (KP_Range v0 v1)
             | _ => Err PE_KeyPattern
             end
      else keys ← mapM parse_u64 (split_char ","%char key_arg_cont); Some (Ok (KP_Multiple keys))
  end.

(** ** Patterns of files *)

(** A path with ["{key}"], with its directory; or a path. *)
Inductive FilePattern : Type :=
| FP_WithRE (inner : string) (dir : string)
| FP_WithoutRE (path : string).

(** The matches of a text in another that do not overlap *)
Fixpoint count_go (p s : string) (skip : nat) : nat :=
  match s with
  | EmptyString => 0
  | String _ s' => match skip with
      | S k => count_go p s' k
      | O => if is_prefix p s then S (count_go p s' (String.length p - 1)) else count_go p s' 0
      end
  end.

(** [Path::parent] of a path with a file name *)
Fixpoint strip_slashes (l : list ascii) : list ascii :=
  match l with c :: l' => if bool_decide (c = "/"%char) then strip_slashes l' else l | [] => [] end.
Fixpoint drop_component (l : list ascii) : list ascii :=
  match l with c :: l' => if bool_decide (c = "/"%char) then l else drop_component l' | [] => [] end.
Definition path_parent (p : string) : string :=
  let rev := reverse (String.list_ascii_of_string p) in
  match drop_component (strip_slashes rev) with
  | [] => EmptyString
  | dir => match strip_slashes dir with [] => "/" | dir => String.string_of_list_ascii (reverse dir) end
  end.

Definition KEY_FIELD : string := "{key}".

(** [parse_file_pattern]; [None]: a path without a file name. *)
Definition parse_file_pattern (file_pattern : string) : option (result FilePattern ParseError) :=
  name ← path_file_name file_pattern;
  Some match count_go KEY_FIELD name 0 with
       | O => Ok (FP_WithoutRE file_pattern)
       | S O => let dir := path_parent file_pattern in
                Ok (FP_WithRE file_pattern (if bool_decide (dir = EmptyString) then "." else dir))
       | _ => Err PE_FilePattern
       end.

Section patterns.
Context `{RegexCrate}.
Definition get_regex (inner : string) : string := str_replace "\{key\}" "(\d+)" (regex_escape inner).
End patterns.

(** A key and the file of its data *)
Record KeyName : Type := { kn_key : Z; kn_name : string }.
Definition get_filenames (inner : string) (keys : list Z) : list KeyName :=
  (λ key, {| kn_key := key; kn_name := str_replace KEY_FIELD (fmt_dec key) inner |}) <$> keys.

(** ** Arguments *)

Record AppArgs : Type := {
  ap_subcommand : string;
  ap_file_pattern : option FilePattern;
  ap_key_pattern : option KeyPattern;
  ap_keysize : Z;
  ap_host : string;
  ap_port : Z;
  ap_user : option string;
  ap_password : option string;
}.

(** An argument that is not given, or given and well-formed; [None] aborts. *)
Definition optional_arg {T} (parse : string → option (result T ParseError)) (arg : option string) : option (option T) :=
  match arg with
  | None => Some None
  | Some p => r ← parse p; match r with Ok val => Some (Some val) | Err _ => None end
  end.

Definition AppArgs_from_matches (sc : string) (m : ArgMatches) : option AppArgs :=
  file_pattern ← optional_arg parse_file_pattern (value_of m "file");
  key_pattern ← optional_arg parse_key_pattern (value_of m "key");
  keysize ← value_or_default parse_u64 m "key-size";
  host ← value_or_default Some m "host";
  port ← value_or_default (parse_uint (2 ^ 16)) m "port";
  Some {| ap_subcommand := sc; ap_file_pattern := file_pattern; ap_key_pattern := key_pattern; ap_keysize := keysize;
          ap_host := host; ap_port := port; ap_user := value_of m "user"; ap_password := value_of m "password" |}.

(** The address [get_uri] builds *)
Definition get_uri (target : string) (port : Z) : string := "http://" +:+ target +:+ ":" +:+ fmt_dec port +:+ "/".

(** [get_key_value]; [None]: the key does not fit into the size. *)
Definition get_key_value (key : Z) (key_size : nat) : option (list byte) :=
  let max_allowed_key := if Nat.leb 8 key_size then u64_max else max_key key_size in
  if max_allowed_key <? key then None else Some (get_key key key_size).

(** ** Commands *)

Section commands.
Context {W : Type} `{ToolClient W, ToolFiles W, RegexCrate, Base64Encode}.
Context (user password : option string).

Definition bobc_put (key : Z) (key_size : nat) (filename : string) : M W unit :=
  r ← tf_read filename;
  match r with
  | Err _ => mret tt
  | Ok data =>
      timestamp ← tc_now;
      key_value ← expect (get_key_value key key_size);
      _ ← tc_put (request_creator user password {| prq_key := Some key_value;
            prq_data := Some {| blob_data := data; blob_meta := Some timestamp |}; prq_options := None |});
      mret tt
  end.

Definition bobc_get (key : Z) (key_size : nat) (filename : string) : M W unit :=
  key_value ← expect (get_key_value key key_size);
  res ← tc_get (request_creator user password {| grq_key := Some key_value; grq_options := None |});
  match res with
  | Ok data => _ ← tf_write filename data; mret tt
  | Err _ => mret tt
  end.

(** The pairs of keys and answers that are logged. *)
Definition bobc_exist (keys : list Z) (key_size : nat) : M W (list (Z * bool)) :=
  k ← expect (mapM (λ key, get_key_value key key_size) keys);
  res ← tc_exist (request_creator user password {| erq_keys := k; erq_options := None |});
  mret (match res with Ok data => zip keys data | Err _ => [] end).

Definition bobc_delete (key : Z) (key_size : nat) : M W unit :=
  timestamp ← tc_now;
  key_value ← expect (get_key_value key key_size);
  _ ← tc_delete (request_creator user password {| drq_key := Some key_value; drq_meta := Some timestamp; drq_options := None |});
  mret tt.

(** [prepare_put_from_pattern] *)
Definition prepare_put_from_pattern (re_path dir : string) : M W (list KeyName) := λ w,
  entries ← tf_read_dir dir w;
  names ← ofold (λ names (e : string * bool),
    if e.2 then Some names
    else match regex_captures re_path e.1 with
         | Some cap => key ← parse_u64 cap; Some (names ++ [{| kn_key := key; kn_name := e.1 |}])
         | None => Some names
         end) [] entries;
  Some (names, w).

Definition for_names (f : KeyName → M W unit) (l : list KeyName) : M W unit := for_each (λ _ kn, f kn) tt l.

(** [main] after the arguments and the connection; [fuel] is for the iterators of the keys. *)
Definition bobc_main (fuel : nat) (a : AppArgs) : M W unit :=
  let key_size := Z.to_nat (ap_keysize a) in
  let keys p := expect (pattern_keys p fuel) in
  if bool_decide (ap_subcommand a = "put") then
    file ← expect (ap_file_pattern a);
    match file, ap_key_pattern a with
    | FP_WithRE re dir, None =>
        l ← prepare_put_from_pattern (get_regex re) dir; for_names (λ kn, bobc_put (kn_key kn) key_size (kn_name kn)) l
    | FP_WithRE re _, Some p =>
        ks ← keys p; for_names (λ kn, bobc_put (kn_key kn) key_size (kn_name kn)) (get_filenames re ks)
    | FP_WithoutRE path, Some p =>
        ks ← keys p; for_names (λ kn, bobc_put (kn_key kn) key_size (kn_name kn)) ((λ key, {| kn_key := key; kn_name := path |}) <$> ks)
    | FP_WithoutRE _, None => mret tt
    end
  else if bool_decide (ap_subcommand a = "get") then
    file ← expect (ap_file_pattern a);
    p ← expect (ap_key_pattern a);
    match file, p with
    | FP_WithRE re _, p => ks ← keys p; for_names (λ kn, bobc_get (kn_key kn) key_size (kn_name kn)) (get_filenames re ks)
    | FP_WithoutRE path, KP_Single key => bobc_get key key_size path
    | FP_WithoutRE _, _ => mret tt
    end
  else if bool_decide (ap_subcommand a = "exist") then
    p ← expect (ap_key_pattern a); ks ← keys p; _ ← bobc_exist ks key_size; mret tt
  else if bool_decide (ap_subcommand a = "delete") then
    p ← expect (ap_key_pattern a); ks ← keys p; for_each (λ _ key, bobc_delete key key_size) tt ks
  else panic.
End commands.

(** ** Lemmas *)

Lemma radix10_digits_sep bound acc s sep t :
  to_digit10 sep = None → radix10_digits bound acc (s +:+ String sep t) = None.
Proof.
  intros Hsep. revert acc. induction s as [|c s IH]; intros acc; rw ?append_cons /=; [by rw Hsep|].
  destruct (to_digit10 c) as [d|]; [|done]. simpl. by case_match.
Qed.

(** A number followed by a separator is not a number. *)
Lemma parse_uint_sep bound n sep t : 0 ≤ n → to_digit10 sep = None → parse_uint bound (fmt_dec n +:+ String sep t) = None.
Proof.
  intros Hn Hsep. pose proof (radix10_digits_sep bound 0 (fmt_dec n) sep t Hsep) as Hr.
  destruct (dec_go_head 20 n EmptyString) as (d & u & Hd & Heq); [lia|lia|].
  change (dec_go 20 n EmptyString) with (fmt_dec n) in Heq. destruct (dec_digit_not_sign d Hd) as [Hp _].
  rw Heq append_cons in Hr. rw Heq append_cons /parse_uint. destruct (u +:+ String sep t) as [|c v] eqn:Hv; [by destruct u|].
  by rw decide_False.
Qed.

Lemma fmt_dec_no_sep sep n : 0 ≤ n → to_digit10 sep = None → no_sep sep (fmt_dec n).
Proof. intros. apply dec_go_no_sep; [done|done|]. by intros [|i] c. Qed.

Lemma str_contains_app c s t : str_contains (String c EmptyString) (s +:+ String c t) = true.
Proof.
  induction s as [|d s IH]; rw ?append_cons; simpl; [by rw bool_decide_true|]. by rw IH orb_true_r.
Qed.

Lemma str_contains_no_sep c s : no_sep c s → str_contains (String c EmptyString) s = false.
Proof.
  induction s as [|d s IH]; intros Hs; simpl; [done|]. rw IH; [intros i; apply (Hs (S i))|].
  rw bool_decide_false //. intros ->. by apply (Hs 0%nat d).
Qed.

(** ** Patterns of keys: the argument, the pattern and its keys *)

(** The numbers a pattern stands for *)
Definition keys_of (p : KeyPattern) : list Z :=
  match p with KP_Single k => [k] | KP_Range a b => seqZ a (b - a + 1) | KP_Multiple ks => ks end.

(** The argument of a pattern: one number, two numbers in order, or at least two in a list. *)
Definition key_argument (p : KeyPattern) : string :=
  match p with
  | KP_Single k => fmt_dec k
  | KP_Range a b => fmt_dec a +:+ "-" +:+ fmt_dec b
  | KP_Multiple ks => join "," (fmt_dec <$> ks)
  end.
Definition key_pattern_wf (p : KeyPattern) : Prop :=
  match p with
  | KP_Single k => u64 k
  | KP_Range a b => u64 a ∧ u64 b ∧ a < b
  | KP_Multiple ks => Forall u64 ks ∧ (2 ≤ length ks)%nat ∧ Z.of_nat (length ks) < u64_max
  end.

Lemma parse_key_argument p : key_pattern_wf p → parse_key_pattern (key_argument p) = Some (Ok p).
Proof.
  assert (∀ n, u64 n → parse_u64 (fmt_dec n) = Some n) as Hp by (intros n [? ?]; rw /parse_u64; apply parse_fmt_dec; lia).
  destruct p as [k|a b|ks]; intros Hw; rw /parse_key_pattern /key_argument.
  - by rw Hp.
  - destruct Hw as (Ha & Hb & Hlt). pose proof Ha as [Ha0 _]. pose proof Hb as [Hb0 _].
    assert (split_char "-" (fmt_dec a +:+ String "-"%char (fmt_dec b)) = [fmt_dec a; fmt_dec b]) as Hsplit.
    { apply (split_char_join "-"%char [fmt_dec a; fmt_dec b]); [done|].
      repeat (constructor; [by apply fmt_dec_no_sep|]). constructor. }
    change ("-" +:+ fmt_dec b) with (String "-"%char (fmt_dec b)).
    rw {1}/parse_u64 parse_uint_sep //. rw str_contains_app Hsplit.
    rw !Hp //=. by rw (proj2 (Z.leb_gt b a)).
  - destruct Hw as (Hks & Hlen & _).
    assert (Forall (no_sep ","%char) (fmt_dec <$> ks)) as Hc.
    { apply list.Forall_fmap. eapply list.Forall_impl; [exact Hks|]. intros k [? ?]. by apply fmt_dec_no_sep. }
    assert (Forall (no_sep "-"%char) (fmt_dec <$> ks)) as Hm.
    { apply list.Forall_fmap. eapply list.Forall_impl; [exact Hks|]. intros k [? ?]. by apply fmt_dec_no_sep. }
    assert (parse_u64 (join "," (fmt_dec <$> ks)) = None) as ->.
    { destruct ks as [|k [|k' ks]]; simpl in Hlen; [lia..|]. apply list.Forall_cons in Hks as [[? ?] _].
      change (join "," (fmt_dec <$> k :: k' :: ks)) with (fmt_dec k +:+ String ","%char (join "," (fmt_dec <$> k' :: ks))).
      by apply parse_uint_sep. }
    rw str_contains_no_sep; [by apply no_sep_join|]. rw split_char_join //; [by destruct ks; simpl in *; [lia|]|].
    assert (mapM parse_u64 (fmt_dec <$> ks) = Some ks) as ->; [|done].
    clear -Hks Hp. apply mapM_Some. induction Hks; csimpl; constructor; auto.
Qed.

(** A range that ends before the largest number, or a list or a single key, is iterated to its end. *)
Definition key_pattern_ends (p : KeyPattern) : Prop := match p with KP_Range _ b => b < u64_max | _ => True end.

Lemma range_keys a b i fuel : u64 a → b < u64_max → 0 ≤ i → a + i ≤ b + 1 →
  (Z.to_nat (b + 1 - (a + i)) < fuel)%nat → keys_from (KP_Range a b) fuel i = Some (seqZ (a + i) (b + 1 - (a + i))).
Proof.
  intros [Ha Ha'] Hb. rw /u64_max in Hb. revert i. induction fuel as [|fuel IH]; intros i Hi Hle Hf; [lia|].
  cbn [keys_from keypattern_iter_next]. rw (wrap64_small (a + i)); [lia|]. destruct (Z.leb_spec (a + i) b).
  - rw wrap64_small; [lia|]. rw IH; [lia..|]. simpl. rw (seqZ_cons (a + i)); [lia|].
    do 3 f_equal; lia.
  - by replace (b + 1 - (a + i)) with 0 by lia.
Qed.

Lemma list_keys ks n fuel : Z.of_nat (length ks) < u64_max → (n ≤ length ks)%nat → (length ks - n < fuel)%nat →
  keys_from (KP_Multiple ks) fuel (Z.of_nat n) = Some (drop n ks).
Proof.
  intros Hb. rw /u64_max in Hb. revert n. induction fuel as [|fuel IH]; intros n Hn Hf; [lia|].
  cbn [keys_from keypattern_iter_next]. rw Nat2Z.id. destruct (ks !! n) as [k|] eqn:Hk.
  - pose proof (lookup_lt_Some _ _ _ Hk). rw wrap64_small; [lia|].
    replace (Z.of_nat n + 1) with (Z.of_nat (S n)) by lia. rw IH; [lia..|]. simpl. by rw (drop_S ks k n).
  - apply lookup_ge_None in Hk. by rw drop_ge.
Qed.

Lemma pattern_keys_of p fuel : key_pattern_wf p → key_pattern_ends p → (length (keys_of p) < fuel)%nat →
  pattern_keys p fuel = Some (keys_of p).
Proof.
  destruct p as [k|a b|ks]; rw /pattern_keys; intros Hw He Hf; simpl in *.
  - destruct fuel as [|[|fuel]]; [lia..|done].
  - destruct Hw as (Ha & Hb & Hlt). rw length_seqZ in Hf. rw range_keys //; [lia..|]. f_equal. f_equal; lia.
  - change 0 with (Z.of_nat 0). rw list_keys; [tauto|lia|lia|done].
Qed.

(** ** Properties *)

(** What is given as the keys on the command line - a number, two numbers with a dash, numbers
    with commas - is parsed to the pattern it denotes, and the iterator of a pattern that does
    not end at the largest key yields exactly its keys, in order, and stops. *)
Theorem key_arguments p fuel : key_pattern_wf p → key_pattern_ends p → (length (keys_of p) < fuel)%nat →
  parse_key_pattern (key_argument p) = Some (Ok p) ∧ pattern_keys p fuel = Some (keys_of p).
Proof. intros. split; [by apply parse_key_argument|by apply pattern_keys_of]. Qed.

Lemma key_arguments_witness :
  (parse_key_pattern "17-20" = Some (Ok (KP_Range 17 20)) ∧ pattern_keys (KP_Range 17 20) 5 = Some [17; 18; 19; 20])
  ∧ (parse_key_pattern "5,3,5" = Some (Ok (KP_Multiple [5; 3; 5])) ∧ pattern_keys (KP_Multiple [5; 3; 5]) 4 = Some [5; 3; 5]).
Proof.
  split.
  - apply (key_arguments (KP_Range 17 20) 5); [by rw /key_pattern_wf /u64|done|by apply Nat.ltb_lt].
  - apply (key_arguments (KP_Multiple [5; 3; 5]) 4); [|done|by apply Nat.ltb_lt].
    split; [repeat (constructor; [done|]); constructor|split; [by apply Nat.leb_le|done]].
Defined.

(** A range up to the largest key never ends: after it the sum of the start and the index
    wraps to a number that is again below the end. *)
Theorem range_to_the_last_key a fuel i : keys_from (KP_Range a u64_max) fuel i = None.
Proof.
  revert i. induction fuel as [|fuel IH]; intros i; [done|]. cbn [keys_from keypattern_iter_next].
  rw (proj2 (Z.leb_le _ _)); [|by rw IH]. rw /u64_max /wrap64.
  pose proof (Z.mod_pos_bound (a + i) (2 ^ 64)). lia.
Qed.
