(* ===== verification/Bobp.v ===== *)
(** * Bobp: the benchmark

    [bob-apps/bin/bobp.rs]: the configuration from the command line, the workers with the
    statistics they share, and the figures that are printed.  Clock and random numbers are the
    class [BenchTools]; a worker is a program ([Tasks.v]) on [Statistics * V], where the counters are
    those of [Statistics] and [V] is what the clients see: every call of a client and every update
    of a counter is a step of its own, between which other workers go on.  What is printed is
    returned as numbers. *)

From Corelib Require Import ssreflect.
From stdpp Require Import base option list relations strings gmap numbers.
From Stdlib Require Import Floats.SpecFloat Sorting.Sorted Strings.Ascii Strings.Byte ZArith Lia.
From S2P Require Import Prelude Tasks Data Text Errors Options Node ClusterConfig NodeConfig Network Float RecoveryTool GrpcTools.

(** ** Configuration *)

Record NetConfig : Type := {
  bn_port : Z; bn_target : string; bn_ca_cert_path : option string; bn_tls_domain_name : option string;
}.
Definition NetConfig_from_matches (m : ArgMatches) : option NetConfig :=
  port ← value_or_default (parse_uint (2 ^ 16)) m "port";
  target ← value_or_default Some m "host";
  Some {| bn_port := port; bn_target := target; bn_ca_cert_path := value_of m "ca_path"; bn_tls_domain_name := value_of m "domain_name" |}.

Inductive Mode : Type := Mode_Normal | Mode_Random.
#[global] Instance Mode_eq_dec : EqDecision Mode.
Proof. solve_decision. Defined.
Definition Mode_from_str (s : string) : option Mode :=
  if bool_decide (s = "normal") then Some Mode_Normal else if bool_decide (s = "random") then Some Mode_Random else None.

Record TaskConfig : Type := {
  tk_low_idx : Z;
  tk_count : Z;
  tk_payload_size : Z;
  tk_direct : bool;
  tk_mode : Mode;
  tk_measure_time : bool;
  tk_key_size : nat;
  tk_basic_username : option string;
  tk_basic_password : option string;
  tk_packet_size : Z;
}.

Definition TaskConfig_from_matches (m : ArgMatches) : option TaskConfig :=
  mode_string ← value_or_default Some m "normal";
  let mode := default Mode_Normal (Mode_from_str mode_string) in
  key_size ← value_or_default parse_u64 m "keysize";
  low_idx ← value_or_default parse_u64 m "first";
  count ← value_or_default parse_u64 m "count";
  if (key_size <? 8) && (max_key (Z.to_nat key_size) <? wrap64 (low_idx + count)) then None
  else
    packet_size ← value_or_default parse_u64 m "packet_size";
    payload_size ← value_or_default parse_u64 m "payload";
    Some {| tk_low_idx := low_idx; tk_count := count; tk_payload_size := payload_size; tk_direct := is_present m "direct";
            tk_mode := mode; tk_measure_time := false; tk_key_size := Z.to_nat key_size;
            tk_basic_username := value_of m "user"; tk_basic_password := value_of m "password"; tk_packet_size := packet_size |}.

Definition find_get_options (tc : TaskConfig) : option GetOptions :=
  if tk_direct tc then Some {| go_force_node := true; go_source := GetSource_as_i32 SourceNormal |} else None.
Definition find_put_options (tc : TaskConfig) : option PutOptions :=
  if tk_direct tc then Some {| po_remote_nodes := []; po_force_node := true; po_overwrite := false |} else None.
Definition find_delete_options (tc : TaskConfig) : option DeleteOptions :=
  if tk_direct tc then Some {| do_force_alien_nodes := []; do_force_node := true; do_is_alien := false |} else None.
Definition is_random (tc : TaskConfig) : bool := bool_decide (tk_mode tc = Mode_Random).
Definition get_proper_key (tc : TaskConfig) (key : Z) : list byte := get_key key (tk_key_size tc).

Inductive Behavior : Type := B_Put | B_Get | B_Exist | B_Delete | B_Test | B_PingPong.
Definition Behavior_from_str (s : string) : option Behavior :=
  if bool_decide (s = "get") then Some B_Get
  else if bool_decide (s = "put") then Some B_Put
  else if bool_decide (s = "exist") then Some B_Exist
  else if bool_decide (s = "delete") then Some B_Delete
  else if bool_decide (s = "test") then Some B_Test
  else if bool_decide (s = "ping_pong") then Some B_PingPong
  else None.

(** The statistics of a benchmark start at zero ([zero_statistics] below). *)
Record BenchmarkConfig : Type := {
  bc_workers_count : Z;
  bc_behavior : Behavior;
  bc_time : option Z;  (* seconds *)
  bc_request_amount_bytes : Z;
  bc_keys_count : Z;
}.
Definition BenchmarkConfig_from_matches (m : ArgMatches) : option BenchmarkConfig :=
  workers_count ← value_or_default parse_u64 m "threads";
  behavior_string ← value_of m "behavior";
  behavior ← Behavior_from_str behavior_string;
  time ← match value_of m "time" with None => Some None | Some t => Some <$> parse_u64 t end;
  request_amount_bytes ← value_or_default parse_u64 m "payload";
  keys_count ← value_or_default parse_u64 m "count";
  Some {| bc_workers_count := workers_count; bc_behavior := behavior; bc_time := time;
          bc_request_amount_bytes := request_amount_bytes; bc_keys_count := keys_count |}.

(** The arguments of [get_matches] *)
Definition value_arg (name short long : string) : Arg :=
  {| arg_name := name; arg_short := short; arg_long := long; arg_takes_value := true; arg_required := false; arg_default_value := None |}.
Definition bobp_args (default_key_size : string) : list Arg :=
  [default_arg "host" "h" "host" "127.0.0.1"; default_arg "port" "p" "port" "20000"; default_arg "payload" "l" "payload" "1024";
   default_arg "threads" "t" "threads" "1"; default_arg "count" "c" "count" "1000000"; default_arg "first" "f" "first" "0";
   default_arg "behavior" "b" "behavior" "test"; flag_arg "direct" "d" "direct"; value_arg "time" "" "time"; value_arg "amount" "" "amount";
   flag_arg "verify" "" "verify"; default_arg "mode" "" "mode" "normal"; default_arg "keysize" "k" "keysize" default_key_size;
   value_arg "user" "" "user"; value_arg "password" "" "password"; default_arg "packet_size" "s" "packet_size" "1000";
   value_arg "ca_path" "" "ca_path"; value_arg "domain_name" "" "domain_name"].

(** ** Statistics *)

(** [tonic::Code] as a number *)
Definition Code_i32 (c : Code) : Z :=
  match c with
  | CodeUnknown => 2 | CodeInvalidArgument => 3 | CodeDeadlineExceeded => 4 | CodeNotFound => 5 | CodeAlreadyExists => 6
  | CodePermissionDenied => 7 | CodeInternal => 13 | CodeUnavailable => 14 | CodeUnauthenticated => 16
  end.

Record OperationStatistics : Type := {
  os_total : Z;
  os_error_count : Z;
  os_time_ns_st : Z;
  os_count_st : Z;
  os_errors : gmap Z Z;
}.
Record PutStatistics : Type := { ps_common : OperationStatistics; ps_verified : Z }.
Record GetStatistics : Type := { gs_common : OperationStatistics; gs_size_bytes : Z }.
Record ExistStatistics : Type := { es_common : OperationStatistics; es_size_bytes : Z; es_presented_keys : Z }.
Record DeleteStatistics : Type := { ds_common : OperationStatistics; ds_verified : Z }.
Record Statistics : Type := { sta_put : PutStatistics; sta_get : GetStatistics; sta_exist : ExistStatistics; sta_delete : DeleteStatistics }.

Definition zero_operation : OperationStatistics :=
  {| os_total := 0; os_error_count := 0; os_time_ns_st := 0; os_count_st := 0; os_errors := ∅ |}.
Definition zero_statistics : Statistics :=
  {| sta_put := {| ps_common := zero_operation; ps_verified := 0 |}; sta_get := {| gs_common := zero_operation; gs_size_bytes := 0 |};
     sta_exist := {| es_common := zero_operation; es_size_bytes := 0; es_presented_keys := 0 |};
     sta_delete := {| ds_common := zero_operation; ds_verified := 0 |} |}.

(** The four groups of counters, and a change of one of them *)
Inductive Kind : Type := K_put | K_get | K_exist | K_delete.
#[global] Instance Kind_eq_dec : EqDecision Kind.
Proof. solve_decision. Defined.
Definition common (k : Kind) (s : Statistics) : OperationStatistics :=
  match k with
  | K_put => ps_common (sta_put s) | K_get => gs_common (sta_get s)
  | K_exist => es_common (sta_exist s) | K_delete => ds_common (sta_delete s)
  end.
Definition set_put (p : PutStatistics) (s : Statistics) : Statistics :=
  {| sta_put := p; sta_get := sta_get s; sta_exist := sta_exist s; sta_delete := sta_delete s |}.
Definition set_get (g : GetStatistics) (s : Statistics) : Statistics :=
  {| sta_put := sta_put s; sta_get := g; sta_exist := sta_exist s; sta_delete := sta_delete s |}.
Definition set_exist (e : ExistStatistics) (s : Statistics) : Statistics :=
  {| sta_put := sta_put s; sta_get := sta_get s; sta_exist := e; sta_delete := sta_delete s |}.
Definition set_delete (d : DeleteStatistics) (s : Statistics) : Statistics :=
  {| sta_put := sta_put s; sta_get := sta_get s; sta_exist := sta_exist s; sta_delete := d |}.
Definition map_common (k : Kind) (f : OperationStatistics → OperationStatistics) (s : Statistics) : Statistics :=
  match k with
  | K_put => set_put {| ps_common := f (ps_common (sta_put s)); ps_verified := ps_verified (sta_put s) |} s
  | K_get => set_get {| gs_common := f (gs_common (sta_get s)); gs_size_bytes := gs_size_bytes (sta_get s) |} s
  | K_exist => set_exist {| es_common := f (es_common (sta_exist s)); es_size_bytes := es_size_bytes (sta_exist s);
                            es_presented_keys := es_presented_keys (sta_exist s) |} s
  | K_delete => set_delete {| ds_common := f (ds_common (sta_delete s)); ds_verified := ds_verified (sta_delete s) |} s
  end.

Definition save_error (status : Status) (o : OperationStatistics) : OperationStatistics :=
  let c := Code_i32 (code status) in
  {| os_total := os_total o; os_error_count := wrap64 (os_error_count o + 1); os_time_ns_st := os_time_ns_st o; os_count_st := os_count_st o;
     os_errors := <[c := match os_errors o !! c with Some i => wrap64 (i + 1) | None => 1 end]> (os_errors o) |}.
Definition save_single_thread_time (nanos : Z) (o : OperationStatistics) : OperationStatistics :=
  {| os_total := os_total o; os_error_count := os_error_count o; os_time_ns_st := wrap64 (os_time_ns_st o + wrap64 nanos);
     os_count_st := wrap64 (os_count_st o + 1); os_errors := os_errors o |}.
(** [total.fetch_add(1)] *)
Definition add_total (o : OperationStatistics) : OperationStatistics :=
  {| os_total := wrap64 (os_total o + 1); os_error_count := os_error_count o; os_time_ns_st := os_time_ns_st o;
     os_count_st := os_count_st o; os_errors := os_errors o |}.

Definition finite_or_default (value : f64) : f64 :=
  match value with S754_nan | S754_infinity _ => S754_zero false | _ => value end.
Definition get_average_response_time (o : OperationStatistics) : f64 :=
  finite_or_default (f64_div (f64_div (f64_of_Z (os_time_ns_st o)) (f64_of_Z (os_count_st o))) (f64_of_Z 1000000000)).
Definition get_total_op_count (s : Statistics) : Z :=
  wrap64 (os_total (common K_put s) + os_total (common K_get s) + os_total (common K_exist s) + os_total (common K_delete s)).
Definition get_total_error_count (s : Statistics) : Z :=
  wrap64 (os_error_count (common K_put s) + os_error_count (common K_get s) + os_error_count (common K_delete s) + os_error_count (common K_exist s)).

(** ** Workers *)

(** A monotonic clock in nanoseconds, and [shuffle]. *)
Class BenchTools (V : Type) := {
  bt_nanos : M V Z;
  bt_shuffle : list Z → M V (list Z);
}.

(** [low..high] *)
Definition u64_range (low high : Z) : list Z := seqZ low (high - low).

Section workers.
Context {V : Type} `{ToolClient V, BenchTools V, Base64Encode}.
#[local] Abbreviation BW := (Prog (Statistics * V)).

Definition on_client {A} (m : M V A) : BW A := atomic (λ w, '(a, v) ← m w.2; Some (a, (w.1, v))).
(** An atomic counter, or the errors by code under their mutex with their number. *)
Definition on_stat (f : Statistics → Statistics) : BW unit := atomic (λ w, Some (tt, (f w.1, w.2))).

(** [get_request_creator] *)
Definition create_request {T} (tc : TaskConfig) (message : T) : Request T :=
  request_creator (tk_basic_username tc) (tk_basic_password tc) message.

(** A call, whose time is counted in the first worker *)
Definition measured {A} (tc : TaskConfig) (k : Kind) (call : M V A) : BW A :=
  if tk_measure_time tc then
    start ← on_client bt_nanos;
    res ← on_client call;
    stop ← on_client bt_nanos;
    _ ← on_stat (map_common k (save_single_thread_time (Z.max 0 (stop - start))));
    mret res
  else on_client call.

(** The counters after an answer *)
Definition counted {A} (k : Kind) (on_ok : A → Statistics → Statistics) (res : result A Status) : BW unit :=
  _ ← match res with Err status => on_stat (map_common k (save_error status)) | Ok a => on_stat (on_ok a) end;
  on_stat (map_common k add_total).

Definition add_get_size (n : Z) (s : Statistics) : Statistics :=
  set_get {| gs_common := gs_common (sta_get s); gs_size_bytes := wrap64 (gs_size_bytes (sta_get s) + n) |} s.
Definition add_exist_size (n : Z) (s : Statistics) : Statistics :=
  set_exist {| es_common := es_common (sta_exist s); es_size_bytes := wrap64 (es_size_bytes (sta_exist s) + n);
               es_presented_keys := es_presented_keys (sta_exist s) |} s.
Definition add_presented (n : Z) (s : Statistics) : Statistics :=
  set_exist {| es_common := es_common (sta_exist s); es_size_bytes := es_size_bytes (sta_exist s);
               es_presented_keys := wrap64 (es_presented_keys (sta_exist s) + n) |} s.
Definition add_verified (k : Kind) (s : Statistics) : Statistics :=
  match k with
  | K_put => set_put {| ps_common := ps_common (sta_put s); ps_verified := wrap64 (ps_verified (sta_put s) + 1) |} s
  | K_delete => set_delete {| ds_common := ds_common (sta_delete s); ds_verified := wrap64 (ds_verified (sta_delete s) + 1) |} s
  | _ => s
  end.

Definition upper_idx (tc : TaskConfig) : Z := wrap64 (tk_low_idx tc + tk_count tc).
Definition task_keys (tc : TaskConfig) : list Z := u64_range (tk_low_idx tc) (upper_idx tc).

Definition get_message (tc : TaskConfig) (key : Z) : Request GetRequest :=
  create_request tc {| grq_key := Some (get_proper_key tc key); grq_options := find_get_options tc |}.
Definition exist_message (tc : TaskConfig) (keys : list Z) : Request ExistRequest :=
  create_request tc {| erq_keys := get_proper_key tc <$> keys; erq_options := find_get_options tc |}.

Definition get_worker (tc : TaskConfig) : BW unit :=
  keys ← (if is_random tc then on_client (bt_shuffle (task_keys tc)) else mret (task_keys tc));
  prog_each (λ key,
    res ← measured tc K_get (tc_get (get_message tc key));
    counted K_get (λ data, add_get_size (Z.of_nat (length data))) res) keys.

(** [create_blob] and the request with it; the time of the record is read first. *)
Definition put_call (tc : TaskConfig) (key : Z) (k : Kind) : BW (result unit Status) :=
  timestamp ← on_client tc_now;
  let blob := {| blob_data := repeat x00 (Z.to_nat (tk_payload_size tc)); blob_meta := Some timestamp |} in
  measured tc k (tc_put (create_request tc
    {| prq_key := Some (get_proper_key tc key); prq_data := Some blob; prq_options := find_put_options tc |})).

(** The request after all others, with [--verify] *)
Definition verify_keys (verify : bool) (expected : bool) (tc : TaskConfig) (k : Kind) : BW unit :=
  if verify then
    res ← on_client (tc_exist (exist_message tc (task_keys tc)));
    match res with
    | Ok flags => if forallb (Bool.eqb expected) flags then on_stat (add_verified k) else mret tt
    | Err _ => mret tt
    end
  else mret tt.

Definition put_worker (verify : bool) (tc : TaskConfig) : BW unit :=
  _ ← prog_each (λ key, res ← put_call tc key K_put; counted K_put (λ _, id) res) (task_keys tc);
  verify_keys verify true tc K_put.

Definition delete_worker (verify : bool) (tc : TaskConfig) : BW unit :=
  _ ← prog_each (λ key,
        timestamp ← on_client tc_now;
        res ← measured tc K_delete (tc_delete (create_request tc
          {| drq_key := Some (get_proper_key tc key); drq_options := find_delete_options tc; drq_meta := Some timestamp |}));
        counted K_delete (λ _, id) res) (task_keys tc);
  verify_keys verify false tc K_delete.

(** [prepare_exist_keys]; a packet size of 0 aborts. *)
Definition prepare_exist_keys (tc : TaskConfig) : M V (list (list Z)) :=
  let shuffled portion := if is_random tc then bt_shuffle portion else mret portion in
  full_packets ← expect (if tk_packet_size tc =? 0 then None else Some (tk_count tc / tk_packet_size tc));
  let tail := tk_count tc - full_packets * tk_packet_size tc in
  '(keys, current_low) ← for_each (λ '(keys, current_low) _,
      portion ← shuffled (u64_range current_low (wrap64 (current_low + tk_packet_size tc)));
      mret (keys ++ [portion], wrap64 (current_low + tk_packet_size tc)))
    ([], tk_low_idx tc) (repeat tt (Z.to_nat full_packets));
  if 0 <? tail then
    portion ← shuffled (u64_range current_low (wrap64 (current_low + tail)));
    mret (keys ++ [portion])
  else mret keys.

(** The keys that are there, in an answer *)
Definition present_keys (res : list bool) : Z := Z.of_nat (length (filter (λ flag, flag = true) res)).

Definition exist_worker (tc : TaskConfig) : BW unit :=
  let send_size_bytes := wrap64 (tk_packet_size tc * Z.of_nat (tk_key_size tc)) in
  keys ← on_client (prepare_exist_keys tc);
  prog_each (λ portion,
    res ← measured tc K_exist (tc_exist (exist_message tc portion));
    _ ← on_stat (add_exist_size send_size_bytes);
    counted K_exist (λ flags s, add_presented (present_keys flags) (add_exist_size (Z.of_nat (length flags)) s)) res) keys.

Definition test_worker (verify : bool) (tc : TaskConfig) : BW unit :=
  _ ← put_worker verify tc;
  _ ← get_worker tc;
  _ ← exist_worker tc;
  delete_worker verify tc.

Definition ping_pong_worker (tc : TaskConfig) : BW unit :=
  prog_each (λ key,
    res ← put_call tc key K_put;
    _ ← counted K_put (λ _, id) res;
    res ← measured tc K_get (tc_get (get_message tc key));
    counted K_get (λ _, id) res) (task_keys tc).

(** The tasks of [spawn_workers]; no workers abort. *)
Definition worker_task (tc : TaskConfig) (workers_count task_size i : Z) : TaskConfig :=
  let low_idx := wrap64 (tk_low_idx tc + wrap64 (task_size * i)) in
  let count := if i =? workers_count - 1 then wrap64 (wrap64 (tk_count tc + tk_low_idx tc) - low_idx) else task_size in
  {| tk_low_idx := low_idx; tk_count := count; tk_payload_size := tk_payload_size tc; tk_direct := tk_direct tc; tk_mode := tk_mode tc;
     tk_measure_time := i =? 0; tk_key_size := tk_key_size tc; tk_basic_username := tk_basic_username tc;
     tk_basic_password := tk_basic_password tc; tk_packet_size := tk_packet_size tc |}.
Definition worker_tasks (tc : TaskConfig) (workers_count : Z) : option (list TaskConfig) :=
  if workers_count =? 0 then None
  else Some (worker_task tc workers_count (tk_count tc / workers_count) <$> seqZ 0 workers_count).
Definition run_worker (b : Behavior) (verify : bool) (tc : TaskConfig) : BW unit :=
  match b with
  | B_Put => put_worker verify tc
  | B_Get => get_worker tc
  | B_Exist => exist_worker tc
  | B_Delete => delete_worker verify tc
  | B_Test => test_worker verify tc
  | B_PingPong => ping_pong_worker tc
  end.

(** The spawned workers, and what the counters may be when [main] stops the statistics: it waits for
    all workers or, with [--time], for that long; then the workers may be anywhere. *)
Definition spawn_workers (b : Behavior) (verify : bool) (tasks : list TaskConfig) : list (BW unit) :=
  run_worker b verify <$> tasks.
Definition benchmark_ends (bc : BenchmarkConfig) (verify : bool) (tasks : list TaskConfig) (w0 : Statistics * V)
    (pool : list (BW unit)) (w : Statistics * V) : Prop :=
  rtc pool_step (spawn_workers (bc_behavior bc) verify tasks, w0) (pool, w) ∧
  match bc_time bc with Some _ => True | None => Forall (λ p, is_done p = true) pool end.
End workers.

(** ** What is printed *)

Definition DELETE_FLAG : Z := 8.
Definition EXIST_FLAG : Z := 4.
Definition PUT_FLAG : Z := 1.
Definition GET_FLAG : Z := 2.

(** The flags [spawn_statistics_thread] builds *)
Definition behavior_flags (b : Behavior) : Z :=
  match b with
  | B_Exist => Z.lor 0 EXIST_FLAG
  | B_Get => Z.lor 0 GET_FLAG
  | B_Delete => Z.lor 0 DELETE_FLAG
  | B_PingPong => Z.lor (Z.lor 0 GET_FLAG) PUT_FLAG
  | B_Put => Z.lor 0 PUT_FLAG
  | B_Test => Z.lor (Z.lor (Z.lor (Z.lor 0 GET_FLAG) PUT_FLAG) EXIST_FLAG) DELETE_FLAG
  end.
Definition kind_flag (k : Kind) : Z :=
  match k with K_put => PUT_FLAG | K_get => GET_FLAG | K_exist => EXIST_FLAG | K_delete => DELETE_FLAG end.
Definition flag_set (flags : Z) (k : Kind) : bool := 0 <? Z.land flags (kind_flag k).

(** [DiffContainer::get_diff]: the difference, and the value kept. *)
Definition get_diff (last_value current : Z) : Z * Z := (wrap64 (current - last_value), current).

Record PeriodicStatisticsBit : Type := { pb_count_spd : Z; pb_error : Z; pb_latency : f64 }.

(** [PeriodicOperationStatistics], without the reference to the counters *)
Record PeriodicOperationStatistics : Type := { po_count : Z; po_time_st : Z; po_count_st : Z; po_period_ms : Z }.
Definition from_operation_statistics (o : OperationStatistics) (period_ms : Z) : PeriodicOperationStatistics :=
  {| po_count := os_total o; po_time_st := os_time_ns_st o; po_count_st := os_count_st o; po_period_ms := period_ms |}.

(** [current_bit]; [None]: the period is zero. *)
Definition current_bit (o : OperationStatistics) (p : PeriodicOperationStatistics) : option (PeriodicStatisticsBit * PeriodicOperationStatistics) :=
  let '(diff, count) := get_diff (po_count p) (os_total o) in
  count_spd ← (if po_period_ms p =? 0 then None else Some (wrap64 (diff * 1000) / po_period_ms p));
  let '(time_diff, time_st) := get_diff (po_time_st p) (os_time_ns_st o) in
  let '(count_diff, count_st) := get_diff (po_count_st p) (os_count_st o) in
  let latency := finite_or_default (f64_div (f64_div (f64_of_Z time_diff) (f64_of_Z count_diff)) (f64_of_Z 1000000000)) in
  Some ({| pb_count_spd := count_spd; pb_error := os_error_count o; pb_latency := latency |},
        {| po_count := count; po_time_st := time_st; po_count_st := count_st; po_period_ms := po_period_ms p |}).

(** The size of a request in kB for put and delete, the last size for get and exist *)
Record Periodic : Type := { pe_common : PeriodicOperationStatistics; pe_size : Z; pe_factor : f64 }.
Definition f64_1024 : f64 := f64_of_Z 1024.
Definition size_counter (k : Kind) (s : Statistics) : Z :=
  match k with K_get => gs_size_bytes (sta_get s) | K_exist => es_size_bytes (sta_exist s) | _ => 0 end.
Definition Periodic_from (k : Kind) (s : Statistics) (period_ms request_size_b : Z) : Periodic :=
  {| pe_common := from_operation_statistics (common k s) period_ms;
     pe_size := size_counter k s;
     pe_factor := match k with
                  | K_put | K_delete => f64_div (f64_of_Z request_size_b) f64_1024
                  | K_get | K_exist => f64_div (f64_of_Z period_ms) (f64_of_Z 1000)
                  end |}.

(** A line of [process_and_print], with the speed in kB/s *)
Record Line : Type := { ln_kind : Kind; ln_bit : PeriodicStatisticsBit; ln_spd : f64 }.
Definition process_and_print (k : Kind) (s : Statistics) (p : Periodic) : option (Line * Periodic) :=
  '(bit, c) ← current_bit (common k s) (pe_common p);
  let '(size_diff, size) := get_diff (pe_size p) (size_counter k s) in
  let spd := match k with
             | K_put | K_delete => f64_mul (f64_of_Z (pb_count_spd bit)) (pe_factor p)
             | K_get | K_exist => f64_div (f64_div (f64_of_Z size_diff) f64_1024) (pe_factor p)
             end in
  Some ({| ln_kind := k; ln_bit := bit; ln_spd := spd |}, {| pe_common := c; pe_size := size; pe_factor := pe_factor p |}).

(** [print_periodic_stat] for one kind: the lines for the counters as they are at each wake-up,
    of which there is one for every check that finds the token not set. *)
Fixpoint periodic_lines (k : Kind) (p : Periodic) (wakes : list Statistics) : option (list Line) :=
  match wakes with
  | [] => Some []
  | s :: wakes => '(line, p) ← process_and_print k s p; lines ← periodic_lines k p wakes; Some (line :: lines)
  end.
Definition print_periodic_stat (period_ms request_bytes flags : Z) (start : Statistics) (wakes : list Statistics) : option (list (list Line)) :=
  mapM (λ k, if flag_set flags k then periodic_lines k (Periodic_from k start period_ms request_bytes) wakes else Some [])
    [K_put; K_get; K_delete; K_exist].

Definition average (values : list f64) : f64 :=
  finite_or_default (f64_div (foldl f64_add (S754_zero false) values) (f64_of_Z (Z.of_nat (length values)))).

(** [print_averages]: the rate and the errors of all, then the average speed and time of each kind. *)
Definition print_averages (s : Statistics) (speeds : Kind → list f64) (elapsed_ms flags : Z) : Z * Z * list (Kind * f64 * f64) :=
  let avg_total := if elapsed_ms =? 0 then 0 else wrap64 (get_total_op_count s * 1000) / elapsed_ms in
  (avg_total, get_total_error_count s,
   (λ k, (k, average (speeds k), get_average_response_time (common k s))) <$> filter (λ k, flag_set flags k = true) [K_put; K_get; K_delete; K_exist]).

(** [print_errors_with_codes], for the kinds that had errors *)
Definition print_errors_with_codes (s : Statistics) : list (Kind * gmap Z Z) :=
  filter (λ l, l.2 ≠ ∅) ((λ k, (k, os_errors (common k s))) <$> [K_get; K_put; K_exist; K_delete]).

(** The start of [main]: what the workers and the statistics get.  How it ends is [benchmark_ends]. *)
Definition bobp_main (m : ArgMatches) : option (NetConfig * TaskConfig * BenchmarkConfig * list TaskConfig) :=
  net_conf ← NetConfig_from_matches m;
  task_conf ← TaskConfig_from_matches m;
  benchmark_conf ← BenchmarkConfig_from_matches m;
  tasks ← worker_tasks task_conf (bc_workers_count benchmark_conf);
  Some (net_conf, task_conf, benchmark_conf, tasks).

(** ** Lemmas: the tasks *)

Lemma u64_range_task low count : 0 ≤ low → 0 ≤ count → low + count < 2 ^ 64 → u64_range low (wrap64 (low + count)) = seqZ low count.
Proof. intros. rw /u64_range wrap64_small; [lia|]. f_equal. lia. Qed.

(** Cutting a range into consecutive parts of one size and a rest *)
Lemma seqZ_parts low size n : 0 ≤ size →
  concat ((λ i, seqZ (low + size * i) size) <$> seqZ 0 (Z.of_nat n)) = seqZ low (size * Z.of_nat n).
Proof.
  intros Hs. induction n as [|n IH]; [by rw Z.mul_0_r|].
  replace (Z.of_nat (S n)) with (Z.of_nat n + 1) by lia. rw seqZ_app; [lia..|]. rw fmap_app concat_app IH Z.add_0_l.
  change (seqZ (Z.of_nat n) 1) with [Z.of_nat n]. simpl. rw app_nil_r Z.mul_add_distr_l Z.mul_1_r. rw seqZ_app //. lia.
Qed.

Section tasks.
Context (tc : TaskConfig) (workers_count : Z).
Hypothesis Hw : 0 < workers_count.
Hypothesis Hlow : 0 ≤ tk_low_idx tc.
Hypothesis Hcount : 0 ≤ tk_count tc.
Hypothesis Hbound : tk_low_idx tc + tk_count tc < 2 ^ 64.
#[local] Set Default Proof Using "Type*".

Let size := tk_count tc / workers_count.

Lemma task_size_bounds i : 0 ≤ i < workers_count → 0 ≤ size ∧ 0 ≤ size * i ∧ size * i + size ≤ tk_count tc.
Proof.
  intros Hi. assert (0 ≤ size) as Hs by (apply Z.div_pos; lia).
  pose proof (Z.mul_div_le (tk_count tc) workers_count Hw). fold size in H. nia.
Qed.

Lemma worker_task_keys i : 0 ≤ i < workers_count →
  task_keys (worker_task tc workers_count size i) =
  seqZ (tk_low_idx tc + size * i) (if i =? workers_count - 1 then tk_count tc - size * i else size).
Proof.
  intros Hi. destruct (task_size_bounds i Hi) as (Hs & Hsi & Hle). rw /task_keys /upper_idx /worker_task.
  cbn [tk_low_idx tk_count]. rw (wrap64_small (size * i)); [lia|]. rw (wrap64_small (tk_low_idx tc + size * i)); [lia|].
  case_match.
  - rw (wrap64_small (tk_count tc + tk_low_idx tc)); [lia|]. rw (wrap64_small (tk_count tc + _ - _)); [lia|].
    rw u64_range_task; [lia..|]. f_equal. lia.
  - rw u64_range_task; [lia..|done].
Qed.

Lemma tasks_partition :
  concat (task_keys <$> (worker_task tc workers_count size <$> seqZ 0 workers_count)) = seqZ (tk_low_idx tc) (tk_count tc).
Proof.
  replace workers_count with (Z.of_nat (Z.to_nat (workers_count - 1)) + 1) at 2 by lia.
  rw seqZ_app; [lia..|]. rw !fmap_app concat_app Z.add_0_l.
  change (seqZ (Z.of_nat (Z.to_nat (workers_count - 1))) 1) with [Z.of_nat (Z.to_nat (workers_count - 1))].
  rw -list_fmap_compose.
  rw (list_fmap_ext _ (λ i, seqZ (tk_low_idx tc + size * i) size)).
  { intros j i Hi. apply lookup_seqZ in Hi as [-> Hi]. cbn. rw worker_task_keys; [lia|].
    by rw (proj2 (Z.eqb_neq _ _)); [lia|]. }
  destruct (task_size_bounds (workers_count - 1)) as (Hs & Hsi & Hle); [lia|].
  rw seqZ_parts //. cbn [fmap list_fmap concat]. rw app_nil_r worker_task_keys; [lia|].
  rw (proj2 (Z.eqb_eq _ _)); [lia|]. rw Z2Nat.id; [lia|]. rw -seqZ_app; [lia..|]. f_equal. lia.
Qed.
End tasks.

(** ** Lemmas: answers and counters *)

(** A call that comes back *)
Definition answers {V A} (m : M V A) : Prop := ∀ v, ∃ a v', m v = Some (a, v').

(** What is expected of the client and of the tools: every call comes back, and [shuffle] permutes. *)
Class ToolLaws (V : Type) `{ToolClient V, BenchTools V} := {
  put_answers r : answers (tc_put r);
  get_answers r : answers (tc_get r);
  exist_answers r : answers (tc_exist r);
  delete_answers r : answers (tc_delete r);
  now_answers : answers tc_now;
  nanos_answers : answers bt_nanos;
  shuffle_answers l v : ∃ l' v', bt_shuffle l v = Some (l', v') ∧ l' ≡ₚ l;
}.

(** The packets of a task *)
Definition packets (tc : TaskConfig) : Z :=
  tk_count tc / tk_packet_size tc + (if 0 <? tk_count tc - tk_count tc / tk_packet_size tc * tk_packet_size tc then 1 else 0).
Definition task_ok (tc : TaskConfig) : Prop :=
  0 ≤ tk_low_idx tc ∧ 0 ≤ tk_count tc ∧ tk_low_idx tc + tk_count tc < 2 ^ 64 ∧ 0 < tk_packet_size tc.

(** The errors by code add up to the errors. *)
Definition code_sum (m : gmap Z Z) : Z := foldr Z.add 0 ((map_to_list m).*2).
Definition errors_ok (o : OperationStatistics) : Prop := os_error_count o = wrap64 (code_sum (os_errors o)).

(** [t k] requests of each kind were counted, and [e k] errors. *)
Definition counted_by (t e : Kind → Z) (s s' : Statistics) : Prop := ∀ k,
  (0 ≤ t k ∧ 0 ≤ e k) ∧
  os_total (common k s') = wrap64 (os_total (common k s) + t k) ∧
  os_error_count (common k s') = wrap64 (os_error_count (common k s) + e k) ∧
  (errors_ok (common k s) → errors_ok (common k s')).

Definition counters_ok (s : Statistics) : Prop := ∀ k, u64 (os_total (common k s)) ∧ u64 (os_error_count (common k s)).

Lemma u64_wrap z : u64 (wrap64 z).
Proof. rw /u64 /wrap64. apply Z.mod_pos_bound. lia. Qed.

Lemma wrap64_add a b : wrap64 (wrap64 a + b) = wrap64 (a + b).
Proof. rw /wrap64. by rw Zplus_mod_idemp_l. Qed.

Lemma code_sum_perm l l' : l ≡ₚ l' → foldr Z.add 0 l = foldr Z.add 0 l'.
Proof. induction 1; simpl; lia. Qed.

Lemma code_sum_insert (m : gmap Z Z) c i : code_sum (<[c := i]> m) = i + code_sum (delete c m).
Proof.
  rw /code_sum -insert_delete_eq. pose proof (map_to_list_insert (delete c m) c i) as Hp.
  rw lookup_delete_eq in Hp. rw (code_sum_perm _ (((c, i) :: map_to_list (delete c m)).*2)); [|done]. by rw Hp.
Qed.

Lemma code_sum_lookup (m : gmap Z Z) c i : m !! c = Some i → code_sum m = i + code_sum (delete c m).
Proof. intros Hc. rw -code_sum_insert insert_id //. Qed.

Lemma save_error_ok status o : errors_ok o → errors_ok (save_error status o).
Proof.
  rw /errors_ok /save_error /=. intros ->. rw code_sum_insert. destruct (os_errors o !! _) as [i|] eqn:Hc.
  - rw (code_sum_lookup _ _ _ Hc) !wrap64_add. f_equal. lia.
  - rw delete_id //. rw wrap64_add. f_equal. lia.
Qed.

Lemma common_map k k' f s : common k (map_common k' f s) = if bool_decide (k = k') then f (common k s) else common k s.
Proof. by destruct k, k'. Qed.

Lemma counted_none s : counters_ok s → counted_by (λ _, 0) (λ _, 0) s s.
Proof. intros Hs k. destruct (Hs k) as [Ht He]. split; [lia|]. rw !Z.add_0_r !wrap64_small //. Qed.

Lemma counted_trans t e t' e' s s' s'' :
  counted_by t e s s' → counted_by t' e' s' s'' → counted_by (λ k, t k + t' k) (λ k, e k + e' k) s s''.
Proof.
  intros Hm Hn k. destruct (Hm k) as (Hp & Ht & He & Hok), (Hn k) as (Hp' & Ht' & He' & Hok').
  rw Ht' Ht He' He !wrap64_add. split; [lia|]. split; [f_equal; lia|]. split; [f_equal; lia|by auto].
Qed.

Lemma counted_ok t e s s' : counted_by t e s s' → counters_ok s'.
Proof. intros Hn k. destruct (Hn k) as (_ & -> & -> & _). split; apply u64_wrap. Qed.

(** A change that leaves the totals and the errors *)
Lemma counted_same s s' : counters_ok s →
  (∀ k, os_total (common k s') = os_total (common k s) ∧ os_error_count (common k s') = os_error_count (common k s) ∧
        os_errors (common k s') = os_errors (common k s)) → counted_by (λ _, 0) (λ _, 0) s s'.
Proof.
  intros Hs He k. destruct (He k) as (Ht & Hc & Hm). pose proof (counted_none s Hs k) as Hk. rw /errors_ok Ht Hc Hm. apply Hk.
Qed.

Definition one (k' k : Kind) : Z := if bool_decide (k = k') then 1 else 0.

Lemma one_pos k' k : 0 ≤ one k' k.
Proof. rw /one. case_bool_decide; lia. Qed.

Lemma counted_total k s : counters_ok s → counted_by (one k) (λ _, 0) s (map_common k add_total s).
Proof.
  intros Hs k'. pose proof (counted_none s Hs k') as (Hp & Ht & He & Ho). pose proof (one_pos k k').
  split; [lia|]. rw common_map /one. case_bool_decide as Hk; [|done]. by split.
Qed.

Lemma counted_error k status s : counters_ok s → counted_by (λ _, 0) (one k) s (map_common k (save_error status) s).
Proof.
  intros Hs k'. pose proof (counted_none s Hs k') as (Hp & Ht & He & Ho). pose proof (one_pos k k').
  split; [lia|]. rw common_map /one. case_bool_decide as Hk; [|done]. split; [done|]. split; [done|apply save_error_ok].
Qed.

Section workers_laws.
Context {V : Type} `{ToolLaws V} `{Base64Encode}.
#[local] Set Default Proof Using "Type*".
#[local] Abbreviation BW := (Prog (Statistics * V)).

(** A program no step of which aborts, whatever other workers do to the counters between them: in
    all it counts [n k] requests of each kind and at most [b k] errors, with a result in [Q]. *)
Fixpoint budget {A} (n b : Kind → Z) (Q : A → Prop) (p : BW A) : Prop :=
  match p with
  | Done a => (∀ k, n k = 0 ∧ 0 ≤ b k) ∧ Q a
  | Step m => ∀ w, counters_ok w.1 →
      match m w with
      | Some (p', w') => ∃ t e, counted_by t e w.1 w'.1 ∧ budget (λ k, n k - t k) (λ k, b k - e k) Q p'
      | None => False
      end
  end.

(** No more errors than requests *)
Definition counts {A} (n : Kind → Z) (p : BW A) (Q : A → Prop) : Prop := budget n n Q p.

Lemma budget_weaken {A} n n' b b' (Q R : A → Prop) p :
  budget n b Q p → (∀ k, n k = n' k) → (∀ k, b k ≤ b' k) → (∀ a, Q a → R a) → budget n' b' R p.
Proof.
  intros Hp Hn Hb HQ. revert n n' b b' Hp Hn Hb. induction p as [a|m IH] using Prog_steps_ind; intros n n' b b' Hp Hn Hb; simpl in Hp |- *.
  - destruct Hp as [Hk Ha]. split; [|by apply HQ]. intros k. specialize (Hk k). specialize (Hn k). specialize (Hb k). lia.
  - intros w Hw. specialize (Hp w Hw). specialize (IH w). destruct (m w) as [[p w']|]; [|done].
    destruct Hp as (t & e & Hc & Hp). exists t, e. split; [done|]. eapply IH; [done|..]; intros k; simpl; [by rw Hn|].
    specialize (Hb k). lia.
Qed.

Lemma budget_bind {A B} n b n' b' (p : BW A) (f : A → BW B) (Q : A → Prop) (R : B → Prop) :
  budget n b Q p → (∀ a, Q a → budget n' b' R (f a)) → budget (λ k, n k + n' k) (λ k, b k + b' k) R (p ≫= f).
Proof.
  intros Hp Hf. revert n b Hp. induction p as [a|m IH] using Prog_steps_ind; intros n b Hp; simpl in Hp.
  - destruct Hp as [Hk Ha]. eapply budget_weaken; [by apply (Hf a)|..|done]; intros k; specialize (Hk k); lia.
  - intros w Hw. specialize (Hp w Hw). specialize (IH w). destruct (m w) as [[p w']|]; [|done].
    destruct Hp as (t & e & Hc & Hp). exists t, e. split; [done|]. eapply budget_weaken; [by apply IH|..|done]; intros k; simpl; lia.
Qed.

(** What is left of a budget is not negative. *)
Lemma budget_pos {A} n b (Q : A → Prop) p (w : Statistics * V) k : budget n b Q p → counters_ok w.1 → 0 ≤ n k ∧ 0 ≤ b k.
Proof.
  revert n b w. induction p as [a|m IH] using Prog_steps_ind; intros n b w Hp Hw; simpl in Hp.
  - destruct Hp as [Hk _]. specialize (Hk k). lia.
  - specialize (Hp w Hw). specialize (IH w). destruct (m w) as [[p w']|]; [|done]. destruct Hp as (t & e & Hc & Hp).
    destruct (IH _ _ _ Hp (counted_ok _ _ _ _ Hc)). destruct (Hc k) as [Hpos _]. lia.
Qed.

Lemma counts_ret {A} (a : A) (Q : A → Prop) : Q a → counts (λ _, 0) (mret a) Q.
Proof. intros Ha. split; [lia|done]. Qed.

Lemma counts_bind {A B} n n' (m : BW A) (f : A → BW B) (Q : A → Prop) (R : B → Prop) :
  counts n m Q → (∀ a, Q a → counts n' (f a) R) → counts (λ k, n k + n' k) (m ≫= f) R.
Proof. apply budget_bind. Qed.

Lemma counts_weaken {A} n n' (m : BW A) (Q R : A → Prop) :
  counts n m Q → (∀ k, n k = n' k) → (∀ a, Q a → R a) → counts n' m R.
Proof. intros Hm Hn HQ. eapply budget_weaken; [done|done| |done]. intros k. by rw Hn. Qed.

(** A step that counts nothing, before another *)
Lemma counts_step {A B} n (m : BW A) (f : A → BW B) (Q : A → Prop) (R : B → Prop) :
  counts (λ _, 0) m Q → (∀ a, Q a → counts n (f a) R) → counts n (m ≫= f) R.
Proof. intros Hm Hf. eapply counts_weaken; [by eapply counts_bind|done|done]. Qed.

(** An update of the counters *)
Lemma budget_stat f t e : (∀ s, counters_ok s → counted_by t e s (f s)) → budget t e (λ _, True) (on_stat f : BW unit).
Proof. intros Hf w Hw. exists t, e. split; [by apply Hf|]. split; [intros k; lia|done]. Qed.

Lemma counts_client {A} (m : M V A) (Q : A → Prop) :
  (∀ v, ∃ a v', m v = Some (a, v') ∧ Q a) → counts (λ _, 0) (on_client m) Q.
Proof.
  intros Hm w Hw. destruct (Hm w.2) as (a & v' & Hr & Ha). rw /= Hr /=. exists (λ _, 0), (λ _, 0). split; [by apply counted_none|].
  split; [lia|done].
Qed.

Lemma counts_answer {A} (m : M V A) : answers m → counts (λ _, 0) (on_client m) (λ _, True).
Proof. intros Hm. apply counts_client. intros v. destruct (Hm v) as (a & v' & Hr). eauto. Qed.

Lemma counts_stat f : (∀ s k, os_total (common k (f s)) = os_total (common k s) ∧ os_error_count (common k (f s)) = os_error_count (common k s) ∧
        os_errors (common k (f s)) = os_errors (common k s)) → counts (λ _, 0) (on_stat f) (λ _, True).
Proof. intros Hf. apply budget_stat. intros s Hs. apply counted_same; [done|]. intros k. apply Hf. Qed.

Lemma counts_each {A} n (f : A → BW unit) l :
  (∀ b, b ∈ l → counts n (f b) (λ _, True)) → counts (λ k, Z.of_nat (length l) * n k) (prog_each f l) (λ _, True).
Proof.
  induction l as [|b l IH]; intros Hf; cbn [prog_each].
  - eapply counts_weaken; [by apply (counts_ret tt (λ _, True))|done|done].
  - eapply counts_weaken; [eapply counts_bind; [apply Hf, elem_of_cons; by left|]|..].
    + intros [] _. apply IH. intros c Hc. apply Hf, elem_of_cons. by right.
    + intros k. cbn [length]. lia.
    + done.
Qed.

Lemma counts_measured {A} tc k (call : M V A) : answers call → counts (λ _, 0) (measured tc k call) (λ _, True).
Proof.
  intros Hc. rw /measured. case_match; [|by apply counts_answer].
  eapply counts_step; [apply counts_answer, nanos_answers|]. intros start _.
  eapply counts_step; [by apply counts_answer|]. intros res _.
  eapply counts_step; [apply counts_answer, nanos_answers|]. intros stop _.
  eapply counts_step; [|by intros; apply counts_ret]. apply counts_stat. intros s k'. rw common_map. by case_bool_decide.
Qed.

Lemma counts_counted {A} k (on_ok : A → Statistics → Statistics) res :
  (∀ a s k, common k (on_ok a s) = common k s) → counts (one k) (counted k on_ok res) (λ _, True).
Proof.
  intros Hok. assert (budget (one k) (λ _, 0) (λ _, True) (on_stat (map_common k add_total) : BW unit)) as Htotal.
  { apply budget_stat. intros s Hs. by apply counted_total. }
  rw /counts /counted. destruct res as [a|status]; (eapply budget_weaken; [eapply budget_bind; [apply budget_stat|by intros _ _]|..]).
  - intros s Hs. apply counted_same; [done|]. intros k'. by rw Hok.
  - done.
  - intros k'. pose proof (one_pos k k'). simpl. lia.
  - done.
  - intros s Hs. by apply counted_error.
  - done.
  - intros k'. simpl. lia.
  - done.
Qed.

(** One request of a kind *)
Lemma counts_request {A} tc k (call : M V (result A Status)) on_ok :
  answers call → (∀ a s k, common k (on_ok a s) = common k s) →
  counts (one k) (res ← measured tc k call; counted k on_ok res) (λ _, True).
Proof. intros Hc Hok. eapply counts_step; [by apply counts_measured|]. intros res _. by apply counts_counted. Qed.

(** ** Lemmas: the workers *)

Definition each (n : Z) (k' k : Kind) : Z := n * one k' k.

Lemma length_task_keys tc : task_ok tc → task_keys tc = seqZ (tk_low_idx tc) (tk_count tc) ∧ Z.of_nat (length (task_keys tc)) = tk_count tc.
Proof. intros (Hl & Hc & Hb & _). rw /task_keys /upper_idx u64_range_task // length_seqZ. split; [done|lia]. Qed.

Lemma counts_put_call tc key k : counts (λ _, 0) (put_call tc key k) (λ _, True).
Proof.
  eapply counts_step; [apply counts_answer, now_answers|]. intros ts _. apply counts_measured, put_answers.
Qed.

Lemma counts_verify verify expected tc k : counts (λ _, 0) (verify_keys verify expected tc k) (λ _, True).
Proof.
  rw /verify_keys. case_match; [|by apply counts_ret]. eapply counts_step; [apply counts_answer, exist_answers|].
  intros [flags|e] _; [|by apply counts_ret]. case_match; [|by apply counts_ret]. apply counts_stat. intros s k'. by destruct k, k'.
Qed.

Lemma counts_put_worker tc verify : task_ok tc → counts (each (tk_count tc) K_put) (put_worker verify tc) (λ _, True).
Proof.
  intros Ht. destruct (length_task_keys tc Ht) as [_ Hl].
  eapply counts_weaken; [eapply counts_bind; [apply (counts_each (one K_put))|by intros; apply counts_verify]|..]; [|intros k; rw Hl /each; lia|done].
  intros key _. eapply counts_step; [apply counts_put_call|]. intros res _. by apply counts_counted.
Qed.

Lemma counts_delete_worker tc verify : task_ok tc → counts (each (tk_count tc) K_delete) (delete_worker verify tc) (λ _, True).
Proof.
  intros Ht. destruct (length_task_keys tc Ht) as [_ Hl].
  eapply counts_weaken; [eapply counts_bind; [apply (counts_each (one K_delete))|by intros; apply counts_verify]|..]; [|intros k; rw Hl /each; lia|done].
  intros key _. eapply counts_step; [apply counts_answer, now_answers|]. intros ts _. apply counts_request; [apply delete_answers|done].
Qed.

Lemma counts_get_worker tc : task_ok tc → counts (each (tk_count tc) K_get) (get_worker tc) (λ _, True).
Proof.
  intros Ht. destruct (length_task_keys tc Ht) as [_ Hl].
  eapply (counts_step _ _ _ (λ keys, keys ≡ₚ task_keys tc)).
  - case_match; [|by apply counts_ret]. apply counts_client. intros v. apply shuffle_answers.
  - intros keys Hk. eapply counts_weaken; [apply (counts_each (one K_get))|intros k; rw Hk Hl /each; lia|done].
    intros key _. apply counts_request; [apply get_answers|by intros ? ? []].
Qed.

Lemma counts_ping_pong_worker tc : task_ok tc →
  counts (λ k, each (tk_count tc) K_put k + each (tk_count tc) K_get k) (ping_pong_worker tc) (λ _, True).
Proof.
  intros Ht. destruct (length_task_keys tc Ht) as [_ Hl].
  eapply counts_weaken; [apply (counts_each (λ k, one K_put k + one K_get k))|intros k; rw Hl /each; lia|done].
  intros key _. eapply counts_step; [apply counts_put_call|]. intros res _.
  eapply counts_bind; [by apply counts_counted|]. intros _ _. apply counts_request; [apply get_answers|done].
Qed.

(** The packets of the exist requests: all keys of the task, in packets of the size of a packet at most. *)
Definition packets_of (tc : TaskConfig) (r : list (list Z)) : Prop :=
  concat r ≡ₚ seqZ (tk_low_idx tc) (tk_count tc) ∧ (tk_mode tc = Mode_Normal → concat r = seqZ (tk_low_idx tc) (tk_count tc)) ∧
  Forall (λ portion, Z.of_nat (length portion) ≤ tk_packet_size tc) r ∧ Z.of_nat (length r) = packets tc.

Lemma shuffled_spec tc portion v :
  ∃ r v', (if is_random tc then bt_shuffle portion else mret portion : M V (list Z)) v = Some (r, v') ∧ r ≡ₚ portion ∧
          (tk_mode tc = Mode_Normal → r = portion).
Proof.
  rw /is_random. case_bool_decide as Hm; [|by exists portion, v].
  destruct (shuffle_answers portion v) as (r & v' & Hr & Hp). exists r, v'. rw Hm. done.
Qed.

(** A portion at the end of those before it *)
Lemma packets_step tc before from size r :
  0 ≤ from → 0 ≤ size ≤ tk_packet_size tc →
  concat before ≡ₚ seqZ (tk_low_idx tc) from → (tk_mode tc = Mode_Normal → concat before = seqZ (tk_low_idx tc) from) →
  Forall (λ portion, Z.of_nat (length portion) ≤ tk_packet_size tc) before →
  r ≡ₚ seqZ (tk_low_idx tc + from) size → (tk_mode tc = Mode_Normal → r = seqZ (tk_low_idx tc + from) size) →
  concat (before ++ [r]) ≡ₚ seqZ (tk_low_idx tc) (from + size) ∧
  (tk_mode tc = Mode_Normal → concat (before ++ [r]) = seqZ (tk_low_idx tc) (from + size)) ∧
  Forall (λ portion, Z.of_nat (length portion) ≤ tk_packet_size tc) (before ++ [r]).
Proof.
  intros Hf Hs Hb Hbn Hall Hr Hrn. rw concat_app /= app_nil_r seqZ_app; [lia..|]. split; [by rw Hb Hr|]. split.
  - intros Hm. by rw Hbn // Hrn.
  - apply list.Forall_app. split; [done|]. constructor; [|done]. rw Hr length_seqZ. lia.
Qed.

Lemma prepare_packets tc v : task_ok tc → ∃ r v', prepare_exist_keys tc v = Some (r, v') ∧ packets_of tc r.
Proof.
  intros (Hl & Hc & Hb & Hp). apply wp_total. rw /prepare_exist_keys. rw (proj2 (Z.eqb_neq _ _)); [lia|].
  apply wpx_bind, wpx_expect with (a := tk_count tc / tk_packet_size tc); [done|].
  set (full := tk_count tc / tk_packet_size tc). set (ps := tk_packet_size tc).
  assert (0 ≤ full) as Hfull by (apply Z.div_pos; lia). pose proof (Z.mul_div_le (tk_count tc) ps Hp) as Hle. change (tk_count tc / ps) with full in Hle.
  pose proof (Z.mod_pos_bound (tk_count tc) ps Hp) as Hmod. rw Z.mod_eq in Hmod; [lia|]. change (tk_count tc / ps) with full in Hmod.
  apply wpx_bind. eapply wpx_mono.
  { apply (wpx_for_each _ _ _ (λ done_ (a : list (list Z) * Z) _, let n := Z.of_nat (length done_) in
      a.2 = tk_low_idx tc + n * ps ∧ length a.1 = length done_ ∧ concat a.1 ≡ₚ seqZ (tk_low_idx tc) (n * ps) ∧
      (tk_mode tc = Mode_Normal → concat a.1 = seqZ (tk_low_idx tc) (n * ps)) ∧
      Forall (λ portion, Z.of_nat (length portion) ≤ tk_packet_size tc) a.1)).
    - simpl. rw Z.add_0_r. done.
    - intros before b rest [keys low] w Heq (Hlow & Hlen & Hk & Hkn & Hall). cbn [fst snd] in *.
      assert (Z.of_nat (length before) + 1 ≤ full) as Hn.
      { apply (f_equal length) in Heq. rw repeat_length length_app /= in Heq. lia. }
      assert (Z.of_nat (length before) * ps + ps ≤ tk_count tc) as Hn' by nia. subst low. set (n := Z.of_nat (length before)) in *.
      assert (0 ≤ n * ps) by nia. rw wrap64_small; [lia|].
      destruct (shuffled_spec tc (u64_range (tk_low_idx tc + n * ps) (tk_low_idx tc + n * ps + ps)) w) as (r & w' & Hr & Hperm & Hsame).
      apply wpx_bind. rw {1}/wpx Hr. apply wpx_ret. cbn [fst snd].
      rw /u64_range in Hperm Hsame. replace (tk_low_idx tc + n * ps + ps - (tk_low_idx tc + n * ps)) with ps in Hperm, Hsame by lia.
      destruct (packets_step tc keys (n * ps) ps r) as (Hp1 & Hp2 & Hp3); [lia|lia|done..|].
      rw !length_app Hlen. cbn [length]. replace (Z.of_nat (length before + 1)) with (n + 1) by lia.
      replace ((n + 1) * ps) with (n * ps + ps) by lia. split; [lia|]. done. }
  intros [keys low] w (Hlow & Hlen & Hk & Hkn & Hall). cbn [fst snd] in *. rw repeat_length in Hlow Hlen Hk Hkn.
  rw Z2Nat.id in Hlow Hk Hkn; [done|]. subst low. rw /packets_of /packets. fold ps. change (tk_count tc / ps) with full. case_match eqn:Ht.
  - apply Z.ltb_lt in Ht. rw wrap64_small; [nia|]. set (tail := tk_count tc - full * ps) in *.
    destruct (shuffled_spec tc (u64_range (tk_low_idx tc + full * ps) (tk_low_idx tc + full * ps + tail)) w) as (r & w' & Hr & Hperm & Hsame).
    apply wpx_bind. rw {1}/wpx Hr. apply wpx_ret.
    rw /u64_range in Hperm Hsame. replace (tk_low_idx tc + full * ps + tail - (tk_low_idx tc + full * ps)) with tail in Hperm, Hsame by lia.
    destruct (packets_step tc keys (full * ps) tail r) as (Hp1 & Hp2 & Hp3); [nia|lia|done..|].
    replace (full * ps + tail) with (tk_count tc) in Hp1, Hp2 by lia. rw length_app Hlen. cbn [length]. split; [done|]. split; [done|].
    split; [done|]. lia.
  - apply Z.ltb_ge in Ht. apply wpx_ret. replace (full * ps) with (tk_count tc) in Hk, Hkn by lia. split; [done|]. split; [done|].
    split; [done|]. rw Hlen. lia.
Qed.

Lemma counts_exist_worker tc : task_ok tc → counts (each (packets tc) K_exist) (exist_worker tc) (λ _, True).
Proof.
  intros Ht. rw /exist_worker. eapply (counts_step _ _ _ (packets_of tc)).
  - apply counts_client. intros v. by apply prepare_packets.
  - intros r (_ & _ & _ & Hlen). eapply counts_weaken; [apply (counts_each (one K_exist))|intros k; rw Hlen /each; lia|done].
    intros portion _. eapply counts_step; [apply counts_measured, exist_answers|]. intros res _.
    eapply counts_step; [apply counts_stat; by intros s []|]. intros _ _. apply counts_counted. by intros ? ? [].
Qed.

(** The requests of a worker *)
Definition worker_requests (b : Behavior) (tc : TaskConfig) (k : Kind) : Z :=
  match b, k with
  | B_Put, K_put | B_Get, K_get | B_Delete, K_delete | B_PingPong, K_put | B_PingPong, K_get => tk_count tc
  | B_Test, (K_put | K_get | K_delete) => tk_count tc
  | B_Exist, K_exist | B_Test, K_exist => packets tc
  | _, _ => 0
  end.

Lemma counts_worker b verify tc : task_ok tc → counts (worker_requests b tc) (run_worker b verify tc) (λ _, True).
Proof.
  intros Ht. destruct b; cbn [run_worker]; [eapply counts_weaken; [by apply counts_put_worker|..]|eapply counts_weaken; [by apply counts_get_worker|..]|
    eapply counts_weaken; [by apply counts_exist_worker|..]|eapply counts_weaken; [by apply counts_delete_worker|..]| |
    eapply counts_weaken; [by apply counts_ping_pong_worker|..]];
    try (by intros []; rw /each /one /worker_requests //=; lia); try done.
  eapply counts_weaken; [eapply counts_bind; [by apply counts_put_worker|intros _ _; eapply counts_bind; [by apply counts_get_worker|intros _ _;
    eapply counts_bind; [by apply counts_exist_worker|intros _ _; by apply counts_delete_worker]]]|intros []; rw /each /one /worker_requests /=; lia|done].
Qed.

(** *** All workers together *)

Definition sum_of {X} (f : X → Z) (l : list X) : Z := foldr Z.add 0 (f <$> l).

Lemma sum_insert {X} (f : X → Z) l i x y : l !! i = Some x → sum_of f (<[i := y]> l) = sum_of f l - f x + f y.
Proof.
  rw /sum_of. revert i. induction l as [|z l IH]; intros [|i] Hi; simpl in Hi; try done; csimpl; [injection Hi as ->; lia|].
  specialize (IH i Hi). csimpl in IH. lia.
Qed.

(** The budgets left to the workers, and what was counted: together they are [total]. *)
Definition pool_ok (total : Kind → Z) (s0 : Statistics) (s : list (BW unit) * (Statistics * V)) : Prop :=
  ∃ budgets : list ((Kind → Z) * (Kind → Z)), ∃ t e,
    Forall2 (λ x p, budget x.1 x.2 (λ _, True) p) budgets s.1 ∧ counters_ok s.2.1 ∧ counted_by t e s0 s.2.1 ∧
    ∀ k, t k + sum_of (λ x, x.1 k) budgets = total k ∧ e k + sum_of (λ x, x.2 k) budgets = total k.

Lemma pool_start b verify tasks w : Forall task_ok tasks → counters_ok w.1 →
  pool_ok (λ k, sum_of (λ t, worker_requests b t k) tasks) w.1 (spawn_workers b verify tasks, w).
Proof.
  intros Ht Hw. exists ((λ t, (worker_requests b t, worker_requests b t)) <$> tasks), (λ _, 0), (λ _, 0).
  split; [|split; [done|split; [by apply counted_none|]]].
  - simpl. rw /spawn_workers. apply Forall2_fmap, Forall_Forall2_diag. eapply list.Forall_impl; [exact Ht|].
    intros t Htt. simpl. by apply counts_worker.
  - intros k. by rw /sum_of !Z.add_0_l -!list_fmap_compose.
Qed.

(** No worker is stuck, and a step keeps the books. *)
Lemma pool_step_ok total s0 s s' : pool_ok total s0 s → pool_step s s' → pool_ok total s0 s'.
Proof.
  intros (budgets & t & e & Hb & Hc & Hn & Hsum) [i Hi]. destruct s as [pool w]. rw /step_at /= in Hi Hb Hc Hn.
  destruct (pool !! i) as [[a|m]|] eqn:Hp; [done| |done].
  destruct (Forall2_lookup_r _ _ _ _ _ Hb Hp) as ([n b] & Hx & Hbud). specialize (Hbud w Hc).
  destruct (m w) as [[p w']|]; [|done]. simpl in Hi. injection Hi as <-. destruct Hbud as (t' & e' & Hn' & Hbud). simpl in Hn'.
  exists (<[i := ((λ k, n k - t' k), (λ k, b k - e' k))]> budgets), (λ k, t k + t' k), (λ k, e k + e' k).
  split; [by apply Forall2_insert|]. split; [by eapply counted_ok|]. split; [by eapply counted_trans|].
  intros k. rw !(sum_insert _ _ _ _ _ Hx) /=. destruct (Hsum k). lia.
Qed.

Lemma pool_run_ok total s0 s s' : pool_ok total s0 s → rtc pool_step s s' → pool_ok total s0 s'.
Proof. intros Hs Hr. induction Hr as [|s1 s2 s3 Hst _ IH]; [done|]. by apply IH, (pool_step_ok total s0 s1). Qed.

Lemma pool_progress total s0 s i p : pool_ok total s0 s → s.1 !! i = Some p → is_done p = false → is_Some (step_at i s).
Proof.
  intros (budgets & t & e & Hb & Hc & _) Hp Hd. rw /step_at Hp. destruct p as [a|m]; [done|].
  destruct (Forall2_lookup_r _ _ _ _ _ Hb Hp) as (x & _ & Hbud). specialize (Hbud s.2 Hc). by destruct (m s.2) as [[p w']|].
Qed.

(** What was counted is within the totals, and is all of them when every worker is done. *)
Lemma pool_counted total s0 s k : pool_ok total s0 s → ∃ t e, counted_by t e s0 s.2.1 ∧
  0 ≤ t k ≤ total k ∧ 0 ≤ e k ≤ total k ∧ (Forall (λ p, is_done p = true) s.1 → t k = total k).
Proof.
  intros (budgets & t & e & Hb & Hc & Hn & Hsum). exists t, e. split; [done|]. destruct (Hn k) as [Hpos _]. destruct (Hsum k) as [Ht He].
  assert (0 ≤ sum_of (λ x, x.1 k) budgets ∧ 0 ≤ sum_of (λ x, x.2 k) budgets ∧
          (Forall (λ p, is_done p = true) s.1 → sum_of (λ x, x.1 k) budgets = 0)) as (Hn1 & Hb1 & Hz1).
  { clear -Hb Hc H H0 H1 H2. rw /sum_of. induction Hb as [|x p budgets pool Hx _ IH]; [done|]. csimpl.
    destruct IH as (Hn1 & Hb1 & Hz1). destruct (budget_pos _ _ _ _ _ k Hx Hc). split; [lia|]. split; [lia|].
    intros [Hd Hall]%list.Forall_cons. specialize (Hz1 Hall). destruct p as [a|]; [|done]. destruct Hx as [Hx _]. specialize (Hx k). lia. }
  split; [lia|]. split; [lia|]. intros Hd. specialize (Hz1 Hd). lia.
Qed.
End workers_laws.

(** ** Lemmas: the whole benchmark *)

Lemma packets_bounds tc : task_ok tc → 0 ≤ packets tc ≤ tk_count tc.
Proof.
  intros (_ & Hc & _ & Hp). rw /packets. assert (0 ≤ tk_count tc / tk_packet_size tc) by (apply Z.div_pos; lia).
  pose proof (Z.mul_div_le (tk_count tc) (tk_packet_size tc) Hp) as Hle.
  destruct (Z.ltb_spec 0 (tk_count tc - tk_count tc / tk_packet_size tc * tk_packet_size tc)); nia.
Qed.

Lemma worker_requests_bounds b tc k : task_ok tc → 0 ≤ worker_requests b tc k ≤ tk_count tc.
Proof. intros Ht. pose proof (packets_bounds tc Ht). destruct Ht as (_ & Hc & _). destruct b, k; simpl; lia. Qed.

(** Whether a behaviour sends single requests of a kind *)
Definition sends (b : Behavior) (k : Kind) : bool :=
  match b, k with
  | B_Put, K_put | B_Get, K_get | B_Exist, K_exist | B_Delete, K_delete => true
  | B_PingPong, (K_put | K_get) | B_Test, _ => true
  | _, _ => false
  end.

Lemma sum_bounds (f g : TaskConfig → Z) l : Forall (λ t, 0 ≤ f t ≤ g t) l → 0 ≤ foldr Z.add 0 (f <$> l) ≤ foldr Z.add 0 (g <$> l).
Proof. induction 1; csimpl; lia. Qed.

Lemma sum_counts tasks : Forall task_ok tasks → foldr Z.add 0 (tk_count <$> tasks) = Z.of_nat (length (concat (task_keys <$> tasks))).
Proof.
  induction 1 as [|t tasks Ht Hts IH]; [done|]. csimpl. rw length_app. destruct (length_task_keys t Ht) as [_ Hl]. lia.
Qed.

Lemma worker_tasks_ok tc workers_count : 0 < workers_count → task_ok tc → ∃ tasks, worker_tasks tc workers_count = Some tasks ∧
  length tasks = Z.to_nat workers_count ∧ Forall task_ok tasks ∧
  concat (task_keys <$> tasks) = seqZ (tk_low_idx tc) (tk_count tc) ∧
  (∀ i t, tasks !! i = Some t → tk_measure_time t = bool_decide (i = 0%nat)).
Proof.
  intros Hw (Hl & Hc & Hb & Hp). rw /worker_tasks (proj2 (Z.eqb_neq _ _)); [lia|]. eexists. split; [done|].
  split; [by rw length_fmap length_seqZ|]. split; [|split; [by apply tasks_partition|]].
  - apply list.Forall_fmap, Forall_lookup. intros j i Hi. apply lookup_seqZ in Hi as [-> Hi].
    destruct (task_size_bounds tc workers_count Hw Hl Hc Hb (0 + Z.of_nat j)) as (Hs & Hsi & Hle); [lia|].
    set (size := tk_count tc / workers_count) in *. rw /task_ok /worker_task. cbn [tk_low_idx tk_count tk_packet_size compose].
    rw (wrap64_small (size * _)); [lia|]. rw (wrap64_small (tk_low_idx tc + size * _)); [lia|]. case_match.
    + rw (wrap64_small (tk_count tc + tk_low_idx tc)); [lia|]. rw (wrap64_small (tk_count tc + _ - _)); [lia|]. lia.
    + lia.
  - intros i t Ht. apply list_lookup_fmap_Some in Ht as (j & -> & Hj). apply lookup_seqZ in Hj as [-> Hj]. simpl.
    destruct i as [|i]; case_bool_decide; first [lia|by apply Z.eqb_eq|by apply Z.eqb_neq; lia|done].
Qed.

Lemma zero_ok : counters_ok zero_statistics ∧ ∀ k, errors_ok (common k zero_statistics).
Proof. split; [intros []; rw /u64 /=; lia|by intros []]. Qed.

(** ** Properties *)

(** The requests of a benchmark: each of put, get and delete that the behaviour has once for a
    key, exist once for a packet of a worker. *)
Lemma sum_requests b tc workers_count tasks k :
  0 < workers_count → task_ok tc → worker_tasks tc workers_count = Some tasks →
  0 ≤ sum_of (λ t, worker_requests b t k) tasks ≤ tk_count tc ∧
  sum_of (λ t, worker_requests b t k) tasks =
    if sends b k then match k with K_exist => sum_of packets tasks | _ => tk_count tc end else 0.
Proof.
  intros Hw Ht Htasks. destruct (worker_tasks_ok tc workers_count Hw Ht) as (tasks' & Htasks' & _ & Hok & Hcover & _).
  rw Htasks in Htasks'. injection Htasks' as <-. destruct Ht as (Hl & Hc & Hb & _).
  assert (sum_of tk_count tasks = tk_count tc) as Hsum by (rw /sum_of sum_counts // Hcover length_seqZ; lia).
  split.
  - rw -Hsum. apply sum_bounds. eapply list.Forall_impl; [exact Hok|]. intros t. apply worker_requests_bounds.
  - transitivity (if sends b k then match k with K_exist => sum_of packets tasks | _ => sum_of tk_count tasks end else 0);
      [|by rw Hsum].
    rw /sum_of. clear. induction tasks as [|t tasks IH]; csimpl; [by destruct b, k|]. rw IH. by destruct b, k.
Qed.


(** A client that refuses every other request and knows no key. *)
Module Toy.
Definition answer {A} (a : A) : M Z A := λ v, Some (a, v + 1).
Definition refuse {A} (a : A) : M Z (result A Status) := λ v,
  Some (if Z.even v then Ok a else Err {| code := CodeInternal; message := "" |}, v + 1).
#[export] Instance client : ToolClient Z := {|
  tc_put _ := refuse tt; tc_get _ := refuse [x00]; tc_exist r := refuse (repeat false (length (erq_keys (rq_message r))));
  tc_delete _ := refuse tt; tc_now := answer 0 |}.
#[export] Instance tools : BenchTools Z := {| bt_nanos := answer 0; bt_shuffle l := answer (reverse l) |}.
#[export] Instance laws : ToolLaws Z.
Proof.
  split; try (intros r v; eexists _, _; reflexivity); try (intros v; eexists _, _; reflexivity).
  intros l v. eexists _, _. split; [reflexivity|]. apply reverse_Permutation.
Qed.
#[export] Instance encode : Base64Encode := λ _, EmptyString.
Definition task : TaskConfig :=
  {| tk_low_idx := 7; tk_count := 5; tk_payload_size := 2; tk_direct := true; tk_mode := Mode_Random; tk_measure_time := false;
     tk_key_size := 8; tk_basic_username := None; tk_basic_password := None; tk_packet_size := 2 |}.
End Toy.
Import Toy.

(** Five keys for two workers that take turns.  With packets of two keys the two keys of the first
    worker are one request, the three of the second are two. *)
Definition toy_benchmark : BenchmarkConfig :=
  {| bc_workers_count := 2; bc_behavior := B_Test; bc_time := None; bc_request_amount_bytes := 2; bc_keys_count := 5 |}.
Definition toy_tasks : list TaskConfig := worker_task Toy.task 2 2 <$> seqZ 0 2.
Definition toy_end : list (Prog (Statistics * Z) unit) * (Statistics * Z) :=
  run_schedule (concat (repeat [0%nat; 1%nat; 1%nat] 60)) (spawn_workers B_Test true toy_tasks, (zero_statistics, 0)).

Lemma toy_ends : benchmark_ends toy_benchmark true toy_tasks (zero_statistics, 0) toy_end.1 toy_end.2.
Proof.
  split; [rw -surjective_pairing; apply run_schedule_steps|].
  assert (forallb is_done toy_end.1 = true) as Hd by (vm_compute; reflexivity). exact (all_done _ Hd).
Qed.


(** The rates: when the counters only grow, the lines of the benchmark, one for a second each,
    count every request between the start and the last line once. *)
Lemma periodic_sum k p wakes : po_period_ms (pe_common p) = 1000 →
  Sorted Z.le (po_count (pe_common p) :: ((λ s, os_total (common k s)) <$> wakes)) →
  Forall (λ s, 0 ≤ os_total (common k s) - po_count (pe_common p) < 2 ^ 64 / 1000) wakes →
  ∃ lines, periodic_lines k p wakes = Some lines ∧ length lines = length wakes ∧
    foldr Z.add 0 ((λ l, pb_count_spd (ln_bit l)) <$> lines) =
    default (po_count (pe_common p)) (list.last ((λ s, os_total (common k s)) <$> wakes)) - po_count (pe_common p).
Proof.
  revert p. induction wakes as [|s wakes IH]; intros p Hp Hs Hb; [exists []; split; [done|split; [done|]]; simpl; lia|].
  cbn [periodic_lines]. apply list.Forall_cons in Hb as [Hb Hbs]. inversion_clear Hs as [|? ? Hs' Hr].
  rw /process_and_print /current_bit /get_diff. rw Hp. cbn [Z.eqb mbind option_bind]. cbn [mbind option_bind].
  change (2 ^ 64 / 1000) with 18446744073709551 in *.
  match goal with |- ∃ lines, (periodic_lines k ?p' wakes ≫= _) = _ ∧ _ => destruct (IH p') as (lines & Hl & Hlen & Hsum) end; [done|done|..].
  - cbn [pe_common po_count]. csimpl in Hr. clear -Hs' Hbs Hb.
    assert (Forall (Z.le (os_total (common k s))) ((λ s, os_total (common k s)) <$> wakes)) as Hle.
    { apply Sorted_StronglySorted in Hs'; [|intros ? ? ?; lia]. by inversion_clear Hs'. }
    pose proof (Forall_and (proj1 (list.Forall_fmap _ _ _) Hle) Hbs) as Hall.
    eapply list.Forall_impl; [exact Hall|]. intros x [Hx Hx']. simpl in *. lia.
  - rw Hl. cbn [mbind option_bind]. eexists. split; [done|]. split; [by rw /= Hlen|].
    rw fmap_cons. cbn [foldr ln_bit pb_count_spd]. rw Hsum. cbn [pe_common po_count].
    rw wrap64_small; [rw wrap64_small; lia|]. rw wrap64_small; [lia|]. rw Z.div_mul; [lia|].
    rw fmap_cons list.last_cons. destruct (list.last ((λ s, os_total (common k s)) <$> wakes)) as [y|]; simpl; lia.
Qed.

(** [--mode] is not read: the mode is that of an argument [normal], which does not exist. *)
Lemma mode_ignored m tc : value_of m "normal" = None → TaskConfig_from_matches m = Some tc → tk_mode tc = Mode_Normal.
Proof.
  intros Hm. rw /TaskConfig_from_matches /value_or_default Hm. cbn [default mbind option_bind].
  intros Htc. repeat (apply bind_Some in Htc as (? & _ & Htc)). case_match; [done|].
  repeat (apply bind_Some in Htc as (? & _ & Htc)). by injection Htc as <-.
Qed.
Lemma no_argument_normal default_key_size : "normal" ∉ arg_name <$> bobp_args default_key_size.
Proof. cbn. apply (bool_decide_unpack _). vm_compute. exact I. Qed.
