(* ===== verification/Bobt.v ===== *)
(** * Bobt: the tester

    [bob-apps/bin/bobt.rs]: random operations through the REST server, every answer compared
    with a map the tester keeps, and [bob-common/src/stopwatch.rs].  The HTTP client and the
    random numbers are the classes [HttpClient] and [TesterRng]; what is logged is left out. *)

From Corelib Require Import ssreflect.
From stdpp Require Import base option list relations strings gmap numbers.
From Stdlib Require Import Floats.SpecFloat Strings.Ascii Strings.Byte ZArith Lia.
From S2P Require Import Prelude Data Text Errors Options Node Float RecoveryTool.

(** ** [Stopwatch]; instants and durations are in nanoseconds. *)

Inductive Stopwatch : Type := SW_NotStarted | SW_Started (at_ : Z) | SW_Stopped (elapsed : Z).
Definition Stopwatch_new : Stopwatch := SW_NotStarted.
Definition Stopwatch_elapsed (now : Z) (s : Stopwatch) : Z :=
  match s with SW_NotStarted => 0 | SW_Started i => Z.max 0 (now - i) | SW_Stopped d => d end.
Definition Stopwatch_elapsed_ms (now : Z) (s : Stopwatch) : Z := wrap64 (Stopwatch_elapsed now s / 1000000).
Definition Stopwatch_start (now : Z) (s : Stopwatch) : Stopwatch := SW_Started now.
Definition Stopwatch_start_new (now : Z) : Stopwatch := Stopwatch_start now Stopwatch_new.
Definition Stopwatch_stop (now : Z) (s : Stopwatch) : Stopwatch := SW_Stopped (Stopwatch_elapsed now s).
Definition Stopwatch_reset (s : Stopwatch) : Stopwatch := SW_NotStarted.
Definition Stopwatch_restart (now : Z) (s : Stopwatch) : Stopwatch := Stopwatch_start now (Stopwatch_reset s).
Definition Stopwatch_is_running (s : Stopwatch) : bool := match s with SW_Started _ => true | _ => false end.

(** ** The HTTP client *)

Inductive Method : Type := M_Get | M_Head | M_Post | M_Delete.
(** A response: its status, and its body or the error of reading it. *)
Record HttpResponse : Type := { hr_status : Z; hr_bytes : result (list byte) string }.

Class HttpClient (W : Type) := {
  HttpRequest : Type;
  (** A request with its address, basic authorization and body, or the error of [build]. *)
  http_build : Method → string → option (string * string) → list byte → result HttpRequest string;
  http_execute : HttpRequest → M W (result HttpResponse string);
  http_now : M W Z;
  (** [Display] of a status *)
  status_display : Z → string;
}.

(** [Uniform::new(low, high).sample] *)
Class TesterRng (W : Type) := rng_uniform : Z → Z → M W Z.

Definition is_success (status : Z) : bool := (200 <=? status) && (status <? 300).

(** ** [TestSettings] *)

(** The address is as the type [Uri] displays it. *)
Record TestSettings : Type := {
  se_count : Z; se_start_id : Z; se_end_id : Z; se_max_size : Z; se_api_uri : string;
  se_username : option string; se_password : option string;
}.

Definition START_ID_ARG_NAME : string := "start-id".
Definition END_ID_ARG_NAME : string := "end-id".
Definition MAX_SIZE_ARG_NAME : string := "size".
Definition COUNT_ARG_NAME : string := "key".
Definition API_ADDRESS_ARG_NAME : string := "api-address".
Definition USERNAME_ARG_NAME : string := "username".
Definition PASSWORD_ARG_NAME : string := "password".

(** [parse_uri]: an address of the crate [http], as it displays it. *)
Definition TestSettings_new (parse_uri : string → option string) (m : ArgMatches) : option TestSettings :=
  count ← value_of m COUNT_ARG_NAME ≫= parse_u64;
  start_id ← value_of m START_ID_ARG_NAME ≫= parse_u64;
  end_id ← value_of m END_ID_ARG_NAME ≫= parse_u64;
  max_size ← value_of m MAX_SIZE_ARG_NAME ≫= parse_u64;
  api_uri ← value_of m API_ADDRESS_ARG_NAME ≫= parse_uri;
  Some {| se_count := count; se_start_id := start_id; se_end_id := end_id; se_max_size := max_size; se_api_uri := api_uri;
          se_username := value_of m USERNAME_ARG_NAME; se_password := value_of m PASSWORD_ARG_NAME |}.

Definition bobt_args : list Arg :=
  let optional name short long :=
    {| arg_name := name; arg_short := short; arg_long := long; arg_takes_value := true; arg_required := false; arg_default_value := None |} in
  [required_arg COUNT_ARG_NAME "c" "count"; default_arg MAX_SIZE_ARG_NAME "m" "max-size" "100000";
   default_arg START_ID_ARG_NAME "s" "start-id" "0"; default_arg END_ID_ARG_NAME "e" "end-id" "100000";
   default_arg API_ADDRESS_ARG_NAME "a" "address" "http://localhost:8000"; optional USERNAME_ARG_NAME "u" "user";
   optional PASSWORD_ARG_NAME "p" "password"].

(** ** [Client] *)

(** The counts and the times of the four operations *)
Record Client : Type := {
  cli_put_time : Z; cli_put_count : Z; cli_get_count : Z; cli_get_time : Z;
  cli_delete_count : Z; cli_delete_time : Z; cli_exists_count : Z; cli_exists_time : Z;
}.
Definition Client_new : Client :=
  {| cli_put_time := 0; cli_put_count := 0; cli_get_count := 0; cli_get_time := 0;
     cli_delete_count := 0; cli_delete_time := 0; cli_exists_count := 0; cli_exists_time := 0 |}.
Definition reset_metrics (c : Client) : Client := Client_new.

Definition count_put (t : Z) (c : Client) : Client :=
  {| cli_put_time := cli_put_time c + t; cli_put_count := wrap64 (cli_put_count c + 1); cli_get_count := cli_get_count c; cli_get_time := cli_get_time c;
     cli_delete_count := cli_delete_count c; cli_delete_time := cli_delete_time c; cli_exists_count := cli_exists_count c; cli_exists_time := cli_exists_time c |}.
Definition count_get (t : Z) (c : Client) : Client :=
  {| cli_put_time := cli_put_time c; cli_put_count := cli_put_count c; cli_get_count := wrap64 (cli_get_count c + 1); cli_get_time := cli_get_time c + t;
     cli_delete_count := cli_delete_count c; cli_delete_time := cli_delete_time c; cli_exists_count := cli_exists_count c; cli_exists_time := cli_exists_time c |}.
Definition count_delete (t : Z) (c : Client) : Client :=
  {| cli_put_time := cli_put_time c; cli_put_count := cli_put_count c; cli_get_count := cli_get_count c; cli_get_time := cli_get_time c;
     cli_delete_count := wrap64 (cli_delete_count c + 1); cli_delete_time := cli_delete_time c + t; cli_exists_count := cli_exists_count c; cli_exists_time := cli_exists_time c |}.
Definition count_exists (t : Z) (c : Client) : Client :=
  {| cli_put_time := cli_put_time c; cli_put_count := cli_put_count c; cli_get_count := cli_get_count c; cli_get_time := cli_get_time c;
     cli_delete_count := cli_delete_count c; cli_delete_time := cli_delete_time c; cli_exists_count := wrap64 (cli_exists_count c + 1); cli_exists_time := cli_exists_time c + t |}.

(** [print_summary]: the count and the latency of each operation. *)
Definition latency (time count : Z) : f64 := f64_mul (f64_div (as_secs_f64 time) (f64_of_Z count)) (f64_of_Z 1000).
Definition print_summary (c : Client) : list (string * Z * f64) :=
  [("GET", cli_get_count c, latency (cli_get_time c) (cli_get_count c)); ("PUT", cli_put_count c, latency (cli_put_time c) (cli_put_count c));
   ("DELETE", cli_delete_count c, latency (cli_delete_time c) (cli_delete_count c));
   ("EXISTS", cli_exists_count c, latency (cli_exists_time c) (cli_exists_count c))].

(** ** [Tester] *)

Record Tester : Type := { te_storage : gmap Z Z; te_client : Client }.
Inductive TestOp : Type := TO_Get | TO_Put | TO_Delete | TO_Exists.

Section tester.
Context {W : Type} `{HttpClient W, TesterRng W}.
Context (settings : TestSettings).
#[local] Abbreviation TW := (M (Tester * W)).

Definition on_http {A} (m : M W A) : TW A := λ s, '(a, w) ← m s.2; Some (a, (s.1, w)).
Definition on_client_metrics (f : Client → Client) : TW unit :=
  modify (λ s, ({| te_storage := te_storage s.1; te_client := f (te_client s.1) |}, s.2)).
Definition on_storage (f : gmap Z Z → gmap Z Z) : TW unit :=
  modify (λ s, ({| te_storage := f (te_storage s.1); te_client := te_client s.1 |}, s.2)).

(** [request] with [append_request_headers] *)
Definition append_request_headers : option (string * string) :=
  match se_username settings, se_password settings with Some u, Some p => Some (u, p) | _, _ => None end.
Definition make_request (method : Method) (key : Z) (body : list byte) : result HttpRequest string :=
  let addr := se_api_uri settings +:+ "data/" +:+ fmt_dec key in
  http_build method addr append_request_headers body.

(** [request(..)?] and [execute(..).await?]; what is counted in between is with the answer. *)
Definition http_call (method : Method) (key : Z) (body : list byte) : M W (result HttpResponse string) :=
  match make_request method key body with Err e => mret (Err e) | Ok req => http_execute req end.

(** The stopwatch of a call and its time afterwards *)
Definition elapsed (sw : Stopwatch) : M W Z :=
  match sw with SW_Started _ => now ← http_now; mret (Stopwatch_elapsed now sw) | _ => mret (Stopwatch_elapsed 0 sw) end.

Definition http_put (key : Z) (size : Z) : TW (result unit string) :=
  let sw := Stopwatch_new in
  res ← on_http (http_call M_Post key (repeat x01 (Z.to_nat size)));
  match res with
  | Err e => mret (Err e)
  | Ok _ => t ← on_http (elapsed sw); _ ← on_client_metrics (count_put t); mret (Ok tt)
  end.

Definition http_get (key : Z) : TW (result Z string) :=
  let sw := Stopwatch_new in
  res ← on_http (http_call M_Get key []);
  match res with
  | Err e => mret (Err e)
  | Ok res =>
      t ← on_http (elapsed sw);
      _ ← on_client_metrics (count_get t);
      if negb (is_success (hr_status res)) then mret (Err (status_display (hr_status res)))
      else mret (result_map (λ b, Z.of_nat (length b)) (hr_bytes res))
  end.

Definition http_exists (key : Z) : TW (result bool string) :=
  let sw := Stopwatch_new in
  res ← on_http (http_call M_Head key []);
  match res with
  | Err e => mret (Err e)
  | Ok res =>
      t ← on_http (elapsed sw);
      _ ← on_client_metrics (count_exists t);
      if hr_status res =? 200 then mret (Ok true)
      else if hr_status res =? 404 then mret (Ok false)
      else mret (Err (status_display (hr_status res)))
  end.

(** The request of the deletion, when it can be built; its answer is not looked at. *)
Definition http_delete (key : Z) : TW (result Z string) :=
  r ← http_get key;
  match r with
  | Err e => mret (Err e)
  | Ok size =>
      match make_request M_Delete key [] with
      | Err e => mret (Err e)
      | Ok req =>
          let sw := Stopwatch_new in
          _ ← on_http (http_execute req);
          t ← on_http (elapsed sw);
          _ ← on_client_metrics (count_delete t);
          res ← http_get key;
          mret match res with
               | Ok new_size => Err (fmt_dec size +:+ " => " +:+ fmt_dec new_size)
               | Err _ => Ok size
               end
      end
  end.

(** [Tester::new]; [None]: a distribution over nothing. *)
Definition Tester_new : option Tester :=
  if (se_start_id settings <? se_end_id settings) && (0 <? se_max_size settings)
  then Some {| te_storage := ∅; te_client := Client_new |} else None.

Definition rand_id : TW Z := on_http (rng_uniform (se_start_id settings) (se_end_id settings)).
Definition rand_size : TW Z := on_http (rng_uniform 0 (se_max_size settings)).
Definition Operation_gen : TW TestOp :=
  n ← on_http (rng_uniform 0 4);
  mret (if n =? 0 then TO_Get else if n =? 1 then TO_Put else if n =? 2 then TO_Delete else if n =? 3 then TO_Exists else TO_Get).

Definition tester_get : TW bool :=
  key ← rand_id;
  res ← http_get key;
  storage ← gets (λ s, te_storage s.1);
  match res with
  | Ok size => match storage !! key with Some expected => mret (expected =? size) | None => mret false end
  | Err _ => mret (negb (bool_decide (is_Some (storage !! key))))
  end.

Definition tester_exists : TW bool :=
  key ← rand_id;
  res ← http_exists key;
  storage ← gets (λ s, te_storage s.1);
  match res with
  | Ok found => mret (Bool.eqb (bool_decide (is_Some (storage !! key))) found)
  | Err _ => mret false
  end.

Definition tester_put : TW bool :=
  key ← rand_id;
  size ← rand_size;
  res ← http_put key size;
  match res with
  | Ok _ => _ ← on_storage (insert key size); mret true
  | Err _ => mret false
  end.

Definition tester_delete : TW bool :=
  key ← rand_id;
  res ← http_delete key;
  storage ← gets (λ s, te_storage s.1);
  let value := storage !! key in
  _ ← on_storage (delete key);
  match res with
  | Ok size => match value with Some expected => mret (expected =? size) | None => mret false end
  | Err _ => mret (bool_decide (value = None))
  end.

Definition run_op (op : TestOp) : TW bool :=
  match op with TO_Get => tester_get | TO_Put => tester_put | TO_Delete => tester_delete | TO_Exists => tester_exists end.

(** One turn of the loop of [run_test], with the successes so far. *)
Definition test_turn (total_succ i : Z) : TW Z :=
  _ ← (if (i mod 10000 =? 0) || (i =? se_count settings - 1) then on_client_metrics reset_metrics else mret tt);
  op ← Operation_gen;
  success ← run_op op;
  mret (if (success : bool) then total_succ + 1 else total_succ).

Definition run_test : TW bool :=
  total_succ ← for_each test_turn 0 (seqZ 0 (se_count settings));
  mret (total_succ =? se_count settings).

(** [main]: the code of the exit. *)
Definition bobt_main : M W bool := λ w,
  tester ← Tester_new;
  '(ok, s) ← run_test (tester, w);
  Some (ok, s.2).
End tester.

(** ** What the tester judges

    The operations as they are seen from the tester: what was asked and answered, whatever the
    server is, next to the data the tester keeps. *)
Inductive Observed : Type :=
| Obs_get (key : Z) (answer : result Z string)
| Obs_put (key size : Z) (answer : result unit string)
| Obs_delete (key : Z) (answer : result Z string)
| Obs_exists (key : Z) (answer : result bool string).

(** The answer is that of a server that holds [storage]: an object of that size, or none. *)
Definition agrees (storage : gmap Z Z) (o : Observed) : bool :=
  match o with
  | Obs_get key (Ok size) | Obs_delete key (Ok size) => bool_decide (storage !! key = Some size)
  | Obs_get key (Err _) | Obs_delete key (Err _) => bool_decide (storage !! key = None)
  | Obs_exists key (Ok found) => bool_decide (found = true ↔ is_Some (storage !! key))
  | Obs_put _ _ (Ok _) => true
  | Obs_put _ _ (Err _) | Obs_exists _ (Err _) => false
  end.

(** The data after an operation *)
Definition stored_after (o : Observed) (storage : gmap Z Z) : gmap Z Z :=
  match o with
  | Obs_put key size (Ok _) => <[key := size]> storage
  | Obs_delete key _ => delete key storage
  | _ => storage
  end.

Section judging.
Context {W : Type} `{HttpClient W, TesterRng W} (settings : TestSettings).
#[local] Set Default Proof Using "Type*".
#[local] Abbreviation TW := (M (Tester * W)).

(** The calls of an operation, without a judgement *)
Definition observe (op : TestOp) : TW Observed :=
  key ← rand_id settings;
  match op with
  | TO_Get => r ← http_get settings key; mret (Obs_get key r)
  | TO_Put => size ← rand_size settings; r ← http_put settings key size; mret (Obs_put key size r)
  | TO_Delete => r ← http_delete settings key; mret (Obs_delete key r)
  | TO_Exists => r ← http_exists settings key; mret (Obs_exists key r)
  end.

(** The data kept when the answer came, and the answer *)
Definition observe_turn (l : list (gmap Z Z * Observed)) (i : Z) : TW (list (gmap Z Z * Observed)) :=
  _ ← (if (i mod 10000 =? 0) || (i =? se_count settings - 1) then on_client_metrics reset_metrics else mret tt);
  op ← Operation_gen;
  o ← observe op;
  storage ← gets (λ s, te_storage s.1);
  _ ← on_storage (stored_after o);
  mret (l ++ [(storage, o)]).
Definition observe_test : TW (list (gmap Z Z * Observed)) := for_each observe_turn [] (seqZ 0 (se_count settings)).

Lemma run_op_judges op s :
  run_op settings op s =
  (o ← observe op; storage ← gets (λ s, te_storage s.1); _ ← on_storage (stored_after o); mret (agrees storage o)) s.
Proof.
  rw /observe. destruct op; rw /= /tester_get /tester_put /tester_delete /tester_exists /mbind /M_bind /gets /on_storage /modify;
    (destruct (rand_id settings s) as [[key s1]|]; [|done]).
  - destruct (http_get settings key s1) as [[[size|e] [[storage c] w]]|]; [| |done]; simpl.
    + destruct (storage !! key) as [expected|]; rw /mret /M_ret; do 2 f_equal.
      destruct (Z.eqb_spec expected size); case_bool_decide; naive_solver.
    + rw /mret /M_ret. do 2 f_equal. destruct (storage !! key); done.
  - destruct (rand_size settings s1) as [[size s2]|]; [|done].
    destruct (http_put settings key size s2) as [[[[]|e] [[storage c] w]]|]; done.
  - destruct (http_delete settings key s1) as [[[size|e] [[storage c] w]]|]; [| |done]; simpl.
    + destruct (storage !! key) as [expected|]; rw /mret /M_ret; do 2 f_equal.
      destruct (Z.eqb_spec expected size); case_bool_decide; naive_solver.
    + done.
  - destruct (http_exists settings key s1) as [[[found|e] [[storage c] w]]|]; [| |done]; simpl; [|done].
    rw /mret /M_ret. do 2 f_equal. destruct (storage !! key) as [expected|], found; repeat case_bool_decide; naive_solver.
Qed.

(** The successes are the answers that agree. *)
Definition agreeing (l : list (gmap Z Z * Observed)) : Z := Z.of_nat (length (filter (λ x, agrees x.1 x.2 = true) l)).

Lemma agreeing_all l : agreeing l = Z.of_nat (length l) ↔ forallb (λ x, agrees x.1 x.2) l = true.
Proof.
  rw /agreeing. split.
  - induction l as [|x l IH]; [done|]. rw filter_cons. pose proof (length_filter (λ x, agrees x.1 x.2 = true) l).
    case_decide as Hx; simpl; [|lia]. rw Hx /=. intros Hl. apply IH. lia.
  - induction l as [|x l IH]; [done|]. simpl. intros [Hx Hl]%andb_true_iff. rw filter_cons decide_True //=. specialize (IH Hl). lia.
Qed.

Lemma test_turn_judges l i s :
  test_turn settings (agreeing l) i s = (l' ← observe_turn l i; mret (agreeing l')) s.
Proof.
  rw /test_turn /observe_turn. set (reset := if (_ : bool) then _ else _). rw /mbind /M_bind.
  destruct (reset s) as [[[] s1]|]; [|done]. destruct (Operation_gen s1) as [[op s2]|]; [|done]. rw run_op_judges /mbind /M_bind.
  destruct (observe op s2) as [[o s3]|]; [|done]. simpl. rw /mret /M_ret. do 2 f_equal.
  rw /agreeing list.filter_app length_app filter_cons /=. case_decide as Ha; [rw Ha|apply not_true_is_false in Ha; rw Ha]; simpl; lia.
Qed.

Lemma test_loop_judges l turns s :
  for_each (test_turn settings) (agreeing l) turns s = (l' ← for_each observe_turn l turns; mret (agreeing l')) s.
Proof.
  revert l s. induction turns as [|i turns IH]; intros l s; [done|]. simpl. rw {1}/mbind /M_bind test_turn_judges /mbind /M_bind.
  destruct (observe_turn l i s) as [[l' s']|]; [|done]. simpl. rw IH. done.
Qed.

Lemma observe_length l turns s l' s' : for_each observe_turn l turns s = Some (l', s') → length l' = (length l + length turns)%nat.
Proof.
  revert l s. induction turns as [|i turns IH]; intros l s; simpl; [intros [= <- _]; lia|]. intros Hr.
  apply bind_Some_inv in Hr as (l1 & s1 & Hl1 & Hr). rw (IH _ _ Hr). rw /observe_turn in Hl1.
  repeat (apply bind_Some_inv in Hl1 as (? & ? & _ & Hl1)). injection Hl1 as <- _. rw length_app /=. lia.
Qed.

(** The test succeeds exactly when every answer was that of the data kept. *)
Lemma run_test_judges s : 0 ≤ se_count settings →
  run_test settings s = (l ← observe_test; mret (forallb (λ x, agrees x.1 x.2) l)) s.
Proof.
  intros Hcount. rw /run_test /observe_test /mbind {1}/M_bind. change 0 with (agreeing []) at 1. rw test_loop_judges /mbind /M_bind.
  destruct (for_each observe_turn [] (seqZ 0 (se_count settings)) s) as [[l s']|] eqn:Hl; [|done]. simpl. rw /mret /M_ret. do 2 f_equal.
  apply observe_length in Hl. rw length_seqZ /= in Hl. pose proof (agreeing_all l) as Hall.
  destruct (Z.eqb_spec (agreeing l) (se_count settings)) as [He|He]; [symmetry; apply Hall; lia|].
  symmetry. apply not_true_is_false. intros Hf. apply He. apply Hall in Hf. lia.
Qed.
End judging.

(** ** A server that is a map

    What the tester takes for granted of a correct server, with the data it holds: sizes by key. *)
Class MapServer (W : Type) `{HttpClient W, TesterRng W} (settings : TestSettings) := {
  contents : W → gmap Z Z;
  requests_built method key body : is_ok (make_request settings method key body) = true;
  get_answer key w : u64 key → ∃ r w', http_call settings M_Get key [] w = Some (Ok r, w') ∧ contents w' = contents w ∧
    match contents w !! key with
    | Some size => is_success (hr_status r) = true ∧ ∃ b, hr_bytes r = Ok b ∧ Z.of_nat (length b) = size
    | None => is_success (hr_status r) = false
    end;
  head_answer key w : u64 key → ∃ r w', http_call settings M_Head key [] w = Some (Ok r, w') ∧ contents w' = contents w ∧
    hr_status r = if bool_decide (is_Some (contents w !! key)) then 200 else 404;
  post_answer key body w : u64 key → ∃ r w', http_call settings M_Post key body w = Some (Ok r, w') ∧
    contents w' = <[key := Z.of_nat (length body)]> (contents w);
  delete_answer key w : u64 key → ∃ r w', http_call settings M_Delete key [] w = Some (r, w') ∧ contents w' = delete key (contents w);
  uniform_answer low high w : low < high → ∃ r w', rng_uniform low high w = Some (r, w') ∧ low ≤ r < high ∧ contents w' = contents w;
}.

Section map_server.
Context {W : Type} `{MapServer W settings}.
#[local] Set Default Proof Using "Type*".

(** No time was ever counted: the stopwatches are not started. *)
Definition no_times (c : Client) : Prop :=
  cli_put_time c = 0 ∧ cli_get_time c = 0 ∧ cli_delete_time c = 0 ∧ cli_exists_time c = 0.

(** The map of the tester is what the server holds, for the keys it draws. *)
Definition in_step (s : Tester * W) : Prop :=
  (∀ key, se_start_id settings ≤ key < se_end_id settings → te_storage s.1 !! key = contents s.2 !! key) ∧ no_times (te_client s.1).

(** The state between the calls of one operation: the storage is fixed, the server holds [m]. *)
Definition during (storage m : gmap Z Z) (s : Tester * W) : Prop :=
  te_storage s.1 = storage ∧ contents s.2 = m ∧ no_times (te_client s.1).

Lemma wp_http {A} (m : M W A) a w' (Q : A → Tester * W → Prop) s : m s.2 = Some (a, w') → Q a (s.1, w') → wp (on_http m) Q s.
Proof. intros Hm HQ. by rw /wpx /on_http Hm. Qed.

(** After a call the count of its kind grows, by no time. *)
Lemma wp_counted {A} (f : Z → Client → Client) (m : M (Tester * W) A) (Q : A → Tester * W → Prop) s :
  wp m Q ({| te_storage := te_storage s.1; te_client := f 0 (te_client s.1) |}, s.2) →
  wp (t ← on_http (elapsed Stopwatch_new); _ ← on_client_metrics (f t); m) Q s.
Proof.
  intros Hm. apply wpx_bind. apply (wp_http _ 0 s.2); [done|]. apply wpx_bind, wpx_modify. by destruct s.
Qed.

Lemma wp_rng storage m low high s : during storage m s → low < high →
  wp (on_http (rng_uniform low high)) (λ r s', low ≤ r < high ∧ during storage m s') s.
Proof.
  intros (Hs & Hm & Ht) Hlt. destruct (uniform_answer low high s.2 Hlt) as (r & w' & Hr & Hb & Hc).
  rw /wpx /on_http Hr /=. split; [done|]. split; [done|]. split; [by rw /= Hc|done].
Qed.

(** What [http_get] says of a server that holds [m] *)
Definition get_says (m : gmap Z Z) (key : Z) (r : result Z string) : Prop :=
  match m !! key with Some size => r = Ok size | None => ∃ e, r = Err e end.

Lemma wp_get storage m key s : u64 key → during storage m s →
  wp (http_get settings key) (λ r s', get_says m key r ∧ during storage m s') s.
Proof.
  intros Hu (Hs & Hm & Ht). destruct (get_answer key s.2 Hu) as (r & w' & Hr & Hc & Ha).
  apply wpx_bind, (wp_http _ _ w' _ _ Hr), wp_counted. cbn [fst snd].
  assert (during storage m ({| te_storage := te_storage s.1; te_client := count_get 0 (te_client s.1) |}, w')) as Hd.
  { split; [done|]. split; [by rw /= Hc|]. destruct Ht as (? & ? & ? & ?). by rw /no_times /count_get /= !Z.add_0_r. }
  subst m. rw /get_says. destruct (contents s.2 !! key) as [size|].
  - destruct Ha as (Hok & b & Hb & Hl). rw Hok Hb /=. apply wpx_ret. by rw Hl.
  - rw Ha /=. apply wpx_ret. split; [by eexists|done].
Qed.

Lemma wp_put storage m key size s : u64 key → during storage m s → 0 ≤ size →
  wp (http_put settings key size) (λ r s', r = Ok tt ∧ during storage (<[key := size]> m) s') s.
Proof.
  intros Hu (Hs & Hm & Ht) Hsize. destruct (post_answer key (repeat x01 (Z.to_nat size)) s.2 Hu) as (r & w' & Hr & Hc).
  apply wpx_bind, (wp_http _ _ w' _ _ Hr), wp_counted, wpx_ret. split; [done|].
  rw repeat_length Z2Nat.id // in Hc. split; [done|]. split; [by rw /= Hc Hm|].
  destruct Ht as (? & ? & ? & ?). by rw /no_times /count_put /= !Z.add_0_r.
Qed.

Lemma wp_exists storage m key s : u64 key → during storage m s →
  wp (http_exists settings key) (λ r s', r = Ok (bool_decide (is_Some (m !! key))) ∧ during storage m s') s.
Proof.
  intros Hu (Hs & Hm & Ht). destruct (head_answer key s.2 Hu) as (r & w' & Hr & Hc & Ha).
  apply wpx_bind, (wp_http _ _ w' _ _ Hr), wp_counted. cbn [fst snd].
  assert (during storage m ({| te_storage := te_storage s.1; te_client := count_exists 0 (te_client s.1) |}, w')) as Hd.
  { split; [done|]. split; [by rw /= Hc|]. destruct Ht as (? & ? & ? & ?). by rw /no_times /count_exists /= !Z.add_0_r. }
  subst m. rw Ha. case_bool_decide; by apply wpx_ret.
Qed.

(** A deletion answers like the get before it, and the key is gone. *)
Lemma wp_delete storage m key s : u64 key → during storage m s →
  wp (http_delete settings key) (λ r s', get_says m key r ∧ during storage (delete key m) s') s.
Proof.
  intros Hu Hd. apply wpx_bind. eapply wpx_mono; [by apply wp_get|]. intros r s1 [Hr Hd1]. rw /get_says in Hr |- *.
  destruct (m !! key) as [size|] eqn:Hk.
  - subst r. pose proof (requests_built M_Delete key []) as Hb. destruct (make_request settings M_Delete key []) as [req|] eqn:Hreq; [|done].
    destruct (delete_answer key s1.2 Hu) as (a & w' & Ha & Hc). rw /http_call Hreq in Ha. destruct Hd1 as (Hs & Hm & Ht).
    apply wpx_bind, (wp_http _ _ w' _ _ Ha), wp_counted, wpx_bind.
    eapply wpx_mono; [apply (wp_get storage (delete key m) _ _ Hu)|].
    + split; [done|]. split; [by rw /= Hc Hm|]. destruct Ht as (? & ? & ? & ?). by rw /no_times /count_delete /= !Z.add_0_r.
    + intros r s2 [Hr Hd2]. rw /get_says lookup_delete_eq in Hr. destruct Hr as [e ->]. by apply wpx_ret.
  - destruct Hr as [e ->]. apply wpx_ret. split; [by eexists|]. by rw delete_id.
Qed.

(** ** Lemmas: the operations *)

Hypothesis Hids : 0 ≤ se_start_id settings < se_end_id settings ∧ se_end_id settings ≤ u64_max.
Hypothesis Hsizes : 0 < se_max_size settings.

(** Draw a key, and go on with the server still in step. *)
Lemma wp_key {A} (f : Z → M (Tester * W) A) (Q : A → Tester * W → Prop) s :
  in_step s →
  (∀ key s', u64 key → se_start_id settings ≤ key < se_end_id settings → te_storage s'.1 !! key = contents s'.2 !! key → in_step s' →
     during (te_storage s'.1) (contents s'.2) s' → wp (f key) Q s') →
  wp (rand_id settings ≫= f) Q s.
Proof.
  intros [Hin Ht] Hf. apply wpx_bind. eapply wpx_mono; [apply (wp_rng (te_storage s.1) (contents s.2)); [done|lia]|].
  intros key s' (Hkey & Hs & Hm & Ht'). assert (in_step s') as Hin' by (split; [intros k Hk; rw Hs Hm; by apply Hin|done]).
  apply Hf; [rw /u64; pose proof (eq_refl : u64_max = 2 ^ 64 - 1); lia|done|by apply Hin'|done|by split].
Qed.

Lemma in_step_during storage m s : during storage m s →
  (∀ key, se_start_id settings ≤ key < se_end_id settings → storage !! key = m !! key) → in_step s.
Proof. intros (<- & <- & Ht) Hs. by split. Qed.

Lemma wp_run_op op s : in_step s → wp (run_op settings op) (λ ok s', ok = true ∧ in_step s') s.
Proof.
  intros Hin. destruct op; (apply wp_key; [done|]); intros key s1 Hu Hkey Heq Hin1 Hd1.
  - apply wpx_bind. eapply wpx_mono; [by apply wp_get|]. intros r s2 [Hr Hd2]. apply wpx_bind, wpx_gets.
    pose proof (in_step_during _ _ _ Hd2 (proj1 Hin1)) as Hin2. rw /get_says -Heq in Hr. destruct Hd2 as (Hs2 & _). rw Hs2.
    destruct (te_storage s1.1 !! key) as [size|] eqn:Hk.
    + subst r. apply wpx_ret. by rw Z.eqb_refl.
    + destruct Hr as [e ->]. by apply wpx_ret.
  - apply wpx_bind. eapply wpx_mono; [by apply (wp_rng (te_storage s1.1) (contents s1.2))|]. intros size s2 [Hsize Hd2].
    apply wpx_bind. eapply wpx_mono; [apply (wp_put _ _ _ _ _ Hu Hd2); lia|]. intros r s3 [-> Hd3].
    apply wpx_bind, wpx_modify, wpx_ret. split; [done|]. destruct Hd3 as (Hs3 & Hm3 & Ht3). split; [|done]. intros k Hk. cbn [fst snd te_storage].
    rw Hs3 Hm3. destruct (decide (k = key)) as [->|]; [by rw !lookup_insert_eq|]. rw !lookup_insert_ne //. by apply Hin1.
  - apply wpx_bind. eapply wpx_mono; [by apply wp_delete|]. intros r s2 [Hr Hd2]. apply wpx_bind, wpx_gets. apply wpx_bind, wpx_modify.
    assert (in_step ({| te_storage := delete key (te_storage s2.1); te_client := te_client s2.1 |}, s2.2)) as Hin2.
    { destruct Hd2 as (Hs2 & Hm2 & Ht2). split; [|done]. intros k Hk. cbn [fst snd te_storage]. rw Hs2 Hm2.
      destruct (decide (k = key)) as [->|]; [by rw !lookup_delete_eq|]. rw !lookup_delete_ne //. by apply Hin1. }
    rw /get_says -Heq in Hr. destruct Hd2 as (Hs2 & _). rw Hs2 in Hin2 |- *. destruct (te_storage s1.1 !! key) as [size|] eqn:Hk.
    + subst r. apply wpx_ret. by rw Z.eqb_refl.
    + destruct Hr as [e ->]. by apply wpx_ret.
  - apply wpx_bind. eapply wpx_mono; [by apply wp_exists|]. intros r s2 [-> Hd2]. apply wpx_bind, wpx_gets.
    pose proof (in_step_during _ _ _ Hd2 (proj1 Hin1)) as Hin2. destruct Hd2 as (Hs2 & _). rw Hs2 Heq. apply wpx_ret. by rw eqb_reflx.
Qed.

Lemma wp_test_turn total i s : in_step s → wp (test_turn settings total i) (λ n s', n = total + 1 ∧ in_step s') s.
Proof.
  intros Hin. apply wpx_bind. apply (wpx_mono _ _ (λ _ s', in_step s')).
  { case_match; [|by apply wpx_ret]. apply wpx_modify. split; [apply Hin|done]. }
  intros _ s1 Hin1. apply wpx_bind. apply wpx_bind.
  eapply wpx_mono; [apply (wp_rng (te_storage s1.1) (contents s1.2)); [|lia]; split; [done|]; split; [done|]; apply Hin1|].
  intros n s2 [_ Hd2]. apply wpx_ret. pose proof (in_step_during _ _ _ Hd2 (proj1 Hin1)) as Hin2.
  apply wpx_bind. eapply wpx_mono; [by apply wp_run_op|]. intros ok s3 [-> Hin3]. by apply wpx_ret.
Qed.
End map_server.

(** C36: The tester judges by the data it keeps, and raises no false alarm.  Whatever the server is,
    the test succeeds exactly when every answer it saw is that of a server holding what the
    tester put and did not delete: the size for a get or a deletion of a key that is there, an
    error for one that is not, the truth for an exist, no error for a put.  Against a server
    that behaves as a map and holds none of the keys of the test at the start, every run ends
    and succeeds, and the map of the tester and the data of the server are then still the same.
    The times it reports are all zero, since its stopwatches are made with [Stopwatch::new] and
    never started. *)
Theorem tester_accepts {W} `{HttpClient W, TesterRng W} settings w :
  0 ≤ se_start_id settings < se_end_id settings ∧ se_end_id settings ≤ u64_max → 0 < se_max_size settings → 0 ≤ se_count settings →
  (∀ s, run_test settings s = (l ← observe_test settings; mret (forallb (λ x, agrees x.1 x.2) l)) s) ∧
  ∀ server : MapServer W settings,
    (∀ key, se_start_id settings ≤ key < se_end_id settings → contents w !! key = None) →
    ∃ tester t' w', Tester_new settings = Some tester ∧ run_test settings (tester, w) = Some (true, (t', w')) ∧
      bobt_main settings w = Some (true, w') ∧ in_step (settings := settings) (t', w').
Proof.
  intros Hids Hsizes Hcount. split; [intros s; by apply run_test_judges|]. intros server Hempty.
  rw /bobt_main /Tester_new (proj2 (Z.ltb_lt _ _) (proj2 (proj1 Hids))) (proj2 (Z.ltb_lt _ _) Hsizes).
  set (tester := {| te_storage := ∅; te_client := Client_new |}). exists tester.
  assert (in_step (settings := settings) (tester, w)) as Hin by (split; [intros k Hk; by rw Hempty|done]).
  destruct (wp_total (run_test settings) (λ ok s, ok = true ∧ in_step (settings := settings) s) (tester, w)) as (ok & [t' w'] & Hrun & -> & Hin').
  { apply wpx_bind. eapply wpx_mono.
    - apply (wpx_for_each False _ _ (λ done_ n s, n = Z.of_nat (length done_) ∧ in_step (settings := settings) s)); [done|].
      intros done_ i rest n s _ [-> Hs]. eapply wpx_mono; [by apply wp_test_turn|]. intros n s' [-> Hs']. split; [|done].
      rw length_app /=. lia.
    - intros n s [-> Hs]. apply wpx_ret. split; [|done]. rw length_seqZ. apply Z.eqb_eq. lia. }
  exists t', w'. rw /= Hrun. done.
Qed.

(** *** A server in memory, with 404 for a missing key, and numbers that count up *)
Module MapWorld.
Definition World : Type := gmap Z nat * Z.
Definition key_of (addr : string) : Z := default (-1) (list.last (split_char "/"%char addr) ≫= parse_u64).
Definition respond (status : Z) (b : list byte) : result HttpResponse string := Ok {| hr_status := status; hr_bytes := Ok b |}.
#[export] Instance client : HttpClient World := {|
  HttpRequest := Method * Z * list byte;
  http_build method addr _ body := Ok (method, key_of addr, body);
  http_execute r := λ w,
    let '(method, key, body) := r in
    match method with
    | M_Get => Some (match w.1 !! key with Some n => respond 200 (repeat x00 n) | None => respond 404 [] end, w)
    | M_Head => Some (respond (if bool_decide (is_Some (w.1 !! key)) then 200 else 404) [], w)
    | M_Post => Some (respond 201 [], (<[key := length body]> w.1, w.2))
    | M_Delete => Some (respond 200 [], (delete key w.1, w.2))
    end;
  http_now := mret 0;
  status_display := fmt_dec |}.
#[export] Instance counting : TesterRng World := λ low high w, Some (low + w.2 mod (high - low), (w.1, w.2 + 1)).
Definition settings : TestSettings :=
  {| se_count := 8; se_start_id := 3; se_end_id := 5; se_max_size := 7; se_api_uri := "http://localhost:8000/"; se_username := None; se_password := None |}.

Lemma key_of_addr key : u64 key → key_of (se_api_uri settings +:+ "data/" +:+ fmt_dec key) = key.
Proof.
  intros [Hk Hk']. rw /key_of.
  change (split_char "/" (se_api_uri settings +:+ "data/" +:+ fmt_dec key)) with
    ("http:" :: "" :: "localhost:8000" :: "data" :: split_go "/" (fmt_dec key) EmptyString).
  pose proof (split_go_app "/"%char (fmt_dec key) EmptyString EmptyString) as Hs. rw append_nil_r in Hs.
  rw Hs; [apply dec_go_no_sep; [done|done|by intros [|i] c]|]. cbn. change (EmptyString +:+ fmt_dec key) with (fmt_dec key).
  assert (parse_u64 (fmt_dec key) = Some key) as Hp by (apply parse_fmt_dec; lia). by rw Hp.
Qed.

#[export] Instance map_server : MapServer World settings.
Proof.
  apply (Build_MapServer _ _ _ settings (λ w : World, Z.of_nat <$> w.1)).
  - done.
  - intros key w Hu. rw /http_call /make_request. cbn [http_build client http_execute]. rw (key_of_addr key Hu). rw lookup_fmap.
    destruct (w.1 !! key) as [n|]; eexists _, w; (split; [reflexivity|]; split; [done|]; cbn); [|done].
    split; [done|]. eexists. split; [done|]. by rw repeat_length.
  - intros key w Hu. rw /http_call /make_request. cbn [http_build client http_execute]. rw (key_of_addr key Hu). eexists _, w. rw lookup_fmap.
    split; [reflexivity|]. split; [done|]. by destruct (w.1 !! key).
  - intros key body w Hu. rw /http_call /make_request. cbn [http_build client http_execute]. rw (key_of_addr key Hu). eexists _, _.
    split; [done|]. cbn. by rw fmap_insert.
  - intros key w Hu. rw /http_call /make_request. cbn [http_build client http_execute]. rw (key_of_addr key Hu). eexists _, _.
    split; [done|]. cbn. by rw fmap_delete.
  - intros low high w Hlt. eexists _, _. split; [done|]. split; [|done]. pose proof (Z.mod_pos_bound w.2 (high - low)). lia.
Defined.
End MapWorld.
Import MapWorld.

Lemma tester_accepts_witness : ∃ tester t' w', Tester_new settings = Some tester ∧
  run_test settings (tester, (∅, 1) : World) = Some (true, (t', w')) ∧ bobt_main settings (∅, 1) = Some (true, w') ∧ in_step (settings := settings) (t', w').
Proof.
  apply (tester_accepts settings ((∅, 1) : World)); [by rw /u64_max; cbn|done|done|]. intros key _. done.
Defined.

(** A server that already holds objects with keys of the test is judged to fail. *)
Example held_keys_fail :
  bobt_main settings (({[ 3 := 9%nat; 4 := 9%nat ]}, 1) : World) ≫= (λ r, Some r.1) = Some false.
Proof. vm_compute. reflexivity. Qed.

(** Data of another size than was put is reported when it is deleted. *)
Example wrong_size_reported :
  (tester_delete settings ({| te_storage := {[ 3 := 4 ]}; te_client := Client_new |}, ({[ 3 := 5%nat ]}, 0))) ≫= (λ r, Some r.1) = Some false.
Proof. vm_compute. reflexivity. Qed.
