(* ===== verification/Bobd.v ===== *)
(** * Bobd: the start of a node

    [bob-apps/bin/bobd.rs]: the address to listen on, the configuration of test mode, the
    folders of the disks, the credentials of the other nodes and the choice of the
    authenticator.  Parsers of addresses, the network interfaces and the file system are
    parameters. *)

From Corelib Require Import ssreflect.
From stdpp Require Import base option list relations strings gmap numbers.
From Stdlib Require Import Strings.Ascii ZArith Lia.
From S2P Require Import Prelude Data Text Errors Options Node ClusterConfig NodeConfig Access PearlUtils HwMetrics RecoveryTool Bobp.

(** [parse] of [SocketAddr], of [SocketAddrV4] and of [IpAddr], and [Display] of [IpAddr]. *)
Class AddressParsers := {
  parse_socket : string → option (IpAddr * Z);
  parse_socket_v4 : string → result (Z * Z) string;
  parse_ip : string → option IpAddr;
  show_ip : IpAddr → string;
}.

#[global] Instance IpAddr_eq_dec : EqDecision IpAddr.
Proof. solve_decision. Defined.

(** ** The address of the node *)

Definition bind_all_interfaces (port : Z) : IpAddr * Z := (IpV4 0, port).
(** [rsplit_once(':')] and the port after it *)
Definition port_from_address (addr : string) : option Z :=
  match reverse (split_char ":"%char addr) with
  | port :: _ :: _ => parse_uint (2 ^ 16) port
  | _ => None
  end.

Section start.
Context `{AddressParsers}.

(** The [match] over the configured address, the address of the cluster configuration and its
    port; [None]: it cannot be determined. *)
Definition bind_address (bind_to_ip_address : option (IpAddr * Z)) (bind : string) : option (IpAddr * Z) :=
  match bind_to_ip_address, parse_socket bind, port_from_address bind with
  | Some addr1, Some addr2, _ => if bool_decide (addr1 = addr2) then Some addr1 else None
  | Some addr, _, _ => Some addr
  | _, Some addr, _ => Some addr
  | _, _, Some port => Some (bind_all_interfaces port)
  | _, _, _ => None
  end.

(** With [--name]: the address of that node of the cluster. *)
Definition named_address (cluster : Cluster) (name : string) : option (IpAddr * Z) :=
  found ← List.find (λ n, bool_decide (cn_name n = name)) (cl_nodes cluster);
  match parse_socket (cn_address found) with
  | Some addr => Some addr
  | None => port ← port_from_address (cn_address found); Some (bind_all_interfaces port)
  end.
(** Where the node listens; [None] aborts. *)
Definition listen_address (m : ArgMatches) (cluster : Cluster) (node : NodeConfig) : option (IpAddr * Z) :=
  addr ← bind_address (cfg_bind_to_ip_address node) (cfg_bind_ref node);
  match value_of m "name" with Some name => named_address cluster name | None => Some addr end.

(** The address and port of the REST server *)
Definition http_api_port (m : ArgMatches) (node : NodeConfig) : Z :=
  default (cfg_http_api_port node) (value_of m "http_api_port" ≫= parse_uint (2 ^ 16)).
Definition http_api_address (m : ArgMatches) (node : NodeConfig) : IpAddr :=
  default (cfg_http_api_address node) (value_of m "http_api_address" ≫= parse_ip).

(** ** Credentials of the nodes *)

(** [DeclaredCredentialsBuilder] *)
Definition internode_builder (node_name : string) : DeclaredCredentials :=
  {| dc_address := []; dc_hostname := None; dc_kind := CK_InterNode node_name |}.
Definition with_address (address : SocketAddr) (c : DeclaredCredentials) : DeclaredCredentials :=
  {| dc_address := [address]; dc_hostname := dc_hostname c; dc_kind := dc_kind c |}.
Definition with_hostname (hostname : string) (c : DeclaredCredentials) : DeclaredCredentials :=
  {| dc_address := dc_address c; dc_hostname := Some hostname; dc_kind := dc_kind c |}.

Definition node_credentials (node : ClusterNode) : DeclaredCredentials :=
  match parse_socket (cn_address node) with
  | Some (ip, port) => with_address {| sa_ip := show_ip ip; sa_port := port |} (internode_builder (cn_name node))
  | None => with_hostname (cn_address node) (internode_builder (cn_name node))
  end.
Definition nodes_credentials_from_cluster_config (cluster : Cluster) : gmap string DeclaredCredentials :=
  foldl (λ nodes_creds node, <[cn_name node := node_credentials node]> nodes_creds) ∅ (cl_nodes cluster).

(** The authenticator a node starts with; without one the node does not start.  [users] is
    what [UsersMap::from_file] gives; [None]: an [expect] fails. *)
Inductive StartAuthenticator : Type :=
| SA_Stub
| SA_Basic (b : Basic) (st : AuthState)
| SA_NotStarted.
Definition start_authenticator `{!HashOrder} (now : Z) (users : result UsersMap string) (cluster : Cluster) (node : NodeConfig) : option StartAuthenticator :=
  match cfg_authentication_type node with
  | NodeConfig.AuthNone => Some SA_Stub
  | NodeConfig.AuthBasic =>
      match users with
      | Err _ => None
      | Ok users_storage =>
          let b := {| bs_users_storage := users_storage; bs_resolve_sleep_period_ms := cfg_hostname_resolve_period_ms node |} in
          let nodes_credentials := hash_order (map_to_list (nodes_credentials_from_cluster_config cluster)) in
          let '(r, st) := set_nodes_credentials b now nodes_credentials {| au_nodes := ∅; au_resolvers := [] |} in
          match r with Ok _ => Some (SA_Basic b st) | Err _ => None end
      end
  | NodeConfig.AuthToken => Some SA_NotStarted
  end.

(** ** Test mode *)

Context `{UriParser, ConfigParsers}.

(** [get_testmode_node_config]; [None]: a node without disks. *)
Definition get_testmode_node_config (cluster : Cluster) (disks_events_logfile : string) (n_node : nat) (rest_port : option Z)
    : option (result NodeConfig string) :=
  match cl_nodes cluster !! n_node with
  | None => Some (Err ("node with index " +:+ fmt_dec (Z.of_nat n_node) +:+ " not found"))
  | Some node =>
      disk ← head (cn_disks node);
      let config := NodeConfig_get_testmode disks_events_logfile (cn_name node) (dp_name disk) rest_port in
      r ← NodeConfig_validate config;
      match r with
      | Err e => Some (Err ("config is not valid: " +:+ e))
      | Ok _ =>
          '(r, config) ← Cluster_check cluster config;
          Some match r with Err e => Err ("node config check failed: " +:+ e) | Ok _ => Ok config end
      end
  end.

(** A port of the command line *)
Definition port_arg (name : string) (m : ArgMatches) : result (option Z) string :=
  match value_of m name with
  | Some v => result_map_err (λ _, "could not parse --" +:+ name) (result_map Some (ok_or (parse_uint (2 ^ 16) v) EmptyString))
  | None => Ok None
  end.

(** The loop over the addresses of [--nodes]: the index of the first that is this machine's, with
    the port, and the addresses. *)
Fixpoint node_addresses (port : Z) (available_ips : list Z) (index : nat) (this_node : option nat) (l : list string)
    : result (option nat * list string) string :=
  match l with
  | [] => Ok (this_node, [])
  | addr :: l =>
      let addr := str_trim addr in
      v4addr <-? parse_socket_v4 addr;
      let this_node :=
        match this_node with
        | Some i => Some i
        | None => if (port =? v4addr.2) && bool_decide (v4addr.1 ∈ available_ips) then Some index else None
        end in
      r <-? node_addresses port available_ips (S index) this_node l;
      Ok (r.1, addr :: r.2)
  end.

(** [configure_testmode] up to the folders: the cluster, the index of this node and its configuration.
    [interfaces] is what the system says of its addresses. *)
Definition testmode_config (m : ArgMatches) (disks_events_logfile : string) (interfaces : result (list Z) string)
    : option (result (Cluster * nat * NodeConfig) string) :=
  let parsed :=
    grpc_port <-? port_arg "grpc-port" m;
    let port := default 20000 grpc_port in
    r <-? match value_of m "nodes" with
          | Some node_list => available_ips <-? interfaces; node_addresses port available_ips 0 None (split_char ","%char node_list)
          | None => Ok (Some 0%nat, ["127.0.0.1:" +:+ fmt_dec port])
          end;
    let '(this_node, addresses) := r in
    this_node_index <-? ok_or this_node "current node address not found";
    let path := default ("data_" +:+ fmt_dec (Z.of_nat this_node_index)) (value_of m "data") in
    cluster <-? Cluster_get_testmode path addresses;
    http_api_port <-? port_arg "restapi-port" m;
    Ok (cluster, this_node_index, http_api_port) in
  match parsed with
  | Err e => Some (Err e)
  | Ok (cluster, i, rest_port) =>
      r ← get_testmode_node_config cluster disks_events_logfile i rest_port;
      Some (result_map (λ node, (cluster, i, node)) r)
  end.
End start.

(** ** Folders *)

Class Folders (W : Type) := {
  fo_is_dir : string → W → bool;
  fo_create_dir : string → M W (result unit string);
}.

Section folders.
Context {W : Type} `{Folders W}.

(** One folder of a disk *)
Definition check_folder (init_flag : bool) (path : string) : M W unit :=
  is_dir ← gets (fo_is_dir path);
  if (is_dir : bool) then mret tt
  else if init_flag then r ← fo_create_dir path; match r with Ok _ => mret tt | Err _ => panic end
  else panic.

(** [check_folders] over the disks of the node; the settings of Pearl abort when there are none. *)
Definition check_folders (node : NodeConfig) (init_flag : bool) : M W unit :=
  t ← expect (backend_type node);
  if decide (t = BackendPearl) then
    pearl ← expect (cfg_get_pearl node);
    let root_dir := bs_root_dir_name (pl_settings pearl) in
    let alien_dir := bs_alien_root_dir_name (pl_settings pearl) in
    for_each (λ _ disk,
      _ ← check_folder init_flag (path_push (dp_path disk) root_dir);
      check_folder init_flag (path_push (dp_path disk) alien_dir)) tt (cfg_disks_ref node)
  else mret tt.

Definition configure_testmode `{AddressParsers, UriParser, ConfigParsers} (m : ArgMatches) (disks_events_logfile : string)
    (interfaces : result (list Z) string) : M W (result (Cluster * NodeConfig) string) :=
  r ← expect (testmode_config m disks_events_logfile interfaces);
  match r with
  | Err e => mret (Err e)
  | Ok (cluster, _, node) => _ ← check_folders node true; mret (Ok (cluster, node))
  end.
End folders.

(** The command line: the arguments of a node and those of test mode *)
Definition testmode_args : list Arg :=
  [value_arg "data" "" "data"; value_arg "grpc-port" "" "grpc-port"; value_arg "restapi-port" "" "restapi-port"; value_arg "nodes" "" "nodes"].
Definition bobd_args : list Arg :=
  [value_arg "cluster" "c" "cluster"; value_arg "node" "n" "node"; value_arg "name" "a" "name"; value_arg "http_api_address" "h" "host";
   value_arg "http_api_port" "p" "port"; flag_arg "init_folders" "" "init_folders"].

(** ** Lemmas: credentials *)

Section credentials.
Context `{AddressParsers}.
#[local] Set Default Proof Using "Type*".

Lemma node_credentials_ok node :
  dc_kind (node_credentials node) = CK_InterNode (cn_name node) ∧ validate_internode (node_credentials node) = true.
Proof. rw /node_credentials. by destruct (parse_socket _) as [[ip port]|]. Qed.

Lemma credentials_lookup cluster : NoDup (cn_name <$> cl_nodes cluster) → ∀ name c,
  nodes_credentials_from_cluster_config cluster !! name = Some c ↔
  ∃ node, node ∈ cl_nodes cluster ∧ cn_name node = name ∧ c = node_credentials node.
Proof.
  rw /nodes_credentials_from_cluster_config. induction (cl_nodes cluster) as [|node l IH] using rev_ind; intros Hnd name c.
  - simpl. rw lookup_empty. split; [done|]. by intros (? & ?%elem_of_nil & _).
  - rw fmap_app in Hnd. apply list.NoDup_app in Hnd as (Hnd & Hnew & _). specialize (IH Hnd).
    rw foldl_app /= lookup_insert_Some IH. split.
    + intros [[<- <-]|(Hne & node' & Hin & <- & ->)]; [exists node|exists node']; (split; [apply elem_of_app|done]); [right; by apply list_elem_of_singleton|by left].
    + intros (node' & [Hin|Hin%list_elem_of_singleton]%elem_of_app & <- & ->).
      * right. split; [|by exists node']. intros Heq. apply (Hnew (cn_name node')); [by apply list_elem_of_fmap_2|].
        rw -Heq. by apply list_elem_of_singleton.
      * left. by subst node'.
Qed.

(** The guards of all nodes, with the credentials they were made from *)
Lemma set_credentials_nodes now period creds st : NoDup creds.*1 → ∀ name,
  (gd_credentials <$> au_nodes (foldl (set_node_credentials now period) st creds)) !! name =
  match (list_to_map creds : gmap string DeclaredCredentials) !! name with
  | Some c => Some c
  | None => gd_credentials <$> (au_nodes st !! name)
  end.
Proof.
  revert st. induction creds as [|p creds IH]; intros st Hnd name; csimpl; [by rw lookup_empty lookup_fmap|].
  apply list.NoDup_cons in Hnd as [Hp Hnd]. rw IH //. destruct (decide (name = p.1)) as [->|Hne].
  - rw lookup_insert_eq (not_elem_of_list_to_map_1 _ _ Hp) /set_node_credentials. case_match; by rw /= lookup_insert_eq.
  - rw lookup_insert_ne //. case_match; [done|]. rw /set_node_credentials. case_match; by rw /= lookup_insert_ne.
Qed.
End credentials.

(** ** Properties: credentials *)

(** A node that starts with basic authentication knows exactly the nodes of its cluster, each
    by the address or else the host name of the configuration: the [expect] on
    [set_nodes_credentials] cannot fail, every guard is that of its node, and the state
    satisfies the invariant of the resolvers from the first moment. *)
Theorem started_with_the_cluster `{AddressParsers} `{!HashOrder} now users_storage cluster node :
  NoDup (cn_name <$> cl_nodes cluster) → cfg_authentication_type node = NodeConfig.AuthBasic →
  ∃ b st, start_authenticator now (Ok users_storage) cluster node = Some (SA_Basic b st) ∧
    bs_users_storage b = users_storage ∧ resolvers_ok st ∧
    (∀ name c, (gd_credentials <$> (au_nodes st !! name)) = Some c ↔
      ∃ n, n ∈ cl_nodes cluster ∧ cn_name n = name ∧ c = node_credentials n).
Proof.
  intros Hnd Hauth. pose proof (credentials_lookup cluster Hnd) as Hl. rw /start_authenticator Hauth.
  set (creds := hash_order (map_to_list (nodes_credentials_from_cluster_config cluster))).
  set (b := {| bs_users_storage := users_storage; bs_resolve_sleep_period_ms := cfg_hostname_resolve_period_ms node |}).
  assert (creds ≡ₚ map_to_list (nodes_credentials_from_cluster_config cluster)) as Hperm by apply hash_order_perm.
  assert (NoDup creds.*1) as Hkeys by (rw Hperm; apply NoDup_fst_map_to_list).
  assert (∀ p, p ∈ creds → dc_kind p.2 = CK_InterNode p.1 ∧ validate_internode p.2 = true) as Hcreds.
  { intros [name c]. rw Hperm elem_of_map_to_list Hl. intros (n & _ & <- & ->). apply node_credentials_ok. }
  pose proof (resolvers_init b now creds Hkeys (λ p Hp, proj1 (Hcreds p Hp))) as Hok.
  rw /set_nodes_credentials in Hok |- *. assert (node_creds_ok creds = true) as Hvalid.
  { apply forallb_forall. intros p Hp%list_elem_of_In. by apply Hcreds. }
  rw Hvalid in Hok |- *. eexists b, _. split; [done|]. split; [done|]. split; [exact Hok|]. intros name c.
  pose proof (set_credentials_nodes now (bs_resolve_sleep_period_ms b) creds {| au_nodes := ∅; au_resolvers := [] |} Hkeys name) as Hs.
  rw lookup_fmap in Hs. rw Hs. rw (list_to_map_proper creds (map_to_list (nodes_credentials_from_cluster_config cluster))) //.
  rw list_to_map_to_list -Hl. cbn [au_nodes]. rw lookup_empty. by destruct (nodes_credentials_from_cluster_config cluster !! name).
Qed.

(** ** Lemmas: folders *)

(** A folder that is created is there afterwards, and nothing else changes. *)
Class FolderLaws (W : Type) `{Folders W} :=
  created path w r w' : fo_create_dir path w = Some (r, w') →
    ∀ q, fo_is_dir q w' = fo_is_dir q w || (is_ok r && bool_decide (q = path)).

(** The folders of a disk *)
Definition disk_folders (pearl : PearlConfig) (disk : DiskPath) : list string :=
  [path_push (dp_path disk) (bs_root_dir_name (pl_settings pearl)); path_push (dp_path disk) (bs_alien_root_dir_name (pl_settings pearl))].

Section folder_laws.
Context {W : Type} `{FolderLaws W}.
#[local] Set Default Proof Using "Type*".

(** From [w] to [w'] only folders of [l] appeared, and only with the flag. *)
Definition only_new (init_flag : bool) (l : list string) (w w' : W) : Prop :=
  (∀ q, fo_is_dir q w = true → fo_is_dir q w' = true) ∧
  (∀ q, fo_is_dir q w' = true → fo_is_dir q w = true ∨ q ∈ l) ∧ (init_flag = false → w' = w).

Lemma check_folder_spec init_flag path w :
  wlp (check_folder init_flag path) (λ _ w', fo_is_dir path w' = true ∧ only_new init_flag [path] w w') w.
Proof.
  apply wpx_bind, wpx_gets. destruct (fo_is_dir path w) eqn:Hd.
  - apply wpx_ret. split; [done|]. split_and!; [done|by left|done].
  - destruct init_flag; [|done]. apply wpx_bind. rw {1}/wpx. destruct (fo_create_dir path w) as [[[[]|e] w']|] eqn:Hc; [|done..].
    pose proof (created path w (Ok tt) w' Hc) as Hq. simpl in Hq. apply wpx_ret. split; [by rw Hq bool_decide_true // orb_true_r|].
    split; [intros q Hqw; by rw Hq Hqw|]. split; [|done]. intros q. rw Hq. intros [Hw|Heq%bool_decide_eq_true]%orb_true_iff; [by left|].
    right. by apply list_elem_of_singleton.
Qed.

Lemma only_new_trans init_flag l k w w' w'' : only_new init_flag l w w' → only_new init_flag k w' w'' → only_new init_flag (l ++ k) w w''.
Proof.
  intros (Hm & Hn & Hi) (Hm' & Hn' & Hi'). split; [by auto|]. split.
  - intros q [Hq|Hq]%Hn'; [destruct (Hn q Hq) as [?|?]; [by left|right]|right]; apply elem_of_app; by auto.
  - intros Hf. by rw (Hi' Hf) (Hi Hf).
Qed.
End folder_laws.

(** The folders after the disks [l] *)
Definition folders_made `{Folders W} (pearl : PearlConfig) (init_flag : bool) (w : W) (l : list DiskPath) (w' : W) : Prop :=
  let made := l ≫= disk_folders pearl in
  (∀ path, path ∈ made → fo_is_dir path w' = true) ∧ only_new init_flag made w w'.

Lemma wlp_check_folders {W} `{FolderLaws W} node pearl init_flag w :
  backend_type node = Some BackendPearl → cfg_pearl node = Some pearl →
  wlp (check_folders node init_flag) (λ _ w', folders_made pearl init_flag w (cfg_disks_ref node) w') w.
Proof.
  intros Hb Hp. rw /check_folders. apply wpx_bind, (wpx_expect _ _ _ _ _ Hb). case_decide; [|done].
  apply wpx_bind, (wpx_expect _ _ pearl); [done|].
  apply (wpx_for_each True _ _ (λ done_ _ w', folders_made pearl init_flag w done_ w')).
  - split; [by intros path ?%elem_of_nil|]. split_and!; [done|by left|done].
  - intros before disk rest [] w1 _ [Hall Hnew]. apply wpx_bind.
    eapply wpx_mono; [apply check_folder_spec|]. intros [] w2 [Hd2 Hn2].
    eapply wpx_mono; [apply check_folder_spec|]. intros [] w3 [Hd3 Hn3]. rw /folders_made bind_app bind_cons (app_nil_r (disk_folders pearl disk)).
    pose proof (only_new_trans _ _ _ _ _ _ Hn2 Hn3) as Hn23. split; [|by eapply only_new_trans].
    intros path [Hin|Hin]%elem_of_app; [apply Hn23, Hall, Hin|].
    apply elem_of_cons in Hin as [->|Hin]; [by apply Hn3|]. by apply list_elem_of_singleton in Hin as ->.
Qed.

(** After [check_folders] every disk has the folders for data and for aliens; nothing but these
    folders was created, and without the flag nothing at all: the start of a node is refused
    unless they are there. *)
Theorem check_folders_spec {W} `{FolderLaws W} node pearl init_flag w w' :
  backend_type node = Some BackendPearl → cfg_pearl node = Some pearl →
  check_folders node init_flag w = Some (tt, w') →
  folders_made pearl init_flag w (cfg_disks_ref node) w'.
Proof. intros Hb Hp. exact (wpx_elim _ _ _ w tt w' (wlp_check_folders node pearl init_flag w Hb Hp)). Qed.

(** ** Lemmas: test mode *)

(** What the parser of durations says of those of test mode, and the length of a day. *)
Class TestmodeDurations `{ConfigParsers} := {
  tm_parses : ∀ s, s ∈ ["60sec"; "5000ms"; "100ms"; "1d"] → ∃ d, parse_duration s = Ok d;
  tm_day : ∀ d, parse_duration "1d" = Ok d → ∃ p, chrono_from_std d = Some p ∧ p ≤ max_period;
}.

Definition node_name (i : nat) : string := "node_" +:+ fmt_dec (Z.of_nat i).

Lemma node_name_inj i j : Z.of_nat i < 2 ^ 32 → Z.of_nat j < 2 ^ 32 → node_name i = node_name j → i = j.
Proof.
  intros Hi Hj He%(inj (String.append "node_")). apply (f_equal (parse_uint (2 ^ 32))) in He.
  rw !parse_fmt_dec_lt in He; [lia..|]. injection He as He. lia.
Qed.

Lemma node_names_nodup (path : string) (addresses : list string) : Z.of_nat (length addresses) ≤ 2 ^ 32 →
  NoDup (cn_name <$> imap (testmode_node path) addresses).
Proof.
  intros Hl. apply NoDup_alt. intros i j name. rw !list_lookup_fmap !list_lookup_imap.
  destruct (addresses !! i) eqn:Hi, (addresses !! j) eqn:Hj; try done. intros Hx Hy. apply lookup_lt_Some in Hi, Hj.
  apply node_name_inj; [lia..|]. rw /= -Hy in Hx. by apply (inj Some) in Hx.
Qed.


Section testmode.
Context `{UriParser}.
#[local] Set Default Proof Using "Type*".

Definition address_ok (address : string) : Prop := ∃ uri port, parse_uri address = Ok (uri, Some port).

Lemma testmode_cluster_ok path addresses :
  name_ok path → addresses ≠ [] → Z.of_nat (length addresses) ≤ 2 ^ 32 → NoDup addresses → Forall address_ok addresses →
  ∃ cluster, Cluster_get_testmode path addresses = Ok cluster ∧ cl_nodes cluster = imap (testmode_node path) addresses ∧
    cl_vdisks cluster = imap (λ i _, testmode_vdisk i) addresses ∧ cluster_ok cluster.
Proof.
  intros Hpath Hne Hlen Hnd Hok.
  set (cluster := {| cl_nodes := imap (testmode_node path) addresses; cl_vdisks := imap (λ i _, testmode_vdisk i) addresses;
    cl_racks := []; cl_distribution_func := Mod |}).
  assert (cv_id <$> cl_vdisks cluster = seqZ 0 (Z.of_nat (length addresses))) as Hids.
  { simpl. rw /seqZ Nat2Z.id. apply list_eq. intros i. rw !list_lookup_fmap list_lookup_imap.
    destruct (addresses !! i) eqn:Hi; csimpl.
    - pose proof (lookup_lt_Some _ _ _ Hi). rw lookup_seq_lt //=. rw Z.mod_small; [lia|]. f_equal. lia.
    - apply lookup_ge_None in Hi. by rw lookup_seq_ge. }
  assert (cluster_typed cluster) as Hty.
  { rw /cluster_typed Hids. apply list.Forall_forall. intros id Hin%elem_of_seqZ. rw /u32. lia. }
  assert (cluster_ok cluster) as Hc.
  { split; simpl.
    - by destruct addresses.
    - by destruct addresses.
    - done.
    - apply list.Forall_forall. intros node (i & a & -> & Ha)%elem_of_lookup_imap_1. split; [done|].
      split; [|split]; simpl.
      + exact (list.Forall_lookup_1 _ _ _ _ Hok Ha).
      + by apply list.Forall_singleton.
      + by apply NoDup_singleton.
    - apply list.Forall_forall. intros v (i & a & -> & Ha)%elem_of_lookup_imap_1. split; [done|].
      split; [by apply list.Forall_singleton|by apply NoDup_singleton].
    - rw length_imap. by rw -Hids.
    - by apply node_names_nodup.
    - rw (_ : cn_address <$> imap (testmode_node path) addresses = addresses); [|done].
      apply list_eq. intros i. rw list_lookup_fmap list_lookup_imap. by destruct (addresses !! i).
    - constructor.
    - constructor.
    - by intros name ?%elem_of_nil.
    - intros v r (i & a & -> & Ha)%elem_of_lookup_imap_1 Hr%list_elem_of_singleton. subst r.
      exists (testmode_node path i a), {| dp_name := "disk_0"; dp_path := path |}. split_and!; [|done|by left|done].
      by apply elem_of_lookup_imap_2. }
  exists cluster. split; [|done]. rw /Cluster_get_testmode -/cluster.
  by rw (proj2 (Cluster_validate_Ok cluster Hty) Hc).
Qed.
End testmode.

Section testmode_config.
Context `{AddressParsers, UriParser} `{TestmodeDurations}.
#[local] Set Default Proof Using "Type*".

Lemma tm_expect s : s ∈ ["60sec"; "5000ms"; "100ms"; "1d"] → ∃ d, parse_duration s = Ok d ∧ expect_duration s = Some d.
Proof. intros (d & Hd)%tm_parses. exists d. by rw /expect_duration Hd. Qed.

Lemma testmode_settings_validate log disk : BackendSettings_validate (pl_settings (Pearl_get_testmode log disk)) = Some (Ok tt).
Proof.
  destruct (tm_expect "1d") as (d & Hd & He); [set_solver|]. destruct (tm_day d Hd) as (p & Hp & Hmax).
  destruct (tm_expect "100ms") as (w & Hw & _); [set_solver|].
  rw /BackendSettings_validate /bs_period /=. rw Hd He /= Hp /=. destruct (Z.ltb_spec max_period p); [lia|]. by rw Hw.
Qed.

Lemma testmode_config_validate log name disk rest_port : name_ok name →
  NodeConfig_validate (NodeConfig_get_testmode log name disk rest_port) = Some (Ok tt).
Proof.
  intros [Hne Hph]. destruct (tm_expect "60sec") as (a & Ha & _); [set_solver|].
  destruct (tm_expect "5000ms") as (b & Hb & _); [set_solver|]. destruct (tm_expect "100ms") as (c & Hc & _); [set_solver|].
  assert (cfg_check_pearl (NodeConfig_get_testmode log name disk rest_port) = Some (Ok tt)) as Hpearl.
  { rw /cfg_check_pearl /= /Pearl_validate /=. change default_fail_retry_timeout with "100ms". rw Hc /=. exact (testmode_settings_validate log disk). }
  assert (cfg_check_unset (NodeConfig_get_testmode log name disk rest_port) = Ok tt) as Hunset.
  { rw /cfg_check_unset /check_unset_single /=. by rw (decide_False (P := name = PLACEHOLDER)). }
  rw /NodeConfig_validate Hunset Hpearl /=. rw Ha Hb /cfg_check_fields /=. by rw (decide_False (P := name = EmptyString)).
Qed.

Lemma testmode_check path cluster i address log rest_port :
  NoDup (cn_name <$> cl_nodes cluster) → cl_nodes cluster !! i = Some (testmode_node path i address) →
  (∀ v, v ∈ cl_vdisks cluster → length (cv_replicas v) = 1%nat) →
  let config := NodeConfig_get_testmode log (node_name i) "disk_0" rest_port in
  Cluster_check cluster config = Some (Ok tt, set_refs address [{| dp_name := "disk_0"; dp_path := path |}] config).
Proof.
  intros Hnd Hi Hv config. rw /Cluster_check /mbind /M_bind /gets /=.
  destruct (List.find _ (cl_nodes cluster)) as [node|] eqn:Hf.
  - apply find_some in Hf as [Hin%list_elem_of_In Hn%bool_decide_eq_true].
    assert (node = testmode_node path i address) as ->.
    { apply list_elem_of_lookup in Hin as (j & Hj). rw NoDup_alt in Hnd. cut (j = i); [by intros ->; rw Hi in Hj; injection Hj|].
      apply (Hnd j i (node_name i)); rw list_lookup_fmap; [by rw Hj /= Hn|by rw Hi]. }
    destruct (List.find _ (cl_vdisks cluster)) as [v|] eqn:Hfv.
    + apply find_some in Hfv as [Hin'%list_elem_of_In Hlt%Z.ltb_lt]. rw (Hv v Hin') in Hlt. by vm_compute in Hlt.
    + destruct (tm_expect "100ms") as (c & _ & Hc); [set_solver|].
      rw /check_alien_disk /=. rw /NodeConfig_prepare /mbind /M_bind /gets /modify /=.
      rw /fail_retry_timeout /=. change default_fail_retry_timeout with "100ms". by rw Hc.
  - exfalso. apply find_none with (x := testmode_node path i address) in Hf; [by rw bool_decide_true in Hf|].
    apply list_elem_of_In. by apply list_elem_of_lookup_2 in Hi.
Qed.
End testmode_config.

(** ** Property: test mode *)

(** C37: Test mode with any number of distinct addresses, each with a port, and any data path never
    fails: its cluster passes the validation, and every node of it gets a valid configuration with
    its own name, its address to bind to, its disk, and that disk for aliens. *)
Theorem testmode_configured `{AddressParsers, UriParser} `{TestmodeDurations} path addresses disks_events_logfile rest_port :
  name_ok path → addresses ≠ [] → Z.of_nat (length addresses) ≤ 2 ^ 32 → NoDup addresses → Forall address_ok addresses →
  ∃ cluster, Cluster_get_testmode path addresses = Ok cluster ∧ cluster_ok cluster ∧
    ∀ i address, addresses !! i = Some address →
      get_testmode_node_config cluster disks_events_logfile i rest_port =
      Some (Ok (set_refs address [{| dp_name := "disk_0"; dp_path := path |}]
                  (NodeConfig_get_testmode disks_events_logfile (node_name i) "disk_0" rest_port))).
Proof.
  intros Hpath Hne Hlen Hnd Hok. destruct (testmode_cluster_ok path addresses) as (cluster & Hc & Hnodes & Hvdisks & Hcok); [done..|].
  exists cluster. split; [done|]. split; [done|]. intros i address Hi.
  assert (cl_nodes cluster !! i = Some (testmode_node path i address)) as Hni by by rw Hnodes list_lookup_imap Hi.
  rw /get_testmode_node_config Hni /=. rw testmode_config_validate //=. rw (testmode_check path cluster i address disks_events_logfile rest_port (ok_node_names _ Hcok) Hni) //=.
  intros v. rw Hvdisks. by intros (j & a & -> & _)%elem_of_lookup_imap_1.
Qed.

(** ** Examples *)

Module TwoNodes.
#[local] Instance addresses : AddressParsers := {|
  parse_socket := λ s, if bool_decide (s = "127.0.0.1:20000") then Some (IpV4 (127 * 2 ^ 24 + 1), 20000) else None;
  parse_socket_v4 := λ _, Err "invalid socket address syntax";
  parse_ip := λ _, None;
  show_ip := λ ip, match ip with IpV4 a => fmt_dec a | _ => "::" end;
|}.
#[local] Instance uris : UriParser := λ s, Ok (s, Some 20000).
#[local] Instance durations : ConfigParsers := {|
  parse_duration := λ s, Ok (if bool_decide (s = "1d") then 86400 * nanos_per_sec else nanos_per_sec);
  parse_socket_addr := λ _, Ok tt; chrono_from_std := Some; chrono_display := fmt_dec;
|}.
#[local] Instance durations_ok : TestmodeDurations.
Proof. split; [intros s _; by eexists|intros d [= <-]; eexists; split; [done|by vm_compute]]. Qed.
#[local] Instance in_order : HashOrder := {| hash_order A l := l; hash_order_perm A l := Permutation_refl l |}.

(** The second node has a host name for an address. *)
Definition two_nodes : Cluster := {|
  cl_nodes := imap (testmode_node "/tmp/d1") ["127.0.0.1:20000"; "bob-node:20000"];
  cl_vdisks := imap (λ i _, testmode_vdisk i) ["a"; "b"]; cl_racks := []; cl_distribution_func := Mod |}.
Definition basic_node : NodeConfig :=
  let c := NodeConfig_get_testmode "/tmp/bob_events.csv" "node_0" "disk_0" None in
  mkNodeConfig (cfg_log_config c) (cfg_users_config c) (cfg_name c) (cfg_quorum c)
    (cfg_operation_timeout c) (cfg_check_interval c) (cfg_count_interval c) (cfg_cluster_policy c)
    (cfg_backend_type c) (cfg_pearl c) (cfg_metrics c) (cfg_tls c) (cfg_bind_ref c) (cfg_disks_ref c)
    (cfg_cleanup_interval c) (cfg_open_blobs_soft_limit c) (cfg_open_blobs_hard_limit c)
    (cfg_bloom_filter_memory_limit c) (cfg_index_memory_limit c) (cfg_index_memory_limit_soft c)
    (cfg_init_par_degree c) (cfg_disk_access_par_degree c) (cfg_http_api_port c)
    (cfg_http_api_address c) (cfg_bind_to_ip_address c) (cfg_holder_group_size c)
    NodeConfig.AuthBasic (cfg_hostname_resolve_period_ms c).

Lemma started_with_the_cluster_witness :
  NoDup (cn_name <$> cl_nodes two_nodes) ∧
  ∃ b st c, start_authenticator 0 (Ok {| um_inner := ∅; um_password_salt := "bob" |}) two_nodes basic_node = Some (SA_Basic b st) ∧
    (gd_credentials <$> (au_nodes st !! "node_1")) = Some c ∧ dc_hostname c = Some "bob-node:20000".
Proof.
  assert (NoDup (cn_name <$> cl_nodes two_nodes)) as Hnd by by apply (bool_decide_unpack _); vm_compute.
  split; [done|].
  destruct (started_with_the_cluster 0 {| um_inner := ∅; um_password_salt := "bob" |} two_nodes basic_node Hnd eq_refl)
    as (b & st & Hs & _ & _ & Hg).
  exists b, st, (node_credentials (testmode_node "/tmp/d1" 1 "bob-node:20000")). split; [exact Hs|]. split; [|by vm_compute].
  apply Hg. exists (testmode_node "/tmp/d1" 1 "bob-node:20000"). split; [right; left|split; by vm_compute].
Defined.

Lemma testmode_configured_witness :
  name_ok "/tmp/d1" ∧ ∃ cluster, Cluster_get_testmode "/tmp/d1" ["127.0.0.1:20000"; "127.0.0.1:20001"] = Ok cluster ∧ cluster_ok cluster.
Proof.
  assert (NoDup ["127.0.0.1:20000"; "127.0.0.1:20001"]) as Hnd by by apply (bool_decide_unpack _); vm_compute.
  assert (name_ok "/tmp/d1") as Hp by done. split; [done|].
  assert (Forall address_ok ["127.0.0.1:20000"; "127.0.0.1:20001"]) as Ha by (repeat constructor; by do 2 eexists).
  destruct (testmode_configured "/tmp/d1" ["127.0.0.1:20000"; "127.0.0.1:20001"] "/tmp/bob_events.csv" None Hp) as (cluster & Hc & Hok & _);
    [done|by vm_compute|exact Hnd|exact Ha|].
  by exists cluster.
Defined.
End TwoNodes.
