(* ===== verification/Ccg.v ===== *)
(** * Ccg: the command line of the generator of configurations

    [bob-apps/bin/ccg.rs] and the files of [config_cluster_generator/utils.rs].  The file system
    and the text of a configuration (serde_yaml) are parameters; logging is left out. *)

From Corelib Require Import ssreflect.
From stdpp Require Import base option list strings gmap numbers.
From Stdlib Require Import Strings.Ascii ZArith Lia.
From S2P Require Import Prelude Data Text Errors Options Node ClusterConfig NodeConfig Backend ConfigGen GenConfig RecoveryTool Bobp.

(** [file_text]: the outer result is [open], the inner one [read_to_string].  [write_file]
    truncates and writes; [None]: its [expect] fails. *)
Class CcgSystem (W : Type) := {
  file_text : string → W → result (result string string) string;
  write_file : string → string → M W unit;
  print_out : string → M W unit;
}.
Class ClusterYaml := {
  to_yaml : Cluster → option string;
  from_yaml : string → result Cluster string;
}.

Definition ccg_newline : string := String (ascii_of_nat 10) EmptyString.

Section ccg.
Context {W : Type} `{CcgSystem W, ClusterYaml, !UnstableSort, !HashOrder}.

Definition read_file (name : string) (w : W) : result string string :=
  content <-? result_map_err (λ e, "open file: ERR [" +:+ e +:+ "]") (file_text name w);
  result_map_err (λ e, "read file: ERR [" +:+ e +:+ "]") content.
Definition deserialize (content : string) : result Cluster string :=
  result_map_err (λ e, "deserialize: ERR [" +:+ e +:+ "]") (from_yaml content).
Definition read_config_from_file (name : string) (w : W) : result Cluster string :=
  content <-? read_file name w; deserialize content.
Definition write_to_file (output name : string) : M W unit := write_file name (output +:+ ccg_newline).

(** What both subcommands do with their configuration *)
Definition put_output (m : ArgMatches) (output : Cluster) : M W (result unit string) :=
  text ← expect (to_yaml output);
  _ ← match value_of m "output" with Some name => write_to_file text name | None => print_out (text +:+ ccg_newline) end;
  mret (Ok tt).

Definition get_use_racks (m : ArgMatches) : bool := is_present m "use_racks".
Definition expand_config (m : ArgMatches) (config hardware_config : Cluster) : option (result Cluster string) :=
  simple_expand config hardware_config (get_use_racks m).

Definition subcommand_new (m : ArgMatches) : M W (result unit string) :=
  input ← expect (value_of m "input");
  config ← gets (read_config_from_file input);
  match config with
  | Err e => mret (Err e)
  | Ok config =>
      replicas ← expect (value_of m "replicas");
      output ← expect (generate_config replicas (value_of m "vdisks_count") (value_of m "vdisks_per_disk") (get_use_racks m) config);
      match output with Err e => mret (Err e) | Ok output => put_output m output end
  end.

Definition subcommand_expand (m : ArgMatches) : M W (result unit string) :=
  input ← expect (value_of m "input");
  config ← gets (read_config_from_file input);
  match config with
  | Err e => mret (Err e)
  | Ok config =>
      hardware ← expect (value_of m "hardware");
      hardware_config ← gets (read_config_from_file hardware);
      match hardware_config with
      | Err e => mret (Err e)
      | Ok hardware_config =>
          output ← expect (expand_config m config hardware_config);
          match output with Err e => mret (Err e) | Ok output => put_output m output end
      end
  end.

Definition ccg_args : list (string * list Arg) :=
  let input := default_arg "input" "i" "" "cluster.yaml" in
  let output := value_arg "output" "o" "" in
  let use_racks := flag_arg "use_racks" "R" "use-racks" in
  [("expand", [input; output; use_racks; required_arg "hardware" "H" ""]);
   ("new", [input; output; value_arg "vdisks_per_disk" "p" "vdisks_per_disk"; value_arg "vdisks_count" "d" "vdisks_count";
            use_racks; default_arg "replicas" "r" "" "1"])].

Definition try_main (subcommand : string) (m : ArgMatches) : M W (result unit string) :=
  if bool_decide (subcommand = "new") then subcommand_new m
  else if bool_decide (subcommand = "expand") then subcommand_expand m
  else mret (Err "incorrect arguments: ERR").
End ccg.

(** ** Laws of the parameters *)

(** A written file holds its text, a configuration that is written is read back, also with the
    end of line after it. *)
Class CcgLaws (W : Type) `{CcgSystem W, ClusterYaml} := {
  written name text w w' : write_file name text w = Some (tt, w') → file_text name w' = Ok (Ok text);
  yaml_total c : is_Some (to_yaml c);
  yaml_back c text : to_yaml c = Some text → from_yaml (text +:+ ccg_newline) = Ok c;
}.

(** ** Properties *)

(** [ccg new] on a file with valid hardware and enough nodes, with numbers for its arguments and
    an output that can be written, writes a file whose configuration is valid and has the
    hardware of the input and the virtual disks asked for: what a node reads from it. *)
Theorem ccg_new_valid {W} `{CcgLaws W, !UnstableSort, !HashOrder, UriParser} (m : ArgMatches) (w : W) input output replicas config n total per_disk count :
  value_of m "input" = Some input → value_of m "output" = Some output → value_of m "replicas" = Some replicas →
  (∀ text, is_Some (write_file output text w)) →
  read_config_from_file input w = Ok config → get_replicas_count replicas = Ok n →
  get_vdisks_total_and_per_disk (value_of m "vdisks_count") (value_of m "vdisks_per_disk") = Ok (total, per_disk) →
  hardware_ok config (get_use_racks m) → hardware_for n config (get_use_racks m) → (0 < n)%nat →
  planned_count config n total per_disk = Some count → (0 < count)%nat → Z.of_nat count ≤ 2 ^ 32 →
  ∃ w' vs, try_main "new" m w = Some (Ok tt, w') ∧ read_config_from_file output w' = Ok (vdisks_extend vs config) ∧
    length vs = count ∧ (∀ v, v ∈ vs → length (cv_replicas v) = n) ∧ validate (vdisks_extend vs config) = Ok tt.
Proof.
  intros Hi Ho Hr Hwrite Hread Hn Hv Hhw Hfor Hpos Hplan Hc Hc32.
  destruct (simple_gen_good config n total per_disk count (get_use_racks m)) as (vs & Hgen & Hlen & Hvs & Hval); [done..|].
  destruct (yaml_total (vdisks_extend vs config)) as (text & Htext).
  destruct (Hwrite (text +:+ ccg_newline)) as ([[] w'] & Hw).
  exists w', vs. split_and!; [|by rw /read_config_from_file /read_file (written _ _ _ _ Hw) /= /deserialize (yaml_back _ _ Htext)|done| |done].
  - rw /try_main bool_decide_true // /subcommand_new Hi Hr /mbind /M_bind /gets /= Hread /= /generate_config Hn Hv Hgen /=.
    by rw /put_output /mbind /M_bind Htext Ho /= /write_to_file Hw.
  - intros v Hin. by apply Hvs.
Qed.

(** ** Example: files in a map, configurations as numbers in base two *)

Module MapFiles.
#[local] Instance Rack_eq_dec : EqDecision Rack.
Proof. solve_decision. Defined.
#[local] Instance Rack_countable : Countable Rack.
Proof. refine (inj_countable' (λ r, (rack_name r, rack_nodes r)) (λ p, {| rack_name := p.1; rack_nodes := p.2 |}) _). by intros []. Defined.
#[local] Instance DiskPath_countable : Countable DiskPath.
Proof. refine (inj_countable' (λ d, (dp_name d, dp_path d)) (λ p, {| dp_name := p.1; dp_path := p.2 |}) _). by intros []. Defined.
#[local] Instance Replica_eq_dec : EqDecision Replica.
Proof. solve_decision. Defined.
#[local] Instance Replica_countable : Countable Replica.
Proof. refine (inj_countable' (λ r, (rep_node r, rep_disk r)) (λ p, {| rep_node := p.1; rep_disk := p.2 |}) _). by intros []. Defined.
#[local] Instance ClusterNode_eq_dec : EqDecision ClusterNode.
Proof. solve_decision. Defined.
#[local] Instance ClusterNode_countable : Countable ClusterNode.
Proof.
  refine (inj_countable' (λ n, (cn_name n, cn_address n, cn_disks n)) (λ p, {| cn_name := p.1.1; cn_address := p.1.2; cn_disks := p.2 |}) _).
  by intros [].
Defined.
#[local] Instance ConfigVDisk_eq_dec : EqDecision ConfigVDisk.
Proof. solve_decision. Defined.
#[local] Instance ConfigVDisk_countable : Countable ConfigVDisk.
Proof. refine (inj_countable' (λ v, (cv_id v, cv_replicas v)) (λ p, {| cv_id := p.1; cv_replicas := p.2 |}) _). by intros []. Defined.
#[local] Instance DistributionFunc_eq_dec : EqDecision DistributionFunc.
Proof. solve_decision. Defined.
#[local] Instance Cluster_eq_dec : EqDecision Cluster.
Proof. solve_decision. Defined.
#[local] Instance Cluster_countable : Countable Cluster.
Proof.
  refine (inj_countable' (λ c, (cl_nodes c, cl_vdisks c, cl_racks c))
    (λ p, {| cl_nodes := p.1.1; cl_vdisks := p.1.2; cl_racks := p.2; cl_distribution_func := Mod |}) _).
  by intros [? ? ? []].
Defined.

Fixpoint show_binary (p : positive) : string :=
  match p with xI p => "1" +:+ show_binary p | xO p => "0" +:+ show_binary p | xH => "" end.
Fixpoint read_binary (s : string) : positive :=
  match s with
  | String c s => if bool_decide (c = "1"%char) then xI (read_binary s) else if bool_decide (c = "0"%char) then xO (read_binary s) else xH
  | EmptyString => xH
  end.
Lemma binary_back p : read_binary (show_binary p +:+ ccg_newline) = p.
Proof. induction p as [p IH|p IH|]; simpl; [by rw IH..|done]. Qed.

#[local] Instance yaml : ClusterYaml := {|
  to_yaml c := Some (show_binary (encode c)); from_yaml s := ok_or (decode (read_binary s)) "expected a configuration" |}.
#[local] Instance system : CcgSystem (gmap string string) := {|
  file_text name w := match w !! name with Some text => Ok (Ok text) | None => Err "No such file or directory" end;
  write_file name text w := Some (tt, <[name := text]> w);
  print_out text w := Some (tt, w) |}.
#[local] Instance laws : CcgLaws (gmap string string).
Proof.
  split.
  - intros name text w w' [= <-]. by rw /file_text /= lookup_insert_eq.
  - by intros c; eexists.
  - intros c text [= <-]. by rw /from_yaml /= binary_back decode_encode.
Qed.

#[local] Existing Instance insertion_sort_unstable.
#[local] Existing Instance order_kept.
#[local] Existing Instance uri_example.

(** [ccg new -i hw.yaml -o cluster.yaml -p 4 -r 2 --use-racks] *)
Definition new_args : ArgMatches := {|
  value_of := λ a, (list_to_map [("input", "hw.yaml"); ("output", "cluster.yaml"); ("replicas", "2"); ("vdisks_per_disk", "4")] : gmap string string) !! a;
  is_present := λ a, bool_decide (a = "use_racks") |}.

Lemma ccg_new_valid_witness :
  let w := {[ "hw.yaml" := show_binary (encode hw_racks) ]} : gmap string string in
  hardware_ok hw_racks true ∧
  ∃ w' vs, try_main "new" new_args w = Some (Ok tt, w') ∧ read_config_from_file "cluster.yaml" w' = Ok (vdisks_extend vs hw_racks) ∧ length vs = 10%nat.
Proof.
  intros w. pose proof (hw_racks_ok true) as Hhw. split; [done|].
  assert (hardware_for 2 hw_racks true) as Hn.
  { intros rack. rw !elem_of_cons. intros [->|[->|?%elem_of_nil]]; [vm_compute; lia..|done]. }
  assert (read_config_from_file "hw.yaml" w = Ok hw_racks) as Hread by by vm_compute.
  destruct (ccg_new_valid new_args w "hw.yaml" "cluster.yaml" "2" hw_racks 2 None (Some 4%nat) 10 eq_refl eq_refl eq_refl
    ltac:(by intros text; eexists) Hread ltac:(by vm_compute) ltac:(by vm_compute) Hhw Hn ltac:(lia) ltac:(by vm_compute) ltac:(lia) ltac:(lia))
    as (w' & vs & Hrun & Hback & Hlen & _). exists w', vs. split; [exact Hrun|split; [exact Hback|exact Hlen]].
Defined.
End MapFiles.
