(* ===== verification/InterNode.v ===== *)
(** * InterNode: requests from one node to another

    The headers the client of a node puts on its requests ([set_credentials] and
    [set_node_name] of [bob-common/src/bob_client.rs]) against the basic authenticator another node
    of the same cluster was started with ([Bobd.v], [Access.v]): the two ends of the
    authentication between nodes together.  The values a header may have are tonic's. *)

From Corelib Require Import ssreflect.
From stdpp Require Import base option list strings gmap numbers.
From Stdlib Require Import Strings.Byte Strings.Ascii ZArith Lia.
From S2P Require Import Prelude Data Text Errors Options Node ClusterConfig NodeConfig Backend Access GrpcTools Bobd.

(** Whether [MetadataValue::from_str] takes the text. *)
Class MetadataCrate := metadata_ok : string → bool.

(** The identity of a [BobClient]: its name and the header made of it in [create] *)
Record Identity : Type := { id_local_node_name : string; id_auth_header : string }.

Section client.
Context `{Base64Encode, MetadataCrate}.

Definition BobClient_identity (local_node_name : string) : Identity :=
  {| id_local_node_name := local_node_name; id_auth_header := internode_header base64_encode local_node_name |}.

(** [None]: the [expect] on the value. *)
Definition set_header (name value : string) (metadata : gmap string string) : option (gmap string string) :=
  if metadata_ok value then Some (<[name := value]> metadata) else None.
Definition set_credentials (c : Identity) : gmap string string → option (gmap string string) :=
  set_header "authorization" (id_auth_header c).
Definition set_node_name (c : Identity) : gmap string string → option (gmap string string) :=
  set_header "node_name" (id_local_node_name c).

(** The headers of a request of the client: the name of the node is on a ping only.  The
    timeout is a header of tonic's that no authenticator reads. *)
Inductive NodeRequest : Type := NodePut | NodeGet | NodePing | NodeExist | NodeDelete.
Definition client_metadata (request : NodeRequest) (c : Identity) : option (gmap string string) :=
  metadata ← set_credentials c ∅;
  match request with
  | NodePing => set_node_name c metadata
  | NodePut | NodeGet | NodeExist | NodeDelete => Some metadata
  end.
End client.

(** What the server sees of a request: its headers and the address it comes from *)
Definition received (metadata : gmap string string) (caller : SocketAddr) : AccessRequest :=
  {| ar_header := λ h, Ok <$> (metadata !! h); ar_remote_addr := Some caller |}.

(** ** Laws of the crates *)

(** Visible ASCII *)
Definition visible (s : string) : bool :=
  forallb (λ c, (32 <=? byte_of_char c) && (byte_of_char c <? 127)) (String.list_ascii_of_string s).

(** Base64 is decoded to what was encoded, and is a word of visible characters; tonic takes visible
    text, and unicase tells the two kinds of credentials apart. *)
Class InterNodeLaws `{AccessCrates, Base64Encode, MetadataCrate} := {
  decode_encode64 l : base64_decode (base64_encode l) = Ok l;
  encode_plain l : plain (base64_encode l) = true ∧ visible (base64_encode l) = true;
  encode_some l : l ≠ [] → base64_encode l ≠ EmptyString;
  metadata_visible s : visible s = true → metadata_ok s = true;
  internode_is_itself : unicase_eq "InterNode" "InterNode" = true;
  internode_not_basic : unicase_eq "InterNode" "Basic" = false;
}.

(** ** Lemmas *)

Lemma byte_val_char c : byte_val (default x00 (Byte.of_N (N_of_ascii c))) = byte_of_char c.
Proof.
  rw /byte_val /byte_of_char. pose proof (N_ascii_bounded c) as Hb. destruct (Byte.of_N (N_of_ascii c)) as [b|] eqn:Ho.
  - apply Byte.to_of_N in Ho. by rw /= Ho.
  - apply Byte.of_N_None_iff in Ho. lia.
Qed.

Lemma visible_utf8 s : visible s = true → utf8_valid (bytes_of_string s) = true.
Proof.
  rw /visible /bytes_of_string. induction (String.list_ascii_of_string s) as [|c l IH]; [done|].
  rw fmap_cons. cbn [forallb utf8_valid]. intros [[H1%Z.leb_le H2%Z.ltb_lt]%andb_true_iff Hl]%andb_true_iff.
  assert (in_bytes 0 127 (default x00 (Byte.of_N (N_of_ascii c))) = true) as ->; [|by apply IH].
  rw /in_bytes byte_val_char. apply andb_true_iff. split; apply Z.leb_le; lia.
Qed.

Lemma visible_app a b : visible a = true → visible b = true → visible (a +:+ b) = true.
Proof. rw /visible. induction a as [|c a IH]; [done|]. simpl. intros [-> Ha]%andb_true_iff Hb. by apply IH. Qed.

Lemma bytes_of_string_nil s : bytes_of_string s = [] → s = EmptyString.
Proof. by destruct s. Qed.

Section handshake.
Context `{AccessCrates, Base64Encode, MetadataCrate, !InterNodeLaws}.
#[local] Set Default Proof Using "Type*".

(** The client of a node never aborts on its headers, and the node it calls reads its name. *)
Lemma identity_received err kind name caller : visible name = true → name ≠ EmptyString →
  ∃ metadata, client_metadata kind (BobClient_identity name) = Some metadata ∧
    CredentialsHolder_from err Access.AuthBasic (received metadata caller) =
    {| rc_address := Some caller; rc_kind := Some (CK_InterNode name) |}.
Proof.
  intros Hv Hne. pose proof (encode_plain (bytes_of_string name)) as [Hplain Hvis].
  assert (metadata_ok (internode_header base64_encode name) = true) as Hok by by apply metadata_visible, (visible_app "InterNode ").
  pose proof (metadata_visible name Hv) as Hnok. rw /client_metadata /set_credentials /set_node_name /set_header.
  cbn [BobClient_identity id_auth_header id_local_node_name]. rw Hok /= Hnok.
  assert (∀ metadata, metadata !! "authorization" = Some (internode_header base64_encode name) →
    CredentialsHolder_from err Access.AuthBasic (received metadata caller) =
    {| rc_address := Some caller; rc_kind := Some (CK_InterNode name) |}) as Hread.
  { intros metadata Hm. apply (internode_header_roundtrip err base64_encode); [apply decode_encode64|done| |apply internode_is_itself|apply internode_not_basic| |].
    - apply encode_some. by intros ?%bytes_of_string_nil.
    - by apply visible_utf8.
    - by rw /= Hm. }
  destruct kind; (eexists; split; [reflexivity|]); apply Hread;
    first [by rw lookup_insert_eq|by rw lookup_insert_ne // lookup_insert_eq].
Qed.

(** What the authenticator answers to a node by its guard *)
Lemma internode_answer b now name caller st g :
  au_nodes st !! name = Some g → dc_kind (gd_credentials g) = CK_InterNode name → ∃ st',
  check_credentials_grpc b now {| rc_address := Some caller; rc_kind := Some (CK_InterNode name) |} st =
  Some (if existsb (λ a, bool_decide (sa_ip a = sa_ip caller)) (dc_address (gd_credentials g)) then Ok perm_all else Err AE_UnauthorizedRequest, st').
Proof. intros Hg Hk. rw /check_credentials_grpc /mbind /M_bind /= /check_node_request /check_node_read Hg Hk /=. by eexists. Qed.

(** The two answers apart *)
Lemma answer_is (l : list SocketAddr) caller :
  (∃ a, a ∈ l ∧ sa_ip a = sa_ip caller) ↔
  (if existsb (λ a, bool_decide (sa_ip a = sa_ip caller)) l then Ok perm_all else Err AE_UnauthorizedRequest) = Ok perm_all.
Proof.
  destruct (existsb _ l) eqn:He.
  - split; [done|]. intros _. apply existsb_exists in He as (a & Hin%list_elem_of_In & Ha%bool_decide_eq_true). by exists a.
  - split; [|done]. intros (a & Hin & Ha). apply not_true_iff_false in He. destruct He. apply existsb_exists.
    exists a. split; [by apply list_elem_of_In|by apply bool_decide_eq_true].
Qed.
End handshake.

Lemma node_credentials_address `{AddressParsers} n a :
  a ∈ dc_address (node_credentials n) ↔
  ∃ ip port, parse_socket (cn_address n) = Some (ip, port) ∧ a = {| sa_ip := show_ip ip; sa_port := port |}.
Proof.
  rw /node_credentials. destruct (parse_socket (cn_address n)) as [[ip port]|]; simpl.
  - rw list_elem_of_singleton. split; [intros ->; by exists ip, port|]. by intros (ip' & port' & [= <- <-] & ->).
  - split; [by intros ?%elem_of_nil|]. by intros (ip & port & ? & _).
Qed.

Lemma same_name cluster n n' : NoDup (cn_name <$> cl_nodes cluster) → n ∈ cl_nodes cluster → n' ∈ cl_nodes cluster →
  cn_name n = cn_name n' → n = n'.
Proof.
  intros Hnd (i & Hi)%list_elem_of_lookup (j & Hj)%list_elem_of_lookup Hn. rw NoDup_alt in Hnd.
  assert (i = j) as ->; [|by rw Hi in Hj; injection Hj].
  apply (Hnd i j (cn_name n)); rw list_lookup_fmap; [by rw Hi|by rw Hj /= Hn].
Qed.

(** A name that a header cannot have aborts the node when it pings another, and only then. *)
Lemma unfit_name_aborts_ping `{AccessCrates, Base64Encode, MetadataCrate} kind name :
  metadata_ok name = false → metadata_ok (internode_header base64_encode name) = true →
  client_metadata kind (BobClient_identity name) = None ↔ kind = NodePing.
Proof. intros Hn Ha. rw /client_metadata /set_credentials /set_node_name /set_header /= Ha /= Hn. by destruct kind. Qed.

(** ** Property *)

(** C33: Requests between nodes that were started with the same cluster: the client of a node never
    aborts on the headers of any request, whatever visible name it has, and a node with basic authentication gives
    the request all permissions exactly when the cluster has a node of that name whose address is
    an address of the caller - any other request between nodes is unauthorized, also that of a
    node known by its host name, until the name is resolved: then it is let in from an address
    found, if from no other. *)
Theorem internode_requests `{InterNodeLaws, AddressParsers} `{!HashOrder} err started users_storage cluster node kind name caller now :
  NoDup (cn_name <$> cl_nodes cluster) → cfg_authentication_type node = NodeConfig.AuthBasic →
  visible name = true → name ≠ EmptyString →
  ∃ b st metadata r st',
    start_authenticator started (Ok users_storage) cluster node = Some (SA_Basic b st) ∧
    client_metadata kind (BobClient_identity name) = Some metadata ∧
    let request := CredentialsHolder_from err Access.AuthBasic (received metadata caller) in
    check_credentials_grpc b now request st = Some (r, st') ∧
    (r = Ok perm_all ↔ ∃ n ip port, n ∈ cl_nodes cluster ∧ cn_name n = name ∧ parse_socket (cn_address n) = Some (ip, port) ∧ show_ip ip = sa_ip caller) ∧
    (r ≠ Ok perm_all → r = Err AE_UnauthorizedRequest) ∧
    ∀ n addr resolved, n ∈ cl_nodes cluster → cn_name n = name → parse_socket (cn_address n) = None →
      let nodes := resolve_finish resolved (node_credentials n) addr (au_nodes st) in
      ∃ r' st'', check_credentials_grpc b now request {| au_nodes := nodes; au_resolvers := [] |} = Some (r', st'') ∧
        (r' = Ok perm_all ↔ ∃ a, a ∈ addr ∧ sa_ip a = sa_ip caller).
Proof.
  intros Hnd Hauth Hv Hne.
  destruct (started_with_the_cluster started users_storage cluster node Hnd Hauth) as (b & st & Hs & _ & Hok & Hg).
  destruct (identity_received err kind name caller Hv Hne) as (metadata & Hm & Hr).
  exists b, st, metadata. cbv zeta. rw Hr. destruct (au_nodes st !! name) as [g|] eqn:Hname.
  - assert (∃ n, n ∈ cl_nodes cluster ∧ cn_name n = name ∧ gd_credentials g = node_credentials n) as (n & Hn & Hnn & Hc).
    { apply Hg. by rw Hname. }
    assert (∀ n', n' ∈ cl_nodes cluster → cn_name n' = name → n' = n) as Huniq.
    { intros n' Hin' Hnn'. symmetry. apply (same_name cluster); [done..|by rw Hnn Hnn']. }
    destruct (internode_answer b now name caller st g Hname (ro_named st Hok _ _ Hname)) as (st' & Hcheck).
    eexists _, st'. split; [done|]. split; [done|]. split; [exact Hcheck|]. split; [|split].
    + rw -(answer_is (dc_address (gd_credentials g)) caller) Hc. split.
      * intros (a & (ip & port & Hp & ->)%node_credentials_address & Ha). by exists n, ip, port.
      * intros (n' & ip & port & Hin' & Hnn' & Hp & Ha). rw (Huniq n' Hin' Hnn') in Hp.
        eexists. split; [apply node_credentials_address; by exists ip, port|done].
    + by destruct (existsb _ _).
    + intros n' addr resolved Hin' Hnn' Hp. rw (Huniq n' Hin' Hnn') in Hp |- *.
      set (g' := set_resolved resolved addr g).
      assert (resolve_finish resolved (node_credentials n) addr (au_nodes st) !! name = Some g') as Hname'.
      { rw /resolve_finish (proj1 (node_credentials_ok n)) Hnn lookup_alter_eq Hname. done. }
      destruct (internode_answer b now name caller {| au_nodes := resolve_finish resolved (node_credentials n) addr (au_nodes st); au_resolvers := [] |} g' Hname')
        as (st'' & Hcheck'); [exact (ro_named st Hok _ _ Hname)|].
      eexists _, st''. split; [exact Hcheck'|]. symmetry. apply (answer_is addr caller).
  - assert (∀ n, n ∈ cl_nodes cluster → cn_name n ≠ name) as Hno.
    { intros n Hin Hnn. pose proof (proj2 (Hg name (node_credentials n)) (ex_intro _ n (conj Hin (conj Hnn eq_refl)))) as Hc. by rw Hname in Hc. }
    exists (Err AE_UnauthorizedRequest), st. split; [done|]. split; [done|]. split; [|split].
    + rw /check_credentials_grpc /mbind /M_bind /= /check_node_request /check_node_read Hname. done.
    + split; [done|]. intros (n & _ & _ & Hin & Hnn & _). by destruct (Hno n Hin).
    + split; [done|]. intros n addr resolved Hin Hnn. by destruct (Hno n Hin).
Qed.

(** ** Example: the nodes of [Bobd.TwoNodes], two letters for a byte *)

Module Handshake.
Definition letter (n : N) : ascii := ascii_of_N (65 + n).
Definition encode_byte (b : byte) (s : string) : string :=
  String (letter (Byte.to_N b / 16)) (String (letter (Byte.to_N b mod 16)) s).
Fixpoint decode_letters (s : string) : list byte :=
  match s with
  | String hi (String lo s) => default x00 (Byte.of_N ((N_of_ascii hi - 65) * 16 + (N_of_ascii lo - 65))) :: decode_letters s
  | _ => []
  end.

#[local] Instance letters : Base64Encode := foldr encode_byte EmptyString.
#[local] Instance crates : AccessCrates := {|
  base64_decode s := Ok (decode_letters s); from_hex s := Some (bytes_of_string s); sha512 l := rev l; unicase_eq a b := bool_decide (a = b) |}.
#[local] Instance visible_only : MetadataCrate := visible.
#[local] Existing Instance Bobd.TwoNodes.addresses.
#[local] Existing Instance Bobd.TwoNodes.in_order.

Lemma letters_of b s : plain s = true ∧ visible s = true → plain (encode_byte b s) = true ∧ visible (encode_byte b s) = true.
Proof. intros [Hp Hv]. rw /visible /= in Hv. rw /encode_byte /visible /=. rw Hp Hv. by destruct b. Qed.

#[local] Instance laws : InterNodeLaws.
Proof.
  split; [| | |done|by vm_compute|by vm_compute].
  - intros l. rw /base64_decode /=. f_equal. induction l as [|b l IH]; [done|]. cbn. f_equal; [by destruct b|exact IH].
  - intros l. induction l as [|b l IH]; [done|]. by apply letters_of.
  - by intros [|b l].
Qed.

(** The first node is known by its address and let in from there; from another address it is not. *)
Lemma internode_requests_witness :
  let caller := {| sa_ip := fmt_dec (127 * 2 ^ 24 + 1); sa_port := 45678 |} in
  NoDup (cn_name <$> cl_nodes Bobd.TwoNodes.two_nodes) ∧
  ∀ kind, ∃ b st metadata st',
    start_authenticator 0 (Ok {| um_inner := ∅; um_password_salt := "bob" |}) Bobd.TwoNodes.two_nodes Bobd.TwoNodes.basic_node = Some (SA_Basic b st) ∧
    client_metadata kind (BobClient_identity "node_0") = Some metadata ∧
    check_credentials_grpc b 7 (CredentialsHolder_from (λ _, "") Access.AuthBasic (received metadata caller)) st = Some (Ok perm_all, st').
Proof.
  intros caller.
  assert (NoDup (cn_name <$> cl_nodes Bobd.TwoNodes.two_nodes)) as Hnd by by apply (bool_decide_unpack _); vm_compute.
  split; [exact Hnd|]. intros kind.
  destruct (internode_requests (λ _, "") 0 {| um_inner := ∅; um_password_salt := "bob" |} Bobd.TwoNodes.two_nodes Bobd.TwoNodes.basic_node
    kind "node_0" caller 7 Hnd eq_refl ltac:(by vm_compute) ltac:(done)) as (b & st & metadata & r & st' & Hs & Hm & Hr & Hiff & _).
  assert (r = Ok perm_all) as Hok.
  { apply Hiff. exists (testmode_node "/tmp/d1" 0 "127.0.0.1:20000"), (IpV4 (127 * 2 ^ 24 + 1)), 20000.
    split; [left|]. split; [by vm_compute|split; by vm_compute]. }
  exists b, st, metadata, st'. split; [exact Hs|split; [exact Hm|rw -Hok; exact Hr]].
Defined.
End Handshake.
