(* ===== verification/EventLog.v ===== *)
(** * EventLog: the log of disk events

    [DisksEventsLogger] of [bob-backend/src/pearl/disk_controller/logger.rs] and the changes of state
    that are logged ([log_state_change] of disk_controller.rs).  The file, whose name is
    configured, and the text of the local time are parameters. *)

From Corelib Require Import ssreflect.
From stdpp Require Import base option list strings numbers.
From Stdlib Require Import Strings.Ascii ZArith Lia.
From S2P Require Import Prelude Data Text Errors Node PearlWorld Rest.

(** The calls on the file of events and [Local::now().format("%+")].  A [write_all] that fails may
    have written a part of its text. *)
Class EventFile (W : Type) := {
  ef_exists : W → bool;
  ef_open_append : M W (result unit string);
  ef_create : M W (result unit string);
  ef_write_all : string → M W (result unit string);
  ef_sync : M W (result unit string);
  ef_local_now : M W string;
}.

Definition events_header : string := "disk_name;is_alien;new_state;datetime".
Definition end_of_line : ascii := ascii_of_N 10.

Section logger.
Context {W : Type} `{EventFile W}.

(** [?] on a call of the file *)
Definition io_then {A} (m : M W (result unit string)) (k : M W (result A string)) : M W (result A string) :=
  r ← m; match r with Ok _ => k | Err e => mret (Err e) end.

Definition write_header : M W (result unit string) :=
  io_then (ef_write_all (events_header +:+ String end_of_line EmptyString)) ef_sync.
Definition DisksEventsLogger_new : M W (result unit string) :=
  e ← gets ef_exists;
  if (e : bool) then ef_open_append else io_then ef_create write_header.

Definition event_line (disk_name event : string) (is_alien : bool) (time : string) : string :=
  join ";" [disk_name; fmt_bool is_alien; event; time].
(** Errors are only logged. *)
Definition log_event (disk_name event : string) (is_alien : bool) : M W unit :=
  cur_time ← ef_local_now;
  _ ← ef_write_all (event_line disk_name event is_alien cur_time +:+ String end_of_line EmptyString);
  _ ← ef_sync;
  mret tt.

Definition state_event (new_state : GroupsState) : option string :=
  match new_state with DiskNotReady => Some "off" | DiskReady => Some "on" | DiskInitialized => None end.
Definition log_state_change (disk_name : string) (is_alien : bool) (new_state : GroupsState) : M W unit :=
  match state_event new_state with Some event => log_event disk_name event is_alien | None => mret tt end.
End logger.

(** ** Laws of the file *)

(** [content]: the text of the file, when there is one.  The local time has no separators, and
    [durable] tells whether writes succeed. *)
Class EventLaws (W : Type) `{EventFile W} := {
  content : W → option string;
  durable : W → Prop;
  exists_content w : ef_exists w = bool_decide (is_Some (content w));
  open_spec text w : content w = Some text → durable w → wp ef_open_append (λ r w', r = Ok tt ∧ content w' = Some text ∧ durable w') w;
  create_spec w : durable w → wp ef_create (λ r w', r = Ok tt ∧ content w' = Some EmptyString ∧ durable w') w;
  write_spec s text w : content w = Some text → durable w →
    wp (ef_write_all s) (λ r w', r = Ok tt ∧ content w' = Some (text +:+ s) ∧ durable w') w;
  sync_spec text w : content w = Some text → durable w → wp ef_sync (λ r w', r = Ok tt ∧ content w' = Some text ∧ durable w') w;
  now_spec text w : content w = Some text → durable w →
    wp ef_local_now (λ t w', content w' = Some text ∧ durable w' ∧ no_sep ";"%char t ∧ no_sep end_of_line t) w;
}.

(** ** Reading the log *)

(** A line of the log as the disk, whether it is that of the aliens, and whether it went on *)
Definition parse_event (line : string) : option (string * bool * bool) :=
  match split_char ";"%char line with
  | [disk; alien; event; _] =>
      if bool_decide (event = "on" ∨ event = "off") then Some (disk, bool_decide (alien = "true"), bool_decide (event = "on")) else None
  | _ => None
  end.
Definition parse_log (text : string) : list (string * bool * bool) := omap parse_event (split_char end_of_line text).

(** The changes that are logged *)
Definition logged (changes : list (string * bool * GroupsState)) : list (string * bool * bool) :=
  omap (λ c, match c.2 with DiskReady => Some (c.1, true) | DiskNotReady => Some (c.1, false) | DiskInitialized => None end) changes.
Definition disk_name_ok (name : string) : Prop := no_sep ";"%char name ∧ no_sep end_of_line name.

(** A log that ends a line *)
Definition lines_ended (text : string) : Prop := ∃ lines, split_char end_of_line text = lines ++ [EmptyString].

(** ** Lemmas *)

Lemma split_go_cons sep s cur : ∃ x l, split_go sep s cur = x :: l.
Proof.
  revert cur. induction s as [|c s IH]; intros cur; cbn [split_go]; [by do 2 eexists|].
  case_decide; [by do 2 eexists|apply IH].
Qed.

Lemma split_go_ended sep text t cur lines : split_go sep text cur = lines ++ [EmptyString] →
  split_go sep (text +:+ t) cur = lines ++ split_go sep t EmptyString.
Proof.
  revert cur lines. induction text as [|c text IH]; intros cur lines.
  - cbn [split_go]. destruct lines as [|l [|]]; [by intros [= ->]|done..].
  - rw append_cons. cbn [split_go]. case_decide; [|apply IH]. destruct lines as [|l lines].
    + destruct (split_go_cons sep text EmptyString) as (x & k & ->). done.
    + intros [= -> Hs]. by rw /= (IH _ _ Hs).
Qed.

Lemma no_sep_test sep s : forallb (λ c, negb (bool_decide (c = sep))) (String.list_ascii_of_string s) = true → no_sep sep s.
Proof.
  induction s as [|d s IH]; [by intros _ [|i]|]. simpl. intros [Hd%negb_true_iff%bool_decide_eq_false Hs]%andb_true_iff [|i] c; simpl.
  - by intros [= <-].
  - by apply IH.
Qed.

(** A line that is appended *)
Lemma lines_append text line : lines_ended text → no_sep end_of_line line →
  lines_ended (text +:+ (line +:+ String end_of_line EmptyString)) ∧
  parse_log (text +:+ (line +:+ String end_of_line EmptyString)) = parse_log text ++ omap parse_event [line].
Proof.
  intros (lines & Hl) Hline. rw /lines_ended /parse_log.
  assert (split_char end_of_line (text +:+ (line +:+ String end_of_line EmptyString)) = (lines ++ [line]) ++ [EmptyString]) as Hs.
  { rw /split_char in Hl |- *. rw (split_go_ended _ _ _ _ _ Hl) split_go_app //. rw -app_assoc. f_equal. }
  rw Hs Hl. split; [by eexists|]. rw !omap_app. by rw /= !app_nil_r.
Qed.

Lemma header_line : no_sep end_of_line events_header ∧ parse_event events_header = None.
Proof. split; [by apply no_sep_test; vm_compute|by vm_compute]. Qed.

Lemma event_line_ok disk alien (on : bool) t : disk_name_ok disk → no_sep ";"%char t → no_sep end_of_line t →
  let line := event_line disk (if on then "on" else "off") alien t in
  no_sep end_of_line line ∧ parse_event line = Some (disk, alien, on).
Proof.
  intros [Hd Hd'] Ht Ht'. cbv zeta. split.
  - apply no_sep_join; [done|]. constructor; [done|]. constructor; [apply no_sep_test; by destruct alien; vm_compute|].
    constructor; [apply no_sep_test; by destruct on; vm_compute|]. constructor; [done|constructor].
  - rw /parse_event /event_line split_char_join; [done| |by destruct alien, on].
    constructor; [done|]. constructor; [apply no_sep_test; by destruct alien; vm_compute|].
    constructor; [apply no_sep_test; by destruct on; vm_compute|]. constructor; [done|constructor].
Qed.

Section laws.
Context {W : Type} `{EventLaws W}.
#[local] Set Default Proof Using "Type*".

(** The log holds [events] after whole lines. *)
Definition holds (events : list (string * bool * bool)) (w : W) : Prop :=
  durable w ∧ ∃ text, content w = Some text ∧ lines_ended text ∧ parse_log text = events.

(** One line written and synced *)
Lemma wp_append {A} (m : M W A) Q line events w : holds events w → no_sep end_of_line line →
  (∀ w', holds (events ++ omap parse_event [line]) w' → wp m Q w') →
  wp (_ ← ef_write_all (line +:+ String end_of_line EmptyString); m) Q w.
Proof.
  intros (Hw & text & Hc & Hend & Hp) Hline Hm. apply wpx_bind. eapply wpx_mono; [by apply write_spec|].
  intros r w1 (_ & Hc1 & Hw1). apply Hm. destruct (lines_append text line Hend Hline) as [He1 Hp1].
  split; [done|]. eexists. split; [done|]. split; [done|]. by rw Hp1 Hp.
Qed.

Lemma wp_synced events w : holds events w → wp ef_sync (λ r w', r = Ok tt ∧ holds events w') w.
Proof.
  intros (Hw & text & Hc & Hrest). eapply wpx_mono; [by apply sync_spec|]. intros r w' (-> & Hc' & Hw').
  split; [done|]. split; [done|]. by exists text.
Qed.

Lemma wp_log_state_change disk alien s events w : disk_name_ok disk → holds events w →
  wp (log_state_change disk alien s) (λ _ w', holds (events ++ logged [(disk, alien, s)]) w') w.
Proof.
  intros Hd Hh. rw /log_state_change.
  assert (∀ on : bool, s = (if on then DiskReady else DiskNotReady) →
    wp (log_event disk (if on then "on" else "off") alien) (λ _ w', holds (events ++ [(disk, alien, on)]) w') w) as Hlog.
  { intros on _. pose proof Hh as (Hw & text & Hc & Hend & Hp). apply wpx_bind. eapply wpx_mono; [by apply now_spec|].
    intros t w1 (Hc1 & Hw1 & Ht & Ht'). destruct (event_line_ok disk alien on t Hd Ht Ht') as [Hline Hparse].
    apply (wp_append _ _ _ events); [split; [done|by exists text]|done|].
    intros w2 Hh2. rw /= Hparse in Hh2. apply wpx_bind. eapply wpx_mono; [by apply wp_synced|]. intros r w3 [_ Hh3]. by apply wpx_ret. }
  destruct s; simpl.
  - by apply (Hlog false).
  - apply wpx_ret. by rw app_nil_r.
  - by apply (Hlog true).
Qed.
End laws.

(** ** Property *)

(** The log of disk events over the starts of a node: a start on a missing file makes one with the
    header, a start on a log keeps it, and after it every change of a disk to ready or not
    ready is one more line, in order.  The log read back is exactly the events before and the changes
    since, each with its disk. *)
Theorem events_logged {W} `{EventLaws W} changes w : durable w → (∀ text, content w = Some text → lines_ended text) →
  Forall (λ c, disk_name_ok c.1.1) changes →
  wp (r ← DisksEventsLogger_new; _ ← for_each (λ _ c, log_state_change c.1.1 c.1.2 c.2) tt changes; mret r)
    (λ r w', r = Ok tt ∧ holds (default [] (parse_log <$> content w) ++ logged changes) w') w.
Proof.
  intros Hw Hold Hnames. apply wpx_bind. eapply (wpx_mono _ _ (λ r w', r = Ok tt ∧ holds (default [] (parse_log <$> content w)) w')).
  - apply wpx_bind, wpx_gets. rw exists_content. destruct (content w) as [text|] eqn:Hc; simpl.
    + eapply wpx_mono; [by apply open_spec|]. intros r w1 (-> & Hc1 & Hw1). split; [done|]. split; [done|].
      exists text. split; [done|]. split; [by apply Hold|done].
    + apply wpx_bind. eapply wpx_mono; [by apply create_spec|]. intros r w1 (-> & Hc1 & Hw1).
      assert (holds [] w1) as Hh1 by (split; [done|]; exists EmptyString; split; [done|]; split; [by exists []|done]).
      apply wpx_bind. pose proof Hh1 as (Hd1 & text & Hct & Hend & Hp).
      eapply wpx_mono; [by apply (write_spec _ text)|]. intros r w2 (-> & Hc2 & Hw2).
      destruct (lines_append text events_header Hend (proj1 header_line)) as [He2 Hp2].
      eapply wpx_mono; [apply (wp_synced [])|done]. split; [done|]. eexists. split; [done|]. split; [done|]. rw Hp2 Hp. by vm_compute.
  - intros r w1 [-> Hh]. apply wpx_bind. set (old := default [] (parse_log <$> content w)) in *. eapply wpx_mono.
    + apply (wpx_for_each False _ _ (λ done_ _ w', holds (old ++ logged done_) w')); [by rw app_nil_r|].
      intros done_ [[disk alien] st] rest [] w2 Hl Hh2. rw /logged omap_app app_assoc. apply wp_log_state_change; [|done].
      apply (list.Forall_forall _ _) with (x := (disk, alien, st)) in Hnames; [done|]. rw Hl. apply elem_of_app. right. by left.
    + intros [] w2 Hh2. by apply wpx_ret.
Qed.

(** ** Example: a file in memory *)

Module MemFile.
Definition File : Type := option string.
#[local] Instance calls : EventFile File := {|
  ef_exists w := bool_decide (is_Some w); ef_open_append w := Some (Ok tt, w); ef_create w := Some (Ok tt, Some EmptyString);
  ef_write_all s w := Some (Ok tt, (λ text, text +:+ s) <$> w); ef_sync w := Some (Ok tt, w);
  ef_local_now w := Some ("2024-05-01T10:00:00+00:00", w) |}.
#[local, refine] Instance laws : EventLaws File := {| content w := w; durable _ := True |}.
Proof.
  - done.
  - done.
  - done.
  - intros s text w -> _. done.
  - done.
  - intros text w -> _. split; [done|]. split; [done|]. split; apply no_sep_test; by vm_compute.
Defined.

Definition changes : list (string * bool * GroupsState) := [("disk_0", false, DiskInitialized); ("disk_0", false, DiskReady); ("alien", true, DiskNotReady)].

Lemma events_logged_witness :
  wp (r ← DisksEventsLogger_new; _ ← for_each (λ _ c, log_state_change c.1.1 c.1.2 c.2) tt changes; mret r)
    (λ r w', r = Ok tt ∧ holds [("disk_0", false, true); ("alien", true, false)] w') (None : File).
Proof.
  assert (Forall (λ c, disk_name_ok c.1.1) changes) as Hnames.
  { repeat (constructor; [split; apply no_sep_test; by vm_compute|]). constructor. }
  pose proof (events_logged changes (None : File) I ltac:(done) Hnames) as Hrun.
  eapply wpx_mono; [exact Hrun|]. intros r w' [Hr Hh]. split; [exact Hr|exact Hh].
Defined.

(** A header that cannot be written leaves an empty file: the next start takes it for a log and
    writes no header. *)
Example header_lost :
  ∃ w, DisksEventsLogger_new (Some EmptyString : File) = Some (Ok tt, w) ∧ w = Some EmptyString.
Proof. by eexists. Qed.
End MemFile.
